(* ===== verification/_CoqProject ===== *)
-Q . S2P
Prelude.v
Text.v
Strings.v
TokenCounter.v
CutType.v
ChunkByWord.v
ChunkBySentence.v
ChunkByParagraph.v
Json.v
Markers.v
DataPoint.v
TextChunker.v
ChunkByRow.v
Models.v
Provenance.v
Proc.v
Task.v
Pipeline.v
PipelineTrace.v
PipelineFacts.v
PipelineSpec.v
RunRecords.v
Ledger.v
LedgerFacts.v
Artifacts.v
Sweep.v
SweepFacts.v
SweepSpec.v
Registry.v
RegistryFacts.v
ScopedWatcher.v
PipelineRuns.v
PipelineRunsFacts.v
Recovery.v
RecoveryFacts.v
Classify.v
Failure.v
Config.v
Rollback.v
Summarize.v
GraphTypes.v
EdgeText.v
Expansion.v
ExpansionFacts.v
EntityIds.v
ExpansionSpec.v
Ownership.v
OwnershipFacts.v
OwnershipSpec.v
DynamicWalk.v
DynamicWalkFacts.v
Loaders.v
StructuralEdges.v
StructuralFacts.v
ChunkDocument.v
AddDataPoints.v
StorageRows.v
StoragePoints.v
StorageSpec.v
StorageTexts.v
CognifyStages.v
CognifyStagesFacts.v
CognifyRun.v
CognifyRunFacts.v
CognifyRunExample.v
StableSort.v
SearchTypes.v
QueryRouter.v
MergeResults.v
HybridContext.v
GraphWarmup.v
SearchMerge.v
SearchScope.v
SearchDatasets.v
SearchFacts.v
RecallScope.v
Recall.v
RecallFacts.v
DatasetLocks.v
DatasetLocksFacts.v
