(* ===== verification/Prelude.v ===== *)
(** * Verification of cognee-rs

    cognee-rs turns documents into a knowledge graph that agents query.  This
    development models the core the rest of the workspace runs on: the chunkers
    that cut documents into bounded pieces, the executor that runs pipelines of
    tasks over data, the provenance it stamps on what they produce, the cognify
    run that builds the graph of a dataset and undoes what a failed run left, with
    the graph it builds, the rows that say who owns each part of it and the vector
    points made of it, the bookkeeping that says what became of each run (the rows of
    [pipeline_runs], the registry of runs in memory, the completion markers, the
    ownership ledger, the per-dataset locks, the ownership markers and the recovery
    of runs whose process died), and the searches and recalls that read the graph:
    what a caller may read, which searches are sent and how their answers are merged.

    ** How the parts interact

    A pipeline ([crates/core/src/pipeline.rs]) is a chain of tasks applied to
    input items.  [execute] wraps the run in its lifecycle: it reports the start,
    the progress of every task and exactly one ending to a watcher; the
    [DbPipelineWatcher] turns these reports into rows of [pipeline_runs].  Inside a
    run each item goes through the chain; outputs of one task are batched for the
    next, calls are retried, items run one after the other or concurrently, and
    every output is stamped with where it comes from.  The registry runs whole
    pipelines, inline or in the background, and offers their phases and events to
    subscribers.

    Cognify ([crates/cognify/src/tasks.rs]) is such a run over the items of one
    dataset: it resolves its configuration, drops the items whose completion marker
    an earlier run wrote, takes an ownership marker, and runs the tasks classify,
    chunk, extract and summarize, add.  Every stage reports its failures in one
    [FailureReport]; whether the run fails is read off that report at its end, and
    the policy layer ([rollback.rs]) then sweeps the run, or the items that failed,
    and marks the others complete.  What a run wrote is found through the ledger of
    ownership rows; the sweep deletes only what no other row claims.  A run that
    writes to a dataset holds the dataset's lock in this process and an ownership
    marker on disk; when a process dies, startup recovery proves from the markers
    which runs are abandoned, sweeps the cognify runs among them and closes their
    rows.  The chunkers are pure functions the chunking stage calls.

    Between extraction and storage a run owns what it writes before it writes it.
    Graph expansion turns the graphs extracted from the chunks into entities, types,
    timestamps and edges, and says which chunks produced each; extraction writes the
    ownership rows of these, then the nodes and edges.  [add_data_points] adds the
    chunks, summaries, documents and custom graphs, with the edges their fields name
    and the [EdgeType] points of all edge texts: ownership rows, graph, vector points
    and evidence, in this order.  The ledger rows are what the sweep of [sweep.rs]
    later reads back.

    A recall ([crates/lib/src/api/recall.rs]) goes through its sources in order: the
    entries of a session and the steps of its traces, ranked by the words they share
    with the query, and the graph.  The graph's part plans a search (the router, or
    the type the caller chose), asks [pipeline_runs] whether the graph is built, and
    sends the search, once more as the fallback if the router's guess failed.  A
    search ([search_orchestrator.rs]) checks and resolves the datasets it names,
    prepares the turn of its session, runs its retriever over the shared store or
    over each dataset in its own stores, and merges the answers.

    ** Files and the code they model

    Foundations:
    - [Prelude]: results, the lemmas on lists, options and maps the components
      share, folds of steps that may panic, notations and hints;
    - [Text]: Rust strings as code points with UTF-8 byte offsets, slices, and byte
      indexing that fails where Rust panics;
    - [Strings]: names and identifiers over Rust's [str] operations
      ([crates/utils/src/id_generation.rs]);
    - [Json]: [serde_json::Value];
    - [Proc]: asynchronous computations, their sequential and interleaved runs, and
      the proof rule [wp] that holds under every interleaving;
    - [StableSort]: [sort_by_key].

    Chunking ([crates/chunking/src]), one file per source file: [CutType],
    [TokenCounter] (the trait is a class), [ChunkByWord], [ChunkBySentence],
    [ChunkByParagraph], [TextChunker], [ChunkByRow].  Each chunker is its loop, as a
    step function on the loop's local variables.

    Data ([crates/models/src], [crates/core/src/provenance.rs]): [DataPoint],
    [Models] (the containers [HasDataPoint] visits), [Classify] ([document.rs]) and
    [Provenance] ([stamp_tree], over typed trees and dynamic containers).

    Execution ([crates/core/src/task.rs], [task_context.rs], [pipeline.rs]):
    [Task]; [Pipeline], one definition per function of the source, as [proc]s over
    the run's [world]; [PipelineTrace] and [PipelineFacts], what a run leaves in its
    log; [PipelineSpec], the reference semantics a run refines.

    Bookkeeping:
    - [RunRecords]: [pipeline_run_registry/{types,run_info,ids,db_watcher}.rs];
    - [Registry], [RegistryFacts]: [pipeline_run_registry/default_impl.rs];
    - [ScopedWatcher]: [pipeline_run_registry/scoped_watcher.rs];
    - [PipelineRuns], [PipelineRunsFacts]: [crates/database/src/pipelines];
    - [Markers]: the completion markers of [crates/database/src/ops/data.rs];
    - [Ledger], [LedgerFacts]: the ownership rows of
      [crates/database/src/ops/graph_storage.rs];
    - [Artifacts], [Sweep], [SweepFacts], [SweepSpec]: the deletion of artifacts in
      [crates/delete/src/lib.rs] and the sweep of a run, [crates/delete/src/sweep.rs];
    - [Recovery], [RecoveryFacts]: [crates/core/src/run_ownership.rs] and
      [crates/delete/src/startup_recovery.rs];
    - [DatasetLocks], [DatasetLocksFacts]: [crates/core/src/dataset_locks.rs].

    Cognify ([crates/cognify/src]):
    - [Failure]: [failure.rs] and [error.rs]; [Config]: [config.rs] and the token
      budget of [crates/chunking/src/config.rs]; [Rollback]: [rollback.rs];
    - [Summarize]: [summarization/extractor.rs] and [models.rs];
    - [Loaders]: the loader registry and the text and CSV loaders of
      [crates/ingestion/src/loaders]; [ChunkDocument]: [chunk_one_document];
    - [CognifyStages], [CognifyStagesFacts]: the tasks of [tasks.rs], each a
      function from its input and the answers of what it calls;
    - [CognifyRun], [CognifyRunFacts], [CognifyRunExample]: the tasks as
      [build_cognify_pipeline] chains them, [cognify_in_scope] around them, the
      theorems on whole runs and their concrete runs.

    The graph a run builds ([crates/cognify/src]):
    - [GraphTypes]: [fact_extraction/models.rs], [graph_integration/types.rs] and the
      entities, types and timestamps of [crates/models/src]; [EdgeText]:
      [graph_extraction/edge_text.rs];
    - [Expansion], [ExpansionFacts], [EntityIds], [ExpansionSpec]:
      [graph_integration/expansion.rs];
    - [Ownership], [OwnershipFacts], [OwnershipSpec]: the second half of
      [extract_graph_from_data], [graph_integration/{db_deduplication,deduplication}.rs];
    - [DynamicWalk], [DynamicWalkFacts]: the storage walk of custom graphs,
      [dynamic_graph.rs] and [store_dynamic_graphs];
    - [StructuralEdges], [StructuralFacts]: [graph_extraction/extractable.rs],
      [edge_evidence.rs], [build_edge_types] and [stamp_structural_edge_text];
    - [AddDataPoints], [StorageRows], [StoragePoints], [StorageSpec], [StorageTexts]:
      [add_data_points] and what it calls in [tasks.rs].

    Search ([crates/search/src]):
    - [SearchTypes]: [types/] and [utils/results.rs]; [QueryRouter]:
      [query_router.rs]; [MergeResults]: [utils/merge_results.rs] and
      [retrievers/hybrid/merge.rs]; [HybridContext]: the assembly of the hybrid context,
      [retrievers/hybrid/{budget,context,facts,entities,mod}.rs];
    - [GraphWarmup]: [graph_warmup.rs] and the evidence queries of
      [crates/database/src/pipelines/sea_orm_impl.rs];
    - [SearchMerge]: [prepare_search_result.rs] and the merge of the answers of
      several datasets; [SearchScope]: what a caller may read, how a request's
      datasets are resolved, and the retriever that serves it; [SearchDatasets]:
      [search_datasets_impl]; [SearchFacts]: their theorems;
    - [RecallScope], [Recall], [RecallFacts]: [recall_scope.rs] and
      [crates/lib/src/api/recall.rs].

    ** What the theorems show

    Execution.  For well-formed pipelines of tasks that compute functions, batch tasks
    that map a function over their batch included, the whole executor refines a
    denotational semantics ([execute_denotes]): retries, batches, streams, concurrency
    and its schedule do not show in the result.  The log of
    every run whose task weights are accepted, whatever its tasks do, is its start,
    well-formed item events and the ending its result determines
    ([execute_lifecycle]); a call's attempts follow the
    retry policy and a failure reports the last one's error ([call_with_retry_log],
    [exponential_delay]); an item is marked
    once, by its outcome ([item_marked_once]).  The error paths have theorems of
    their own: cancellation, a zero weight, panics on misuse, dropped sentinels.

    Chunking.  Every chunker is lossless: its chunks concatenate to the text, and
    their offsets say where they are; sentence chunks and document chunks respect
    the size limit up to the single word or paragraph that exceeds it alone;
    paragraph chunks are groups of sentences; document chunks are the paragraphs, one
    for one; chunk ids and indices are as documented.

    Provenance.  Stamping fills empty fields only, keeps what an earlier task wrote
    and is idempotent.

    Bookkeeping.  Dataset locks exclude each other under every interleaving and
    cancellation, do not deadlock when the documented discipline is kept, and do
    not leak map entries.  A claimed marker proves its run abandoned; a recovery
    pass leaves live runs as they are and closes every eligible abandoned run,
    whatever else it meets.  The runs listing is the page of the visible rows,
    whatever statements compute it.  The registry is bounded and its inline runs are
    recorded; several theorems state behaviour of background runs, snapshots and
    shutdown that departs from the documentation.  The completion markers are a set
    of pairs of items and datasets, whatever else the columns hold.  A sweep
    refines the deletion of what only the run owns, with the counts it reports; it
    takes no node and no point but those of rows no other row shares a slug with; it
    keeps the ledger's promise when calls fail in between, and converges when it is
    retried.  That the points of the rows that stay are spared needs edge texts that
    agree where their ids do; where they do not, a kept point can go
    ([sweep_takes_kept_edge_type]).

    Cognify.  The tasks never panic and account for every item: one that is neither
    failed nor unreached has all its chunks extracted and summarized in the result
    ([run_accounts_for_every_item]); an item is marked complete only if it was
    ([marked_only_if_processed]); a second run over complete items leaves the stores as
    they are and adds only the rows of its own record ([rerun_is_noop]); a run that is
    over has its terminal row or its ownership marker, so recovery can retire it
    ([run_ends_recorded]).  Two documents can share a chunk id; the failure of a
    summary is then charged to one of them, and the theorems on items say so
    ([charged_elsewhere]).  The failure report is
    a function of the log of its operations, the failure decision is that of the
    documented table and threshold, the abort-time partition keeps whole files, both endings of a
    run sweep and mark what the table of scopes says, summarization returns under
    every schedule with at most [max_parallel] calls in flight and in input order,
    and the resolved configuration satisfies what the stages assume of it.

    The graph.  Expansion never panics, writes only edges between things it declares,
    with its timestamps as leaves, and names as producers of an entity exactly the
    chunks that declare it ([expansion_total], [expansion_grounded],
    [timestamps_are_leaves], [producers_exact]); one name is one entity
    ([one_name_one_entity]).  Under every plan of failing calls nothing is in the graph
    that the ledger does not name, in extraction ([extraction_owned_first]) and in
    storage ([storage_owned_first]); an entity two files name survives the deletion of
    one, if each has a chunk whose id is its own ([shared_entity_survives_deletion]); the point of an edge's text is found again
    from the edge's row ([edge_types_derivable]).  The walk of custom graphs ends and
    stores each node once ([store_dynamic_graphs_spec]), and containers are replaced by
    what is reached through them ([transparent_children_exact]).

    Search.  No search opens a dataset its caller may not read
    ([search_reads_only_granted]); one that names the id of such a dataset is refused
    whole ([search_denied]); a fan-out fails exactly if a dataset fails or none has data
    ([dataset_answers_spec]).  Merging two retrievals is the reference ranking, cut to
    its budget with the slots held for the second ([merge_ranked_spec]).  A recall sends
    the planned search and at most the fallback after it, both with the recall's own
    datasets and options, never one the deployment cannot answer, and leaves a type the
    caller chose alone ([planned_searches]); it returns the items of the sources its
    scope names, in order ([recall_spec]), a session's before the
    graph is asked ([recall_session_first]); the verdict on the graph is that of the
    run records ([probe_spec]).  A hybrid context stays within the model's window and
    is made of whole items ([assemble_context_spec]).

    ** Modelling decisions

    - Code from outside the repository is a parameter: tokenizers, [uuid]'s hashes
      and random ids and their printing ([UuidFormat]), [serde_json]'s parser
      ([SerdeJson]), Unicode lowercasing ([Lowercase]), the SQL engine's order of
      equal rows, the clock, the answers of the file system, the CSV reader, the LLM
      and the graph backend.  What is needed of it is a class of laws
      ([CounterLaws], [RepositoryLaws], [WatchLaws], [SqlOrderLaws],
      [UuidFormatLaws], [SerdeJsonLaws]) or a named hypothesis, with an instance in
      the witnesses.
    - A UUID is an [N] compared as a 128-bit number; times are [Z] in milliseconds;
      durations saturate where the source saturates.
    - [f64] is [spec_float] of 53 and 1024; conversions, the division and the
      comparison are those of IEEE 754 with rounding to nearest even.
    - Calls to the databases can fail: a sweep takes a plan that says of each of its
      calls, in order, whether it is answered, refused, or done without an answer,
      and its theorems hold for every plan; a marker or row write fails as its
      environment says.
    - Task bodies are arbitrary computations on a state of their own.  They
      terminate, as a [proc] is a finite tree; retries end at the policy's limit.
    - Loops of the source are structural recursions on their input.  Some
      definitions have fuel: [strip] and [split_ws], which trim and split a string,
      and [utf8_chars_go], which decodes one, have its length (every step but the last
      removes a byte); the search of nested metadata [dlt_sourced_go] has the size of
      the JSON value ([dlt_sourced_fuel]); the walks of custom graphs have the number
      of nodes and two more, and end within it ([store_dynamic_graphs_spec],
      [transparent_children_exact]).  [Proc.join_all] ends under every schedule.
    - Sizes and token totals of the chunkers are [nat], unbounded where the source
      adds [usize] and [i64].
    - Dropping an ownership marker is one step; the source releases the lock before it
      removes the file ([run_ownership.rs], 115-126), so there a claim can slip in
      between.  The parts a run's task context is built of are given, so building it
      does not fail.
    - A step of the dataset locks is the code between two [await]s.  Tokio's mutex
      is fair; here any waiter may get it, so the theorems hold for fair ones too.
    - [buffer_unordered] is a step relation: it admits inputs while the window has
      room, and any admitted future may take its next step.  Summaries are
      collected when the stream is drained, which every fair schedule reaches.
    - A registry operation is one step, except around the work future it runs.
    - JSON objects and hash maps have no iteration order; where the source iterates
      over one (shutdown, [latest_in_flight_rows]) the model takes the map's own
      order and the theorems do not depend on it.
    - SQL statements are the meaning of the query: joined rows filtered, sorted and
      paged.
    - A cognify run is modelled without [graph_schema]; a batch size of 0 is refused
      by [validate].  The tasks' effects on the stores are an argument of the run,
      with what the theorems need of it (they write rows of this run only) as a
      hypothesis.  The token count of an item is computed and not stored.
    - The ids of artifacts and rows are version 5 UUIDs of text; theorems that need it
      assume that hash injective ([v5_injective]), as the code does when it derives
      ids.  The parser of time strings and the ontology resolver are parameters.
    - Of a vector point the stores keep its collection and id.  The embedding engine
      gives a vector for each text or fails ([embeds_all]).  Counts of edge texts are
      32-bit and saturate.  The evidence rows are computed and written; the stores do
      not keep their table.
    - A search is a program of calls on a world they may change; retriever runs,
      sessions and databases are such calls.  The datasets whose stores it opens
      are logged; a run over the shared store is not, as it opens none.  The runs of a fan-out interleave in any way, which covers the source's
      eight at a time.  The analysis of a turn, spawned next to the runs, is taken
      where it is joined.
    - The share of the graph in the budget of a context is an [f64] product; its
      rounding is written out on integers ([round53]) and agrees with [spec_float] on
      samples.  The text of a metadata value is a parameter, and the metadata
      lines of a passage come in the order of the model's map.
    - The patterns of the router and Unicode's classes are parameters.  A recall's
      scores are kept as the expressions they are computed from.

    ** Not modelled

    Telemetry spans and logging, progress fractions (floating point), the token
    bucket's timing, serialization to and from the database, the compilation of a
    custom schema and the materialization of its answers, DLT edges and web pages, the
    lanes of the retrievers (vector, lexical and graph search, prompts and completions),
    the session
    manager's stores, and everything that is a call to an LLM, an embedding engine, a
    vector or graph database, or a file format library.  Configuration, factories,
    bindings, the command line and the HTTP server wire these parts together and keep
    no state of their own that the theorems would be about.

    ** Plan

    What a continuation would take up, in this order: the lanes of the hybrid retriever
    that rank chunks and entities; ingestion's content hashes, names and deduplication;
    session watermarks and the improve lock; cancellation and the rate limiter; payload
    fields; the remaining queries of the repository (status summaries, stamps); the
    in-memory graph; retry classification and pacing. *)

From stdpp Require Export base numbers list gmap strings pretty.

(** ** Results

    Rust's [Result<T, E>]. *)

Inductive result (E A : Type) : Type :=
  | Ok (a : A)
  | Err (e : E).
Arguments Ok {E A} _.
Arguments Err {E A} _.

Definition is_ok {E A} (r : result E A) : bool :=
  match r with Ok _ => true | Err _ => false end.

Definition result_map {E A B} (f : A → B) (r : result E A) : result E B :=
  match r with Ok a => Ok (f a) | Err e => Err e end.

(** Rust's [r.map_err(f)]. *)
Definition map_err {E F A} (f : E → F) (r : result E A) : result F A :=
  match r with Ok a => Ok a | Err e => Err (f e) end.

Definition result_bind {E A B} (r : result E A) (k : A → result E B) : result E B :=
  match r with Ok a => k a | Err e => Err e end.

Declare Scope cog_scope.
Delimit Scope cog_scope with cog.

(** Rust's [let x = r?; k]. *)
Notation "'let?' x ':=' r 'in' k" := (result_bind r (λ x, k))
  (at level 10, x pattern, r at level 100, k at level 200) : cog_scope.

#[export] Instance result_eq_dec `{EqDecision E, EqDecision A} : EqDecision (result E A).
Proof. solve_decision. Defined.

(** ** Identifiers

    A [uuid::Uuid] is its 128-bit value.  How [Uuid::new_v4] and [Uuid::new_v5]
    choose that value belongs to the [uuid] crate: the definitions that use
    them take those functions as arguments. *)
Notation uuid := N (only parsing).

Definition nil_uuid : N := 0%N.

(** [Uuid::NAMESPACE_OID], 6ba7b812-9dad-11d1-80b4-00c04fd430c8. *)
Definition NAMESPACE_OID : N := 0x6ba7b8129dad11d180b400c04fd430c8%N.

(** ** Tactics *)

(** Case analysis on every [match] of the goal or of a hypothesis, with the
    equations kept and simplified. *)
Ltac split_match :=
  repeat (case_match; simplify_eq/=); simplify_eq/=.

(** ** Lists *)

Section list_lemmas.
Context {A B : Type}.
Implicit Types l : list A.

Lemma last_snoc_some l x : last (l ++ [x]) = Some x.
Proof. apply last_snoc. Qed.

Lemma last_is_some l : l ≠ [] → is_Some (last l).
Proof. destruct l as [|x l] using rev_ind; [done|]. intros _. rewrite last_snoc. eauto. Qed.

Lemma concat_snoc (ls : list (list A)) l : concat (ls ++ [l]) = concat ls ++ l.
Proof. rewrite concat_app. simpl. by rewrite app_nil_r. Qed.

Lemma concat_map_snoc (f : B → list A) (bs : list B) b :
  concat (map f (bs ++ [b])) = concat (map f bs) ++ f b.
Proof. rewrite map_app. simpl. apply concat_snoc. Qed.

Lemma sum_list_with_app' (f : A → nat) l k :
  sum_list_with f (l ++ k) = sum_list_with f l + sum_list_with f k.
Proof. induction l; simpl; lia. Qed.

Lemma Forall2_snoc (P : A → B → Prop) l k x y :
  Forall2 P l k → P x y → Forall2 P (l ++ [x]) (k ++ [y]).
Proof. intros. apply Forall2_app; auto. Qed.

Lemma filter_ext_in (P Q : A → Prop) `{∀ x, Decision (P x), ∀ x, Decision (Q x)} l :
  (∀ x, x ∈ l → P x ↔ Q x) → filter P l = filter Q l.
Proof.
  induction l as [|x l IH]; intros HPQ; [done|]. rewrite !filter_cons, IH by (intros y Hy; apply HPQ; by right).
  pose proof (HPQ x ltac:(left)). repeat case_decide; tauto || done.
Qed.

Lemma Forall_snoc (P : A → Prop) l x : Forall P l → P x → Forall P (l ++ [x]).
Proof. intros. apply Forall_app; auto. Qed.
End list_lemmas.

(** ** Slices in pieces *)

(** [slice::chunks]: the list in pieces of [n], [k] being the room left in the
    current piece. *)
Fixpoint chunks_go {A} (n k : nat) (cur l : list A) : list (list A) :=
  match l with
  | [] => match cur with [] => [] | _ => [cur] end
  | x :: l =>
      match k with
      | 0 => cur :: chunks_go n (n - 1) [x] l
      | S k => chunks_go n k (cur ++ [x]) l
      end
  end.
Definition chunks {A} (n : nat) (l : list A) : list (list A) := chunks_go n n [] l.

Lemma chunks_go_concat {A} n (l : list A) : ∀ k cur, concat (chunks_go n k cur l) = cur ++ l.
Proof.
  induction l as [|x l IH]; intros k cur; simpl.
  - destruct cur; simpl; by rewrite ?app_nil_r.
  - destruct k as [|k]; simpl; rewrite IH; [done|]. by rewrite <-app_assoc.
Qed.

Lemma chunks_concat {A} n (l : list A) : concat (chunks n l) = l.
Proof. apply chunks_go_concat. Qed.

Lemma chunks_go_size {A} n (l : list A) : 0 < n → ∀ k cur,
  length cur + k = n → (cur = [] → l = [] ∨ 0 < k) →
  Forall (λ c, 1 ≤ length c ≤ n) (chunks_go n k cur l).
Proof.
  intros Hn. induction l as [|x l IH]; intros k cur Hk Hc; simpl.
  - destruct cur; constructor; [simpl in *; lia|constructor].
  - destruct k as [|k].
    + constructor; [|apply IH; simpl; [lia|done]]. destruct cur as [|y cur]; [|simpl in *; lia].
      by destruct (Hc eq_refl); [|lia].
    + apply IH; [rewrite length_app; simpl; lia|]. by destruct cur.
Qed.

Lemma chunks_size {A} n (l : list A) : 0 < n → Forall (λ c, 1 ≤ length c ≤ n) (chunks n l).
Proof. intros Hn. by apply chunks_go_size; [|simpl; lia|right]. Qed.

(** All pieces but the last are full. *)
Lemma chunks_go_full {A} n (l : list A) : 0 < n → ∀ k cur pre b post,
  length cur + k = n → chunks_go n k cur l = pre ++ b :: post → post ≠ [] → length b = n.
Proof.
  intros Hn. induction l as [|x l IH]; intros k cur pre b post Hk; simpl.
  - destruct cur; [by destruct pre|]. destruct pre as [|? [|]]; intros ?; by simplify_eq/=.
  - destruct k as [|k]; [|apply IH; rewrite length_app; simpl; lia].
    destruct pre as [|b' pre]; [intros [= <- _] _; lia|]. intros [= _ Hl]. eapply IH; [|done]. simpl. lia.
Qed.

Lemma chunks_full {A} n (l : list A) pre b post :
  0 < n → chunks n l = pre ++ b :: post → post ≠ [] → length b = n.
Proof. intros Hn. by apply chunks_go_full. Qed.

(** ** Maps *)

Lemma size_insert_le `{Countable K} {V} (m : gmap K V) k v : size (<[k := v]> m) ≤ S (size m).
Proof.
  destruct (m !! k) eqn:Hk; [by rewrite map_size_insert_Some; eauto with lia|].
  by rewrite map_size_insert_None.
Qed.

Lemma size_alter `{Countable K} {V} f k (m : gmap K V) : size (alter f k m) = size m.
Proof.
  destruct (m !! k) as [s|] eqn:Hk.
  - replace (alter f k m) with (<[k := f s]> m); [by rewrite map_size_insert_Some by eauto|].
    apply map_eq. intros i. destruct (decide (i = k)) as [->|].
    + by rewrite lookup_insert_eq, lookup_alter_eq, Hk.
    + by rewrite lookup_insert_ne, lookup_alter_ne.
  - f_equal. apply map_eq. intros i. destruct (decide (i = k)) as [->|].
    + by rewrite lookup_alter_eq, Hk.
    + by rewrite lookup_alter_ne.
Qed.

(** [chain R l]: every two neighbours of [l] are related. *)
Fixpoint chain {A} (R : A → A → Prop) (l : list A) : Prop :=
  match l with
  | x :: (y :: _) as l' => R x y ∧ chain R l'
  | _ => True
  end.

Lemma chain_snoc {A} (R : A → A → Prop) l x :
  chain R l → (∀ y, last l = Some y → R y x) → chain R (l ++ [x]).
Proof.
  induction l as [|y [|z l] IH]; simpl; [done| |].
  - intros _ H. split; [by apply H|done].
  - intros [Hyz Hl] H. split; [done|]. by apply IH.
Qed.

Lemma chain_map {A B} (f : A → B) (R : B → B → Prop) l :
  chain R (map f l) ↔ chain (λ x y, R (f x) (f y)) l.
Proof. induction l as [|x [|y l] IH]; simpl in *; tauto. Qed.

Create HintDb cog.
#[export] Hint Resolve Forall_snoc Forall2_snoc : cog.
#[export] Hint Rewrite @concat_snoc @concat_map_snoc @sum_list_with_app' : cog.

(** ** Folds of steps

    A loop whose body can panic, as a fold into [option], and the induction principles
    of such loops and of plain ones: by an invariant, by an invariant over what has been
    gone through, by a preorder. *)


(** A fold that can panic. *)
Fixpoint fold_steps {A S} (f : A → S → option S) (l : list A) (s : S) : option S :=
  match l with [] => Some s | x :: l => s ← f x s; fold_steps f l s end.

Lemma fold_steps_app {A S} (f : A → S → option S) l k s :
  fold_steps f (l ++ k) s = s' ← fold_steps f l s; fold_steps f k s'.
Proof. revert s. induction l as [|x l IH]; intros s; simpl; [done|]. destruct (f x s); simpl; auto. Qed.

(** A fold whose steps neither panic nor lose the invariant. *)
Lemma fold_steps_total {A S} (I : S → Prop) (f : A → S → option S) l :
  (∀ x s, x ∈ l → I s → ∃ s', f x s = Some s' ∧ I s') → ∀ s, I s → ∃ s', fold_steps f l s = Some s' ∧ I s'.
Proof.
  induction l as [|x l IH]; intros Hf s Hs; simpl; [by exists s|].
  destruct (Hf x s) as (s1 & -> & Hs1); [left|done|]. apply IH; [|done].
  intros y s2 Hy. apply Hf. by right.
Qed.

(** The same, for an invariant over what has been folded so far. *)
Lemma fold_steps_history {A S} (I : list A → S → Prop) (f : A → S → option S) l :
  (∀ past x s, x ∈ l → I past s → ∃ s', f x s = Some s' ∧ I (past ++ [x]) s') →
  ∀ past s, I past s → ∃ s', fold_steps f l s = Some s' ∧ I (past ++ l) s'.
Proof.
  induction l as [|x l IH]; intros Hf past s Hs; simpl; [exists s; by rewrite app_nil_r|].
  destruct (Hf past x s) as (s1 & -> & Hs1); [left|done|]. simpl. rewrite (cons_middle x past l), app_assoc.
  apply IH; [|done]. intros past' y s2 Hy. apply Hf. by right.
Qed.

Lemma foldl_history {A S} (I : list A → S → Prop) (f : S → A → S) l :
  (∀ past x s, x ∈ l → I past s → I (past ++ [x]) (f s x)) →
  ∀ past s, I past s → I (past ++ l) (foldl f s l).
Proof.
  induction l as [|x l IH]; intros Hf past s Hs; simpl; [by rewrite app_nil_r|].
  rewrite (cons_middle x past l), app_assoc. apply IH.
  - intros past' y s2 Hy. apply Hf. by right.
  - apply Hf; [left|done].
Qed.

Lemma fold_steps_ind {A S} (R : S → S → Prop) `{!PreOrder R} (f : A → S → option S) l :
  (∀ x s s', x ∈ l → f x s = Some s' → R s s') → ∀ s s', fold_steps f l s = Some s' → R s s'.
Proof.
  induction l as [|x l IH]; intros Hf s s'; simpl; [by intros [= ->]|].
  destruct (f x s) as [s1|] eqn:Hx; simpl; [|done]. intros Hrun. transitivity s1.
  - apply (Hf x); [left|done].
  - apply IH; [|done]. intros y s2 s3 Hy. apply Hf. by right.
Qed.

Lemma foldl_ind {A S} (R : S → S → Prop) `{!PreOrder R} (f : S → A → S) l :
  (∀ x s, x ∈ l → R s (f s x)) → ∀ s, R s (foldl f s l).
Proof.
  induction l as [|x l IH]; intros Hf s; simpl; [done|]. transitivity (f s x).
  - apply Hf. left.
  - apply IH. intros y s' Hy. apply Hf. by right.
Qed.

Lemma foldl_inv {A S} (I : S → Prop) (f : S → A → S) l :
  (∀ x s, x ∈ l → I s → I (f s x)) → ∀ s, I s → I (foldl f s l).
Proof.
  induction l as [|x l IH]; intros Hf s Hs; simpl; [done|]. apply IH.
  - intros y s' Hy. apply Hf. by right.
  - apply Hf; [left|done].
Qed.

Lemma list_not_nil_elem_of {A} (l : list A) : l ≠ [] → ∃ x, x ∈ l.
Proof. destruct l as [|x l]; [done|]. intros _. exists x. left. Qed.
