(* ===== verification/Text.v ===== *)
(** * Rust strings: code points, UTF-8 byte offsets and slices

    [text] is a Rust [str]: a list of Unicode scalar values.  A [&str] that
    borrows from a base string is a [slice]: its byte offset in the base and its
    characters.  Byte indexing ([&data[a..b]]) returns [None] where Rust panics
    (an index out of range, off a character boundary, or [a > b]). *)

From S2P Require Import Prelude.

Notation char := N (only parsing).
Notation text := (list N) (only parsing).

(** [char::len_utf8]. *)
Definition len_utf8 (c : char) : nat :=
  if (c <? 128)%N then 1
  else if (c <? 2048)%N then 2
  else if (c <? 65536)%N then 3
  else 4.

(** [str::len]: the length in bytes. *)
Definition str_len (s : text) : nat := sum_list_with len_utf8 s.
Arguments str_len : simpl never.

(** [str::char_indices] of the suffix of a string that starts at byte [off]. *)
Fixpoint char_indices_from (off : nat) (s : text) : list (nat * char) :=
  match s with
  | [] => []
  | c :: s' => (off, c) :: char_indices_from (off + len_utf8 c) s'
  end.

Definition char_indices (s : text) : list (nat * char) := char_indices_from 0 s.

(** Split a string at a byte index; [None] when the index is past the end or
    inside a character. *)
Fixpoint split_at_byte (s : text) (n : nat) : option (text * text) :=
  match n with
  | 0 => Some ([], s)
  | S _ =>
    match s with
    | [] => None
    | c :: s' =>
      if len_utf8 c <=? n then
        p ← split_at_byte s' (n - len_utf8 c); Some (c :: p.1, p.2)
      else None
    end
  end.

(** A borrowed [&str]: where it starts in its base, and its characters. *)
Record slice := Slice { sl_off : nat; sl_txt : text }.

(** [&data[a..b]] *)
Definition slice_range (data : text) (a b : nat) : option slice :=
  if b <? a then None
  else
    p ← split_at_byte data a;
    q ← split_at_byte p.2 (b - a);
    Some (Slice a q.1).

(** [&data[a..]] *)
Definition slice_from (data : text) (a : nat) : option slice :=
  p ← split_at_byte data a; Some (Slice a p.2).

(** [char::is_whitespace]: the Unicode [White_Space] property. *)
Definition is_whitespace (c : char) : bool :=
  ((9 <=? c) && (c <=? 13) || (c =? 32) || (c =? 133) || (c =? 160) || (c =? 5760)
   || ((8192 <=? c) && (c <=? 8202)) || (c =? 8232) || (c =? 8233) || (c =? 8239)
   || (c =? 8287) || (c =? 12288))%N.

(** ** Literals *)

(** The code points of an ASCII literal. *)
Definition ascii (s : string) : text :=
  map (λ a, Ascii.N_of_ascii a) (String.list_ascii_of_string s).

(** ** Lemmas *)

Lemma len_utf8_pos c : 1 ≤ len_utf8 c.
Proof. unfold len_utf8. repeat case_match; lia. Qed.
#[export] Hint Resolve len_utf8_pos : cog.

Lemma len_utf8_space : len_utf8 32 = 1.
Proof. reflexivity. Qed.

Lemma str_len_app s t : str_len (s ++ t) = str_len s + str_len t.
Proof. apply sum_list_with_app'. Qed.

Lemma str_len_cons c s : str_len (c :: s) = len_utf8 c + str_len s.
Proof. reflexivity. Qed.

Lemma str_len_nil_inv s : str_len s = 0 → s = [].
Proof. destruct s as [|c s]; [done|]. rewrite str_len_cons. pose proof (len_utf8_pos c). lia. Qed.

Lemma str_len_pos s : s ≠ [] → 0 < str_len s.
Proof. destruct s as [|c s]; [done|]. rewrite str_len_cons. pose proof (len_utf8_pos c). lia. Qed.

Lemma str_len_nil : str_len [] = 0.
Proof. reflexivity. Qed.

#[export] Hint Rewrite str_len_app str_len_cons str_len_nil : cog.

(** Equations and inequalities between byte lengths. *)
Ltac str_len_lia :=
  repeat match goal with H : context [str_len _] |- _ => progress autorewrite with cog in H end;
  autorewrite with cog; simpl; lia.

Lemma char_indices_from_app off s t :
  char_indices_from off (s ++ t) =
  char_indices_from off s ++ char_indices_from (off + str_len s) t.
Proof.
  revert off. induction s as [|c s IH]; intros off; simpl.
  - by rewrite Nat.add_0_r.
  - f_equal. rewrite IH. do 2 f_equal. rewrite str_len_cons. lia.
Qed.

(** The split of a concatenation at the length of its first part. *)
Lemma split_at_byte_app s t : split_at_byte (s ++ t) (str_len s) = Some (s, t).
Proof.
  induction s as [|c s IH]; [by destruct t|].
  rewrite str_len_cons. simpl.
  pose proof (len_utf8_pos c) as Hpos.
  destruct (len_utf8 c + str_len s) as [|n] eqn:Hn; [lia|].
  rewrite <-Hn. rewrite (proj2 (Nat.leb_le _ _)) by lia.
  replace (len_utf8 c + str_len s - len_utf8 c) with (str_len s) by lia.
  by rewrite IH.
Qed.

Lemma slice_range_app p q r :
  slice_range (p ++ q ++ r) (str_len p) (str_len p + str_len q) = Some (Slice (str_len p) q).
Proof.
  unfold slice_range. rewrite (proj2 (Nat.ltb_ge _ _)) by lia.
  rewrite split_at_byte_app. simpl.
  replace (str_len p + str_len q - str_len p) with (str_len q) by lia.
  by rewrite split_at_byte_app.
Qed.

Lemma slice_from_app p q : slice_from (p ++ q) (str_len p) = Some (Slice (str_len p) q).
Proof. unfold slice_from. by rewrite split_at_byte_app. Qed.

(** The form the chunkers use: the slice between two consumed prefixes. *)
Lemma slice_range_between data p q r a b :
  data = p ++ q ++ r → a = str_len p → b = str_len (p ++ q) →
  slice_range data a b = Some (Slice (str_len p) q).
Proof. intros -> -> ->. rewrite str_len_app. apply slice_range_app. Qed.

(** ** Contiguous slices

    [layout off ws]: the slices [ws] follow one another from byte [off]. *)
Fixpoint layout (off : nat) (ws : list slice) : Prop :=
  match ws with
  | [] => True
  | w :: ws' => sl_off w = off ∧ layout (off + str_len (sl_txt w)) ws'
  end.

(** Give contiguous offsets to a list of texts. *)
Fixpoint place (off : nat) (ts : list text) : list slice :=
  match ts with
  | [] => []
  | t :: ts' => Slice off t :: place (off + str_len t) ts'
  end.

Lemma place_layout off ts : layout off (place off ts).
Proof. revert off. induction ts; intros; simpl; auto. Qed.

Lemma place_texts off ts : map sl_txt (place off ts) = ts.
Proof. revert off. induction ts; intros; simpl; f_equal; auto. Qed.

Lemma layout_app off ws1 ws2 :
  layout off (ws1 ++ ws2) ↔
  layout off ws1 ∧ layout (off + str_len (concat (map sl_txt ws1))) ws2.
Proof.
  revert off. induction ws1 as [|w ws1 IH]; intros off; simpl.
  - rewrite Nat.add_0_r. tauto.
  - rewrite IH, str_len_app, Nat.add_assoc. tauto.
Qed.

(** Slices of one base at the same places with the same texts are equal. *)
Lemma layout_inj off ws1 ws2 :
  layout off ws1 → layout off ws2 → map sl_txt ws1 = map sl_txt ws2 → ws1 = ws2.
Proof.
  revert off ws2. induction ws1 as [|[o t] ws1 IH]; intros off [|[o' t'] ws2]; simpl; try done.
  intros [-> ?] [-> ?] ?. simplify_eq. f_equal. eauto.
Qed.
