(* ===== verification/Strings.v ===== *)
(** * UTF-8 strings

    What the source does with a Rust [String] that is kept here as its bytes:
    [str::trim], and the identifier normalization of
    crates/utils/src/id_generation.rs.  [str::to_lowercase] is the Unicode table, a
    parameter with the laws that are used of it. *)

From S2P Require Import Prelude.
From Stdlib Require Import Ascii String.

(** ** Trimming *)

Definition utf8 (bytes : list N) : string := string_of_list_ascii (map ascii_of_N bytes).

(** The encodings of the characters with the Unicode [White_Space] property. *)
Definition white_space : list string :=
  map utf8
    ([[9]; [10]; [11]; [12]; [13]; [32]; [0xC2; 0x85]; [0xC2; 0xA0]; [0xE1; 0x9A; 0x80];
      [0xE2; 0x80; 0xA8]; [0xE2; 0x80; 0xA9]; [0xE2; 0x80; 0xAF]; [0xE2; 0x81; 0x9F];
      [0xE3; 0x80; 0x80]] ++ map (λ b, [0xE2; 0x80; b]) [0x80; 0x81; 0x82; 0x83; 0x84; 0x85; 0x86; 0x87; 0x88; 0x89; 0x8A])%N.

(** The rest of [s] after one of [ps], if it starts with one. *)
Definition strip_one (ps : list string) (s : string) : option string :=
  match list_find (λ p, String.prefix p s = true) ps with
  | Some (_, p) => Some (String.substring (String.length p) (String.length s - String.length p) s)
  | None => None
  end.

(** [fuel] is the length of the string: every step but the last removes a byte. *)
Fixpoint strip (ps : list string) (fuel : nat) (s : string) : string :=
  match fuel with
  | 0 => s
  | S fuel => match strip_one ps s with Some s' => strip ps fuel s' | None => s end
  end.

Definition trim_start (s : string) : string := strip white_space (String.length s) s.

Definition rev_string (s : string) : string :=
  string_of_list_ascii (rev (list_ascii_of_string s)).

Definition trim_end (s : string) : string :=
  rev_string (strip (map rev_string white_space) (String.length s) (rev_string s)).

(** [str::trim] *)
Definition trim (s : string) : string := trim_end (trim_start s).

Example trim_example : trim "  is a " = "is a".
Proof. reflexivity. Qed.

(** ** Identifiers *)

(** [replace(' ', "_").replace('\'', "")] *)
Fixpoint underscore (s : string) : string :=
  match s with
  | EmptyString => EmptyString
  | String c s =>
      if decide (c = " "%char) then String "_" (underscore s)
      else if decide (c = "'"%char) then underscore s
      else String c (underscore s)
  end.

(** [str::to_lowercase] *)
Class Lowercase := { to_lowercase : string → string }.

(** On ASCII it is the ASCII one; it never makes an empty string of one that is
    not. *)
Definition ascii_lower (c : ascii) : ascii :=
  let n := N_of_ascii c in
  if ((65 <=? n) && (n <=? 90))%N then ascii_of_N (n + 32) else c.

Fixpoint map_string (f : ascii → ascii) (s : string) : string :=
  match s with EmptyString => EmptyString | String c s => String (f c) (map_string f s) end.

Fixpoint is_ascii (s : string) : bool :=
  match s with EmptyString => true | String c s => (N_of_ascii c <? 128)%N && is_ascii s end.

Class LowercaseLaws `{Lowercase} := {
  to_lowercase_ascii : ∀ s, is_ascii s = true → to_lowercase s = map_string ascii_lower s;
}.

(** [normalize_identifier] *)
Definition normalize_identifier `{Lowercase} (input : string) : string := underscore (to_lowercase input).

(** [generate_edge_name] *)
Definition generate_edge_name `{Lowercase} (name : string) : string := normalize_identifier name.

(** [replace('\'', "")] *)
Fixpoint without_apostrophes (s : string) : string :=
  match s with
  | EmptyString => EmptyString
  | String c s => if decide (c = "'"%char) then without_apostrophes s else String c (without_apostrophes s)
  end.

(** [generate_node_name] *)
Definition generate_node_name `{Lowercase} (name : string) : string := without_apostrophes (to_lowercase name).

(** [generate_node_id] *)
Definition generate_node_id `{Lowercase} (new_v5 : uuid → string → uuid) (node_id : string) : uuid :=
  new_v5 NAMESPACE_OID (normalize_identifier node_id).

Fixpoint join (sep : string) (l : list string) : string :=
  match l with
  | [] => ""
  | [s] => s
  | s :: l => s +:+ sep +:+ join sep l
  end.

(** [data_point_id_for] *)
Definition data_point_id_for `{Lowercase} (new_v5 : uuid → string → uuid) (class_name : string)
    (values : list string) : uuid :=
  new_v5 NAMESPACE_OID (class_name +:+ ":" +:+ join "|" (map normalize_identifier values)).

(** ** NUL bytes

    [sanitize_string] of crates/utils/src/sanitize.rs. *)
Fixpoint sanitize_string (s : string) : string :=
  match s with
  | EmptyString => EmptyString
  | String c s => if decide (c = Ascii.zero) then sanitize_string s else String c (sanitize_string s)
  end.

(** ** The text of a [Uuid]

    [Uuid::to_string], hyphenated, and [Uuid::simple]: 36 and 32 characters of the
    [uuid] crate's formats. *)
Class UuidFormat := {
  uuid_to_string : uuid → string;
  uuid_simple : uuid → string;
}.

Class UuidFormatLaws `{UuidFormat} := {
  uuid_to_string_inj :: Inj (=) (=) uuid_to_string;
  uuid_simple_inj :: Inj (=) (=) uuid_simple;
  uuid_formats_differ : ∀ u v, uuid_to_string u ≠ uuid_simple v;
  uuid_to_string_prefix : ∀ u v s t, uuid_to_string u +:+ s = uuid_to_string v +:+ t → u = v ∧ s = t;
  uuid_to_string_suffix : ∀ u v s t, s +:+ uuid_to_string u = t +:+ uuid_to_string v → s = t ∧ u = v;
  uuid_to_string_none : ∀ u s t, uuid_to_string u +:+ s ≠ "None" +:+ t;
}.

(** *** Decimal digits *)

Definition is_digit (c : ascii) : bool := let n := N_of_ascii c in (48 <=? n)%N && (n <=? 57)%N.

Fixpoint digits (s : string) : bool :=
  match s with EmptyString => true | String c s => is_digit c && digits s end.

Lemma pretty_N_digits (n : N) : digits (pretty n) = true.
Proof.
  assert (Hgo : ∀ m t, digits t = true → digits (pretty_N_go m t) = true).
  { apply (N.strong_induction_le (λ m, ∀ t, digits t = true → digits (pretty_N_go m t) = true)).
    - intros t Ht. by rewrite pretty_N_go_0.
    - intros m IH t Ht. rewrite pretty_N_go_step by lia. apply IH.
      + assert (N.succ m `div` 10 < N.succ m)%N by (apply N.div_lt; lia). lia.
      + simpl. rewrite Ht, andb_true_r. unfold pretty_N_char. by repeat case_match. }
  unfold pretty, pretty_N. case_decide; [done|]. by apply Hgo.
Qed.

(** Digits up to a dash are read back. *)
Lemma digits_dash a : ∀ b s t, digits a = true → digits b = true → a +:+ "-" +:+ s = b +:+ "-" +:+ t → a = b ∧ s = t.
Proof.
  induction a as [|c a IH]; intros [|d b] s t; simpl; intros Ha Hb [= Heq]; subst; try done.
  apply andb_true_iff in Ha as [_ Ha], Hb as [_ Hb]. by destruct (IH b s t Ha Hb) as [-> ->].
Qed.

Lemma no_dash_in_digits t s : digits (t +:+ String "-" s) = false.
Proof. induction t as [|c t IH]; [done|]. simpl. rewrite IH. by rewrite andb_false_r. Qed.

(** Digits after a dash are read back from the end. *)
Lemma dash_digits s : ∀ t a b, digits a = true → digits b = true → s +:+ "-" +:+ a = t +:+ "-" +:+ b → s = t ∧ a = b.
Proof.
  induction s as [|c s IH]; intros [|d t] a b Ha Hb Heq.
  - injection Heq as Heq. change (a = b) in Heq. done.
  - injection Heq as <- Heq. change (a = t +:+ String "-" b) in Heq. by rewrite Heq, no_dash_in_digits in Ha.
  - injection Heq as -> Heq. change (s +:+ String "-" a = b) in Heq. by rewrite <-Heq, no_dash_in_digits in Hb.
  - injection Heq as -> Heq. by destruct (IH t a b Ha Hb Heq) as [-> ->].
Qed.

Lemma append_dash_inj s : ∀ t, s +:+ "-" = t +:+ "-" → s = t.
Proof.
  induction s as [|c s IH]; intros [|d t] Heq; [done| | |].
  - injection Heq as _ Heq. by destruct t.
  - injection Heq as _ Heq. by destruct s.
  - injection Heq as -> Heq. by rewrite (IH t Heq).
Qed.

(** Formats that satisfy the laws: the digits of a number between dashes. *)
Definition dashed_format (digits_of : N → string) : UuidFormat := {|
  uuid_to_string u := "-" +:+ digits_of u +:+ "-";
  uuid_simple u := digits_of u |}.

Lemma string_app_assoc (s t u : string) : (s +:+ t) +:+ u = s +:+ t +:+ u.
Proof. induction s as [|c s IH]; [done|]. exact (f_equal (String c) IH). Qed.

Lemma dashed_format_laws (digits_of : N → string) `{!Inj (=) (=) digits_of} :
  (∀ u, digits (digits_of u) = true) → @UuidFormatLaws (dashed_format digits_of).
Proof.
  intros Hdigits. assert (Hprefix : ∀ u v s t : string, digits u = true → digits v = true →
            ("-" +:+ u +:+ "-") +:+ s = ("-" +:+ v +:+ "-") +:+ t → u = v ∧ s = t).
  { intros u v s t Hu Hv Heq. simpl in Heq. injection Heq as Heq. rewrite !string_app_assoc in Heq.
    by apply digits_dash in Heq. }
  assert (Hinj : ∀ (u v : N) s t, ("-" +:+ digits_of u +:+ "-") +:+ s = ("-" +:+ digits_of v +:+ "-") +:+ t → u = v ∧ s = t).
  { intros u v s t Heq. apply Hprefix in Heq as [Heq ->]; [|apply Hdigits..]. by apply (inj digits_of) in Heq as ->. }
  split; simpl.
  - intros u v Heq. apply (Hinj u v "" ""). simpl. by rewrite Heq.
  - apply _.
  - intros u v Heq. pose proof (Hdigits v) as Hd. by rewrite <-Heq in Hd.
  - exact Hinj.
  - intros u v s t. rewrite <-!(string_app_assoc s), <-!(string_app_assoc t). simpl.
    change (String "-" (digits_of u +:+ "-")) with (("-" +:+ digits_of u) +:+ "-").
    change (String "-" (digits_of v +:+ "-")) with (("-" +:+ digits_of v) +:+ "-").
    rewrite <-!string_app_assoc. intros Heq%append_dash_inj. rewrite !string_app_assoc in Heq. apply dash_digits in Heq as [-> Heq]; [|apply Hdigits..].
    by apply (inj digits_of) in Heq as ->.
  - by intros u s t.
Qed.

Definition decimal_format : UuidFormat := dashed_format pretty.

Lemma decimal_format_laws : @UuidFormatLaws decimal_format.
Proof. apply dashed_format_laws; [apply _|]. apply pretty_N_digits. Qed.

(** A lowercase that satisfies the laws: the ASCII one, on any bytes. *)
Definition ascii_lowercase : Lowercase := {| to_lowercase := map_string ascii_lower |}.

Lemma ascii_lowercase_laws : @LowercaseLaws ascii_lowercase.
Proof. by split. Qed.
