(* ===== verification/TokenCounter.v ===== *)
(** * Token counters (crates/chunking/src/token_counter.rs)

    The [TokenCounter] trait is a class; what the chunkers' size guarantees need
    of a counter is the class [CounterLaws]; [WordCounter] implements both. *)

From S2P Require Import Prelude Text.

(** The trait [TokenCounter]. *)
Class TokenCounter := count_tokens : text → nat.

(** [TokenCountMode] *)
Inductive TokenCountMode := Span | PerWord.

#[export] Instance TokenCountMode_eq_dec : EqDecision TokenCountMode.
Proof. solve_decision. Defined.

(** [TokenCountMode::from_legacy_flag] *)
Definition from_legacy_flag (legacy_per_word : bool) : TokenCountMode :=
  if legacy_per_word then PerWord else Span.

(** The laws under which a sum of counts bounds the count of the whole: a span
    never counts more than its two parts, and never less than a prefix of it. *)
Class CounterLaws (C : TokenCounter) : Prop := {
  count_app : ∀ a b, count_tokens (a ++ b) ≤ count_tokens a + count_tokens b;
  count_prefix : ∀ a b, count_tokens a ≤ count_tokens (a ++ b);
}.

(** [str::split_whitespace]: the maximal runs of non-whitespace characters.
    [cur] is the run being read, in reverse. *)
Fixpoint split_whitespace_go (cur : text) (s : text) : list text :=
  match s with
  | [] => match cur with [] => [] | _ => [rev cur] end
  | c :: s' =>
    if is_whitespace c then
      match cur with
      | [] => split_whitespace_go [] s'
      | _ => rev cur :: split_whitespace_go [] s'
      end
    else split_whitespace_go (c :: cur) s'
  end.

Definition split_whitespace (s : text) : list text := split_whitespace_go [] s.

(** [WordCounter::count_tokens] *)
Definition word_count (s : text) : nat := length (split_whitespace s).

Definition WordCounter : TokenCounter := word_count.

(** ** [WordCounter] satisfies the laws *)

(** The count depends on the pending run only through whether there is one. *)
Fixpoint word_count_from (inside : bool) (s : text) : nat :=
  match s with
  | [] => if inside then 1 else 0
  | c :: s' =>
    if is_whitespace c then (if inside then 1 else 0) + word_count_from false s'
    else word_count_from true s'
  end.

Lemma split_whitespace_go_length cur s :
  length (split_whitespace_go cur s) =
  word_count_from (match cur with [] => false | _ => true end) s.
Proof.
  revert cur. induction s as [|c s IH]; intros [|d cur]; simpl; try done;
    destruct (is_whitespace c); simpl; rewrite ?IH; done.
Qed.

Lemma word_count_from_spec s : word_count s = word_count_from false s.
Proof. apply split_whitespace_go_length. Qed.

Lemma word_count_from_inside s :
  word_count_from false s ≤ word_count_from true s ≤ 1 + word_count_from false s.
Proof. induction s as [|c s IH]; simpl; [lia|]. destruct (is_whitespace c); lia. Qed.

Lemma word_count_from_app b s t :
  word_count_from b (s ++ t) ≤ word_count_from b s + word_count_from false t.
Proof.
  revert b. induction s as [|c s IH]; intros b; simpl.
  - pose proof (word_count_from_inside t). destruct b; lia.
  - destruct (is_whitespace c); [|apply IH]. specialize (IH false). lia.
Qed.

Lemma word_count_from_true s : 1 ≤ word_count_from true s.
Proof. induction s as [|c s IH]; simpl; [lia|]. destruct (is_whitespace c); lia. Qed.

Lemma word_count_from_prefix b s t : word_count_from b s ≤ word_count_from b (s ++ t).
Proof.
  revert b. induction s as [|c s IH]; intros b; simpl.
  - destruct b; [apply word_count_from_true|lia].
  - destruct (is_whitespace c); [|apply IH]. specialize (IH false). lia.
Qed.

#[export] Instance WordCounter_laws : CounterLaws WordCounter.
Proof.
  split; intros a b; unfold count_tokens, WordCounter; rewrite !word_count_from_spec.
  - apply word_count_from_app.
  - apply word_count_from_prefix.
Qed.
