(* ===== verification/CutType.v ===== *)
(** * Chunk boundaries (crates/chunking/src/cut_type.rs) *)

From S2P Require Import Prelude.

Module CutType.
Inductive t :=
  | ParagraphEnd | SentenceEnd | SentenceCut | Word | DltRow | RowCut | RowEnd.
#[global] Instance eq_dec : EqDecision t.
Proof. solve_decision. Defined.

(** [impl Display for CutType] *)
Definition to_string (c : t) : string :=
  match c with
  | ParagraphEnd => "paragraph_end"
  | SentenceEnd => "sentence_end"
  | SentenceCut => "sentence_cut"
  | Word => "word"
  | DltRow => "dlt_row"
  | RowCut => "row_cut"
  | RowEnd => "row_end"
  end.

#[global] Instance to_string_inj : Inj (=) (=) to_string.
Proof. by intros [] []. Qed.
End CutType.
