(* ===== verification/ChunkByWord.v ===== *)
(** * Word-level chunker (crates/chunking/src/chunk_by_word.rs)

    The scan over [char_indices] with its byte offsets and slices, a list-level
    specification with neither, and the refinement between them.  From it: the
    scan never panics, its chunks concatenate to the input, and each chunk has
    the shape its type promises. *)

From S2P Require Import Prelude Text.

Module WordType.
Inductive t := Word | SentenceEnd | ParagraphEnd.
#[global] Instance eq_dec : EqDecision t.
Proof. solve_decision. Defined.
End WordType.

Record WordChunk := { wc_text : slice; word_type : WordType.t }.

Definition is_sentence_ending (c : char) : bool :=
  ((c =? 46) || (c =? 59) || (c =? 33) || (c =? 63) || (c =? 8230)
   || (c =? 12290) || (c =? 65281) || (c =? 65311))%N.

Definition is_paragraph_ending (c : char) : bool := ((c =? 10) || (c =? 13))%N.

(** The loop [while let Some(&(next_bp, ' ')) = iter.peek()]: the iterator it
    leaves, and the value of [end] it leaves. *)
Fixpoint skip_spaces (iter : list (nat * char)) : list (nat * char) :=
  match iter with
  | (_, c) :: rest => if (c =? 32)%N then skip_spaces rest else iter
  | [] => iter
  end.

Fixpoint spaces_end (iter : list (nat * char)) (end_ : nat) : nat :=
  match iter with
  | (next_bp, c) :: rest => if (c =? 32)%N then spaces_end rest (next_bp + 1) else end_
  | [] => end_
  end.

(** [iter.peek().is_some_and(|&(_, c)| is_paragraph_ending(c))] *)
Definition peek_is_paragraph_ending (iter : list (nat * char)) : bool :=
  match iter with (_, c) :: _ => is_paragraph_ending c | [] => false end.

(** The main loop; [result] is the vector being pushed to. *)
Fixpoint chunk_by_word_loop (data : text) (iter : list (nat * char))
    (chunk_start : nat) (result : list WordChunk) : option (list WordChunk) :=
  match iter with
  | [] =>
    if chunk_start <? str_len data then
      s ← slice_from data chunk_start;
      Some (result ++ [{| wc_text := s; word_type := WordType.Word |}])
    else Some result
  | (byte_pos, ch) :: rest =>
    if (ch =? 32)%N then
      let end_ := byte_pos + 1 in
      s ← slice_range data chunk_start end_;
      chunk_by_word_loop data rest end_
        (result ++ [{| wc_text := s; word_type := WordType.Word |}])
    else if is_sentence_ending ch then
      let end_ := spaces_end rest (byte_pos + len_utf8 ch) in
      let rest' := skip_spaces rest in
      let is_para_end := peek_is_paragraph_ending rest' in
      s ← slice_range data chunk_start end_;
      chunk_by_word_loop data rest' end_
        (result ++ [{| wc_text := s;
                       word_type := if is_para_end then WordType.ParagraphEnd
                                    else WordType.SentenceEnd |}])
    else chunk_by_word_loop data rest chunk_start result
  end.

Definition chunk_by_word (data : text) : option (list WordChunk) :=
  chunk_by_word_loop data (char_indices data) 0 [].

(** ** Specification: the same splitting on plain lists *)

Fixpoint drop_spaces (s : text) : text :=
  match s with c :: s' => if (c =? 32)%N then drop_spaces s' else s | [] => s end.

Fixpoint take_spaces (s : text) : text :=
  match s with c :: s' => if (c =? 32)%N then c :: take_spaces s' else [] | [] => [] end.

Definition starts_paragraph_ending (s : text) : bool :=
  match s with c :: _ => is_paragraph_ending c | [] => false end.

Fixpoint words_spec (cur s : text) : list (text * WordType.t) :=
  match s with
  | [] => match cur with [] => [] | _ => [(cur, WordType.Word)] end
  | c :: s' =>
    if (c =? 32)%N then (cur ++ [c], WordType.Word) :: words_spec [] s'
    else if is_sentence_ending c then
      (cur ++ c :: take_spaces s',
       if starts_paragraph_ending (drop_spaces s') then WordType.ParagraphEnd
       else WordType.SentenceEnd) :: words_spec [] (drop_spaces s')
    else words_spec (cur ++ [c]) s'
  end.

(** What a chunk of each type looks like, given the text that follows it. *)
Definition plain (c : char) : Prop := (c =? 32)%N = false ∧ is_sentence_ending c = false.

Definition word_shape (t : text) (ty : WordType.t) (next : text) : Prop :=
  match ty with
  | WordType.Word =>
    (∃ body, t = body ++ [32%N] ∧ Forall plain body)
    ∨ (next = [] ∧ t ≠ [] ∧ Forall plain t)
  | WordType.SentenceEnd | WordType.ParagraphEnd =>
    (∃ body c n, t = body ++ c :: repeat 32%N n
       ∧ Forall plain body ∧ is_sentence_ending c = true)
    ∧ (∀ c, head next = Some c → (c =? 32)%N = false)
    ∧ (ty = WordType.ParagraphEnd ↔ starts_paragraph_ending next = true)
  end.

(** Every chunk of a list has its shape with respect to the rest of the text. *)
Fixpoint words_shaped (ws : list (text * WordType.t)) : Prop :=
  match ws with
  | [] => True
  | (t, ty) :: ws' => word_shape t ty (concat (map fst ws')) ∧ words_shaped ws'
  end.

(** ** Lemmas *)

Lemma take_drop_spaces s : take_spaces s ++ drop_spaces s = s.
Proof. induction s as [|c s IH]; simpl; [done|]. case_match; simpl; congruence. Qed.

Lemma take_spaces_repeat s : ∃ n, take_spaces s = repeat 32%N n.
Proof.
  induction s as [|c s [n IH]]; simpl; [by exists 0|].
  destruct (N.eqb_spec c 32); [|by exists 0]. exists (S n). simpl. congruence.
Qed.

Lemma drop_spaces_head s c : head (drop_spaces s) = Some c → (c =? 32)%N = false.
Proof. induction s as [|d s IH]; simpl; [done|]. case_match; simpl; [done|]. congruence. Qed.

Lemma skip_spaces_indices off s :
  skip_spaces (char_indices_from off s) =
  char_indices_from (off + str_len (take_spaces s)) (drop_spaces s).
Proof.
  revert off. induction s as [|c s IH]; intros off; simpl; [done|].
  destruct (N.eqb_spec c 32) as [->|]; simpl.
  - rewrite IH, str_len_cons, Nat.add_assoc. done.
  - by rewrite Nat.add_0_r.
Qed.

Lemma spaces_end_indices off s :
  spaces_end (char_indices_from off s) off = off + str_len (take_spaces s).
Proof.
  revert off. induction s as [|c s IH]; intros off; simpl; [by rewrite Nat.add_0_r|].
  destruct (N.eqb_spec c 32) as [->|]; simpl; [|by rewrite Nat.add_0_r].
  rewrite str_len_cons, len_utf8_space, IH. lia.
Qed.

Lemma peek_indices off s :
  peek_is_paragraph_ending (char_indices_from off s) = starts_paragraph_ending s.
Proof. by destruct s. Qed.

(** The chunks of the specification, with their byte offsets. *)
Definition to_chunks (off : nat) (ws : list (text * WordType.t)) : list WordChunk :=
  zip_with (λ s ty, {| wc_text := s; word_type := ty |})
    (place off (map fst ws)) (map snd ws).

Lemma to_chunks_cons off t ty ws :
  to_chunks off ((t, ty) :: ws) =
  {| wc_text := Slice off t; word_type := ty |} :: to_chunks (off + str_len t) ws.
Proof. reflexivity. Qed.

Lemma to_chunks_texts off ws : map wc_text (to_chunks off ws) = place off (map fst ws).
Proof. revert off. induction ws as [|[t ty] ws IH]; intros off; simpl; [done|]. f_equal. apply IH. Qed.

Lemma to_chunks_types off ws : map word_type (to_chunks off ws) = map snd ws.
Proof. revert off. induction ws as [|[t ty] ws IH]; intros off; simpl; [done|]. f_equal. apply IH. Qed.

(** Strong induction on the length of a text. *)
Lemma text_len_ind (P : text → Prop) :
  (∀ s, (∀ s', length s' < length s → P s') → P s) → ∀ s, P s.
Proof. intros H s. apply (induction_ltof1 _ (@length N)). intros x IH. by apply H. Qed.

Lemma drop_spaces_length s : length (drop_spaces s) ≤ length s.
Proof. induction s as [|c s IH]; simpl; [done|]. case_match; simpl; lia. Qed.

(** The scan, from any point of the text: [pre] is chunked already, [cur] is the
    pending chunk, [s] is unread. *)
Lemma chunk_by_word_loop_spec data s : ∀ pre cur res,
  data = pre ++ cur ++ s →
  chunk_by_word_loop data (char_indices_from (str_len (pre ++ cur)) s) (str_len pre) res
  = Some (res ++ to_chunks (str_len pre) (words_spec cur s)).
Proof.
  induction s as [s IH] using text_len_ind; intros pre cur res Hdata.
  destruct s as [|c s]; simpl.
  - rewrite app_nil_r in Hdata. destruct (Nat.ltb_spec (str_len pre) (str_len data)) as [Hlt|Hge].
    + subst data. rewrite slice_from_app. simpl. destruct cur as [|x cur]; [|done].
      rewrite app_nil_r in Hlt. lia.
    + destruct cur as [|x cur]; [by rewrite app_nil_r|].
      subst data. rewrite str_len_app in Hge. pose proof (str_len_pos (x :: cur)). exfalso.
      specialize (H ltac:(done)). lia.
  - destruct (N.eqb_spec c 32) as [->|Hc].
    + rewrite (slice_range_between data pre (cur ++ [32%N]) s);
        [simpl|subst; by rewrite <-!app_assoc|done|str_len_lia].
      specialize (IH s ltac:(simpl; lia) (pre ++ cur ++ [32%N]) []
        (res ++ [{| wc_text := Slice (str_len pre) (cur ++ [32%N]); word_type := WordType.Word |}])).
      rewrite app_nil_r in IH.
      change (len_utf8 32) with 1.
      replace (str_len (pre ++ cur) + 1) with (str_len (pre ++ cur ++ [32%N])) by str_len_lia.
      rewrite IH by (subst; by rewrite <-!app_assoc).
      rewrite <-app_assoc, to_chunks_cons. simpl. do 4 f_equal. str_len_lia.
    + destruct (is_sentence_ending c) eqn:Hse; simpl.
      * rewrite spaces_end_indices, skip_spaces_indices, peek_indices.
        set (w := cur ++ c :: take_spaces s).
        assert (Hw : str_len (pre ++ w) = str_len (pre ++ cur) + len_utf8 c + str_len (take_spaces s)).
        { unfold w. autorewrite with cog. lia. }
        rewrite (slice_range_between data pre w (drop_spaces s)); [|..|by rewrite Hw]; [|subst w data|done].
        2:{ rewrite <-app_assoc. simpl. by rewrite take_drop_spaces. }
        simpl. rewrite <-Hw.
        specialize (IH (drop_spaces s) ltac:(pose proof (drop_spaces_length s); simpl; lia) (pre ++ w) []).
        rewrite app_nil_r in IH. rewrite IH.
        -- rewrite <-app_assoc, to_chunks_cons. simpl. by rewrite str_len_app.
        -- subst w data. rewrite <-!app_assoc. simpl. by rewrite take_drop_spaces.
      * replace (str_len (pre ++ cur) + len_utf8 c) with (str_len (pre ++ cur ++ [c])) by str_len_lia.
        apply IH; [simpl; lia|]. subst. by rewrite <-!app_assoc.
Qed.

(** The scan computes the specification. *)
Lemma chunk_by_word_spec data :
  chunk_by_word data = Some (to_chunks 0 (words_spec [] data)).
Proof. apply (chunk_by_word_loop_spec data data [] [] []). done. Qed.

Lemma words_spec_concat cur s : concat (map fst (words_spec cur s)) = cur ++ s.
Proof.
  revert cur. induction s as [s IH] using text_len_ind; intros cur.
  destruct s as [|c s]; simpl.
  - destruct cur; simpl; by rewrite ?app_nil_r.
  - destruct (N.eqb_spec c 32) as [->|]; [|destruct (is_sentence_ending c)]; simpl.
    + rewrite IH by (simpl; lia). by rewrite <-app_assoc.
    + rewrite IH by (pose proof (drop_spaces_length s); simpl; lia).
      rewrite <-app_assoc. simpl. by rewrite take_drop_spaces.
    + rewrite IH by (simpl; lia). by rewrite <-app_assoc.
Qed.

Lemma words_spec_nonempty cur s : Forall (λ w, w.1 ≠ []) (words_spec cur s).
Proof.
  revert cur. induction s as [s IH] using text_len_ind; intros cur.
  destruct s as [|c s]; simpl.
  - destruct cur; auto.
  - pose proof (drop_spaces_length s).
    destruct (c =? 32)%N; [|destruct (is_sentence_ending c)].
    + constructor; [by destruct cur|]. apply IH. simpl; lia.
    + constructor; [by destruct cur|]. apply IH. simpl; lia.
    + apply IH. simpl; lia.
Qed.

Lemma words_spec_shaped cur s : Forall plain cur → words_shaped (words_spec cur s).
Proof.
  revert cur. induction s as [s IH] using text_len_ind; intros cur Hcur.
  destruct s as [|c s]; simpl.
  - destruct cur; simpl; [done|]. split; [|done]. by right.
  - pose proof (drop_spaces_length s).
    destruct (N.eqb_spec c 32) as [->|Hc]; [|destruct (is_sentence_ending c) eqn:Hse]; simpl.
    + split; [left; eauto|]. apply IH; [simpl; lia|constructor].
    + rewrite words_spec_concat. simpl. split; [|apply IH; [simpl; lia|constructor]].
      destruct (take_spaces_repeat s) as [n Hn].
      assert (∀ d, head (drop_spaces s) = Some d → (d =? 32)%N = false) by apply drop_spaces_head.
      assert (∃ body d m, cur ++ c :: take_spaces s = body ++ d :: repeat 32%N m
        ∧ Forall plain body ∧ is_sentence_ending d = true) by (rewrite Hn; eauto 8).
      destruct (starts_paragraph_ending (drop_spaces s)) eqn:Hp; simpl;
        (split; [assumption|split; [assumption|]]); split; congruence.
    + apply IH; [simpl; lia|]. apply Forall_snoc; [done|]. split; [by apply N.eqb_neq|done].
Qed.

(** ** Properties *)

(** [chunk_by_word] never panics on a byte index, and loses nothing: for
    every input it returns non-empty chunks that follow one another from byte 0
    and concatenate to the input. *)
Theorem chunk_by_word_lossless data :
  ∃ ws, chunk_by_word data = Some ws
    ∧ concat (map (λ w, sl_txt (wc_text w)) ws) = data
    ∧ layout 0 (map wc_text ws)
    ∧ Forall (λ w, sl_txt (wc_text w) ≠ []) ws.
Proof.
  eexists. split; [apply chunk_by_word_spec|].
  rewrite <-(map_map wc_text sl_txt), to_chunks_texts, place_texts, words_spec_concat.
  split_and!; [done|apply place_layout|].
  apply (List.Forall_map (λ w, sl_txt (wc_text w)) (λ t, t ≠ [])).
  rewrite <-(map_map wc_text sl_txt), to_chunks_texts, place_texts.
  apply (List.Forall_map fst (λ t, t ≠ [])), words_spec_nonempty.
Qed.

(** Each chunk has the shape its type says.  A [Word] is plain characters
    closed by one space (or the unterminated end of the text); a sentence end is
    plain characters, one ending character and all the spaces that follow it,
    and it is a [ParagraphEnd] exactly when the next character is a newline. *)
Theorem chunk_by_word_shapes data ws :
  chunk_by_word data = Some ws →
  words_shaped (map (λ w, (sl_txt (wc_text w), word_type w)) ws).
Proof.
  rewrite chunk_by_word_spec. intros [= <-].
  replace (map _ _) with (words_spec [] data); [by apply words_spec_shaped|].
  generalize 0. induction (words_spec [] data) as [|[t ty] l IH]; intros off; simpl; [done|].
  f_equal. apply IH.
Qed.

Lemma chunk_by_word_shapes_witness :
  ∃ ws, chunk_by_word (ascii "Hi. ") = Some ws
    ∧ words_shaped (map (λ w, (sl_txt (wc_text w), word_type w)) ws).
Proof.
  eexists. split; [vm_compute; reflexivity|].
  apply (chunk_by_word_shapes (ascii "Hi. ")). vm_compute. reflexivity.
Defined.

Example chunk_by_word_paragraph_end :
  (λ ws, map (λ w, (sl_txt (wc_text w), word_type w)) ws) <$>
    chunk_by_word (ascii "Hello. " ++ [10%N] ++ ascii "World")
  = Some [(ascii "Hello. ", WordType.ParagraphEnd); (10%N :: ascii "World", WordType.Word)].
Proof. reflexivity. Qed.
