(* ===== verification/ChunkBySentence.v ===== *)
(** * Sentence-level chunker (crates/chunking/src/chunk_by_sentence.rs)

    The loop over the word chunks as a step function on the loop's local
    variables.  Its invariant groups the words taken in so far: the sentences
    already emitted, and the words of the pending one. *)

From S2P Require Import Prelude Text TokenCounter CutType ChunkByWord.

Record SentenceChunk := {
  sc_paragraph_id : uuid;
  sc_text : slice;
  sc_size : nat;
  sc_cut_type : CutType.t;
}.

Definition word_type_to_cut_type (wt : WordType.t) : CutType.t :=
  match wt with
  | WordType.ParagraphEnd => CutType.ParagraphEnd
  | WordType.SentenceEnd => CutType.SentenceEnd
  | WordType.Word => CutType.Word
  end.

(** [offset_in]: the base is where offsets are counted from. *)
Definition offset_in (s : slice) : nat := sl_off s.

(** The local variables of [chunk_by_sentence]; [v4_drawn] counts the calls of
    [Uuid::new_v4]. *)
Record sentence_state := {
  ss_result : list SentenceChunk;
  ss_paragraph_id : uuid;
  ss_v4_drawn : nat;
  ss_sentence_size : nat;
  ss_word_type_state : WordType.t;
  ss_sentence_start : option nat;
  ss_sentence_end : nat;
}.

Section sentence.
(** [C]: the token counter.  [is_alphabetic]: [char::is_alphabetic], a table of
    the Unicode database.  [new_v4 k]: the [k]-th value of [Uuid::new_v4]. *)
Context (C : TokenCounter) (is_alphabetic : char → bool) (new_v4 : nat → uuid).
Context (data : text) (maximum_size : option nat) (mode : TokenCountMode).

Definition sentence_init : sentence_state := {|
  ss_result := [];
  ss_paragraph_id := new_v4 0;
  ss_v4_drawn := 1;
  ss_sentence_size := 0;
  ss_word_type_state := WordType.Word;
  ss_sentence_start := None;
  ss_sentence_end := 0;
|}.

(** The closure [emitted_size]. *)
Definition emitted_size (start end_ accumulated : nat) : option nat :=
  match mode with
  | PerWord => Some accumulated
  | Span => s ← slice_range data start end_; Some (count_tokens (sl_txt s))
  end.

(** The update of [word_type_state]. *)
Definition next_word_type_state (st : WordType.t) (w : WordChunk) : WordType.t :=
  match word_type w with
  | WordType.ParagraphEnd | WordType.SentenceEnd => word_type w
  | WordType.Word =>
    if existsb is_alphabetic (sl_txt (wc_text w)) then word_type w else st
  end.

(** The two-tier overflow check: the final values of [overflows] and
    [next_size]. *)
Definition check_overflow (sentence_size word_size word_end_byte : nat)
    (sentence_start : option nat) : option (bool * nat) :=
  let next_size := sentence_size + word_size in
  let overflows := match maximum_size with Some max => max <? next_size | None => false end in
  match overflows, mode, sentence_start, maximum_size with
  | true, Span, Some start, Some max =>
    s ← slice_range data start word_end_byte;
    let exact_with_word := count_tokens (sl_txt s) in
    Some (if exact_with_word <=? max then (false, exact_with_word) else (true, next_size))
  | _, _, _, _ => Some (overflows, next_size)
  end.

(** [result.push(SentenceChunk { .. })] *)
Definition push_sentence (st : sentence_state) (paragraph_id : uuid)
    (start end_ accumulated : nat) (cut : CutType.t) : option (list SentenceChunk) :=
  s ← slice_range data start end_;
  size ← emitted_size start end_ accumulated;
  Some (ss_result st ++ [{| sc_paragraph_id := paragraph_id; sc_text := s;
                            sc_size := size; sc_cut_type := cut |}]).

(** The branch [if overflows && sentence_start.is_some()]: emit the pending
    sentence and start a new one with this word. *)
Definition cut_before_word (st : sentence_state) (start : nat)
    (word_type_state : WordType.t) (word_size word_start_byte word_end_byte : nat)
    : option sentence_state :=
  result ← push_sentence st (ss_paragraph_id st) start (ss_sentence_end st)
             (ss_sentence_size st) (word_type_to_cut_type word_type_state);
  Some {| ss_result := result;
          ss_paragraph_id := ss_paragraph_id st;
          ss_v4_drawn := ss_v4_drawn st;
          ss_sentence_size := word_size;
          ss_word_type_state := word_type_state;
          ss_sentence_start := Some word_start_byte;
          ss_sentence_end := word_end_byte |}.

(** The code after that branch: take the word in, and emit the sentence when
    the word ends it. *)
Definition take_word (st : sentence_state) (w : WordChunk)
    (word_type_state : WordType.t) (next_size word_start_byte word_end_byte : nat)
    : option sentence_state :=
  let start := default word_start_byte (ss_sentence_start st) in
  match word_type w with
  | WordType.ParagraphEnd | WordType.SentenceEnd =>
    let is_para := bool_decide (word_type w = WordType.ParagraphEnd) in
    let paragraph_id := if is_para then new_v4 (ss_v4_drawn st) else ss_paragraph_id st in
    let v4_drawn := if is_para then S (ss_v4_drawn st) else ss_v4_drawn st in
    result ← push_sentence st paragraph_id start word_end_byte next_size
               (word_type_to_cut_type word_type_state);
    Some {| ss_result := result;
            ss_paragraph_id := paragraph_id;
            ss_v4_drawn := v4_drawn;
            ss_sentence_size := 0;
            ss_word_type_state := word_type_state;
            ss_sentence_start := None;
            ss_sentence_end := word_end_byte |}
  | WordType.Word =>
    Some {| ss_result := ss_result st;
            ss_paragraph_id := ss_paragraph_id st;
            ss_v4_drawn := ss_v4_drawn st;
            ss_sentence_size := next_size;
            ss_word_type_state := word_type_state;
            ss_sentence_start := Some start;
            ss_sentence_end := word_end_byte |}
  end.

(** One iteration of [for word_chunk in &words]. *)
Definition sentence_step (st : sentence_state) (w : WordChunk) : option sentence_state :=
  let word := wc_text w in
  let word_size := count_tokens (sl_txt word) in
  let word_start_byte := offset_in word in
  let word_end_byte := word_start_byte + str_len (sl_txt word) in
  let word_type_state := next_word_type_state (ss_word_type_state st) w in
  r ← check_overflow (ss_sentence_size st) word_size word_end_byte (ss_sentence_start st);
  let overflows := r.1 in
  let next_size := r.2 in
  match overflows, ss_sentence_start st with
  | true, Some start => cut_before_word st start word_type_state word_size word_start_byte word_end_byte
  | _, _ => take_word st w word_type_state next_size word_start_byte word_end_byte
  end.

(** The code after the loop. *)
Definition sentence_finish (st : sentence_state) : option (list SentenceChunk) :=
  match ss_sentence_start st with
  | Some start =>
    let cut_type :=
      if bool_decide (ss_word_type_state st = WordType.Word) then CutType.SentenceCut
      else word_type_to_cut_type (ss_word_type_state st) in
    push_sentence st (ss_paragraph_id st) start (ss_sentence_end st)
      (ss_sentence_size st) cut_type
  | None => Some (ss_result st)
  end.

Fixpoint sentence_loop (ws : list WordChunk) (st : sentence_state) : option sentence_state :=
  match ws with
  | [] => Some st
  | w :: ws' => st' ← sentence_step st w; sentence_loop ws' st'
  end.

Definition chunk_by_sentence : option (list SentenceChunk) :=
  words ← chunk_by_word data;
  st ← sentence_loop words sentence_init;
  sentence_finish st.

(** ** Groups of words *)

Definition word_text (w : WordChunk) : text := sl_txt (wc_text w).
Definition words_text (ws : list WordChunk) : text := concat (map word_text ws).
Definition words_sum (ws : list WordChunk) : nat :=
  sum_list_with (λ w, count_tokens (word_text w)) ws.

(** The reported size of a group of words, in the unit of the mode. *)
Definition group_size (ws : list WordChunk) : nat :=
  match mode with PerWord => words_sum ws | Span => count_tokens (words_text ws) end.

(** A group is within the maximum, or it is one word. *)
Definition group_bounded (ws : list WordChunk) (size : nat) : Prop :=
  match maximum_size with
  | None => True
  | Some max => length ws ≤ 1 ∨ size ≤ max
  end.

(** A sentence chunk made of the words of a group.  Under [Span] the bound
    needs a counter with the laws. *)
Definition sentence_of (ws : list WordChunk) (s : SentenceChunk) : Prop :=
  ws ≠ [] ∧ sl_txt (sc_text s) = words_text ws ∧ sc_size s = group_size ws
  ∧ (mode = PerWord ∨ CounterLaws C → group_bounded ws (sc_size s)).

(** The accumulated size of the pending group: exact under [PerWord], an
    upper bound under [Span]. *)
Definition size_tracks (ws : list WordChunk) (size : nat) : Prop :=
  match mode with
  | PerWord => size = words_sum ws
  | Span => CounterLaws C → count_tokens (words_text ws) ≤ size
  end.

Record sentence_inv (done_ : list (list WordChunk)) (cur : list WordChunk)
    (st : sentence_state) : Prop := {
  si_done : Forall2 sentence_of done_ (ss_result st);
  si_layout : layout 0 (map sc_text (ss_result st));
  si_start : ss_sentence_start st =
    match cur with [] => None | _ => Some (str_len (words_text (concat done_))) end;
  si_end : cur ≠ [] → ss_sentence_end st = str_len (words_text (concat done_ ++ cur));
  si_tracks : cur ≠ [] → size_tracks cur (ss_sentence_size st);
  si_zero : cur = [] → ss_sentence_size st = 0;
  si_bound : group_bounded cur (ss_sentence_size st);
}.

Lemma words_text_app ws1 ws2 : words_text (ws1 ++ ws2) = words_text ws1 ++ words_text ws2.
Proof. unfold words_text. by rewrite map_app, concat_app. Qed.

Lemma words_text_cons w ws : words_text (w :: ws) = word_text w ++ words_text ws.
Proof. reflexivity. Qed.

(** Equations between texts of words. *)
Ltac words_text_eq :=
  rewrite ?words_text_app; simpl; rewrite ?words_text_app, ?words_text_cons;
  simpl; rewrite ?app_nil_r, <-?app_assoc; reflexivity.

Lemma words_text_one w : words_text [w] = word_text w.
Proof. unfold words_text. simpl. by rewrite app_nil_r. Qed.

Lemma words_sum_snoc ws w : words_sum (ws ++ [w]) = words_sum ws + count_tokens (word_text w).
Proof. unfold words_sum. rewrite sum_list_with_app'. simpl. lia. Qed.

Lemma sentences_text done_ ss :
  Forall2 sentence_of done_ ss →
  concat (map (λ s, sl_txt (sc_text s)) ss) = words_text (concat done_).
Proof.
  induction 1 as [|g s gs ss Hs _ IH]; [done|]. simpl. rewrite words_text_app.
  destruct Hs as (_ & -> & _). by rewrite IH.
Qed.

(** Emitting a group of words. *)
Lemma push_sentence_spec done_ g rest st pid acc cut :
  Forall2 sentence_of done_ (ss_result st) →
  layout 0 (map sc_text (ss_result st)) →
  data = words_text (concat done_ ++ g ++ rest) →
  g ≠ [] → size_tracks g acc → group_bounded g acc →
  ∃ res, push_sentence st pid (str_len (words_text (concat done_)))
           (str_len (words_text (concat done_ ++ g))) acc cut = Some res
    ∧ Forall2 sentence_of (done_ ++ [g]) res
    ∧ layout 0 (map sc_text res).
Proof.
  intros Hdone Hlay Hdata Hg Htr Hb. unfold push_sentence, emitted_size.
  rewrite (slice_range_between data (words_text (concat done_)) (words_text g)
             (words_text rest)); [|by rewrite Hdata, !words_text_app|done|by rewrite words_text_app].
  assert (Hsize : ∀ size, size = group_size g →
    sentence_of g {| sc_paragraph_id := pid;
      sc_text := Slice (str_len (words_text (concat done_))) (words_text g);
      sc_size := size; sc_cut_type := cut |}).
  { intros size ->. split_and!; [done..|]. simpl. intros Hlaws.
    unfold group_bounded, group_size, size_tracks in *. destruct maximum_size as [max|]; [|done].
    destruct mode; [destruct Hlaws as [?|?]; [done|]|]; naive_solver lia. }
  assert (Hl : ∀ s, sc_text s = Slice (str_len (words_text (concat done_))) (words_text g) →
    layout 0 (map sc_text (ss_result st ++ [s]))).
  { intros s Hs. rewrite map_app. apply layout_app. split; [done|]. simpl. rewrite Hs.
    rewrite map_map, (sentences_text done_) by done. simpl. auto. }
  destruct mode eqn:Hm; simpl; (eexists; split; [done|]); (split; [|by apply Hl]);
    (apply Forall2_snoc; [done|]); apply Hsize; unfold group_size; rewrite Hm; [done|].
  unfold size_tracks in Htr. by rewrite Hm in Htr.
Qed.

(** Taking one more word into the pending group. *)
Lemma size_tracks_snoc cur w size :
  (cur ≠ [] → size_tracks cur size) → (cur = [] → size = 0) →
  size_tracks (cur ++ [w]) (size + count_tokens (word_text w)).
Proof.
  intros Htr Hz. unfold size_tracks in *. destruct (decide (cur = [])) as [->|Hne].
  - rewrite Hz by done. simpl. rewrite words_text_one. unfold words_sum. simpl. by destruct mode; lia.
  - specialize (Htr Hne). destruct mode.
    + intros Hl. rewrite words_text_app, words_text_one.
      pose proof (count_app (words_text cur) (word_text w)). specialize (Htr Hl). lia.
    + rewrite words_sum_snoc. lia.
Qed.

Lemma check_overflow_spec pre cur w rest size :
  data = words_text (pre ++ cur ++ w :: rest) →
  (cur ≠ [] → size_tracks cur size) → (cur = [] → size = 0) →
  ∃ ov nx,
    check_overflow size (count_tokens (word_text w)) (str_len (words_text (pre ++ cur ++ [w])))
      (match cur with [] => None | _ => Some (str_len (words_text pre)) end) = Some (ov, nx)
    ∧ size_tracks (cur ++ [w]) nx
    ∧ (ov = false ∨ cur = [] → group_bounded (cur ++ [w]) nx).
Proof.
  intros Hdata Htr Hz. pose proof (size_tracks_snoc cur w size Htr Hz) as Hsnoc.
  assert (Hone : ∀ nx, cur = [] → group_bounded (cur ++ [w]) nx).
  { intros nx ->. unfold group_bounded. destruct maximum_size; simpl; auto. }
  unfold check_overflow, group_bounded in *. destruct maximum_size as [max|]; [|eauto 6].
  destruct (Nat.ltb_spec max (size + count_tokens (word_text w))) as [Hlt|Hge].
  2:{ do 2 eexists. split; [done|]. auto. }
  destruct mode eqn:Hm; [|do 2 eexists; split; [done|]; naive_solver].
  destruct cur as [|c cur]; [do 2 eexists; split; [done|]; naive_solver|].
  rewrite (slice_range_between data (words_text pre) (words_text ((c :: cur) ++ [w]))
    (words_text rest)); [|rewrite Hdata; words_text_eq|done|by rewrite <-words_text_app].
  simpl. destruct (Nat.leb_spec (count_tokens (words_text (c :: cur ++ [w]))) max);
    do 2 eexists; (split; [done|]); unfold size_tracks in *; rewrite Hm in *; naive_solver.
Qed.

(** A cut starts a new group with the overflowing word. *)
Lemma cut_before_word_inv done_ cur st w rest wt :
  sentence_inv done_ cur st → cur ≠ [] →
  data = words_text (concat done_ ++ cur ++ w :: rest) →
  ∃ st', cut_before_word st (str_len (words_text (concat done_))) wt
           (count_tokens (word_text w)) (str_len (words_text (concat done_ ++ cur)))
           (str_len (words_text (concat done_ ++ cur ++ [w]))) = Some st'
    ∧ sentence_inv (done_ ++ [cur]) [w] st'.
Proof.
  intros [Hdone Hlay Hstart Hend Htr Hz Hb] Hne Hdata. unfold cut_before_word.
  rewrite Hend by done.
  destruct (push_sentence_spec done_ cur (w :: rest) st (ss_paragraph_id st)
    (ss_sentence_size st) (word_type_to_cut_type wt))
    as (res & -> & Hdone' & Hlay'); [by auto ..|]. simpl.
  eexists. split; [done|]. split; simpl; rewrite ?concat_snoc, <-?app_assoc; try done.
  - intros _. apply (size_tracks_snoc [] w 0); done.
  - unfold group_bounded. destruct maximum_size; simpl; auto.
Qed.

(** Taking a word in extends the pending group, and empties it when the word
    ends the sentence. *)
Lemma take_word_inv done_ cur st w rest wt nx :
  sentence_inv done_ cur st →
  data = words_text (concat done_ ++ cur ++ w :: rest) →
  size_tracks (cur ++ [w]) nx → group_bounded (cur ++ [w]) nx →
  ∃ st' done' cur', take_word st w wt nx (str_len (words_text (concat done_ ++ cur)))
           (str_len (words_text (concat done_ ++ cur ++ [w]))) = Some st'
    ∧ sentence_inv done' cur' st' ∧ concat done' ++ cur' = concat done_ ++ cur ++ [w].
Proof.
  intros [Hdone Hlay Hstart Hend Htr Hz Hb] Hdata Htr' Hb'. unfold take_word.
  assert (default (str_len (words_text (concat done_ ++ cur))) (ss_sentence_start st)
      = str_len (words_text (concat done_))) as ->.
  { rewrite Hstart. destruct cur; simpl; by rewrite ?app_nil_r. }
  assert (Hcur : cur ++ [w] ≠ []) by (by destruct cur).
  assert (Hpush : ∀ pid cut, ∃ res, push_sentence st pid (str_len (words_text (concat done_)))
      (str_len (words_text (concat done_ ++ cur ++ [w]))) nx cut = Some res
    ∧ Forall2 sentence_of (done_ ++ [cur ++ [w]]) res ∧ layout 0 (map sc_text res)).
  { intros. apply (push_sentence_spec done_ (cur ++ [w]) rest); try done. by rewrite <-app_assoc. }
  assert (Hnil : group_bounded [] 0) by (unfold group_bounded; destruct maximum_size; simpl; auto).
  destruct (word_type w).
  - eexists _, done_, (cur ++ [w]). split_and!; [done| |done]. split; simpl; try done.
    by destruct cur.
  - edestruct Hpush as (res & -> & ? & ?). simpl. eexists _, (done_ ++ [cur ++ [w]]), [].
    split_and!; [done| |by rewrite concat_snoc, app_nil_r]. by split.
  - edestruct Hpush as (res & -> & ? & ?). simpl. eexists _, (done_ ++ [cur ++ [w]]), [].
    split_and!; [done| |by rewrite concat_snoc, app_nil_r]. by split.
Qed.

(** One iteration keeps the invariant and takes in exactly one word. *)
Lemma sentence_step_inv done_ cur st w rest :
  sentence_inv done_ cur st →
  data = words_text (concat done_ ++ cur ++ w :: rest) →
  sl_off (wc_text w) = str_len (words_text (concat done_ ++ cur)) →
  ∃ st' done' cur', sentence_step st w = Some st' ∧ sentence_inv done' cur' st'
    ∧ concat done' ++ cur' = concat done_ ++ cur ++ [w].
Proof.
  intros Hinv Hdata Hoff. pose proof Hinv as [Hdone Hlay Hstart Hend Htr Hz Hb].
  unfold sentence_step, offset_in. rewrite Hoff. fold (word_text w).
  replace (str_len (words_text (concat done_ ++ cur)) + str_len (word_text w))
    with (str_len (words_text (concat done_ ++ cur ++ [w])))
    by (rewrite !words_text_app, words_text_one; str_len_lia).
  destruct (check_overflow_spec (concat done_) cur w rest (ss_sentence_size st))
    as (ov & nx & Hco & Htr' & Hb'); [done..|]. rewrite <-Hstart in Hco. rewrite Hco. simpl.
  destruct ov; [|by apply (take_word_inv _ _ _ _ rest); auto].
  rewrite Hstart. destruct cur as [|c cur].
  - apply (take_word_inv _ _ _ _ rest); auto.
  - destruct (cut_before_word_inv done_ (c :: cur) st w rest
      (next_word_type_state (ss_word_type_state st) w)) as (st' & -> & Hinv'); [done..|].
    eexists _, _, _. split_and!; [done..|]. by rewrite concat_snoc, <-app_assoc.
Qed.

Lemma sentence_loop_inv ws : ∀ done_ cur st,
  sentence_inv done_ cur st →
  data = words_text (concat done_ ++ cur ++ ws) →
  layout (str_len (words_text (concat done_ ++ cur))) (map wc_text ws) →
  ∃ st' done' cur', sentence_loop ws st = Some st' ∧ sentence_inv done' cur' st'
    ∧ concat done' ++ cur' = concat done_ ++ cur ++ ws.
Proof.
  induction ws as [|w ws IH]; intros done_ cur st Hinv Hdata Hlay; simpl.
  - eexists _, _, _. split_and!; [done..|]. by rewrite app_nil_r.
  - destruct Hlay as [Hoff Hlay].
    destruct (sentence_step_inv done_ cur st w ws) as (st1 & d1 & c1 & -> & Hinv1 & Heq); [done..|].
    simpl. assert (Heq' : concat d1 ++ c1 ++ ws = concat done_ ++ cur ++ w :: ws).
    { rewrite app_assoc, Heq, <-!app_assoc. done. }
    destruct (IH d1 c1 st1) as (st2 & d2 & c2 & -> & Hinv2 & Heq2); [done|by rewrite Heq'| |].
    + rewrite Heq, app_assoc, words_text_app, words_text_one, str_len_app. done.
    + eexists _, _, _. split_and!; [done..|]. by rewrite Heq2.
Qed.

Lemma sentence_init_inv : sentence_inv [] [] sentence_init.
Proof. split; simpl; try done. unfold group_bounded. destruct maximum_size; simpl; auto. Qed.

Lemma sentence_finish_spec done_ cur st :
  sentence_inv done_ cur st → data = words_text (concat done_ ++ cur) →
  ∃ ss groups, sentence_finish st = Some ss ∧ Forall2 sentence_of groups ss
    ∧ layout 0 (map sc_text ss) ∧ concat groups = concat done_ ++ cur.
Proof.
  intros [Hdone Hlay Hstart Hend Htr Hz Hb] Hdata. unfold sentence_finish. rewrite Hstart.
  destruct cur as [|c cur].
  - eexists _, done_. split_and!; [done..|]. by rewrite app_nil_r.
  - rewrite Hend by done.
    destruct (push_sentence_spec done_ (c :: cur) [] st (ss_paragraph_id st)
      (ss_sentence_size st) (if bool_decide (ss_word_type_state st = WordType.Word)
       then CutType.SentenceCut else word_type_to_cut_type (ss_word_type_state st)))
      as (res & -> & Hdone' & Hlay'); [by rewrite ?app_nil_r; auto ..|].
    eexists _, (done_ ++ [c :: cur]). split_and!; [done..|]. by rewrite concat_snoc.
Qed.

(** The whole function: the words, grouped. *)
Lemma chunk_by_sentence_groups :
  ∃ words ss groups, chunk_by_word data = Some words ∧ chunk_by_sentence = Some ss
    ∧ concat groups = words ∧ Forall2 sentence_of groups ss ∧ layout 0 (map sc_text ss).
Proof.
  unfold chunk_by_sentence. set (words := to_chunks 0 (words_spec [] data)).
  assert (Hw : chunk_by_word data = Some words) by apply chunk_by_word_spec.
  assert (Htext : data = words_text words).
  { unfold words_text, words. rewrite <-(map_map wc_text sl_txt), to_chunks_texts, place_texts.
    by rewrite words_spec_concat. }
  destruct (sentence_loop_inv words [] [] sentence_init) as (st & d & c & Hloop & Hinv & Heq);
    [apply sentence_init_inv|done|unfold words; rewrite to_chunks_texts; apply place_layout|].
  simpl in Heq. destruct (sentence_finish_spec d c st) as (ss & gs & Hfin & Hgs & Hlay & Hcat);
    [done|by rewrite Heq|].
  exists words, ss, gs. rewrite Hw. simpl. rewrite Hloop. simpl. rewrite Hcat. auto.
Qed.
End sentence.

(** ** Properties *)

(** C20: for every token counter, limit and counting mode, [chunk_by_sentence]
    never panics, and its sentences are non-empty slices that follow one another
    from byte 0 and concatenate to the input.  Under [Span] the reported size of
    each is the counter's count of the emitted text. *)
Theorem chunk_by_sentence_lossless C is_alphabetic new_v4 data maximum_size mode :
  ∃ ss, chunk_by_sentence C is_alphabetic new_v4 data maximum_size mode = Some ss
    ∧ concat (map (λ s, sl_txt (sc_text s)) ss) = data
    ∧ layout 0 (map sc_text ss)
    ∧ Forall (λ s, sl_txt (sc_text s) ≠ []) ss
    ∧ (mode = Span → Forall (λ s, sc_size s = count_tokens (TokenCounter := C) (sl_txt (sc_text s))) ss).
Proof.
  destruct (chunk_by_sentence_groups C is_alphabetic new_v4 data maximum_size mode)
    as (words & ss & groups & Hw & Hss & Hcat & Hgs & Hlay).
  exists ss. split; [done|].
  rewrite chunk_by_word_spec in Hw. injection Hw as Hw.
  split; [|split; [done|split]].
  - erewrite sentences_text by done. rewrite Hcat, <-Hw. unfold words_text.
    rewrite <-(map_map wc_text sl_txt), to_chunks_texts, place_texts. apply words_spec_concat.
  - assert (Hne : Forall (λ w, word_text w ≠ []) (concat groups)).
    { rewrite Hcat, <-Hw. apply (List.Forall_map word_text (λ t, t ≠ [])).
      rewrite <-(map_map wc_text sl_txt), to_chunks_texts, place_texts.
      apply (List.Forall_map fst (λ t, t ≠ [])), words_spec_nonempty. }
    clear -Hgs Hne. induction Hgs as [|g s gs ss (Hg & Ht & _) _ IH]; [done|].
    simpl in Hne. apply Forall_app in Hne as [Hne1 Hne2]. constructor; [|auto].
    rewrite Ht. destruct g as [|w g]; [done|]. inv Hne1. rewrite words_text_cons.
    by destruct (word_text w).
  - intros ->. clear -Hgs. induction Hgs as [|g s gs ss (_ & Ht & Hsz & _) _ IH]; constructor; auto.
    by rewrite Hsz, Ht.
Qed.

(** C19: under a limit, a sentence is never larger than the limit unless it is a
    single word of [chunk_by_word].  [PerWord] sizes need nothing of the counter;
    [Span] sizes need one that counts a span at most as the sum of its parts, and
    never below a prefix of it. *)
Theorem chunk_by_sentence_bounded C is_alphabetic new_v4 data max mode ss :
  mode = PerWord ∨ CounterLaws C →
  chunk_by_sentence C is_alphabetic new_v4 data (Some max) mode = Some ss →
  ∃ words, chunk_by_word data = Some words
    ∧ Forall (λ s, sc_size s ≤ max ∨ ∃ w, w ∈ words ∧ sl_txt (sc_text s) = word_text w) ss.
Proof.
  intros Hlaws Hss.
  destruct (chunk_by_sentence_groups C is_alphabetic new_v4 data (Some max) mode)
    as (words & ss' & groups & Hw & Hss' & Hcat & Hgs & _).
  rewrite Hss in Hss'. simplify_eq. exists (concat groups). split; [done|]. clear -Hgs Hlaws.
  induction Hgs as [|g s gs ss (Hg & Ht & _ & Hb) _ IH]; [done|].
  constructor.
  - destruct (Hb Hlaws) as [Hlen|?]; [|by left]. right.
    destruct g as [|w [|]]; simpl in Hlen; [done| |lia].
    exists w. split; [apply elem_of_app; left; by constructor|]. by rewrite Ht, words_text_one.
  - eapply Forall_impl; [exact IH|]. simpl. intros x [?|(w & ? & ?)]; [by left|].
    right. exists w. split; [|done]. apply elem_of_app. by right.
Qed.

(** A concrete [is_alphabetic] and id supply, for the examples. *)
Definition ascii_alphabetic (c : char) : bool :=
  (((65 <=? c) && (c <=? 90)) || ((97 <=? c) && (c <=? 122)))%N.
Definition counted_v4 (k : nat) : uuid := N.of_nat k.

Lemma chunk_by_sentence_bounded_witness :
  (Span = PerWord ∨ CounterLaws WordCounter)
  ∧ ∃ ss words, chunk_by_sentence WordCounter ascii_alphabetic counted_v4
        (ascii "one two three four") (Some 2) Span = Some ss
    ∧ chunk_by_word (ascii "one two three four") = Some words
    ∧ Forall (λ s, sc_size s ≤ 2 ∨ ∃ w, w ∈ words ∧ sl_txt (sc_text s) = word_text w) ss.
Proof.
  split; [right; apply WordCounter_laws|].
  set (r := chunk_by_sentence WordCounter ascii_alphabetic counted_v4
    (ascii "one two three four") (Some 2) Span).
  assert (E : r = Some (default [] r)) by (vm_compute; reflexivity).
  destruct (chunk_by_sentence_bounded WordCounter ascii_alphabetic counted_v4
    (ascii "one two three four") 2 Span _ (or_intror WordCounter_laws) E) as (words & ? & ?).
  exists (default [] r), words. split; [exact E|]. by split.
Defined.

(** A sentence cut because the next word would overflow carries the boundary
    type of that next word: ["one two "] is emitted as [SentenceEnd]. *)
Lemma cut_type_of_overflowing_word :
  (λ ss, map (λ s, (sl_txt (sc_text s), sc_cut_type s)) ss) <$>
    chunk_by_sentence WordCounter ascii_alphabetic counted_v4 (ascii "one two three.") (Some 2) Span
  = Some [(ascii "one two ", CutType.SentenceEnd); (ascii "three.", CutType.SentenceEnd)].
Proof. vm_compute. reflexivity. Qed.
