(* ===== verification/ChunkByParagraph.v ===== *)
(** * Paragraph-level chunker (crates/chunking/src/chunk_by_paragraph.rs)

    The loop over the sentences as a step function.  Its invariant groups the
    sentences taken in so far, as [ChunkBySentence] groups words. *)

From S2P Require Import Prelude Text TokenCounter CutType ChunkByWord ChunkBySentence.

Record ParagraphChunk := {
  pc_text : slice;
  pc_chunk_size : nat;
  pc_chunk_id : uuid;
  pc_paragraph_ids : list uuid;
  pc_chunk_index : nat;
  pc_cut_type : CutType.t;
}.

(** The local variables of [chunk_by_paragraph]. *)
Record paragraph_state := {
  ps_result : list ParagraphChunk;
  ps_chunk_index : nat;
  ps_paragraph_ids : list uuid;
  ps_last_cut_type : CutType.t;
  ps_current_chunk_size : nat;
  ps_chunk_start : option nat;
  ps_chunk_end : nat;
}.

Definition paragraph_init : paragraph_state := {|
  ps_result := [];
  ps_chunk_index := 0;
  ps_paragraph_ids := [];
  ps_last_cut_type := CutType.SentenceCut;
  ps_current_chunk_size := 0;
  ps_chunk_start := None;
  ps_chunk_end := 0;
|}.

(** [matches!(cut_type, CutType::ParagraphEnd | CutType::SentenceCut)] *)
Definition is_boundary (c : CutType.t) : bool :=
  match c with CutType.ParagraphEnd | CutType.SentenceCut => true | _ => false end.

Section paragraph.
(** [new_v5 ns s]: [Uuid::new_v5(&ns, s.as_bytes())]. *)
Context (C : TokenCounter) (new_v5 : uuid → text → uuid).
Context (data : text) (max_chunk_size : nat) (batch_paragraphs : bool) (mode : TokenCountMode).

(** The closure [emitted_size]. *)
Definition para_emitted_size (t : text) (accumulated : nat) : nat :=
  match mode with PerWord => accumulated | Span => count_tokens t end.

(** The two-tier check: the final values of [overflows] and [next_size]. *)
Definition para_check_overflow (current size sent_end : nat) (chunk_start : option nat)
    : option (bool * nat) :=
  let next_size := current + size in
  let overflows := (0 <? current) && (max_chunk_size <? next_size) in
  match overflows, mode, chunk_start with
  | true, Span, Some start =>
    s ← slice_range data start sent_end;
    let exact_with_sentence := count_tokens (sl_txt s) in
    Some (if exact_with_sentence <=? max_chunk_size then (false, exact_with_sentence)
          else (true, next_size))
  | _, _, _ => Some (overflows, next_size)
  end.

(** [result.push(ParagraphChunk { .. })] of the slice [start..end]. *)
Definition push_paragraph (result : list ParagraphChunk) (start end_ accumulated : nat)
    (paragraph_ids : list uuid) (chunk_index : nat) (cut : CutType.t)
    : option (list ParagraphChunk) :=
  t ← slice_range data start end_;
  Some (result ++ [{| pc_text := t;
                      pc_chunk_size := para_emitted_size (sl_txt t) accumulated;
                      pc_chunk_id := new_v5 NAMESPACE_OID (sl_txt t);
                      pc_paragraph_ids := paragraph_ids;
                      pc_chunk_index := chunk_index;
                      pc_cut_type := cut |}]).

(** The block [if overflows { .. }].  [None]: [chunk_start.expect] panics. *)
Definition para_cut (st : paragraph_state) (overflows : bool) : option paragraph_state :=
  if overflows then
    start ← ps_chunk_start st;
    result ← push_paragraph (ps_result st) start (ps_chunk_end st)
      (ps_current_chunk_size st) (ps_paragraph_ids st) (ps_chunk_index st) (ps_last_cut_type st);
    Some {| ps_result := result;
            ps_chunk_index := S (ps_chunk_index st);
            ps_paragraph_ids := [];
            ps_last_cut_type := ps_last_cut_type st;
            ps_current_chunk_size := ps_current_chunk_size st;
            ps_chunk_start := None;
            ps_chunk_end := ps_chunk_end st |}
  else Some st.

(** The rest of the iteration: take the sentence in, and in non-batch mode
    emit the chunk at a paragraph boundary. *)
Definition para_take (st : paragraph_state) (sentence : SentenceChunk)
    (overflows : bool) (next_size sent_start sent_end : nat) : option paragraph_state :=
  let paragraph_ids := ps_paragraph_ids st ++ [sc_paragraph_id sentence] in
  let start := default sent_start (ps_chunk_start st) in
  let current_chunk_size := if overflows then sc_size sentence else next_size in
  if negb batch_paragraphs && is_boundary (sc_cut_type sentence) then
    result ← push_paragraph (ps_result st) start sent_end current_chunk_size
      paragraph_ids (ps_chunk_index st) (sc_cut_type sentence);
    Some {| ps_result := result;
            ps_chunk_index := S (ps_chunk_index st);
            ps_paragraph_ids := [];
            ps_last_cut_type := sc_cut_type sentence;
            ps_current_chunk_size := 0;
            ps_chunk_start := None;
            ps_chunk_end := sent_end |}
  else
    Some {| ps_result := ps_result st;
            ps_chunk_index := ps_chunk_index st;
            ps_paragraph_ids := paragraph_ids;
            ps_last_cut_type := sc_cut_type sentence;
            ps_current_chunk_size := current_chunk_size;
            ps_chunk_start := Some start;
            ps_chunk_end := sent_end |}.

(** One iteration of [for sentence in &sentences]. *)
Definition paragraph_step (st : paragraph_state) (sentence : SentenceChunk)
    : option paragraph_state :=
  let sent_start := offset_in (sc_text sentence) in
  let sent_end := sent_start + str_len (sl_txt (sc_text sentence)) in
  r ← para_check_overflow (ps_current_chunk_size st) (sc_size sentence) sent_end
        (ps_chunk_start st);
  st' ← para_cut st r.1;
  para_take st' sentence r.1 r.2 sent_start sent_end.

Fixpoint paragraph_loop (ss : list SentenceChunk) (st : paragraph_state)
    : option paragraph_state :=
  match ss with
  | [] => Some st
  | s :: ss' => st' ← paragraph_step st s; paragraph_loop ss' st'
  end.

(** The code after the loop. *)
Definition paragraph_finish (st : paragraph_state) : option (list ParagraphChunk) :=
  match ps_chunk_start st with
  | Some start =>
    let final_cut_type :=
      if bool_decide (ps_last_cut_type st = CutType.Word) then CutType.SentenceCut
      else ps_last_cut_type st in
    push_paragraph (ps_result st) start (ps_chunk_end st) (ps_current_chunk_size st)
      (ps_paragraph_ids st) (ps_chunk_index st) final_cut_type
  | None => Some (ps_result st)
  end.

(** [chunk_by_paragraph], with the supplies [chunk_by_sentence] needs. *)
Definition chunk_by_paragraph (is_alphabetic : char → bool) (new_v4 : nat → uuid)
    : option (list ParagraphChunk) :=
  sentences ← chunk_by_sentence C is_alphabetic new_v4 data (Some max_chunk_size) mode;
  st ← paragraph_loop sentences paragraph_init;
  paragraph_finish st.

(** ** Groups of sentences *)

Definition sent_text (s : SentenceChunk) : text := sl_txt (sc_text s).
Definition sents_text (g : list SentenceChunk) : text := concat (map sent_text g).
Definition sents_sum (g : list SentenceChunk) : nat := sum_list_with sc_size g.

(** The reported size of a group, in the unit of the mode. *)
Definition para_size (g : list SentenceChunk) : nat :=
  match mode with PerWord => sents_sum g | Span => count_tokens (sents_text g) end.

Definition para_bounded (g : list SentenceChunk) (size : nat) : Prop :=
  size ≤ max_chunk_size ∨ ∃ s, s ∈ g ∧ size ≤ sc_size s.

(** What the accumulator says of the pending group. *)
Definition para_tracks (g : list SentenceChunk) (size : nat) : Prop :=
  match mode with
  | PerWord => size = sents_sum g
  | Span => CounterLaws C → count_tokens (sents_text g) ≤ size
  end.

(** Only the last sentence of a group may end a paragraph. *)
Definition inner_plain (g : list SentenceChunk) : Prop :=
  batch_paragraphs = false → ∃ init s, g = init ++ [s]
    ∧ Forall (λ s, is_boundary (sc_cut_type s) = false) init.

Record para_of (g : list SentenceChunk) (p : ParagraphChunk) : Prop := {
  po_nonempty : g ≠ [];
  po_text : sl_txt (pc_text p) = sents_text g;
  po_size : pc_chunk_size p = para_size g;
  po_id : pc_chunk_id p = new_v5 NAMESPACE_OID (sents_text g);
  po_paragraph_ids : pc_paragraph_ids p = map sc_paragraph_id g;
  po_cut : ∃ s, last g = Some s ∧
    (pc_cut_type p = sc_cut_type s
     ∨ (sc_cut_type s = CutType.Word ∧ pc_cut_type p = CutType.SentenceCut));
  po_bound : mode = PerWord ∨ CounterLaws C → para_bounded g (pc_chunk_size p);
  po_inner : inner_plain g;
}.

Definition over (a b : nat) : Prop := max_chunk_size < a + b.

(** What every point of an iteration keeps: the chunks emitted are the groups
    done, and the pending group [cur] starts where they stop. *)
Record para_ready (done_ : list (list SentenceChunk)) (cur : list SentenceChunk)
    (st : paragraph_state) : Prop := {
  pr_done : Forall2 para_of done_ (ps_result st);
  pr_layout : layout 0 (map pc_text (ps_result st));
  pr_index : map pc_chunk_index (ps_result st) = seq 0 (length (ps_result st));
  pr_next : ps_chunk_index st = length (ps_result st);
  pr_ids : ps_paragraph_ids st = map sc_paragraph_id cur;
  pr_start : ps_chunk_start st =
    match cur with [] => None | _ => Some (str_len (sents_text (concat done_))) end;
  pr_inner : batch_paragraphs = false → Forall (λ s, is_boundary (sc_cut_type s) = false) cur;
}.

(** In batch mode neighbouring chunks would not fit in one. *)
Definition chain_ready (cur : list SentenceChunk) (st : paragraph_state) : Prop :=
  batch_paragraphs = true → mode = PerWord ∨ CounterLaws C →
    chain over (map pc_chunk_size (ps_result st))
    ∧ (∀ p, last (ps_result st) = Some p → cur ≠ [] → over (pc_chunk_size p) (para_size cur)).

Record paragraph_inv (done_ : list (list SentenceChunk)) (cur : list SentenceChunk)
    (st : paragraph_state) : Prop := {
  pi_ready : para_ready done_ cur st;
  pi_end : cur ≠ [] → ps_chunk_end st = str_len (sents_text (concat done_ ++ cur));
  pi_cut : ∀ s, last cur = Some s → ps_last_cut_type st = sc_cut_type s;
  pi_tracks : cur ≠ [] → para_tracks cur (ps_current_chunk_size st);
  pi_zero : cur = [] → ps_current_chunk_size st = 0;
  pi_bound : para_bounded cur (ps_current_chunk_size st);
  pi_chain : chain_ready cur st;
  pi_batch : batch_paragraphs = true → cur = [] → ps_result st = [];
}.

Lemma sents_text_app g1 g2 : sents_text (g1 ++ g2) = sents_text g1 ++ sents_text g2.
Proof. unfold sents_text. by rewrite map_app, concat_app. Qed.

Lemma sents_text_cons s g : sents_text (s :: g) = sent_text s ++ sents_text g.
Proof. reflexivity. Qed.

Lemma sents_text_one s : sents_text [s] = sent_text s.
Proof. unfold sents_text. simpl. by rewrite app_nil_r. Qed.

Lemma paras_text done_ ps :
  Forall2 para_of done_ ps →
  concat (map (λ p, sl_txt (pc_text p)) ps) = sents_text (concat done_).
Proof.
  induction 1 as [|g p gs ps Hp _ IH]; [done|]. simpl. rewrite sents_text_app, IH.
  by rewrite (po_text _ _ Hp).
Qed.

(** Equations between texts of sentences. *)
Ltac sents_text_eq :=
  rewrite ?sents_text_app; simpl; rewrite ?sents_text_app, ?sents_text_cons;
  simpl; rewrite ?app_nil_r, <-?app_assoc; reflexivity.

(** Emitting a group of sentences. *)
Lemma push_paragraph_spec done_ g rest res acc ids idx cut :
  Forall2 para_of done_ res → layout 0 (map pc_text res) →
  data = sents_text (concat done_ ++ g ++ rest) →
  g ≠ [] → para_tracks g acc → para_bounded g acc → inner_plain g →
  ids = map sc_paragraph_id g →
  (∃ s, last g = Some s ∧ (cut = sc_cut_type s
     ∨ (sc_cut_type s = CutType.Word ∧ cut = CutType.SentenceCut))) →
  ∃ p, push_paragraph res (str_len (sents_text (concat done_)))
         (str_len (sents_text (concat done_ ++ g))) acc ids idx cut = Some (res ++ [p])
    ∧ para_of g p ∧ pc_chunk_index p = idx ∧ layout 0 (map pc_text (res ++ [p])).
Proof.
  intros Hdone Hlay Hdata Hg Htr Hb Hinner -> Hcut. unfold push_paragraph.
  rewrite (slice_range_between data (sents_text (concat done_)) (sents_text g)
             (sents_text rest)); [|rewrite Hdata; sents_text_eq|done|by rewrite sents_text_app].
  simpl. eexists. split; [done|].
  assert (Hsize : para_emitted_size (sents_text g) acc = para_size g).
  { unfold para_emitted_size, para_size, para_tracks in *. by destruct mode. }
  split; [|split; [done|]].
  - split; simpl; try done. intros Hlaws. rewrite Hsize. clear Hsize.
    unfold para_bounded, para_size, para_tracks in *. destruct mode; [|by rewrite <-Htr].
    destruct Hlaws as [?|Hlaws]; [done|]. specialize (Htr Hlaws).
    destruct Hb as [?|(s & ? & ?)]; [left; lia|]. right. exists s. split; [done|lia].
  - rewrite map_app. apply layout_app. split; [done|]. simpl.
    rewrite map_map, (paras_text done_) by done. auto.
Qed.

(** Sentences report exact sizes under [Span]. *)
Definition sent_ok (s : SentenceChunk) : Prop :=
  mode = Span → sc_size s = count_tokens (sent_text s).

Lemma para_tracks_snoc cur s size :
  (cur ≠ [] → para_tracks cur size) → (cur = [] → size = 0) → sent_ok s →
  para_tracks (cur ++ [s]) (size + sc_size s).
Proof.
  intros Htr Hz Hok. unfold para_tracks, sent_ok in *. destruct (decide (cur = [])) as [->|Hne].
  - rewrite Hz by done. simpl. destruct mode; [|unfold sents_sum; simpl; lia].
    rewrite sents_text_one, Hok by done. lia.
  - specialize (Htr Hne). destruct mode.
    + intros Hl. rewrite sents_text_app, sents_text_one, Hok by done.
      pose proof (count_app (sents_text cur) (sent_text s)). specialize (Htr Hl). lia.
    + unfold sents_sum in *. rewrite sum_list_with_app'. simpl. lia.
Qed.

(** One sentence alone, as a new group. *)
Lemma para_tracks_one s : sent_ok s → para_tracks [s] (sc_size s).
Proof. intros Hok. by apply (para_tracks_snoc [] s 0). Qed.

Lemma para_bounded_one g s : para_bounded (g ++ [s]) (sc_size s).
Proof. right. exists s. split; [apply elem_of_app; right; by constructor|done]. Qed.

(** Extending a group never makes it smaller. *)
Lemma para_size_grows cur s :
  mode = PerWord ∨ CounterLaws C → para_size cur ≤ para_size (cur ++ [s]).
Proof.
  unfold para_size. intros Hl. destruct mode.
  - destruct Hl as [?|Hl]; [done|]. rewrite sents_text_app. apply count_prefix.
  - unfold sents_sum. rewrite sum_list_with_app'. lia.
Qed.

Lemma para_check_overflow_spec pre cur s rest size :
  data = sents_text (pre ++ cur ++ s :: rest) → sent_ok s →
  (cur ≠ [] → para_tracks cur size) → (cur = [] → size = 0) →
  ∃ ov nx,
    para_check_overflow size (sc_size s) (str_len (sents_text (pre ++ cur ++ [s])))
      (match cur with [] => None | _ => Some (str_len (sents_text pre)) end) = Some (ov, nx)
    ∧ para_tracks (cur ++ [s]) nx
    ∧ (ov = false → para_bounded (cur ++ [s]) nx)
    ∧ (ov = true → cur ≠ [] ∧
        (mode = PerWord ∨ CounterLaws C → over (para_size cur) (para_size [s]))).
Proof.
  intros Hdata Hok Htr Hz. pose proof (para_tracks_snoc cur s size Htr Hz Hok) as Hsnoc.
  unfold para_check_overflow.
  destruct (Nat.ltb_spec 0 size) as [Hpos|Hzero]; simpl.
  2:{ eexists _, _. split; [done|]. split; [done|]. split; [|done]. intros _.
      replace (size + sc_size s) with (sc_size s) by lia. apply para_bounded_one. }
  assert (Hne : cur ≠ []) by (intros ->; specialize (Hz eq_refl); lia).
  specialize (Htr Hne).
  destruct (Nat.ltb_spec max_chunk_size (size + sc_size s)) as [Hlt|Hge].
  2:{ eexists _, _. split; [done|]. split; [done|]. split; [by left|done]. }
  destruct mode eqn:Hm.
  2:{ eexists _, _. split; [done|]. split; [done|]. split; [done|]. intros _. split; [done|].
      intros _. unfold over, para_size, para_tracks, sents_sum in *. rewrite Hm in *. simpl. lia. }
  destruct cur as [|c cur]; [done|].
  rewrite (slice_range_between data (sents_text pre) (sents_text ((c :: cur) ++ [s]))
    (sents_text rest)); [|rewrite Hdata; sents_text_eq|done|by rewrite <-sents_text_app].
  cbn [mbind option_bind sl_txt].
  destruct (Nat.leb_spec (count_tokens (sents_text ((c :: cur) ++ [s]))) max_chunk_size) as [Hle|Hgt];
    eexists _, _; (split; [done|]).
  - split; [|split; [by left|done]]. unfold para_tracks. by rewrite Hm.
  - split; [done|]. split; [done|]. intros _. split; [done|]. intros [?|Hl]; [congruence|].
    unfold over, para_size. rewrite Hm, sents_text_one.
    rewrite sents_text_app, sents_text_one in Hgt.
    pose proof (count_app (sents_text (c :: cur)) (sent_text s)). lia.
Qed.

(** Appending one chunk to a ready state. *)
Lemma para_ready_push done_ g cur st st' p :
  para_ready done_ cur st → para_of g p → pc_chunk_index p = ps_chunk_index st →
  layout 0 (map pc_text (ps_result st ++ [p])) →
  ps_result st' = ps_result st ++ [p] → ps_chunk_index st' = S (ps_chunk_index st) →
  ps_paragraph_ids st' = [] → ps_chunk_start st' = None →
  para_ready (done_ ++ [g]) [] st'.
Proof.
  intros [Hdone Hlay Hidx Hnext Hids Hstart Hinner] Hp Hpi Hlay' Hres Hidx' Hids' Hstart'.
  split; rewrite ?Hres, ?Hidx', ?Hids'; try done.
  - by apply Forall2_snoc.
  - rewrite map_app, length_app, Hidx. simpl. rewrite seq_app. simpl. by rewrite Hpi, Hnext.
  - rewrite length_app, Hnext. simpl. lia.
Qed.

(** The overflow block emits the pending group. *)
Lemma para_cut_spec done_ cur st rest :
  paragraph_inv done_ cur st → cur ≠ [] →
  data = sents_text (concat done_ ++ cur ++ rest) →
  ∃ st' p, para_cut st true = Some st' ∧ para_ready (done_ ++ [cur]) [] st'
    ∧ ps_result st' = ps_result st ++ [p] ∧ pc_chunk_size p = para_size cur.
Proof.
  intros [Hready Hend Hcut Htr Hz Hb Hch Hbat] Hne Hdata.
  pose proof Hready as [Hdone Hlay Hidx Hnext Hids Hstart Hinner].
  unfold para_cut. rewrite Hstart, Hend by done.
  destruct (last_is_some cur Hne) as [l Hl].
  assert (Hstart' : match cur with [] => None | _ => Some (str_len (sents_text (concat done_))) end
    = Some (str_len (sents_text (concat done_)))) by (by destruct cur).
  rewrite Hstart'. simpl.
  destruct (push_paragraph_spec done_ cur rest (ps_result st) (ps_current_chunk_size st)
    (ps_paragraph_ids st) (ps_chunk_index st) (ps_last_cut_type st))
    as (p & -> & Hp & Hpi & Hlay'); [by auto ..| |done| |].
  - intros Hba. destruct (exists_last Hne) as (init & x & ->). exists init, x. split; [done|].
    specialize (Hinner Hba). by apply Forall_app in Hinner as [? _].
  - exists l. split; [done|]. left. by apply Hcut.
  - simpl. eexists _, p. split; [done|]. split; [|split; [done|apply (po_size _ _ Hp)]].
    by apply (para_ready_push done_ cur cur st _ p).
Qed.

(** Taking a sentence in. *)
Lemma para_take_inv done_ cur st s rest (ov : bool) (nx : nat) :
  let size := if ov then sc_size s else nx in
  para_ready done_ cur st →
  data = sents_text (concat done_ ++ cur ++ s :: rest) →
  para_tracks (cur ++ [s]) size → para_bounded (cur ++ [s]) size →
  chain_ready (cur ++ [s]) st →
  ∃ st' done' cur', para_take st s ov nx (str_len (sents_text (concat done_ ++ cur)))
           (str_len (sents_text (concat done_ ++ cur ++ [s]))) = Some st'
    ∧ paragraph_inv done' cur' st' ∧ concat done' ++ cur' = concat done_ ++ cur ++ [s].
Proof.
  intros size Hready Hdata Htr Hb Hch. unfold para_take. fold size.
  pose proof Hready as [Hdone Hlay Hidx Hnext Hids Hstart Hinner].
  assert (default (str_len (sents_text (concat done_ ++ cur))) (ps_chunk_start st)
      = str_len (sents_text (concat done_))) as ->.
  { rewrite Hstart. destruct cur; simpl; by rewrite ?app_nil_r. }
  assert (Hlast : last (cur ++ [s]) = Some s) by apply last_snoc.
  destruct (negb batch_paragraphs && is_boundary (sc_cut_type s)) eqn:Hemit.
  - apply andb_true_iff in Hemit as [Hba%negb_true_iff Hbd].
    destruct (push_paragraph_spec done_ (cur ++ [s]) rest (ps_result st) size
      (ps_paragraph_ids st ++ [sc_paragraph_id s]) (ps_chunk_index st) (sc_cut_type s))
      as (p & -> & Hp & Hpi & Hlay'); try done.
    + by rewrite <-app_assoc.
    + by destruct cur.
    + intros _. exists cur, s. auto.
    + by rewrite map_app, Hids.
    + eauto.
    + simpl. eexists _, (done_ ++ [cur ++ [s]]), []. split_and!; [done| |].
      * split; [by apply (para_ready_push done_ (cur ++ [s]) cur st _ p)|simpl; try done..].
        -- left. lia.
        -- unfold chain_ready. congruence.
        -- congruence.
      * by rewrite concat_snoc, app_nil_r.
  - eexists _, done_, (cur ++ [s]). split_and!; [done| |done].
    assert (Hne : cur ++ [s] ≠ []) by (by destruct cur).
    split; simpl; try done.
    + split; simpl; try done.
      * by rewrite map_app, Hids.
      * by destruct cur.
      * intros Hba. apply Forall_snoc; [auto|]. by rewrite Hba in Hemit.
    + congruence.
Qed.

(** One iteration keeps the invariant and takes in exactly one sentence. *)
Lemma paragraph_step_inv done_ cur st s rest :
  paragraph_inv done_ cur st →
  data = sents_text (concat done_ ++ cur ++ s :: rest) →
  sl_off (sc_text s) = str_len (sents_text (concat done_ ++ cur)) → sent_ok s →
  ∃ st' done' cur', paragraph_step st s = Some st' ∧ paragraph_inv done' cur' st'
    ∧ concat done' ++ cur' = concat done_ ++ cur ++ [s].
Proof.
  intros Hinv Hdata Hoff Hok. pose proof Hinv as [Hready Hend Hcut Htr Hz Hb Hch Hbat].
  unfold paragraph_step, offset_in. rewrite Hoff. fold (sent_text s).
  replace (str_len (sents_text (concat done_ ++ cur)) + str_len (sent_text s))
    with (str_len (sents_text (concat done_ ++ cur ++ [s])))
    by (rewrite !sents_text_app, sents_text_one; str_len_lia).
  destruct (para_check_overflow_spec (concat done_) cur s rest (ps_current_chunk_size st))
    as (ov & nx & Hco & Htr' & Hb' & Hov); [done..|].
  rewrite (pr_start _ _ _ Hready), Hco. simpl. destruct ov.
  - destruct (Hov eq_refl) as [Hne Hover].
    destruct (para_cut_spec done_ cur st (s :: rest)) as (st1 & p & -> & Hr1 & Hres1 & Hp1);
      [done..|]. simpl.
    destruct (para_take_inv (done_ ++ [cur]) [] st1 s rest true nx) as (st2 & d & c & Ht & Hi & Hc);
      [done|by rewrite concat_snoc, <-app_assoc|by apply para_tracks_one
      |apply (para_bounded_one [])| |].
    + intros Hba Hl. destruct (Hch Hba Hl) as [Hc1 Hc2]. rewrite Hres1, map_app.
      split.
      * apply chain_snoc; [done|]. intros y Hy. rewrite Hp1.
        rewrite fmap_last in Hy. destruct (last (ps_result st)) as [q|] eqn:Hq; [|done].
        injection Hy as <-. by apply Hc2.
      * intros q Hq _. rewrite last_snoc in Hq. injection Hq as <-. rewrite Hp1. by apply Hover.
    + rewrite concat_snoc, app_nil_r, <-app_assoc in Ht. simpl in Ht. rewrite Ht.
      eexists _, _, _. split_and!; [done..|]. by rewrite Hc, concat_snoc, <-app_assoc.
  - destruct (para_take_inv done_ cur st s rest false nx) as (st2 & d & c & Ht & Hi & Hc);
      [done..|by apply Hb'| |].
    + intros Hba Hl. destruct (Hch Hba Hl) as [Hc1 Hc2]. split; [done|]. intros q Hq _.
      destruct (decide (cur = [])) as [->|Hne]; [rewrite Hbat in Hq; done|].
      specialize (Hc2 q Hq Hne). unfold over in *.
      pose proof (para_size_grows cur s Hl). lia.
    + unfold para_cut. simpl. rewrite Ht. eauto 6.
Qed.

Lemma paragraph_loop_inv ss : ∀ done_ cur st,
  paragraph_inv done_ cur st →
  data = sents_text (concat done_ ++ cur ++ ss) →
  layout (str_len (sents_text (concat done_ ++ cur))) (map sc_text ss) →
  Forall sent_ok ss →
  ∃ st' done' cur', paragraph_loop ss st = Some st' ∧ paragraph_inv done' cur' st'
    ∧ concat done' ++ cur' = concat done_ ++ cur ++ ss.
Proof.
  induction ss as [|s ss IH]; intros done_ cur st Hinv Hdata Hlay Hok; simpl.
  - eexists _, _, _. split_and!; [done..|]. by rewrite app_nil_r.
  - destruct Hlay as [Hoff Hlay]. apply Forall_cons in Hok as [Hok1 Hok2].
    destruct (paragraph_step_inv done_ cur st s ss) as (st1 & d1 & c1 & -> & Hinv1 & Heq); [done..|].
    simpl. assert (Heq' : concat d1 ++ c1 ++ ss = concat done_ ++ cur ++ s :: ss).
    { rewrite app_assoc, Heq, <-!app_assoc. done. }
    destruct (IH d1 c1 st1) as (st2 & d2 & c2 & -> & Hinv2 & Heq2); [done|by rewrite Heq'| |done|].
    + rewrite Heq, app_assoc, sents_text_app, sents_text_one, str_len_app. done.
    + eexists _, _, _. split_and!; [done..|]. by rewrite Heq2.
Qed.

Lemma paragraph_init_inv : paragraph_inv [] [] paragraph_init.
Proof. split; simpl; try done. left. lia. Qed.

(** The result: the groups of sentences, and in batch mode the neighbours. *)
Record paragraphs_of (ss : list SentenceChunk) (groups : list (list SentenceChunk))
    (ps : list ParagraphChunk) : Prop := {
  pg_concat : concat groups = ss;
  pg_groups : Forall2 para_of groups ps;
  pg_layout : layout 0 (map pc_text ps);
  pg_index : map pc_chunk_index ps = seq 0 (length ps);
  pg_chain : batch_paragraphs = true → mode = PerWord ∨ CounterLaws C →
    chain over (map pc_chunk_size ps);
}.

Lemma paragraph_finish_spec done_ cur st :
  paragraph_inv done_ cur st → data = sents_text (concat done_ ++ cur) →
  ∃ ps groups, paragraph_finish st = Some ps ∧ paragraphs_of (concat done_ ++ cur) groups ps.
Proof.
  intros [Hready Hend Hcut Htr Hz Hb Hch Hbat] Hdata.
  pose proof Hready as [Hdone Hlay Hidx Hnext Hids Hstart Hinner].
  unfold paragraph_finish. rewrite Hstart. destruct cur as [|c cur].
  - eexists _, done_. split; [done|]. split; try done; [by rewrite app_nil_r|].
    intros Hba Hl. by apply Hch.
  - rewrite Hend by done. destruct (last_is_some (c :: cur)) as [l Hl]; [done|].
    destruct (push_paragraph_spec done_ (c :: cur) [] (ps_result st)
      (ps_current_chunk_size st) (ps_paragraph_ids st) (ps_chunk_index st)
      (if bool_decide (ps_last_cut_type st = CutType.Word) then CutType.SentenceCut
       else ps_last_cut_type st))
      as (p & -> & Hp & Hpi & Hlay'); [by rewrite ?app_nil_r; auto ..| |done| |].
    + intros Hba. destruct (exists_last (l:=c :: cur) ltac:(done)) as (init & x & Hx).
      exists init, x. split; [done|]. specialize (Hinner Hba). rewrite Hx in Hinner.
      by apply Forall_app in Hinner as [? _].
    + exists l. split; [done|]. rewrite (Hcut l Hl). case_bool_decide; auto.
    + eexists _, (done_ ++ [c :: cur]). split; [done|]. split; [by rewrite concat_snoc
      |by apply Forall2_snoc|done| |].
      * rewrite map_app, length_app, Hidx. simpl. rewrite seq_app. simpl. by rewrite Hpi, Hnext.
      * intros Hba Hla. destruct (Hch Hba Hla) as [Hc1 Hc2]. rewrite map_app.
        apply chain_snoc; [done|]. intros y Hy. rewrite fmap_last in Hy.
        destruct (last (ps_result st)) as [q|] eqn:Hq; [|done]. injection Hy as <-.
        rewrite (po_size _ _ Hp). by apply Hc2.
Qed.

(** The whole function, over the sentences of [chunk_by_sentence]. *)
Lemma chunk_by_paragraph_groups is_alphabetic new_v4 :
  ∃ ss ps groups,
    chunk_by_sentence C is_alphabetic new_v4 data (Some max_chunk_size) mode = Some ss
    ∧ chunk_by_paragraph is_alphabetic new_v4 = Some ps
    ∧ paragraphs_of ss groups ps ∧ sents_text ss = data.
Proof.
  unfold chunk_by_paragraph.
  destruct (chunk_by_sentence_groups C is_alphabetic new_v4 data (Some max_chunk_size) mode)
    as (words & ss & sgroups & Hw & Hss & Hcat & Hgs & Hlay).
  assert (Htext : sents_text ss = data).
  { unfold sents_text, sent_text.
    erewrite sentences_text by done. rewrite Hcat. rewrite chunk_by_word_spec in Hw.
    injection Hw as <-. unfold words_text.
    rewrite <-(map_map wc_text sl_txt), to_chunks_texts, place_texts. apply words_spec_concat. }
  assert (Hok : Forall sent_ok ss).
  { clear -Hgs. induction Hgs as [|g s gs ss (_ & Ht & Hsz & _) _ IH]; constructor; auto.
    intros ->. unfold sent_text. by rewrite Hsz, Ht. }
  destruct (paragraph_loop_inv ss [] [] paragraph_init) as (st & d & c & Hloop & Hinv & Heq);
    [apply paragraph_init_inv|done|done|done|].
  simpl in Heq. destruct (paragraph_finish_spec d c st) as (ps & gs & Hfin & Hps);
    [done|by rewrite Heq|].
  exists ss, ps, gs. rewrite Hss. simpl. rewrite Hloop. simpl. rewrite Heq in Hps. auto.
Qed.
End paragraph.

(** ** Properties *)

(** [chunk_by_paragraph] never panics (its [expect] included), whatever the
    counter, limit and modes, and its chunks are slices that follow one another
    from byte 0 and concatenate to the input, numbered 0, 1, 2, ..., each with the
    id [uuid5(OID, text)] of its own text. *)
Theorem chunk_by_paragraph_lossless C is_alphabetic new_v4 new_v5 data max batch mode :
  ∃ ps, chunk_by_paragraph C new_v5 data max batch mode is_alphabetic new_v4 = Some ps
    ∧ concat (map (λ p, sl_txt (pc_text p)) ps) = data
    ∧ layout 0 (map pc_text ps)
    ∧ map pc_chunk_index ps = seq 0 (length ps)
    ∧ Forall (λ p, pc_chunk_id p = new_v5 NAMESPACE_OID (sl_txt (pc_text p))) ps.
Proof.
  destruct (chunk_by_paragraph_groups C new_v5 data max batch mode is_alphabetic new_v4)
    as (ss & ps & gs & Hss & Hps & [Hcat Hgs Hlay Hidx _] & Hdata).
  exists ps. split; [done|]. split; [|split; [done|split; [done|]]].
  - erewrite paras_text by done. by rewrite Hcat.
  - clear -Hgs. induction Hgs as [|g p gs ps Hp _ IH]; constructor; auto.
    by rewrite (po_id _ _ _ _ _ _ _ Hp), (po_text _ _ _ _ _ _ _ Hp).
Qed.

(** Each chunk is a run of whole sentences: it lists their paragraph ids, its
    size is at most the limit or the size of one of them (an oversized sentence is
    a single word), and with [batch_paragraphs = false] no sentence but its last
    ends a paragraph. *)
Theorem chunk_by_paragraph_groups_sentences
    C is_alphabetic new_v4 new_v5 data max batch mode ss ps :
  mode = PerWord ∨ CounterLaws C →
  chunk_by_sentence C is_alphabetic new_v4 data (Some max) mode = Some ss →
  chunk_by_paragraph C new_v5 data max batch mode is_alphabetic new_v4 = Some ps →
  ∃ groups, concat groups = ss ∧
    Forall2 (λ g p, g ≠ []
      ∧ pc_paragraph_ids p = map sc_paragraph_id g
      ∧ (pc_chunk_size p ≤ max ∨ ∃ s, s ∈ g ∧ pc_chunk_size p ≤ sc_size s)
      ∧ (batch = false → ∃ init s, g = init ++ [s]
           ∧ Forall (λ s, is_boundary (sc_cut_type s) = false) init)) groups ps.
Proof.
  intros Hl Hss Hps.
  destruct (chunk_by_paragraph_groups C new_v5 data max batch mode is_alphabetic new_v4)
    as (ss' & ps' & gs & Hss' & Hps' & [Hcat Hgs _ _ _] & _).
  simplify_eq. exists gs. split; [done|]. eapply Forall2_impl; [exact Hgs|].
  intros g p [? ? ? ? ? ? Hb Hi]. split_and!; [done|done|by apply Hb|exact Hi].
Qed.

Definition length_v5 (ns : uuid) (t : text) : uuid := N.of_nat (length t).

Lemma chunk_by_paragraph_groups_sentences_witness :
  ∃ ss ps groups,
    chunk_by_sentence WordCounter ascii_alphabetic counted_v4 (ascii "A b. C d. E f.") (Some 4) Span
      = Some ss
    ∧ chunk_by_paragraph WordCounter length_v5 (ascii "A b. C d. E f.") 4 false Span
        ascii_alphabetic counted_v4 = Some ps
    ∧ length ps = 2
    ∧ concat groups = ss ∧
    Forall2 (λ g p, g ≠ []
      ∧ pc_paragraph_ids p = map sc_paragraph_id g
      ∧ (pc_chunk_size p ≤ 4 ∨ ∃ s, s ∈ g ∧ pc_chunk_size p ≤ sc_size s)
      ∧ (false = false → ∃ init s, g = init ++ [s]
           ∧ Forall (λ s, is_boundary (sc_cut_type s) = false) init)) groups ps.
Proof.
  set (rs := chunk_by_sentence WordCounter ascii_alphabetic counted_v4
               (ascii "A b. C d. E f.") (Some 4) Span).
  set (rp := chunk_by_paragraph WordCounter length_v5 (ascii "A b. C d. E f.") 4 false Span
               ascii_alphabetic counted_v4).
  assert (Es : rs = Some (default [] rs)) by (vm_compute; reflexivity).
  assert (Ep : rp = Some (default [] rp)) by (vm_compute; reflexivity).
  destruct (chunk_by_paragraph_groups_sentences WordCounter ascii_alphabetic counted_v4 length_v5
    _ 4 false Span _ _ (or_intror WordCounter_laws) Es Ep) as (gs & ? & ?).
  exists (default [] rs), (default [] rp), gs. split; [exact Es|]. split; [exact Ep|].
  split; [vm_compute; reflexivity|]. by split.
Defined.
