(* ===== verification/Json.v ===== *)
(** * JSON values ([serde_json::Value])

    A number is an integer or a (finite) float; an object is a map. *)

From S2P Require Import Prelude.
From Stdlib Require Import QArith Ascii.

Inductive json :=
  | JNull
  | JBool (b : bool)
  | JInt (n : Z)
  | JFloat (q : Q)
  | JString (s : string)
  | JArray (l : list json)
  | JObject (m : gmap string json).

(** [Value::get(key)] on an object. *)
Definition json_get (key : string) (v : json) : option json :=
  match v with JObject m => m !! key | _ => None end.

(** [Value::as_str] *)
Definition json_as_str (v : json) : option string :=
  match v with JString s => Some s | _ => None end.

#[local] Open Scope nat_scope.

(** ** Text

    [serde_json::from_str] and [serde_json::to_string]: the text of a value parses
    back to the value. *)
Class SerdeJson := {
  from_str : string → option json;
  json_to_string : json → string;
}.

Class SerdeJsonLaws `{SerdeJson} := {
  from_to_str : ∀ v, from_str (json_to_string v) = Some v;
}.

(** *** A text format that satisfies the law

    Values as trees, trees as numbers, numbers in binary. *)

Fixpoint json_tree (v : json) : gen_tree (bool + Z + (Z * positive) + string) :=
  match v with
  | JNull => GenNode 0 []
  | JBool b => GenLeaf (inl (inl (inl b)))
  | JInt n => GenLeaf (inl (inl (inr n)))
  | JFloat q => GenLeaf (inl (inr (Qnum q, Qden q)))
  | JString s => GenLeaf (inr s)
  | JArray l => GenNode 1 (map json_tree l)
  | JObject m => GenNode 2 (map_fold (λ k v l, GenLeaf (inr k) :: json_tree v :: l) [] m)
  end.

Fixpoint tree_json (t : gen_tree (bool + Z + (Z * positive) + string)) : json :=
  match t with
  | GenLeaf (inl (inl (inl b))) => JBool b
  | GenLeaf (inl (inl (inr n))) => JInt n
  | GenLeaf (inl (inr (n, d))) => JFloat (Qmake n d)
  | GenLeaf (inr s) => JString s
  | GenNode 0 _ => JNull
  | GenNode 1 l => JArray (map tree_json l)
  | GenNode _ l =>
      JObject ((fix fields l := match l with
                                | GenLeaf (inr k) :: v :: l => <[k := tree_json v]> (fields l)
                                | _ => ∅
                                end) l)
  end.

Fixpoint json_size (v : json) : nat :=
  match v with
  | JArray l => S (sum_list_with json_size l)
  | JObject m => S (map_fold (λ _ v n, json_size v + n) 0 m)
  | _ => 1
  end.

Lemma json_size_field k v m : m !! k = Some v → json_size v < json_size (JObject m).
Proof.
  intros Hk. simpl. rewrite (map_fold_delete_L _ 0 k v m) by (done || lia). lia.
Qed.

Lemma json_strong_ind (P : json → Prop) :
  (∀ v, (∀ k w, json_get k v = Some w → P w) → (∀ l w, v = JArray l → w ∈ l → P w) → P v) → ∀ v, P v.
Proof.
  intros HP. assert (Hn : ∀ n v, json_size v < n → P v); [|eauto].
  induction n as [|n IH]; intros v Hv; [lia|]. apply HP.
  - intros k w Hk. apply IH. destruct v as [| | | | | |m]; try done. pose proof (json_size_field k w m Hk). lia.
  - intros l w -> Hin. apply IH. simpl in Hv. apply list_elem_of_split in Hin as (l1 & l2 & ->).
    rewrite sum_list_with_app in Hv. simpl in Hv. lia.
Qed.

Definition fields_of_trees (l : list (gen_tree (bool + Z + (Z * positive) + string))) : gmap string json :=
  (fix fields l := match l with
                   | GenLeaf (inr k) :: v :: l => <[k := tree_json v]> (fields l)
                   | _ => ∅
                   end) l.

Lemma tree_json_tree v : tree_json (json_tree v) = v.
Proof.
  induction v as [v IHo IHa] using json_strong_ind. destruct v as [|b|n|[n d]|s|l|m]; simpl; try done.
  - f_equal. rewrite map_map. rewrite <-(map_id l) at 2. apply map_ext_in. intros w Hw.
    apply (IHa l); [done|]. by apply list_elem_of_In.
  - f_equal. change (fields_of_trees (map_fold (λ k v l, GenLeaf (inr k) :: json_tree v :: l) [] m) = m).
    simpl in IHo. revert IHo.
    apply (map_fold_weak_ind (λ l m, (∀ k w, m !! k = Some w → tree_json (json_tree w) = w) → fields_of_trees l = m));
      [done|].
    intros k w m' l Hk IH Hm. simpl. f_equal.
    + apply (Hm k). by rewrite lookup_insert_eq.
    + apply IH. intros k' w' Hk'. apply (Hm k'). rewrite lookup_insert_ne; [done|]. by intros ->; rewrite Hk in Hk'.
Qed.

(** [Value]'s equality. *)
#[export] Instance json_eq_dec : EqDecision json.
Proof.
  refine (λ v w, cast_if (decide (json_tree v = json_tree w))).
  - abstract (rewrite <-(tree_json_tree v), <-(tree_json_tree w); by f_equal).
  - abstract (by intros ->).
Defined.

Fixpoint binary (p : positive) : string :=
  match p with
  | xH => ""
  | xO p => String "0"%char (binary p)
  | xI p => String "1"%char (binary p)
  end.

Fixpoint of_binary (s : string) : positive :=
  match s with
  | EmptyString => xH
  | String c s => if decide (c = "0"%char) then xO (of_binary s) else xI (of_binary s)
  end.

Lemma of_binary_binary p : of_binary (binary p) = p.
Proof. by induction p; simpl; f_equal. Qed.

Definition binary_serde : SerdeJson := {|
  from_str s := tree_json <$> decode (of_binary s);
  json_to_string v := binary (encode (json_tree v)) |}.

Lemma binary_serde_laws : @SerdeJsonLaws binary_serde.
Proof. split. intros v. simpl. by rewrite of_binary_binary, decode_encode; simpl; rewrite tree_json_tree. Qed.
