(* ===== verification/Markers.v ===== *)
(** * Completion markers (crates/database/src/ops/data.rs)

    The column [data.pipeline_status]: a JSON text that says, per pipeline and
    dataset, that a data item has been processed.  Two encodings of a dataset's key
    may appear in it, one of which is written. *)

From S2P Require Import Prelude Json Strings.

(** The columns of a [data] row that the operations read and write. *)
Record DataRow := {
  da_dataset_id : option uuid;
  da_pipeline_status : option string;
  da_updated_at : option Z;
}.

Notation data_table := (gmap N DataRow).

Definition COGNIFY_PIPELINE_STATUS_KEY : string := "cognify_pipeline".
Definition DATA_ITEM_PROCESSING_COMPLETED : string := "DATA_ITEM_PROCESSING_COMPLETED".
Definition READ_CHUNK : nat := 500.

Section markers.
Context `{UuidFormat, SerdeJson}.

(** [pipeline_status_dataset_key] *)
Definition pipeline_status_dataset_key (dataset_id : uuid) : string := uuid_to_string dataset_id.

(** [pipeline_status_dataset_key_variants] *)
Definition pipeline_status_dataset_key_variants (dataset_id : uuid) : list string :=
  [pipeline_status_dataset_key dataset_id; uuid_simple dataset_id].

(** [from_str(..).unwrap_or(Object(Default::default()))] *)
Definition parse_status (status_json : string) : json := default (JObject ∅) (from_str status_json).

(** The object a value is, or else an empty one. *)
Definition object_or_empty (v : json) : gmap string json :=
  match v with JObject m => m | _ => ∅ end.

Definition set_status (now : Z) (status : option string) (row : DataRow) : DataRow :=
  {| da_dataset_id := da_dataset_id row; da_pipeline_status := status; da_updated_at := Some now |}.

(** [mark_cognify_pipeline_status_complete] *)
Definition mark_cognify_pipeline_status_complete (now : Z) (data_id dataset_id : uuid)
    (table : data_table) : data_table :=
  match table !! data_id with
  | None => table
  | Some row =>
      let parsed := match da_pipeline_status row with
                    | Some status_json => parse_status status_json
                    | None => JObject ∅
                    end in
      let top_map := object_or_empty parsed in
      let inner := object_or_empty (default (JObject ∅) (top_map !! COGNIFY_PIPELINE_STATUS_KEY)) in
      let inner := <[pipeline_status_dataset_key dataset_id := JString DATA_ITEM_PROCESSING_COMPLETED]> inner in
      let new_status := json_to_string (JObject (<[COGNIFY_PIPELINE_STATUS_KEY := JObject inner]> top_map)) in
      <[data_id := set_status now (Some new_status) row]> table
  end.

(** The test [marked] of [get_cognify_completed_data_ids]. *)
Definition is_marked (dataset_id : uuid) (row : DataRow) : bool :=
  match da_pipeline_status row with
  | None => false
  | Some status_json =>
      match json_get COGNIFY_PIPELINE_STATUS_KEY (parse_status status_json) with
      | Some inner =>
          existsb (λ key, bool_decide (json_get key inner ≫= json_as_str = Some DATA_ITEM_PROCESSING_COMPLETED))
            (pipeline_status_dataset_key_variants dataset_id)
      | None => false
      end
  end.

(** [get_cognify_completed_data_ids]: a query per chunk of ids. *)
Definition get_cognify_completed_data_ids (dataset_id : uuid) (data_ids : list uuid)
    (table : data_table) : gset uuid :=
  foldl (λ completed chunk,
           completed ∪ dom (filter (λ '(id, row), id ∈ chunk ∧ is_marked dataset_id row = true) table))
    ∅ (chunks READ_CHUNK data_ids).

(** [inner_map.remove(key)] for each key: what is left, and whether one was there. *)
Definition remove_keys (keys : list string) (m : gmap string json) : gmap string json * bool :=
  foldl (λ '(m, modified) key, (delete key m, modified || bool_decide (is_Some (m !! key)))) (m, false) keys.

Definition is_empty_object (v : json) : bool :=
  match v with JObject m => bool_decide (m = ∅) | _ => false end.

(** [None] for an empty object, else its text. *)
Definition status_of (top_map : gmap string json) : option string :=
  if decide (top_map = ∅) then None else Some (json_to_string (JObject top_map)).

(** The entry of one pipeline in [clear_pipeline_status_for_dataset], and whether it
    changed. *)
Definition clear_inner (dataset_id : uuid) (inner : json) : json * bool :=
  match inner with
  | JObject inner_map =>
      let '(m, modified) := remove_keys (pipeline_status_dataset_key_variants dataset_id) inner_map in
      (JObject m, modified)
  | _ => (inner, false)
  end.

(** One row of [clear_pipeline_status_for_dataset]; [None] when it is not written. *)
Definition clear_row_for_dataset (now : Z) (dataset_id : uuid) (row : DataRow) : option DataRow :=
  status_json ← da_pipeline_status row;
  match parse_status status_json with
  | JObject top_map =>
      let cleared := clear_inner dataset_id <$> top_map in
      if decide (map_Forall (λ _ v, v.2 = false) cleared) then None
      else Some (set_status now (status_of (filter (λ '(_, v), is_empty_object v = false) (fst <$> cleared))) row)
  | _ => None
  end.

(** [clear_pipeline_status_for_dataset]: the table, and how many rows were written. *)
Definition clear_pipeline_status_for_dataset (now : Z) (dataset_id : uuid) (table : data_table)
    : data_table * nat :=
  let written := omap (λ row, if decide (da_dataset_id row = Some dataset_id)
                              then clear_row_for_dataset now dataset_id row else None) table in
  (written ∪ table, size written).

(** [clear_cognify_pipeline_status_for_data] *)
Definition clear_cognify_pipeline_status_for_data (now : Z) (data_id dataset_id : uuid)
    (table : data_table) : data_table :=
  match table !! data_id with
  | Some row =>
      match parse_status <$> da_pipeline_status row with
      | Some (JObject top_map) =>
          match top_map !! COGNIFY_PIPELINE_STATUS_KEY with
          | Some (JObject inner_map) =>
              let '(m, modified) := remove_keys (pipeline_status_dataset_key_variants dataset_id) inner_map in
              if modified then
                let top_map := <[COGNIFY_PIPELINE_STATUS_KEY := JObject m]> top_map in
                let top_map := filter (λ '(k, v), k ≠ COGNIFY_PIPELINE_STATUS_KEY ∨ is_empty_object v = false)
                                 top_map in
                <[data_id := set_status now (status_of top_map) row]> table
              else table
          | _ => table
          end
      | _ => table
      end
  | None => table
  end.
End markers.

#[local] Arguments remove_keys : simpl never.
#[local] Arguments pipeline_status_dataset_key_variants : simpl never.
#[local] Arguments clear_inner : simpl never.

(** ** The column as a map

    What the operations promise: the column is a map from a pipeline and a key to a
    value; marking inserts one entry, clearing deletes the entries of a dataset, and
    no other entry changes. *)

Section entries.
Context `{UuidFormat, !UuidFormatLaws, SerdeJson, !SerdeJsonLaws}.
Implicit Types (table : data_table) (dataset_id data_id : uuid).

(** The entry of a row. *)
Definition row_entry (pipeline key : string) (row : DataRow) : option json :=
  status_json ← da_pipeline_status row;
  json_get pipeline (parse_status status_json) ≫= json_get key.

Definition status_entry table data_id (pipeline key : string) : option json :=
  table !! data_id ≫= row_entry pipeline key.

(** The item is marked complete for the dataset, under either key. *)
Definition completed table data_id dataset_id : Prop :=
  ∃ key, key ∈ pipeline_status_dataset_key_variants dataset_id
         ∧ status_entry table data_id COGNIFY_PIPELINE_STATUS_KEY key
           = Some (JString DATA_ITEM_PROCESSING_COMPLETED).

Lemma parse_printed v : parse_status (json_to_string v) = v.
Proof. unfold parse_status. by rewrite from_to_str. Qed.

Lemma json_get_object key v : json_get key v = object_or_empty v !! key.
Proof. by destruct v; simpl; rewrite ?lookup_empty. Qed.

Lemma variants_disjoint d d' key :
  key ∈ pipeline_status_dataset_key_variants d → key ∈ pipeline_status_dataset_key_variants d' → d = d'.
Proof.
  unfold pipeline_status_dataset_key_variants, pipeline_status_dataset_key.
  rewrite !elem_of_cons, elem_of_nil. pose proof (uuid_formats_differ d d'). pose proof (uuid_formats_differ d' d).
  intros [->|[->|[]]] [Heq|[Heq|[]]]; simplify_eq; done.
Qed.

Lemma remove_keys_spec keys m :
  (∀ k, (remove_keys keys m).1 !! k = if decide (k ∈ keys) then None else m !! k)
  ∧ ((remove_keys keys m).2 = false → (remove_keys keys m).1 = m).
Proof.
  unfold remove_keys. assert (Hgo : ∀ b,
    (∀ k, (foldl (λ '(m, modified) key, (delete key m, modified || bool_decide (is_Some (m !! key)))) (m, b) keys).1 !! k
          = if decide (k ∈ keys) then None else m !! k)
    ∧ ((foldl (λ '(m, modified) key, (delete key m, modified || bool_decide (is_Some (m !! key)))) (m, b) keys).2 = false
       → b = false ∧ (foldl (λ '(m, modified) key, (delete key m, modified || bool_decide (is_Some (m !! key)))) (m, b) keys).1 = m)).
  { revert m. induction keys as [|key keys IH]; intros m b; simpl; [done|].
    destruct (IH (delete key m) (b || bool_decide (is_Some (m !! key)))) as [IH1 IH2]. split.
    - intros k. rewrite IH1. destruct (decide (k = key)) as [->|Hne].
      + rewrite lookup_delete_eq. repeat case_decide; set_solver.
      + rewrite lookup_delete_ne by done. repeat case_decide; set_solver.
    - intros Hf. destruct (IH2 Hf) as [Hb ->]. apply orb_false_iff in Hb as [-> Hk].
      apply bool_decide_eq_false in Hk. split; [done|]. apply delete_id.
      by destruct (m !! key); [destruct Hk|]. }
  destruct (Hgo false) as [Hl Hm]. split; [done|]. intros Hf. by apply Hm.
Qed.

Lemma row_entry_set_status now top pipeline key row :
  row_entry pipeline key (set_status now (status_of top) row) = top !! pipeline ≫= json_get key.
Proof.
  unfold row_entry, status_of. simpl. case_decide as Htop; simpl; [by rewrite Htop|]. by rewrite parse_printed.
Qed.

Lemma row_entry_parsed pipeline key row v :
  parse_status <$> da_pipeline_status row = Some v →
  row_entry pipeline key row = json_get pipeline v ≫= json_get key.
Proof. unfold row_entry. by destruct (da_pipeline_status row); simpl; intros ?; simplify_eq/=. Qed.

Lemma status_entry_insert table id row data_id pipeline key :
  status_entry (<[id := row]> table) data_id pipeline key =
  if decide (data_id = id) then row_entry pipeline key row else status_entry table data_id pipeline key.
Proof.
  unfold status_entry. case_decide as Hd; [by rewrite Hd, lookup_insert_eq|]. by rewrite lookup_insert_ne.
Qed.

Lemma mark_entry now data_id dataset_id table data pipeline key :
  status_entry (mark_cognify_pipeline_status_complete now data_id dataset_id table) data pipeline key =
  if decide (data = data_id ∧ is_Some (table !! data_id) ∧ pipeline = COGNIFY_PIPELINE_STATUS_KEY
             ∧ key = pipeline_status_dataset_key dataset_id)
  then Some (JString DATA_ITEM_PROCESSING_COMPLETED)
  else status_entry table data pipeline key.
Proof.
  unfold mark_cognify_pipeline_status_complete. destruct (table !! data_id) as [row|] eqn:Hrow;
    [|rewrite decide_False; [done|by intros (_ & [? ?] & _)]].
  rewrite status_entry_insert. destruct (decide (data = data_id)) as [->|Hd];
    [|by rewrite decide_False by tauto].
  unfold row_entry at 1. simpl. rewrite parse_printed. simpl.
  set (parsed := match da_pipeline_status row with Some _ => _ | None => _ end).
  assert (Hold : status_entry table data_id pipeline key = json_get pipeline parsed ≫= json_get key).
  { unfold status_entry. rewrite Hrow. simpl. unfold row_entry, parsed.
    by destruct (da_pipeline_status row); simpl; rewrite ?lookup_empty. }
  rewrite Hold. clearbody parsed. rewrite (json_get_object pipeline parsed).
  destruct (decide (pipeline = COGNIFY_PIPELINE_STATUS_KEY)) as [->|Hp];
    [|rewrite lookup_insert_ne by done; by rewrite decide_False by tauto].
  rewrite lookup_insert_eq. simpl. destruct (decide (key = pipeline_status_dataset_key dataset_id)) as [->|Hk].
  - rewrite decide_True by eauto. by rewrite lookup_insert_eq.
  - rewrite decide_False by tauto. rewrite lookup_insert_ne by done.
    destruct (object_or_empty parsed !! _) as [v|]; simpl; [by rewrite json_get_object|done].
Qed.

Lemma filter_nonempty_entry (P : string → Prop) `{∀ k, Decision (P k)} (top : gmap string json) pipeline key :
  filter (λ '(k, v), P k ∨ is_empty_object v = false) top !! pipeline ≫= json_get key
  = top !! pipeline ≫= json_get key.
Proof.
  rewrite map_lookup_filter. destruct (top !! pipeline) as [v|]; simpl; [|done].
  destruct (is_empty_object v) eqn:Hv; [|by rewrite option_guard_True by auto].
  destruct v as [| | | | | |m]; try done. simpl in Hv. apply bool_decide_eq_true in Hv as ->.
  by case_guard; simpl; rewrite ?lookup_empty.
Qed.

Lemma clear_data_entry now data_id dataset_id table data pipeline key :
  status_entry (clear_cognify_pipeline_status_for_data now data_id dataset_id table) data pipeline key =
  if decide (data = data_id ∧ pipeline = COGNIFY_PIPELINE_STATUS_KEY
             ∧ key ∈ pipeline_status_dataset_key_variants dataset_id)
  then None else status_entry table data pipeline key.
Proof.
  unfold clear_cognify_pipeline_status_for_data.
  destruct (decide (data = data_id ∧ _)) as [(-> & -> & Hkey)|Hno].
  - destruct (table !! data_id) as [row|] eqn:Hrow; [|by unfold status_entry; rewrite Hrow].
    destruct (parse_status <$> da_pipeline_status row) as [v|] eqn:Hv.
    + assert (Hold : status_entry table data_id COGNIFY_PIPELINE_STATUS_KEY key
        = json_get COGNIFY_PIPELINE_STATUS_KEY v ≫= json_get key).
      { unfold status_entry. rewrite Hrow. simpl. by apply row_entry_parsed. }
      destruct v as [| | | | | |top]; try done. simpl in Hold.
      destruct (top !! COGNIFY_PIPELINE_STATUS_KEY) as [inner|] eqn:Hin; [|done].
      destruct inner as [| | | | | |im]; try done. simpl in Hold.
      destruct (remove_keys_spec (pipeline_status_dataset_key_variants dataset_id) im) as [Hl Hsame].
      destruct (remove_keys _ im) as [m modified]. simpl in *. specialize (Hl key).
      rewrite decide_True in Hl by done. destruct modified.
      * rewrite status_entry_insert, decide_True by done. rewrite row_entry_set_status.
        rewrite (filter_nonempty_entry (λ k, k ≠ COGNIFY_PIPELINE_STATUS_KEY)).
        by rewrite lookup_insert_eq.
      * by rewrite Hold, <-Hsame.
    + unfold status_entry. rewrite Hrow. simpl. unfold row_entry.
      by destruct (da_pipeline_status row).
  - destruct (table !! data_id) as [row|] eqn:Hrow; [|done].
    destruct (parse_status <$> da_pipeline_status row) as [v|] eqn:Hv; [|done].
    destruct v as [| | | | | |top]; try done.
    destruct (top !! COGNIFY_PIPELINE_STATUS_KEY) as [inner|] eqn:Hin; [|done].
    destruct inner as [| | | | | |im]; try done.
    destruct (remove_keys_spec (pipeline_status_dataset_key_variants dataset_id) im) as [Hl _].
    destruct (remove_keys _ im) as [m modified]. simpl in *. destruct modified; [|done].
    rewrite status_entry_insert. case_decide as Hd; [subst data|done].
    rewrite row_entry_set_status, (filter_nonempty_entry (λ k, k ≠ COGNIFY_PIPELINE_STATUS_KEY)).
    unfold status_entry. rewrite Hrow. simpl. rewrite (row_entry_parsed _ _ _ _ Hv). simpl.
    destruct (decide (pipeline = COGNIFY_PIPELINE_STATUS_KEY)) as [->|Hp]; [|by rewrite lookup_insert_ne].
    rewrite lookup_insert_eq, Hin. simpl. rewrite Hl, decide_False; [done|]. tauto.
Qed.

Lemma clear_inner_spec dataset_id key v :
  json_get key (clear_inner dataset_id v).1
  = (if decide (key ∈ pipeline_status_dataset_key_variants dataset_id) then None else json_get key v)
  ∧ ((clear_inner dataset_id v).2 = false → (clear_inner dataset_id v).1 = v).
Proof.
  unfold clear_inner. generalize (pipeline_status_dataset_key_variants dataset_id) as keys. intros keys.
  destruct v as [| | | | | |im]; try (split; [by case_decide|done]).
  destruct (remove_keys_spec keys im) as [Hl Hsame]. destruct (remove_keys keys im) as [m modified].
  simpl in *. split; [apply Hl|]. intros Hm. by rewrite Hsame.
Qed.

Lemma clear_row_entry now dataset_id row pipeline key :
  row_entry pipeline key (default row (clear_row_for_dataset now dataset_id row)) =
  if decide (key ∈ pipeline_status_dataset_key_variants dataset_id) then None else row_entry pipeline key row.
Proof.
  unfold clear_row_for_dataset. destruct (da_pipeline_status row) as [text|] eqn:Hs; simpl;
    [|by case_decide; unfold row_entry; rewrite Hs].
  assert (Hv : parse_status <$> da_pipeline_status row = Some (parse_status text)) by by rewrite Hs.
  rewrite (row_entry_parsed _ _ row _ Hv). destruct (parse_status text) as [| | | | | |top] eqn:Ht; simpl;
    try by (case_decide; rewrite ?(row_entry_parsed _ _ row _ Hv)).
  set (keys := pipeline_status_dataset_key_variants dataset_id).
  pose proof (clear_inner_spec dataset_id key) as Hclear. set (clear := clear_inner dataset_id) in *.
  destruct (decide (map_Forall (λ _ v, v.2 = false) (clear <$> top))) as [Hall|Hnone]; simpl.
  - rewrite (row_entry_parsed _ _ row _ Hv). simpl.
    destruct (top !! pipeline) as [v|] eqn:Htop; simpl; [|by destruct (decide (key ∈ keys))].
    destruct (Hclear v) as [Hk Hsame]. rewrite Hsame in Hk; [done|].
    apply (Hall pipeline). by rewrite lookup_fmap, Htop.
  - rewrite row_entry_set_status.
    assert (Hfilter : ∀ m : gmap string json, filter (λ '(_, v), is_empty_object v = false) m
                      = filter (λ '(k, v), False ∨ is_empty_object v = false) m).
    { intros m. apply map_filter_ext. intros k v _. tauto. }
    rewrite Hfilter, (filter_nonempty_entry (λ _, False)), !lookup_fmap.
    destruct (top !! pipeline) as [v|]; simpl; [|by destruct (decide (key ∈ keys))]. by destruct (Hclear v).
Qed.

Lemma clear_dataset_entry now dataset_id table data pipeline key :
  status_entry (clear_pipeline_status_for_dataset now dataset_id table).1 data pipeline key =
  if decide ((table !! data ≫= da_dataset_id) = Some dataset_id
             ∧ key ∈ pipeline_status_dataset_key_variants dataset_id)
  then None else status_entry table data pipeline key.
Proof.
  unfold clear_pipeline_status_for_dataset, status_entry. simpl.
  rewrite lookup_union, lookup_omap. destruct (table !! data) as [row|] eqn:Hrow; [|by rewrite decide_False by (by intros [? _])].
  simpl.
  pose proof (clear_row_entry now dataset_id row pipeline key) as Hclear.
  destruct (decide (da_dataset_id row = Some dataset_id)) as [Hd|Hd]; simpl.
  - destruct (clear_row_for_dataset now dataset_id row) as [row'|]; simpl in *; rewrite Hclear;
      repeat case_decide; done || tauto.
  - by rewrite decide_False by tauto.
Qed.

Lemma is_marked_completed table data dataset_id row :
  table !! data = Some row → is_marked dataset_id row = true ↔ completed table data dataset_id.
Proof.
  intros Hrow. unfold is_marked, completed, status_entry. rewrite Hrow. simpl. unfold row_entry.
  destruct (da_pipeline_status row) as [text|]; simpl; [|split; [done|by intros (? & _ & ?)]].
  destruct (json_get COGNIFY_PIPELINE_STATUS_KEY (parse_status text)) as [inner|]; simpl;
    [|split; [done|by intros (? & _ & ?)]].
  assert (Hstr : ∀ key, (json_get key inner ≫= json_as_str) = Some DATA_ITEM_PROCESSING_COMPLETED
                 ↔ json_get key inner = Some (JString DATA_ITEM_PROCESSING_COMPLETED)).
  { intros key. destruct (json_get key inner) as [[]|]; simpl; split; intros ?; simplify_eq; done. }
  rewrite orb_false_r, orb_true_iff, !bool_decide_eq_true, !Hstr. unfold pipeline_status_dataset_key_variants. set_solver.
Qed.

Lemma elem_of_completed_ids dataset_id data_ids table data :
  data ∈ get_cognify_completed_data_ids dataset_id data_ids table
  ↔ data ∈ data_ids ∧ completed table data dataset_id.
Proof.
  unfold get_cognify_completed_data_ids. rewrite <-(chunks_concat READ_CHUNK data_ids) at 2.
  generalize (chunks READ_CHUNK data_ids). intros css.
  assert (Hgo : ∀ acc : gset uuid,
    data ∈ foldl (λ completed chunk,
      completed ∪ dom (filter (λ '(id, row), id ∈ chunk ∧ is_marked dataset_id row = true) table)) acc css
    ↔ data ∈ acc ∨ (data ∈ concat css ∧ completed table data dataset_id)); [|rewrite Hgo; set_solver].
  induction css as [|c css IH]; intros acc; simpl; [set_solver|].
  rewrite IH, elem_of_union, elem_of_dom, elem_of_app.
  assert (is_Some (filter (λ '(id, row), id ∈ c ∧ is_marked dataset_id row = true) table !! data)
          ↔ data ∈ c ∧ completed table data dataset_id); [|tauto].
  split.
  - intros [row Hrow]. apply map_lookup_filter_Some in Hrow as (Hrow & Hc & Hm). split; [done|].
    by apply (is_marked_completed _ _ _ row).
  - intros (Hc & Hcomp). destruct (table !! data) as [row|] eqn:Hrow.
    + exists row. apply map_lookup_filter_Some. split; [done|]. split; [done|].
      by apply (is_marked_completed _ _ _ row Hrow).
    + destruct Hcomp as (key & _ & Hk). unfold status_entry in Hk. by rewrite Hrow in Hk.
Qed.

Lemma completed_clear_data now data_id dataset_id table d s :
  completed (clear_cognify_pipeline_status_for_data now data_id dataset_id table) d s
  ↔ completed table d s ∧ ¬ (d = data_id ∧ s = dataset_id).
Proof.
  split.
  - intros (key & Hkey & He). rewrite clear_data_entry in He. case_decide as Hc; [done|].
    split; [by exists key|]. intros [-> ->]. tauto.
  - intros ((key & Hkey & He) & Hne). exists key. split; [done|]. rewrite clear_data_entry, decide_False; [done|].
    intros (-> & _ & Hin). apply Hne. split; [done|]. by apply (variants_disjoint _ _ key).
Qed.

Lemma completed_mark now data_id dataset_id table d s :
  completed (mark_cognify_pipeline_status_complete now data_id dataset_id table) d s
  ↔ completed table d s ∨ (d = data_id ∧ s = dataset_id ∧ is_Some (table !! data_id)).
Proof.
  assert (Hdash : pipeline_status_dataset_key dataset_id ∈ pipeline_status_dataset_key_variants dataset_id) by left.
  split.
  - intros (key & Hkey & He). rewrite mark_entry in He. case_decide as Hc; [|by left; exists key].
    destruct Hc as (-> & Hrow & _ & ->). right. split; [done|]. split; [|done].
    by apply (variants_disjoint _ _ _ Hkey).
  - intros [(key & Hkey & He)|(-> & -> & Hrow)].
    + exists key. split; [done|]. rewrite mark_entry. by case_decide.
    + exists (pipeline_status_dataset_key dataset_id). split; [done|]. by rewrite mark_entry, decide_True.
Qed.

(** The JSON column implements a set of (item, dataset) pairs: marking adds the
    pair of an item that has a row, clearing an item removes its pair, clearing a
    dataset removes the pairs of its items, the query returns the members among the
    items asked for, whichever encoding a key has; and entries of other pipelines
    and keys are kept. *)
Theorem markers_refine_set (now : Z) table data_id dataset_id data_ids :
  (∀ d s, completed (mark_cognify_pipeline_status_complete now data_id dataset_id table) d s
          ↔ completed table d s ∨ (d = data_id ∧ s = dataset_id ∧ is_Some (table !! data_id)))
  ∧ (∀ d s, completed (clear_cognify_pipeline_status_for_data now data_id dataset_id table) d s
            ↔ completed table d s ∧ ¬ (d = data_id ∧ s = dataset_id))
  ∧ (∀ d s, completed (clear_pipeline_status_for_dataset now dataset_id table).1 d s
            ↔ completed table d s ∧ ¬ (s = dataset_id ∧ (table !! d ≫= da_dataset_id) = Some dataset_id))
  ∧ (∀ d, d ∈ get_cognify_completed_data_ids dataset_id data_ids table
          ↔ d ∈ data_ids ∧ completed table d dataset_id)
  ∧ (∀ d pipeline key, key ∉ pipeline_status_dataset_key_variants dataset_id →
       status_entry (mark_cognify_pipeline_status_complete now data_id dataset_id table) d pipeline key
       = status_entry table d pipeline key
       ∧ status_entry (clear_cognify_pipeline_status_for_data now data_id dataset_id table) d pipeline key
       = status_entry table d pipeline key
       ∧ status_entry (clear_pipeline_status_for_dataset now dataset_id table).1 d pipeline key
       = status_entry table d pipeline key).
Proof.
  split; [|split; [|split; [|split]]].
  - intros d s. apply completed_mark.
  - intros d s. apply completed_clear_data.
  - intros d s. split.
    + intros (key & Hkey & He). rewrite clear_dataset_entry in He. case_decide as Hc; [done|].
      split; [by exists key|]. intros [-> ?]. tauto.
    + intros ((key & Hkey & He) & Hne). exists key. split; [done|]. rewrite clear_dataset_entry, decide_False; [done|].
      intros (? & Hin). apply Hne. split; [|done]. by apply (variants_disjoint _ _ key).
  - intros d. apply elem_of_completed_ids.
  - intros d pipeline key Hkey. rewrite mark_entry, clear_data_entry, clear_dataset_entry.
    repeat split; rewrite decide_False; try done; [intros (_ & _ & _ & ->); apply Hkey; by left|tauto|tauto].
Qed.
End entries.

Lemma markers_refine_set_witness :
  let table : data_table := {[10%N := {| da_dataset_id := Some 3%N; da_pipeline_status := None; da_updated_at := None |}]} in
  @completed decimal_format binary_serde
    (@mark_cognify_pipeline_status_complete decimal_format binary_serde 0 10 3 table) 10 3.
Proof.
  intros table.
  apply (@markers_refine_set decimal_format decimal_format_laws binary_serde binary_serde_laws 0 table 10 3 []).
  right. split; [reflexivity|]. split; [reflexivity|]. by eexists.
Defined.
