(* ===== verification/DataPoint.v ===== *)
(** * Data points and document chunks
    (crates/models/src/data_point.rs, crates/models/src/document_chunk.rs) *)

From S2P Require Import Prelude Text Json.
From Stdlib Require Import QArith.

Record DataPoint := {
  dp_id : uuid;
  dp_created_at : Z;
  dp_updated_at : Z;
  dp_ontology_valid : bool;
  dp_version : Z;
  dp_topological_rank : option Z;
  dp_metadata : gmap string json;
  dp_data_type : string;
  dp_belongs_to_set : option (list json);
  dp_source_pipeline : option string;
  dp_source_task : option string;
  dp_source_node_set : option string;
  dp_source_user : option string;
  dp_source_content_hash : option string;
  dp_feedback_weight : Q;
  dp_importance_weight : option Q;
}.

(** [DataPoint::new]: [fresh] is the value of [Uuid::new_v4()], [now] that of
    [Utc::now().timestamp_millis()], [uuid_to_string] is [Uuid]'s [Display]. *)
Definition DataPoint_new (uuid_to_string : uuid → string) (fresh : uuid) (now : Z)
    (data_type : string) (dataset_id : option uuid) : DataPoint := {|
  dp_id := fresh;
  dp_created_at := now;
  dp_updated_at := now;
  dp_ontology_valid := false;
  dp_version := 1;
  dp_topological_rank := Some 0%Z;
  dp_metadata := ∅;
  dp_data_type := data_type;
  dp_belongs_to_set := (λ id, [JString (uuid_to_string id)]) <$> dataset_id;
  dp_source_pipeline := None;
  dp_source_task := None;
  dp_source_node_set := None;
  dp_source_user := None;
  dp_source_content_hash := None;
  dp_feedback_weight := 1 # 2;
  dp_importance_weight := Some (1 # 2);
|}.

(** [base.id = id] *)
Definition dp_with_id (id : uuid) (dp : DataPoint) : DataPoint := {|
  dp_id := id;
  dp_created_at := dp_created_at dp;
  dp_updated_at := dp_updated_at dp;
  dp_ontology_valid := dp_ontology_valid dp;
  dp_version := dp_version dp;
  dp_topological_rank := dp_topological_rank dp;
  dp_metadata := dp_metadata dp;
  dp_data_type := dp_data_type dp;
  dp_belongs_to_set := dp_belongs_to_set dp;
  dp_source_pipeline := dp_source_pipeline dp;
  dp_source_task := dp_source_task dp;
  dp_source_node_set := dp_source_node_set dp;
  dp_source_user := dp_source_user dp;
  dp_source_content_hash := dp_source_content_hash dp;
  dp_feedback_weight := dp_feedback_weight dp;
  dp_importance_weight := dp_importance_weight dp;
|}.

(** [set_metadata], which also [touch]es the point at time [now]. *)
Definition set_metadata (key : string) (value : json) (now : Z) (dp : DataPoint) : DataPoint := {|
  dp_id := dp_id dp;
  dp_created_at := dp_created_at dp;
  dp_updated_at := now;
  dp_ontology_valid := dp_ontology_valid dp;
  dp_version := dp_version dp;
  dp_topological_rank := dp_topological_rank dp;
  dp_metadata := <[key := value]> (dp_metadata dp);
  dp_data_type := dp_data_type dp;
  dp_belongs_to_set := dp_belongs_to_set dp;
  dp_source_pipeline := dp_source_pipeline dp;
  dp_source_task := dp_source_task dp;
  dp_source_node_set := dp_source_node_set dp;
  dp_source_user := dp_source_user dp;
  dp_source_content_hash := dp_source_content_hash dp;
  dp_feedback_weight := dp_feedback_weight dp;
  dp_importance_weight := dp_importance_weight dp;
|}.

Record DocumentChunk := {
  dc_base : DataPoint;
  dc_text : text;
  dc_name : option string;
  dc_chunk_size : nat;
  dc_chunk_index : nat;
  dc_cut_type : string;
  dc_document_id : uuid;
  dc_is_part_of : option uuid;
  dc_contains : list json;
}.

(** What the outside world supplies to one [DocumentChunk::new]: the discarded
    [Uuid::new_v4()] and the two clock reads. *)
Record chunk_env := { ce_fresh : uuid; ce_created : Z; ce_touched : Z }.

(** [DocumentChunk::new] *)
Definition DocumentChunk_new (uuid_to_string : uuid → string) (env : chunk_env)
    (id : uuid) (t : text) (chunk_size chunk_index : nat) (cut_type : string)
    (document_id : uuid) : DocumentChunk :=
  let base := DataPoint_new uuid_to_string (ce_fresh env) (ce_created env) "DocumentChunk" None in
  let base := dp_with_id id base in
  let base := set_metadata "index_fields" (JArray [JString "text"]) (ce_touched env) base in
  {| dc_base := base;
     dc_text := t;
     dc_name := None;
     dc_chunk_size := chunk_size;
     dc_chunk_index := chunk_index;
     dc_cut_type := cut_type;
     dc_document_id := document_id;
     dc_is_part_of := Some document_id;
     dc_contains := [] |}.

Definition dc_id (c : DocumentChunk) : uuid := dp_id (dc_base c).

(** [format!("{document_id}-{chunk_index}")] *)
Definition chunk_key (uuid_to_string : uuid → string) (document_id : uuid) (chunk_index : nat)
    : string := (uuid_to_string document_id +:+ "-" +:+ pretty chunk_index)%string.

Lemma chunk_key_inj uuid_to_string document_id i j :
  chunk_key uuid_to_string document_id i = chunk_key uuid_to_string document_id j → i = j.
Proof.
  unfold chunk_key. intros H. do 2 apply (inj (String.append _)) in H.
  by apply (inj pretty) in H.
Qed.
