(* ===== verification/TextChunker.v ===== *)
(** * Top-level text chunker (crates/chunking/src/text_chunker.rs)

    [chunk_text] batches the paragraph chunks into document chunks. *)

From S2P Require Import Prelude Text TokenCounter CutType ChunkByWord ChunkBySentence ChunkByParagraph Json DataPoint.

(** [Vec<&str>::join(sep)] *)
Fixpoint text_join (sep : text) (ts : list text) : text :=
  match ts with
  | [] => []
  | [t] => t
  | t :: ts' => t ++ sep ++ text_join sep ts'
  end.

(** The local variables of [chunk_text]. *)
Record chunker_state := {
  cs_result : list DocumentChunk;
  cs_accumulated : list ParagraphChunk;
  cs_accumulated_size : nat;
  cs_chunk_index : nat;
}.

Definition chunker_init : chunker_state :=
  {| cs_result := []; cs_accumulated := []; cs_accumulated_size := 0; cs_chunk_index := 0 |}.

Section chunker.
(** [uuid_to_string]: [Uuid]'s [Display]; [new_v5]: [Uuid::new_v5]; [env i]: what
    the [i]-th [DocumentChunk::new] reads from the clock and the id source. *)
Context (C : TokenCounter) (uuid_to_string : uuid → string) (new_v5 : uuid → text → uuid)
  (env : nat → chunk_env).
Context (document_id : uuid) (max_chunk_size : nat) (mode : TokenCountMode).

(** The emission of the accumulated paragraphs.  [None]: [last().expect] panics. *)
Definition emit_accumulated (result : list DocumentChunk) (accumulated : list ParagraphChunk)
    (accumulated_size chunk_index : nat) : option (list DocumentChunk) :=
  let chunk_text := text_join (ascii " ") (map (λ p, sl_txt (pc_text p)) accumulated) in
  l ← last accumulated;
  let cut_type := CutType.to_string (pc_cut_type l) in
  let size := para_emitted_size C mode chunk_text accumulated_size in
  Some (result ++
    [DocumentChunk_new uuid_to_string (env chunk_index)
       (new_v5 NAMESPACE_OID (ascii (chunk_key uuid_to_string document_id chunk_index)))
       chunk_text size chunk_index cut_type document_id]).

(** One iteration of [for para in &paragraph_chunks]. *)
Definition chunker_step (st : chunker_state) (para : ParagraphChunk) : option chunker_state :=
  if cs_accumulated_size st + pc_chunk_size para <=? max_chunk_size then
    Some {| cs_result := cs_result st;
            cs_accumulated := cs_accumulated st ++ [para];
            cs_accumulated_size := cs_accumulated_size st + pc_chunk_size para;
            cs_chunk_index := cs_chunk_index st |}
  else
    match cs_accumulated st with
    | [] =>
      Some {| cs_result := cs_result st ++
                [DocumentChunk_new uuid_to_string (env (cs_chunk_index st))
                   (pc_chunk_id para) (sl_txt (pc_text para))
                   (para_emitted_size C mode (sl_txt (pc_text para)) (pc_chunk_size para))
                   (cs_chunk_index st) (CutType.to_string (pc_cut_type para)) document_id];
              cs_accumulated := cs_accumulated st;
              cs_accumulated_size := cs_accumulated_size st;
              cs_chunk_index := S (cs_chunk_index st) |}
    | _ :: _ =>
      result ← emit_accumulated (cs_result st) (cs_accumulated st) (cs_accumulated_size st)
                 (cs_chunk_index st);
      Some {| cs_result := result;
              cs_accumulated := [para];
              cs_accumulated_size := pc_chunk_size para;
              cs_chunk_index := S (cs_chunk_index st) |}
    end.

Fixpoint chunker_loop (ps : list ParagraphChunk) (st : chunker_state) : option chunker_state :=
  match ps with
  | [] => Some st
  | p :: ps' => st' ← chunker_step st p; chunker_loop ps' st'
  end.

Definition chunker_finish (st : chunker_state) : option (list DocumentChunk) :=
  match cs_accumulated st with
  | [] => Some (cs_result st)
  | _ :: _ => emit_accumulated (cs_result st) (cs_accumulated st) (cs_accumulated_size st)
                (cs_chunk_index st)
  end.

(** [chunk_text] *)
Definition chunk_text (is_alphabetic : char → bool) (new_v4 : nat → uuid) (data : text)
    : option (list DocumentChunk) :=
  paragraph_chunks ← chunk_by_paragraph C new_v5 data max_chunk_size true mode
                       is_alphabetic new_v4;
  st ← chunker_loop paragraph_chunks chunker_init;
  chunker_finish st.

(** ** When neighbouring paragraphs never fit together, each is its own chunk *)

(** A paragraph keeps its own id when it and all the paragraphs before it are
    oversized; otherwise the chunk's id is derived from its index. *)
Definition oversized (p : ParagraphChunk) : bool := max_chunk_size <? pc_chunk_size p.

(** The document chunk of the paragraph [p] at index [i]. *)
Record chunk_of_para (keeps_id : bool) (i : nat) (p : ParagraphChunk) (c : DocumentChunk)
    : Prop := {
  cp_text : dc_text c = sl_txt (pc_text p);
  cp_size : dc_chunk_size c = pc_chunk_size p;
  cp_index : dc_chunk_index c = i;
  cp_cut : dc_cut_type c = CutType.to_string (pc_cut_type p);
  cp_doc : dc_document_id c = document_id;
  cp_id : dc_id c =
    if keeps_id then pc_chunk_id p
    else new_v5 NAMESPACE_OID (ascii (chunk_key uuid_to_string document_id i));
}.

Definition chunks_of_paras (ps : list ParagraphChunk) (cs : list DocumentChunk) : Prop :=
  length ps = length cs ∧
  ∀ i p c, ps !! i = Some p → cs !! i = Some c →
    chunk_of_para (forallb oversized (take (S i) ps)) i p c.

Lemma chunks_of_paras_snoc ps cs p c :
  chunks_of_paras ps cs →
  chunk_of_para (forallb oversized (ps ++ [p])) (length cs) p c →
  chunks_of_paras (ps ++ [p]) (cs ++ [c]).
Proof.
  intros [Hlen Hall] Hc. split; [rewrite !length_app; simpl; lia|].
  intros i q d Hq Hd. destruct (decide (i < length ps)).
  - rewrite lookup_app_l in Hq by lia. rewrite lookup_app_l in Hd by lia. rewrite take_app_le by lia. eauto.
  - rewrite lookup_app_r in Hq by lia. rewrite lookup_app_r in Hd by lia. apply list_lookup_singleton_Some in Hq as [? <-].
    apply list_lookup_singleton_Some in Hd as [? <-].
    replace i with (length cs) by lia. rewrite take_ge by (rewrite length_app; simpl; lia). done.
Qed.

(** Paragraphs whose size is the count of their text, under [Span]. *)
Definition para_exact (p : ParagraphChunk) : Prop :=
  mode = Span → pc_chunk_size p = count_tokens (sl_txt (pc_text p)).

Lemma para_exact_emitted p :
  para_exact p → para_emitted_size C mode (sl_txt (pc_text p)) (pc_chunk_size p) = pc_chunk_size p.
Proof. unfold para_exact, para_emitted_size. destruct mode; [intros ->|]; done. Qed.

Definition pending (pend : option ParagraphChunk) : list ParagraphChunk :=
  match pend with Some p => [p] | None => [] end.

(** The loop holds at most one paragraph, [pend]; it holds none only while every
    paragraph so far was oversized. *)
Record chunker_inv (done_ : list ParagraphChunk) (pend : option ParagraphChunk)
    (st : chunker_state) : Prop := {
  ci_done : chunks_of_paras done_ (cs_result st);
  ci_index : cs_chunk_index st = length (cs_result st);
  ci_acc : cs_accumulated st = pending pend;
  ci_size : cs_accumulated_size st = default 0 (pc_chunk_size <$> pend);
  ci_exact : ∀ p, pend = Some p → para_exact p;
  ci_keeps : forallb oversized (done_ ++ pending pend) = bool_decide (pend = None);
}.

(** Emitting the one pending paragraph. *)
Lemma emit_one done_ p st :
  chunker_inv done_ (Some p) st →
  ∃ c, emit_accumulated (cs_result st) [p] (pc_chunk_size p) (cs_chunk_index st)
         = Some (cs_result st ++ [c])
    ∧ chunks_of_paras (done_ ++ [p]) (cs_result st ++ [c]).
Proof.
  intros [Hdone Hidx _ _ Hex Hk]. unfold emit_accumulated. simpl in *.
  eexists. split; [done|]. apply chunks_of_paras_snoc; [done|]. rewrite Hk.
  split; simpl; try done.
  - by apply para_exact_emitted, Hex.
  - unfold dc_id. simpl. by rewrite Hidx.
Qed.

(** One paragraph, when it does not fit with the pending one. *)
Lemma chunker_step_inv done_ pend st p :
  chunker_inv done_ pend st → para_exact p →
  (∀ q, pend = Some q → over max_chunk_size (pc_chunk_size q) (pc_chunk_size p)) →
  ∃ st' done' pend', chunker_step st p = Some st' ∧ chunker_inv done' pend' st'
    ∧ done' ++ pending pend' = (done_ ++ pending pend) ++ [p]
    ∧ (∀ q, pend' = Some q → q = p).
Proof.
  intros Hinv Hp Hover. pose proof Hinv as [Hdone Hidx Hacc Hsize Hex Hk].
  unfold chunker_step. rewrite Hsize, Hacc.
  destruct pend as [q|]; cbn [pending default from_option fmap option_fmap option_map id Nat.add] in *.
  - specialize (Hover q eq_refl). unfold over in Hover.
    rewrite (proj2 (Nat.leb_gt _ _)) by lia.
    destruct (emit_one done_ q st Hinv) as (c & -> & Hc). simpl.
    eexists _, (done_ ++ [q]), (Some p). split_and!; [done| |done|by intros ? [= ->]].
    split; simpl; try done.
    + rewrite length_app, Hidx. simpl. lia.
    + by intros ? [= <-].
    + by rewrite forallb_app, Hk.
  - destruct (Nat.leb_spec (pc_chunk_size p) max_chunk_size) as [Hle|Hgt].
    + eexists _, done_, (Some p). split_and!; [done| |by rewrite app_nil_r|by intros ? [= ->]].
      split; simpl; try done.
      * by intros ? [= <-].
      * rewrite forallb_app. simpl. unfold oversized at 2.
        rewrite (proj2 (Nat.ltb_ge _ _)) by lia. by rewrite andb_false_r.
    + rewrite app_nil_r in *. eexists _, (done_ ++ [p]), None.
      assert (Hall : forallb oversized (done_ ++ [p]) = true).
      { rewrite forallb_app, Hk. simpl. unfold oversized. by rewrite (proj2 (Nat.ltb_lt _ _)). }
      split_and!; [done| |by rewrite app_nil_r|done].
      split; simpl; try done.
      * apply chunks_of_paras_snoc; [done|]. rewrite Hall. split; simpl; try done.
        by apply para_exact_emitted.
      * rewrite length_app, Hidx. simpl. lia.
      * by rewrite app_nil_r.
Qed.

Lemma chunker_loop_spec ps : ∀ done_ pend st,
  chunker_inv done_ pend st → Forall para_exact ps →
  chain (over max_chunk_size) (map pc_chunk_size (pending pend ++ ps)) →
  ∃ st' done' pend', chunker_loop ps st = Some st' ∧ chunker_inv done' pend' st'
    ∧ done' ++ pending pend' = (done_ ++ pending pend) ++ ps.
Proof.
  induction ps as [|p ps IH]; intros done_ pend st Hinv Hex Hch; simpl.
  { eexists _, _, _. split_and!; [done..|]. by rewrite app_nil_r. }
  apply Forall_cons in Hex as [Hp Hex].
  assert (Hover : ∀ q, pend = Some q → over max_chunk_size (pc_chunk_size q) (pc_chunk_size p)).
  { intros q ->. by destruct Hch. }
  assert (Hch' : chain (over max_chunk_size) (map pc_chunk_size (p :: ps))).
  { destruct pend; [by destruct Hch|done]. }
  destruct (chunker_step_inv done_ pend st p) as (st1 & d1 & pd1 & -> & Hi1 & Heq1 & Hpd); [done..|].
  simpl. destruct (IH d1 pd1 st1) as (st2 & d2 & pd2 & -> & Hi2 & Heq2); [done|done| |].
  { destruct pd1 as [q|]; simpl.
    - by rewrite (Hpd q eq_refl).
    - by destruct ps as [|r ps]; [|destruct Hch']. }
  eexists _, _, _. split_and!; [done..|]. by rewrite Heq2, Heq1, <-app_assoc.
Qed.

(** A run over paragraphs that do not fit together pairwise. *)
Lemma chunker_spec ps :
  Forall para_exact ps → chain (over max_chunk_size) (map pc_chunk_size ps) →
  ∃ cs, (st ← chunker_loop ps chunker_init; chunker_finish st) = Some cs
    ∧ chunks_of_paras ps cs.
Proof.
  intros Hex Hch.
  destruct (chunker_loop_spec ps [] None chunker_init) as (st & d & pd & -> & Hi & Heq);
    [split; simpl; done|done|done|].
  simpl in *. subst ps. unfold chunker_finish. pose proof Hi as [Hdone _ -> Hsize _ _].
  destruct pd as [q|]; simpl in *.
  - destruct (emit_one d q st Hi) as (c & Hc & ?). rewrite Hsize, Hc. eauto.
  - rewrite app_nil_r in *. eauto.
Qed.

Lemma chunks_of_paras_texts ps cs :
  chunks_of_paras ps cs → map dc_text cs = map (λ p, sl_txt (pc_text p)) ps.
Proof.
  intros [Hlen Hall]. apply list_eq. intros i. rewrite !list_lookup_fmap.
  destruct (cs !! i) as [c|] eqn:Hc, (ps !! i) as [p|] eqn:Hp; simpl; try done.
  - by rewrite (cp_text _ _ _ _ (Hall i p c Hp Hc)).
  - apply lookup_lt_Some in Hc. apply lookup_ge_None in Hp. lia.
  - apply lookup_lt_Some in Hp. apply lookup_ge_None in Hc. lia.
Qed.

(** The whole function. *)
Lemma chunk_text_paras is_alphabetic new_v4 data :
  mode = PerWord ∨ CounterLaws C →
  ∃ ss gs ps cs, chunk_by_sentence C is_alphabetic new_v4 data (Some max_chunk_size) mode = Some ss
    ∧ chunk_by_paragraph C new_v5 data max_chunk_size true mode is_alphabetic new_v4 = Some ps
    ∧ paragraphs_of C new_v5 max_chunk_size true mode ss gs ps
    ∧ sents_text ss = data
    ∧ chunk_text is_alphabetic new_v4 data = Some cs ∧ chunks_of_paras ps cs.
Proof.
  intros Hl. unfold chunk_text.
  destruct (chunk_by_paragraph_groups C new_v5 data max_chunk_size true mode is_alphabetic new_v4)
    as (ss & ps & gs & Hss & Hps & Hp & Hdata).
  pose proof Hp as [Hcat Hgs _ _ Hch].
  destruct (chunker_spec ps) as (cs & Hcs & Hof); [|by apply Hch|].
  { clear -Hgs. induction Hgs as [|g p gs ps Hp _ IH]; constructor; auto. intros Hm.
    rewrite (po_size _ _ _ _ _ _ _ Hp), (po_text _ _ _ _ _ _ _ Hp). unfold para_size.
    by rewrite Hm. }
  exists ss, gs, ps, cs. rewrite Hps. by split_and!.
Qed.
End chunker.

(** ** Properties *)

(** C21: for a counter with the laws (or under [PerWord], for any counter),
    [chunk_text] loses and adds nothing.  Its document chunks are the chunks of
    [chunk_by_paragraph] at the same limit, one for one and in order, each with its
    paragraph's text, size and cut type, its index and the document's id - and with
    its paragraph's id as long as all paragraphs so far exceed the limit, otherwise
    one derived from the document's id and the index.  So the texts concatenate to
    the document, with no joining space ever inserted. *)
Theorem chunk_text_lossless C uuid_to_string new_v5 env document_id max mode
    is_alphabetic new_v4 data :
  mode = PerWord ∨ CounterLaws C →
  ∃ ps cs, chunk_by_paragraph C new_v5 data max true mode is_alphabetic new_v4 = Some ps
    ∧ chunk_text C uuid_to_string new_v5 env document_id max mode is_alphabetic new_v4 data = Some cs
    ∧ length cs = length ps
    ∧ (∀ i p c, ps !! i = Some p → cs !! i = Some c →
         chunk_of_para uuid_to_string new_v5 document_id (forallb (oversized max) (take (S i) ps)) i p c)
    ∧ concat (map dc_text cs) = data
    ∧ map dc_chunk_index cs = seq 0 (length cs)
    ∧ Forall (λ c, dc_document_id c = document_id) cs.
Proof.
  intros Hl.
  destruct (chunk_text_paras C uuid_to_string new_v5 env document_id max mode is_alphabetic
    new_v4 data Hl) as (ss & gs & ps & cs & Hss & Hps & [Hcat Hgs _ _ _] & Hdata & Hcs & Hof).
  exists ps, cs. split; [done|]. split; [done|]. pose proof Hof as [Hlen Hall]. split; [done|]. split; [done|].
  assert (Hc : ∀ i c, cs !! i = Some c → ∃ p, chunk_of_para uuid_to_string new_v5 document_id
      (forallb (oversized max) (take (S i) ps)) i p c).
  { intros i c Hc. destruct (ps !! i) as [p|] eqn:Hp; [eauto|].
    apply lookup_ge_None in Hp. apply lookup_lt_Some in Hc. lia. }
  split_and!.
  - erewrite chunks_of_paras_texts by done. erewrite paras_text by done. by rewrite Hcat.
  - apply list_eq. intros i. rewrite list_lookup_fmap. destruct (cs !! i) as [c|] eqn:Hi; simpl.
    + rewrite lookup_seq_lt by (by apply lookup_lt_Some in Hi).
      destruct (Hc i c Hi) as [p Hp]. by rewrite (cp_index _ _ _ _ _ _ _ Hp).
    + symmetry. apply lookup_seq_ge. by apply lookup_ge_None.
  - apply Forall_lookup. intros i c Hi. destruct (Hc i c Hi) as [p Hp].
    apply (cp_doc _ _ _ _ _ _ _ Hp).
Qed.

(** Concrete stand-ins for the [uuid] crate and the clock, for the examples. *)
Definition example_uuid_to_string (u : uuid) : string := pretty u.
Definition example_env (i : nat) : chunk_env :=
  {| ce_fresh := N.of_nat i; ce_created := 1; ce_touched := 2 |}.
Notation example_chunk_text max data :=
  (chunk_text WordCounter example_uuid_to_string length_v5 example_env 7%N max Span
     ascii_alphabetic counted_v4 data) (only parsing).

Lemma chunk_text_lossless_witness :
  ∃ (ps : list ParagraphChunk) cs, example_chunk_text 3 (ascii "One two. Three four. Five") = Some cs
    ∧ length cs = 2 ∧ length cs = length ps
    ∧ concat (map dc_text cs) = ascii "One two. Three four. Five"
    ∧ map dc_chunk_index cs = seq 0 (length cs)
    ∧ Forall (λ c, dc_document_id c = 7%N) cs.
Proof.
  destruct (chunk_text_lossless WordCounter example_uuid_to_string length_v5 example_env 7%N 3
    Span ascii_alphabetic counted_v4 (ascii "One two. Three four. Five")
    (or_intror WordCounter_laws)) as (ps & cs & _ & Hcs & Hlps & _ & H).
  exists ps, cs. split; [exact Hcs|]. split; [|split; [exact Hlps|exact H]].
  assert (Hlen : (λ cs, length cs) <$> example_chunk_text 3 (ascii "One two. Three four. Five")
    = Some 2) by (vm_compute; reflexivity).
  rewrite Hcs in Hlen. injection Hlen as Hlen. exact Hlen.
Defined.

(** The size of a document chunk is within the limit, or no larger than the
    count of one single word of the document: chunking never exceeds the limit
    where words allow it. *)
Theorem chunk_text_bounded C uuid_to_string new_v5 env document_id max mode
    is_alphabetic new_v4 data cs :
  mode = PerWord ∨ CounterLaws C →
  chunk_text C uuid_to_string new_v5 env document_id max mode is_alphabetic new_v4 data = Some cs →
  ∃ words, chunk_by_word data = Some words
    ∧ Forall (λ c, dc_chunk_size c ≤ max
        ∨ ∃ w, w ∈ words ∧ dc_chunk_size c ≤ count_tokens (TokenCounter := C) (word_text w)) cs.
Proof.
  intros Hl Hcs.
  destruct (chunk_text_paras C uuid_to_string new_v5 env document_id max mode is_alphabetic
    new_v4 data Hl) as (ss & gs & ps & cs' & Hss & Hps & [Hcat Hgs _ _ _] & _ & Hcs' & Hof).
  simplify_eq.
  destruct (chunk_by_sentence_groups C is_alphabetic new_v4 data (Some max) mode)
    as (words & ss' & wgs & Hw & Hss' & Hwcat & Hwgs & _). simplify_eq.
  exists (concat wgs). split; [done|].
  apply Forall_lookup. intros i c Hc. destruct Hof as [Hlen Hall].
  destruct (ps !! i) as [p|] eqn:Hp;
    [|apply lookup_ge_None in Hp; apply lookup_lt_Some in Hc; lia].
  rewrite (cp_size _ _ _ _ _ _ _ (Hall i p c Hp Hc)).
  destruct (Forall2_lookup_r _ _ _ _ _ Hgs Hp) as (g & Hg & Hpo).
  destruct (po_bound _ _ _ _ _ _ _ Hpo Hl) as [?|(s & Hs & Hle)]; [by left|].
  assert (Hin : s ∈ concat gs).
  { apply list_elem_of_In, in_concat. exists g.
    split; apply list_elem_of_In; [by eapply list_elem_of_lookup_2|done]. }
  apply list_elem_of_lookup in Hin as [j Hj].
  destruct (Forall2_lookup_r _ _ _ _ _ Hwgs Hj) as (wg & Hwg & (Hne & Ht & Hsz & Hb)).
  destruct (Hb Hl) as [Hone|?]; [|left; lia]. right.
  destruct wg as [|w [|]]; simpl in Hone; [done| |lia].
  exists w. split.
  - apply list_elem_of_In, in_concat. exists [w].
    split; apply list_elem_of_In; [by eapply list_elem_of_lookup_2|by constructor].
  - rewrite Hsz in Hle. unfold group_size in Hle. rewrite words_text_one in Hle.
    unfold words_sum in Hle. simpl in Hle. destruct mode; lia.
Qed.

Lemma chunk_text_bounded_witness :
  ∃ cs words, example_chunk_text 3 (ascii "One two. Three four. Five") = Some cs
    ∧ chunk_by_word (ascii "One two. Three four. Five") = Some words
    ∧ Forall (λ c, dc_chunk_size c ≤ 3
        ∨ ∃ w, w ∈ words ∧ dc_chunk_size c ≤ count_tokens (TokenCounter := WordCounter) (word_text w)) cs.
Proof.
  set (r := example_chunk_text 3 (ascii "One two. Three four. Five")).
  assert (E : r = Some (default [] r)) by (vm_compute; reflexivity).
  destruct (chunk_text_bounded WordCounter example_uuid_to_string length_v5 example_env 7%N 3
    Span ascii_alphabetic counted_v4 (ascii "One two. Three four. Five") _
    (or_intror WordCounter_laws) E) as (words & ? & ?).
  exists (default [] r), words. split; [exact E|]. by split.
Defined.

(** A document chunk's id is deterministic: [uuid5(OID, "{document_id}-{i}")]
    for its index [i] (a different key for every index), except for an oversized
    chunk that keeps its paragraph's id, [uuid5(OID, text)]. *)
Theorem chunk_text_ids C uuid_to_string new_v5 env document_id max mode
    is_alphabetic new_v4 data cs :
  mode = PerWord ∨ CounterLaws C →
  chunk_text C uuid_to_string new_v5 env document_id max mode is_alphabetic new_v4 data = Some cs →
  (∀ i c, cs !! i = Some c →
    dc_id c = new_v5 NAMESPACE_OID (ascii (chunk_key uuid_to_string document_id i))
    ∨ (max < dc_chunk_size c ∧ dc_id c = new_v5 NAMESPACE_OID (dc_text c)))
  ∧ (∀ i j, chunk_key uuid_to_string document_id i = chunk_key uuid_to_string document_id j → i = j).
Proof.
  intros Hl Hcs. split; [|intros i j; apply chunk_key_inj].
  destruct (chunk_text_paras C uuid_to_string new_v5 env document_id max mode is_alphabetic
    new_v4 data Hl) as (ss & gs & ps & cs' & Hss & Hps & [Hcat Hgs _ _ _] & _ & Hcs' & Hof).
  simplify_eq. intros i c Hc. destruct Hof as [Hlen Hall].
  destruct (ps !! i) as [p|] eqn:Hp;
    [|apply lookup_ge_None in Hp; apply lookup_lt_Some in Hc; lia].
  pose proof (Hall i p c Hp Hc) as [Ht Hsz _ _ _ Hid].
  destruct (forallb (oversized max) (take (S i) ps)) eqn:Ho; [|by left]. right.
  rewrite Hid, Hsz, Ht. split.
  - rewrite (take_S_r _ _ _ Hp), forallb_app in Ho. apply andb_true_iff in Ho as [_ Ho].
    simpl in Ho. rewrite andb_true_r in Ho. by apply Nat.ltb_lt in Ho.
  - destruct (Forall2_lookup_r _ _ _ _ _ Hgs Hp) as (g & Hg & Hpo).
    by rewrite (po_id _ _ _ _ _ _ _ Hpo), (po_text _ _ _ _ _ _ _ Hpo).
Qed.

Lemma chunk_text_ids_witness :
  ∃ cs, example_chunk_text 3 (ascii "One two. Three four. Five") = Some cs
  ∧ (∀ i c, cs !! i = Some c →
    dc_id c = length_v5 NAMESPACE_OID (ascii (chunk_key example_uuid_to_string 7%N i))
    ∨ (3 < dc_chunk_size c ∧ dc_id c = length_v5 NAMESPACE_OID (dc_text c)))
  ∧ (∀ i j, chunk_key example_uuid_to_string 7%N i = chunk_key example_uuid_to_string 7%N j → i = j).
Proof.
  set (r := example_chunk_text 3 (ascii "One two. Three four. Five")).
  assert (E : r = Some (default [] r)) by (vm_compute; reflexivity).
  exists (default [] r). split; [exact E|].
  exact (chunk_text_ids WordCounter example_uuid_to_string length_v5 example_env 7%N 3
    Span ascii_alphabetic counted_v4 (ascii "One two. Three four. Five") _
    (or_intror WordCounter_laws) E).
Defined.
