(* ===== verification/ChunkByRow.v ===== *)
(** * Row-based chunker (crates/chunking/src/chunk_by_row.rs)

    Rows end at a blank line, pairs at a comma and a space.  The inner loop is a
    step function over the pairs of one row; the outer one a fold over the rows. *)

From S2P Require Import Prelude Text TokenCounter CutType Json DataPoint TextChunker.

(** Whether [s] starts with [sep]. *)
Fixpoint starts_with (sep s : text) : bool :=
  match sep, s with
  | [], _ => true
  | a :: sep', b :: s' => (a =? b)%N && starts_with sep' s'
  | _ :: _, [] => false
  end.

(** [str::split(sep)] for a non-empty separator: [cur] is the piece being read
    and [skip] the characters of a matched separator still to pass over. *)
Fixpoint text_split_go (sep : text) (skip : nat) (cur s : text) : list text :=
  match s with
  | [] => [cur]
  | c :: s' =>
    match skip with
    | S k => text_split_go sep k cur s'
    | 0 =>
      if starts_with sep s then cur :: text_split_go sep (length sep - 1) [] s'
      else text_split_go sep 0 (cur ++ [c]) s'
    end
  end.

Definition text_split (sep s : text) : list text := text_split_go sep 0 [] s.

Definition row_sep : text := [10%N; 10%N].
Definition pair_sep : text := ascii ", ".

(** The local variables: the two that live across rows, and the two of a row. *)
Record row_state := {
  rs_result : list DocumentChunk;
  rs_chunk_index : nat;
  rs_current_chunk_list : list text;
  rs_current_chunk_size : nat;
}.

Section row.
Context (C : TokenCounter) (uuid_to_string : uuid → string) (new_v5 : uuid → text → uuid)
  (env : nat → chunk_env).
Context (document_id : uuid) (max_chunk_size : nat).

(** The emission of [current_chunk_list], shared by the two places. *)
Definition emit_row_chunk (result : list DocumentChunk) (chunk_index : nat)
    (current_chunk_list : list text) (cut : CutType.t) : list DocumentChunk :=
  let chunk_text := text_join pair_sep current_chunk_list in
  let chunk_id :=
    new_v5 NAMESPACE_OID (ascii (chunk_key uuid_to_string document_id chunk_index)) in
  let word_count := count_tokens chunk_text in
  result ++ [DocumentChunk_new uuid_to_string (env chunk_index) chunk_id chunk_text word_count
               chunk_index (CutType.to_string cut) document_id].

(** One iteration of [for pair in &pairs]. *)
Definition pair_step (st : row_state) (pair : text) : row_state :=
  let pair_size := count_tokens pair in
  let cut := (max_chunk_size <? rs_current_chunk_size st + pair_size)
             && negb (bool_decide (rs_current_chunk_list st = [])) in
  let result := if cut then emit_row_chunk (rs_result st) (rs_chunk_index st)
                              (rs_current_chunk_list st) CutType.RowCut
                else rs_result st in
  {| rs_result := result;
     rs_chunk_index := if cut then S (rs_chunk_index st) else rs_chunk_index st;
     rs_current_chunk_list := (if cut then [] else rs_current_chunk_list st) ++ [pair];
     rs_current_chunk_size := (if cut then 0 else rs_current_chunk_size st) + pair_size |}.

(** One iteration of [for row in &rows]. *)
Definition row_step (acc : list DocumentChunk * nat) (row : text) : list DocumentChunk * nat :=
  match row with
  | [] => acc
  | _ =>
    let pairs := text_split pair_sep row in
    let st := foldl pair_step {| rs_result := acc.1; rs_chunk_index := acc.2;
                rs_current_chunk_list := []; rs_current_chunk_size := 0 |} pairs in
    if bool_decide (rs_current_chunk_list st = []) then (rs_result st, rs_chunk_index st)
    else (emit_row_chunk (rs_result st) (rs_chunk_index st) (rs_current_chunk_list st)
            CutType.RowEnd, S (rs_chunk_index st))
  end.

(** [chunk_by_row] *)
Definition chunk_by_row (data : text) : list DocumentChunk :=
  (foldl row_step ([], 0) (text_split row_sep data)).1.

(** ** The chunks of one row *)

Definition pairs_sum (g : list text) : nat := sum_list_with count_tokens g.

(** A chunk made of the pairs [g], at index [i]. *)
Record chunk_of_pairs (cut : CutType.t) (i : nat) (g : list text) (c : DocumentChunk) : Prop := {
  cr_nonempty : g ≠ [];
  cr_text : dc_text c = text_join pair_sep g;
  cr_size : dc_chunk_size c = count_tokens (text_join pair_sep g);
  cr_index : dc_chunk_index c = i;
  cr_cut : dc_cut_type c = CutType.to_string cut;
  cr_id : dc_id c = new_v5 NAMESPACE_OID (ascii (chunk_key uuid_to_string document_id i));
  cr_bound : length g = 1 ∨ pairs_sum g ≤ max_chunk_size;
}.

(** The chunks [cs] cut the groups [gs], from index [i]. *)
Fixpoint row_cuts (i : nat) (gs : list (list text)) (cs : list DocumentChunk) : Prop :=
  match gs, cs with
  | [], [] => True
  | g :: gs', c :: cs' => chunk_of_pairs CutType.RowCut i g c ∧ row_cuts (S i) gs' cs'
  | _, _ => False
  end.

Lemma row_cuts_length i gs cs : row_cuts i gs cs → length gs = length cs.
Proof.
  revert i cs. induction gs as [|g gs IH]; intros i [|c cs]; simpl; try done.
  intros [_ ?]. f_equal. eauto.
Qed.

Lemma row_cuts_snoc i gs cs g c :
  row_cuts i gs cs → chunk_of_pairs CutType.RowCut (i + length cs) g c →
  row_cuts i (gs ++ [g]) (cs ++ [c]).
Proof.
  revert i cs. induction gs as [|g' gs IH]; intros i [|c' cs]; simpl; try done.
  - intros _ H. by rewrite Nat.add_0_r in H.
  - intros [Hc1 Hc2] H. split; [done|]. apply IH; [done|]. by rewrite Nat.add_succ_comm.
Qed.

(** The state inside a row: [cs] emitted for [gs], and the pending pairs [cur]. *)
Record pair_inv (res0 : list DocumentChunk) (i0 : nat) (gs : list (list text)) (cur : list text)
    (st : row_state) : Prop := {
  pv_result : ∃ cs, rs_result st = res0 ++ cs ∧ row_cuts i0 gs cs;
  pv_index : rs_chunk_index st = i0 + length gs;
  pv_cur : rs_current_chunk_list st = cur;
  pv_size : rs_current_chunk_size st = pairs_sum cur;
  pv_bound : length cur ≤ 1 ∨ pairs_sum cur ≤ max_chunk_size;
}.

Lemma emit_row_chunk_spec res i g cut :
  g ≠ [] → length g ≤ 1 ∨ pairs_sum g ≤ max_chunk_size →
  ∃ c, emit_row_chunk res i g cut = res ++ [c] ∧ chunk_of_pairs cut i g c.
Proof.
  intros Hg Hb. unfold emit_row_chunk. eexists. split; [done|]. split; simpl; try done.
  destruct g as [|p [|]]; simpl in *; [done|by left|]. right. destruct Hb; [lia|done].
Qed.

Lemma pair_step_inv res0 i0 gs cur st p :
  pair_inv res0 i0 gs cur st →
  ∃ gs' cur', pair_inv res0 i0 gs' cur' (pair_step st p)
    ∧ cur' ≠ [] ∧ concat gs' ++ cur' = concat gs ++ cur ++ [p].
Proof.
  intros [(cs & Hres & Hcs) Hidx Hcur Hsize Hb]. unfold pair_step. rewrite Hcur, Hsize.
  destruct (Nat.ltb_spec max_chunk_size (pairs_sum cur + count_tokens p)) as [Hlt|Hge];
    [destruct (decide (cur = [])) as [->|Hne]|]; simpl.
  - exists gs, [p]. split_and!; [|done|done]. split; simpl; eauto; unfold pairs_sum; simpl; lia.
  - rewrite bool_decide_eq_false_2 by done. simpl.
    destruct (emit_row_chunk_spec (rs_result st) (rs_chunk_index st) cur CutType.RowCut)
      as (c & -> & Hc); [done..|].
    exists (gs ++ [cur]), [p]. split_and!; [|done|by rewrite concat_snoc, <-app_assoc].
    split; cbn.
    + exists (cs ++ [c]). split; [by rewrite Hres, <-app_assoc|].
      apply row_cuts_snoc; [done|]. by rewrite <-(row_cuts_length _ _ _ Hcs), <-Hidx.
    + rewrite length_app, Hidx. simpl. lia.
    + done.
    + unfold pairs_sum. simpl. lia.
    + by left; lia.
  - exists gs, (cur ++ [p]). split_and!; [|by destruct cur|done].
    assert (pairs_sum (cur ++ [p]) = pairs_sum cur + count_tokens p).
    { unfold pairs_sum. rewrite sum_list_with_app'. simpl. lia. }
    split; simpl; eauto. right. lia.
Qed.

Lemma pairs_loop_inv ps : ∀ res0 i0 gs cur st,
  pair_inv res0 i0 gs cur st →
  ∃ gs' cur', pair_inv res0 i0 gs' cur' (foldl pair_step st ps)
    ∧ (cur ≠ [] ∨ ps ≠ [] → cur' ≠ []) ∧ concat gs' ++ cur' = concat gs ++ cur ++ ps.
Proof.
  induction ps as [|p ps IH]; intros res0 i0 gs cur st Hinv; simpl.
  - exists gs, cur. rewrite app_nil_r. split_and!; [done|tauto|done].
  - destruct (pair_step_inv _ _ _ _ _ p Hinv) as (gs1 & cur1 & Hi1 & Hne1 & Heq1).
    destruct (IH _ _ _ _ _ Hi1) as (gs2 & cur2 & Hi2 & Hne2 & Heq2).
    exists gs2, cur2. split_and!; [done|auto|].
    by rewrite Heq2, app_assoc, Heq1, <-!app_assoc.
Qed.

(** The chunks of one row: cuts, then one row end. *)
Definition row_chunks (i : nat) (row : text) (cs : list DocumentChunk) : Prop :=
  match row with
  | [] => cs = []
  | _ => ∃ gs g cs' c, cs = cs' ++ [c] ∧ concat gs ++ g = text_split pair_sep row
      ∧ row_cuts i gs cs' ∧ chunk_of_pairs CutType.RowEnd (i + length cs') g c
  end.

Lemma text_split_nonempty sep s : text_split sep s ≠ [].
Proof.
  unfold text_split. generalize 0 (@nil N). induction s as [|c s IH]; intros k cur; simpl; [done|].
  destruct k; [|done]. by destruct (starts_with sep (c :: s)).
Qed.

Lemma row_step_spec res i row :
  ∃ cs, row_step (res, i) row = (res ++ cs, i + length cs) ∧ row_chunks i row cs.
Proof.
  destruct row as [|x row]; unfold row_step, row_chunks.
  { exists []. by rewrite app_nil_r, Nat.add_0_r. }
  destruct (pairs_loop_inv (text_split pair_sep (x :: row)) res i [] []
    {| rs_result := res; rs_chunk_index := i; rs_current_chunk_list := [];
       rs_current_chunk_size := 0 |}) as (gs & g & [(cs & Hres & Hcs) Hidx Hcur Hsize Hb] & Hne & Heq).
  { split; cbn; [exists []; by rewrite app_nil_r|lia|done|done|left; lia]. }
  cbn [fst snd]. rewrite Hcur.
  assert (Hg : g ≠ []) by (apply Hne; right; apply text_split_nonempty).
  rewrite bool_decide_eq_false_2 by done.
  destruct (emit_row_chunk_spec (rs_result (foldl pair_step
      {| rs_result := res; rs_chunk_index := i; rs_current_chunk_list := [];
         rs_current_chunk_size := 0 |} (text_split pair_sep (x :: row)))) (i + length gs) g
      CutType.RowEnd) as (c & Hc & Hof); [done..|].
  rewrite Hidx, Hc, Hres. exists (cs ++ [c]). rewrite <-app_assoc. split.
  - f_equal. rewrite length_app, (row_cuts_length _ _ _ Hcs). simpl. lia.
  - exists gs, g, cs, c. split_and!; [done|done|done|].
    by rewrite <-(row_cuts_length _ _ _ Hcs).
Qed.

(** The rows' chunks, one row after the other. *)
Fixpoint rows_chunks (i : nat) (rows : list text) (css : list (list DocumentChunk)) : Prop :=
  match rows, css with
  | [], [] => True
  | row :: rows', cs :: css' => row_chunks i row cs ∧ rows_chunks (i + length cs) rows' css'
  | _, _ => False
  end.

Lemma rows_loop_spec rows : ∀ res i,
  ∃ css, foldl row_step (res, i) rows = (res ++ concat css, i + length (concat css))
    ∧ rows_chunks i rows css.
Proof.
  induction rows as [|row rows IH]; intros res i; cbn [foldl].
  - exists []. simpl. by rewrite app_nil_r, Nat.add_0_r.
  - destruct (row_step_spec res i row) as (cs & -> & Hcs).
    destruct (IH (res ++ cs) (i + length cs)) as (css & -> & Hcss).
    exists (cs :: css). split; [|done]. simpl. rewrite length_app, <-app_assoc. f_equal. lia.
Qed.
End row.

(** ** Splitting and joining *)

Lemma starts_with_drop sep s : starts_with sep s = true → s = sep ++ drop (length sep) s.
Proof.
  revert s. induction sep as [|a sep IH]; intros s; simpl; [done|].
  destruct s as [|b s]; simpl; [done|]. intros [->%N.eqb_eq H]%andb_true_iff.
  f_equal. by apply IH.
Qed.

Lemma text_split_go_skip sep k s :
  text_split_go sep k [] s = text_split_go sep 0 [] (drop k s).
Proof. revert s. induction k as [|k IH]; intros [|c s]; simpl; try done. Qed.

Lemma text_join_cons sep t ts : ts ≠ [] → text_join sep (t :: ts) = t ++ sep ++ text_join sep ts.
Proof. by destruct ts. Qed.

Lemma text_join_split_go sep s : sep ≠ [] → ∀ cur,
  text_join sep (text_split_go sep 0 cur s) = cur ++ s.
Proof.
  intros Hsep. induction s as [s IH] using ChunkByWord.text_len_ind. intros cur.
  destruct s as [|c s]; [simpl; by rewrite app_nil_r|].
  cbn [text_split_go]. destruct (starts_with sep (c :: s)) eqn:Hst.
  - rewrite text_split_go_skip, text_join_cons by apply text_split_nonempty.
    apply starts_with_drop in Hst. destruct sep as [|a sep]; [done|].
    replace (length (a :: sep) - 1) with (length sep) by (simpl; lia).
    change (drop (length (a :: sep)) (c :: s)) with (drop (length sep) s) in Hst.
    rewrite IH by (rewrite length_drop; simpl; lia). by rewrite Hst.
  - rewrite IH by (simpl; lia). by rewrite <-app_assoc.
Qed.

(** C10: [str::split] and [join] on one separator are inverse: what
    [chunk_by_row] splits into rows and pairs can be put back together. *)
Theorem text_join_split sep s : sep ≠ [] → text_join sep (text_split sep s) = s.
Proof. intros Hsep. by apply text_join_split_go. Qed.

Lemma text_join_split_witness :
  pair_sep ≠ [] ∧ text_join pair_sep (text_split pair_sep (ascii "a: 1, b: 2")) = ascii "a: 1, b: 2".
Proof. split; [done|]. by apply (text_join_split pair_sep). Defined.

(** [chunk_by_row] emits, row by row, chunks that partition the row's pairs
    in order: every chunk but the row's last is a [row_cut], the last a
    [row_end]; a chunk holds several pairs only if their counts sum to at most the
    limit; empty rows emit nothing; indices run on across rows. *)
Theorem chunk_by_row_rows C uuid_to_string new_v5 env document_id max data :
  ∃ css, chunk_by_row C uuid_to_string new_v5 env document_id max data = concat css
    ∧ rows_chunks C uuid_to_string new_v5 document_id max 0 (text_split row_sep data) css
    ∧ map dc_chunk_index (concat css) = seq 0 (length (concat css)).
Proof.
  unfold chunk_by_row.
  destruct (rows_loop_spec C uuid_to_string new_v5 env document_id max (text_split row_sep data) [] 0)
    as (css & -> & Hcss). exists css. split; [done|]. split; [done|].
  revert Hcss. generalize 0 (text_split row_sep data). induction css as [|cs css IH];
    intros i [|row rows]; simpl; try done.
  intros [Hrow Hrest]. rewrite map_app, length_app, seq_app. f_equal; [|by apply (IH _ rows)].
  destruct row as [|x row]; [by rewrite Hrow|].
  destruct Hrow as (gs & g & cs' & c & -> & _ & Hcuts & Hc).
  rewrite map_app, length_app, seq_app. simpl. f_equal; [|by rewrite (cr_index _ _ _ _ _ _ _ _ _ Hc)].
  clear -Hcuts. revert i gs Hcuts. induction cs' as [|d cs' IH]; intros i [|h gs]; simpl; try done.
  intros [Hd ?]. rewrite (cr_index _ _ _ _ _ _ _ _ _ Hd). f_equal. eauto.
Qed.

Example chunk_by_row_cut :
  map (λ c, (dc_text c, dc_cut_type c))
    (chunk_by_row WordCounter example_uuid_to_string ChunkByParagraph.length_v5 example_env 7%N 2
       (ascii "a: 1, b: 2" ++ row_sep ++ ascii "c: 3"))
  = [(ascii "a: 1", "row_cut"%string); (ascii "b: 2", "row_end"%string);
     (ascii "c: 3", "row_end"%string)].
Proof. vm_compute. reflexivity. Qed.
