(* ===== verification/Models.v ===== *)
(** * Typed containers of data points
    (crates/models/src/{document,entity,entity_type,edge_type,data,has_datapoint}.rs)

    [dyn_dp] is what a [&mut dyn HasDataPoint] gives access to: the embedded
    data point and the owned children. *)

From S2P Require Import Prelude Text Json DataPoint.
From Stdlib Require Import QArith.

Record Document := {
  doc_base : DataPoint;
  doc_document_type : string;
  doc_name : string;
  doc_raw_data_location : string;
  doc_mime_type : string;
  doc_extension : string;
  doc_data_id : uuid;
  doc_external_metadata : option string;
}.

Definition doc_id (d : Document) : uuid := dp_id (doc_base d).

Record Entity := {
  ent_base : DataPoint;
  ent_name : string;
  ent_is_a : option uuid;
  ent_description : string;
}.

Record EntityType := {
  et_base : DataPoint;
  et_name : string;
  et_description : string;
}.

Record EdgeType := {
  edge_base : DataPoint;
  edge_relationship_name : string;
  edge_number_of_edges : Z;
}.

(** Timestamps are milliseconds since the epoch. *)
Record Data := {
  data_id : uuid;
  data_name : string;
  data_raw_data_location : string;
  data_original_data_location : string;
  data_extension : string;
  data_mime_type : string;
  data_content_hash : string;
  data_owner_id : uuid;
  data_created_at : Z;
  data_updated_at : option Z;
  data_label : option string;
  data_original_extension : option string;
  data_original_mime_type : option string;
  data_loader_engine : option string;
  data_raw_content_hash : option string;
  data_tenant_id : option uuid;
  data_external_metadata : option string;
  data_node_set : option string;
  data_pipeline_status : option string;
  data_token_count : Z;
  data_data_size : Z;
  data_last_accessed : option Z;
  data_importance_weight : option Q;
  data_dataset_id : option uuid;
  data_legacy_id : option uuid;
}.

(** ** [HasDataPoint] *)

Inductive dyn_dp := Dyn (dp : DataPoint) (children : list dyn_dp).

Definition dyn_point (t : dyn_dp) : DataPoint := let '(Dyn dp _) := t in dp.

Section dyn_dp_ind.
Context (P : dyn_dp → Prop) (H : ∀ dp cs, Forall P cs → P (Dyn dp cs)).

Fixpoint dyn_dp_ind' (t : dyn_dp) : P t :=
  let '(Dyn dp cs) := t in
  H dp cs ((fix go cs : Forall P cs :=
    match cs with
    | [] => List.Forall_nil P
    | c :: cs => List.Forall_cons P c cs (dyn_dp_ind' c) (go cs)
    end) cs).
End dyn_dp_ind.

(** The nodes of a tree, in the order they are visited. *)
Fixpoint nodes (t : dyn_dp) : list DataPoint :=
  let '(Dyn dp cs) := t in dp :: concat (map nodes cs).

Definition tree_ids (t : dyn_dp) : list uuid := map dp_id (nodes t).

(** The trait: [data_point] reads the embedded point, [with_data_point] is what
    an assignment through [data_point_mut] does to the container, and
    [children]/[with_children] are the owned children that
    [for_each_child_mut] visits in place. *)
Class HasDataPoint (T : Type) := {
  data_point : T → DataPoint;
  with_data_point : DataPoint → T → T;
  children : T → list dyn_dp;
  with_children : list dyn_dp → T → T;
}.

Definition as_dyn `{HasDataPoint T} (x : T) : dyn_dp := Dyn (data_point x) (children x).

Definition write_dyn `{HasDataPoint T} (t : dyn_dp) (x : T) : T :=
  let '(Dyn dp cs) := t in with_children cs (with_data_point dp x).

(** The laws a container owes its clients: what is written is read back. *)
Class HasDataPointLaws T `{HasDataPoint T} := {
  write_read : ∀ (x : T) dp cs,
    length cs = length (children x) → as_dyn (write_dyn (Dyn dp cs) x) = Dyn dp cs;
  read_write : ∀ x : T, write_dyn (as_dyn x) x = x;
}.

(** Every container of [cognee-models] keeps the default [for_each_child_mut]:
    it owns no other data point. *)
#[export] Instance Document_has_data_point : HasDataPoint Document := {|
  data_point := doc_base;
  with_data_point dp d := {|
    doc_base := dp;
    doc_document_type := doc_document_type d;
    doc_name := doc_name d;
    doc_raw_data_location := doc_raw_data_location d;
    doc_mime_type := doc_mime_type d;
    doc_extension := doc_extension d;
    doc_data_id := doc_data_id d;
    doc_external_metadata := doc_external_metadata d |};
  children _ := [];
  with_children _ d := d;
|}.

#[export] Instance DocumentChunk_has_data_point : HasDataPoint DocumentChunk := {|
  data_point := dc_base;
  with_data_point dp c := {|
    dc_base := dp;
    dc_text := dc_text c;
    dc_name := dc_name c;
    dc_chunk_size := dc_chunk_size c;
    dc_chunk_index := dc_chunk_index c;
    dc_cut_type := dc_cut_type c;
    dc_document_id := dc_document_id c;
    dc_is_part_of := dc_is_part_of c;
    dc_contains := dc_contains c |};
  children _ := [];
  with_children _ c := c;
|}.

#[export] Instance Entity_has_data_point : HasDataPoint Entity := {|
  data_point := ent_base;
  with_data_point dp e := {|
    ent_base := dp;
    ent_name := ent_name e;
    ent_is_a := ent_is_a e;
    ent_description := ent_description e |};
  children _ := [];
  with_children _ e := e;
|}.

#[export] Instance EntityType_has_data_point : HasDataPoint EntityType := {|
  data_point := et_base;
  with_data_point dp e := {|
    et_base := dp;
    et_name := et_name e;
    et_description := et_description e |};
  children _ := [];
  with_children _ e := e;
|}.

#[export] Instance EdgeType_has_data_point : HasDataPoint EdgeType := {|
  data_point := edge_base;
  with_data_point dp e := {|
    edge_base := dp;
    edge_relationship_name := edge_relationship_name e;
    edge_number_of_edges := edge_number_of_edges e |};
  children _ := [];
  with_children _ e := e;
|}.

#[export] Instance dyn_has_data_point : HasDataPoint dyn_dp := {|
  data_point t := let '(Dyn dp _) := t in dp;
  with_data_point dp t := let '(Dyn _ cs) := t in Dyn dp cs;
  children t := let '(Dyn _ cs) := t in cs;
  with_children cs t := let '(Dyn dp _) := t in Dyn dp cs;
|}.

Ltac solve_laws := split; [by intros [] ? []| by intros []].

#[export] Instance Document_laws : HasDataPointLaws Document.
Proof. solve_laws. Qed.
#[export] Instance DocumentChunk_laws : HasDataPointLaws DocumentChunk.
Proof. solve_laws. Qed.
#[export] Instance Entity_laws : HasDataPointLaws Entity.
Proof. solve_laws. Qed.
#[export] Instance EntityType_laws : HasDataPointLaws EntityType.
Proof. solve_laws. Qed.
#[export] Instance EdgeType_laws : HasDataPointLaws EdgeType.
Proof. solve_laws. Qed.
#[export] Instance dyn_laws : HasDataPointLaws dyn_dp.
Proof. split; by intros []. Qed.
