(* ===== verification/Provenance.v ===== *)
(** * Provenance stamping (crates/core/src/provenance.rs)

    [stamp_tree] writes where a data point comes from into the point itself and
    its owned children.  The visited set, keyed by id, is threaded through. *)

From S2P Require Import Prelude Text Json DataPoint Models.
From Stdlib Require Import QArith.
Local Open Scope Z_scope.

Record ProvenanceContext := {
  pc_pipeline_name : string;
  pc_task_name : string;
  pc_user_label : option string;
  pc_node_set : option string;
  pc_content_hash : option string;
  pc_task_rank : option Z;
}.

(** Overwrites the six provenance fields. *)
Definition dp_with_sources (pipeline task user node_set hash : option string) (rank : option Z)
    (dp : DataPoint) : DataPoint := {|
  dp_id := dp_id dp;
  dp_created_at := dp_created_at dp;
  dp_updated_at := dp_updated_at dp;
  dp_ontology_valid := dp_ontology_valid dp;
  dp_version := dp_version dp;
  dp_topological_rank := rank;
  dp_metadata := dp_metadata dp;
  dp_data_type := dp_data_type dp;
  dp_belongs_to_set := dp_belongs_to_set dp;
  dp_source_pipeline := pipeline;
  dp_source_task := task;
  dp_source_node_set := node_set;
  dp_source_user := user;
  dp_source_content_hash := hash;
  dp_feedback_weight := dp_feedback_weight dp;
  dp_importance_weight := dp_importance_weight dp;
|}.

(** [if field.is_none() { field = default }] *)
Definition or_default {A} (field default : option A) : option A :=
  match field with Some v => Some v | None => default end.

(** The rank write: only while the field is [None] or the unset mark [Some(0)],
    and only by a positive rank. *)
Definition stamp_rank (task_rank current : option Z) : option Z :=
  match task_rank with
  | Some rank =>
      if (0 <? rank) && (match current with None => true | Some r => r =? 0 end)
      then Some rank else current
  | None => current
  end.

Definition stamp_point (ctx : ProvenanceContext) (dp : DataPoint) : DataPoint :=
  dp_with_sources
    (or_default (dp_source_pipeline dp) (Some (pc_pipeline_name ctx)))
    (or_default (dp_source_task dp) (Some (pc_task_name ctx)))
    (or_default (dp_source_user dp) (pc_user_label ctx))
    (or_default (dp_source_node_set dp) (pc_node_set ctx))
    (or_default (dp_source_content_hash dp) (pc_content_hash ctx))
    (stamp_rank (pc_task_rank ctx) (dp_topological_rank dp))
    dp.

(** The context of the children: the node's own node set and content hash, if it
    has them, replace the inherited ones. *)
Definition child_ctx (ctx : ProvenanceContext) (dp : DataPoint) : ProvenanceContext := {|
  pc_pipeline_name := pc_pipeline_name ctx;
  pc_task_name := pc_task_name ctx;
  pc_user_label := pc_user_label ctx;
  pc_node_set := or_default (dp_source_node_set dp) (pc_node_set ctx);
  pc_content_hash := or_default (dp_source_content_hash dp) (pc_content_hash ctx);
  pc_task_rank := pc_task_rank ctx;
|}.

(** A traversal that updates every element in place and threads a state. *)
Section visit.
Context {A S : Type} (f : A → S → A * S).

Fixpoint visit (l : list A) (s : S) : list A * S :=
  match l with
  | [] => ([], s)
  | x :: l =>
      let '(x', s1) := f x s in
      let '(l', s2) := visit l s1 in
      (x' :: l', s2)
  end.
End visit.

(** [stamp_tree] *)
Fixpoint stamp_tree (ctx : ProvenanceContext) (root : dyn_dp) (visited : gset uuid)
    : dyn_dp * gset uuid :=
  let '(Dyn dp cs) := root in
  if decide (dp_id dp ∈ visited) then (root, visited)
  else
    let visited := {[dp_id dp]} ∪ visited in
    let '(cs', visited) := visit (stamp_tree (child_ctx ctx dp)) cs visited in
    (Dyn (stamp_point ctx dp) cs', visited).

(** [stamp_tree] called on a typed container. *)
Definition stamp_container `{HasDataPoint T} (ctx : ProvenanceContext) (x : T)
    (visited : gset uuid) : T * gset uuid :=
  let '(t, visited) := stamp_tree ctx (as_dyn x) visited in (write_dyn t x, visited).

(** ** Type-erased values

    The concrete types a [dyn Value] is downcast to anywhere in the executor;
    [VOther] is a value of any other type. *)
Inductive Value :=
  | VDocument (d : Document)
  | VDocumentChunk (c : DocumentChunk)
  | VEntity (e : Entity)
  | VEntityType (e : EntityType)
  | VEdgeType (e : EdgeType)
  | VDocuments (l : list Document)
  | VDocumentChunks (l : list DocumentChunk)
  | VEntities (l : list Entity)
  | VEntityTypes (l : list EntityType)
  | VEdgeTypes (l : list EdgeType)
  | VData (d : Data)
  | VTaggedMeta (value : Value) (node_set : option string)
  | VDropped
  | VPassthrough
  | VOther (n : N).

(** [downcast_to_datapoint] *)
Definition downcast_to_datapoint (v : Value) : option DataPoint :=
  match v with
  | VDocument d => Some (doc_base d)
  | VDocumentChunk c => Some (dc_base c)
  | VEntity e => Some (ent_base e)
  | VEntityType e => Some (et_base e)
  | VEdgeType e => Some (edge_base e)
  | _ => None
  end.

(** [extract_node_set_from_value] *)
Definition extract_node_set_from_value (v : Value) : option string :=
  dp ← downcast_to_datapoint v; dp_source_node_set dp.

(** [extract_content_hash_from_value] *)
Definition extract_content_hash_from_value (v : Value) : option string :=
  match v with
  | VData d =>
      if bool_decide (data_content_hash d = "")
      then dp ← downcast_to_datapoint v; dp_source_content_hash dp
      else Some (data_content_hash d)
  | _ => dp ← downcast_to_datapoint v; dp_source_content_hash dp
  end.

(** [stamp_tree_dyn]: the value, the visited set and whether the type was
    recognised. *)
Definition stamp_tree_dyn (v : Value) (ctx : ProvenanceContext) (visited : gset uuid)
    : Value * gset uuid * bool :=
  match v with
  | VDocument d => let '(d, vis) := stamp_container ctx d visited in (VDocument d, vis, true)
  | VDocumentChunk c => let '(c, vis) := stamp_container ctx c visited in (VDocumentChunk c, vis, true)
  | VEntity e => let '(e, vis) := stamp_container ctx e visited in (VEntity e, vis, true)
  | VEntityType e => let '(e, vis) := stamp_container ctx e visited in (VEntityType e, vis, true)
  | VEdgeType e => let '(e, vis) := stamp_container ctx e visited in (VEdgeType e, vis, true)
  | VDocuments l => let '(l, vis) := visit (stamp_container ctx) l visited in (VDocuments l, vis, true)
  | VDocumentChunks l =>
      let '(l, vis) := visit (stamp_container ctx) l visited in (VDocumentChunks l, vis, true)
  | VEntities l => let '(l, vis) := visit (stamp_container ctx) l visited in (VEntities l, vis, true)
  | VEntityTypes l =>
      let '(l, vis) := visit (stamp_container ctx) l visited in (VEntityTypes l, vis, true)
  | VEdgeTypes l => let '(l, vis) := visit (stamp_container ctx) l visited in (VEdgeTypes l, vis, true)
  | _ => (v, visited, false)
  end.

(** ** Specification *)

(** Stamping without sharing: every node is stamped in the context that its
    ancestors leave it. *)
Fixpoint stamped (ctx : ProvenanceContext) (t : dyn_dp) : dyn_dp :=
  let '(Dyn dp cs) := t in Dyn (stamp_point ctx dp) (map (stamped (child_ctx ctx dp)) cs).

(** [dp'] is [dp] with some unset provenance fields filled in: a rank is unset
    when it is [None] or [Some 0]. *)
Record filled_in (dp dp' : DataPoint) : Prop := {
  fi_rest : dp_with_sources (dp_source_pipeline dp) (dp_source_task dp) (dp_source_user dp)
      (dp_source_node_set dp) (dp_source_content_hash dp) (dp_topological_rank dp) dp' = dp;
  fi_pipeline : is_Some (dp_source_pipeline dp) → dp_source_pipeline dp' = dp_source_pipeline dp;
  fi_task : is_Some (dp_source_task dp) → dp_source_task dp' = dp_source_task dp;
  fi_user : is_Some (dp_source_user dp) → dp_source_user dp' = dp_source_user dp;
  fi_node_set : is_Some (dp_source_node_set dp) → dp_source_node_set dp' = dp_source_node_set dp;
  fi_hash : is_Some (dp_source_content_hash dp) →
    dp_source_content_hash dp' = dp_source_content_hash dp;
  fi_rank : ∀ r, dp_topological_rank dp = Some r → r ≠ 0 → dp_topological_rank dp' = Some r;
}.

(** The same tree, some points filled in. *)
Inductive tree_filled_in : dyn_dp → dyn_dp → Prop :=
  | tree_filled dp dp' cs cs' :
      filled_in dp dp' → Forall2 tree_filled_in cs cs' → tree_filled_in (Dyn dp cs) (Dyn dp' cs').

(** ** Lemmas *)

Lemma or_default_some {A} (x y : option A) : is_Some x → or_default x y = x.
Proof. by intros [? ->]. Qed.

Lemma or_default_idemp {A} (x y : option A) : or_default (or_default x y) y = or_default x y.
Proof. by destruct x, y. Qed.

Lemma stamp_rank_idemp r x : stamp_rank r (stamp_rank r x) = stamp_rank r x.
Proof.
  destruct r as [r|]; [|done]. simpl. destruct (0 <? r) eqn:Hr; simpl; [|done].
  destruct x as [x|]; simpl; [destruct (x =? 0) eqn:Hx; simpl; [|by rewrite Hx]|];
    by (replace (r =? 0) with false by lia).
Qed.

Lemma stamp_rank_kept r x n : x = Some n → n ≠ 0 → stamp_rank r x = Some n.
Proof.
  intros -> Hn. destruct r as [r|]; [|done]. simpl.
  replace (n =? 0) with false by lia. by rewrite andb_false_r.
Qed.

Lemma stamp_rank_written r x : 0 < r →
  ∃ n, stamp_rank (Some r) x = Some n ∧ n ≠ 0.
Proof.
  intros Hr. simpl. replace (0 <? r) with true by lia. simpl.
  destruct x as [x|]; [destruct (x =? 0) eqn:Hx|]; eexists; (split; [done|lia]).
Qed.

Lemma filled_in_refl dp : filled_in dp dp.
Proof. split; try done. by destruct dp. Qed.

Lemma stamp_point_filled ctx dp : filled_in dp (stamp_point ctx dp).
Proof.
  split; simpl; try (intros [? H]; rewrite H; done); [by destruct dp|].
  intros r Hr ?. by apply stamp_rank_kept.
Qed.

Lemma stamp_point_idemp ctx dp : stamp_point ctx (stamp_point ctx dp) = stamp_point ctx dp.
Proof.
  unfold stamp_point at 1. simpl. rewrite stamp_rank_idemp, !or_default_idemp.
  unfold stamp_point, dp_with_sources; simpl. f_equal; by destruct (dp_source_pipeline dp), (dp_source_task dp).
Qed.

Lemma child_ctx_stamped ctx dp : child_ctx ctx (stamp_point ctx dp) = child_ctx ctx dp.
Proof. unfold child_ctx. simpl. by rewrite !or_default_idemp. Qed.

Lemma tree_filled_in_refl t : tree_filled_in t t.
Proof.
  induction t as [dp cs IH] using dyn_dp_ind'. constructor; [apply filled_in_refl|].
  induction IH; constructor; auto.
Qed.

Lemma visit_length {A S} (f : A → S → A * S) l s : length (visit f l s).1 = length l.
Proof.
  revert s. induction l as [|x l IH]; intros s; simpl; [done|].
  destruct (f x s) as [x' s1]. specialize (IH s1). destruct (visit f l s1). simpl in *. lia.
Qed.

(** A relation that [f] establishes element-wise, the state only growing. *)
Lemma visit_Forall2 {A S} (f : A → S → A * S) (R : A → A → Prop) l :
  Forall (λ x, ∀ s, R x (f x s).1) l → ∀ s, Forall2 R l (visit f l s).1.
Proof.
  induction 1 as [|x l Hx _ IH]; intros s; simpl; [constructor|].
  specialize (Hx s). destruct (f x s) as [x' s1]. specialize (IH s1).
  destruct (visit f l s1). by constructor.
Qed.

Lemma visit_idemp {A S} (f : A → S → A * S) l :
  Forall (λ x, ∀ s, f (f x s).1 s = f x s) l →
  ∀ s, visit f (visit f l s).1 s = visit f l s.
Proof.
  induction 1 as [|x l Hx _ IH]; intros s; simpl; [done|].
  specialize (Hx s). destruct (f x s) as [x' s1]. specialize (IH s1).
  destruct (visit f l s1) as [l' s2]. simpl in *. by rewrite Hx, IH.
Qed.

Lemma visit_map `{Countable K} {A} (f : A → gset K → A * gset K) (g : A → A) (keys : A → list K) l :
  Forall (λ x, ∀ s, NoDup (keys x) → list_to_set (keys x) ## s →
    f x s = (g x, list_to_set (keys x) ∪ s)) l →
  ∀ s, NoDup (concat (map keys l)) → list_to_set (concat (map keys l)) ## s →
    visit f l s = (map g l, list_to_set (concat (map keys l)) ∪ s).
Proof.
  induction 1 as [|x l Hx _ IH]; intros s Hnd Hs; simpl in *; [by rewrite (left_id_L ∅ (∪))|].
  apply NoDup_app in Hnd as (Hnd1 & Hdisj & Hnd2). rewrite list_to_set_app_L in Hs |- *.
  rewrite Hx by (done || set_solver). rewrite IH; [|done|].
  - f_equal. set_solver.
  - intros k Hk [Hk'%elem_of_list_to_set|?]%elem_of_union; [|set_solver].
    apply elem_of_list_to_set in Hk. by apply (Hdisj k).
Qed.

Lemma stamp_tree_unfold ctx dp cs visited :
  stamp_tree ctx (Dyn dp cs) visited =
    if decide (dp_id dp ∈ visited) then (Dyn dp cs, visited)
    else
      let r := visit (stamp_tree (child_ctx ctx dp)) cs ({[dp_id dp]} ∪ visited) in
      (Dyn (stamp_point ctx dp) r.1, r.2).
Proof. simpl. case_decide; [done|]. by destruct (visit _ _ _). Qed.

Lemma stamp_tree_filled_in t : ∀ ctx visited, tree_filled_in t (stamp_tree ctx t visited).1.
Proof.
  induction t as [dp cs IH] using dyn_dp_ind'. intros ctx visited.
  rewrite stamp_tree_unfold. case_decide; [apply tree_filled_in_refl|].
  constructor; [apply stamp_point_filled|]. apply visit_Forall2.
  eapply Forall_impl; [apply IH|]. auto.
Qed.

Lemma nodes_filled_in t t' : tree_filled_in t t' → Forall2 filled_in (nodes t) (nodes t').
Proof.
  revert t'. induction t as [dp cs IH] using dyn_dp_ind'. inversion 1 as [? dp' ? cs' Hdp Hcs]; subst.
  simpl. constructor; [done|]. clear -IH Hcs. revert cs' Hcs.
  induction IH as [|c cs Hc _ IH]; inversion 1; subst; simpl; [done|].
  apply Forall2_app; auto.
Qed.

Lemma tree_ids_unfold dp cs : tree_ids (Dyn dp cs) = dp_id dp :: concat (map tree_ids cs).
Proof. unfold tree_ids. simpl. by rewrite concat_map, map_map. Qed.

Lemma stamp_tree_stamped t : ∀ ctx visited,
  NoDup (tree_ids t) → list_to_set (tree_ids t) ## visited →
  stamp_tree ctx t visited = (stamped ctx t, list_to_set (tree_ids t) ∪ visited).
Proof.
  induction t as [dp cs IH] using dyn_dp_ind'. intros ctx visited.
  rewrite tree_ids_unfold, stamp_tree_unfold. simpl. intros [Hdp Hnd]%NoDup_cons Hdisj.
  rewrite decide_False by set_solver.
  rewrite (visit_map _ (stamped (child_ctx ctx dp)) tree_ids); simpl.
  - f_equal. set_solver.
  - eapply Forall_impl; [apply IH|]. simpl. auto.
  - done.
  - intros k Hk [->%elem_of_singleton|Hk']%elem_of_union;
      [|apply (Hdisj k); [by apply elem_of_union; right|done]].
    by apply elem_of_list_to_set in Hk.
Qed.

(** Stamping only fills in blanks: whatever the context and the visited
    set, the tree keeps its shape, every point keeps its other fields, and every
    provenance field that was set (a rank other than the unset mark 0) keeps its
    value. *)
Theorem stamp_tree_only_fills ctx t visited :
  tree_filled_in t (stamp_tree ctx t visited).1.
Proof. apply stamp_tree_filled_in. Qed.

(** Stamping is idempotent: a second pass over its own output, from the same
    visited set, changes neither the tree nor the set. *)
Theorem stamp_tree_idempotent t : ∀ ctx visited,
  stamp_tree ctx (stamp_tree ctx t visited).1 visited = stamp_tree ctx t visited.
Proof.
  induction t as [dp cs IH] using dyn_dp_ind'. intros ctx visited.
  rewrite (stamp_tree_unfold ctx dp cs). case_decide as Hv.
  - cbn [fst]. by rewrite stamp_tree_unfold, decide_True.
  - cbv zeta. cbn [fst]. rewrite stamp_tree_unfold, decide_False by done.
    rewrite child_ctx_stamped, stamp_point_idemp. cbv zeta.
    rewrite visit_idemp; [done|]. eapply Forall_impl; [apply IH|]. simpl. auto.
Qed.

(** What a point looks like once a task has stamped it. *)
Definition signed (pipeline task : string) (dp : DataPoint) : Prop :=
  dp_source_pipeline dp = Some pipeline ∧ dp_source_task dp = Some task.

(** The first task wins.  A tree of fresh points with distinct ids, none of
    them visited yet and none stamped, is stamped at every node with the first
    task's name and rank, exactly as [stamped] says without any visited set; the
    stamps survive a later task that stamps the tree again, even with the visited
    set forgotten. *)
Theorem stamp_tree_first_task_wins ctx1 ctx2 t visited visited2 r :
  NoDup (tree_ids t) → list_to_set (tree_ids t) ## visited →
  pc_task_rank ctx1 = Some r → 0 < r →
  Forall (λ dp, dp_source_pipeline dp = None ∧ dp_source_task dp = None
                ∧ dp_topological_rank dp = Some 0) (nodes t) →
  let t1 := (stamp_tree ctx1 t visited).1 in
  t1 = stamped ctx1 t
  ∧ Forall (λ dp, signed (pc_pipeline_name ctx1) (pc_task_name ctx1) dp
                  ∧ dp_topological_rank dp = Some r) (nodes t1)
  ∧ Forall (λ dp, signed (pc_pipeline_name ctx1) (pc_task_name ctx1) dp
                  ∧ dp_topological_rank dp = Some r) (nodes (stamp_tree ctx2 t1 visited2).1).
Proof.
  intros Hnd Hdisj Hr Hpos Hfresh t1.
  assert (Ht1 : t1 = stamped ctx1 t) by (unfold t1; by rewrite stamp_tree_stamped).
  assert (Hnodes : Forall (λ dp, signed (pc_pipeline_name ctx1) (pc_task_name ctx1) dp
                    ∧ dp_topological_rank dp = Some r) (nodes t1)).
  { rewrite Ht1. clear -Hr Hpos Hfresh. revert ctx1 Hr.
    induction t as [dp cs IH] using dyn_dp_ind'. intros ctx Hr. simpl in *.
    apply Forall_cons in Hfresh as [(Hp & Ht & Hrk) Hcs]. constructor.
    - unfold signed, stamp_point; simpl. rewrite Hp, Ht, Hrk, Hr. simpl.
      by replace (0 <? r) with true by lia.
    - revert Hcs. induction IH as [|c cs Hc _ IH]; simpl; [done|].
      intros [? ?]%Forall_app. apply Forall_app. split; [|by apply IH].
      by apply (Hc ltac:(done) (child_ctx ctx dp)). }
  split; [done|]. split; [done|].
  assert (Hf := nodes_filled_in _ _ (stamp_tree_filled_in t1 ctx2 visited2)).
  clear -Hnodes Hf Hpos. revert Hnodes. induction Hf as [|dp dp' l l' Hdp _ IH]; [done|].
  intros [([Hp Ht] & Hrk) Hl]%Forall_cons. constructor; [|by apply IH].
  destruct Hdp as [_ Hp' Ht' _ _ _ Hrk']. repeat split.
  - by rewrite Hp' by (rewrite Hp; eauto).
  - by rewrite Ht' by (rewrite Ht; eauto).
  - apply Hrk'; [done|lia].
Qed.

Notation example_point id :=
  (dp_with_id id (DataPoint_new (λ _, "") 0%N 0 "Entity" None)).
Notation example_ctx task rank := {|
  pc_pipeline_name := "cognify"; pc_task_name := task; pc_user_label := None;
  pc_node_set := Some "papers"; pc_content_hash := None; pc_task_rank := Some rank |}.
Notation example_tree :=
  (Dyn (example_point 1%N) [Dyn (example_point 2%N) []; Dyn (example_point 3%N) []]).

Lemma stamp_tree_first_task_wins_witness :
  Forall (λ dp, signed "cognify" "extract" dp ∧ dp_topological_rank dp = Some 2)
    (nodes (stamp_tree (example_ctx "add" 5) (stamp_tree (example_ctx "extract" 2) example_tree ∅).1 ∅).1).
Proof.
  apply (stamp_tree_first_task_wins (example_ctx "extract" 2) (example_ctx "add" 5)
           example_tree ∅ ∅ 2).
  - vm_compute. repeat constructor; set_solver.
  - set_solver.
  - reflexivity.
  - lia.
  - repeat constructor.
Defined.

(** The containers' laws carry the tree-level results over to typed values. *)
Lemma stamp_container_tree `{HasDataPointLaws T} ctx (x : T) visited :
  as_dyn (stamp_container ctx x visited).1 = (stamp_tree ctx (as_dyn x) visited).1.
Proof.
  unfold stamp_container. pose proof (stamp_tree_filled_in (as_dyn x) ctx visited) as Hf.
  destruct (stamp_tree ctx (as_dyn x) visited) as [t v]. simpl in *.
  unfold as_dyn in Hf at 1. inversion Hf as [? dp' ? cs' _ Hcs]; subst.
  apply write_read. symmetry. by eapply Forall2_length.
Qed.

(** The type of a value is never changed by stamping, and only a recognised type
    is touched. *)
Lemma stamp_tree_dyn_unrecognised v ctx visited :
  (stamp_tree_dyn v ctx visited).2 = false → (stamp_tree_dyn v ctx visited).1 = (v, visited).
Proof. destruct v; simpl; try done; by repeat case_match. Qed.
