(* ===== verification/Proc.v ===== *)
(** * Asynchronous computations over a shared state

    A [proc W A] is a computation that proceeds by atomic steps on a shared world
    [W] and may be suspended between any two of them: an [async fn] seen from its
    [await] points.  [run] executes one alone, [join_all] interleaves several under
    a schedule the world supplies, and [wp] is a proof rule that holds under every
    interleaving. *)

From S2P Require Import Prelude.

Inductive proc (W A : Type) : Type :=
  | Ret (a : A)
  | Act (upd : W → W) (k : W → proc W A).
Arguments Ret {W A} _.
Arguments Act {W A} _ _.

Section proc.
Context {W : Type}.

Fixpoint bind {A B} (p : proc W A) (f : A → proc W B) : proc W B :=
  match p with
  | Ret a => f a
  | Act upd k => Act upd (λ w, bind (k w) f)
  end.

Definition read {A} (f : W → A) : proc W A := Act (λ w, w) (λ w, Ret (f w)).
Definition modify (f : W → W) : proc W unit := Act f (λ _, Ret tt).
Definition step {A} (f : W → W * A) : proc W A := Act (λ w, (f w).1) (λ w, Ret (f w).2).

(** Executes a computation with no interference. *)
Fixpoint run {A} (p : proc W A) (w : W) : W * A :=
  match p with
  | Ret a => (w, a)
  | Act upd k => run (k w) (upd w)
  end.

Lemma run_bind {A B} (p : proc W A) (f : A → proc W B) w :
  run (bind p f) w = let '(w', a) := run p w in run (f a) w'.
Proof. revert w. induction p as [a|upd k IH]; intros w; simpl; [done|]. apply IH. Qed.
End proc.

(** A computation on a part [S] of the world. *)
Fixpoint zoom {S W A} (get : W → S) (put : S → W → W) (p : proc S A) : proc W A :=
  match p with
  | Ret a => Ret a
  | Act upd k => Act (λ w, put (upd (get w)) w) (λ w, zoom get put (k (get w)))
  end.

Notation "'let!' x ':=' p 'in' k" := (bind p (λ x, k))
  (at level 10, x pattern, p at level 100, k at level 200) : cog_scope.

(** An [async fn] that returns a [Result]; [let?!] is [let x = p.await?; k]. *)
Definition bind_ok {W E A B} (p : proc W (result E A)) (f : A → proc W (result E B))
    : proc W (result E B) :=
  bind p (λ r, match r with Ok a => f a | Err e => Ret (Err e) end).

Notation "'let?!' x ':=' p 'in' k" := (bind_ok p (λ x, k))
  (at level 10, x pattern, p at level 100, k at level 200) : cog_scope.
Notation "p ';!' k" := (bind p (λ _, k)) (at level 60, right associativity) : cog_scope.

(** ** Concurrency

    The schedule is part of the world: [choose] is its next decision, [advance]
    consumes it.  Nothing is assumed of the decisions. *)
Class Scheduler (W : Type) := { choose : W → bool; advance : W → W }.

Section join.
Context {W A : Type} `{Scheduler W} (stop : A → bool).

(** Interleaves [p] with the already joined [q]: whenever both can step, the
    schedule decides.  A computation that ends in [stop] (a panic) ends the
    whole join: the others are dropped where they are. *)
Fixpoint join2 (p : proc W A) : proc W (list A) → proc W (list A) :=
  fix aux (q : proc W (list A)) : proc W (list A) :=
    match p with
    | Ret a =>
        if stop a then Ret [a]
        else bind q (λ l, Ret (if existsb stop l then l else a :: l))
    | Act upd k =>
        match q with
        | Ret l =>
            if existsb stop l then Ret l
            else bind p (λ a, Ret (if stop a then [a] else a :: l))
        | Act upd' k' =>
            Act (λ w, let w' := advance w in if choose w then upd w' else upd' w')
                (λ w, let w' := advance w in if choose w then join2 (k w') q else aux (k' w'))
        end
    end.

(** [futures::future::join_all]: the results, in the order of the arguments. *)
Definition join_all (ps : list (proc W A)) : proc W (list A) := foldr join2 (Ret []) ps.

Lemma join2_unfold p q :
  join2 p q =
    match p, q with
    | Ret a, _ =>
        if stop a then Ret [a]
        else bind q (λ l, Ret (if existsb stop l then l else a :: l))
    | Act _ _, Ret l =>
        if existsb stop l then Ret l
        else bind p (λ a, Ret (if stop a then [a] else a :: l))
    | Act upd k, Act upd' k' =>
        Act (λ w, let w' := advance w in if choose w then upd w' else upd' w')
            (λ w, let w' := advance w in if choose w then join2 (k w') q else join2 p (k' w'))
    end.
Proof. by destruct p, q. Qed.
End join.

(** ** A proof rule

    [wp I Q p]: started in any world that satisfies [I], and with any interference
    that keeps [I] between its steps, [p] keeps [I] and ends with a result in [Q]. *)
Section wp.
Context {W : Type} (I : W → Prop).

Fixpoint wp {A} (Q : A → Prop) (p : proc W A) : Prop :=
  match p with
  | Ret a => Q a
  | Act upd k => ∀ w, I w → I (upd w) ∧ wp Q (k w)
  end.

Lemma wp_run {A} (Q : A → Prop) p w : wp Q p → I w → I (run p w).1 ∧ Q (run p w).2.
Proof.
  revert w. induction p as [a|upd k IH]; intros w; simpl; [done|].
  intros Hp Hw. destruct (Hp w Hw). by apply IH.
Qed.

Lemma wp_mono {A} (Q R : A → Prop) p : wp Q p → (∀ a, Q a → R a) → wp R p.
Proof.
  intros Hp HQR. induction p as [a|upd k IH]; simpl in *; [auto|].
  intros w Hw. destruct (Hp w Hw). split; auto.
Qed.

Lemma wp_bind {A B} (Q : B → Prop) (p : proc W A) f :
  wp (λ a, wp Q (f a)) p → wp Q (bind p f).
Proof.
  induction p as [a|upd k IH]; simpl; [done|]. intros Hp w Hw. destruct (Hp w Hw). auto.
Qed.

Lemma wp_bind_post {A B} (Q : B → Prop) (R : A → Prop) (p : proc W A) f :
  wp R p → (∀ a, R a → wp Q (f a)) → wp Q (bind p f).
Proof. intros Hp Hf. apply wp_bind. by eapply wp_mono. Qed.

(** The rule of [let?!]: an error is the result. *)
Lemma wp_bind_ok {E A B} (Q : result E B → Prop) (p : proc W (result E A)) f :
  wp (λ r, match r with Ok a => wp Q (f a) | Err e => Q (Err e) end) p → wp Q (bind_ok p f).
Proof. intros Hp. apply wp_bind. eapply wp_mono; [done|]. by intros [a|e]. Qed.

Lemma wp_modify f : (∀ w, I w → I (f w)) → wp (λ _, True) (modify f).
Proof. simpl. auto. Qed.

Lemma wp_read {A} (Q : A → Prop) f : (∀ w, I w → Q (f w)) → wp Q (read f).
Proof. simpl. auto. Qed.

Lemma wp_step {A} (Q : A → Prop) (f : W → W * A) :
  (∀ w, I w → I (f w).1 ∧ Q (f w).2) → wp Q (step f).
Proof. simpl. auto. Qed.

(** Concurrent computations keep what each of them keeps: every result
    satisfies its own postcondition, unless one of them stopped the join. *)
Context `{Scheduler W} (Hadv : ∀ w, I w → I (advance w)).

Definition joined {A} (stop : A → bool) (Qs : list (A → Prop)) (l : list A) : Prop :=
  if existsb stop l then ∃ a, l = [a] ∧ Exists (λ Q, Q a) Qs
  else Forall2 (λ Q a, Q a) Qs l.

Lemma wp_join2 {A} (stop : A → bool) (Q : A → Prop) Qs p : wp Q p → ∀ q,
  wp (joined stop Qs) q → wp (joined stop (Q :: Qs)) (join2 stop p q).
Proof.
  assert (Hq : ∀ a, Q a → stop a = false → ∀ q : proc W (list A), wp (joined stop Qs) q →
    wp (joined stop (Q :: Qs)) (bind q (λ l, Ret (if existsb stop l then l else a :: l)))).
  { intros a Ha Hs q Hq. eapply wp_bind_post; [done|]. intros l. unfold joined. simpl.
    destruct (existsb stop l) eqn:Hl; [rewrite Hl|simpl; rewrite Hs, Hl; simpl].
    - intros (b & -> & Hb). eauto.
    - intros Hl'. by constructor. }
  induction p as [a|upd k IH]; intros Hp q; simpl in Hp.
  - intros Hw. rewrite join2_unfold. destruct (stop a) eqn:Hs.
    + simpl. unfold joined. simpl. rewrite Hs. simpl. eauto.
    + by apply Hq.
  - induction q as [l|upd' k' IHq]; intros Hw; rewrite join2_unfold.
    + simpl in Hw. destruct (existsb stop l) eqn:Hl.
      * simpl. unfold joined in *. rewrite Hl in *. destruct Hw as (b & -> & Hb). eauto.
      * eapply wp_bind_post with (R := Q); [done|]. intros a Ha. simpl. unfold joined in *.
        rewrite Hl in Hw. destruct (stop a) eqn:Hs; simpl; rewrite Hs; simpl; [eauto|].
        rewrite Hl. by constructor.
    + cbn [wp]. intros w Hi. simpl in Hw. cbv zeta. specialize (Hadv w Hi).
      destruct (Hp _ Hadv) as [? Hk]. destruct (Hw _ Hadv) as [? Hk'].
      destruct (choose w); (split; [done|]); [by apply IH|by apply IHq].
Qed.

Lemma wp_join_all {A} (stop : A → bool) Qs (ps : list (proc W A)) :
  Forall2 (λ Q p, wp Q p) Qs ps → wp (joined stop Qs) (join_all stop ps).
Proof.
  induction 1 as [|Q p Qs ps Hp _ IH]; simpl; [by constructor|]. by apply wp_join2.
Qed.

Lemma wp_join_map {A B} (stop : A → bool) (f : B → proc W A) (Q : B → A → Prop) l :
  (∀ b, wp (Q b) (f b)) → wp (joined stop (map Q l)) (join_all stop (map f l)).
Proof. intros Hf. apply wp_join_all. induction l; simpl; constructor; auto. Qed.
End wp.

(** A computation on a part of the world is reasoned about on that part. *)
Lemma wp_zoom {S W A} (I : W → Prop) (J : S → Prop) (get : W → S) put (Q : A → Prop)
    (p : proc S A) :
  (∀ w, I w → J (get w)) → (∀ w s, I w → J s → I (put s w)) →
  wp J Q p → wp I Q (zoom get put p).
Proof.
  intros Hget Hput. induction p as [a|upd k IH]; simpl; [done|].
  intros Hp w Hw. destruct (Hp (get w) (Hget w Hw)). split; [by apply Hput|]. auto.
Qed.

(** Any computation keeps the trivial invariant. *)
Lemma wp_True {W A} (p : proc W A) : wp (λ _, True) (λ _, True) p.
Proof. induction p; simpl; auto. Qed.
