(* ===== verification/Task.v ===== *)
(** * Tasks (crates/core/src/task.rs, task_context.rs, sentinels.rs)

    Task closures are arbitrary code: they are arguments of the model.  A closure
    acts on a state [S] of its own (whatever the outside world is to it), in one
    step when it is synchronous, as a [proc] when it is a future. *)

From S2P Require Import Prelude Text Json DataPoint Models Provenance Proc.
Local Open Scope cog_scope.

(** A boxed error, as the message it displays. *)
Notation TaskError := string (only parsing).

(** [is_dropped], [is_passthrough] *)
Definition is_dropped (v : Value) : bool := match v with VDropped => true | _ => false end.
Definition is_passthrough (v : Value) : bool := match v with VPassthrough => true | _ => false end.

(** ** Context *)

(** A progress token: the run's own, or the subtoken split off for a task. *)
Inductive ProgressToken := RootProgress | TaskProgress (task_index : nat).

Record PipelineContext := {
  pctx_pipeline_id : uuid;
  pctx_pipeline_name : string;
  pctx_user_id : option uuid;
  pctx_tenant_id : option uuid;
  pctx_dataset_id : option uuid;
  pctx_current_data : option Value;
  pctx_run_id : option uuid;
  pctx_user_email : option string;
}.

(** What a task sees of its run.  [tc_dataset_scope] is the task-local that
    [dataset_scope::with_dataset] sets. *)
Record TaskContext := {
  tc_progress : ProgressToken;
  tc_pipeline_ctx : option PipelineContext;
  tc_dataset_scope : option uuid;
}.

(** [PipelineContext::user_label] *)
Definition user_label (uuid_to_string : uuid → string) (p : PipelineContext) : option string :=
  match pctx_user_email p with
  | Some email => Some email
  | None => uuid_to_string <$> pctx_user_id p
  end.

(** [TaskContext::with_progress] *)
Definition with_progress (progress : ProgressToken) (ctx : TaskContext) : TaskContext :=
  {| tc_progress := progress;
     tc_pipeline_ctx := tc_pipeline_ctx ctx;
     tc_dataset_scope := tc_dataset_scope ctx |}.

(** [TaskContext::with_current_data] *)
Definition with_current_data (data : Value) (ctx : TaskContext) : TaskContext :=
  match tc_pipeline_ctx ctx with
  | None => ctx
  | Some p =>
      {| tc_progress := tc_progress ctx;
         tc_pipeline_ctx := Some {|
           pctx_pipeline_id := pctx_pipeline_id p;
           pctx_pipeline_name := pctx_pipeline_name p;
           pctx_user_id := pctx_user_id p;
           pctx_tenant_id := pctx_tenant_id p;
           pctx_dataset_id := pctx_dataset_id p;
           pctx_current_data := Some data;
           pctx_run_id := pctx_run_id p;
           pctx_user_email := pctx_user_email p |};
         tc_dataset_scope := tc_dataset_scope ctx |}
  end.

(** [TaskContext::with_run_id] *)
Definition with_run_id (run_id : uuid) (ctx : TaskContext) : TaskContext :=
  match tc_pipeline_ctx ctx with
  | None => ctx
  | Some p =>
      {| tc_progress := tc_progress ctx;
         tc_pipeline_ctx := Some {|
           pctx_pipeline_id := pctx_pipeline_id p;
           pctx_pipeline_name := pctx_pipeline_name p;
           pctx_user_id := pctx_user_id p;
           pctx_tenant_id := pctx_tenant_id p;
           pctx_dataset_id := pctx_dataset_id p;
           pctx_current_data := pctx_current_data p;
           pctx_run_id := Some run_id;
           pctx_user_email := pctx_user_email p |};
         tc_dataset_scope := tc_dataset_scope ctx |}
  end.

(** [dataset_scope::with_dataset(id, fut)]: the scope [fut] runs in. *)
Definition with_dataset (id : uuid) (ctx : TaskContext) : TaskContext :=
  {| tc_progress := tc_progress ctx;
     tc_pipeline_ctx := tc_pipeline_ctx ctx;
     tc_dataset_scope := Some id |}.

(** ** Task outputs *)

(** An [Arc<dyn Value>] a task returns: the value, and whether somebody else still
    holds the allocation (then [Arc::get_mut] refuses). *)
Record arc := { arc_value : Value; arc_shared : bool }.

(** A producer of items: finished, an item followed by more, or some work before
    the next.  A [ValueIter] yields values; a [ValueStream] yields results. *)
Inductive source (S I : Type) : Type :=
  | SDone
  | SItem (i : I) (rest : source S I)
  | SWork (upd : S → S) (k : S → source S I).
Arguments SDone {S I}.
Arguments SItem {S I} _ _.
Arguments SWork {S I} _ _.

Section task.
Context {S : Type}.

Notation ValueIter := (source S Value).
Notation ValueStream := (source S (result TaskError Value)).

Inductive Task :=
  | Sync (f : Value → TaskContext → S → S * result TaskError arc)
  | Async (f : Value → TaskContext → proc S (result TaskError arc))
  | SyncIter (f : Value → TaskContext → S → S * result TaskError ValueIter)
  | AsyncStream (f : Value → TaskContext → S → S * result TaskError ValueStream)
  | SyncBatch (f : list Value → TaskContext → S → S * result TaskError arc)
  | AsyncBatch (f : list Value → TaskContext → proc S (result TaskError arc))
  | SyncIterBatch (f : list Value → TaskContext → S → S * result TaskError ValueIter)
  | AsyncStreamBatch (f : list Value → TaskContext → S → S * result TaskError ValueStream).

Definition is_batch (t : Task) : bool :=
  match t with
  | SyncBatch _ | AsyncBatch _ | SyncIterBatch _ | AsyncStreamBatch _ => true
  | _ => false
  end.

(** [Task::python_task_type] *)
Definition python_task_type (t : Task) : string :=
  match t with
  | Sync _ | SyncBatch _ => "Function"
  | Async _ | AsyncBatch _ => "Coroutine"
  | SyncIter _ | SyncIterBatch _ => "Generator"
  | AsyncStream _ | AsyncStreamBatch _ => "Async Generator"
  end.

Inductive TaskCall :=
  | CallSync (r : result TaskError arc)
  | CallAsync (fut : proc S (result TaskError arc))
  | CallSyncIter (r : result TaskError ValueIter)
  | CallAsyncStream (r : result TaskError ValueStream).

(** [Task::call]; [None] is the panic on a batch variant. *)
Definition call (t : Task) (input : Value) (ctx : TaskContext) (s : S) : S * option TaskCall :=
  match t with
  | Sync f => let '(s, r) := f input ctx s in (s, Some (CallSync r))
  | Async f => (s, Some (CallAsync (f input ctx)))
  | SyncIter f => let '(s, r) := f input ctx s in (s, Some (CallSyncIter r))
  | AsyncStream f => let '(s, r) := f input ctx s in (s, Some (CallAsyncStream r))
  | SyncBatch _ | AsyncBatch _ | SyncIterBatch _ | AsyncStreamBatch _ => (s, None)
  end.

(** [Task::call_batch]; [None] is the panic on a single-value variant. *)
Definition call_batch (t : Task) (items : list Value) (ctx : TaskContext) (s : S)
    : S * option TaskCall :=
  match t with
  | SyncBatch f => let '(s, r) := f items ctx s in (s, Some (CallSync r))
  | AsyncBatch f => (s, Some (CallAsync (f items ctx)))
  | SyncIterBatch f => let '(s, r) := f items ctx s in (s, Some (CallSyncIter r))
  | AsyncStreamBatch f => let '(s, r) := f items ctx s in (s, Some (CallAsyncStream r))
  | Sync _ | Async _ | SyncIter _ | AsyncStream _ => (s, None)
  end.

Inductive Resolved :=
  | RSingle (v : arc)
  | RIter (iter : ValueIter)
  | RStream (stream : ValueStream).

(** [resolve_call] *)
Definition resolve_call (c : TaskCall) : proc S (result TaskError Resolved) :=
  match c with
  | CallSync r => Ret (result_map RSingle r)
  | CallAsync fut => let! r := fut in Ret (result_map RSingle r)
  | CallSyncIter r => Ret (result_map RIter r)
  | CallAsyncStream r => Ret (result_map RStream r)
  end.

(** ** [TaskInfo]

    [ti_rate_limiter] is the limiter's [acquire]. *)
Record TaskInfo := {
  ti_task : Task;
  ti_name : option string;
  ti_batch_size : option nat;
  ti_summary_template : option string;
  ti_weight : N;
  ti_enriches : bool;
  ti_rate_limiter : option (proc S unit);
}.

(** [TaskInfo::new] *)
Definition TaskInfo_new (t : Task) : TaskInfo :=
  {| ti_task := t; ti_name := None; ti_batch_size := None; ti_summary_template := None;
     ti_weight := 1%N; ti_enriches := false; ti_rate_limiter := None |}.

(** The builder methods of [TaskInfo]; [with_batch_size(0)] panics. *)
Definition ti_with_name (name : string) (i : TaskInfo) : TaskInfo :=
  {| ti_task := ti_task i; ti_name := Some name; ti_batch_size := ti_batch_size i;
     ti_summary_template := ti_summary_template i; ti_weight := ti_weight i;
     ti_enriches := ti_enriches i; ti_rate_limiter := ti_rate_limiter i |}.

Definition ti_with_batch_size (size : nat) (i : TaskInfo) : option TaskInfo :=
  if decide (0 < size) then
    Some {| ti_task := ti_task i; ti_name := ti_name i; ti_batch_size := Some size;
            ti_summary_template := ti_summary_template i; ti_weight := ti_weight i;
            ti_enriches := ti_enriches i; ti_rate_limiter := ti_rate_limiter i |}
  else None.

Definition ti_with_weight (weight : N) (i : TaskInfo) : TaskInfo :=
  {| ti_task := ti_task i; ti_name := ti_name i; ti_batch_size := ti_batch_size i;
     ti_summary_template := ti_summary_template i; ti_weight := weight;
     ti_enriches := ti_enriches i; ti_rate_limiter := ti_rate_limiter i |}.

Definition ti_with_enriches (i : TaskInfo) : TaskInfo :=
  {| ti_task := ti_task i; ti_name := ti_name i; ti_batch_size := ti_batch_size i;
     ti_summary_template := ti_summary_template i; ti_weight := ti_weight i;
     ti_enriches := true; ti_rate_limiter := ti_rate_limiter i |}.

Definition ti_with_rate_limiter (rl : proc S unit) (i : TaskInfo) : TaskInfo :=
  {| ti_task := ti_task i; ti_name := ti_name i; ti_batch_size := ti_batch_size i;
     ti_summary_template := ti_summary_template i; ti_weight := ti_weight i;
     ti_enriches := ti_enriches i; ti_rate_limiter := Some rl |}.
End task.
Arguments Task : clear implicits.
Arguments TaskCall : clear implicits.
Arguments Resolved : clear implicits.
Arguments TaskInfo : clear implicits.
Notation ValueIter S := (source S Value).
Notation ValueStream S := (source S (result TaskError Value)).
