(* ===== verification/Pipeline.v ===== *)
(** * The pipeline executor (crates/core/src/pipeline.rs)

    The definitions follow the functions of the source one by one.  An [async fn]
    is a [proc] over the run's [world]; a fallible one returns a [result] whose
    error is an [exn]: an [ExecutionError], or a panic unwinding. *)

From S2P Require Import Prelude Text Json DataPoint Models Provenance Proc Task.
From Stdlib Require Import ZArith.
Local Open Scope cog_scope.

(** ** Retry policy *)

(** A [Duration], in nanoseconds. *)
Notation Duration := N (only parsing).
Definition DURATION_MAX : N := ((2 ^ 64 - 1) * 1000000000 + 999999999)%N.
Definition u32_MAX : N := (2 ^ 32 - 1)%N.

(** [u32::checked_pow] *)
Definition checked_pow (base exp : N) : option N :=
  let r := (base ^ exp)%N in if (r <=? u32_MAX)%N then Some r else None.

(** [Duration * u32]; [None] is the overflow panic. *)
Definition duration_mul (d : Duration) (n : N) : option Duration :=
  let r := (d * n)%N in if (r <=? DURATION_MAX)%N then Some r else None.

Inductive RetryDelay :=
  | Constant (d : Duration)
  | Exponential (base : Duration) (factor : N).

Definition exponential (base : Duration) : RetryDelay := Exponential base 2.

Inductive RetryPolicy :=
  | NoRetry
  | Limited (max_attempts : positive) (delay : RetryDelay).

(** [RetryPolicy::max_attempts] *)
Definition max_attempts (p : RetryPolicy) : nat :=
  match p with NoRetry => 1 | Limited n _ => Pos.to_nat n end.

(** [RetryDelay::compute] *)
Definition compute (d : RetryDelay) (retry_index : nat) : option Duration :=
  match d with
  | Constant d => Some d
  | Exponential base factor =>
      duration_mul base (default u32_MAX (checked_pow factor (N.of_nat retry_index)))
  end.

(** [RetryPolicy::delay]; the inner option is [compute]'s panic. *)
Definition delay (p : RetryPolicy) (retry_index : nat) : option (option Duration) :=
  match p with NoRetry => None | Limited _ d => Some (compute d retry_index) end.

(** ** Runs, their status and their errors *)

Notation DataIdFn := (Value → option string).

Inductive PipelineRunStatus := Started | Completed | Errored.

(** [Display] *)
Definition PipelineRunStatus_to_string (s : PipelineRunStatus) : string :=
  match s with Started => "STARTED" | Completed => "COMPLETED" | Errored => "ERRORED" end.

(** Times are milliseconds since the epoch. *)
Record PipelineRunInfo := {
  ri_run_id : uuid;
  ri_pipeline_id : uuid;
  ri_pipeline_name : string;
  ri_user_id : option uuid;
  ri_tenant_id : option uuid;
  ri_dataset_id : option uuid;
  ri_status : PipelineRunStatus;
  ri_started_at : Z;
  ri_completed_at : option Z;
  ri_recovery_lock : option uuid;
}.

(** [run_info.status = status; run_info.completed_at = Some(now)] *)
Definition ri_finish (status : PipelineRunStatus) (now : Z) (r : PipelineRunInfo)
    : PipelineRunInfo := {|
  ri_run_id := ri_run_id r;
  ri_pipeline_id := ri_pipeline_id r;
  ri_pipeline_name := ri_pipeline_name r;
  ri_user_id := ri_user_id r;
  ri_tenant_id := ri_tenant_id r;
  ri_dataset_id := ri_dataset_id r;
  ri_status := status;
  ri_started_at := ri_started_at r;
  ri_completed_at := Some now;
  ri_recovery_lock := ri_recovery_lock r;
|}.

Inductive TaskStatus :=
  | TsStarted
  | TsRetrying (attempt : nat) (error : string)
  | TsSucceeded
  | TsFailed (attempts : nat) (error : string).

Inductive PipelineStatus :=
  | PsStarted (task_count : nat)
  | PsSucceeded (output_count : nat)
  | PsFailed (task_index : nat) (error : string)
  | PsCancelled
  | PsItemSkipped (data_id : string).

Inductive ExecutionError :=
  | TaskFailed (task_index attempts : nat) (source : TaskError)
  | Cancelled
  | NoTasks
  | InvalidConfig (reason : string)
  | RunRecordFailed (reason : string).

(** [Display] *)
Definition ExecutionError_to_string (e : ExecutionError) : string :=
  match e with
  | TaskFailed task_index attempts source =>
      "task " +:+ pretty task_index +:+ " failed after " +:+ pretty attempts +:+
      " attempt(s): " +:+ source
  | Cancelled => "pipeline was cancelled"
  | NoTasks => "pipeline has no tasks"
  | InvalidConfig reason => "invalid pipeline configuration: " +:+ reason
  | RunRecordFailed reason => "the run's COMPLETED record could not be written: " +:+ reason
  end.

Inductive exn := Throw (e : ExecutionError) | Panicked.

(** ** Interfaces to the run's collaborators *)

(** What the executor asks of the [CancellationToken]. *)
Class Cancellation (S : Type) := { is_cancelled : S → bool }.

(** The trait [ExecStatusManager] (exec_status.rs). *)
Class ExecStatusManager (S : Type) := {
  is_completed : string → string → option uuid → S → S * result TaskError bool;
  mark_completed : string → string → option uuid → S → S * result TaskError unit;
  mark_failed : string → string → option uuid → string → S → S * result TaskError unit;
  stamp_provenance :
    string → string → string → option uuid → option string → S → S * result TaskError unit;
}.

(** [NoopExecStatusManager] *)
Definition NoopExecStatusManager (S : Type) : ExecStatusManager S := {|
  is_completed _ _ _ s := (s, Ok false);
  mark_completed _ _ _ s := (s, Ok tt);
  mark_failed _ _ _ _ s := (s, Ok tt);
  stamp_provenance _ _ _ _ _ s := (s, Ok tt);
|}.

(** The trait [PipelineWatcher]: its callbacks are recorded in the log; only
    [on_pipeline_run_completed] answers. *)
Class PipelineWatcher (S : Type) := {
  on_pipeline_run_completed : PipelineRunInfo → nat → S → S * result string unit;
}.

(** [NoopWatcher] and every watcher that keeps the default method. *)
Definition NoopWatcher (S : Type) : PipelineWatcher S :=
  {| on_pipeline_run_completed _ _ s := (s, Ok tt) |}.

(** The calls the executor makes to the watcher, the status manager, the limiter,
    the clock and the tasks, as they happen. *)
Inductive event :=
  | EvPipeline (pipeline_id : uuid) (status : PipelineStatus)
  | EvRunStarted (run : PipelineRunInfo)
  | EvRunCompleted (run : PipelineRunInfo) (output_count : nat)
  | EvRunErrored (run : PipelineRunInfo) (error : string)
  | EvTask (pipeline_id : uuid) (task_index : nat) (task_name : option string)
      (total_tasks : nat) (status : TaskStatus)
  | EvTaskStarted (run : PipelineRunInfo) (task_name : string) (task_index : nat)
  | EvTaskCompleted (run : PipelineRunInfo) (task_name : string) (result_count : nat)
  | EvTaskErrored (run : PipelineRunInfo) (task_name : string) (error : string)
  | EvIsCompleted (data_id : string)
  | EvMarkCompleted (data_id : string)
  | EvMarkFailed (data_id : string) (error : string)
  | EvStampProvenance (data_id : string) (node_set : option string)
  | EvAcquire
  | EvSleep (d : Duration)
  | EvCall (task_index : nat)
  | EvCallBatch (task_index : nat) (batch_len : nat)
  | EvProgress (task_index : nat).

(** The state a run shares with its tasks and its environment: the provenance
    visited set, the log, the tasks' own state and the schedule. *)
Record world (S : Type) := {
  w_visited : gset uuid;
  w_log : list event;
  w_state : S;
  w_sched : nat → bool;
}.
Arguments w_visited {S}.
Arguments w_log {S}.
Arguments w_state {S}.
Arguments w_sched {S}.

Definition set_visited {S} (v : gset uuid) (w : world S) : world S :=
  {| w_visited := v; w_log := w_log w; w_state := w_state w; w_sched := w_sched w |}.
Definition set_state {S} (s : S) (w : world S) : world S :=
  {| w_visited := w_visited w; w_log := w_log w; w_state := s; w_sched := w_sched w |}.
Definition add_event {S} (e : event) (w : world S) : world S :=
  {| w_visited := w_visited w; w_log := w_log w ++ [e]; w_state := w_state w;
     w_sched := w_sched w |}.

#[export] Instance world_scheduler S : Scheduler (world S) := {|
  choose w := w_sched w 0;
  advance w := {| w_visited := w_visited w; w_log := w_log w; w_state := w_state w;
                  w_sched := λ n, w_sched w (Datatypes.S n) |};
|}.

(** [usize as i32] *)
Definition as_i32 (n : nat) : Z := ((Z.of_nat n + 2 ^ 31) mod 2 ^ 32 - 2 ^ 31)%Z.

(** The inputs of a [ProvenanceContext], gathered once per task. *)
Record ProvenanceInputs := {
  pi_pipeline_name : string;
  pi_task_name : string;
  pi_user_label : option string;
  pi_input_node_set : option string;
  pi_input_content_hash : option string;
  pi_task_rank : Z;
}.

(** [ProvenanceInputs::ctx] *)
Definition pi_ctx (i : ProvenanceInputs) : ProvenanceContext := {|
  pc_pipeline_name := pi_pipeline_name i;
  pc_task_name := pi_task_name i;
  pc_user_label := pi_user_label i;
  pc_node_set := pi_input_node_set i;
  pc_content_hash := pi_input_content_hash i;
  pc_task_rank := Some (pi_task_rank i);
|}.

(** ** The executor *)
Section executor.
Context {S : Type} `{Cancellation S, ExecStatusManager S, PipelineWatcher S}.
Context (uuid_to_string : uuid → string).
Context (new_v5 : uuid → string → uuid).

Notation TaskInfo := (TaskInfo S).
Notation world := (world S).
Notation M A := (proc world (result exn A)).

Record Pipeline := {
  p_id : uuid;
  p_name : option string;
  p_description : string;
  p_tasks : list TaskInfo;
  p_retry_policy : RetryPolicy;
  p_batch_size : nat;
  p_data_id_fn : option DataIdFn;
  p_concurrency : nat;
  p_rate_limiter : option (proc S unit);
  p_recovery_lock : option uuid;
}.

(** [Pipeline::new]: [id] is the fresh [Uuid::new_v4()]. *)
Definition Pipeline_new (id : uuid) (description : string) : Pipeline := {|
  p_id := id; p_name := None; p_description := description; p_tasks := [];
  p_retry_policy := NoRetry; p_batch_size := 32; p_data_id_fn := None; p_concurrency := 1;
  p_rate_limiter := None; p_recovery_lock := None;
|}.

(** Constant for a run (for an item: [env_ctx]). *)
Record ExecEnv := {
  env_policy : RetryPolicy;
  env_default_batch_size : nat;
  env_pipeline_id : uuid;
  env_pipeline_name : option string;
  env_total_tasks : nat;
  env_ctx : TaskContext;
  env_data_id_fn : option DataIdFn;
  env_run_info : PipelineRunInfo;
  env_rate_limiter : option (proc S unit);
}.

(** [ExecEnv::with_ctx] *)
Definition with_ctx (ctx : TaskContext) (env : ExecEnv) : ExecEnv := {|
  env_policy := env_policy env;
  env_default_batch_size := env_default_batch_size env;
  env_pipeline_id := env_pipeline_id env;
  env_pipeline_name := env_pipeline_name env;
  env_total_tasks := env_total_tasks env;
  env_ctx := ctx;
  env_data_id_fn := env_data_id_fn env;
  env_run_info := env_run_info env;
  env_rate_limiter := env_rate_limiter env;
|}.

Definition emit (e : event) : proc world unit := modify (add_event e).
Definition check_cancelled : proc world bool := read (λ w, is_cancelled (w_state w)).
Definition throw {A} (e : ExecutionError) : M A := Ret (Err (Throw e)).
Definition panic {A} : M A := Ret (Err Panicked).
Definition ok {A} (a : A) : M A := Ret (Ok a).

(** The tasks' state is a part of the world. *)
Definition on_state {A} (f : S → S * A) : proc world A :=
  step (λ w, let '(s, a) := f (w_state w) in (set_state s w, a)).
Definition in_state {A} (p : proc S A) : proc world A := zoom w_state set_state p.

Definition acquire (rl : proc S unit) : proc world unit := emit EvAcquire;! in_state rl.

Definition env_dataset_id (env : ExecEnv) : option uuid :=
  p ← tc_pipeline_ctx (env_ctx env); pctx_dataset_id p.
Definition env_name (env : ExecEnv) : string := default "" (env_pipeline_name env).

(** [stamp_boxed_item] *)
Definition stamp_boxed_item (item : Value) (prov : ProvenanceInputs) (env : ExecEnv)
    : proc world Value :=
  match tc_pipeline_ctx (env_ctx env) with
  | None => Ret item
  | Some _ => step (λ w,
      let '(item, visited, _) := stamp_tree_dyn item (pi_ctx prov) (w_visited w) in
      (set_visited visited w, item))
  end.

(** [stamp_single_output]: a value somebody else holds is left alone. *)
Definition stamp_single_output (v : arc) (prov : ProvenanceInputs) (env : ExecEnv)
    : proc world arc :=
  match tc_pipeline_ctx (env_ctx env) with
  | None => Ret v
  | Some _ =>
      if arc_shared v then Ret v
      else step (λ w,
        let '(inner, visited, _) := stamp_tree_dyn (arc_value v) (pi_ctx prov) (w_visited w) in
        (set_visited visited w, {| arc_value := inner; arc_shared := false |}))
  end.

(** The node set of a [TaggedMeta] result. *)
Definition resolved_node_set (r : Resolved S) : option string :=
  match r with
  | RSingle v => match arc_value v with VTaggedMeta _ node_set => node_set | _ => None end
  | _ => None
  end.

(** What [call_with_retry] does once the call has succeeded. *)
Definition on_success (resolved : Resolved S) (task_name : option string)
    (data_id : option string) (prov : ProvenanceInputs) (env : ExecEnv) : M (Resolved S) :=
  let! resolved :=
    match resolved with
    | RSingle v => let! v := stamp_single_output v prov env in Ret (RSingle v)
    | _ => Ret resolved
    end in
  let! _ :=
    match data_id with
    | None => Ret tt
    | Some data_id =>
        let node_set := resolved_node_set resolved in
        let user_id := p ← tc_pipeline_ctx (env_ctx env); pctx_user_id p in
        emit (EvStampProvenance data_id node_set);!
        on_state (stamp_provenance data_id (env_name env) (default "" task_name) user_id node_set);!
        Ret tt
    end in
  ok resolved.

(** The attempt loop of [call_with_retry]: [remaining] attempts are left, the
    next is number [attempt]. *)
Fixpoint retry_loop (task : Task S) (input : Value) (task_index : nat) (task_name : option string)
    (data_id : option string) (prov : ProvenanceInputs) (rate_limiter : option (proc S unit))
    (task_ctx : TaskContext) (env : ExecEnv) (attempt remaining : nat)
    (last_error : option TaskError) {struct remaining} : M (Resolved S) :=
  match remaining with
  | 0 =>
      match last_error with
      | None => panic
      | Some source =>
          emit (EvTask (env_pipeline_id env) task_index task_name (env_total_tasks env)
                  (TsFailed (max_attempts (env_policy env)) source));!
          emit (EvTaskErrored (env_run_info env) (default "" task_name) source);!
          throw (TaskFailed task_index (max_attempts (env_policy env)) source)
      end
  | Datatypes.S remaining =>
      let! _ := match rate_limiter with Some rl => acquire rl | None => Ret tt end in
      let! _ := emit (EvCall task_index) in
      let! c := on_state (call task input task_ctx) in
      match c with
      | None => panic
      | Some c =>
          let! r := in_state (resolve_call c) in
          match r with
          | Ok resolved => on_success resolved task_name data_id prov env
          | Err e =>
              if decide (attempt < max_attempts (env_policy env)) then
                emit (EvTask (env_pipeline_id env) task_index task_name (env_total_tasks env)
                        (TsRetrying attempt e));!
                match delay (env_policy env) (attempt - 1) with
                | Some None => panic
                | Some (Some d) =>
                    emit (EvSleep d);!
                    retry_loop task input task_index task_name data_id prov rate_limiter task_ctx
                      env (attempt + 1) remaining (Some e)
                | None =>
                    retry_loop task input task_index task_name data_id prov rate_limiter task_ctx
                      env (attempt + 1) remaining (Some e)
                end
              else
                retry_loop task input task_index task_name data_id prov rate_limiter task_ctx
                  env (attempt + 1) remaining (Some e)
          end
      end
  end.

(** [call_with_retry] *)
Definition call_with_retry (task : Task S) (input : Value) (task_index : nat)
    (task_name : option string) (data_id : option string) (prov : ProvenanceInputs)
    (rate_limiter : option (proc S unit)) (env : ExecEnv) : M (Resolved S) :=
  let task_ctx := with_progress (TaskProgress task_index) (env_ctx env) in
  retry_loop task input task_index task_name data_id prov rate_limiter task_ctx env
    1 (max_attempts (env_policy env)) None.

(** [complete_batch_progress] *)
Definition complete_batch_progress (tail : list TaskInfo) (first_index : nat) : proc world unit :=
  match tail with
  | next :: _ => if is_batch (ti_task next) then emit (EvProgress first_index) else Ret tt
  | [] => Ret tt
  end.

Notation dispatcher := (list Value → ProvenanceInputs → M (list Value)).

(** The end of [process_iter] and [process_stream]: the last, partial batch. *)
Definition finish_source (dispatch : dispatcher) (tail : list TaskInfo) (first_index : nat)
    (prov : ProvenanceInputs) (batch outputs : list Value) : M (list Value) :=
  let?! outputs :=
    match batch with
    | [] => ok outputs
    | _ => let?! out := dispatch batch prov in ok (outputs ++ out)
    end in
  complete_batch_progress tail first_index;!
  ok outputs.

(** One accepted item: stamped, accumulated, and the batch dispatched when full. *)
Definition push_item (dispatch : dispatcher) (batch_size : nat) (prov : ProvenanceInputs)
    (env : ExecEnv) (item : Value) (batch outputs : list Value) : M (list Value * list Value) :=
  let! item := stamp_boxed_item item prov env in
  let batch := batch ++ [item] in
  if decide (batch_size ≤ length batch) then
    let?! out := dispatch batch prov in ok ([], outputs ++ out)
  else ok (batch, outputs).

(** [process_iter] *)
Fixpoint process_iter (dispatch : dispatcher) (iter : ValueIter S) (tail : list TaskInfo)
    (batch_size first_index : nat) (prov : ProvenanceInputs) (env : ExecEnv)
    (batch outputs : list Value) {struct iter} : M (list Value) :=
  match iter with
  | SDone => finish_source dispatch tail first_index prov batch outputs
  | SWork upd k =>
      Act (λ w, set_state (upd (w_state w)) w)
          (λ w, process_iter dispatch (k (w_state w)) tail batch_size first_index prov env
                  batch outputs)
  | SItem item rest =>
      let! cancelled := check_cancelled in
      if cancelled then throw Cancelled
      else if is_dropped item then
        process_iter dispatch rest tail batch_size first_index prov env batch outputs
      else
        let?! (batch, outputs) := push_item dispatch batch_size prov env item batch outputs in
        process_iter dispatch rest tail batch_size first_index prov env batch outputs
  end.

(** [process_stream]: every poll of the [select!] looks at the cancellation
    token before the stream; a failed item fails the producer. *)
Fixpoint process_stream (dispatch : dispatcher) (stream : ValueStream S) (tail : list TaskInfo)
    (batch_size first_index : nat) (prov : ProvenanceInputs) (env : ExecEnv)
    (batch outputs : list Value) {struct stream} : M (list Value) :=
  let! cancelled := check_cancelled in
  if cancelled then throw Cancelled
  else
    match stream with
    | SDone => finish_source dispatch tail first_index prov batch outputs
    | SWork upd k =>
        Act (λ w, set_state (upd (w_state w)) w)
            (λ w, process_stream dispatch (k (w_state w)) tail batch_size first_index prov env
                    batch outputs)
    | SItem (Err source) _ => throw (TaskFailed (first_index - 1) 1 source)
    | SItem (Ok item) rest =>
        if is_dropped item then
          process_stream dispatch rest tail batch_size first_index prov env batch outputs
        else
          let?! (batch, outputs) := push_item dispatch batch_size prov env item batch outputs in
          process_stream dispatch rest tail batch_size first_index prov env batch outputs
    end.

(** The batch size the consumer of [rest] asks for. *)
Definition consumer_batch_size (rest : list TaskInfo) (env : ExecEnv) : nat :=
  match rest with
  | next :: _ => default (env_default_batch_size env) (ti_batch_size next)
  | [] => env_default_batch_size env
  end.

Notation executor := (Value → nat → ExecEnv → M (list Value)).
Notation batch_executor := (list Value → nat → ProvenanceInputs → ExecEnv → M (list Value)).

(** The incremental-dedup check of [execute_from]: is this item done already? *)
Definition already_completed (input : Value) (first_index : nat) (env : ExecEnv)
    : M (option string) :=
  if decide (first_index = 0) then
    match (f ← env_data_id_fn env; f input) with
    | None => ok None
    | Some data_id =>
        let! _ := emit (EvIsCompleted data_id) in
        let! r := on_state (is_completed data_id (env_name env) (env_dataset_id env)) in
        match r with
        | Err source => throw (TaskFailed 0 0 source)
        | Ok completed => ok (if completed then Some data_id else None)
        end
    end
  else ok None.

(** The provenance inputs [execute_from] builds for the task it runs. *)
Definition task_prov (input : Value) (task_label : string) (first_index : nat) (env : ExecEnv)
    : ProvenanceInputs := {|
  pi_pipeline_name := env_name env;
  pi_task_name := task_label;
  pi_user_label := p ← tc_pipeline_ctx (env_ctx env); user_label uuid_to_string p;
  pi_input_node_set := extract_node_set_from_value input;
  pi_input_content_hash := extract_content_hash_from_value input;
  pi_task_rank := as_i32 (first_index + 1);
|}.

(** [execute_from] on a non-empty chain, given what runs the rest of it. *)
Definition execute_step (info : TaskInfo) (rest : list TaskInfo)
    (execute_rest : executor) (dispatch_rest : batch_executor)
    (input : Value) (first_index : nat) (env : ExecEnv) : M (list Value) :=
  let! cancelled := check_cancelled in
  if cancelled then throw Cancelled
  else
    let?! skip := already_completed input first_index env in
    match skip with
    | Some data_id =>
        emit (EvPipeline (env_pipeline_id env) (PsItemSkipped data_id));! ok []
    | None =>
        let task_name := ti_name info in
        let task_label := default "" task_name in
        emit (EvTask (env_pipeline_id env) first_index task_name (env_total_tasks env) TsStarted);!
        emit (EvTaskStarted (env_run_info env) task_label first_index);!
        let data_id := f ← env_data_id_fn env; f input in
        let prov := task_prov input task_label first_index env in
        let effective_rl :=
          match ti_rate_limiter info with Some rl => Some rl | None => env_rate_limiter env end in
        let?! resolved :=
          call_with_retry (ti_task info) input first_index task_name data_id prov effective_rl env in
        emit (EvTask (env_pipeline_id env) first_index task_name (env_total_tasks env) TsSucceeded);!
        emit (EvTaskCompleted (env_run_info env) task_label 1);!
        emit (EvProgress first_index);!
        let batch_size := consumer_batch_size rest env in
        let dispatch batch prov := dispatch_rest batch (first_index + 1) prov env in
        match resolved with
        | RSingle v =>
            let v := arc_value v in
            if is_passthrough v then
              if ti_enriches info then execute_rest input (first_index + 1) env
              else throw (TaskFailed first_index 1
                            "task returned PassthroughSentinel but enriches=false")
            else if is_dropped v then ok []
            else execute_rest v (first_index + 1) env
        | RIter iter =>
            process_iter dispatch iter rest batch_size (first_index + 1) prov env [] []
        | RStream stream =>
            process_stream dispatch stream rest batch_size (first_index + 1) prov env [] []
        end
    end.

(** The items of a batch, one at a time through a non-batch consumer. *)
Fixpoint execute_each (execute_tail : Value → M (list Value)) (batch outputs : list Value)
    : M (list Value) :=
  match batch with
  | [] => ok outputs
  | item :: batch =>
      let?! out := execute_tail item in execute_each execute_tail batch (outputs ++ out)
  end.

(** The provenance inputs [dispatch_batch] builds for the batch task itself. *)
Definition batch_prov (next : TaskInfo) (first_index : nat) (prov : ProvenanceInputs)
    : ProvenanceInputs := {|
  pi_pipeline_name := pi_pipeline_name prov;
  pi_task_name := default "" (ti_name next);
  pi_user_label := pi_user_label prov;
  pi_input_node_set := pi_input_node_set prov;
  pi_input_content_hash := pi_input_content_hash prov;
  pi_task_rank := as_i32 (first_index + 1);
|}.

(** [dispatch_batch] on a non-empty tail. *)
Definition dispatch_step (next : TaskInfo) (rest : list TaskInfo) (execute_tail : executor)
    (execute_rest : executor) (dispatch_rest : batch_executor)
    (batch : list Value) (first_index : nat) (prov : ProvenanceInputs) (env : ExecEnv)
    : M (list Value) :=
  if is_batch (ti_task next) then
    let! cancelled := check_cancelled in
    if cancelled then throw Cancelled
    else
      let?! _ :=
        match (match ti_rate_limiter next with Some rl => Some rl | None => env_rate_limiter env end) with
        | None => ok tt
        | Some rl =>
            acquire rl;!
            let! cancelled := check_cancelled in
            if cancelled then throw Cancelled else ok tt
        end in
      let batch_ctx := with_progress (TaskProgress first_index) (env_ctx env) in
      let bprov := batch_prov next first_index prov in
      emit (EvCallBatch first_index (length batch));!
      let! c := on_state (call_batch (ti_task next) batch batch_ctx) in
      match c with
      | None => panic
      | Some c =>
          let! r := in_state (resolve_call c) in
          match r with
          | Err source => throw (TaskFailed first_index 1 source)
          | Ok resolved =>
              let batch_size := consumer_batch_size rest env in
              let dispatch batch prov := dispatch_rest batch (first_index + 1) prov env in
              match resolved with
              | RSingle v =>
                  let! v := stamp_single_output v bprov env in
                  execute_rest (arc_value v) (first_index + 1) env
              | RIter iter =>
                  process_iter dispatch iter rest batch_size (first_index + 1) bprov env [] []
              | RStream stream =>
                  process_stream dispatch stream rest batch_size (first_index + 1) bprov env [] []
              end
          end
      end
  else execute_each (λ item, execute_tail item first_index env) batch [].

(** [execute_from] and [dispatch_batch] call each other on ever shorter chains. *)
Fixpoint run_tail (tasks : list TaskInfo) : executor * batch_executor :=
  match tasks with
  | [] => (λ input _ _, ok [input], λ batch _ _ _, ok batch)
  | info :: rest =>
      let '(execute_rest, dispatch_rest) := run_tail rest in
      let execute_tail := execute_step info rest execute_rest dispatch_rest in
      (execute_tail, dispatch_step info rest execute_tail execute_rest dispatch_rest)
  end.

Definition execute_from (tasks : list TaskInfo) : executor := (run_tail tasks).1.
Definition dispatch_batch (tasks : list TaskInfo) : batch_executor := (run_tail tasks).2.

(** ** Items *)

(** The best-effort status marking of [execute_one_item]. *)
Definition mark_item (data_id : option string) (result : result exn (list Value))
    (env : ExecEnv) : proc world unit :=
  match data_id with
  | None => Ret tt
  | Some data_id =>
      match result with
      | Ok _ =>
          emit (EvMarkCompleted data_id);!
          on_state (mark_completed data_id (env_name env) (env_dataset_id env));! Ret tt
      | Err (Throw (TaskFailed _ _ source)) =>
          emit (EvMarkFailed data_id source);!
          on_state (mark_failed data_id (env_name env) (env_dataset_id env) source);! Ret tt
      | Err _ => Ret tt
      end
  end.

(** [execute_one_item] *)
Definition execute_one_item (pipeline : Pipeline) (env : ExecEnv) (input : Value)
    : M (list Value) :=
  let data_id := f ← p_data_id_fn pipeline; f input in
  let item_env := with_ctx (with_current_data input (env_ctx env)) env in
  let! result := execute_from (p_tasks pipeline) input 0 item_env in
  mark_item data_id result env;!
  Ret result.

(** [execute_items_seq] *)
Fixpoint execute_items_seq (pipeline : Pipeline) (env : ExecEnv) (inputs outputs : list Value)
    : M (list Value) :=
  match inputs with
  | [] => ok outputs
  | input :: inputs =>
      let?! out := execute_one_item pipeline env input in
      execute_items_seq pipeline env inputs (outputs ++ out)
  end.

(** [for result in results { all_outputs.append(&mut result?) }] *)
Fixpoint append_results (results : list (result exn (list Value))) (outputs : list Value)
    : result exn (list Value) :=
  match results with
  | [] => Ok outputs
  | Ok out :: results => append_results results (outputs ++ out)
  | Err e :: _ => Err e
  end.

Definition is_panic {A} (r : result exn A) : bool :=
  match r with Err Panicked => true | _ => false end.

Fixpoint execute_chunks (pipeline : Pipeline) (env : ExecEnv) (cs : list (list Value))
    (outputs : list Value) : M (list Value) :=
  match cs with
  | [] => ok outputs
  | chunk :: cs =>
      let! results := join_all is_panic (map (execute_one_item pipeline env) chunk) in
      match append_results results outputs with
      | Ok outputs => execute_chunks pipeline env cs outputs
      | Err e => Ret (Err e)
      end
  end.

(** [execute_items_par] *)
Definition execute_items_par (pipeline : Pipeline) (env : ExecEnv) (inputs : list Value)
    : M (list Value) :=
  execute_chunks pipeline env (chunks (p_concurrency pipeline) inputs) [].

(** ** Runs *)

(** What a run reads of its environment: the fresh [Uuid::new_v4()] and the
    clock at its start, at its completion and at its failure. *)
Record run_env := {
  re_run_id : uuid;
  re_started_at : Z;
  re_completed_at : Z;
  re_errored_at : Z;
}.

(** [deterministic_pipeline_id] *)
Definition deterministic_pipeline_id (name : option string) (user_id dataset_id : option uuid)
    : option uuid :=
  match name with
  | None | Some "" => None
  | Some name =>
      let key := default "" (uuid_to_string <$> user_id) +:+ name +:+
                 default "" (uuid_to_string <$> dataset_id) in
      Some (new_v5 NAMESPACE_OID key)
  end.

(** The error of [ProgressToken::split] on the tasks' weights, if any. *)
Definition split_error (weights : list N) : option string :=
  match weights with
  | [] => Some "invalid progress split: weights must not be empty"
  | _ =>
      match list_find (λ w, w = 0%N) weights with
      | Some (i, _) =>
          Some ("invalid progress split: weight at index " +:+ pretty i +:+ " must be positive")
      | None => None
      end
  end.

(** The failure arms at the end of [execute_unscoped]. *)
Definition report_failure (run : PipelineRunInfo) (e : ExecutionError) (now : Z)
    : proc world unit :=
  let run := ri_finish Errored now run in
  match e with
  | Cancelled =>
      emit (EvPipeline (ri_pipeline_id run) PsCancelled);!
      emit (EvRunErrored run "pipeline was cancelled")
  | _ =>
      let task_index := match e with TaskFailed i _ _ => i | _ => 0 end in
      emit (EvPipeline (ri_pipeline_id run) (PsFailed task_index (ExecutionError_to_string e)));!
      emit (EvRunErrored run (ExecutionError_to_string e))
  end.

(** The end of [execute_unscoped], from the items' result on. *)
Definition conclude (re : run_env) (run : PipelineRunInfo) (result : result exn (list Value))
    : M (list Value) :=
  match result with
  | Err Panicked => panic
  | Err (Throw e) =>
      report_failure run e (re_errored_at re);! throw e
  | Ok outputs =>
      let run := ri_finish Completed (re_completed_at re) run in
      emit (EvRunCompleted run (length outputs));!
      let! r := on_state (on_pipeline_run_completed run (length outputs)) in
      match r with
      | Ok _ =>
          emit (EvPipeline (ri_pipeline_id run) (PsSucceeded (length outputs)));! ok outputs
      | Err reason =>
          let e := RunRecordFailed reason in
          report_failure run e (re_errored_at re);! throw e
      end
  end.

(** The [PipelineRunInfo] and the [ExecEnv] of a run. *)
Definition start_info (re : run_env) (pipeline : Pipeline) (ctx : TaskContext) : PipelineRunInfo :=
  let p := tc_pipeline_ctx ctx in
  let user_id := p ← p; pctx_user_id p in
  let tenant_id := p ← p; pctx_tenant_id p in
  let dataset_id := p ← p; pctx_dataset_id p in
  {| ri_run_id := re_run_id re;
     ri_pipeline_id :=
       default (p_id pipeline) (deterministic_pipeline_id (p_name pipeline) user_id dataset_id);
     ri_pipeline_name := default "" (p_name pipeline);
     ri_user_id := user_id;
     ri_tenant_id := tenant_id;
     ri_dataset_id := dataset_id;
     ri_status := Started;
     ri_started_at := re_started_at re;
     ri_completed_at := None;
     ri_recovery_lock := p_recovery_lock pipeline |}.

Definition exec_env (pipeline : Pipeline) (run : PipelineRunInfo) (ctx : TaskContext) : ExecEnv := {|
  env_policy := p_retry_policy pipeline;
  env_default_batch_size := p_batch_size pipeline;
  env_pipeline_id := ri_pipeline_id run;
  env_pipeline_name := p_name pipeline;
  env_total_tasks := length (p_tasks pipeline);
  env_ctx := ctx;
  env_data_id_fn := p_data_id_fn pipeline;
  env_run_info := run;
  env_rate_limiter := p_rate_limiter pipeline;
|}.

Definition execute_items (pipeline : Pipeline) (env : ExecEnv) (inputs : list Value)
    : M (list Value) :=
  if decide (p_concurrency pipeline ≤ 1) then execute_items_seq pipeline env inputs []
  else execute_items_par pipeline env inputs.

(** [execute_unscoped] *)
Definition execute_unscoped (re : run_env) (pipeline : Pipeline) (inputs : list Value)
    (ctx : TaskContext) : M (list Value) :=
  match p_tasks pipeline with
  | [] => throw NoTasks
  | _ =>
      if decide (p_batch_size pipeline = 0) then throw (InvalidConfig "batch_size must be > 0")
      else if decide (p_concurrency pipeline = 0) then
        throw (InvalidConfig "concurrency must be > 0")
      else
        let run := start_info re pipeline ctx in
        let ctx := with_run_id (re_run_id re) ctx in
        let! _ := match tc_pipeline_ctx ctx with
                  | Some _ => modify (set_visited ∅) | None => Ret tt end in
        emit (EvPipeline (ri_pipeline_id run) (PsStarted (length (p_tasks pipeline))));!
        emit (EvRunStarted run);!
        match split_error (map ti_weight (p_tasks pipeline)) with
        | Some reason => throw (InvalidConfig reason)
        | None =>
            let! result := execute_items pipeline (exec_env pipeline run ctx) inputs in
            conclude re run result
        end
  end.

(** [execute] *)
Definition execute (re : run_env) (pipeline : Pipeline) (inputs : list Value) (ctx : TaskContext)
    : M (list Value) :=
  match (p ← tc_pipeline_ctx ctx; pctx_dataset_id p) with
  | Some dataset_id => execute_unscoped re pipeline inputs (with_dataset dataset_id ctx)
  | None => execute_unscoped re pipeline inputs ctx
  end.
End executor.

(** ** Background runs *)

(** What a [tokio::task::JoinHandle] resolves to. *)
Inductive join_outcome (A : Type) := Joined (a : A) | JoinCancelled | JoinPanicked (message : string).
Arguments Joined {A} _.
Arguments JoinCancelled {A}.
Arguments JoinPanicked {A} _.

(** [PipelineRunHandle::wait] *)
Definition wait {A} (o : join_outcome (result ExecutionError A)) : result ExecutionError A :=
  match o with
  | Joined r => r
  | JoinCancelled => Err Cancelled
  | JoinPanicked message => Err (TaskFailed 0 0 message)
  end.
