(* ===== verification/PipelineTrace.v ===== *)
(** * What a run leaves in its log

    Every call the executor makes while it processes items is well formed
    ([item_event]), whatever the tasks do and however concurrent items are
    interleaved; a run's log is its start, such events, and an ending that its
    result determines. *)

From S2P Require Import Prelude Text Json DataPoint Models Provenance Proc Task Pipeline.
Local Open Scope cog_scope.

Section trace.
Context {S : Type} `{Cancellation S, ExecStatusManager S, PipelineWatcher S}.
Context (uuid_to_string : uuid → string) (new_v5 : uuid → string → uuid).

Notation TaskInfo := (TaskInfo S).
Notation world := (world S).
Notation M A := (proc world (result exn A)).
Notation execute_from := (execute_from uuid_to_string).
Notation dispatch_batch := (dispatch_batch uuid_to_string).

(** ** A frame rule for the executor

    An invariant that the tasks' own steps cannot break, and that the events of
    [P] keep, is kept by everything the executor does, provided the events it
    emits are in [P]. *)
Section frame.
Context (I : world → Prop) (P : event → Prop).
Context (I_event : ∀ w e, I w → P e → I (add_event e w)).
Context (I_state : ∀ w s, I w → I (set_state s w)).
Context (I_visited : ∀ w v, I w → I (set_visited v w)).

Notation keeps p := (wp I (λ _, True) p).

Lemma keeps_bind {A B} (p : proc world A) (f : A → proc world B) :
  keeps p → (∀ a, keeps (f a)) → keeps (bind p f).
Proof. intros Hp Hf. eapply wp_bind_post; [apply Hp|]. auto. Qed.

Lemma keeps_bind_ok {E A B} (p : proc world (result E A)) (f : A → proc world (result E B)) :
  keeps p → (∀ a, keeps (f a)) → keeps (bind_ok p f).
Proof. intros Hp Hf. apply keeps_bind; [done|]. intros [a|e]; [auto|done]. Qed.

Lemma keeps_emit e : P e → keeps (emit e).
Proof. intros He. apply wp_modify. auto. Qed.

Lemma keeps_on_state {A} (f : S → S * A) : keeps (on_state f).
Proof. apply wp_step. intros w Hw. destruct (f (w_state w)). simpl. auto. Qed.

Lemma keeps_in_state {A} (p : proc S A) : keeps (in_state p).
Proof. apply wp_zoom with (J := λ _, True); [done|auto|apply wp_True]. Qed.

Lemma keeps_check : keeps check_cancelled.
Proof. by apply wp_read. Qed.

Lemma keeps_stamp_boxed item prov env : keeps (stamp_boxed_item item prov env).
Proof.
  unfold stamp_boxed_item. case_match; [|done]. apply wp_step. intros w Hw.
  destruct (stamp_tree_dyn _ _ _) as [[? ?] ?]. simpl. auto.
Qed.

Lemma keeps_stamp_single v prov env : keeps (stamp_single_output v prov env).
Proof.
  unfold stamp_single_output. case_match; [|done]. case_match; [done|]. apply wp_step.
  intros w Hw. destruct (stamp_tree_dyn _ _ _) as [[? ?] ?]. simpl. auto.
Qed.

Lemma keeps_acquire rl : P EvAcquire → keeps (acquire rl).
Proof.
  intros. apply keeps_bind; [by apply keeps_emit|]. intros _. apply keeps_in_state.
Qed.

Lemma keeps_work upd (k : S → M (list Value)) :
  (∀ s, keeps (k s)) → keeps (Act (λ w, set_state (upd (w_state w)) w) (λ w, k (w_state w))).
Proof. intros Hk w Hw. split; [auto|apply Hk]. Qed.
End frame.
End trace.

(** Goes through a computation, one [await] at a time. *)
Ltac keeps :=
  repeat lazymatch goal with
  | |- wp _ _ (bind_ok (push_item _ _ _ _ _ _ _) _) => fail
  | |- wp _ _ (bind_ok _ _) => apply keeps_bind_ok; [|intros ?]
  | |- wp _ _ (bind (match ?x with _ => _ end) _) => apply keeps_bind; [destruct x eqn:?|intros ?]
  | |- wp _ _ (bind _ _) => apply keeps_bind; [|intros ?]
  | |- wp _ _ (Ret _) => exact Logic.I
  | |- wp _ _ (ok _) => exact Logic.I
  | |- wp _ _ (throw _) => exact Logic.I
  | |- wp _ _ panic => exact Logic.I
  | |- wp _ _ (emit _) => eapply keeps_emit; [eassumption|]
  | |- wp _ _ (acquire _) => eapply keeps_acquire; [eassumption..|]
  | |- wp _ _ (on_state _) => eapply keeps_on_state; eassumption
  | |- wp _ _ (in_state _) => eapply keeps_in_state; eassumption
  | |- wp _ _ check_cancelled => apply keeps_check
  | |- wp _ _ (stamp_boxed_item _ _ _) => eapply keeps_stamp_boxed; eassumption
  | |- wp _ _ (stamp_single_output _ _ _) => eapply keeps_stamp_single; eassumption
  | |- wp _ _ (match ?x with _ => _ end) => destruct x eqn:?
  | |- wp _ _ (if ?x then _ else _) => destruct x eqn:?
  end.

(** ** Well-formed events *)
Section item_events.
Context {S : Type} `{Cancellation S, ExecStatusManager S, PipelineWatcher S}.
Context (uuid_to_string : uuid → string) (new_v5 : uuid → string → uuid).

Notation TaskInfo := (TaskInfo S).
Notation ExecEnv := (@ExecEnv S).
Notation world := (world S).
Notation M A := (proc world (result exn A)).

(** The accumulation bound of a task: its own batch size or the pipeline's; a
    size of 0 acts as 1. *)
Definition batch_bound (info : TaskInfo) (env : ExecEnv) : nat :=
  1 `max` default (env_default_batch_size env) (ti_batch_size info).

(** The status a task is reported with; [k] is the attempt that failed. *)
Definition status_ok (env : ExecEnv) (st : TaskStatus) : Prop :=
  match st with
  | TsStarted | TsSucceeded => True
  | TsRetrying k _ => 1 ≤ k < max_attempts (env_policy env)
  | TsFailed n _ => n = max_attempts (env_policy env)
  end.

(** What the executor may do while it runs an item through the chain [all]. *)
Definition item_event (all : list TaskInfo) (env : ExecEnv) (e : event) : Prop :=
  match e with
  | EvPipeline id st =>
      id = env_pipeline_id env ∧ ∃ data_id, st = PsItemSkipped data_id
  | EvRunStarted _ | EvRunCompleted _ _ | EvRunErrored _ _ => False
  | EvTask id i name total st =>
      id = env_pipeline_id env ∧ total = env_total_tasks env ∧
      ti_name <$> all !! i = Some name ∧ status_ok env st
  | EvTaskStarted run name i =>
      run = env_run_info env ∧ default "" ∘ ti_name <$> all !! i = Some name
  | EvTaskCompleted run _ n => run = env_run_info env ∧ n = 1
  | EvTaskErrored run _ _ => run = env_run_info env
  | EvIsCompleted _ | EvStampProvenance _ _ => is_Some (env_data_id_fn env)
  | EvMarkCompleted _ | EvMarkFailed _ _ => False
  | EvAcquire =>
      is_Some (env_rate_limiter env) ∨ Exists (λ info, is_Some (ti_rate_limiter info)) all
  | EvSleep d =>
      ∃ k, k + 1 < max_attempts (env_policy env) ∧ delay (env_policy env) k = Some (Some d)
  | EvCall i => i < length all
  | EvCallBatch i n =>
      ∃ info, all !! i = Some info ∧ is_batch (ti_task info) = true ∧ 1 ≤ n ≤ batch_bound info env
  | EvProgress i => i < length all
  end.

Context (all : list TaskInfo) (env : ExecEnv).
Notation P := (item_event all env).
Context (I : world → Prop).
Context (I_event : ∀ w e, I w → P e → I (add_event e w)).
Context (I_state : ∀ w s, I w → I (set_state s w)).
Context (I_visited : ∀ w v, I w → I (set_visited v w)).
Notation keeps p := (wp I (λ _, True) p).

(** The chain from position [i] on. *)
Definition at_index (tail : list TaskInfo) (i : nat) : Prop := drop i all = tail.

Lemma at_index_lookup info rest i :
  at_index (info :: rest) i → all !! i = Some info ∧ at_index rest (i + 1).
Proof.
  unfold at_index. intros Hd. split.
  - rewrite <-(Nat.add_0_r i), <-lookup_drop, Hd. done.
  - rewrite <-drop_drop, Hd. done.
Qed.

Lemma keeps_on_success resolved task_name data_id prov env' :
  (is_Some data_id → is_Some (env_data_id_fn env)) →
  keeps (on_success resolved task_name data_id prov env').
Proof. intros Hid. unfold on_success. keeps. simpl. eauto. Qed.

Lemma limiter_event info (rl : proc S unit) i :
  all !! i = Some info →
  match ti_rate_limiter info with Some rl => Some rl | None => env_rate_limiter env end = Some rl →
  P EvAcquire.
Proof.
  intros Hi Hrl. simpl. destruct (ti_rate_limiter info) eqn:E; [right|left; by rewrite Hrl].
  apply Exists_exists. exists info. split; [by eapply list_elem_of_lookup_2|eauto].
Qed.

Lemma keeps_retry_loop info input i data_id prov rl ctx env' attempt remaining last_error :
  all !! i = Some info → env_policy env' = env_policy env →
  env_pipeline_id env' = env_pipeline_id env → env_total_tasks env' = env_total_tasks env →
  env_run_info env' = env_run_info env → (is_Some rl → P EvAcquire) →
  (is_Some data_id → is_Some (env_data_id_fn env)) → 1 ≤ attempt →
  keeps (retry_loop (ti_task info) input i (ti_name info) data_id prov rl ctx env'
           attempt remaining last_error).
Proof.
  intros Hi Hpol Hpid Htot Hrun Hrl Hid.
  revert attempt last_error. induction remaining as [|remaining IH]; intros attempt last_error Ha;
    cbn [retry_loop].
  - keeps; simpl; rewrite ?Hpol, ?Hpid, ?Htot, ?Hrun, ?Hi; eauto.
  - assert (i < length all) by (by eapply lookup_lt_Some).
    keeps; try done; try (apply IH; lia);
      try (by apply keeps_on_success); try (by apply Hrl; eauto);
      repeat match goal with H : decide _ = _ |- _ => clear H end;
      rewrite ?Hpol in *; simpl; rewrite ?Hpid, ?Htot, ?Hi, ?Hpol; simpl.
    + repeat split; lia.
    + eexists. split; [|done]. lia.
Qed.

(** *** Accumulation *)

(** [dispatch] may be called with any batch of 1 to [bound] items. *)
Definition dispatches (dispatch : list Value → ProvenanceInputs → M (list Value)) (bound : nat)
    : Prop :=
  ∀ batch prov, 1 ≤ length batch ≤ bound → keeps (dispatch batch prov).

Lemma keeps_push_item dispatch bs prov env' item batch outputs :
  dispatches dispatch (1 `max` bs) → length batch < 1 `max` bs →
  wp I (λ r, match r with Ok (batch, _) => length batch < 1 `max` bs | Err _ => True end)
    (push_item dispatch bs prov env' item batch outputs).
Proof.
  intros Hd Hlen. unfold push_item. eapply wp_bind_post; [by apply keeps_stamp_boxed|].
  intros item' _. cbv zeta. case_decide as Hbs.
  - eapply wp_bind_post; [apply Hd; rewrite length_app in *; simpl in *; lia|].
    intros [out|e] _; simpl; [lia|done].
  - simpl. lia.
Qed.

Lemma keeps_finish_source dispatch tail i prov batch outputs bs :
  dispatches dispatch (1 `max` bs) → length batch < 1 `max` bs → at_index tail i →
  keeps (finish_source dispatch tail i prov batch outputs).
Proof.
  intros Hd Hlen Htail. unfold finish_source, complete_batch_progress. keeps; try done.
  - apply Hd. simpl in *. lia.
  - apply at_index_lookup in Htail as [?%lookup_lt_Some _]. done.
Qed.

Lemma keeps_process_iter dispatch iter tail bs i prov env' : 
  dispatches dispatch (1 `max` bs) → at_index tail i → ∀ batch outputs,
  length batch < 1 `max` bs →
  keeps (process_iter dispatch iter tail bs i prov env' batch outputs).
Proof.
  intros Hd Htail. induction iter as [|item rest IH|upd k IH]; intros batch outputs Hlen;
    cbn [process_iter].
  - by eapply keeps_finish_source.
  - keeps; [by apply IH|]. eapply wp_bind_post; [by apply keeps_push_item|].
    intros [[batch' outputs']|e]; [intros; by apply IH|done].
  - apply (keeps_work I I_state upd
      (λ s, process_iter dispatch (k s) tail bs i prov env' batch outputs)). auto.
Qed.

Lemma keeps_process_stream dispatch stream tail bs i prov env' : 
  dispatches dispatch (1 `max` bs) → at_index tail i → ∀ batch outputs,
  length batch < 1 `max` bs →
  keeps (process_stream dispatch stream tail bs i prov env' batch outputs).
Proof.
  intros Hd Htail. induction stream as [|[item|e] rest IH|upd k IH]; intros batch outputs Hlen;
    cbn [process_stream]; keeps.
  - by eapply keeps_finish_source.
  - by apply IH.
  - eapply wp_bind_post; [by apply keeps_push_item|].
    intros [[batch' outputs']|e]; [intros; by apply IH|done].
  - apply (keeps_work I I_state upd
      (λ s, process_stream dispatch (k s) tail bs i prov env' batch outputs)). auto.
Qed.

(** *** The chain *)

(** The environments of a run's items differ in their context only. *)
Definition same_run (env' : ExecEnv) : Prop := ∃ ctx, env' = with_ctx ctx env.

Notation executor := (Value → nat → ExecEnv → M (list Value)).
Notation batch_executor := (list Value → nat → ProvenanceInputs → ExecEnv → M (list Value)).

Definition executor_keeps (tail : list TaskInfo) (run : executor) : Prop :=
  ∀ input i env', at_index tail i → same_run env' → keeps (run input i env').

Definition batch_keeps (tail : list TaskInfo) (run : batch_executor) : Prop :=
  ∀ batch i prov env', at_index tail i → same_run env' →
    1 ≤ length batch ≤ 1 `max` consumer_batch_size tail env → keeps (run batch i prov env').

Lemma batch_keeps_dispatches rest run i env' :
  batch_keeps rest run → at_index rest i → same_run env' →
  dispatches (λ batch prov, run batch i prov env') (1 `max` consumer_batch_size rest env').
Proof. intros Hrun Hi [ctx ->] batch prov Hlen. apply Hrun; [done|by exists ctx|exact Hlen]. Qed.

Lemma data_id_fn_some v data_id :
  (f ← env_data_id_fn env; f v) = Some data_id → is_Some (env_data_id_fn env).
Proof. destruct (env_data_id_fn env); [eauto|done]. Qed.

Lemma keeps_execute_step info rest execute_rest dispatch_rest :
  executor_keeps rest execute_rest → batch_keeps rest dispatch_rest →
  executor_keeps (info :: rest) (execute_step uuid_to_string info rest execute_rest dispatch_rest).
Proof.
  intros Hex Hdi input i env' Hat Henv.
  destruct (at_index_lookup _ _ _ Hat) as [Hi Hrest].
  assert (Hlt := lookup_lt_Some _ _ _ Hi).
  pose proof (batch_keeps_dispatches _ _ _ _ Hdi Hrest Henv) as Hd.
  destruct Henv as [ctx ->]. set (env' := with_ctx ctx env).
  unfold execute_step, already_completed. keeps; simpl; rewrite ?Hi; eauto.
  all: try (by eapply data_id_fn_some).
  all: try (apply keeps_process_iter || apply keeps_process_stream; eauto; simpl; lia).
  all: try (apply Hex; [done|by exists ctx]).
  apply keeps_retry_loop; try done.
  - intros [rl Hrl]. by eapply limiter_event.
  - intros [? ?]. by eapply data_id_fn_some.
Qed.

Lemma keeps_execute_each run batch : (∀ v, keeps (run v)) → ∀ outputs,
  keeps (execute_each run batch outputs).
Proof.
  intros Hrun. induction batch as [|item batch IH]; intros outputs; simpl; keeps; auto.
Qed.

Lemma keeps_dispatch_step info rest execute_tail execute_rest dispatch_rest :
  executor_keeps (info :: rest) execute_tail →
  executor_keeps rest execute_rest → batch_keeps rest dispatch_rest →
  batch_keeps (info :: rest) (dispatch_step info rest execute_tail execute_rest dispatch_rest).
Proof.
  intros Htl Hex Hdi batch i prov env' Hat Henv Hlen.
  destruct (at_index_lookup _ _ _ Hat) as [Hi Hrest].
  pose proof (batch_keeps_dispatches _ _ _ _ Hdi Hrest Henv) as Hd.
  assert (Htl' : ∀ v, keeps (execute_tail v i env')) by auto.
  destruct Henv as [ctx ->]. set (env' := with_ctx ctx env).
  unfold dispatch_step. keeps; try done.
  all: try (eapply limiter_event; [exact Hi|done]).
  all: try (apply keeps_process_iter || apply keeps_process_stream; eauto; simpl; lia).
  - eexists. split; [exact Hi|]. by split.
  - apply Hex; [done|by exists ctx].
  - by apply keeps_execute_each.
Qed.

Lemma keeps_run_tail tail :
  executor_keeps tail (run_tail uuid_to_string tail).1 ∧
  batch_keeps tail (run_tail uuid_to_string tail).2.
Proof.
  induction tail as [|info rest [Hex Hdi]]; simpl; [split; done|].
  destruct (run_tail uuid_to_string rest) as [ex di]. simpl in *.
  pose proof (keeps_execute_step info rest ex di Hex Hdi). split; [done|].
  by apply keeps_dispatch_step.
Qed.

Lemma keeps_execute_from input env' :
  same_run env' → keeps (execute_from uuid_to_string all input 0 env').
Proof. intros Henv. by apply keeps_run_tail. Qed.
End item_events.
