(* ===== verification/PipelineFacts.v ===== *)
(** * Properties of pipeline runs

    The log of a call with its retries, the lifecycle of a run, the marks of an item,
    and the delays between attempts. *)

From S2P Require Import Prelude Text Json DataPoint Models Provenance Proc Task Pipeline PipelineTrace.
Local Open Scope cog_scope.

(** ** Retry delays *)

(** An exponential delay is [base * factor^i] while the power fits a [u32]
    and [base * u32::MAX] from then on; for a factor of at least 1 it never
    shrinks from one retry to the next.  It panics exactly when the product
    leaves the range of [Duration]. *)
Theorem exponential_delay base factor i :
  (1 ≤ factor)%N →
  compute (Exponential base factor) i =
    (let d := (base * N.min (factor ^ N.of_nat i) u32_MAX)%N in
     if (d <=? DURATION_MAX)%N then Some d else None)
  ∧ (∀ d d', compute (Exponential base factor) i = Some d →
       compute (Exponential base factor) (i + 1) = Some d' → (d ≤ d')%N).
Proof.
  intros Hf.
  assert (Hc : ∀ j, default u32_MAX (checked_pow factor (N.of_nat j))
                    = N.min (factor ^ N.of_nat j) u32_MAX).
  { intros j. unfold checked_pow. destruct (N.leb_spec (factor ^ N.of_nat j) u32_MAX); simpl; lia. }
  unfold compute. rewrite !Hc. split; [done|]. unfold duration_mul. intros d d'.
  repeat case_match; try done. intros [= <-] [= <-].
  apply N.mul_le_mono_l. apply N.min_le_compat_r. apply N.pow_le_mono_r; lia.
Qed.

Lemma exponential_delay_witness :
  compute (Exponential 1000000000 2) 3 = Some 8000000000%N
  ∧ (∀ d', compute (Exponential 1000000000 2) 4 = Some d' → (8000000000 ≤ d')%N).
Proof.
  assert (H2 : (1 ≤ 2)%N) by lia.
  split; [rewrite (proj1 (exponential_delay 1000000000 2 3 H2)); reflexivity|].
  intros d'. by apply (proj2 (exponential_delay 1000000000 2 3 H2)).
Defined.

(** ** An example pipeline

    The tasks' state counts their calls; [flaky] fails its first two calls. *)
Notation example_out n := {| arc_value := VOther n; arc_shared := false |} (only parsing).

#[local] Instance example_cancellation : Cancellation nat := {| is_cancelled n := false |}.
#[local] Instance example_status : ExecStatusManager nat := NoopExecStatusManager nat.
#[local] Instance example_watcher : PipelineWatcher nat := NoopWatcher nat.

Definition flaky : Task nat :=
  Sync (λ _ _ n, (Datatypes.S n, if decide (n < 2) then Err "busy" else Ok (example_out 7%N))).

Definition example_policy : RetryPolicy := Limited 4 (Exponential 1000 3).

Definition example_pipeline : Pipeline := {|
  p_id := 1%N; p_name := Some "demo"; p_description := ""; p_tasks := [ti_with_name "call" (TaskInfo_new flaky)];
  p_retry_policy := example_policy; p_batch_size := 32;
  p_data_id_fn := Some (λ v, match v with VOther n => Some (pretty n) | _ => None end);
  p_concurrency := 2; p_rate_limiter := None; p_recovery_lock := None |}.

Definition example_context : TaskContext :=
  {| tc_progress := RootProgress; tc_pipeline_ctx := None; tc_dataset_scope := None |}.
Definition example_run : run_env :=
  {| re_run_id := 9%N; re_started_at := 0; re_completed_at := 1; re_errored_at := 1 |}.
Definition example_world : world nat :=
  {| w_visited := ∅; w_log := []; w_state := 0; w_sched := Nat.even |}.
Notation example_to_string := (λ u : uuid, pretty u) (only parsing).
Notation example_v5 := (λ (ns : uuid) (key : string), N.of_nat (String.length key)) (only parsing).

Section facts.
Context {S : Type} `{Cancellation S, ExecStatusManager S, PipelineWatcher S}.
Context (uuid_to_string : uuid → string) (new_v5 : uuid → string → uuid).

Notation TaskInfo := (TaskInfo S).
Notation ExecEnv := (@ExecEnv S).
Notation Pipeline := (@Pipeline S).
Notation world := (world S).
Notation M A := (proc world (result exn A)).
Notation start_info := (@start_info S uuid_to_string new_v5).

(** ** Logs *)

Lemma run_in_state {A} (p : proc S A) (w : world) :
  run (in_state p) w = let '(s, a) := run p (w_state w) in (set_state s w, a).
Proof.
  unfold in_state. revert w. induction p as [a|upd k IH]; intros w; simpl; [by destruct w|].
  rewrite IH. by destruct (run (k (w_state w)) _).
Qed.

Lemma run_on_state {A} (f : S → S * A) (w : world) :
  run (on_state f) w = let '(s, a) := f (w_state w) in (set_state s w, a).
Proof. unfold on_state. simpl. by destruct (f (w_state w)). Qed.

Lemma run_emit {A} e (p : unit → proc world A) (w : world) :
  run (bind (emit e) p) w = run (p tt) (add_event e w).
Proof. done. Qed.

(** The log has grown by events of [P]. *)
Definition grown (l0 : list event) (P : event → Prop) (w : world) : Prop :=
  ∃ es, w_log w = l0 ++ es ∧ Forall P es.

Lemma grown_event l0 P w e : grown l0 P w → P e → grown l0 P (add_event e w).
Proof.
  intros (es & Hl & Hes) He. exists (es ++ [e]). simpl. rewrite Hl, app_assoc.
  auto using Forall_snoc.
Qed.

Lemma grown_start (P : event → Prop) (w : world) : grown (w_log w) P w.
Proof. exists []. by rewrite app_nil_r. Qed.

(** Runs a computation that keeps [grown]. *)
Lemma run_grown {A} (p : proc world A) P w :
  wp (grown (w_log w) P) (λ _, True) p → grown (w_log w) P (run p w).1.
Proof. intros Hp. apply (wp_run _ _ _ _ Hp). apply grown_start. Qed.

(** *** One task *)

(** One attempt; then the failed attempts, from number [k] (counted from 0) on,
    each with the retry it announces and the delay it waits. *)
Definition attempt_log (rl : option (proc S unit)) (i : nat) : list event :=
  match rl with Some _ => [EvAcquire; EvCall i] | None => [EvCall i] end.

Fixpoint retry_log (env : ExecEnv) (rl : option (proc S unit)) (i : nat) (name : option string)
    (k : nat) (errs : list TaskError) : list event :=
  match errs with
  | [] => []
  | e :: errs =>
      attempt_log rl i ++
      [EvTask (env_pipeline_id env) i name (env_total_tasks env) (TsRetrying (k + 1) e)] ++
      match delay (env_policy env) k with Some (Some d) => [EvSleep d] | _ => [] end ++
      retry_log env rl i name (k + 1) errs
  end.

Lemma run_on_success resolved name data_id prov env (w : world) :
  ∃ v ns, (run (on_success resolved name data_id prov env) w).2 = Ok v
    ∧ w_log (run (on_success resolved name data_id prov env) w).1 =
        w_log w ++ match data_id with Some d => [EvStampProvenance d ns] | None => [] end.
Proof.
  unfold on_success. rewrite run_bind.
  assert (Hst : ∃ w1 v, run (match resolved with
      | RSingle v => let! v := stamp_single_output v prov env in Ret (RSingle v)
      | _ => Ret resolved end) w = (w1, v) ∧ w_log w1 = w_log w).
  { destruct resolved; try (by do 2 eexists). unfold stamp_single_output.
    repeat case_match; try (by do 2 eexists). simpl.
    destruct (stamp_tree_dyn _ _ _) as [[? ?] ?]. by do 2 eexists. }
  destruct Hst as (w1 & v & -> & Hl). rewrite <-Hl. exists v, (resolved_node_set v).
  destruct data_id as [d|]; [|simpl; by rewrite app_nil_r].
  rewrite run_bind, run_emit, run_bind, run_on_state. by destruct (stamp_provenance _ _ _ _ _ _).
Qed.

Lemma call_non_batch task input ctx (s : S) :
  is_batch task = false → ∃ s' c, call task input ctx s = (s', Some c).
Proof. destruct task; simpl; try done; intros _; try (destruct (f _ _ _)); eauto. Qed.

(** *** The attempts of a call, apart from the loop that makes them

    One attempt: the limiter's slot, the call, its outcome.  The attempts made one
    after the other, the state handed on, until one succeeds or [n] have failed. *)
Definition attempt_once (task : Task S) (input : Value) (ctx : TaskContext) (rl : option (proc S unit))
    (s : S) : S * result TaskError (Resolved S) :=
  match call task input ctx (match rl with Some rl => (run rl s).1 | None => s end) with
  | (s, Some c) => run (resolve_call c) s
  | (s, None) => (s, Err "")
  end.

Fixpoint attempts (task : Task S) (input : Value) (ctx : TaskContext) (rl : option (proc S unit))
    (n : nat) (s : S) : S * list (result TaskError (Resolved S)) :=
  match n with
  | 0 => (s, [])
  | Datatypes.S n =>
      let '(s, r) := attempt_once task input ctx rl s in
      match r with
      | Ok _ => (s, [r])
      | Err _ => let '(s, rs) := attempts task input ctx rl n s in (s, r :: rs)
      end
  end.

(** What follows the last attempt: the stamping and the record of a success, or
    the report of the last error to both watchers and to the caller. *)
Definition attempts_end (env : ExecEnv) (i : nat) (name data_id : option string) (prov : ProvenanceInputs)
    (errs : nat) (s : S) (last : result TaskError (Resolved S)) (w' : world)
    (r : result exn (Resolved S)) (fin : list event) : Prop :=
  match last with
  | Ok resolved =>
      (∃ w1, w_state w1 = s ∧ run (on_success resolved name data_id prov env) w1 = (w', r))
      ∧ ∃ v ns, r = Ok v ∧ fin = match data_id with Some d => [EvStampProvenance d ns] | None => [] end
  | Err e =>
      errs + 1 = max_attempts (env_policy env)
      ∧ r = Err (Throw (TaskFailed i (max_attempts (env_policy env)) e))
      ∧ fin = [EvTask (env_pipeline_id env) i name (env_total_tasks env)
                 (TsFailed (max_attempts (env_policy env)) e);
               EvTaskErrored (env_run_info env) (default "" name) e]
  end.

(** One attempt as the loop makes it. *)
Lemma run_attempt {A} info input i rl ctx (w : world) (q0 : proc world A) (q : result TaskError (Resolved S) → proc world A) :
  is_batch (ti_task info) = false →
  run (let! _ := match rl with Some rl => acquire rl | None => Ret tt end in
       let! _ := emit (EvCall i) in
       let! c := on_state (call (ti_task info) input ctx) in
       match c with None => q0 | Some c => let! r := in_state (resolve_call c) in q r end) w
  = let '(s, r) := attempt_once (ti_task info) input ctx rl (w_state w) in
    run (q r) {| w_visited := w_visited w; w_log := w_log w ++ attempt_log rl i;
                 w_state := s; w_sched := w_sched w |}.
Proof.
  intros Hnb. unfold attempt_once.
  assert (Hc : ∀ s (w0 : world), w_state w0 = s → run (let! c := on_state (call (ti_task info) input ctx) in
       match c with None => q0 | Some c => let! r := in_state (resolve_call c) in q r end) w0
     = let '(s, r) := match call (ti_task info) input ctx s with
         | (s, Some c) => run (resolve_call c) s | (s, None) => (s, Err "") end in
       run (q r) (set_state s w0)).
  { intros s w0 <-. rewrite run_bind, run_on_state.
    destruct (call_non_batch (ti_task info) input ctx (w_state w0) Hnb) as (s' & c & ->).
    rewrite run_bind, run_in_state. cbn [w_state set_state].
    by destruct (run (resolve_call c) s'). }
  destruct rl as [rl|].
  - rewrite run_bind. unfold acquire. rewrite run_emit, run_in_state.
    cbn [add_event w_state]. destruct (run rl (w_state w)) as [s []]. rewrite run_emit, (Hc s) by done.
    cbn [fst]. destruct (match call _ _ _ s with (_, _) => _ end) as [s1 r]. unfold set_state, add_event. simpl.
    by rewrite <-app_assoc.
  - rewrite run_bind. cbn [run]. rewrite run_emit, (Hc (w_state w)) by done.
    by destruct (match call _ _ _ (w_state w) with (_, _) => _ end) as [s1 r].
Qed.

(** What the attempts numbered from [k + 1] on leave, [remaining] being left. *)
Lemma run_retry_loop info input i data_id prov rl ctx (env : ExecEnv) :
  is_batch (ti_task info) = false →
  (∀ k, k + 1 < max_attempts (env_policy env) → delay (env_policy env) k ≠ Some None) →
  ∀ remaining k err (w : world), k + Datatypes.S remaining = max_attempts (env_policy env) →
  let '(w', r) := run (retry_loop (ti_task info) input i (ti_name info) data_id prov rl ctx env
                         (k + 1) (Datatypes.S remaining) err) w in
  let '(s', outcomes) := attempts (ti_task info) input ctx rl (Datatypes.S remaining) (w_state w) in
  ∃ errs last fin, outcomes = map Err errs ++ [last]
    ∧ w_log w' = w_log w ++ retry_log env rl i (ti_name info) k errs ++ attempt_log rl i ++ fin
    ∧ attempts_end env i (ti_name info) data_id prov (k + length errs) s' last w' r fin.
Proof.
  intros Hnb Hdel. induction remaining as [|remaining IH];
    [|remember (Datatypes.S remaining) as n eqn:Hn]; intros k err w Hk.
  all: cbn [retry_loop attempts]; rewrite run_attempt by done.
  all: destruct (attempt_once _ _ _ _ _) as [s [resolved|e]] eqn:Ho.
  1,3: match goal with |- context [run (on_success _ _ _ _ _) ?w2] =>
         destruct (run_on_success resolved (ti_name info) data_id prov env w2) as (v & ns & Hr & Hl);
         destruct (run (on_success _ _ _ _ _) w2) as [w3 r] eqn:Hrun end; simpl in Hr, Hl; subst r;
       exists [], (Ok resolved); eexists; simpl; rewrite Hl; simpl; rewrite <-app_assoc; (split; [done|]);
       (split; [done|]); split; [eexists; split; [|exact Hrun]; done|by exists v, ns].
  - rewrite decide_False by lia. simpl. exists [], (Err e). eexists. simpl. rewrite <-!app_assoc.
    split; [done|]. split; [done|]. split; [lia|done].
  - rewrite decide_True by lia.
    assert (Hd : ∃ ds, match delay (env_policy env) k with Some (Some d) => [EvSleep d] | _ => [] end = ds
      ∧ ∀ (p : M (Resolved S)) w0, run match delay (env_policy env) (k + 1 - 1) with
          | Some None => panic | Some (Some d) => emit (EvSleep d);! p | None => p end w0
        = run p {| w_visited := w_visited w0; w_log := w_log w0 ++ ds; w_state := w_state w0;
                   w_sched := w_sched w0 |}).
    { replace (k + 1 - 1) with k by lia. specialize (Hdel k).
      destruct (delay (env_policy env) k) as [[d|]|]; [by eexists| |].
      - exfalso. by apply Hdel; [lia|].
      - eexists. split; [done|]. intros p0 [????]. simpl. by rewrite app_nil_r. }
    destruct Hd as (ds & Hds & Hrun). rewrite run_emit, Hrun.
    match goal with |- context [run _ ?w2] =>
      specialize (IH (k + 1) (Some e) w2 ltac:(lia)) end.
    cbn [w_state add_event] in IH.
    destruct (run (retry_loop _ _ _ _ _ _ _ _ _ _ _ _) _) as [w' r].
    destruct (attempts _ _ _ _ n s) as [s' outcomes].
    destruct IH as (errs & last & fin & -> & Hl & Hend). exists (e :: errs), last, fin.
    split; [done|]. split.
    + rewrite Hl. cbn [w_log set_state add_event retry_log]. rewrite Hds, <-!app_assoc. done.
    + simpl. by replace (k + Datatypes.S (length errs)) with (k + 1 + length errs) by lia.
Qed.



(** *** One item *)

(** The marks an item's result leaves with the status manager. *)
Definition marks (data_id : option string) (r : result exn (list Value)) : list event :=
  match data_id with
  | None => []
  | Some data_id =>
      match r with
      | Ok _ => [EvMarkCompleted data_id]
      | Err (Throw (TaskFailed _ _ source)) => [EvMarkFailed data_id source]
      | Err _ => []
      end
  end.

Lemma run_mark_item data_id r env (w : world) :
  w_log (run (mark_item data_id r env) w).1 = w_log w ++ marks data_id r.
Proof.
  unfold mark_item, marks. destruct data_id as [data_id|]; [|simpl; by rewrite app_nil_r].
  destruct r as [outs|[[]|]]; try (simpl; by rewrite app_nil_r).
  - rewrite run_emit, run_bind, run_on_state. by destruct (mark_completed _ _ _ _).
  - rewrite run_emit, run_bind, run_on_state. by destruct (mark_failed _ _ _ _ _).
Qed.

(** An item is marked exactly once, after everything else it does, and as
    its result says: completed on success (also when it was skipped), failed
    with the task's error when a task failed, not at all when it was cancelled,
    panicked or has no data id. *)
Theorem item_marked_once (pipeline : Pipeline) (env : ExecEnv) input (w : world) :
  let '(w', r) := run (execute_one_item uuid_to_string pipeline env input) w in
  ∃ mid, w_log w' = w_log w ++ mid ++ marks (f ← p_data_id_fn pipeline; f input) r
    ∧ Forall (item_event (p_tasks pipeline) env) mid.
Proof.
  unfold execute_one_item. cbv zeta. rewrite run_bind.
  pose proof (run_grown (execute_from uuid_to_string (p_tasks pipeline) input 0
    (with_ctx (with_current_data input (env_ctx env)) env))
    (item_event (p_tasks pipeline) env) w) as Hg.
  destruct (run (execute_from _ _ _ _ _) w) as [w1 r]. rewrite run_bind.
  pose proof (run_mark_item (f ← p_data_id_fn pipeline; f input) r env w1) as Hm.
  destruct (run (mark_item _ r env) w1) as [w2 []]. simpl in *.
  destruct Hg as (mid & Hl & Hmid).
  { eapply keeps_execute_from; [apply grown_event|done|done|by eexists]. }
  exists mid. split; [|done]. by rewrite Hm, Hl, app_assoc.
Qed.

(** *** A whole run *)

(** What a run may do between its start and its end. *)
Definition run_event (pipeline : Pipeline) (env : ExecEnv) (e : event) : Prop :=
  item_event (p_tasks pipeline) env e ∨
  match e with EvMarkCompleted _ | EvMarkFailed _ _ => True | _ => False end.

Lemma keeps_execute_one_item l0 pipeline env input :
  wp (grown l0 (run_event pipeline env)) (λ _, True)
    (execute_one_item uuid_to_string pipeline env input).
Proof.
  unfold execute_one_item, mark_item. cbv zeta. keeps.
  1: apply (keeps_execute_from uuid_to_string _ env); [|done|done|by eexists].
  1: intros w e Hw He; apply grown_event; [done|by left].
  all: try (apply (keeps_emit _ (run_event pipeline env)); [apply grown_event|by right]).
  all: by apply keeps_on_state.
Qed.

Lemma keeps_execute_items l0 pipeline env inputs :
  wp (grown l0 (run_event pipeline env)) (λ _, True)
    (execute_items uuid_to_string pipeline env inputs).
Proof.
  unfold execute_items. case_decide.
  - generalize (@nil Value). induction inputs as [|v inputs IH]; intros outs; simpl; keeps; auto.
    apply keeps_execute_one_item.
  - unfold execute_items_par. generalize (@nil Value).
    induction (chunks (p_concurrency pipeline) inputs) as [|c cs IH]; intros outs; simpl; keeps; auto.
    eapply wp_mono; [|done]. apply wp_join_map with (Q := λ _ _, True); [done|].
    intros v. apply keeps_execute_one_item.
Qed.

(** How a run ends, given its result. *)
Inductive closing (re : run_env) (run : PipelineRunInfo) :
    result exn (list Value) → list event → Prop :=
  | closing_ok outs :
      closing re run (Ok outs)
        [EvRunCompleted (ri_finish Completed (re_completed_at re) run) (length outs);
         EvPipeline (ri_pipeline_id run) (PsSucceeded (length outs))]
  | closing_cancelled :
      closing re run (Err (Throw Cancelled))
        [EvPipeline (ri_pipeline_id run) PsCancelled;
         EvRunErrored (ri_finish Errored (re_errored_at re) run) "pipeline was cancelled"]
  | closing_failed e :
      e ≠ Cancelled →
      closing re run (Err (Throw e))
        [EvPipeline (ri_pipeline_id run)
           (PsFailed (match e with TaskFailed i _ _ => i | _ => 0 end) (ExecutionError_to_string e));
         EvRunErrored (ri_finish Errored (re_errored_at re) run) (ExecutionError_to_string e)]
  | closing_record_failed reason n :
      closing re run (Err (Throw (RunRecordFailed reason)))
        [EvRunCompleted (ri_finish Completed (re_completed_at re) run) n;
         EvPipeline (ri_pipeline_id run)
           (PsFailed 0 (ExecutionError_to_string (RunRecordFailed reason)));
         EvRunErrored (ri_finish Errored (re_errored_at re) run)
           (ExecutionError_to_string (RunRecordFailed reason))]
  | closing_panicked : closing re run (Err Panicked) [].

Lemma conclude_closing re info r0 (w : world) :
  let '(w', r) := run (conclude re info r0) w in
  ∃ es, w_log w' = w_log w ++ es ∧ closing re info r es.
Proof.
  assert (Hfail : ∀ e w, ∃ es,
    w_log (run (report_failure info e (re_errored_at re)) w : world * unit).1 = w_log w ++ es
    ∧ closing re info (Err (Throw e)) es).
  { intros e v. destruct e; unfold report_failure; rewrite run_bind; simpl;
      rewrite <-app_assoc; eexists; (split; [done|]); try constructor; done. }
  unfold conclude. destruct r0 as [outs|[e|]].
  - rewrite run_emit, run_bind, run_on_state. cbn [w_state add_event].
    destruct (on_pipeline_run_completed _ _ _) as [s [u|reason]].
    + simpl. eexists. rewrite <-app_assoc. split; [done|constructor].
    + rewrite run_bind. simpl. rewrite <-!app_assoc. eexists. split; [done|constructor].
  - rewrite run_bind. destruct (Hfail e w) as (es & Hl & Hes).
    destruct (run (report_failure _ _ _) w) as [w1 []]. simpl in *. eauto.
  - simpl. exists []. rewrite app_nil_r. split; [done|constructor].
Qed.

(** A pipeline that passes every check of [execute]. *)
Record valid (pipeline : Pipeline) : Prop := {
  v_tasks : p_tasks pipeline ≠ [];
  v_batch_size : p_batch_size pipeline ≠ 0;
  v_concurrency : p_concurrency pipeline ≠ 0;
  v_weights : Forall (λ info, ti_weight info ≠ 0%N) (p_tasks pipeline);
}.

Lemma split_error_none weights :
  weights ≠ [] → Forall (λ w, w ≠ 0%N) weights → split_error weights = None.
Proof.
  intros Hne Hw. unfold split_error. destruct weights as [|w0 ws]; [done|].
  destruct (list_find _ (w0 :: ws)) as [[i x]|] eqn:Hf; [|done].
  apply list_find_Some in Hf as (Hi & -> & _).
  by apply (Forall_lookup_1 _ _ _ _ Hw) in Hi.
Qed.

(** The scope [execute] runs in. *)
Definition scoped (ctx : TaskContext) : TaskContext :=
  match (p ← tc_pipeline_ctx ctx; pctx_dataset_id p) with
  | Some dataset_id => with_dataset dataset_id ctx
  | None => ctx
  end.

Lemma start_info_scoped re pipeline ctx : start_info re pipeline (scoped ctx) = start_info re pipeline ctx.
Proof. unfold scoped. by case_match. Qed.

(** The world in which the items of a run start. *)
Definition started re pipeline ctx (w : world) : world :=
  let info := start_info re pipeline ctx in
  add_event (EvRunStarted info)
    (add_event (EvPipeline (ri_pipeline_id info) (PsStarted (length (p_tasks pipeline))))
      (match tc_pipeline_ctx ctx with Some _ => set_visited ∅ w | None => w end)).

Lemma run_execute re pipeline inputs ctx (w : world) : valid pipeline →
  run (execute uuid_to_string new_v5 re pipeline inputs ctx) w =
    let info := start_info re pipeline ctx in
    let env := exec_env pipeline info (with_run_id (re_run_id re) (scoped ctx)) in
    let '(w', r) := run (execute_items uuid_to_string pipeline env inputs)
                      (started re pipeline ctx w) in
    run (conclude re info r) w'.
Proof.
  intros [Ht Hb Hc Hw].
  assert (Hex : execute uuid_to_string new_v5 re pipeline inputs ctx
                = execute_unscoped uuid_to_string new_v5 re pipeline inputs (scoped ctx)).
  { unfold execute, scoped. by case_match. }
  rewrite Hex. unfold execute_unscoped. destruct (p_tasks pipeline) as [|info0 rest] eqn:Htasks; [done|].
  rewrite <-Htasks in *. rewrite !decide_False by done. cbv zeta.
  rewrite start_info_scoped, run_bind.
  assert (Hv : run (match tc_pipeline_ctx (with_run_id (re_run_id re) (scoped ctx)) with
                    | Some _ => modify (set_visited ∅) | None => Ret tt end) w
               = (match tc_pipeline_ctx ctx with Some _ => set_visited ∅ w | None => w end, tt)).
  { unfold scoped, with_run_id. destruct ctx as [pr [p|] sc]; simpl; [by destruct (pctx_dataset_id p)|done]. }
  rewrite Hv, run_bind. simpl. rewrite split_error_none; [by rewrite run_bind| |].
  - by destruct (p_tasks pipeline).
  - by apply Forall_map.
Qed.

Lemma started_log re pipeline ctx (w : world) :
  w_log (started re pipeline ctx w) = w_log w ++
    [EvPipeline (ri_pipeline_id (start_info re pipeline ctx)) (PsStarted (length (p_tasks pipeline)));
     EvRunStarted (start_info re pipeline ctx)].
Proof. unfold started. simpl. rewrite <-app_assoc. by case_match. Qed.

End facts.

(** ** Witnesses *)

Notation example_info := (start_info example_to_string example_v5 example_run example_pipeline example_context).
Notation example_env := (exec_env example_pipeline example_info example_context).


Lemma example_valid : valid example_pipeline.
Proof. split; simpl; [done|done|done|]. repeat constructor; done. Defined.

