(* ===== verification/PipelineSpec.v ===== *)
(** * What a run computes

    For tasks that compute a function of their input, the executor refines a
    reference semantics in which a chain is a composition of functions on lists:
    retries, accumulation into batches, concurrency and its schedule leave no
    trace in the result.  A task that takes a batch at a time is among them when it
    maps a function over its batch; one that folds its batch into a single value is
    not, for its result depends on where the batches end. *)

From S2P Require Import Prelude Text Json DataPoint Models Provenance Proc Task Pipeline PipelineTrace PipelineFacts.
Local Open Scope cog_scope.

(** ** Reference semantics *)

(** What one call of a task produces. *)
Inductive output := One (v : Value) | Many (l : list Value).

(** Maps a fallible function over a list and concatenates; the first error wins. *)
Fixpoint denote_all (f : Value → result exn (list Value)) (l : list Value)
    : result exn (list Value) :=
  match l with
  | [] => Ok []
  | v :: l => let? out := f v in let? outs := denote_all f l in Ok (out ++ outs)
  end.

Section denote.
Context {S : Type} (attempts : nat).

(** The meaning of a chain, from position [i] on: each task with the function it
    computes. *)
Fixpoint denote (tasks : list (TaskInfo S * (Value → result TaskError output))) (i : nat)
    (v : Value) : result exn (list Value) :=
  match tasks with
  | [] => Ok [v]
  | (info, f) :: rest =>
      match f v with
      | Err e => Err (Throw (TaskFailed i attempts e))
      | Ok (One x) =>
          if is_passthrough x then
            if ti_enriches info then denote rest (i + 1) v
            else Err (Throw (TaskFailed i 1 "task returned PassthroughSentinel but enriches=false"))
          else if is_dropped x then Ok []
          else denote rest (i + 1) x
      | Ok (Many l) => denote_all (denote rest (i + 1)) (filter (λ x, is_dropped x = false) l)
      end
  end.
End denote.

Lemma denote_all_app f l k :
  denote_all f (l ++ k) =
    let? out := denote_all f l in let? outs := denote_all f k in Ok (out ++ outs).
Proof.
  induction l as [|v l IH]; simpl; [by destruct (denote_all f k)|].
  rewrite IH. destruct (f v); simpl; [|done]. destruct (denote_all f l); simpl; [|done].
  destruct (denote_all f k); simpl; [|done]. by rewrite app_assoc.
Qed.

Lemma denote_all_ok l : denote_all (λ v, Ok [v]) l = Ok l.
Proof. induction l as [|v l IH]; simpl; [done|]. by rewrite IH. Qed.

Lemma denote_not_panic {S} attempts tasks : ∀ i v, @denote S attempts tasks i v ≠ Err Panicked.
Proof.
  assert (Hall : ∀ f, (∀ v, f v ≠ Err Panicked) → ∀ l, denote_all f l ≠ Err Panicked).
  { intros f Hf. induction l as [|v l IH]; simpl; [done|]. specialize (Hf v).
    destruct (f v) as [|[]]; simpl; try done. by destruct (denote_all f l) as [|[]]. }
  induction tasks as [|[info f] rest IH]; intros i v; simpl; [done|].
  repeat case_match; try done; auto.
Qed.

(** ** Chunks *)

(** ** Tasks that compute a function *)
Section spec.
Context {S : Type} `{Cancellation S, ExecStatusManager S, PipelineWatcher S}.
Context (uuid_to_string : uuid → string) (new_v5 : uuid → string → uuid).

Notation TaskInfo := (TaskInfo S).
Notation ExecEnv := (@ExecEnv S).
Notation Pipeline := (@Pipeline S).
Notation world := (world S).
Notation M A := (proc world (result exn A)).

(** [J] holds of the tasks' state throughout: nobody cancels. *)
Context (J : S → Prop) (J_running : ∀ s, J s → is_cancelled s = false).

(** The source yields [l], its work keeping [J]. *)
Fixpoint yields {I} (src : source S I) (l : list I) : Prop :=
  match src with
  | SDone => l = []
  | SItem i rest => ∃ l', l = i :: l' ∧ yields rest l'
  | SWork upd k => ∀ s, J s → J (upd s) ∧ yields (k s) l
  end.

(** A value that stamping leaves as it is. *)
Definition inert (v : Value) : Prop := ∀ ctx visited, stamp_tree_dyn v ctx visited = (v, visited, false).

Definition computes_one (r : result TaskError arc) (o : result TaskError output) : Prop :=
  match r, o with
  | Ok a, Ok (One x) => arc_value a = x ∧ inert x
  | Err e, Err e' => e = e'
  | _, _ => False
  end.

Definition computes_many (r : result TaskError (ValueIter S)) (o : result TaskError output) : Prop :=
  match r, o with
  | Ok src, Ok (Many l) => yields src l ∧ Forall inert l
  | Err e, Err e' => e = e'
  | _, _ => False
  end.

Definition computes_stream (r : result TaskError (ValueStream S)) (o : result TaskError output)
    : Prop :=
  match r, o with
  | Ok src, Ok (Many l) => yields src (map Ok l) ∧ Forall inert l
  | Err e, Err e' => e = e'
  | _, _ => False
  end.

(** [l] is what mapping [f] over a batch gives. *)
Definition maps_to (f : Value → result TaskError output) (batch l : list Value) : Prop :=
  ∃ ls, Forall2 (λ v out, f v = Ok (Many out)) batch ls ∧ l = concat ls.

(** A task computes [f] in every context, whatever else happens to the state; a task
    that takes a batch maps [f], which never fails, over it. *)
Definition computes (t : Task S) (f : Value → result TaskError output) : Prop :=
  match t with
  | Sync g => ∀ v ctx s, J s → J (g v ctx s).1 ∧ computes_one (g v ctx s).2 (f v)
  | Async g => ∀ v ctx, wp J (λ r, computes_one r (f v)) (g v ctx)
  | SyncIter g => ∀ v ctx s, J s → J (g v ctx s).1 ∧ computes_many (g v ctx s).2 (f v)
  | AsyncStream g => ∀ v ctx s, J s → J (g v ctx s).1 ∧ computes_stream (g v ctx s).2 (f v)
  | SyncIterBatch g => ∀ batch ctx s, J s →
      J (g batch ctx s).1 ∧ ∃ l, maps_to f batch l ∧ computes_many (g batch ctx s).2 (Ok (Many l))
  | AsyncStreamBatch g => ∀ batch ctx s, J s →
      J (g batch ctx s).1 ∧ ∃ l, maps_to f batch l ∧ computes_stream (g batch ctx s).2 (Ok (Many l))
  | SyncBatch _ | AsyncBatch _ => False
  end.

(** A task that yields its outputs one by one. *)
Definition is_producer (t : Task S) : bool :=
  match t with
  | SyncIter _ | AsyncStream _ | SyncIterBatch _ | AsyncStreamBatch _ => true
  | _ => false
  end.

(** Batch tasks stand behind producers only; [behind] says whether the chain does. *)
Fixpoint placed (behind : bool) (infos : list TaskInfo) : Prop :=
  match infos with
  | [] => True
  | info :: rest => (is_batch (ti_task info) = true → behind = true) ∧ placed (is_producer (ti_task info)) rest
  end.

Definition limiter_ok (rl : option (proc S unit)) : Prop :=
  match rl with Some rl => wp J (λ _, True) rl | None => True end.

(** A task of a chain with its function. *)
Definition task_ok (p : TaskInfo * (Value → result TaskError output)) : Prop :=
  computes (ti_task p.1) p.2 ∧ limiter_ok (ti_rate_limiter p.1).

(** The status manager knows no item as completed, and leaves [J] alone. *)
Definition status_ok : Prop := ∀ data_id name dataset_id s, J s →
  J (is_completed data_id name dataset_id s).1 ∧ (is_completed data_id name dataset_id s).2 = Ok false
  ∧ J (mark_completed data_id name dataset_id s).1
  ∧ (∀ e, J (mark_failed data_id name dataset_id e s).1)
  ∧ ∀ task user node_set, J (stamp_provenance data_id name task user node_set s).1.

(** What the environment of a run must be like: no item done already where the
    pipeline asks, limiters that leave [J] alone, delays that do not overflow. *)
Record env_ok (env : ExecEnv) : Prop := {
  eo_status : env_data_id_fn env ≠ None → status_ok;
  eo_limiter : limiter_ok (env_rate_limiter env);
  eo_delay : ∀ k, k + 1 < max_attempts (env_policy env) → delay (env_policy env) k ≠ Some None;
}.

(** The invariant of the world. *)
Notation I := (λ w : world, J (w_state w)).
Notation returns p r := (wp I (λ r', r' = r) p).

(** What a resolved call stands for. *)
Definition resolves (r : result TaskError (Resolved S)) (o : result TaskError output) : Prop :=
  match r, o with
  | Ok (RSingle a), Ok (One x) => arc_value a = x ∧ inert x
  | Ok (RIter src), Ok (Many l) => yields src l ∧ Forall inert l
  | Ok (RStream src), Ok (Many l) => yields src (map Ok l) ∧ Forall inert l
  | Err e, Err e' => e = e'
  | _, _ => False
  end.

Lemma wp_in_state {A} (Q : A → Prop) (p : proc S A) : wp J Q p → wp I Q (in_state p).
Proof. apply wp_zoom; auto. Qed.

Lemma wp_on_state {A} (Q : A → Prop) (f : S → S * A) :
  (∀ s, J s → J (f s).1 ∧ Q (f s).2) → wp I Q (on_state f).
Proof.
  intros Hf. apply wp_step. intros w Hw. specialize (Hf _ Hw). by destruct (f (w_state w)).
Qed.

Lemma wp_emit e : wp I (λ _, True) (emit e).
Proof. by apply wp_modify. Qed.

Lemma wp_emit_bind {A} (Q : A → Prop) e (p : unit → proc world A) :
  wp I Q (p tt) → wp I Q (bind (emit e) p).
Proof. intros Hp w Hw. by split. Qed.

Lemma wp_running {A} (Q : A → Prop) (p : proc world A) e :
  ((∃ s, J s) → wp I Q p) → wp I Q (let! c := check_cancelled in if c then e else p).
Proof. intros Hp w Hw. split; [done|]. simpl. rewrite J_running by done. apply Hp. eauto. Qed.

Lemma wp_told {A} (f : S → S * A) : (∀ s, J s → J (f s).1) → wp I (λ _, True) (on_state f).
Proof. intros Hf. apply wp_on_state. auto. Qed.

Lemma bound_some {A B} (o : option A) (f : A → option B) b : (a ← o; f a) = Some b → o ≠ None.
Proof. by destruct o. Qed.

Lemma wp_not_completed input i env : env_ok env → wp I (λ r, r = Ok None) (already_completed input i env).
Proof.
  intros [Hs _ _]. unfold already_completed. case_decide; [|done].
  destruct (_ ≫= _) as [data_id|] eqn:Hid; [|done]. specialize (Hs (bound_some _ _ _ Hid)).
  apply wp_emit_bind. eapply wp_bind_post with (R := λ r, r = Ok false).
  - apply wp_on_state. intros s HJ. destruct (Hs data_id (env_name env) (env_dataset_id env) s HJ) as (? & Hc & _).
    split; [done|exact Hc].
  - by intros ? ->.
Qed.

Lemma wp_mark_item data_id r env : (data_id ≠ None → status_ok) → wp I (λ _, True) (mark_item data_id r env).
Proof.
  intros Hs. unfold mark_item. destruct data_id as [data_id|]; [|done]. specialize (Hs ltac:(done)).
  repeat case_match; try done; apply wp_emit_bind; (eapply wp_bind_post with (R := λ _, True); [|done]);
    apply wp_told; intros s HJ; by destruct (Hs data_id (env_name env) (env_dataset_id env) s HJ) as (_ & _ & ? & Hf & _).
Qed.

(** One call of a computing task, resolved. *)
Lemma wp_call t f v ctx : computes t f → is_batch t = false →
  wp I (λ c, ∃ c', c = Some c' ∧ wp J (λ r, resolves r (f v)) (resolve_call c')) (on_state (call t v ctx)).
Proof.
  intros Hc Hb. apply wp_on_state. intros s Hs. destruct t as [g|g|g|g|g|g|g|g]; simpl in Hc; try done.
  - destruct (Hc v ctx s Hs) as [Hs' Hr]. simpl. destruct (g v ctx s) as [s' r]. simpl in *.
    split; [done|]. eexists. split; [done|]. simpl. by destruct r, (f v) as [[]|].
  - simpl. split; [done|]. eexists. split; [done|]. eapply wp_bind_post; [apply Hc|].
    intros r Hr. simpl. by destruct r, (f v) as [[]|].
  - destruct (Hc v ctx s Hs) as [Hs' Hr]. simpl. destruct (g v ctx s) as [s' r]. simpl in *.
    split; [done|]. eexists. split; [done|]. simpl. by destruct r, (f v) as [[]|].
  - destruct (Hc v ctx s Hs) as [Hs' Hr]. simpl. destruct (g v ctx s) as [s' r]. simpl in *.
    split; [done|]. eexists. split; [done|]. simpl. by destruct r, (f v) as [[]|].
Qed.

Lemma wp_stamp_single v prov env :
  inert (arc_value v) → wp I (λ v', arc_value v' = arc_value v) (stamp_single_output v prov env).
Proof.
  intros Hv. unfold stamp_single_output. repeat case_match; try done.
  apply wp_step. intros w Hw. by rewrite Hv.
Qed.

Lemma wp_stamp_boxed v prov env :
  inert v → wp I (λ v', v' = v) (stamp_boxed_item v prov env).
Proof.
  intros Hv. unfold stamp_boxed_item. repeat case_match; try done.
  apply wp_step. intros w Hw. by rewrite Hv.
Qed.

Lemma wp_on_success resolved name data_id prov env o :
  resolves (Ok resolved) (Ok o) → (data_id ≠ None → status_ok) →
  wp I (λ r, ∃ res, r = Ok res ∧ resolves (Ok res) (Ok o))
    (on_success resolved name data_id prov env).
Proof.
  intros Hr Hs. unfold on_success. eapply wp_bind_post with (R := λ res, resolves (Ok res) (Ok o)).
  - destruct resolved as [v|src|src]; [|done..]. destruct o as [x|]; [|done]. destruct Hr as [Hx Hi].
    apply wp_bind. eapply wp_mono; [apply wp_stamp_single; by rewrite Hx|].
    intros v' Hv'. simpl. by rewrite Hv', Hx.
  - intros res Hres. eapply wp_bind_post with (R := λ _, True); [|intros _ _; by exists res].
    destruct data_id as [data_id|]; [|done]. specialize (Hs ltac:(done)). cbv zeta. apply wp_emit_bind.
    eapply wp_bind_post with (R := λ _, True); [|done]. apply wp_told. intros s HJ.
    by destruct (Hs data_id (env_name env) None s HJ) as (_ & _ & _ & _ & ?).
Qed.

(** A computing task, retried: the function's value, or its error after every
    attempt. *)
Lemma wp_retry_loop t f v i name data_id prov rl ctx env :
  computes t f → is_batch t = false → limiter_ok rl → env_ok env → (data_id ≠ None → status_ok) →
  ∀ remaining attempt err, attempt + remaining = max_attempts (env_policy env) + 1 →
    1 ≤ attempt → 0 < remaining ∨ (∃ e, err = Some e ∧ f v = Err e) →
  wp I (λ r, match f v with
             | Ok o => ∃ res, r = Ok res ∧ resolves (Ok res) (Ok o)
             | Err e => r = Err (Throw (TaskFailed i (max_attempts (env_policy env)) e))
             end)
    (retry_loop t v i name data_id prov rl ctx env attempt remaining err).
Proof.
  intros Hc Hb Hrl Henv Hst. induction remaining as [|remaining IH]; intros attempt err Ha Ha1 Hrem;
    cbn [retry_loop].
  - destruct Hrem as [?|(e & -> & Hf)]; [lia|]. rewrite Hf. by do 2 apply wp_emit_bind.
  - eapply wp_bind_post with (R := λ _, True).
    { destruct rl as [rl|]; [|done]. apply wp_emit_bind. by apply wp_in_state. }
    intros _ _. apply wp_emit_bind. eapply wp_bind_post; [by apply wp_call|].
    intros c (c' & -> & Hc'). eapply wp_bind_post; [by apply wp_in_state|].
    intros [resolved|e] Hr; [|].
    + destruct (f v) as [o|e] eqn:Hf; [|by destruct resolved]. by apply wp_on_success.
    + destruct (f v) as [o|e'] eqn:Hf; [by destruct o|]. simpl in Hr. subst e'.
      case_decide as Hlt; [apply wp_emit_bind|].
      * pose proof (eo_delay _ Henv (attempt - 1) ltac:(lia)) as Hd.
        destruct (delay (env_policy env) (attempt - 1)) as [[d|]|]; [apply wp_emit_bind|done|];
          (apply IH; [lia|lia|right; eauto]).
      * apply IH; [lia|lia|]. right. eauto.
Qed.

(** ** Accumulation *)

(** What is left to produce, given what is pending and what is out. *)
Definition rest_of (D : Value → result exn (list Value)) (outputs pending : list Value)
    : result exn (list Value) :=
  let? outs := denote_all D pending in Ok (outputs ++ outs).

Definition dispatches_as (dispatch : list Value → ProvenanceInputs → M (list Value))
    (D : Value → result exn (list Value)) : Prop :=
  ∀ batch prov, returns (dispatch batch prov) (denote_all D batch).

Lemma wp_finish_source dispatch D tail i prov batch outputs :
  dispatches_as dispatch D →
  returns (finish_source dispatch tail i prov batch outputs) (rest_of D outputs batch).
Proof.
  intros Hd. unfold finish_source, rest_of. eapply wp_bind_ok.
  apply wp_mono with (Q := λ r, r = rest_of D outputs batch).
  - destruct batch as [|v batch]; [unfold rest_of; simpl; by rewrite app_nil_r|].
    eapply wp_bind_ok, wp_mono; [apply Hd|]. intros r ->. unfold rest_of.
    by destruct (denote_all D (v :: batch)).
  - intros r ->. unfold rest_of, complete_batch_progress.
    destruct (denote_all D batch); simpl; [|done].
    by repeat case_match.
Qed.

Lemma wp_push_item dispatch D bs prov env item batch outputs pending :
  dispatches_as dispatch D → inert item →
  wp I (λ r, rest_of D outputs (batch ++ item :: pending) =
             match r with Ok (batch, outputs) => rest_of D outputs (batch ++ pending) | Err e => Err e end)
    (push_item dispatch bs prov env item batch outputs).
Proof.
  intros Hd Hi. unfold push_item. eapply wp_bind_post; [by apply wp_stamp_boxed|].
  intros ? ->. cbv zeta. replace (batch ++ item :: pending) with ((batch ++ [item]) ++ pending)
    by by rewrite <-app_assoc.
  case_decide; [|done]. eapply wp_bind_ok, wp_mono; [apply Hd|]. intros r ->.
  destruct (denote_all D (batch ++ [item])) eqn:HE; simpl; unfold rest_of;
    rewrite denote_all_app, HE; simpl; [|done].
  destruct (denote_all D pending); simpl; [by rewrite app_assoc|done].
Qed.

Lemma wp_process_iter dispatch D iter tail bs i prov env : dispatches_as dispatch D →
  ∀ l batch outputs, yields iter l → Forall inert l →
  returns (process_iter dispatch iter tail bs i prov env batch outputs)
    (rest_of D outputs (batch ++ filter (λ x, is_dropped x = false) l)).
Proof.
  intros Hd. induction iter as [|item rest IH|upd k IH]; intros l batch outputs Hl Hin;
    cbn [process_iter].
  - simpl in Hl. subst l. rewrite app_nil_r. by apply wp_finish_source.
  - destruct Hl as (l' & -> & Hl). apply Forall_cons in Hin as [Hi Hin].
    apply (wp_running _ (if is_dropped item then _ else _)). intros _.
    rewrite filter_cons. destruct (is_dropped item) eqn:Hdr; [by apply IH|].
    eapply wp_bind_ok, wp_mono;
      [by apply (wp_push_item dispatch D) with (pending := filter (λ x, is_dropped x = false) l')|].
    intros [[batch' outputs']|e] Hr; rewrite decide_True by done; rewrite Hr; [by apply IH|done].
  - intros w Hw. destruct (Hl _ Hw). split; [done|]. by apply IH.
Qed.

Lemma wp_process_stream dispatch D stream tail bs i prov env : dispatches_as dispatch D →
  ∀ l batch outputs, yields stream (map Ok l) → Forall inert l →
  returns (process_stream dispatch stream tail bs i prov env batch outputs)
    (rest_of D outputs (batch ++ filter (λ x, is_dropped x = false) l)).
Proof.
  intros Hd. induction stream as [|item rest IH|upd k IH]; intros l batch outputs Hl Hin;
    cbn [process_stream]; apply (wp_running _ _ (throw Cancelled)); intros _.
  - destruct l; [|done]. rewrite app_nil_r. by apply wp_finish_source.
  - destruct Hl as (l' & Heq & Hl). destruct l as [|v l]; [done|]. simpl in Heq. simplify_eq.
    apply Forall_cons in Hin as [Hi Hin].
    rewrite filter_cons. destruct (is_dropped v) eqn:Hdr; [by apply IH|].
    eapply wp_bind_ok, wp_mono;
      [by apply (wp_push_item dispatch D) with (pending := filter (λ x, is_dropped x = false) l)|].
    intros [[batch' outputs']|e] Hr; rewrite decide_True by done; rewrite Hr; [by apply IH|done].
  - intros w Hw. destruct (Hl _ Hw). split; [done|]. by apply IH.
Qed.

(** ** Chains *)

Notation chain := (list (TaskInfo * (Value → result TaskError output))).
Notation executor := (Value → nat → ExecEnv → M (list Value)).
Notation batch_executor := (list Value → nat → ProvenanceInputs → ExecEnv → M (list Value)).

Definition executes_as (attempts : nat) (tail : chain) (ex : executor) : Prop :=
  ∀ v i env, env_ok env → max_attempts (env_policy env) = attempts →
    returns (ex v i env) (denote attempts tail i v).

Definition dispatches_chain (attempts : nat) (tail : chain) (di : batch_executor) : Prop :=
  ∀ batch i prov env, env_ok env → max_attempts (env_policy env) = attempts →
    returns (di batch i prov env) (denote_all (denote attempts tail i) batch).

Lemma rest_of_start D l : rest_of D [] ([] ++ l) = denote_all D l.
Proof. unfold rest_of. simpl. by destruct (denote_all D l). Qed.

(** A task that yields several values is a producer. *)
Lemma computes_one_output t f v x : computes t f → (∃ s, J s) → f v = Ok (One x) → is_batch t = false →
  is_producer t = false.
Proof.
  intros Hc [s HJ] Hf Hb. destruct t as [g|g|g|g|g|g|g|g]; try done.
  - destruct (Hc v {| tc_progress := RootProgress; tc_pipeline_ctx := None; tc_dataset_scope := None |} s HJ) as [_ Hr].
    rewrite Hf in Hr. by destruct (g _ _ s) as [? []].
  - destruct (Hc v {| tc_progress := RootProgress; tc_pipeline_ctx := None; tc_dataset_scope := None |} s HJ) as [_ Hr].
    rewrite Hf in Hr. by destruct (g _ _ s) as [? []].
Qed.

Lemma wp_execute_step attempts info f rest (tail : chain) ex di :
  task_ok (info, f) → is_batch (ti_task info) = false → rest = map fst tail →
  (is_producer (ti_task info) = false → executes_as attempts tail ex) → dispatches_chain attempts tail di →
  executes_as attempts ((info, f) :: tail) (execute_step uuid_to_string info rest ex di).
Proof.
  intros [Hc Hrl] Hb -> Hex Hdi v i env Henv Hatt. cbn [fst snd] in Hc, Hrl. unfold execute_step.
  apply (wp_running _ _ (throw Cancelled)). intros Hlive.
  eapply wp_bind_post; [by apply wp_not_completed|].
  intros ? ->. cbv beta iota zeta. apply wp_emit_bind, wp_emit_bind.
  eapply wp_bind_post.
  { eapply wp_retry_loop; [exact Hc|exact Hb| |exact Henv| |lia|lia|left].
    - simpl in Hrl. destruct (ti_rate_limiter info); [done|apply Henv].
    - intros Hid. apply (eo_status _ Henv). by destruct (env_data_id_fn env).
    - destruct (env_policy env) as [|n d]; simpl; [lia|]. pose proof (Pos2Nat.is_pos n). lia. }
  intros r. cbv beta. cbn [denote].
  destruct (f v) as [o|e] eqn:Hfv; intros Hr; [|by rewrite Hr, Hatt].
  destruct Hr as (res & -> & Hres). apply wp_emit_bind, wp_emit_bind, wp_emit_bind. cbv zeta.
  assert (Hd : dispatches_as (λ batch prov, di batch (i + 1) prov env) (denote attempts tail (i + 1))).
  { intros batch prov. by apply Hdi. }
  destruct res as [a|src|src], o as [x|l]; try done.
  - specialize (Hex (computes_one_output _ _ _ _ Hc Hlive Hfv Hb)).
    destruct Hres as [-> Hi]. repeat case_match; try done; by apply Hex.
  - destruct Hres as [Hy Hin]. rewrite <-rest_of_start. by apply wp_process_iter.
  - destruct Hres as [Hy Hin]. rewrite <-rest_of_start. by apply wp_process_stream.
Qed.

(** Mapping over a batch is what the reference does with each value of it. *)
Lemma denote_maps_to attempts info f (tail : chain) i batch l : maps_to f batch l →
  denote_all (denote attempts ((info, f) :: tail) i) batch
  = denote_all (denote attempts tail (i + 1)) (filter (λ x, is_dropped x = false) l).
Proof.
  intros (ls & Hls & ->). induction Hls as [|v out batch ls Hf _ IH]; [done|].
  cbn [concat]. rewrite filter_app, denote_all_app, <-IH. cbn [denote_all denote]. by rewrite Hf.
Qed.

(** One call of a task that maps over its batch, resolved. *)
Lemma wp_call_batch t f batch ctx : computes t f → is_batch t = true →
  wp I (λ c, ∃ c', c = Some c' ∧ wp J (λ r, ∃ l, maps_to f batch l ∧ resolves r (Ok (Many l))) (resolve_call c'))
    (on_state (call_batch t batch ctx)).
Proof.
  intros Hc Hb. apply wp_on_state. intros s Hs. destruct t as [g|g|g|g|g|g|g|g]; simpl in Hc; try done;
    destruct (Hc batch ctx s Hs) as (Hs' & l & Hl & Hr); simpl; destruct (g batch ctx s) as [s' r]; simpl in *;
    (split; [done|]); eexists; (split; [done|]); simpl; exists l; (split; [done|]); by destruct r.
Qed.

Lemma wp_dispatch_batch_task attempts info f (tail : chain) ext ex di :
  task_ok (info, f) → is_batch (ti_task info) = true → dispatches_chain attempts tail di →
  dispatches_chain attempts ((info, f) :: tail) (dispatch_step info (map fst tail) ext ex di).
Proof.
  intros [Hc Hrl] Hb Hdi batch i prov env Henv Hatt. cbn [fst snd] in Hc, Hrl. unfold dispatch_step. rewrite Hb.
  apply (wp_running _ _ (throw Cancelled)). intros _.
  eapply wp_bind_post with (R := λ r, r = Ok tt).
  { assert (limiter_ok (match ti_rate_limiter info with Some rl => Some rl | None => env_rate_limiter env end)) as Hl.
    { destruct (ti_rate_limiter info); [done|apply Henv]. }
    destruct (match ti_rate_limiter info with Some rl => Some rl | None => env_rate_limiter env end) as [rl|]; [|done].
    eapply wp_bind_post with (R := λ _, True); [apply wp_emit_bind; by apply wp_in_state|]. intros _ _.
    by apply (wp_running _ (ok tt) (throw Cancelled)). }
  intros ? ->. cbv beta iota zeta. apply wp_emit_bind. eapply wp_bind_post; [by apply wp_call_batch|].
  intros c (c' & -> & Hc'). eapply wp_bind_post; [by apply wp_in_state|].
  intros r (l & Hl & Hr). rewrite (denote_maps_to _ _ _ _ _ _ _ Hl), <-rest_of_start.
  assert (Hd : dispatches_as (λ batch prov, di batch (i + 1) prov env) (denote attempts tail (i + 1))).
  { intros b p. by apply Hdi. }
  destruct r as [[a|src|src]|e]; [done| | |done]; destruct Hr as [Hy Hin].
  - by apply wp_process_iter.
  - by apply wp_process_stream.
Qed.

Lemma wp_execute_each D run batch : (∀ v, returns (run v) (D v)) → ∀ outputs,
  returns (execute_each run batch outputs) (rest_of D outputs batch).
Proof.
  intros Hrun. unfold rest_of. induction batch as [|v batch IH]; intros outputs; simpl.
  - by rewrite app_nil_r.
  - eapply wp_bind_ok, wp_mono; [apply Hrun|]. intros r ->. destruct (D v); simpl; [|done].
    eapply wp_mono; [apply IH|]. intros r ->. destruct (denote_all D batch); simpl; [|done].
    by rewrite app_assoc.
Qed.

Lemma wp_run_tail attempts (tasks : chain) : Forall task_ok tasks → placed true (map fst tasks) →
  (placed false (map fst tasks) → executes_as attempts tasks (run_tail uuid_to_string (map fst tasks)).1)
  ∧ dispatches_chain attempts tasks (run_tail uuid_to_string (map fst tasks)).2.
Proof.
  induction 1 as [|[info f] tail Ht _ IH]; intros Hp.
  - split; [done|]. intros batch i prov env _ _. simpl. by rewrite denote_all_ok.
  - destruct Hp as [_ Hp]. cbn [fst] in Hp. assert (Hp' : placed true (map fst tail)).
    { destruct tail as [|t tail]; [done|]. by destruct Hp. }
    destruct (IH Hp') as [Hex Hdi]. clear IH. cbn [map run_tail fst].
    destruct (run_tail uuid_to_string (map fst tail)) as [ex di]. simpl in Hex, Hdi. cbn [fst snd].
    destruct (is_batch (ti_task info)) eqn:Hb.
    + split; [intros [Hb' _]; by specialize (Hb' Hb)|]. by apply wp_dispatch_batch_task.
    + assert (Hstep : executes_as attempts ((info, f) :: tail) (execute_step uuid_to_string info (map fst tail) ex di)).
      { apply wp_execute_step; [done|done|done| |done]. intros Hpr. apply Hex. by rewrite Hpr in Hp. }
      split; [done|]. intros batch i prov env Henv Hatt. unfold dispatch_step. rewrite Hb.
      eapply wp_mono; [apply (wp_execute_each (denote attempts ((info, f) :: tail) i))|].
      * intros v. by apply Hstep.
      * intros r ->. unfold rest_of. by destruct (denote_all _ batch).
Qed.

(** ** Items *)

Context (pipeline : Pipeline) (tasks : chain).
Context (Htasks : p_tasks pipeline = map fst tasks) (Hok : Forall task_ok tasks).
Context (Hplaced : placed false (map fst tasks)) (Hstatus : p_data_id_fn pipeline ≠ None → status_ok).

Notation attempts := (max_attempts (p_retry_policy pipeline)).
Notation D := (denote attempts tasks 0).

Definition pipeline_env (env : ExecEnv) : Prop :=
  env_ok env ∧ env_policy env = p_retry_policy pipeline.

Lemma wp_execute_one_item env v :
  pipeline_env env → returns (execute_one_item uuid_to_string pipeline env v) (D v).
Proof.
  intros [[Hid Hl Hd] Hpol]. unfold execute_one_item. rewrite Htasks. cbv zeta.
  assert (Hpt : placed true (map fst tasks)) by (destruct tasks; [done|by destruct Hplaced]).
  eapply wp_bind_post.
  - apply (proj1 (wp_run_tail attempts tasks Hok Hpt) Hplaced); [by constructor|]. simpl. by rewrite Hpol.
  - intros r ->. eapply wp_bind_post with (R := λ _, True); [|done]. apply wp_mark_item.
    intros Hne. apply Hstatus. by destruct (p_data_id_fn pipeline).
Qed.

Lemma wp_items_seq env inputs : pipeline_env env → ∀ outputs,
  returns (execute_items_seq uuid_to_string pipeline env inputs outputs) (rest_of D outputs inputs).
Proof.
  intros Henv. unfold rest_of. induction inputs as [|v inputs IH]; intros outputs; simpl.
  - by rewrite app_nil_r.
  - eapply wp_bind_ok, wp_mono; [by apply wp_execute_one_item|].
    intros r ->. destruct (D v); simpl; [|done].
    eapply wp_mono; [apply IH|]. intros r ->. destruct (denote_all D inputs); simpl; [|done].
    by rewrite app_assoc.
Qed.

Lemma append_results_map l : ∀ outputs, append_results (map D l) outputs = rest_of D outputs l.
Proof.
  unfold rest_of. induction l as [|v l IH]; intros outputs; simpl; [by rewrite app_nil_r|].
  destruct (D v); simpl; [|done]. rewrite IH. destruct (denote_all D l); simpl; [|done].
  by rewrite app_assoc.
Qed.

Lemma wp_chunk env chunk : pipeline_env env →
  returns (join_all is_panic (map (execute_one_item uuid_to_string pipeline env) chunk)) (map D chunk).
Proof.
  intros Henv. eapply wp_mono;
    [apply wp_join_map with (Q := λ v r, r = D v); [by intros w Hw|]|].
  - intros v. by apply wp_execute_one_item.
  - intros l. unfold joined. destruct (existsb is_panic l) eqn:Hp.
    + intros (a & -> & Ha). simpl in Hp. exfalso. apply Exists_exists in Ha as (Q & HQ & Ha).
      apply list_elem_of_In, in_map_iff in HQ as (v & <- & _). subst a.
      pose proof (denote_not_panic attempts tasks 0 v). by destruct (D v) as [|[]].
    + clear Hp. revert l. induction chunk as [|v chunk IH]; intros l Hl; inversion Hl; subst; simpl; [done|].
      f_equal. by apply IH.
Qed.

Lemma wp_chunks env cs : pipeline_env env → ∀ outputs,
  returns (execute_chunks uuid_to_string pipeline env cs outputs) (rest_of D outputs (concat cs)).
Proof.
  intros Henv. induction cs as [|chunk cs IH]; intros outputs; simpl.
  - unfold rest_of. simpl. by rewrite app_nil_r.
  - eapply wp_bind_post; [by apply wp_chunk|]. intros ? ->. rewrite append_results_map.
    unfold rest_of. rewrite denote_all_app. destruct (denote_all D chunk); simpl; [|done].
    eapply wp_mono; [apply IH|]. intros r ->. unfold rest_of.
    destruct (denote_all D (concat cs)); simpl; [by rewrite app_assoc|done].
Qed.

Lemma wp_execute_items env inputs : pipeline_env env →
  returns (execute_items uuid_to_string pipeline env inputs) (denote_all D inputs).
Proof.
  intros Henv. replace (denote_all D inputs) with (rest_of D [] inputs)
    by (unfold rest_of; by destruct (denote_all D inputs)).
  unfold execute_items. case_decide; [by apply wp_items_seq|].
  unfold execute_items_par. eapply wp_mono; [by apply wp_chunks|].
  intros r ->. by rewrite chunks_concat.
Qed.

(** C1: The executor refines a reference semantics.  Let every task of a valid pipeline
    compute a function of its input, whatever its own state does as long as nobody,
    the rate limiters included, cancels: a task that takes one value, the function of
    that value (no stream of it breaks off); a task that takes a batch and yields
    values, the map of a function that never fails over its batch, standing behind a
    task that yields values.  (A batch task with a single output is not such a task,
    and no produced value has provenance to stamp.)  If the status manager, where the
    pipeline asks it, knows no item as completed, no retry delay overflows and the
    completed record is written, then a run returns exactly what composing the
    functions over the inputs gives: in input order, dropped items left out, the first
    error in input order winning.  So the result depends on neither the sizes of the
    batches, nor the concurrency, nor the schedule of concurrent items. *)
Theorem execute_denotes re inputs ctx (w : world) :
  valid pipeline → J (w_state w) → limiter_ok (p_rate_limiter pipeline) →
  (∀ k, k + 1 < attempts → delay (p_retry_policy pipeline) k ≠ Some None) →
  (∀ run n s, (on_pipeline_run_completed run n s).2 = Ok tt) →
  (run (execute uuid_to_string new_v5 re pipeline inputs ctx) w).2 = denote_all D inputs.
Proof.
  intros Hv Hw Hrl Hdel Hrec. rewrite run_execute by done. cbv zeta.
  set (env := exec_env pipeline _ _).
  assert (Henv : pipeline_env env) by (split; [by constructor|done]).
  pose proof (wp_run I _ _ (started uuid_to_string new_v5 re pipeline ctx w)
                (wp_execute_items env inputs Henv)) as Hr.
  destruct (run (execute_items uuid_to_string pipeline env inputs) _) as [w1 r0].
  destruct Hr as [_ Hr]; [unfold started; by case_match|]. simpl in Hr. subst r0.
  destruct (denote_all D inputs) as [outs|[e|]]; simpl; [| |done].
  - destruct (on_pipeline_run_completed _ _ _) as [s r] eqn:Hc. simpl.
    match type of Hc with on_pipeline_run_completed ?a ?b ?c = _ =>
      pose proof (Hrec a b c) as Hr; rewrite Hc in Hr end. simpl in Hr. by subst r.
  - rewrite run_bind. by destruct (run (report_failure _ _ _) w1).
Qed.
End spec.

(** ** Runs that do not get to their tasks *)
Section short_runs.
Context {S : Type} `{Cancellation S, ExecStatusManager S, PipelineWatcher S}.
Context (uuid_to_string : uuid → string) (new_v5 : uuid → string → uuid).

Notation TaskInfo := (TaskInfo S).
Notation Pipeline := (@Pipeline S).
Notation ExecEnv := (@ExecEnv S).
Notation world := (world S).
Notation start_info := (@start_info S uuid_to_string new_v5).
Notation execute := (@execute S _ _ _ uuid_to_string new_v5).

(** A cancelled world that only the schedule may change. *)
Notation frozen s l := (λ w : world, w_state w = s ∧ w_log w = l).

Lemma wp_check_true (s : S) l {A} (Q : A → Prop) p q :
  is_cancelled s = true → wp (frozen s l) Q p →
  wp (frozen s l) Q (let! c := check_cancelled in if c then p else q).
Proof. intros Hs Hp w [Hws Hwl]. split; [done|]. simpl. by rewrite Hws, Hs. Qed.

Lemma wp_cancelled_item (s : S) l (pipeline : Pipeline) env v :
  is_cancelled s = true → p_tasks pipeline ≠ [] →
  wp (frozen s l) (λ r, r = Err (Throw Cancelled)) (execute_one_item uuid_to_string pipeline env v).
Proof.
  intros Hs Ht. unfold execute_one_item, execute_from. cbv zeta.
  destruct (p_tasks pipeline) as [|info rest]; [done|]. cbn [run_tail].
  destruct (run_tail uuid_to_string rest) as [ex di]. simpl fst.
  eapply wp_bind_post with (R := λ r, r = Err (Throw Cancelled)); [by apply wp_check_true|].
  intros ? ->. unfold mark_item. by case_match.
Qed.

Lemma wp_cancelled_items (s : S) l (pipeline : Pipeline) env inputs :
  is_cancelled s = true → p_tasks pipeline ≠ [] → p_concurrency pipeline ≠ 0 → inputs ≠ [] →
  wp (frozen s l) (λ r, r = Err (Throw Cancelled)) (execute_items uuid_to_string pipeline env inputs).
Proof.
  intros Hs Ht Hc Hin. unfold execute_items. case_decide.
  - destruct inputs as [|v inputs]; [done|]. simpl.
    eapply wp_bind_ok, wp_mono; [by apply wp_cancelled_item|]. by intros ? ->.
  - unfold execute_items_par. pose proof (chunks_concat (p_concurrency pipeline) inputs) as Hcat.
    pose proof (chunks_size (p_concurrency pipeline) inputs ltac:(lia)) as Hsz.
    destruct (chunks _ inputs) as [|c cs]; [by subst inputs|]. apply Forall_cons in Hsz as [Hsz _].
    simpl. eapply wp_bind_post.
    + apply wp_join_map with (Q := λ _ r, r = Err (Throw Cancelled)); [by intros w [??]|].
      intros v. by apply wp_cancelled_item.
    + intros rs. unfold joined. destruct (existsb is_panic rs) eqn:Hp.
      * intros (a & -> & Ha). exfalso. apply Exists_exists in Ha as (Q & HQ & Ha).
        apply list_elem_of_In, in_map_iff in HQ as (v & <- & _). by subst a.
      * intros Hrs. destruct c as [|v c]; [simpl in *; lia|]. inversion Hrs; subst. done.
Qed.

(** A run that is cancelled before it starts touches nothing: under every
    schedule it makes no call to a task, a limiter or the status manager, leaves
    the tasks' state alone, reports [Cancelled], and logs exactly a start and a
    cancelled ending. *)
Theorem cancelled_run re (pipeline : Pipeline) inputs ctx (w : world) :
  valid pipeline → inputs ≠ [] → is_cancelled (w_state w) = true →
  let '(w', r) := run (execute re pipeline inputs ctx) w in
  let info := start_info re pipeline ctx in
  r = Err (Throw Cancelled) ∧ w_state w' = w_state w
  ∧ w_log w' = w_log w ++
      [EvPipeline (ri_pipeline_id info) (PsStarted (length (p_tasks pipeline)));
       EvRunStarted info;
       EvPipeline (ri_pipeline_id info) PsCancelled;
       EvRunErrored (ri_finish Errored (re_errored_at re) info) "pipeline was cancelled"].
Proof.
  intros Hv Hin Hs. rewrite run_execute by done. cbv zeta. set (env := exec_env pipeline _ _).
  set (w0 := started uuid_to_string new_v5 re pipeline ctx w).
  assert (Hs0 : w_state w0 = w_state w) by (unfold w0, started; by case_match).
  destruct Hv as [Ht _ Hc _].
  pose proof (wp_run (frozen (w_state w) (w_log w0)) _ _ w0
    (wp_cancelled_items _ (w_log w0) pipeline env inputs Hs Ht Hc Hin)) as Hr.
  destruct (run (execute_items uuid_to_string pipeline env inputs) w0) as [w1 r0].
  destruct Hr as [[Hs1 Hl1] Hr]; [done|]. cbn [fst snd] in Hs1, Hl1, Hr. subst r0.
  pose proof (started_log uuid_to_string new_v5 re pipeline ctx w) as Hl0. fold w0 in Hl0.
  clearbody w0. unfold conclude. rewrite run_bind. simpl.
  rewrite Hl1, Hs1, Hl0, <-!app_assoc. done.
Qed.

(** A task of weight 0 is found out too late: [execute] has already
    reported the run started (the [STARTED] record is written) when the progress
    split refuses the weights, and it returns [InvalidConfig] without any
    ending, so the record stays [STARTED]. *)
Theorem zero_weight_never_ends re (pipeline : Pipeline) inputs ctx (w : world) :
  p_batch_size pipeline ≠ 0 → p_concurrency pipeline ≠ 0 →
  Exists (λ info, ti_weight info = 0%N) (p_tasks pipeline) →
  let '(w', r) := run (execute re pipeline inputs ctx) w in
  let info := start_info re pipeline ctx in
  (∃ reason, r = Err (Throw (InvalidConfig reason)))
  ∧ w_log w' = w_log w ++
      [EvPipeline (ri_pipeline_id info) (PsStarted (length (p_tasks pipeline))); EvRunStarted info].
Proof.
  intros Hb Hc Hz.
  assert (Hex : execute re pipeline inputs ctx
                = execute_unscoped uuid_to_string new_v5 re pipeline inputs (scoped ctx)).
  { unfold Pipeline.execute, scoped. by case_match. }
  rewrite Hex. unfold execute_unscoped.
  assert (Hsp : ∃ reason, split_error (map ti_weight (p_tasks pipeline)) = Some reason).
  { unfold split_error. destruct (map ti_weight (p_tasks pipeline)) as [|n ns] eqn:Hws; [eauto|].
    destruct (list_find _ (n :: ns)) as [[j x]|] eqn:Hf; [eauto|]. exfalso.
    apply list_find_None in Hf. rewrite <-Hws in Hf. apply Exists_exists in Hz as (info & Hi & Hz).
    rewrite Forall_forall in Hf. apply (Hf (ti_weight info)); [|done].
    by apply list_elem_of_In, in_map, list_elem_of_In. }
  destruct Hsp as [reason Hsp].
  destruct (p_tasks pipeline) as [|info0 rest] eqn:Htasks; [by apply Exists_nil in Hz|].
  rewrite <-Htasks in *. rewrite !decide_False by done. cbv zeta. rewrite start_info_scoped, Hsp.
  unfold scoped, with_run_id. destruct ctx as [pr [p|] sc]; simpl;
    [destruct (pctx_dataset_id p)|]; simpl; rewrite <-app_assoc; eauto.
Qed.

(** Incremental dedup: an item the status manager knows as completed is
    skipped.  No task is called, the item yields nothing, the watcher is told,
    and it is marked completed again. *)
Theorem completed_item_skipped (pipeline : Pipeline) (env : ExecEnv) f v data_id s (w : world) :
  p_tasks pipeline ≠ [] → p_data_id_fn pipeline = Some f → env_data_id_fn env = Some f →
  f v = Some data_id → is_cancelled (w_state w) = false →
  is_completed data_id (env_name env) (env_dataset_id (with_ctx (with_current_data v (env_ctx env)) env))
    (w_state w) = (s, Ok true) →
  let '(w', r) := run (execute_one_item uuid_to_string pipeline env v) w in
  r = Ok [] ∧ w_log w' = w_log w ++
    [EvIsCompleted data_id; EvPipeline (env_pipeline_id env) (PsItemSkipped data_id);
     EvMarkCompleted data_id].
Proof.
  intros Ht Hf Hef Hv Hc Hdone. unfold execute_one_item. cbv zeta. rewrite run_bind.
  assert (Hex : run (execute_from uuid_to_string (p_tasks pipeline) v 0
                       (with_ctx (with_current_data v (env_ctx env)) env)) w
    = (add_event (EvPipeline (env_pipeline_id env) (PsItemSkipped data_id))
         (set_state s (add_event (EvIsCompleted data_id) w)), Ok [])).
  { unfold execute_from. destruct (p_tasks pipeline) as [|info rest]; [done|]. cbn [run_tail].
    destruct (run_tail uuid_to_string rest) as [ex di]. unfold fst, execute_step.
    rewrite run_bind. cbn [run check_cancelled read]. rewrite Hc.
    unfold bind_ok. rewrite run_bind. unfold already_completed. simpl env_data_id_fn.
    rewrite decide_True by done. rewrite Hef. cbn [mbind option_bind]. rewrite Hv, run_emit, run_bind, run_on_state.
    cbn [w_state add_event]. simpl env_name. unfold env_name in Hdone |- *. simpl env_pipeline_name.
    by rewrite Hdone. }
  rewrite Hex, run_bind. rewrite Hf. cbn [mbind option_bind]. rewrite Hv.
  pose proof (run_mark_item (Some data_id) (Ok []) env
    (add_event (EvPipeline (env_pipeline_id env) (PsItemSkipped data_id))
       (set_state s (add_event (EvIsCompleted data_id) w)))) as Hm.
  destruct (run (mark_item (Some data_id) (Ok []) env) _) as [w' []]. simpl in Hm |- *.
  split; [done|]. by rewrite Hm, <-!app_assoc.
Qed.

(** A batch task reached by a single value panics (a [call] on a batch
    variant): batch tasks run only behind an iterator or a stream. *)
Theorem single_into_batch_panics (info : TaskInfo) rest v i (env : ExecEnv) (w : world) :
  is_batch (ti_task info) = true → is_cancelled (w_state w) = false →
  (run (execute_from uuid_to_string (info :: rest) v (i + 1) env) w).2 = Err Panicked.
Proof.
  intros Hb Hc. unfold execute_from. cbn [run_tail].
  destruct (run_tail uuid_to_string rest) as [ex di]. unfold fst, execute_step.
  rewrite run_bind. cbn [run check_cancelled read]. rewrite Hc.
  unfold already_completed. rewrite decide_False by lia.
  unfold bind_ok at 1. rewrite run_bind. cbn [run ok]. rewrite run_emit, run_emit.
  unfold bind_ok. rewrite run_bind. unfold call_with_retry.
  assert (Hm : ∃ m, max_attempts (env_policy env) = Datatypes.S m).
  { destruct (env_policy env) as [|n d]; simpl; [by exists 0|].
    exists (Nat.pred (Pos.to_nat n)). pose proof (Pos2Nat.is_pos n). lia. }
  destruct Hm as [m ->]. cbn [retry_loop]. rewrite run_bind.
  destruct (run (match _ with Some rl => acquire rl | None => Ret tt end) _) as [wa []].
  rewrite run_bind. cbn [run emit modify]. rewrite run_bind, run_on_state.
  by destruct (ti_task info).
Qed.

(** A sentinel returned by a batch task as its one value is not filtered
    out: it is the batch's output (and, further up the chain, the next task's
    input). *)
Theorem batch_single_dropped_is_output (info : TaskInfo) g batch i prov (env : ExecEnv) (w : world) :
  ti_task info = SyncBatch g → ti_rate_limiter info = None → env_rate_limiter env = None →
  is_cancelled (w_state w) = false →
  (g batch (with_progress (TaskProgress i) (env_ctx env)) (w_state w)).2
    = Ok {| arc_value := VDropped; arc_shared := false |} →
  (run (dispatch_batch uuid_to_string [info] batch i prov env) w).2 = Ok [VDropped].
Proof.
  intros Ht Hrl Hrl' Hc Hg. unfold dispatch_batch. simpl. unfold dispatch_step.
  rewrite Ht, Hrl, Hrl'. simpl. rewrite Hc. simpl. destruct (g _ _ _) as [s r]. simpl in Hg. subst r.
  simpl. unfold stamp_single_output. by case_match.
Qed.
End short_runs.

(** ** Witnesses *)

#[local] Existing Instance example_status.
#[local] Existing Instance example_watcher.
#[local] Existing Instance example_cancellation.

(** A splitter that also drops, then a task that takes a batch, then a counter-keeping
    incrementer, on three inputs, two at a time. *)
Definition splitter : Task nat :=
  SyncIter (λ v _ n, (Datatypes.S n,
    match v with
    | VOther x => Ok (SItem (VOther x) (SWork Datatypes.S (λ _, SItem VDropped (SItem (VOther (x + 10)) SDone))))
    | _ => Err "not a number"
    end)).
Definition splitter_fn (v : Value) : result TaskError output :=
  match v with
  | VOther x => Ok (Many [VOther x; VDropped; VOther (x + 10)])
  | _ => Err "not a number"
  end.
Definition successor : Task nat :=
  Async (λ v _, Act Datatypes.S (λ _, Ret match v with
    | VOther x => Ok (example_out (x + 1)%N) | _ => Err "not a number" end)).
Definition successor_fn (v : Value) : result TaskError output :=
  match v with VOther x => Ok (One (VOther (x + 1))) | _ => Err "not a number" end.

Definition echo_fn (v : Value) : list Value := match v with VOther x => [VOther x; VOther (x + 100)] | _ => [] end.
Definition echo : Task nat :=
  SyncIterBatch (λ batch _ n, (n + length batch, Ok (foldr SItem SDone (concat (map echo_fn batch))))).

Lemma echo_computes (J : nat → Prop) : (∀ s n, J s → J (s + n)) → computes J echo (λ v, Ok (Many (echo_fn v))).
Proof.
  intros HJ batch ctx s Hs. split; [by apply HJ|]. exists (concat (map echo_fn batch)). split; [|split].
  - exists (map echo_fn batch). split; [|done]. induction batch; by constructor.
  - induction (concat (map echo_fn batch)) as [|v l IH]; [done|]. simpl. by exists l.
  - induction batch as [|v batch IH]; simpl; [constructor|]. apply Forall_app. split; [|done].
    destruct v; simpl; by repeat constructor.
Qed.

Definition example_chain : list (TaskInfo nat * (Value → result TaskError output)) :=
  [(TaskInfo_new splitter, splitter_fn); (TaskInfo_new echo, λ v, Ok (Many (echo_fn v)));
   (TaskInfo_new successor, successor_fn)].

Definition example_chain_pipeline : Pipeline := {|
  p_id := 1%N; p_name := Some "demo"; p_description := ""; p_tasks := map fst example_chain;
  p_retry_policy := example_policy; p_batch_size := 2;
  p_data_id_fn := Some (λ v, match v with VOther n => Some (pretty n) | _ => None end);
  p_concurrency := 2; p_rate_limiter := None; p_recovery_lock := None |}.

Lemma example_chain_valid : valid example_chain_pipeline.
Proof. split; simpl; [done|done|done|]. repeat constructor; done. Defined.

Lemma execute_denotes_witness :
  (run (execute example_to_string example_v5 example_run example_chain_pipeline
          [VOther 1; VOther 2] example_context) example_world).2
  = Ok [VOther 2; VOther 102; VOther 12; VOther 112; VOther 3; VOther 103; VOther 13; VOther 113].
Proof.
  eapply eq_trans; [apply (@execute_denotes nat example_cancellation example_status example_watcher
    example_to_string example_v5 (λ _ : nat, True)
    (λ _ _, eq_refl) example_chain_pipeline example_chain eq_refl)|].
  - constructor; [|constructor; [|constructor; [|done]]]; (split; [|done]).
    + intros v ctx s _. split; [done|]. destruct v; simpl; try done. split; [|by repeat constructor].
      eexists. split; [done|]. intros s' _. split; [done|]. do 2 (eexists; split; [done|]). done.
    + by apply echo_computes.
    + intros v ctx s _. split; [done|]. by destruct v.
  - repeat split; intros Hb; discriminate Hb || reflexivity.
  - intros _ data_id name dataset_id s _. by repeat split.
  - apply example_chain_valid.
  - done.
  - done.
  - intros [|[|[|k]]] Hk; [done|done|done|]. change (max_attempts _) with 4 in Hk. lia.
  - done.
  - vm_compute. reflexivity.
Defined.

Notation bool_cancellation := ({| is_cancelled b := b |} : Cancellation bool) (only parsing).
Notation bool_status := (NoopExecStatusManager bool) (only parsing).
Notation bool_watcher := (NoopWatcher bool) (only parsing).
Definition bool_task : TaskInfo bool := TaskInfo_new (Sync (λ v _ b, (b, Ok (example_out 1%N)))).
Definition bool_pipeline (t : TaskInfo bool) : @Pipeline bool := {|
  p_id := 1%N; p_name := Some "demo"; p_description := ""; p_tasks := [t];
  p_retry_policy := example_policy; p_batch_size := 2; p_data_id_fn := None;
  p_concurrency := 2; p_rate_limiter := None; p_recovery_lock := None |}.
Definition bool_world (b : bool) : world bool :=
  {| w_visited := ∅; w_log := []; w_state := b; w_sched := Nat.even |}.

Lemma cancelled_run_witness :
  let '(w', r) := run (@execute bool bool_cancellation bool_status bool_watcher
      example_to_string example_v5 example_run (bool_pipeline bool_task)
      [VOther 1; VOther 2; VOther 3] example_context) (bool_world true) in
  r = Err (Throw Cancelled) ∧ length (w_log w') = 4.
Proof.
  pose proof (@cancelled_run bool bool_cancellation bool_status bool_watcher
    example_to_string example_v5 example_run (bool_pipeline bool_task)
    [VOther 1; VOther 2; VOther 3] example_context (bool_world true)) as Hc.
  destruct (run _ (bool_world true)) as [w' r].
  destruct Hc as (Hr & _ & Hl); [|done|done|by split; [|rewrite Hl]].
  split; simpl; [done|done|done|]. by repeat constructor.
Defined.

Lemma zero_weight_never_ends_witness :
  let '(w', r) := run (@execute bool bool_cancellation bool_status bool_watcher
      example_to_string example_v5 example_run (bool_pipeline (ti_with_weight 0 bool_task))
      [VOther 1] example_context) (bool_world false) in
  (∃ reason, r = Err (Throw (InvalidConfig reason))) ∧ length (w_log w') = 2.
Proof.
  pose proof (@zero_weight_never_ends bool bool_cancellation bool_status bool_watcher
    example_to_string example_v5 example_run (bool_pipeline (ti_with_weight 0 bool_task))
    [VOther 1] example_context (bool_world false)) as Hz.
  destruct (run _ (bool_world false)) as [w' r].
  destruct Hz as (Hr & Hl); [done|done|by constructor|by split; [|rewrite Hl]].
Defined.

(** A status manager that knows every item as completed. *)
Notation all_done := ({|
  is_completed _ _ _ s := (s, Ok true);
  mark_completed _ _ _ s := (s, Ok tt);
  mark_failed _ _ _ _ s := (s, Ok tt);
  stamp_provenance _ _ _ _ _ s := (s, Ok tt) |} : ExecStatusManager nat) (only parsing).

Lemma completed_item_skipped_witness :
  let '(w', r) := run (@execute_one_item nat example_cancellation all_done example_to_string
      example_pipeline example_env (VOther 1)) example_world in
  r = Ok [] ∧ w_log w' =
    [EvIsCompleted "1"; EvPipeline 4 (PsItemSkipped "1"); EvMarkCompleted "1"].
Proof.
  apply (@completed_item_skipped nat example_cancellation all_done example_to_string
    example_pipeline example_env
    (λ v, match v with VOther n => Some (pretty n) | _ => None end) (VOther 1) "1" 0 example_world);
    reflexivity || done.
Defined.

Definition batch_drop : TaskInfo bool :=
  TaskInfo_new (SyncBatch (λ _ _ b, (b, Ok {| arc_value := VDropped; arc_shared := false |}))).
Notation bool_env := (exec_env (bool_pipeline batch_drop)
  (@start_info bool example_to_string example_v5 example_run (bool_pipeline batch_drop) example_context)
  example_context).

Lemma single_into_batch_panics_witness :
  (run (@execute_from bool bool_cancellation bool_status example_to_string
          [batch_drop] (VOther 1) (0 + 1) bool_env) (bool_world false)).2 = Err Panicked.
Proof.
  by apply (@single_into_batch_panics bool bool_cancellation bool_status example_to_string
              batch_drop [] (VOther 1) 0 bool_env (bool_world false)).
Defined.

Lemma batch_single_dropped_is_output_witness :
  (run (@dispatch_batch bool bool_cancellation bool_status example_to_string
          [batch_drop] [VOther 1; VOther 2] 1 (task_prov example_to_string (VOther 1) "" 1 bool_env) bool_env)
     (bool_world false)).2 = Ok [VDropped].
Proof.
  by apply (@batch_single_dropped_is_output bool bool_cancellation bool_status example_to_string
              batch_drop (λ _ _ b, (b, Ok {| arc_value := VDropped; arc_shared := false |}))
              [VOther 1; VOther 2] 1 (task_prov example_to_string (VOther 1) "" 1 bool_env) bool_env
              (bool_world false)).
Defined.
