(* ===== verification/RunRecords.v ===== *)
(** * Run records (pipeline_run_registry/{types,run_info,ids,db_watcher}.rs)

    The rows a run leaves in the [pipeline_runs] table and the watcher that writes
    them. *)

From S2P Require Import Prelude Text Json DataPoint Models Provenance Proc Task Pipeline PipelineFacts.

(** ** Types *)

Record RunHandle := {
  rh_run_id : uuid;
  rh_task_run_id : uuid;
  rh_user_id : option uuid;
  rh_dataset_id : option uuid;
  rh_pipeline_name : string;
  rh_started_at : Z;
}.

Inductive RunEventKind :=
  | KStarted
  | KYield
  | KCompleted
  | KErrored (message : string)
  | KAlreadyCompleted.

Record RunEvent := { ev_run_id : uuid; ev_kind : RunEventKind; ev_payload : json; ev_at : Z }.

Inductive RunPhase :=
  | Pending
  | Running
  | PhCompleted
  | PhErrored (message : string).

Record RunSpec := {
  rs_run_id : option uuid;
  rs_pipeline_name : string;
  rs_user_id : option uuid;
  rs_dataset_id : option uuid;
}.

(** Durations in milliseconds. *)
Record RegistryConfig := {
  max_in_memory_runs : nat;
  finished_retention : Z;
  channel_capacity : nat;
  yield_throttle : option Z;
  abort_writes_errored_row : bool;
}.

Definition RegistryConfig_default : RegistryConfig := {|
  max_in_memory_runs := 4096;
  finished_retention := 3600 * 1000;
  channel_capacity := 64;
  yield_throttle := None;
  abort_writes_errored_row := true;
|}.

Inductive RegistryError :=
  | UnknownRun (run_id : uuid)
  | Aborted
  | Shutdown
  | Repository (reason : string)
  | RegistryFull.

Record RunOutcome := { ro_run_id : uuid; ro_phase : RunPhase }.

(** ** [run_info] *)

Section run_info.
Context (uuid_to_string : uuid → string) (parse_str : string → option uuid).

Definition run_info_for_started (recovery_lock : option uuid) : json :=
  JObject match recovery_lock with
          | Some token => {["recovery_lock" := JString (uuid_to_string token)]}
          | None => ∅
          end.

Definition recovery_lock_of (run_info : option json) : option uuid :=
  info ← run_info; v ← json_get "recovery_lock" info; raw ← json_as_str v; parse_str raw.

Definition run_info_for_completed : json := JObject ∅.

Definition run_info_for_errored (error : string) : json := JObject {["error" := JString error]}.

(** The recovery token survives its row: startup recovery reads back from a
    [STARTED] row exactly the token the run was given (if the [uuid] crate reads
    back what it displays), and finds none in a terminal row. *)
Theorem recovery_lock_roundtrip lock error :
  (∀ u, parse_str (uuid_to_string u) = Some u) →
  recovery_lock_of (Some (run_info_for_started lock)) = lock
  ∧ recovery_lock_of (Some run_info_for_completed) = None
  ∧ recovery_lock_of (Some (run_info_for_errored error)) = None.
Proof.
  intros Hparse. unfold recovery_lock_of, run_info_for_errored. simpl. split; [|split].
  - destruct lock as [u|]; simpl; [|done]. rewrite lookup_singleton_eq. simpl. by rewrite Hparse.
  - by rewrite lookup_empty.
  - by rewrite lookup_singleton_ne.
Qed.
End run_info.

Lemma recovery_lock_roundtrip_witness :
  recovery_lock_of (λ s, Some (N.of_nat (String.length s)))
    (Some (run_info_for_started (λ u, String.string_of_list_ascii (replicate (N.to_nat u) Ascii.zero)) (Some 5%N)))
  = Some 5%N.
Proof.
  apply (recovery_lock_roundtrip (λ u, String.string_of_list_ascii (replicate (N.to_nat u) Ascii.zero))
           (λ s, Some (N.of_nat (String.length s))) (Some 5%N) "").
  intros u. f_equal. rewrite <-(N2Nat.id u) at 2. f_equal.
  induction (N.to_nat u) as [|n IH]; simpl; [done|]. by rewrite IH.
Defined.

(** [ids.rs] *)
Definition pipeline_id (uuid_to_string : uuid → string) (new_v5 : uuid → string → uuid)
    (user_id dataset_id : uuid) (pipeline_name : string) : uuid :=
  new_v5 NAMESPACE_OID (uuid_to_string user_id +:+ pipeline_name +:+ uuid_to_string dataset_id).

Definition pipeline_run_id (uuid_to_string : uuid → string) (new_v5 : uuid → string → uuid)
    (pipeline_id dataset_id : uuid) : uuid :=
  new_v5 NAMESPACE_OID (uuid_to_string pipeline_id +:+ "_" +:+ uuid_to_string dataset_id).

(** ** The repository *)

(** [PipelineRunStatus] of the database *)
Inductive DbStatus := DbInitiated | DbStarted | DbCompleted | DbErrored.

#[export] Instance DbStatus_eq_dec : EqDecision DbStatus.
Proof. solve_decision. Defined.

Record PipelineRunEntry := {
  pe_pipeline_run_id : uuid;
  pe_pipeline_id : uuid;
  pe_pipeline_name : string;
  pe_dataset_id : option uuid;
  pe_status : DbStatus;
  pe_run_info : option json;
  pe_user_id : option uuid;
}.

(** The part of the trait [PipelineRunRepository] the core uses; [rows] are the
    rows written so far. *)
Class PipelineRunRepository (R : Type) := {
  log_pipeline_run_entry : PipelineRunEntry → R → R * result string unit;
  rows : R → list PipelineRunEntry;
}.

(** A write either appends its row or fails and leaves the table alone. *)
Class RepositoryLaws R `{PipelineRunRepository R} := {
  log_ok : ∀ e r r', log_pipeline_run_entry e r = (r', Ok tt) → rows r' = rows r ++ [e];
  log_err : ∀ e r r' s, log_pipeline_run_entry e r = (r', Err s) → rows r' = rows r;
}.

Definition is_terminal (s : DbStatus) : bool :=
  match s with DbInitiated | DbStarted => false | DbCompleted | DbErrored => true end.

(** ** [DbPipelineWatcher] *)
Section db_watcher.
Context {R : Type} `{PipelineRunRepository R}.
Context (uuid_to_string : uuid → string).

Record DbPipelineWatcher := { dw_repo : R; dw_terminal_write_failed : bool }.

(** [DbPipelineWatcher::new] *)
Definition DbPipelineWatcher_new (repo : R) : DbPipelineWatcher :=
  {| dw_repo := repo; dw_terminal_write_failed := false |}.

Definition core_to_db_status (s : PipelineRunStatus) : DbStatus :=
  match s with Started => DbStarted | Completed => DbCompleted | Errored => DbErrored end.

Definition entry_of (run : PipelineRunInfo) (status : DbStatus) (run_info : json)
    : PipelineRunEntry := {|
  pe_pipeline_run_id := ri_run_id run;
  pe_pipeline_id := ri_pipeline_id run;
  pe_pipeline_name := ri_pipeline_name run;
  pe_dataset_id := ri_dataset_id run;
  pe_status := status;
  pe_run_info := Some run_info;
  pe_user_id := ri_user_id run;
|}.

Definition dw_on_run_started (run : PipelineRunInfo) (d : DbPipelineWatcher) : DbPipelineWatcher :=
  let e := entry_of run (core_to_db_status (ri_status run)) (run_info_for_started uuid_to_string (ri_recovery_lock run)) in
  let '(repo, _) := log_pipeline_run_entry e (dw_repo d) in
  {| dw_repo := repo; dw_terminal_write_failed := dw_terminal_write_failed d |}.

Definition dw_on_run_completed (run : PipelineRunInfo) (output_count : nat) (d : DbPipelineWatcher)
    : DbPipelineWatcher * result string unit :=
  match log_pipeline_run_entry (entry_of run DbCompleted run_info_for_completed) (dw_repo d) with
  | (repo, Ok _) =>
      ({| dw_repo := repo; dw_terminal_write_failed := dw_terminal_write_failed d |}, Ok tt)
  | (repo, Err e) => ({| dw_repo := repo; dw_terminal_write_failed := true |}, Err e)
  end.

Definition dw_on_run_errored (run : PipelineRunInfo) (error : string) (d : DbPipelineWatcher)
    : DbPipelineWatcher :=
  match log_pipeline_run_entry (entry_of run DbErrored (run_info_for_errored error)) (dw_repo d) with
  | (repo, Ok _) => {| dw_repo := repo; dw_terminal_write_failed := false |}
  | (repo, Err _) => {| dw_repo := repo; dw_terminal_write_failed := true |}
  end.

(** The terminal callbacks the executor makes at the end of a run (its
    [conclude]): completed, and errored if the run or that write failed. *)
Definition dw_conclude (re : run_env) (run : PipelineRunInfo) (result : result ExecutionError nat)
    (d : DbPipelineWatcher) : DbPipelineWatcher :=
  match result with
  | Ok n =>
      match dw_on_run_completed (ri_finish Completed (re_completed_at re) run) n d with
      | (d, Ok _) => d
      | (d, Err reason) =>
          dw_on_run_errored (ri_finish Errored (re_errored_at re) run)
            (ExecutionError_to_string (RunRecordFailed reason)) d
      end
  | Err e =>
      dw_on_run_errored (ri_finish Errored (re_errored_at re) run) (ExecutionError_to_string e) d
  end.

Context `{!RepositoryLaws R}.

Lemma log_cases e r : ∃ r' res, log_pipeline_run_entry e r = (r', res)
  ∧ rows r' = rows r ++ match res with Ok _ => [e] | Err _ => [] end.
Proof.
  destruct (log_pipeline_run_entry e r) as [r' [[]|s]] eqn:He; do 2 eexists; (split; [done|]).
  - by apply log_ok.
  - rewrite app_nil_r. by eapply log_err.
Qed.

(** When a run has ended, [terminal_write_failed] is false exactly when the table has
    gained one terminal row, this run's; otherwise it has gained none. *)
Lemma dw_conclude_rows re run result (d : DbPipelineWatcher) :
  dw_terminal_write_failed d = false →
  let d' := dw_conclude re run result d in
  if dw_terminal_write_failed d' then rows (dw_repo d') = rows (dw_repo d)
  else ∃ e, rows (dw_repo d') = rows (dw_repo d) ++ [e]
       ∧ pe_pipeline_run_id e = ri_run_id run ∧ pe_dataset_id e = ri_dataset_id run
       ∧ is_terminal (pe_status e) = true ∧ (∀ er, result = Err er → pe_status e = DbErrored).
Proof.
  intros Hd d'. unfold d', dw_conclude.
  assert (Herr : ∀ m (d1 : DbPipelineWatcher), rows (dw_repo d1) = rows (dw_repo d) →
    let d2 := dw_on_run_errored (ri_finish Errored (re_errored_at re) run) m d1 in
    if dw_terminal_write_failed d2 then rows (dw_repo d2) = rows (dw_repo d)
    else ∃ e, rows (dw_repo d2) = rows (dw_repo d) ++ [e]
         ∧ pe_pipeline_run_id e = ri_run_id run ∧ pe_dataset_id e = ri_dataset_id run
         ∧ is_terminal (pe_status e) = true ∧ pe_status e = DbErrored).
  { intros m d1 Hd1. unfold dw_on_run_errored. cbv zeta.
    destruct (log_cases (entry_of (ri_finish Errored (re_errored_at re) run) DbErrored
      (run_info_for_errored m)) (dw_repo d1)) as (r' & [[]|e] & -> & Hr); simpl.
    - eexists. split; [by rewrite Hr, Hd1|done].
    - by rewrite Hr, Hd1, app_nil_r. }
  destruct result as [n|e].
  - unfold dw_on_run_completed.
    destruct (log_cases (entry_of (ri_finish Completed (re_completed_at re) run) DbCompleted
      run_info_for_completed) (dw_repo d)) as (r' & [[]|reason] & -> & Hr).
    + simpl. rewrite Hd. eexists. by split.
    + rewrite app_nil_r in Hr.
      specialize (Herr (ExecutionError_to_string (RunRecordFailed reason))
        {| dw_repo := r'; dw_terminal_write_failed := true |} Hr). cbv zeta in Herr.
      case_match; [done|]. destruct Herr as (e & ? & ? & ? & ? & ?). by exists e.
  - specialize (Herr (ExecutionError_to_string e) d eq_refl). cbv zeta in Herr.
    case_match; [done|]. destruct Herr as (e' & ? & ? & ? & ? & ?). exists e'. split_and!; naive_solver.
Qed.
End db_watcher.
Arguments DbPipelineWatcher : clear implicits.

(** A table of rows whose writes fail while a countdown lasts. *)
Notation flaky_repo := ({|
  log_pipeline_run_entry e (r : nat * list PipelineRunEntry) :=
    match r.1 with
    | 0 => ((0, r.2 ++ [e]), Ok tt)
    | S n => ((n, r.2), Err "database is locked")
    end;
  rows r := r.2 |} : PipelineRunRepository (nat * list PipelineRunEntry)).

Lemma flaky_repo_laws : @RepositoryLaws _ flaky_repo.
Proof.
  split; intros e [[|n] l] r'; simpl; [by intros [= <-]|done|done|].
  intros s [= <- _]. done.
Qed.
