(* ===== verification/Ledger.v ===== *)
(** * The ownership ledger (crates/database/src/ops/graph_storage.rs)

    The [nodes] and [edges] tables: one row per artifact a data item of a dataset
    contributed, with the run that wrote it.  Both tables are queried by the same
    columns, which is the class [LedgerRow]; a query is the meaning of its SQL
    statement. *)

From stdpp Require Import sorting.
From S2P Require Import Prelude Json Strings.

(** ** Rows *)

Record GraphNode := {
  gn_id : uuid;
  gn_slug : uuid;
  gn_user_id : uuid;
  gn_data_id : uuid;
  gn_dataset_id : uuid;
  gn_pipeline_run_id : option uuid;
  gn_label : option string;
  gn_node_type : string;
  gn_indexed_fields : json;
  gn_attributes : option json;
  gn_created_at : Z;
}.

Record GraphEdge := {
  ge_id : uuid;
  ge_slug : uuid;
  ge_user_id : uuid;
  ge_data_id : uuid;
  ge_dataset_id : uuid;
  ge_pipeline_run_id : option uuid;
  ge_source_node_id : uuid;
  ge_destination_node_id : uuid;
  ge_relationship_name : string;
  ge_label : option string;
  ge_attributes : option json;
  ge_created_at : Z;
}.

(** The columns the two tables share.  [row_update new old] is the row after
    [INSERT new ... ON CONFLICT (id) DO UPDATE]: every column of [new] but the run
    and the time of [old]. *)
Class LedgerRow (T : Type) := {
  row_id : T → uuid;
  row_slug : T → uuid;
  row_data_id : T → uuid;
  row_dataset_id : T → uuid;
  row_run : T → option uuid;
  row_created_at : T → Z;
  row_update : T → T → T;
}.

Class LedgerRowLaws T `{LedgerRow T} := {
  row_update_id : ∀ new old, row_id (row_update new old) = row_id old;
  row_update_run : ∀ new old, row_run (row_update new old) = row_run old;
  row_update_slug : ∀ new old, row_slug (row_update new old) = row_slug new;
  row_update_data_id : ∀ new old, row_data_id (row_update new old) = row_data_id new;
  row_update_dataset_id : ∀ new old, row_dataset_id (row_update new old) = row_dataset_id new;
  row_update_update : ∀ a b c, row_update a (row_update b c) = row_update a c;
  row_update_refl : ∀ a, row_update a a = a;
}.

#[export] Instance node_row : LedgerRow GraphNode := {|
  row_id := gn_id; row_slug := gn_slug; row_data_id := gn_data_id; row_dataset_id := gn_dataset_id;
  row_run := gn_pipeline_run_id; row_created_at := gn_created_at;
  row_update new old := {|
    gn_id := gn_id old; gn_slug := gn_slug new; gn_user_id := gn_user_id new;
    gn_data_id := gn_data_id new; gn_dataset_id := gn_dataset_id new;
    gn_pipeline_run_id := gn_pipeline_run_id old; gn_label := gn_label new;
    gn_node_type := gn_node_type new; gn_indexed_fields := gn_indexed_fields new;
    gn_attributes := gn_attributes new; gn_created_at := gn_created_at old |} |}.

#[export] Instance edge_row : LedgerRow GraphEdge := {|
  row_id := ge_id; row_slug := ge_slug; row_data_id := ge_data_id; row_dataset_id := ge_dataset_id;
  row_run := ge_pipeline_run_id; row_created_at := ge_created_at;
  row_update new old := {|
    ge_id := ge_id old; ge_slug := ge_slug new; ge_user_id := ge_user_id new;
    ge_data_id := ge_data_id new; ge_dataset_id := ge_dataset_id new;
    ge_pipeline_run_id := ge_pipeline_run_id old;
    ge_source_node_id := ge_source_node_id new; ge_destination_node_id := ge_destination_node_id new;
    ge_relationship_name := ge_relationship_name new; ge_label := ge_label new;
    ge_attributes := ge_attributes new; ge_created_at := ge_created_at old |} |}.

#[export] Instance node_row_laws : LedgerRowLaws GraphNode.
Proof. split; try done. by intros []. Qed.
#[export] Instance edge_row_laws : LedgerRowLaws GraphEdge.
Proof. split; try done. by intros []. Qed.

Record ledger := { lg_nodes : list GraphNode; lg_edges : list GraphEdge }.

(** ** Writing *)

Definition PROVENANCE_INSERT_BATCH : nat := 500.

Section upsert.
Context `{LedgerRow T}.

(** [dedup_keeping_last] *)
Definition dedup_keeping_last (items : list T) : list T :=
  rev (foldl (λ out item, if decide (row_id item ∈ map row_id out) then out else out ++ [item]) [] (rev items)).

(** One row of [INSERT ... ON CONFLICT (id) DO UPDATE]. *)
Fixpoint upsert_row (row : T) (table : list T) : list T :=
  match table with
  | [] => [row]
  | old :: table => if decide (row_id old = row_id row) then row_update row old :: table
                    else old :: upsert_row row table
  end.

(** [upsert_nodes_on] and [upsert_edges_on]: a statement per batch. *)
Definition upsert_rows (rows table : list T) : list T :=
  foldl (λ table batch, foldl (λ table row, upsert_row row table) table (dedup_keeping_last batch))
    table (chunks PROVENANCE_INSERT_BATCH rows).
End upsert.

(** [upsert_provenance_graph]; a transaction. *)
Definition upsert_provenance_graph (nodes : list GraphNode) (edges : list GraphEdge) (l : ledger) : ledger :=
  {| lg_nodes := upsert_rows nodes (lg_nodes l); lg_edges := upsert_rows edges (lg_edges l) |}.

(** ** Run-scoped queries *)

Record RunScope := {
  rs_pipeline_run_id : uuid;
  rs_dataset : uuid;
  rs_data_ids : option (list uuid);
}.

(** [RunScope::selects_nothing] *)
Definition selects_nothing (scope : RunScope) : bool :=
  match rs_data_ids scope with Some [] => true | _ => false end.

Section run_scope.
Context `{LedgerRow T}.

(** [node_selection] and [edge_selection]; [NULL = :run] is not true. *)
Definition selected_by (scope : RunScope) (row : T) : Prop :=
  match row_run row with Some run => run = rs_pipeline_run_id scope | None => False end
  ∧ row_dataset_id row = rs_dataset scope
  ∧ match rs_data_ids scope with Some ids => row_data_id row ∈ ids | None => True end.

(** The condition [outside] of the exclusivity queries. *)
Definition outside (scope : RunScope) (row : T) : Prop :=
  row_run row = None
  ∨ match row_run row with Some run => run ≠ rs_pipeline_run_id scope | None => False end
  ∨ row_dataset_id row ≠ rs_dataset scope
  ∨ match rs_data_ids scope with Some ids => row_data_id row ∉ ids | None => False end.

#[export] Instance selected_by_dec scope row : Decision (selected_by scope row).
Proof. unfold selected_by. destruct (row_run row), (rs_data_ids scope); apply _. Defined.
#[export] Instance outside_dec scope row : Decision (outside scope row).
Proof. unfold outside. destruct (row_run row), (rs_data_ids scope); apply _. Defined.

(** [ORDER BY created_at ASC] *)
Definition older (a b : T) : Prop := (row_created_at a ≤ row_created_at b)%Z.
#[export] Instance older_dec a b : Decision (older a b).
Proof. unfold older. apply _. Defined.

(** Some row of the table with this slug satisfies [P]: the correlated [EXISTS]. *)
Definition claimed_by (P : T → Prop) (table : list T) (slug : uuid) : Prop :=
  Exists (λ row, row_slug row = slug ∧ P row) table.
#[export] Instance claimed_by_dec P `{∀ r, Decision (P r)} table slug : Decision (claimed_by P table slug).
Proof. unfold claimed_by. apply _. Defined.

(** [get_nodes_for_run] and [get_edges_for_run] *)
Definition rows_for_run (scope : RunScope) (table : list T) : list T :=
  if selects_nothing scope then [] else merge_sort older (filter (selected_by scope) table).

(** [get_unique_nodes_for_run] and [get_unique_edges_for_run] *)
Definition unique_rows_for_run (scope : RunScope) (table : list T) : list T :=
  if selects_nothing scope then []
  else merge_sort older
         (filter (λ row, selected_by scope row ∧ ¬ claimed_by (outside scope) table (row_slug row)) table).

(** [delete_nodes_for_run] and [delete_edges_for_run]: the rows left, and how many
    went. *)
Definition delete_rows_for_run (scope : RunScope) (table : list T) : list T * nat :=
  if selects_nothing scope then (table, 0)
  else (filter (λ row, ¬ selected_by scope row) table, length (filter (selected_by scope) table)).

(** The distinct data ids of the selected rows. *)
Definition selected_data_ids (scope : RunScope) (table : list T) : gset uuid :=
  list_to_set (map row_data_id (filter (selected_by scope) table)).
End run_scope.

(** [get_data_ids_for_run]; a [BTreeSet] lists its members in order. *)
Definition get_data_ids_for_run (scope : RunScope) (l : ledger) : list uuid :=
  if selects_nothing scope then []
  else merge_sort N.le (elements (selected_data_ids scope (lg_nodes l) ∪ selected_data_ids scope (lg_edges l))).

(** ** Retrieval texts *)

(** [EdgeType::retrieval_text] *)
Definition retrieval_text (edge_text : option string) (relationship_name : string) : string :=
  match trim <$> edge_text with
  | Some text => if decide (text = "") then trim relationship_name else text
  | None => trim relationship_name
  end.

(** The string [attributes.edge_text], as SQL or serde reads it. *)
Definition edge_text_of (e : GraphEdge) : option string :=
  attributes ← ge_attributes e; v ← json_get "edge_text" attributes; json_as_str v.

(** [edge_retrieval_text] (crates/delete/src/lib.rs) *)
Definition edge_retrieval_text (e : GraphEdge) : string :=
  retrieval_text (edge_text_of e) (ge_relationship_name e).

(** [retrieval_texts_where] *)
Definition retrieval_texts_where (P : GraphEdge → Prop) `{∀ e, Decision (P e)} (l : ledger) : gset string :=
  list_to_set (map edge_retrieval_text (filter P (lg_edges l))).

(** [get_edge_retrieval_texts_claimed_outside_run] *)
Definition get_edge_retrieval_texts_claimed_outside_run (scope : RunScope) (l : ledger) : gset string :=
  retrieval_texts_where (outside scope) l.

(** ** Data-scoped queries *)

Section data_scope.
Context `{LedgerRow T}.

Definition of_data (data_id dataset_id : uuid) (row : T) : Prop :=
  row_data_id row = data_id ∧ row_dataset_id row = dataset_id.
#[export] Instance of_data_dec data_id dataset_id row : Decision (of_data data_id dataset_id row).
Proof. unfold of_data. apply _. Defined.

(** Another item of the dataset. *)
Definition sibling (data_id dataset_id : uuid) (row : T) : Prop :=
  row_dataset_id row = dataset_id ∧ row_data_id row ≠ data_id.
#[export] Instance sibling_dec data_id dataset_id row : Decision (sibling data_id dataset_id row).
Proof. unfold sibling. apply _. Defined.

(** [get_unique_nodes_for_data] and [get_unique_edges_for_data] *)
Definition unique_rows_for_data (data_id dataset_id : uuid) (table : list T) : list T :=
  filter (λ row, of_data data_id dataset_id row
                 ∧ ¬ claimed_by (sibling data_id dataset_id) table (row_slug row)) table.

(** [delete_nodes_for_data] and [delete_edges_for_data] *)
Definition delete_rows_for_data (data_id dataset_id : uuid) (table : list T) : list T :=
  filter (λ row, ¬ of_data data_id dataset_id row) table.

(** [count_nodes_for_data] and [count_edges_for_data] *)
Definition count_rows_for_data (data_id dataset_id : uuid) (table : list T) : nat :=
  length (filter (of_data data_id dataset_id) table).

(** [get_nodes_by_dataset] and [get_edges_by_dataset] *)
Definition rows_by_dataset (dataset_id : uuid) (table : list T) : list T :=
  merge_sort older (filter (λ row, row_dataset_id row = dataset_id) table).

(** [delete_nodes_by_dataset] and [delete_edges_by_dataset] *)
Definition delete_rows_by_dataset (dataset_id : uuid) (table : list T) : list T :=
  filter (λ row, row_dataset_id row ≠ dataset_id) table.
End data_scope.

(** [endpoint_exclusive_to] *)
Definition endpoint_exclusive_to (data_id dataset_id : uuid) (l : ledger) (endpoint : uuid) : Prop :=
  claimed_by (of_data data_id dataset_id) (lg_nodes l) endpoint
  ∧ ¬ claimed_by (sibling data_id dataset_id) (lg_nodes l) endpoint.
#[export] Instance endpoint_exclusive_to_dec data_id dataset_id l endpoint :
  Decision (endpoint_exclusive_to data_id dataset_id l endpoint).
Proof. unfold endpoint_exclusive_to. apply _. Defined.

(** [structural_edges_owned_by] *)
Definition structural_edge_of (data_id dataset_id : uuid) (l : ledger) (e : GraphEdge) : Prop :=
  ge_data_id e = nil_uuid ∧ ge_dataset_id e = dataset_id
  ∧ (endpoint_exclusive_to data_id dataset_id l (ge_source_node_id e)
     ∨ endpoint_exclusive_to data_id dataset_id l (ge_destination_node_id e)).
#[export] Instance structural_edge_of_dec data_id dataset_id l e :
  Decision (structural_edge_of data_id dataset_id l e).
Proof. unfold structural_edge_of. apply _. Defined.

(** [get_structural_edges_for_data] *)
Definition get_structural_edges_for_data (data_id dataset_id : uuid) (l : ledger) : list GraphEdge :=
  filter (structural_edge_of data_id dataset_id l) (lg_edges l).

(** [edge_row_is_live_claim] *)
Definition edge_row_is_live_claim (l : ledger) (e : GraphEdge) : Prop :=
  ge_data_id e ≠ nil_uuid
  ∨ claimed_by (λ _, True) (lg_nodes l) (ge_source_node_id e)
  ∨ claimed_by (λ _, True) (lg_nodes l) (ge_destination_node_id e).
#[export] Instance edge_row_is_live_claim_dec l e : Decision (edge_row_is_live_claim l e).
Proof. unfold edge_row_is_live_claim. apply _. Defined.

(** The condition [surviving] of [get_edge_retrieval_texts_claimed_outside_data]. *)
Definition surviving (data_id dataset_id : uuid) (l : ledger) (e : GraphEdge) : Prop :=
  (ge_data_id e ≠ data_id ∨ ge_dataset_id e ≠ dataset_id)
  ∧ ¬ structural_edge_of data_id dataset_id l e
  ∧ edge_row_is_live_claim l e.
#[export] Instance surviving_dec data_id dataset_id l e : Decision (surviving data_id dataset_id l e).
Proof. unfold surviving. apply _. Defined.

(** [get_edge_retrieval_texts_claimed_outside_data]; [produces_candidate] only spares
    rows that could not produce a candidate. *)
Definition get_edge_retrieval_texts_claimed_outside_data (data_id dataset_id : uuid)
    (candidates : list string) (l : ledger) : gset string :=
  filter (λ text, text ∈ candidates) (retrieval_texts_where (surviving data_id dataset_id l) l).

(** [delete_edges_by_ids] *)
Definition delete_edges_by_ids (ids : list uuid) (edges : list GraphEdge) : list GraphEdge * nat :=
  (filter (λ e, ge_id e ∉ ids) edges, length (filter (λ e, ge_id e ∈ ids) edges)).
