(* ===== verification/LedgerFacts.v ===== *)
(** * Facts about the ownership ledger

    What the batched upserts leave in a table, row by row, and what a run's
    selection and its complement are. *)

From stdpp Require Import sorting.
From S2P Require Import Prelude Json Strings Ledger.

(** ** Rows by id *)

Section rows.
Context `{LedgerRowLaws T}.
Implicit Types (table rows batch : list T) (row old base : T).

(** The row with this primary key. *)
Fixpoint find_row (id : uuid) (table : list T) : option T :=
  match table with
  | [] => None
  | row :: table => if decide (row_id row = id) then Some row else find_row id table
  end.

(** No two rows have the same key. *)
Definition keyed (table : list T) : Prop := NoDup (map row_id table).

Lemma find_row_Some id table row : find_row id table = Some row → row ∈ table ∧ row_id row = id.
Proof.
  induction table as [|r table IH]; simpl; [done|]. case_decide; intros ?; simplify_eq; [by split; [left|]|].
  destruct IH; [done|]. by split; [right|].
Qed.

Lemma find_row_elem id table row : keyed table → row ∈ table → row_id row = id → find_row id table = Some row.
Proof.
  unfold keyed. induction table as [|r table IH]; simpl; [by intros ? ?%elem_of_nil|].
  intros [Hr Hk]%NoDup_cons Hin <-. apply elem_of_cons in Hin as [->|Hin]; [by rewrite decide_True|].
  rewrite decide_False; [by apply IH|]. intros Heq. apply Hr. rewrite Heq.
  by apply list_elem_of_fmap_2.
Qed.

(** What one more row does to the row found under [id]. *)
Definition upserted (found : option T) (row : T) : option T :=
  Some (match found with Some old => row_update row old | None => row end).

Lemma find_upsert_row id row table :
  find_row id (upsert_row row table) =
  if decide (row_id row = id) then upserted (find_row id table) row else find_row id table.
Proof.
  induction table as [|r table IH]; simpl.
  - by case_decide.
  - destruct (decide (row_id r = row_id row)) as [Heq|Hne]; simpl; rewrite ?row_update_id.
    + repeat case_decide; congruence || done.
    + rewrite IH. repeat case_decide; congruence || done.
Qed.

Lemma find_upsert_all id rows : ∀ table,
  find_row id (foldl (λ table row, upsert_row row table) table rows) =
  foldl upserted (find_row id table) (filter (λ row, row_id row = id) rows).
Proof.
  induction rows as [|row rows IH]; intros table; simpl; [done|].
  rewrite IH, find_upsert_row, filter_cons. by case_decide.
Qed.

Lemma upsert_row_ids row table : keyed table → keyed (upsert_row row table) ∧
  ∀ id, id ∈ map row_id (upsert_row row table) ↔ id ∈ map row_id table ∨ id = row_id row.
Proof.
  unfold keyed. induction table as [|r table IH]; simpl.
  - intros _. split; [apply NoDup_singleton|]. set_solver.
  - intros [Hr Hk]%NoDup_cons. destruct IH as [IHk IHi]; [done|].
    case_decide as Heq; simpl; rewrite ?row_update_id.
    + split; [by constructor|]. set_solver.
    + split; [|set_solver]. constructor; [|done]. rewrite IHi. set_solver.
Qed.

(** A statement inserts the last of the rows with the same key. *)
Lemma filter_rev (P : T → Prop) `{∀ x, Decision (P x)} rows : filter P (rev rows) = rev (filter P rows).
Proof.
  induction rows as [|r rows IH]; simpl; [done|].
  rewrite filter_app, IH, !filter_cons, filter_nil. case_decide; simpl; [done|]. by rewrite app_nil_r.
Qed.

Lemma filter_first id l out :
  filter (λ row, row_id row = id)
    (foldl (λ out item, if decide (row_id item ∈ map row_id out) then out else out ++ [item]) out l) =
  match filter (λ row, row_id row = id) out with
  | [] => option_list (head (filter (λ row, row_id row = id) l))
  | rows => rows
  end.
Proof.
  revert out. induction l as [|r l IH]; intros out; simpl; [by case_match|].
  assert (Hin : row_id r ∈ map row_id out ↔ filter (λ row, row_id row = row_id r) out ≠ []).
  { split.
    - intros (y & Hy & Hin)%list_elem_of_fmap Hf. apply (not_elem_of_nil y). rewrite <-Hf.
      by apply list_elem_of_filter.
    - intros Hf. destruct (filter _ out) as [|y ys] eqn:Hy; [done|].
      assert (Hin : y ∈ y :: ys) by left. rewrite <-Hy in Hin. apply list_elem_of_filter in Hin as [<- ?].
      by apply list_elem_of_fmap_2. }
  rewrite IH, filter_cons. destruct (decide (row_id r = id)) as [<-|Hne].
  - destruct (decide (row_id r ∈ map row_id out)) as [Hi|Hi]; rewrite ?filter_app, ?filter_cons_True by done.
    + by destruct (filter (λ row, row_id row = row_id r) out); [apply Hin in Hi|].
    + destruct (filter (λ row, row_id row = row_id r) out) eqn:Hf; [done|]. by destruct Hi; apply Hin.
  - case_decide; [done|]. by rewrite filter_app, filter_cons_False, filter_nil, app_nil_r.
Qed.

Lemma filter_dedup id batch :
  filter (λ row, row_id row = id) (dedup_keeping_last batch) =
  option_list (last (filter (λ row, row_id row = id) batch)).
Proof.
  unfold dedup_keeping_last. rewrite filter_rev, filter_first, filter_nil, filter_rev.
  destruct (filter _ batch) as [|r l _] using rev_ind; simpl; [done|].
  by rewrite rev_app_distr, last_snoc.
Qed.

Lemma last_app_or (l k : list T) : last (l ++ k) = match last k with Some x => Some x | None => last l end.
Proof. destruct k as [|x k _] using rev_ind; simpl; [by rewrite app_nil_r|]. by rewrite app_assoc, !last_snoc. Qed.

(** The rows of a sequence of statements. *)
Lemma find_upsert_batches id bs : ∀ table,
  let found := find_row id (foldl (λ table batch,
                  foldl (λ table row, upsert_row row table) table (dedup_keeping_last batch)) table bs) in
  match last (filter (λ row, row_id row = id) (concat bs)) with
  | None => found = find_row id table
  | Some row => ∃ base, found = Some (row_update row base)
                ∧ match find_row id table with
                  | Some old => base = old
                  | None => base ∈ concat bs ∧ row_id base = id
                  end
  end.
Proof.
  induction bs as [|b bs IH] using rev_ind; intros table found; subst found; [done|].
  rewrite foldl_snoc, concat_snoc, filter_app, last_app_or, find_upsert_all, filter_dedup.
  specialize (IH table). cbv zeta in IH. set (before := foldl _ table bs) in *.
  destruct (last (filter (λ row, row_id row = id) b)) as [row|] eqn:Hrow; simpl.
  - assert (row ∈ b ∧ row_id row = id) as [Hb Hid].
    { apply last_Some in Hrow as [l Hl]. assert (Hin : row ∈ l ++ [row]) by set_solver.
      rewrite <-Hl in Hin. apply list_elem_of_filter in Hin. tauto. }
    destruct (last (filter _ (concat bs))) as [r|].
    + destruct IH as (base & -> & Hbase). exists base. unfold upserted. split; [by rewrite (row_update_update row r base)|].
      destruct (find_row id table); [done|]. set_solver.
    + rewrite IH. destruct (find_row id table) as [old|]; [by exists old|].
      exists row. rewrite row_update_refl. split; [done|]. set_solver.
  - destruct (last (filter _ (concat bs))) as [r|]; [|done].
    destruct IH as (base & -> & Hbase). exists base. split; [done|].
    destruct (find_row id table); [done|]. set_solver.
Qed.

Lemma upsert_batches_keyed bs : ∀ table, keyed table →
  keyed (foldl (λ table batch, foldl (λ table row, upsert_row row table) table (dedup_keeping_last batch)) table bs).
Proof.
  induction bs as [|b bs IH]; intros table Hk; simpl; [done|]. apply IH.
  generalize (dedup_keeping_last b). intros rows. revert table Hk.
  induction rows as [|r rows IHr]; intros table Hk; simpl; [done|]. by apply IHr, upsert_row_ids.
Qed.

(** The batched, deduplicated upsert keeps the table keyed and leaves, under
    every key, what upserting the rows one by one leaves: the last row given for it,
    on top of the row the table had, or else of a row given for it; a key no row
    names keeps its row. *)
Theorem upsert_rows_spec (rows table : list T) : keyed table →
  keyed (upsert_rows rows table)
  ∧ ∀ id, match last (filter (λ row, row_id row = id) rows) with
          | None => find_row id (upsert_rows rows table) = find_row id table
          | Some row => ∃ base, find_row id (upsert_rows rows table) = Some (row_update row base)
                        ∧ match find_row id table with
                          | Some old => base = old
                          | None => base ∈ rows ∧ row_id base = id
                          end
          end.
Proof.
  intros Hk. split; [by apply upsert_batches_keyed|]. intros id.
  pose proof (find_upsert_batches id (chunks PROVENANCE_INSERT_BATCH rows) table) as H1.
  cbv zeta in H1. by rewrite chunks_concat in H1.
Qed.

(** Every row given is in the table afterwards, with what the last one of its key says. *)
Lemma upsert_rows_new rows table row : row ∈ rows →
  ∃ row' base, row_update row' base ∈ upsert_rows rows table ∧ row' ∈ rows ∧ row_id row' = row_id row
               ∧ row_id base = row_id row.
Proof.
  intros Hrow. pose proof (find_upsert_batches (row_id row) (chunks PROVENANCE_INSERT_BATCH rows) table) as H1.
  cbv zeta in H1. rewrite chunks_concat in H1. fold (upsert_rows rows table) in H1.
  assert (Hin : row ∈ filter (λ r, row_id r = row_id row) rows) by by apply list_elem_of_filter.
  destruct (last (filter _ rows)) as [row'|] eqn:Hlast.
  - apply last_Some in Hlast as [l Hl]. assert (Hrow' : row' ∈ filter (λ r, row_id r = row_id row) rows).
    { rewrite Hl. apply elem_of_app. right. by apply list_elem_of_singleton. }
    apply list_elem_of_filter in Hrow' as [Hid Hrow']. destruct H1 as (base & Hfind & Hbase).
    exists row', base. apply find_row_Some in Hfind as [Hfind Hkey]. rewrite row_update_id in Hkey. done.
  - apply last_None in Hlast. rewrite Hlast in Hin. by apply not_elem_of_nil in Hin.
Qed.

(** A row of the table stays, or is updated by a row of its key. *)
Lemma upsert_rows_kept rows table old : keyed table → old ∈ table →
  old ∈ upsert_rows rows table
  ∨ ∃ row, row ∈ rows ∧ row_id row = row_id old ∧ row_update row old ∈ upsert_rows rows table.
Proof.
  intros Hk Hold. pose proof (find_upsert_batches (row_id old) (chunks PROVENANCE_INSERT_BATCH rows) table) as H1.
  cbv zeta in H1. rewrite chunks_concat in H1. fold (upsert_rows rows table) in H1.
  assert (Hfind : find_row (row_id old) table = Some old) by by apply find_row_elem. rewrite Hfind in H1.
  destruct (last (filter _ rows)) as [row|] eqn:Hlast.
  - right. apply last_Some in Hlast as [l Hl]. assert (Hrow : row ∈ filter (λ r, row_id r = row_id old) rows).
    { rewrite Hl. apply elem_of_app. right. by apply list_elem_of_singleton. }
    apply list_elem_of_filter in Hrow as [Hid Hrow]. destruct H1 as (base & Hup & ->).
    exists row. split_and!; [done|done|]. by apply find_row_Some in Hup as [Hup _].
  - left. by apply find_row_Some in H1 as [H1 _].
Qed.

(** Every row afterwards is an old one, a given one, or one updated by a given one. *)
Lemma upsert_rows_from rows table r : keyed table → r ∈ upsert_rows rows table →
  r ∈ table ∨ ∃ row base, row ∈ rows ∧ row_id base = row_id row ∧ r = row_update row base.
Proof.
  intros Hk Hr. pose proof (upsert_batches_keyed (chunks PROVENANCE_INSERT_BATCH rows) table Hk) as Hk'.
  fold (upsert_rows rows table) in Hk'.
  pose proof (find_upsert_batches (row_id r) (chunks PROVENANCE_INSERT_BATCH rows) table) as H1.
  cbv zeta in H1. rewrite chunks_concat in H1. fold (upsert_rows rows table) in H1.
  rewrite (find_row_elem (row_id r) (upsert_rows rows table) r Hk' Hr eq_refl) in H1.
  destruct (last (filter _ rows)) as [row|] eqn:Hlast.
  - right. apply last_Some in Hlast as [l Hl]. assert (Hrow : row ∈ filter (λ r', row_id r' = row_id r) rows).
    { rewrite Hl. apply elem_of_app. right. by apply list_elem_of_singleton. }
    apply list_elem_of_filter in Hrow as [Hid Hrow]. destruct H1 as (base & Heq & Hbase). injection Heq as ->.
    rewrite row_update_id in Hid. by exists row, base.
  - left. symmetry in H1. by apply find_row_Some in H1 as [H1 _].
Qed.

(** Whoever wrote a row first stays its writer. *)
Lemma upsert_rows_run id rows table old : find_row id table = Some old →
  ∃ new, find_row id (upsert_rows rows table) = Some new ∧ row_run new = row_run old.
Proof.
  intros Hold. pose proof (find_upsert_batches id (chunks PROVENANCE_INSERT_BATCH rows) table) as H1.
  cbv zeta in H1. rewrite chunks_concat in H1. fold (upsert_rows rows table) in H1.
  destruct (last _) as [row|]; rewrite Hold in H1; [|eauto].
  destruct H1 as (base & -> & ->). eexists. split; [done|]. apply row_update_run.
Qed.

Lemma find_filter_keyed (P : T → Prop) `{∀ x, Decision (P x)} id table row :
  find_row id table = Some row → P row → find_row id (filter P table) = Some row.
Proof.
  induction table as [|r table IH]; simpl; [done|]. intros Hf HP. case_decide; simplify_eq.
  - rewrite filter_cons_True by done. simpl. by rewrite decide_True.
  - rewrite filter_cons. case_decide; simpl; [rewrite decide_False by done|]; by apply IH.
Qed.

(** A run that writes over an artifact another run created does not take the
    artifact over: rolling the later run back leaves the ownership row, still
    attributed to the run that created it. *)
Theorem rollback_spares_earlier_rows id (rows table : list T) old scope :
  find_row id table = Some old → row_run old ≠ Some (rs_pipeline_run_id scope) →
  ∃ new, find_row id (delete_rows_for_run scope (upsert_rows rows table)).1 = Some new
         ∧ row_run new = row_run old.
Proof.
  intros Hold Hrun. destruct (upsert_rows_run id rows table old Hold) as (new & Hnew & Hr).
  exists new. split; [|done]. unfold delete_rows_for_run. case_match; [done|]. simpl.
  apply find_filter_keyed; [done|]. unfold selected_by. rewrite Hr.
  destruct (row_run old) as [run|]; [|tauto]. intros [-> _]. done.
Qed.

(** ** A run's selection *)

Lemma outside_selected scope row : outside scope row ↔ ¬ selected_by scope row.
Proof.
  unfold outside, selected_by.
  destruct (decide (row_dataset_id row = rs_dataset scope));
    destruct (row_run row) as [run|]; [destruct (decide (run = rs_pipeline_run_id scope))| |
      destruct (decide (run = rs_pipeline_run_id scope))|];
    (destruct (rs_data_ids scope) as [ids|]; [destruct (decide (row_data_id row ∈ ids))|]); intuition congruence.
Qed.

Lemma selects_nothing_selected scope row : selects_nothing scope = true → ¬ selected_by scope row.
Proof.
  unfold selects_nothing, selected_by. destruct (rs_data_ids scope) as [[|]|]; [|done|done].
  intros _ (_ & _ & Hd). by apply not_elem_of_nil in Hd.
Qed.

Lemma claimed_by_iff P `{∀ r : T, Decision (P r)} table slug :
  claimed_by P table slug ↔ ∃ row, row ∈ table ∧ row_slug row = slug ∧ P row.
Proof. unfold claimed_by. rewrite Exists_exists. naive_solver. Qed.

Lemma elem_of_unique_rows_for_run scope table row :
  row ∈ unique_rows_for_run scope table ↔
  row ∈ table ∧ selected_by scope row ∧ ∀ r, r ∈ table → row_slug r = row_slug row → selected_by scope r.
Proof.
  unfold unique_rows_for_run. destruct (selects_nothing scope) eqn:Hs.
  - split; [by intros ?%elem_of_nil|]. intros (_ & Hsel & _). by apply selects_nothing_selected in Hsel.
  - rewrite merge_sort_Permutation, list_elem_of_filter, claimed_by_iff by apply _. split.
    + intros ((Hsel & Hn) & Hin). split; [done|]. split; [done|]. intros r Hr Hslug.
      destruct (decide (selected_by scope r)); [done|]. destruct Hn. exists r. by rewrite outside_selected.
    + intros (Hin & Hsel & Hall). split; [split; [done|]|done].
      intros (r & Hr & Hslug & Ho%outside_selected). by apply Ho, Hall.
Qed.

Lemma rows_left_by_run scope table :
  (delete_rows_for_run scope table).1 = filter (λ row, ¬ selected_by scope row) table.
Proof.
  unfold delete_rows_for_run. destruct (selects_nothing scope) eqn:Hs; [|done]. simpl.
  induction table as [|r table IH]; [done|]. rewrite filter_cons_True by by apply selects_nothing_selected.
  by f_equal.
Qed.
End rows.

(** ** Examples *)

Definition node_of (id data : uuid) (run : option uuid) (label : string) : GraphNode := {|
  gn_id := id; gn_slug := id; gn_user_id := 1; gn_data_id := data; gn_dataset_id := 3;
  gn_pipeline_run_id := run; gn_label := Some label; gn_node_type := "Entity";
  gn_indexed_fields := JArray []; gn_attributes := None; gn_created_at := 0 |}.

Lemma upsert_rows_spec_witness :
  keyed [node_of 1 10 (Some 7%N) "a"]
  ∧ ∃ base, find_row 1 (upsert_rows [node_of 1 10 (Some 8%N) "b"; node_of 1 10 (Some 8%N) "c"]
                          [node_of 1 10 (Some 7%N) "a"])
            = Some (row_update (node_of 1 10 (Some 8%N) "c") base)
            ∧ base = node_of 1 10 (Some 7%N) "a".
Proof.
  assert (Hk : keyed [node_of 1 10 (Some 7%N) "a"]) by apply NoDup_singleton.
  split; [exact Hk|].
  exact (proj2 (upsert_rows_spec [node_of 1 10 (Some 8%N) "b"; node_of 1 10 (Some 8%N) "c"]
                  [node_of 1 10 (Some 7%N) "a"] Hk) 1%N).
Defined.

Lemma rollback_spares_earlier_rows_witness :
  ∃ new, find_row 1 (delete_rows_for_run {| rs_pipeline_run_id := 8; rs_dataset := 3; rs_data_ids := None |}
                       (upsert_rows [node_of 1 10 (Some 8%N) "b"] [node_of 1 10 (Some 7%N) "a"])).1 = Some new
         ∧ row_run new = Some 7%N.
Proof.
  exact (rollback_spares_earlier_rows 1 [node_of 1 10 (Some 8%N) "b"] [node_of 1 10 (Some 7%N) "a"]
           (node_of 1 10 (Some 7%N) "a") {| rs_pipeline_run_id := 8; rs_dataset := 3; rs_data_ids := None |}
           eq_refl ltac:(discriminate)).
Defined.
