(* ===== verification/Artifacts.v ===== *)
(** * Deleting artifacts (crates/delete/src/lib.rs)

    The stores a delete works on, the calls it makes to them, each of which may fail,
    and the deletion of the graph nodes and vector points that ownership rows name.
    The cleanup of a dataset and of a data item, which call it. *)

From stdpp Require Import sorting.
From S2P Require Import Prelude Json Strings Markers Ledger.

(** ** The stores *)

(** A collection of the vector store is a data type and a field. *)
Notation collection := (string * string)%type (only parsing).

(** The relational database as far as a delete uses it, the graph, the vector store,
    and the datasets that have databases of their own. *)
Record stores := {
  st_ledger : ledger;
  st_data : data_table;
  st_graph : gset uuid;
  st_graph_edges : gset (uuid * string * uuid);
  st_vectors : gmap (string * string) (gset uuid);
  st_dataset_storage : gset uuid;
}.

Definition with_ledger (l : ledger) (st : stores) : stores :=
  {| st_ledger := l; st_data := st_data st; st_graph := st_graph st; st_graph_edges := st_graph_edges st;
     st_vectors := st_vectors st; st_dataset_storage := st_dataset_storage st |}.

Definition with_data (data : data_table) (st : stores) : stores :=
  {| st_ledger := st_ledger st; st_data := data; st_graph := st_graph st; st_graph_edges := st_graph_edges st;
     st_vectors := st_vectors st; st_dataset_storage := st_dataset_storage st |}.

(** [GraphDBTrait::delete_nodes]: the nodes and the edges at them. *)
Definition graph_delete_nodes (ids : gset uuid) (st : stores) : stores :=
  {| st_ledger := st_ledger st; st_data := st_data st; st_graph := st_graph st ∖ ids;
     st_graph_edges := filter (λ '(s, _, d), s ∉ ids ∧ d ∉ ids) (st_graph_edges st);
     st_vectors := st_vectors st; st_dataset_storage := st_dataset_storage st |}.

(** [VectorDB::has_collection] *)
Definition has_collection (c : collection) (st : stores) : bool :=
  bool_decide (is_Some (st_vectors st !! c)).

(** [VectorDB::retrieve]: the ids of the points that are there. *)
Definition retrieve (c : collection) (ids : gset uuid) (st : stores) : gset uuid :=
  default ∅ (st_vectors st !! c) ∩ ids.

(** [VectorDB::delete_points] *)
Definition delete_points (c : collection) (ids : list uuid) (st : stores) : stores :=
  {| st_ledger := st_ledger st; st_data := st_data st; st_graph := st_graph st;
     st_graph_edges := st_graph_edges st;
     st_vectors := alter (λ points, points ∖ list_to_set ids) c (st_vectors st);
     st_dataset_storage := st_dataset_storage st |}.

(** [DatasetStorageLifecycle::drop_dataset_storage] *)
Definition drop_dataset_storage (dataset_id : uuid) (st : stores) : stores :=
  {| st_ledger := st_ledger st; st_data := st_data st; st_graph := st_graph st;
     st_graph_edges := st_graph_edges st; st_vectors := st_vectors st;
     st_dataset_storage := st_dataset_storage st ∖ {[dataset_id]} |}.

(** ** Errors and outcomes *)

Record DeleteResult := {
  deleted_datasets : nat;
  deleted_dataset_links : nat;
  deleted_data : nat;
  deleted_storage_files : nat;
  deleted_graph_nodes : nat;
  deleted_vector_points : nat;
  deleted_provenance_nodes : nat;
  deleted_provenance_edges : nat;
  deleted_orphan_entities : nat;
  deleted_orphan_entity_types : nat;
  deleted_orphan_edge_types : nat;
  deleted_pipeline_runs : nat;
  cleared_pipeline_statuses : nat;
  deleted_search_queries : nat;
  pruned_sessions : bool;
  dr_warnings : list string;
  dr_data_id : option uuid;
}.

Inductive DeleteError :=
  | Validation (message : string)
  | Runtime (message : string)
  | GraphCleanup (message : string)
  | VectorCleanup (message : string)
  | PermissionDenied (message : string)
  | Partial (completed : DeleteResult) (failed_dataset_id : uuid) (source : DeleteError).

Record SweepOutcome := {
  sw_graph_nodes_deleted : nat;
  sw_vector_points_deleted : nat;
  sw_provenance_nodes_deleted : nat;
  sw_provenance_edges_deleted : nat;
  sw_data_items_unmarked : nat;
  sw_warnings : list string;
}.

Definition SweepOutcome_default : SweepOutcome := {|
  sw_graph_nodes_deleted := 0; sw_vector_points_deleted := 0; sw_provenance_nodes_deleted := 0;
  sw_provenance_edges_deleted := 0; sw_data_items_unmarked := 0; sw_warnings := [] |}.

(** ** Calls that may fail

    A call to a store is carried out and answered; or refused; or carried out but not
    answered.  The plan says which, call by call; after it every call is answered. *)

Inductive failure :=
  | Refused (e : string)
  | Unanswered (e : string).

Record delete_world := {
  dw_stores : stores;
  dw_plan : list (option failure);
  dw_outcome : SweepOutcome;
}.

(** A fallible asynchronous function: its stores, and the [&mut SweepOutcome] of a
    sweep, survive its error. *)
Definition M (E A : Type) : Type := delete_world → result E A * delete_world.

#[export] Instance m_ret {E} : MRet (M E) := λ _ a w, (Ok a, w).
#[export] Instance m_bind {E} : MBind (M E) := λ _ _ k m w,
  match m w with
  | (Ok a, w) => k a w
  | (Err e, w) => (Err e, w)
  end.

Definition fail {E A} (e : E) : M E A := λ w, (Err e, w).

(** [m.await.map_err(f)] *)
Definition m_map_err {E F A} (f : E → F) (m : M E A) : M F A := λ w,
  let '(r, w) := m w in (map_err f r, w).

(** [match m.await { Ok(a) => .., Err(e) => .. }] *)
Definition m_catch {E F A} (m : M E A) : M F (result E A) := λ w,
  let '(r, w) := m w in (Ok r, w).

Fixpoint m_foldl {E A B} (f : A → B → M E A) (a : A) (l : list B) : M E A :=
  match l with
  | [] => mret a
  | b :: l => a ← f a b; m_foldl f a l
  end.

Definition with_stores (st : stores) (plan : list (option failure)) (w : delete_world) : delete_world :=
  {| dw_stores := st; dw_plan := plan; dw_outcome := dw_outcome w |}.

Definition call {A} (f : stores → A * stores) : M string A := λ w,
  match dw_plan w with
  | Some (Refused e) :: plan => (Err e, with_stores (dw_stores w) plan w)
  | Some (Unanswered e) :: plan => (Err e, with_stores (f (dw_stores w)).2 plan w)
  | _ => (Ok (f (dw_stores w)).1, with_stores (f (dw_stores w)).2 (tail (dw_plan w)) w)
  end.

Definition query {A} (f : stores → A) : M string A := call (λ st, (f st, st)).
Definition command (f : stores → stores) : M string () := call (λ st, ((), f st)).

Definition update_outcome {E} (f : SweepOutcome → SweepOutcome) : M E () := λ w,
  (Ok (), {| dw_stores := dw_stores w; dw_plan := dw_plan w; dw_outcome := f (dw_outcome w) |}).

(** ** Names of vector points *)

Definition TRIPLET_DATA_TYPE : string := "Triplet".
Definition TRIPLET_FIELD : string := "text".
Definition EDGE_TYPE_DATA_TYPE : string := "EdgeType".
Definition EDGE_TYPE_FIELD : string := "relationship_name".

(** [parse_indexed_fields] *)
Definition parse_indexed_fields (value : json) : list string :=
  match value with JArray arr => omap json_as_str arr | _ => [] end.

Section names.
Context `{UuidFormat, Lowercase} (new_v5 : uuid → string → uuid).

(** [EdgeType::deterministic_id] *)
Definition deterministic_id (relationship_name : string) : uuid :=
  data_point_id_for new_v5 "EdgeType" [relationship_name].

(** [edge_type_vector_id] *)
Definition edge_type_vector_id (edge : GraphEdge) : option uuid :=
  let text := edge_retrieval_text edge in
  if decide (text = "") then None else Some (deterministic_id text).

(** [unchecked_edge_type_vector_ids] *)
Definition unchecked_edge_type_vector_ids (edges : list GraphEdge) : list uuid :=
  omap edge_type_vector_id edges.

(** The id of [Triplet::new]. *)
Definition triplet_id (source_entity_id target_entity_id : uuid) (relationship_name : string) : uuid :=
  let raw := uuid_to_string source_entity_id +:+ relationship_name +:+ uuid_to_string target_entity_id in
  new_v5 NAMESPACE_OID (underscore (to_lowercase raw)).

(** [triplet_vector_id] *)
Definition triplet_vector_id (edge : GraphEdge) : uuid :=
  triplet_id (ge_source_node_id edge) (ge_destination_node_id edge) (ge_relationship_name edge).
End names.

(** A [BTreeSet], in order. *)
Definition in_order (ids : gset uuid) : list uuid := merge_sort N.le (elements ids).

(** ** Deleting *)

(** [delete_graph_artifacts] *)
Definition delete_graph_artifacts (graph_db : bool) (nodes : list GraphNode)
    : M DeleteError (nat * list string) :=
  if graph_db then
    let node_ids : gset uuid := list_to_set (map gn_slug nodes) in
    (if decide (node_ids = ∅) then mret ()
     else m_map_err (λ e, GraphCleanup ("Failed to delete " +:+ pretty (size node_ids) +:+ " graph nodes: " +:+ e))
            (command (graph_delete_nodes node_ids)));;
    mret (size node_ids, [])
  else
    mret (0, match nodes with
             | [] => []
             | _ => ["Graph DB not configured; graph artifacts were not cleaned up."]
             end).

(** [existing_vector_ids] *)
Definition existing_vector_ids (data_type field_name : string) (candidates : gset uuid)
    : M string (list uuid) :=
  if decide (candidates = ∅) then mret []
  else
    exists_ ← m_map_err (λ e, "Failed to check vector collection " +:+ data_type +:+ "_" +:+ field_name +:+ ": " +:+ e)
                (query (has_collection (data_type, field_name)));
    if exists_ : bool then
      found ← m_map_err (λ e, "Failed to look up vector points in " +:+ data_type +:+ "_" +:+ field_name +:+ ": " +:+ e)
                (query (retrieve (data_type, field_name) candidates));
      mret (in_order found)
    else mret [].

(** [by_collection.entry(key).or_default().extend(ids)] *)
Definition extend_entry (key : collection) (ids : list uuid) (by_collection : gmap (string * string) (list uuid))
    : gmap (string * string) (list uuid) :=
  <[key := default [] (by_collection !! key) ++ ids]> by_collection.

(** The points of the node rows. *)
Definition node_points (nodes : list GraphNode) : gmap (string * string) (list uuid) :=
  foldl (λ by_collection node,
           foldl (λ by_collection field_name, extend_entry (gn_node_type node, field_name) [gn_slug node] by_collection)
             by_collection (parse_indexed_fields (gn_indexed_fields node)))
    ∅ nodes.

(** One round of the loop over [by_collection]. *)
Definition delete_collection_points (acc : nat * list string) (entry : collection * list uuid)
    : M DeleteError (nat * list string) :=
  let '(total_deleted, warnings) := acc in
  let '((data_type, field_name), ids) := entry in
  match ids with
  | [] => mret (total_deleted, warnings)
  | _ =>
      exists_ ← m_map_err (λ e, VectorCleanup ("Failed to check vector collection " +:+ data_type +:+ "_" +:+ field_name
                                               +:+ ": " +:+ e))
                  (query (has_collection (data_type, field_name)));
      if exists_ : bool then
        deleted ← m_catch (command (delete_points (data_type, field_name) ids));
        match deleted with
        | Ok _ => mret (total_deleted + length ids, warnings)
        | Err e =>
            if decide (data_type = TRIPLET_DATA_TYPE ∧ field_name = TRIPLET_FIELD) then
              mret (total_deleted, warnings ++ ["Failed to delete vector points from " +:+ data_type +:+ "_" +:+ field_name
                      +:+ ": " +:+ e +:+ "; legacy Triplet_text points were not cleaned up"])
            else fail (VectorCleanup ("Failed to delete vector points from " +:+ data_type +:+ "_" +:+ field_name
                                      +:+ ": " +:+ e))
        end
      else mret (total_deleted, warnings)
  end.

Section deletions.
Context `{UuidFormat, Lowercase} (new_v5 : uuid → string → uuid).

(** [existing_triplet_vector_ids] *)
Definition existing_triplet_vector_ids (edges : list GraphEdge) : M string (list uuid) :=
  existing_vector_ids TRIPLET_DATA_TYPE TRIPLET_FIELD (list_to_set (map (triplet_vector_id new_v5) edges)).

(** [existing_edge_type_vector_ids] *)
Definition existing_edge_type_vector_ids (edges : list GraphEdge) : M string (list uuid) :=
  existing_vector_ids EDGE_TYPE_DATA_TYPE EDGE_TYPE_FIELD (list_to_set (unchecked_edge_type_vector_ids new_v5 edges)).

(** [delete_vector_artifacts]; a [HashMap] is gone through in the order of the model's
    map. *)
Definition delete_vector_artifacts (vector_db : bool) (nodes : list GraphNode) (edges : list GraphEdge)
    (edge_type_ids : list uuid) : M DeleteError (nat * list string) :=
  if vector_db then
    let by_collection := node_points nodes in
    existing_edge_type_ids ← m_map_err VectorCleanup
      (existing_vector_ids EDGE_TYPE_DATA_TYPE EDGE_TYPE_FIELD (list_to_set edge_type_ids));
    let by_collection :=
      match existing_edge_type_ids with
      | [] => by_collection
      | _ => extend_entry (EDGE_TYPE_DATA_TYPE, EDGE_TYPE_FIELD) existing_edge_type_ids by_collection
      end in
    triplets ← m_catch (existing_triplet_vector_ids edges);
    let '(triplet_ids, warnings) :=
      match triplets with
      | Ok ids => (ids, [])
      | Err error => ([], [error +:+ "; legacy Triplet_text points were not cleaned up"])
      end in
    let by_collection :=
      match triplet_ids with
      | [] => by_collection
      | _ => extend_entry (TRIPLET_DATA_TYPE, TRIPLET_FIELD) triplet_ids by_collection
      end in
    m_foldl delete_collection_points (0, warnings) (map_to_list by_collection)
  else
    mret (0, match nodes, edges with
             | [], [] => []
             | _, _ => ["Vector DB not configured; vector artifacts were not cleaned up."]
             end).

(** ** What a dataset delete reports *)

(** [ledger_node_counts] *)
Definition ledger_node_counts (nodes : list GraphNode) : nat * nat :=
  (size (list_to_set (map gn_slug nodes) : gset uuid),
   sum_list_with (λ node, length (parse_indexed_fields (gn_indexed_fields node))) nodes).

(** [ledger_edge_point_count] *)
Definition ledger_edge_point_count {E} (store : bool) (edges : list GraphEdge) : M E nat :=
  if store then
    edge_type_points ← m_catch (existing_edge_type_vector_ids edges);
    triplet_points ← m_catch (existing_triplet_vector_ids edges);
    mret (match edge_type_points with Ok ids => length ids | Err _ => 0 end
          + match triplet_points with Ok ids => length ids | Err _ => 0 end)
  else mret (size (list_to_set (unchecked_edge_type_vector_ids new_v5 edges) : gset uuid)).

(** [ledger_artifact_counts] *)
Definition ledger_artifact_counts {E} (store : bool) (nodes : list GraphNode) (edges : list GraphEdge)
    : M E (nat * nat) :=
  let '(graph_nodes, points) := ledger_node_counts nodes in
  edge_points ← ledger_edge_point_count store edges;
  mret (graph_nodes, points + edge_points).
End deletions.

(** ** Cleaning up after a dataset or a data item *)

(** The stores a [DeleteService] has. *)
Record DeleteService := {
  sv_graph_db : bool;
  sv_vector_db : bool;
  sv_dataset_storage : bool;
}.

(** The counts a cleanup returns, in order, and its warnings. *)
Notation cleanup_counts := (nat * nat * nat * nat * list string)%type (only parsing).

(** [.await.map_err(|e| DeleteError::Runtime(format!("{what}: {e}")))] *)
Definition or_runtime {A} (what : string) (m : M string A) : M DeleteError A :=
  m_map_err (λ e, Runtime (what +:+ ": " +:+ e)) m.

Section cleanup.
Context `{UuidFormat, Lowercase} (new_v5 : uuid → string → uuid).

(** [cleanup_dataset] *)
Definition cleanup_dataset (self : DeleteService) (dataset_id : uuid) : M DeleteError cleanup_counts :=
  let id := uuid_to_string dataset_id in
  nodes ← or_runtime ("Failed to get provenance nodes for dataset " +:+ id)
    (query (λ st, rows_by_dataset dataset_id (lg_nodes (st_ledger st))));
  edges ← or_runtime ("Failed to get provenance edges for dataset " +:+ id)
    (query (λ st, rows_by_dataset dataset_id (lg_edges (st_ledger st))));
  let finish (counts : nat * nat) (warnings : list string) : M DeleteError cleanup_counts :=
    or_runtime ("Failed to delete provenance edges for dataset " +:+ id)
      (command (λ st, with_ledger {| lg_nodes := lg_nodes (st_ledger st);
                                     lg_edges := delete_rows_by_dataset dataset_id (lg_edges (st_ledger st)) |} st));;
    or_runtime ("Failed to delete provenance nodes for dataset " +:+ id)
      (command (λ st, with_ledger {| lg_nodes := delete_rows_by_dataset dataset_id (lg_nodes (st_ledger st));
                                     lg_edges := lg_edges (st_ledger st) |} st));;
    mret (counts.1, counts.2, length nodes, length edges, warnings) in
  if sv_dataset_storage self then
    m_map_err (λ e, GraphCleanup ("Failed to drop the storage of dataset " +:+ id +:+ ": " +:+ e))
      (command (drop_dataset_storage dataset_id));;
    counts ← ledger_artifact_counts new_v5 false nodes edges;
    finish counts []
  else
    match nodes, edges with
    | [], [] => mret (0, 0, 0, 0, [])
    | _, _ =>
        '(gn, gw) ← delete_graph_artifacts (sv_graph_db self) nodes;
        '(vp, vw) ← delete_vector_artifacts new_v5 (sv_vector_db self) nodes edges
                      (unchecked_edge_type_vector_ids new_v5 edges);
        finish (gn, vp) (gw ++ vw)
    end.

(** [edge_type_ids_to_delete] *)
Definition edge_type_ids_to_delete (data_id dataset_id : uuid) (edges structural_edges : list GraphEdge)
    : M DeleteError (list uuid) :=
  let candidates : gset string :=
    filter (λ text, text ≠ "") (list_to_set (map edge_retrieval_text (edges ++ structural_edges))) in
  if decide (candidates = ∅) then mret []
  else
    claimed ← or_runtime ("Failed to get surviving edge texts for data " +:+ uuid_to_string data_id)
      (query (λ st, get_edge_retrieval_texts_claimed_outside_data data_id dataset_id (elements candidates)
                      (st_ledger st)));
    mret (map (deterministic_id new_v5) (elements (candidates ∖ claimed))).

(** [cleanup_data_in_scope] *)
Definition cleanup_data_in_scope (self : DeleteService) (data_id dataset_id : uuid)
    : M DeleteError cleanup_counts :=
  let id := uuid_to_string data_id in
  nodes ← or_runtime ("Failed to get unique provenance nodes for data " +:+ id)
    (query (λ st, unique_rows_for_data data_id dataset_id (lg_nodes (st_ledger st))));
  edges ← or_runtime ("Failed to get unique provenance edges for data " +:+ id)
    (query (λ st, unique_rows_for_data data_id dataset_id (lg_edges (st_ledger st))));
  structural_edges ← or_runtime ("Failed to get structural provenance edges for data " +:+ id)
    (query (λ st, get_structural_edges_for_data data_id dataset_id (st_ledger st)));
  all_prov_nodes ← or_runtime ("Failed to count provenance nodes for data " +:+ id)
    (query (λ st, count_rows_for_data data_id dataset_id (lg_nodes (st_ledger st))));
  all_prov_edges ← or_runtime ("Failed to count provenance edges for data " +:+ id)
    (query (λ st, count_rows_for_data data_id dataset_id (lg_edges (st_ledger st))));
  if bool_decide (nodes = []) && bool_decide (edges = []) && bool_decide (structural_edges = [])
     && (all_prov_nodes =? 0)%nat && (all_prov_edges =? 0)%nat
  then mret (0, 0, 0, 0, [])
  else
    '(gn, gw) ← delete_graph_artifacts (sv_graph_db self) nodes;
    edge_type_ids ← edge_type_ids_to_delete data_id dataset_id edges structural_edges;
    '(vp, vw) ← delete_vector_artifacts new_v5 (sv_vector_db self) nodes edges edge_type_ids;
    structural_deleted ← or_runtime ("Failed to delete structural provenance edges for data " +:+ id)
      (call (λ st, let '(edges, n) := delete_edges_by_ids (map ge_id structural_edges) (lg_edges (st_ledger st)) in
                   (n, with_ledger {| lg_nodes := lg_nodes (st_ledger st); lg_edges := edges |} st)));
    or_runtime ("Failed to delete provenance edges for data " +:+ id)
      (command (λ st, with_ledger {| lg_nodes := lg_nodes (st_ledger st);
                                     lg_edges := delete_rows_for_data data_id dataset_id (lg_edges (st_ledger st)) |} st));;
    or_runtime ("Failed to delete provenance nodes for data " +:+ id)
      (command (λ st, with_ledger {| lg_nodes := delete_rows_for_data data_id dataset_id (lg_nodes (st_ledger st));
                                     lg_edges := lg_edges (st_ledger st) |} st));;
    mret (gn, vp, all_prov_nodes, all_prov_edges + structural_deleted, gw ++ vw).
End cleanup.
