(* ===== verification/Sweep.v ===== *)
(** * The run sweep (crates/delete/src/sweep.rs)

    Rolling back what one run contributed to a dataset: artifacts first, ownership
    rows second, completion markers last. *)

From S2P Require Import Prelude Json Strings Markers Ledger Artifacts.

Record SweepScope := {
  ss_pipeline_run_id : uuid;
  ss_dataset_id : uuid;
  ss_data_ids : option (list uuid);
}.

(** [SweepScope::whole_run] *)
Definition whole_run (pipeline_run_id dataset_id : uuid) : SweepScope :=
  {| ss_pipeline_run_id := pipeline_run_id; ss_dataset_id := dataset_id; ss_data_ids := None |}.

(** [SweepScope::for_data] *)
Definition for_data (pipeline_run_id dataset_id : uuid) (data_ids : list uuid) : SweepScope :=
  {| ss_pipeline_run_id := pipeline_run_id; ss_dataset_id := dataset_id; ss_data_ids := Some data_ids |}.

(** [SweepScope::as_run_scope] *)
Definition as_run_scope (scope : SweepScope) : RunScope :=
  {| rs_pipeline_run_id := ss_pipeline_run_id scope; rs_dataset := ss_dataset_id scope;
     rs_data_ids := ss_data_ids scope |}.

(** ** Filling in the outcome *)

Definition set_graph_nodes (n : nat) (warnings : list string) (o : SweepOutcome) : SweepOutcome := {|
  sw_graph_nodes_deleted := n; sw_vector_points_deleted := sw_vector_points_deleted o;
  sw_provenance_nodes_deleted := sw_provenance_nodes_deleted o;
  sw_provenance_edges_deleted := sw_provenance_edges_deleted o;
  sw_data_items_unmarked := sw_data_items_unmarked o; sw_warnings := sw_warnings o ++ warnings |}.

Definition set_vector_points (n : nat) (warnings : list string) (o : SweepOutcome) : SweepOutcome := {|
  sw_graph_nodes_deleted := sw_graph_nodes_deleted o; sw_vector_points_deleted := n;
  sw_provenance_nodes_deleted := sw_provenance_nodes_deleted o;
  sw_provenance_edges_deleted := sw_provenance_edges_deleted o;
  sw_data_items_unmarked := sw_data_items_unmarked o; sw_warnings := sw_warnings o ++ warnings |}.

Definition set_provenance_edges (n : nat) (o : SweepOutcome) : SweepOutcome := {|
  sw_graph_nodes_deleted := sw_graph_nodes_deleted o; sw_vector_points_deleted := sw_vector_points_deleted o;
  sw_provenance_nodes_deleted := sw_provenance_nodes_deleted o;
  sw_provenance_edges_deleted := n;
  sw_data_items_unmarked := sw_data_items_unmarked o; sw_warnings := sw_warnings o |}.

Definition set_provenance_nodes (n : nat) (o : SweepOutcome) : SweepOutcome := {|
  sw_graph_nodes_deleted := sw_graph_nodes_deleted o; sw_vector_points_deleted := sw_vector_points_deleted o;
  sw_provenance_nodes_deleted := n;
  sw_provenance_edges_deleted := sw_provenance_edges_deleted o;
  sw_data_items_unmarked := sw_data_items_unmarked o; sw_warnings := sw_warnings o |}.

Definition count_unmarked (o : SweepOutcome) : SweepOutcome := {|
  sw_graph_nodes_deleted := sw_graph_nodes_deleted o; sw_vector_points_deleted := sw_vector_points_deleted o;
  sw_provenance_nodes_deleted := sw_provenance_nodes_deleted o;
  sw_provenance_edges_deleted := sw_provenance_edges_deleted o;
  sw_data_items_unmarked := S (sw_data_items_unmarked o); sw_warnings := sw_warnings o |}.

Definition push_warning (warning : string) (o : SweepOutcome) : SweepOutcome := {|
  sw_graph_nodes_deleted := sw_graph_nodes_deleted o; sw_vector_points_deleted := sw_vector_points_deleted o;
  sw_provenance_nodes_deleted := sw_provenance_nodes_deleted o;
  sw_provenance_edges_deleted := sw_provenance_edges_deleted o;
  sw_data_items_unmarked := sw_data_items_unmarked o; sw_warnings := sw_warnings o ++ [warning] |}.

(** ** The sweep *)

Section sweep.
Context `{UuidFormat, SerdeJson, Lowercase} (new_v5 : uuid → string → uuid).

(** [deletable_edge_type_ids] *)
Definition deletable_edge_type_ids (run_scope : RunScope) (edges : list GraphEdge)
    : M DeleteError (list uuid) :=
  match edges with
  | [] => mret []
  | _ =>
      claimed ← or_runtime ("Failed to get the edge retrieval texts claimed outside run "
                            +:+ uuid_to_string (rs_pipeline_run_id run_scope))
        (query (λ st, get_edge_retrieval_texts_claimed_outside_run run_scope (st_ledger st)));
      mret (omap (edge_type_vector_id new_v5) (filter (λ edge, edge_retrieval_text edge ∉ claimed) edges))
  end.

(** One round of the loop that clears markers; it counts the failures. *)
Definition unmark_item (now : Z) (dataset_id : uuid) (failures : nat) (data_id : uuid) : M DeleteError nat :=
  cleared ← m_catch (command (λ st, with_data (clear_cognify_pipeline_status_for_data now data_id dataset_id
                                                 (st_data st)) st));
  match cleared with
  | Ok _ => update_outcome count_unmarked;; mret failures
  | Err e =>
      update_outcome (push_warning ("Failed to clear the cognify completion marker for data "
                                    +:+ uuid_to_string data_id +:+ ": " +:+ e));;
      mret (S failures)
  end.

(** The ownership rows and the markers: steps 4 and 5 of [run_in_scope]. *)
Definition delete_ownership (now : Z) (scope : SweepScope) (affected : list uuid) : M DeleteError () :=
  let run_scope := as_run_scope scope in
  let run_id := uuid_to_string (ss_pipeline_run_id scope) in
  edges_deleted ← or_runtime ("Failed to delete provenance edges for run " +:+ run_id)
    (call (λ st, let '(rows, n) := delete_rows_for_run run_scope (lg_edges (st_ledger st)) in
                 (n, with_ledger {| lg_nodes := lg_nodes (st_ledger st); lg_edges := rows |} st)));
  update_outcome (set_provenance_edges edges_deleted);;
  nodes_deleted ← or_runtime ("Failed to delete provenance nodes for run " +:+ run_id)
    (call (λ st, let '(rows, n) := delete_rows_for_run run_scope (lg_nodes (st_ledger st)) in
                 (n, with_ledger {| lg_nodes := rows; lg_edges := lg_edges (st_ledger st) |} st)));
  update_outcome (set_provenance_nodes nodes_deleted);;
  failures ← m_foldl (unmark_item now (ss_dataset_id scope)) 0 affected;
  if (0 <? failures)%nat then
    fail (Runtime ("Failed to clear " +:+ pretty failures +:+ " of " +:+ pretty (length affected)
      +:+ " cognify completion markers for run " +:+ run_id
      +:+ "; those data items are still marked complete but their artifacts are gone"))
  else mret ().

(** [RunSweeper::run_in_scope] *)
Definition run_in_scope (now : Z) (scope : SweepScope) : M DeleteError () :=
  let run_scope := as_run_scope scope in
  let run_id := uuid_to_string (ss_pipeline_run_id scope) in
  affected ← or_runtime ("Failed to get provenance data ids for run " +:+ run_id)
    (query (λ st, get_data_ids_for_run run_scope (st_ledger st)));
  nodes ← or_runtime ("Failed to get exclusively-owned provenance nodes for run " +:+ run_id)
    (query (λ st, unique_rows_for_run run_scope (lg_nodes (st_ledger st))));
  edges ← or_runtime ("Failed to get exclusively-owned provenance edges for run " +:+ run_id)
    (query (λ st, unique_rows_for_run run_scope (lg_edges (st_ledger st))));
  edge_type_ids ← deletable_edge_type_ids run_scope edges;
  '(graph_nodes, graph_warnings) ← delete_graph_artifacts true nodes;
  update_outcome (set_graph_nodes graph_nodes graph_warnings);;
  '(vector_points, vector_warnings) ← delete_vector_artifacts new_v5 true nodes edges edge_type_ids;
  update_outcome (set_vector_points vector_points vector_warnings);;
  delete_ownership now scope affected.

(** [RunSweeper::sweep], with the calls the plan lets fail: what it returns, and the
    stores it leaves. *)
Definition sweep (now : Z) (scope : SweepScope) (plan : list (option failure)) (st : stores)
    : result DeleteError SweepOutcome * stores :=
  let '(r, w) := run_in_scope now scope {| dw_stores := st; dw_plan := plan; dw_outcome := SweepOutcome_default |} in
  (match r with Ok _ => Ok (dw_outcome w) | Err e => Err e end, dw_stores w).

(** [DeleteError]'s [Display] *)
Fixpoint display_error (e : DeleteError) : string :=
  match e with
  | Validation m => m
  | Runtime m => m
  | GraphCleanup m => "Graph cleanup failed: " +:+ m
  | VectorCleanup m => "Vector cleanup failed: " +:+ m
  | PermissionDenied m => "Permission denied: " +:+ m
  | Partial completed failed_dataset_id source =>
      "delete stopped at dataset " +:+ uuid_to_string failed_dataset_id +:+ " after deleting "
      +:+ pretty (deleted_datasets completed) +:+ " dataset(s): " +:+ display_error source
  end.

(** [RunSweeper::sweep_logging_failure] *)
Definition sweep_logging_failure (now : Z) (scope : SweepScope) (plan : list (option failure)) (st : stores)
    : SweepOutcome * stores :=
  let '(r, w) := run_in_scope now scope {| dw_stores := st; dw_plan := plan; dw_outcome := SweepOutcome_default |} in
  (match r with
   | Ok _ => dw_outcome w
   | Err e => push_warning ("Run sweep failed: " +:+ display_error e) (dw_outcome w)
   end, dw_stores w).
End sweep.
