(* ===== verification/SweepFacts.v ===== *)
(** * Facts about the run sweep

    What a sweep removes, whatever calls fail: the abstract effect [swept] it
    implements, what it never touches, and why a retry converges. *)

From stdpp Require Import sorting.
From S2P Require Import Prelude Json Strings Markers Ledger LedgerFacts Artifacts Sweep.

(** ** Calls that may fail *)

(** Every run of [m] from [w] ends in [Q], or fails in [X]. *)
Definition dwp {E A} (m : M E A) (Q : A → delete_world → Prop) (X : E → delete_world → Prop)
    (w : delete_world) : Prop :=
  match m w with
  | (Ok a, w') => Q a w'
  | (Err e, w') => X e w'
  end.

(** Nothing fails any more. *)
Definition quiet (w : delete_world) : Prop := dw_plan w = [].

Section dwp.
Context {E A : Type}.
Implicit Types (Q : A → delete_world → Prop) (X : E → delete_world → Prop).

Lemma dwp_mono m Q Q' X X' w :
  dwp m Q X w → (∀ a w', Q a w' → Q' a w') → (∀ e w', X e w' → X' e w') → dwp m Q' X' w.
Proof. unfold dwp. destruct (m w) as [[]]; auto. Qed.

Lemma dwp_ret (a : A) Q X w : Q a w → dwp (mret a) Q X w.
Proof. done. Qed.

Lemma dwp_fail (e : E) Q X w : X e w → dwp (fail e) Q X w.
Proof. done. Qed.

Lemma dwp_bind {B} (m : M E B) (k : B → M E A) Q X w :
  dwp m (λ b, dwp (k b) Q X) X w → dwp (m ≫= k) Q X w.
Proof. unfold dwp, mbind, m_bind. by destruct (m w) as [[]]. Qed.

Lemma dwp_map_err {F} (f : F → E) (m : M F A) Q X w : dwp m Q (λ e, X (f e)) w → dwp (m_map_err f m) Q X w.
Proof. unfold dwp, m_map_err. by destruct (m w) as [[]]. Qed.

Lemma dwp_catch {F} (m : M F A) (Q : result F A → delete_world → Prop) X w :
  dwp m (λ a, Q (Ok a)) (λ e, Q (Err e)) w → dwp (m_catch m) Q X w.
Proof. unfold dwp, m_catch. by destruct (m w) as [[]]. Qed.

(** A loop, with an invariant over what it has gone through. *)
Lemma dwp_foldl {B} (f : A → B → M E A) (I : A → list B → delete_world → Prop) X (l : list B) a w :
  I a [] w →
  (∀ a done b todo w, l = done ++ b :: todo → I a done w → dwp (f a b) (λ a', I a' (done ++ [b])) X w) →
  dwp (m_foldl f a l) (λ a', I a' l) X w.
Proof.
  intros HI Hstep. assert (Hgo : ∀ todo done a w, l = done ++ todo → I a done w →
    dwp (m_foldl f a todo) (λ a', I a' l) X w); [|by apply (Hgo l [])].
  clear a w HI. induction todo as [|b todo IH]; intros done a w Hl HI; simpl.
  - apply dwp_ret. by rewrite Hl, app_nil_r.
  - apply dwp_bind. eapply dwp_mono; [by eapply Hstep| |done]. intros a' w' HI'. apply (IH (done ++ [b])); [|done].
    by rewrite <-app_assoc.
Qed.
End dwp.

(** A call has its effect, or fails with or without it. *)
Lemma dwp_call {A} (f : stores → A * stores) (Q : A → delete_world → Prop) (X : string → delete_world → Prop) w :
  (∀ plan, (quiet w → plan = []) → Q (f (dw_stores w)).1 (with_stores (f (dw_stores w)).2 plan w)) →
  (∀ e plan st, ¬ quiet w → st = dw_stores w ∨ st = (f (dw_stores w)).2 → X e (with_stores st plan w)) →
  dwp (call f) Q X w.
Proof.
  unfold dwp, call, quiet. intros HQ HX. destruct (dw_plan w) as [|[[e|e]|] plan] eqn:Hp; simpl; auto.
  by apply HQ.
Qed.

Lemma dwp_query {A} (f : stores → A) (Q : A → delete_world → Prop) (X : string → delete_world → Prop) w :
  (∀ plan, (quiet w → plan = []) → Q (f (dw_stores w)) (with_stores (dw_stores w) plan w)) →
  (∀ e plan, ¬ quiet w → X e (with_stores (dw_stores w) plan w)) →
  dwp (query f) Q X w.
Proof. intros HQ HX. apply dwp_call; simpl; [done|]. intros e plan st Hq [->| ->]; auto. Qed.

Lemma dwp_command (f : stores → stores) (Q : () → delete_world → Prop) (X : string → delete_world → Prop) w :
  (∀ plan, (quiet w → plan = []) → Q () (with_stores (f (dw_stores w)) plan w)) →
  (∀ e plan st, ¬ quiet w → st = dw_stores w ∨ st = f (dw_stores w) → X e (with_stores st plan w)) →
  dwp (command f) Q X w.
Proof. intros HQ HX. by apply dwp_call. Qed.

Lemma dwp_update {E} f (Q : () → delete_world → Prop) (X : E → delete_world → Prop) w :
  Q () {| dw_stores := dw_stores w; dw_plan := dw_plan w; dw_outcome := f (dw_outcome w) |} →
  dwp (update_outcome f) Q X w.
Proof. done. Qed.

(** ** Shrinking vector stores *)

Definition TRIPLETS : string * string := (TRIPLET_DATA_TYPE, TRIPLET_FIELD).
Definition EDGE_TYPES : string * string := (EDGE_TYPE_DATA_TYPE, EDGE_TYPE_FIELD).

Definition with_vectors (v : gmap (string * string) (gset uuid)) (st : stores) : stores :=
  {| st_ledger := st_ledger st; st_data := st_data st; st_graph := st_graph st;
     st_graph_edges := st_graph_edges st; st_vectors := v; st_dataset_storage := st_dataset_storage st |}.

Section shrunk.
Implicit Types (D : string * string → gset uuid) (v : gmap (string * string) (gset uuid)).

(** From [v] to [v'] only points of [D] have gone. *)
Definition shrunk D v v' : Prop := ∀ c,
  match v !! c, v' !! c with
  | Some p, Some p' => p' ⊆ p ∧ p ⊆ p' ∪ D c
  | None, None => True
  | _, _ => False
  end.

(** The points of [D] have gone from the collection. *)
Definition gone D v c : Prop := ∀ p, v !! c = Some p → p ## D c.

(** The store without the points of [D]. *)
Definition without D v : gmap (string * string) (gset uuid) := map_imap (λ c p, Some (p ∖ D c)) v.

Lemma shrunk_refl D v : shrunk D v v.
Proof. intros c. destruct (v !! c); set_solver. Qed.

Lemma shrunk_trans D v1 v2 v3 : shrunk D v1 v2 → shrunk D v2 v3 → shrunk D v1 v3.
Proof. intros H1 H2 c. specialize (H1 c). specialize (H2 c). repeat case_match; set_solver. Qed.

Lemma shrunk_delete D v c (ids : list uuid) :
  list_to_set ids ⊆ D c → shrunk D v (alter (λ points, points ∖ list_to_set ids) c v).
Proof.
  intros Hids c'. destruct (decide (c' = c)) as [->|Hne].
  - rewrite lookup_alter_eq. destruct (v !! c); simpl; [|done]. split; [set_solver|].
    intros x Hx. destruct (decide (x ∈ (list_to_set ids : gset uuid))); set_solver.
  - rewrite lookup_alter_ne by done. destruct (v !! c'); set_solver.
Qed.

Lemma gone_shrunk D v v' c : shrunk D v v' → gone D v c → gone D v' c.
Proof. intros Hs Hg p Hp. specialize (Hs c). rewrite Hp in Hs. destruct (v !! c) eqn:Hv; [|done]. specialize (Hg _ Hv). set_solver. Qed.

Lemma without_spec D v v' : shrunk D v v' → (∀ c, gone D v' c) → v' = without D v.
Proof.
  intros Hs Hg. apply map_eq. intros c. unfold without. rewrite map_lookup_imap. specialize (Hs c).
  destruct (v !! c) as [p|], (v' !! c) as [p'|] eqn:Hp'; simpl; try done. specialize (Hg c p' Hp').
  f_equal. set_solver.
Qed.

Lemma without_shrunk D v v' : shrunk D v v' → without D v' = without D v.
Proof.
  intros Hs. apply map_eq. intros c. unfold without. rewrite !map_lookup_imap. specialize (Hs c).
  destruct (v !! c) as [p|], (v' !! c) as [p'|]; simpl; try done. f_equal. set_solver.
Qed.
End shrunk.

(** The ids that are counted for a collection: all those asked for, if there is one. *)
Definition points_of (v : gmap (string * string) (gset uuid)) (entry : (string * string) * list uuid) : nat :=
  if decide (is_Some (v !! entry.1)) then length entry.2 else 0.

Lemma points_of_shrunk D v v' entry : shrunk D v v' → points_of v' entry = points_of v entry.
Proof.
  intros Hs. specialize (Hs entry.1). unfold points_of.
  destruct (v !! entry.1) eqn:Hv, (v' !! entry.1) eqn:Hv'; try done;
    by rewrite !decide_True by eauto || by rewrite !decide_False by by intros [].
Qed.

(** Counting by the entries of one map is counting by those of the other. *)
Lemma points_of_exchange (m : gmap (string * string) (list uuid)) (v : gmap (string * string) (gset uuid)) :
  sum_list_with (points_of v) (map_to_list m)
  = sum_list_with (λ entry, length (default [] (m !! entry.1))) (map_to_list v).
Proof.
  assert (Hext : ∀ (f g : (string * string) * gset uuid → nat) l, (∀ x, x ∈ l → f x = g x) →
    sum_list_with f l = sum_list_with g l).
  { intros f g l. induction l as [|x l IH]; intros Hfg; simpl; [done|].
    rewrite (Hfg x) by by left. rewrite IH; [done|]. intros y Hy. apply Hfg. by right. }
  induction m as [|c ids m Hc IH] using map_ind.
  - rewrite map_to_list_empty. simpl. induction (map_to_list v) as [|e l IHl]; simpl; [done|].
    by rewrite lookup_empty, <-IHl.
  - rewrite map_to_list_insert by done. simpl. rewrite IH. unfold points_of. simpl.
    case_decide as Hv.
    + destruct Hv as [p Hp]. rewrite <-(insert_delete_id v c p Hp).
      rewrite map_to_list_insert by apply lookup_delete_eq. simpl. rewrite lookup_insert_eq, Hc. simpl. f_equal.
      apply Hext. intros [c' p'] Hin%elem_of_map_to_list. simpl.
      rewrite lookup_insert_ne; [done|]. intros ->. by rewrite lookup_delete_eq in Hin.
    + apply Hext. intros [c' p'] Hin%elem_of_map_to_list. simpl.
      rewrite lookup_insert_ne; [done|]. intros ->. destruct Hv. eauto.
Qed.

(** ** Deleting artifacts *)

Lemma graph_delete_none st : graph_delete_nodes ∅ st = st.
Proof.
  destruct st as [l d g ge v o]. unfold graph_delete_nodes. simpl. f_equal; [set_solver|].
  apply set_eq. intros [[s n] t]. rewrite elem_of_filter. set_solver.
Qed.

Lemma delete_graph_artifacts_wp nodes w :
  let D : gset uuid := list_to_set (map gn_slug nodes) in
  dwp (delete_graph_artifacts true nodes)
    (λ r w', dw_stores w' = graph_delete_nodes D (dw_stores w) ∧ r = (size D, [])
             ∧ dw_outcome w' = dw_outcome w ∧ (quiet w → quiet w'))
    (λ e w', ¬ quiet w ∧ dw_outcome w' = dw_outcome w
             ∧ (dw_stores w' = dw_stores w ∨ dw_stores w' = graph_delete_nodes D (dw_stores w))) w.
Proof.
  intros D. unfold delete_graph_artifacts. fold D. apply dwp_bind. case_decide as HD.
  - apply dwp_ret, dwp_ret. by rewrite HD, graph_delete_none.
  - apply dwp_map_err, dwp_command.
    + intros plan Hp. by apply dwp_ret.
    + intros e plan st Hq Hst. done.
Qed.

Lemma existing_vector_ids_wp data_type field candidates w :
  dwp (existing_vector_ids data_type field candidates)
    (λ ids w', dw_stores w' = dw_stores w ∧ dw_outcome w' = dw_outcome w ∧ (quiet w → quiet w')
               ∧ ids ≡ₚ elements (default ∅ (st_vectors (dw_stores w) !! (data_type, field)) ∩ candidates))
    (λ e w', ¬ quiet w ∧ dw_outcome w' = dw_outcome w ∧ dw_stores w' = dw_stores w) w.
Proof.
  unfold existing_vector_ids. case_decide as HC.
  { apply dwp_ret. rewrite HC, intersection_empty_r_L, elements_empty. by repeat split. }
  apply dwp_bind, dwp_map_err, dwp_query; [|done]. intros plan Hp. unfold has_collection.
  destruct (st_vectors (dw_stores w) !! (data_type, field)) as [p|] eqn:Hc;
    rewrite ?bool_decide_true, ?bool_decide_false by (eauto || by intros []).
  - apply dwp_bind, dwp_map_err, dwp_query.
    + intros plan' Hp'. apply dwp_ret. simpl. split; [done|]. split; [done|]. split.
      { intros Hq. apply Hp'. unfold quiet. simpl. auto. }
      unfold in_order. rewrite merge_sort_Permutation. unfold retrieve. simpl. rewrite Hc. simpl.
      f_equiv.
    + intros e plan' Hq. split; [|done]. intros Hq'. apply Hq. unfold quiet. simpl. auto.
  - apply dwp_ret. simpl. rewrite intersection_empty_l_L, elements_empty. by repeat split.
Qed.

Lemma lookup_extend_entry key ids m c :
  default [] (extend_entry key ids m !! c) = default [] (m !! c) ++ (if decide (c = key) then ids else []).
Proof.
  unfold extend_entry. case_decide as Hc; [by rewrite Hc, lookup_insert_eq|].
  by rewrite lookup_insert_ne, app_nil_r.
Qed.

(** One collection. *)
Lemma delete_collection_wp (D : string * string → gset uuid) c ids n warnings w :
  list_to_set ids ⊆ D c →
  dwp (delete_collection_points (n, warnings) (c, ids))
    (λ r w', ∃ v, dw_stores w' = with_vectors v (dw_stores w) ∧ dw_outcome w' = dw_outcome w
       ∧ shrunk D (st_vectors (dw_stores w)) v
       ∧ (∀ p, v !! c = Some p → c ≠ TRIPLETS ∨ quiet w → p ## list_to_set ids)
       ∧ (quiet w → quiet w' ∧ r.2 = warnings ∧ r.1 = n + points_of (st_vectors (dw_stores w)) (c, ids)))
    (λ e w', ¬ quiet w ∧ dw_outcome w' = dw_outcome w
             ∧ ∃ v, dw_stores w' = with_vectors v (dw_stores w) ∧ shrunk D (st_vectors (dw_stores w)) v) w.
Proof.
  intros HD. destruct c as [data_type field_name].
  assert (Hself : dw_stores w = with_vectors (st_vectors (dw_stores w)) (dw_stores w)) by by destruct (dw_stores w).
  unfold delete_collection_points. destruct ids as [|id ids'].
  { apply dwp_ret. exists (st_vectors (dw_stores w)). split; [done|]. split; [done|]. split; [apply shrunk_refl|].
    split; [set_solver|]. intros Hq. split_and!; try done. unfold points_of. simpl. case_decide; lia. }
  set (ids := id :: ids') in *. clearbody ids.
  apply dwp_bind, dwp_map_err, dwp_query.
  2: { intros e plan Hq. split; [done|]. split; [done|]. exists (st_vectors (dw_stores w)).
       split; [done|]. apply shrunk_refl. }
  intros plan Hp. unfold has_collection.
  destruct (st_vectors (dw_stores w) !! (data_type, field_name)) as [p|] eqn:Hc;
    rewrite ?bool_decide_true, ?bool_decide_false by (eauto || by intros []).
  2: { apply dwp_ret. exists (st_vectors (dw_stores w)). split; [done|]. split; [done|]. split; [apply shrunk_refl|].
       split; [by rewrite Hc|]. intros Hq. split; [by apply Hp|]. split; [done|].
       unfold points_of. simpl. rewrite Hc, decide_False by by intros []. lia. }
  apply dwp_bind, dwp_catch, dwp_command.
  - intros plan' Hp'. apply dwp_ret. simpl. eexists. split; [done|]. split; [done|].
    split; [by apply shrunk_delete|]. split.
    + intros p'. rewrite lookup_alter_eq, Hc. simpl. intros ? _. simplify_eq. set_solver.
    + intros Hq. split; [apply Hp'; unfold quiet; simpl; auto|]. split; [done|].
      unfold points_of. simpl. by rewrite Hc, decide_True by eauto.
  - intros e plan' st Hq Hst. assert (¬ quiet w) by (intros Hq'; apply Hq; unfold quiet; simpl; auto).
    assert (Hv : ∃ v, st = with_vectors v (dw_stores w) ∧ shrunk D (st_vectors (dw_stores w)) v).
    { destruct Hst as [->| ->]; eexists; (split; [done|]); [apply shrunk_refl|by apply shrunk_delete]. }
    destruct (decide (data_type = TRIPLET_DATA_TYPE ∧ field_name = TRIPLET_FIELD)) as [[-> ->]|Hn].
    + apply dwp_ret. simpl. destruct Hv as (v & -> & Hv). exists v. split; [done|]. split; [done|]. split; [done|].
      split; [|done]. intros p' _ [Hne|?]; [|done]. by destruct Hne.
    + by apply dwp_fail.
Qed.

(** The points of the collections of [m]. *)
Lemma delete_collections_wp (D : string * string → gset uuid) (m : gmap (string * string) (list uuid)) n warnings w :
  (∀ c ids, m !! c = Some ids → list_to_set ids ⊆ D c) →
  dwp (m_foldl delete_collection_points (n, warnings) (map_to_list m))
    (λ r w', ∃ v, dw_stores w' = with_vectors v (dw_stores w) ∧ dw_outcome w' = dw_outcome w
       ∧ shrunk D (st_vectors (dw_stores w)) v
       ∧ (∀ c ids p, m !! c = Some ids → v !! c = Some p → c ≠ TRIPLETS ∨ quiet w → p ## list_to_set ids)
       ∧ (quiet w → quiet w' ∧ r.2 = warnings
            ∧ r.1 = n + sum_list_with (points_of (st_vectors (dw_stores w))) (map_to_list m)))
    (λ e w', ¬ quiet w ∧ dw_outcome w' = dw_outcome w
             ∧ ∃ v, dw_stores w' = with_vectors v (dw_stores w) ∧ shrunk D (st_vectors (dw_stores w)) v) w.
Proof.
  intros HD. assert (Hself : dw_stores w = with_vectors (st_vectors (dw_stores w)) (dw_stores w)) by by destruct (dw_stores w).
  eapply dwp_mono; [apply (dwp_foldl _ (λ r done w', ∃ v, dw_stores w' = with_vectors v (dw_stores w)
       ∧ dw_outcome w' = dw_outcome w ∧ shrunk D (st_vectors (dw_stores w)) v
       ∧ (∀ c ids p, (c, ids) ∈ done → v !! c = Some p → c ≠ TRIPLETS ∨ quiet w → p ## list_to_set ids)
       ∧ (quiet w → quiet w' ∧ r.2 = warnings
            ∧ r.1 = n + sum_list_with (points_of (st_vectors (dw_stores w))) done))
       (λ e w', ¬ quiet w ∧ dw_outcome w' = dw_outcome w
                ∧ ∃ v, dw_stores w' = with_vectors v (dw_stores w) ∧ shrunk D (st_vectors (dw_stores w)) v))| |].
  - exists (st_vectors (dw_stores w)). split; [done|]. split; [done|]. split; [apply shrunk_refl|].
    split; [intros c ids p Hin; by apply elem_of_nil in Hin|]. intros Hq. split_and!; [done|done|]. simpl. lia.
  - intros [n' ws] done [c ids] todo w1 Hl (v1 & Hst & Ho & Hs1 & Hg1 & Hq1).
    assert (Hin : (c, ids) ∈ map_to_list m) by (rewrite Hl; set_solver).
    apply elem_of_map_to_list in Hin. specialize (HD _ _ Hin).
    eapply dwp_mono; [by apply (delete_collection_wp D)| |]; rewrite Hst; simpl.
    + intros [n2 ws2] w2 (v2 & Hst2 & Ho2 & Hs2 & Hg2 & Hq2). exists v2. simpl in *.
      split; [by rewrite Hst2|]. split; [congruence|]. split; [by eapply shrunk_trans|]. split.
      * intros c' ids' p' [Hd|Hd]%elem_of_app Hp' Hor.
        -- specialize (Hs2 c'). rewrite Hp' in Hs2. destruct (v1 !! c') as [p1|] eqn:Hp1; [|done].
           specialize (Hg1 c' ids' p1 Hd Hp1 Hor). set_solver.
        -- apply list_elem_of_singleton in Hd. simplify_eq. apply Hg2; [done|].
           destruct Hor as [?|Hq]; [by left|]. right. by apply Hq1.
      * intros Hq. destruct (Hq1 Hq) as (Hqw1 & -> & Hn1). destruct (Hq2 Hqw1) as (? & ? & Hn2).
        split; [done|]. split; [done|].
        rewrite Hn2, Hn1, sum_list_with_app. simpl. rewrite (points_of_shrunk _ _ _ _ Hs1). lia.
    + intros e w2 (Hnq & Ho2 & v2 & Hst2 & Hs2). split; [by intros Hq; apply Hnq, Hq1|]. split; [congruence|].
      exists v2. split; [by rewrite Hst2|]. by eapply shrunk_trans.
  - intros r w' (v & Hst & Ho & Hs & Hg & Hq). exists v. split; [done|]. split; [done|]. split; [done|].
    split; [|done]. intros c ids p Hm. apply Hg. by apply elem_of_map_to_list.
  - done.
Qed.

Section vector.
Context `{UuidFormat, Lowercase} (new_v5 : uuid → string → uuid).

(** What a deletion of the nodes, edges and edge types is to remove. *)
Definition doomed_points (nodes : list GraphNode) (edges : list GraphEdge) (edge_type_ids : list uuid)
    (c : string * string) : gset uuid :=
  list_to_set (default [] (node_points nodes !! c))
  ∪ (if decide (c = EDGE_TYPES) then list_to_set edge_type_ids else ∅)
  ∪ (if decide (c = TRIPLETS) then list_to_set (map (triplet_vector_id new_v5) edges) else ∅).

Lemma elem_of_list_to_set_app (x : uuid) (l k : list uuid) :
  x ∈ (list_to_set (l ++ k) : gset uuid) ↔ x ∈ (list_to_set l : gset uuid) ∨ x ∈ (list_to_set k : gset uuid).
Proof. rewrite list_to_set_app. set_solver. Qed.

(** The points a deletion asks for, collection by collection of the store: an id per row
    and indexed field of the nodes, and of the edges the points that exist. *)
Definition points_asked (nodes : list GraphNode) (edges : list GraphEdge) (edge_type_ids : list uuid)
    (v : gmap (string * string) (gset uuid)) : nat :=
  sum_list_with (λ entry : (string * string) * gset uuid,
      length (default [] (node_points nodes !! entry.1))
      + (if decide (entry.1 = EDGE_TYPES) then size (entry.2 ∩ list_to_set edge_type_ids) else 0)
      + (if decide (entry.1 = TRIPLETS) then size (entry.2 ∩ list_to_set (map (triplet_vector_id new_v5) edges)) else 0))
    (map_to_list v).

Lemma points_asked_none v : points_asked [] [] [] v = 0.
Proof.
  unfold points_asked. induction (map_to_list v) as [|e l IH]; [done|]. simpl in *. rewrite IH.
  unfold node_points. simpl. rewrite lookup_empty, !intersection_empty_r_L, size_empty. by repeat case_decide.
Qed.

(** The collections and ids that the loop of [delete_vector_artifacts] goes through. *)
Lemma collected_points (nodes : list GraphNode) (edges : list GraphEdge) (edge_type_ids ets trs : list uuid) (v : gmap (string * string) (gset uuid)) :
  ets ≡ₚ elements (default ∅ (v !! EDGE_TYPES) ∩ list_to_set edge_type_ids) →
  list_to_set trs ⊆ (list_to_set (map (triplet_vector_id new_v5) edges) : gset uuid) →
  let m := match trs with [] => match ets with [] => node_points nodes
                                | _ => extend_entry EDGE_TYPES ets (node_points nodes) end
           | _ => extend_entry TRIPLETS trs (match ets with [] => node_points nodes
                                             | _ => extend_entry EDGE_TYPES ets (node_points nodes) end) end in
  ∀ c, list_to_set (default [] (m !! c)) ⊆ doomed_points nodes edges edge_type_ids c
    ∧ ∀ x, x ∈ default ∅ (v !! c) → x ∈ doomed_points nodes edges edge_type_ids c →
           (c = TRIPLETS → list_to_set trs = default ∅ (v !! TRIPLETS)
                                              ∩ list_to_set (map (triplet_vector_id new_v5) edges)) →
           x ∈ (list_to_set (default [] (m !! c)) : gset uuid).
Proof.
  intros Hets' Htrs m c. cbv zeta in *.
  assert (Hets : (list_to_set ets : gset uuid) = default ∅ (v !! EDGE_TYPES) ∩ list_to_set edge_type_ids)
    by (rewrite Hets'; apply list_to_set_elements_L).
  assert (Hm : ∀ x, x ∈ (list_to_set (default [] (m !! c)) : gset uuid) ↔
    x ∈ (list_to_set (default [] (node_points nodes !! c)) : gset uuid)
    ∨ (c = EDGE_TYPES ∧ x ∈ (list_to_set ets : gset uuid)) ∨ (c = TRIPLETS ∧ x ∈ (list_to_set trs : gset uuid))).
  { intros x. unfold m. destruct trs as [|t trs], ets as [|e ets]; rewrite ?lookup_extend_entry, ?elem_of_list_to_set_app;
      repeat case_decide; simpl; set_solver. }
  split.
  - intros x Hx. apply Hm in Hx. unfold doomed_points. rewrite !elem_of_union.
    destruct Hx as [Hx|[[-> Hx]|[-> Hx]]]; [by left; left| |].
    + left. right. rewrite decide_True by done. rewrite Hets in Hx. set_solver.
    + right. rewrite decide_True by done. set_solver.
  - intros x Hv Hx Heq. apply Hm. unfold doomed_points in Hx. rewrite !elem_of_union in Hx.
    destruct Hx as [[Hx|Hx]|Hx]; [by left| |].
    + case_decide as Hc; [|set_solver]. right. left. split; [done|]. rewrite Hets, <-Hc. set_solver.
    + case_decide as Hc; [|set_solver]. right. right. split; [done|]. rewrite Heq by done. rewrite <-Hc. set_solver.
Qed.

Lemma collected_count (nodes : list GraphNode) (edges : list GraphEdge) (edge_type_ids ets trs : list uuid) (v : gmap (string * string) (gset uuid)) :
  ets ≡ₚ elements (default ∅ (v !! EDGE_TYPES) ∩ list_to_set edge_type_ids) →
  trs ≡ₚ elements (default ∅ (v !! TRIPLETS) ∩ list_to_set (map (triplet_vector_id new_v5) edges)) →
  let m := match trs with [] => match ets with [] => node_points nodes
                                | _ => extend_entry EDGE_TYPES ets (node_points nodes) end
           | _ => extend_entry TRIPLETS trs (match ets with [] => node_points nodes
                                             | _ => extend_entry EDGE_TYPES ets (node_points nodes) end) end in
  sum_list_with (points_of v) (map_to_list m) = points_asked nodes edges edge_type_ids v.
Proof.
  intros Hets Htrs m. rewrite points_of_exchange. unfold points_asked.
  assert (Hm : ∀ c, length (default [] (m !! c)) = length (default [] (node_points nodes !! c))
      + (if decide (c = EDGE_TYPES) then length ets else 0) + (if decide (c = TRIPLETS) then length trs else 0)).
  { intros c. unfold m. destruct trs, ets; rewrite ?lookup_extend_entry, ?length_app; repeat case_decide; simpl; lia. }
  assert (Hl : ∀ e, e ∈ map_to_list v → v !! e.1 = Some e.2) by by intros [c p] ?%elem_of_map_to_list.
  clearbody m. revert Hl. induction (map_to_list v) as [|[c p] l IH]; intros Hl; simpl; [done|].
  rewrite IH by (intros e He; apply Hl; by right). f_equal. rewrite Hm.
  pose proof (Hl (c, p) ltac:(by left)) as Hc. simpl in Hc. f_equal; [f_equal|]; case_decide as Hd; try done; rewrite Hd in Hc.
  - by rewrite Hets, Hc.
  - by rewrite Htrs, Hc.
Qed.

Lemma delete_vector_artifacts_wp (nodes : list GraphNode) (edges : list GraphEdge) (edge_type_ids : list uuid) w :
  let D := doomed_points nodes edges edge_type_ids in
  dwp (delete_vector_artifacts new_v5 true nodes edges edge_type_ids)
    (λ r w', ∃ v, dw_stores w' = with_vectors v (dw_stores w) ∧ dw_outcome w' = dw_outcome w
       ∧ shrunk D (st_vectors (dw_stores w)) v ∧ (∀ c, c ≠ TRIPLETS ∨ quiet w → gone D v c)
       ∧ (quiet w → quiet w' ∧ r.2 = [] ∧ r.1 = points_asked nodes edges edge_type_ids (st_vectors (dw_stores w))))
    (λ e w', ¬ quiet w ∧ dw_outcome w' = dw_outcome w
             ∧ ∃ v, dw_stores w' = with_vectors v (dw_stores w) ∧ shrunk D (st_vectors (dw_stores w)) v) w.
Proof.
  intros D. unfold delete_vector_artifacts.
  assert (Hself : dw_stores w = with_vectors (st_vectors (dw_stores w)) (dw_stores w)) by by destruct (dw_stores w).
  apply dwp_bind, dwp_map_err. eapply dwp_mono; [apply existing_vector_ids_wp| |]; simpl.
  2: { intros e w1 (Hq & Ho & Hs). split; [done|]. split; [done|]. exists (st_vectors (dw_stores w)).
       split; [congruence|apply shrunk_refl]. }
  intros ets w1 (Hs1 & Ho1 & Hq1 & Hets). apply dwp_bind, dwp_catch.
  assert (Hloop : ∀ trs warnings w2, dw_stores w2 = dw_stores w1 → dw_outcome w2 = dw_outcome w1 →
    list_to_set trs ⊆ (list_to_set (map (triplet_vector_id new_v5) edges) : gset uuid) →
    (quiet w → quiet w2 ∧ warnings = [] ∧ trs ≡ₚ elements (default ∅ (st_vectors (dw_stores w) !! TRIPLETS)
                                              ∩ (list_to_set (map (triplet_vector_id new_v5) edges)))) →
    dwp (m_foldl delete_collection_points (0, warnings)
          (map_to_list (match trs with [] => match ets with [] => node_points nodes
                                | _ => extend_entry EDGE_TYPES ets (node_points nodes) end
           | _ => extend_entry TRIPLETS trs (match ets with [] => node_points nodes
                                             | _ => extend_entry EDGE_TYPES ets (node_points nodes) end) end)))
    (λ r w', ∃ v, dw_stores w' = with_vectors v (dw_stores w) ∧ dw_outcome w' = dw_outcome w
       ∧ shrunk D (st_vectors (dw_stores w)) v ∧ (∀ c, c ≠ TRIPLETS ∨ quiet w → gone D v c)
       ∧ (quiet w → quiet w' ∧ r.2 = [] ∧ r.1 = points_asked nodes edges edge_type_ids (st_vectors (dw_stores w))))
    (λ e w', ¬ quiet w ∧ dw_outcome w' = dw_outcome w
             ∧ ∃ v, dw_stores w' = with_vectors v (dw_stores w) ∧ shrunk D (st_vectors (dw_stores w)) v) w2).
  { intros trs warnings w2 Hs2 Ho2 Htrs Hq2.
    pose proof (collected_points nodes edges edge_type_ids ets trs _ Hets Htrs) as Hm. cbv zeta in Hm.
    pose proof (collected_count nodes edges edge_type_ids ets trs _ Hets) as Hcount. cbv zeta in Hcount.
    set (m := match trs with [] => _ | _ => _ end) in *. clearbody m. fold D in Hm.
    eapply dwp_mono; [apply (delete_collections_wp D)| |].
    - intros c ids Hc. destruct (Hm c) as [Hsub _]. by rewrite Hc in Hsub.
    - intros r w3 (v & Hs3 & Ho3 & Hsh & Hg & Hq3). rewrite Hs2, Hs1 in *. exists v. split; [done|].
      split; [congruence|]. split; [done|]. split.
      + intros c Hor p Hp x Hx HD. destruct (Hm c) as [_ Hin]. pose proof (Hsh c) as Hshc. rewrite Hp in Hshc.
        destruct (st_vectors (dw_stores w) !! c) as [p0|] eqn:Hp0; [|done].
        assert (Hxm : x ∈ (list_to_set (default [] (m !! c)) : gset uuid)).
        { apply Hin; [simpl; set_solver|done|]. intros ->. destruct Hor as [?|Hq]; [done|]. destruct (Hq2 Hq) as (_ & _ & ->). apply list_to_set_elements_L. }
        destruct (m !! c) as [ids|] eqn:Hmc; [|set_solver]. simpl in Hxm.
        assert (p ## list_to_set ids); [|set_solver]. apply (Hg c ids p Hmc Hp).
        destruct Hor as [?|Hq]; [by left|]. right. by apply Hq2.
      + intros Hq. destruct (Hq2 Hq) as (Hq2' & Hw & Htrs'). destruct (Hq3 Hq2') as (? & -> & ->).
        rewrite <-Hcount by done. done.
    - intros e w3 (Hq & Ho3 & v & Hs3 & Hsh). rewrite Hs2, Hs1 in *.
      split; [by intros Hq'; apply Hq, Hq2|]. split; [congruence|]. by exists v. }
  eapply dwp_mono; [apply existing_vector_ids_wp| |]; simpl.
  - intros trs w2 (Hs2 & Ho2 & Hq2 & Htrs). rewrite Hs1 in Htrs. apply Hloop; [done|done|rewrite Htrs, list_to_set_elements_L; apply intersection_subseteq_r|].
    intros Hq. split; [by apply Hq2, Hq1|]. done.
  - intros e w2 (Hq & Ho2 & Hs2). apply (Hloop []); [done|done|apply empty_subseteq|].
    intros Hq'. by destruct Hq; apply Hq1.
Qed.
End vector.

(** ** The effect of a sweep *)

Section swept.
Context `{UuidFormat, SerdeJson, Lowercase} (new_v5 : uuid → string → uuid) (now : Z).
Implicit Types (scope : RunScope) (l : ledger) (st : stores) (w : delete_world).

(** The graph nodes only the selection claims. *)
Definition doomed_nodes scope l : gset uuid :=
  list_to_set (map gn_slug (unique_rows_for_run scope (lg_nodes l))).

(** The edge types only the selection claims, by their texts. *)
Definition doomed_edge_types scope l : list uuid :=
  omap (edge_type_vector_id new_v5)
    (filter (λ edge, edge_retrieval_text edge ∉ get_edge_retrieval_texts_claimed_outside_run scope l)
       (unique_rows_for_run scope (lg_edges l))).

(** The vector points only the selection claims. *)
Definition doomed scope l : string * string → gset uuid :=
  doomed_points new_v5 (unique_rows_for_run scope (lg_nodes l)) (unique_rows_for_run scope (lg_edges l))
    (doomed_edge_types scope l).

(** The rows that stay. *)
Definition rolled_back scope l : ledger :=
  {| lg_nodes := filter (λ row, ¬ selected_by scope row) (lg_nodes l);
     lg_edges := filter (λ row, ¬ selected_by scope row) (lg_edges l) |}.

Definition unmark dataset_id (data_ids : list uuid) (data : data_table) : data_table :=
  foldl (λ data data_id, clear_cognify_pipeline_status_for_data now data_id dataset_id data) data data_ids.

Definition without_artifacts scope st : stores :=
  with_vectors (without (doomed scope (st_ledger st)) (st_vectors st))
    (graph_delete_nodes (doomed_nodes scope (st_ledger st)) st).

(** What a sweep is to do: the artifacts only the selection claims, its rows and the
    markers of its items go. *)
Definition swept scope st : stores :=
  with_data (unmark (rs_dataset scope) (get_data_ids_for_run scope (st_ledger st)) (st_data st))
    (with_ledger (rolled_back scope (st_ledger st)) (without_artifacts scope st)).

(** How far a sweep got: while it deletes artifacts, *)
Definition deleting scope st st' : Prop :=
  ∃ v g, st' = with_vectors v g ∧ (g = st ∨ g = graph_delete_nodes (doomed_nodes scope (st_ledger st)) st)
         ∧ shrunk (doomed scope (st_ledger st)) (st_vectors st) v.

(** or when it has, but for legacy points; *)
Definition deleted scope st st' : Prop :=
  ∃ v, st' = with_vectors v (graph_delete_nodes (doomed_nodes scope (st_ledger st)) st)
       ∧ shrunk (doomed scope (st_ledger st)) (st_vectors st) v
       ∧ ∀ c, c ≠ TRIPLETS → gone (doomed scope (st_ledger st)) v c.

(** then it deletes rows and clears markers. *)
Definition unowning scope st st' : Prop :=
  ∃ st1 l sub, deleted scope st st1
    ∧ st' = with_data (unmark (rs_dataset scope) sub (st_data st)) (with_ledger l st1)
    ∧ ((l = {| lg_nodes := lg_nodes (st_ledger st); lg_edges := lg_edges (rolled_back scope (st_ledger st)) |}
        ∧ sub = [])
       ∨ (l = rolled_back scope (st_ledger st) ∧ sub `sublist_of` get_data_ids_for_run scope (st_ledger st))).

(** What a quiet sweep reports: the graph nodes and the vector points it asked to be
    deleted, the rows it deleted and the items it unmarked. *)
Definition reported scope st (o : SweepOutcome) : Prop :=
  let l := st_ledger st in
  sw_graph_nodes_deleted o = size (doomed_nodes scope l)
  ∧ sw_provenance_nodes_deleted o = length (filter (selected_by scope) (lg_nodes l))
  ∧ sw_provenance_edges_deleted o = length (filter (selected_by scope) (lg_edges l))
  ∧ sw_data_items_unmarked o = length (get_data_ids_for_run scope l)
  ∧ sw_warnings o = []
  ∧ sw_vector_points_deleted o = points_asked new_v5 (unique_rows_for_run scope (lg_nodes l))
      (unique_rows_for_run scope (lg_edges l)) (doomed_edge_types scope l) (st_vectors st).

Lemma rows_deleted `{LedgerRow T} scope (table : list T) :
  delete_rows_for_run scope table
  = (filter (λ row, ¬ selected_by scope row) table, length (filter (selected_by scope) table)).
Proof.
  rewrite <-rows_left_by_run. unfold delete_rows_for_run. destruct (selects_nothing scope) eqn:Hs; [|done]. simpl.
  f_equal. induction table as [|r table IH]; [done|].
  by rewrite filter_cons_False by by apply selects_nothing_selected.
Qed.

Lemma deletable_edge_type_ids_wp scope w :
  dwp (deletable_edge_type_ids new_v5 scope (unique_rows_for_run scope (lg_edges (st_ledger (dw_stores w)))))
    (λ ids w', ids = doomed_edge_types scope (st_ledger (dw_stores w)) ∧ dw_stores w' = dw_stores w
               ∧ dw_outcome w' = dw_outcome w ∧ (quiet w → quiet w'))
    (λ e w', ¬ quiet w ∧ dw_stores w' = dw_stores w) w.
Proof.
  unfold deletable_edge_type_ids, doomed_edge_types.
  destruct (unique_rows_for_run scope _) as [|e edges] eqn:Hu; [by apply dwp_ret|].
  apply dwp_bind, dwp_map_err, dwp_query; [|done]. intros plan Hp. by apply dwp_ret.
Qed.

(** The loop over the markers. *)
Lemma unmark_wp dataset_id data_ids w :
  dwp (m_foldl (unmark_item now dataset_id) 0 data_ids)
    (λ failures w', ∃ sub, sub `sublist_of` data_ids
       ∧ dw_stores w' = with_data (unmark dataset_id sub (st_data (dw_stores w))) (dw_stores w)
       ∧ (failures = 0 → sub = data_ids)
       ∧ (quiet w → failures = 0 ∧ quiet w' ∧ dw_outcome w' = Nat.iter (length data_ids) count_unmarked (dw_outcome w)))
    (λ e w', False) w.
Proof.
  assert (Hself : dw_stores w = with_data (st_data (dw_stores w)) (dw_stores w)) by by destruct (dw_stores w).
  apply (dwp_foldl _ (λ failures done w', ∃ sub, sub `sublist_of` done
       ∧ dw_stores w' = with_data (unmark dataset_id sub (st_data (dw_stores w))) (dw_stores w)
       ∧ (failures = 0 → sub = done)
       ∧ (quiet w → failures = 0 ∧ quiet w' ∧ dw_outcome w' = Nat.iter (length done) count_unmarked (dw_outcome w)))).
  - exists []. by repeat split.
  - intros failures done d todo w1 Hl (sub & Hsub & Hst & Hf & Hq). unfold unmark_item.
    assert (Hclear : with_data (clear_cognify_pipeline_status_for_data now d dataset_id (st_data (dw_stores w1))) (dw_stores w1)
                     = with_data (unmark dataset_id (sub ++ [d]) (st_data (dw_stores w))) (dw_stores w)).
    { rewrite Hst. unfold unmark. by rewrite foldl_snoc. }
    apply dwp_bind, dwp_catch, dwp_command.
    + intros plan Hp. apply dwp_bind, dwp_update, dwp_ret. exists (sub ++ [d]). simpl. split; [by apply sublist_app|].
      split; [done|]. split; [by intros ?%Hf; subst|]. intros (-> & Hq1 & Ho)%Hq. split; [done|].
      split; [by apply Hp|]. rewrite length_app, Ho. by rewrite Nat.add_1_r.
    + intros e plan st Hnq Hst'. apply dwp_bind, dwp_update, dwp_ret. simpl.
      assert (quiet w → False) by by intros (_ & Hq1 & _)%Hq.
      destruct Hst' as [->| ->]; [exists sub|exists (sub ++ [d])]; split; try done;
        [by apply sublist_inserts_r|by apply sublist_app].
Qed.

Lemma with_stores_st st plan w : dw_stores (with_stores st plan w) = st.
Proof. done. Qed.

(** The rows and the markers, once the artifacts have gone. *)
Lemma delete_ownership_wp (scope : SweepScope) w st :
  let run_scope := as_run_scope scope in
  let affected := get_data_ids_for_run run_scope (st_ledger st) in
  deleted run_scope st (dw_stores w) →
  dwp (delete_ownership now scope affected)
    (λ _ w', dw_stores w' = with_data (unmark (rs_dataset run_scope) affected (st_data st))
                              (with_ledger (rolled_back run_scope (st_ledger st)) (dw_stores w))
       ∧ (quiet w → dw_outcome w' = Nat.iter (length affected) count_unmarked
            (set_provenance_nodes (length (filter (selected_by run_scope) (lg_nodes (st_ledger st))))
               (set_provenance_edges (length (filter (selected_by run_scope) (lg_edges (st_ledger st))))
                  (dw_outcome w)))))
    (λ e w', ¬ quiet w ∧ (deleting run_scope st (dw_stores w') ∨ unowning run_scope st (dw_stores w'))) w.
Proof.
  intros run_scope affected Hdel. unfold delete_ownership. fold run_scope.
  assert (Hl : st_ledger (dw_stores w) = st_ledger st ∧ st_data (dw_stores w) = st_data st).
  { by destruct Hdel as (v & -> & _). }
  destruct Hl as [Hl Hd].
  assert (Hedges : ∀ st', st' = with_ledger {| lg_nodes := lg_nodes (st_ledger st);
      lg_edges := lg_edges (rolled_back run_scope (st_ledger st)) |} (dw_stores w) → unowning run_scope st st').
  { intros st' ->. exists (dw_stores w). eexists _, []. split; [done|]. split; [|by left].
    unfold unmark. simpl. rewrite <-Hd. by destruct (dw_stores w). }
  assert (Hboth : ∀ st' sub, sub `sublist_of` affected → st' = with_data (unmark (rs_dataset run_scope) sub (st_data st))
      (with_ledger (rolled_back run_scope (st_ledger st)) (dw_stores w)) → unowning run_scope st st').
  { intros st' sub Hsub ->. exists (dw_stores w). eexists _, sub. split; [done|]. split; [done|]. by right. }
  apply dwp_bind, dwp_map_err, dwp_call; rewrite rows_deleted; simpl; rewrite Hl.
  2: { intros e plan st' Hnq Hst'. split; [done|]. destruct Hst' as [->| ->]; [left|right; by apply Hedges].
       destruct Hdel as (v & Hv & Hsh & _). exists v. eexists. split; [done|]. by split; [right|]. }
  intros plan Hp. apply dwp_bind, dwp_update, dwp_bind, dwp_map_err, dwp_call; rewrite rows_deleted; simpl.
  2: { intros e plan' st' Hnq Hst'. split; [by intros Hq; apply Hnq; apply Hp|]. right.
       destruct Hst' as [->| ->]; [by apply Hedges|]. apply (Hboth _ []); [apply sublist_nil_l|].
       unfold unmark. simpl. rewrite <-Hd. by destruct (dw_stores w). }
  intros plan' Hp'. apply dwp_bind, dwp_update, dwp_bind. eapply dwp_mono; [apply unmark_wp| |done]; simpl.
  intros failures w' (sub & Hsub & Hst & Hf & Hq). rewrite Hd in Hst.
  destruct (0 <? failures)%nat eqn:Hfl.
  - apply dwp_fail. split; [|right; by apply (Hboth _ sub)].
    intros Hqw. apply Nat.ltb_lt in Hfl. destruct Hq as [-> _]; [|lia]. by apply Hp', Hp.
  - apply dwp_ret. apply Nat.ltb_ge in Hfl. rewrite Hf in Hst by lia. split; [done|].
    intros Hqw. apply Hq. by apply Hp', Hp.
Qed.

(** Every run of a sweep, and what a quiet one reports. *)
Lemma run_in_scope_wp (scope : SweepScope) w :
  let run_scope := as_run_scope scope in
  let st := dw_stores w in
  dwp (run_in_scope new_v5 now scope)
    (λ _ w', (∃ st1, deleted run_scope st st1
                ∧ dw_stores w' = with_data (unmark (rs_dataset run_scope)
                                              (get_data_ids_for_run run_scope (st_ledger st)) (st_data st))
                                   (with_ledger (rolled_back run_scope (st_ledger st)) st1)
                ∧ (quiet w → st1 = without_artifacts run_scope st))
             ∧ (quiet w → dw_outcome w = SweepOutcome_default → reported run_scope st (dw_outcome w')))
    (λ e w', ¬ quiet w ∧ (deleting run_scope st (dw_stores w') ∨ unowning run_scope st (dw_stores w'))) w.
Proof.
  intros run_scope st. unfold run_in_scope. fold run_scope.
  assert (Hself : deleting run_scope st st).
  { exists (st_vectors st), st. split; [by destruct st|]. split; [by left|apply shrunk_refl]. }
  apply dwp_bind, dwp_map_err, dwp_query; [|by auto]. intros plan1 Hp1.
  apply dwp_bind, dwp_map_err, dwp_query; [|intros e plan Hnq; split; [by intros Hq; apply Hnq, Hp1|by left]].
  intros plan2 Hp2. simpl.
  apply dwp_bind, dwp_map_err, dwp_query; [|intros e plan Hnq; split; [by intros Hq; apply Hnq, Hp2, Hp1|by left]].
  intros plan3 Hp3. simpl. apply dwp_bind. fold st.
  set (w3 := with_stores _ plan3 _).
  assert (Hw3 : dw_stores w3 = st ∧ dw_outcome w3 = dw_outcome w ∧ (quiet w → quiet w3)).
  { split; [done|]. split; [done|]. intros Hq. apply Hp3, Hp2, Hp1, Hq. }
  clearbody w3. destruct Hw3 as (Hs3 & Ho3 & Hq3). clear plan1 plan2 plan3 Hp1 Hp2 Hp3.
  eapply dwp_mono; [rewrite <-Hs3 at 1; apply deletable_edge_type_ids_wp| |]; simpl.
  2: { intros e w4 (Hnq & ->). rewrite Hs3. auto. }
  intros type_ids w4 (-> & Hs4 & Ho4 & Hq4). rewrite Hs3 in Hs4. apply dwp_bind.
  eapply dwp_mono; [apply delete_graph_artifacts_wp| |]; simpl.
  2: { intros e w5 (Hnq & _ & Hs5). rewrite Hs4 in Hs5. split; [by auto|]. left. destruct Hs5 as [->| ->]; [done|].
       exists (st_vectors st), (graph_delete_nodes (doomed_nodes run_scope (st_ledger st)) st).
       split; [done|]. split; [by right|apply shrunk_refl]. }
  intros [gn gw] w5 (Hs5 & Hr & Ho5 & Hq5). rewrite Hs4 in Hs5. injection Hr as -> ->. apply dwp_bind, dwp_update, dwp_bind.
  fold (doomed_nodes run_scope (st_ledger st)). set (g := graph_delete_nodes (doomed_nodes run_scope (st_ledger st)) st).
  change (dw_stores w5 = g) in Hs5.
  assert (Hquiet : quiet w → dw_plan w5 = []) by by intros Hq; apply Hq5, Hq4, Hq3.
  eapply dwp_mono; [apply delete_vector_artifacts_wp| |]; simpl; rewrite Hs5, Hs3; fold (doomed run_scope (st_ledger st)).
  2: { intros e w6 (Hnq & _ & v & Hs6 & Hsh). split; [by intros Hq; apply Hnq, Hquiet|]. left.
       exists v, g. split; [done|]. by split; [right|]. }
  intros [vp vw] w6 (v & Hs6 & Ho6 & Hsh & Hg & Hq6). simpl in Hs6, Hsh, Hq6. apply dwp_bind, dwp_update.
  assert (Hdel : deleted run_scope st (dw_stores w6)).
  { exists v. split; [done|]. split; [done|]. intros c Hc. by apply Hg; left. }
  eapply dwp_mono; [by apply delete_ownership_wp| |]; simpl; fold run_scope.
  - intros _ w7 (Hs7 & Ho7). split.
    + exists (dw_stores w6). split; [done|]. split; [done|]. intros Hq. rewrite Hs6. unfold without_artifacts.
      fold g. rewrite <-(without_spec (doomed run_scope (st_ledger st)) (st_vectors st) v); [done|done|].
      intros c. apply Hg. right. by apply Hquiet.
    + intros Hq Ho. destruct Hq6 as (Hq6 & -> & Hzero); [by apply Hquiet|]. rewrite Ho7, Ho6, Ho5, Ho4, Ho3, Ho by done.
      unfold reported. generalize (length (get_data_ids_for_run run_scope (st_ledger st))).
      induction n as [|n IH]; simpl; [done|]. destruct IH as (?&?&?&IH&?&?). simpl in *.
      rewrite IH. by repeat (split; [done|]).
  - intros e w7 (Hnq & Hd). split; [|done]. intros Hq. apply Hnq. unfold quiet. simpl. by apply Hq6, Hquiet.
Qed.
End swept.
