(* ===== verification/SweepSpec.v ===== *)
(** * What a run sweep promises

    Its abstract effect, the artifacts it spares, the order it works in, and that
    it restores the invariant that every artifact has an owner. *)

From stdpp Require Import sorting.
From S2P Require Import Prelude Json Strings Markers Ledger LedgerFacts Artifacts Sweep SweepFacts.

Section spec.
Context `{UuidFormat, SerdeJson, Lowercase}
  (new_v5 : uuid → string → uuid) (now : Z).
Implicit Types (scope : SweepScope) (l : ledger) (st : stores) (plan : list (option failure)).

(** ** Claims *)

(** Row of [l] outside the scope, and the artifacts such rows need. *)
Definition kept_node scope l (n : GraphNode) : Prop := n ∈ lg_nodes l ∧ ¬ selected_by (as_run_scope scope) n.
Definition kept_edge scope l (e : GraphEdge) : Prop := e ∈ lg_edges l ∧ ¬ selected_by (as_run_scope scope) e.

(** A row of the scope whose slug no row outside the scope has. *)
Definition claims_alone `{LedgerRow T} scope (table : list T) (row : T) : Prop :=
  row ∈ table ∧ selected_by (as_run_scope scope) row
  ∧ ∀ r, r ∈ table → row_slug r = row_slug row → selected_by (as_run_scope scope) r.

(** The vector points a row stands for. *)
Definition node_point (n : GraphNode) (c : string * string) (id : uuid) : Prop :=
  gn_slug n = id ∧ gn_node_type n = c.1 ∧ c.2 ∈ parse_indexed_fields (gn_indexed_fields n).
Definition edge_point (e : GraphEdge) (c : string * string) (id : uuid) : Prop :=
  (c = EDGE_TYPES ∧ edge_type_vector_id new_v5 e = Some id) ∨ (c = TRIPLETS ∧ triplet_vector_id new_v5 e = id).

(** Rows are consistent: two edges with one [EdgeType] id have one text, edges with one
    triplet id have one slug, and no node is indexed where edges are. *)
Record coherent l : Prop := {
  ch_texts : ∀ e e' id, e ∈ lg_edges l → e' ∈ lg_edges l → edge_type_vector_id new_v5 e = Some id →
    edge_type_vector_id new_v5 e' = Some id → edge_retrieval_text e = edge_retrieval_text e';
  ch_triplets : ∀ e e', e ∈ lg_edges l → e' ∈ lg_edges l →
    triplet_vector_id new_v5 e = triplet_vector_id new_v5 e' → ge_slug e = ge_slug e';
  ch_nodes : ∀ n c id, n ∈ lg_nodes l → node_point n c id → c ≠ EDGE_TYPES ∧ c ≠ TRIPLETS;
}.

Lemma elem_of_node_points (nodes : list GraphNode) c id :
  id ∈ default [] (node_points nodes !! c) ↔ ∃ n, n ∈ nodes ∧ node_point n c id.
Proof.
  unfold node_points. rewrite <-(left_id False or (∃ n, _)).
  assert (Hgo : ∀ m, id ∈ default [] (foldl (λ by_collection node,
      foldl (λ by_collection field_name, extend_entry (gn_node_type node, field_name) [gn_slug node] by_collection)
        by_collection (parse_indexed_fields (gn_indexed_fields node))) m nodes !! c)
    ↔ id ∈ default [] (m !! c) ∨ ∃ n, n ∈ nodes ∧ node_point n c id);
    [|rewrite Hgo, lookup_empty; simpl; by rewrite elem_of_nil].
  induction nodes as [|n nodes IH]; intros m; simpl; [set_solver|]. rewrite IH.
  assert (Hfields : ∀ fields, id ∈ default [] (foldl (λ by_collection field_name,
      extend_entry (gn_node_type n, field_name) [gn_slug n] by_collection) m fields !! c)
    ↔ id ∈ default [] (m !! c) ∨ (gn_slug n = id ∧ gn_node_type n = c.1 ∧ c.2 ∈ fields)).
  { intros fields. revert m. induction fields as [|f fields IHf]; intros m; simpl; [set_solver|].
    rewrite IHf, lookup_extend_entry, elem_of_app. destruct c as [ct cf]. case_decide; simplify_eq/=; set_solver. }
  rewrite Hfields. unfold node_point. set_solver.
Qed.

Lemma elem_of_claimed_texts scope l text :
  text ∈ get_edge_retrieval_texts_claimed_outside_run (as_run_scope scope) l
  ↔ ∃ e, kept_edge scope l e ∧ edge_retrieval_text e = text.
Proof.
  unfold get_edge_retrieval_texts_claimed_outside_run, retrieval_texts_where, kept_edge.
  rewrite elem_of_list_to_set, list_elem_of_fmap. setoid_rewrite list_elem_of_filter.
  setoid_rewrite outside_selected. naive_solver.
Qed.

(** A doomed point, by the rows that stand for it. *)
Lemma elem_of_doomed scope l c id :
  id ∈ doomed new_v5 (as_run_scope scope) l c ↔
  (∃ n, n ∈ unique_rows_for_run (as_run_scope scope) (lg_nodes l) ∧ node_point n c id)
  ∨ (c = EDGE_TYPES ∧ ∃ e, e ∈ unique_rows_for_run (as_run_scope scope) (lg_edges l)
       ∧ edge_type_vector_id new_v5 e = Some id
       ∧ ∀ e', kept_edge scope l e' → edge_retrieval_text e' ≠ edge_retrieval_text e)
  ∨ (c = TRIPLETS ∧ ∃ e, e ∈ unique_rows_for_run (as_run_scope scope) (lg_edges l) ∧ triplet_vector_id new_v5 e = id).
Proof.
  unfold doomed, doomed_points. rewrite !elem_of_union, elem_of_list_to_set, elem_of_node_points.
  assert (Het : id ∈ doomed_edge_types new_v5 (as_run_scope scope) l ↔
    ∃ e, e ∈ unique_rows_for_run (as_run_scope scope) (lg_edges l) ∧ edge_type_vector_id new_v5 e = Some id
      ∧ ∀ e', kept_edge scope l e' → edge_retrieval_text e' ≠ edge_retrieval_text e).
  { unfold doomed_edge_types. rewrite list_elem_of_omap. setoid_rewrite list_elem_of_filter.
    setoid_rewrite elem_of_claimed_texts. split.
    - intros (e & (Hn & He) & Hid). exists e. split; [done|]. split; [done|]. intros e' He' Heq. apply Hn. by exists e'.
    - intros (e & He & Hid & Hn). exists e. split; [split; [|done]|done]. intros (e' & He' & Heq). by apply (Hn e'). }
  assert (Htr : id ∈ (list_to_set (map (triplet_vector_id new_v5) (unique_rows_for_run (as_run_scope scope) (lg_edges l))) : gset uuid)
    ↔ ∃ e, e ∈ unique_rows_for_run (as_run_scope scope) (lg_edges l) ∧ triplet_vector_id new_v5 e = id).
  { rewrite elem_of_list_to_set, list_elem_of_fmap. naive_solver. }
  repeat case_decide; rewrite ?elem_of_list_to_set, ?elem_of_empty, ?Het, ?Htr; rewrite ?elem_of_list_to_set in Htr;
    rewrite ?Htr; naive_solver.
Qed.

Lemma kept_node_not_doomed scope l n :
  kept_node scope l n → gn_slug n ∉ doomed_nodes (as_run_scope scope) l.
Proof.
  intros [Hn Hsel] Hd. unfold doomed_nodes in Hd. apply elem_of_list_to_set, list_elem_of_fmap in Hd as (n' & Hs & Hu).
  apply elem_of_unique_rows_for_run in Hu as (_ & _ & Hall). by apply Hsel, Hall.
Qed.

Lemma kept_point_not_doomed scope l c id :
  coherent l → (∃ n, kept_node scope l n ∧ node_point n c id) ∨ (∃ e, kept_edge scope l e ∧ edge_point e c id) →
  id ∉ doomed new_v5 (as_run_scope scope) l c.
Proof.
  intros Hco Hneed Hd. apply elem_of_doomed in Hd.
  destruct Hneed as [(n & [Hn Hsel] & Hp)|(e & [He Hsel] & Hp)].
  - destruct Hd as [(n' & Hu & Hp')|[(-> & _)|(-> & _)]].
    + apply elem_of_unique_rows_for_run in Hu as (_ & _ & Hall). apply Hsel, Hall; [done|].
      simpl. destruct Hp as [-> _], Hp' as [-> _]. done.
    + by destruct (ch_nodes _ Hco n EDGE_TYPES id Hn Hp).
    + by destruct (ch_nodes _ Hco n TRIPLETS id Hn Hp).
  - destruct Hd as [(n' & Hu & Hp')|[(-> & e' & Hu & Hid & Hall)|(-> & e' & Hu & Hid)]].
    + apply elem_of_unique_rows_for_run in Hu as (Hn' & _). destruct (ch_nodes _ Hco n' c id Hn' Hp').
      destruct Hp as [[-> _]|[-> _]]; done.
    + destruct Hp as [[_ Hid']|[? _]]; [|done]. apply (Hall e); [done|].
      apply elem_of_unique_rows_for_run in Hu as (He' & _). by eapply (ch_texts _ Hco).
    + destruct Hp as [[? _]|[_ Hid']]; [done|]. apply elem_of_unique_rows_for_run in Hu as (He' & _ & Hall).
      apply Hsel, Hall; [done|]. apply (ch_triplets _ Hco); [done|done|]. congruence.
Qed.

(** ** How far a sweep gets *)

Lemma sweep_progress scope plan st :
  let '(r, st') := sweep new_v5 now scope plan st in
  (is_ok r = false ∧ deleting new_v5 (as_run_scope scope) st st')
  ∨ unowning new_v5 now (as_run_scope scope) st st'.
Proof.
  unfold sweep. set (w := {| dw_stores := st; dw_plan := plan; dw_outcome := SweepOutcome_default |}).
  pose proof (run_in_scope_wp new_v5 now scope w) as Hw. unfold dwp in Hw. cbv zeta in Hw.
  destruct (run_in_scope new_v5 now scope w) as [[[]|e] w'].
  - right. destruct Hw as ((st1 & Hdel & Hst & _) & _). exists st1. eexists _, _. split; [done|]. split; [done|].
    by right.
  - destruct Hw as (_ & [Hd|Hu]); [by left|by right].
Qed.

(** What is certain of the stores, whatever failed. *)
Lemma sweep_bounds scope plan st r st' :
  sweep new_v5 now scope plan st = (r, st') →
  let run_scope := as_run_scope scope in
  let l := st_ledger st in
  st_graph st ∖ doomed_nodes run_scope l ⊆ st_graph st' ⊆ st_graph st
  ∧ shrunk (doomed new_v5 run_scope l) (st_vectors st) (st_vectors st')
  ∧ (∀ n, kept_node scope l n → n ∈ lg_nodes (st_ledger st'))
  ∧ (∀ e, kept_edge scope l e → e ∈ lg_edges (st_ledger st'))
  ∧ ∃ sub, sub `sublist_of` get_data_ids_for_run run_scope l
           ∧ st_data st' = unmark now (rs_dataset run_scope) sub (st_data st).
Proof.
  intros Hrun run_scope l. pose proof (sweep_progress scope plan st) as Hp. rewrite Hrun in Hp.
  destruct Hp as [[_ (v & g & -> & Hg & Hs)]|(st1 & l' & sub & (v & -> & Hs & _) & -> & Hl)].
  - split; [destruct Hg as [->| ->]; simpl; set_solver|]. split; [by destruct Hg as [->| ->]|].
    assert (Hsame : st_ledger (with_vectors v g) = l ∧ st_data (with_vectors v g) = st_data st)
      by by destruct Hg as [->| ->].
    destruct Hsame as [-> ->]. split; [by intros n []|]. split; [by intros e []|]. exists [].
    split; [apply sublist_nil_l|done].
  - split; [simpl; set_solver|]. split; [done|]. simpl. fold run_scope l in Hl.
    split; [|split].
    + intros n [Hn Hsel]. destruct Hl as [[-> _]|[-> _]]; simpl; [done|]. by apply list_elem_of_filter.
    + intros e [He Hsel]. destruct Hl as [[-> _]|[-> _]]; simpl; by apply list_elem_of_filter.
    + exists sub. split; [|done]. destruct Hl as [[_ ->]|[_ ?]]; [apply sublist_nil_l|done].
Qed.

(** ** Ledgers without selected rows *)

Section unselected.
Context `{LedgerRow T}.

Lemma filter_unselected (run_scope : RunScope) (table : list T) :
  filter (λ row, ¬ selected_by run_scope row) (filter (λ row, ¬ selected_by run_scope row) table)
  = filter (λ row, ¬ selected_by run_scope row) table.
Proof. rewrite list_filter_filter. apply list_filter_iff. tauto. Qed.

Lemma filter_selected_unselected (run_scope : RunScope) (table : list T) :
  filter (selected_by run_scope) (filter (λ row, ¬ selected_by run_scope row) table) = [].
Proof.
  destruct (filter _ (filter _ table)) as [|row rows] eqn:Hf; [done|]. exfalso.
  assert (Hin : row ∈ row :: rows) by left. rewrite <-Hf in Hin. apply list_elem_of_filter in Hin as [Hs Hin].
  by apply list_elem_of_filter in Hin as [? _].
Qed.

Lemma unique_unselected (run_scope : RunScope) (table : list T) :
  unique_rows_for_run run_scope (filter (λ row, ¬ selected_by run_scope row) table) = [].
Proof.
  destruct (unique_rows_for_run _ _) as [|row rows] eqn:Hf; [done|]. exfalso.
  assert (Hin : row ∈ row :: rows) by left. rewrite <-Hf in Hin.
  apply elem_of_unique_rows_for_run in Hin as (Hin & Hs & _). by apply list_elem_of_filter in Hin as [? _].
Qed.

(** A selected row is alone with its slug, or shares it with a kept row. *)
Lemma unique_or_shared (run_scope : RunScope) (table : list T) row :
  row ∈ table → selected_by run_scope row →
  row ∈ unique_rows_for_run run_scope table
  ∨ ∃ r, r ∈ table ∧ row_slug r = row_slug row ∧ ¬ selected_by run_scope r.
Proof.
  intros Hin Hsel. destruct (decide (claimed_by (outside run_scope) table (row_slug row))) as [Hc|Hc].
  - right. apply claimed_by_iff in Hc as (r & Hr & Hs & Ho); [|apply _]. exists r. by rewrite <-outside_selected.
  - left. apply elem_of_unique_rows_for_run. split; [done|]. split; [done|]. intros r Hr Hs.
    destruct (decide (selected_by run_scope r)) as [|Hn]; [done|]. destruct Hc.
    apply claimed_by_iff; [apply _|]. exists r. by rewrite outside_selected.
Qed.
End unselected.

Lemma data_ids_unselected (run_scope : RunScope) l : get_data_ids_for_run run_scope (rolled_back run_scope l) = [].
Proof.
  unfold get_data_ids_for_run, selected_data_ids, rolled_back. simpl. rewrite !filter_selected_unselected. simpl.
  by case_match.
Qed.

Lemma rolled_back_twice (run_scope : RunScope) l : rolled_back run_scope (rolled_back run_scope l) = rolled_back run_scope l.
Proof. unfold rolled_back. simpl. by rewrite !filter_unselected. Qed.

Lemma graph_delete_more (D D' : gset uuid) st :
  D' ⊆ D → graph_delete_nodes D' (graph_delete_nodes D st) = graph_delete_nodes D st.
Proof.
  intros HD. unfold graph_delete_nodes. simpl. f_equal; [set_solver|].
  apply set_eq. intros [[s n] t]. rewrite !elem_of_filter. set_solver.
Qed.

Lemma doomed_unselected scope l c : doomed new_v5 (as_run_scope scope) (rolled_back (as_run_scope scope) l) c ≡ ∅.
Proof.
  apply set_equiv. intros id. rewrite elem_of_doomed. unfold rolled_back. simpl. rewrite !unique_unselected.
  split; [|set_solver]. intros [(n & Hn & _)|[(_ & e & He & _)|(_ & e & He & _)]];
    by apply elem_of_nil in Hn || by apply elem_of_nil in He.
Qed.

Lemma doomed_nodes_unselected scope l : doomed_nodes (as_run_scope scope) (rolled_back (as_run_scope scope) l) = ∅.
Proof. unfold doomed_nodes, rolled_back. simpl. by rewrite unique_unselected. Qed.

Lemma without_nothing (D : string * string → gset uuid) v : (∀ c, D c ≡ ∅) → without D v = v.
Proof.
  intros HD. apply map_eq. intros c. unfold without. rewrite map_lookup_imap.
  destruct (v !! c) as [p|]; simpl; [|done]. f_equal. specialize (HD c). set_solver.
Qed.

(** ** Theorems *)

Lemma sweep_refines' scope st :
  ∃ o, sweep new_v5 now scope [] st = (Ok o, swept new_v5 now (as_run_scope scope) st)
       ∧ reported new_v5 (as_run_scope scope) st o.
Proof.
  unfold sweep. set (w := {| dw_stores := st; dw_plan := []; dw_outcome := SweepOutcome_default |}).
  pose proof (run_in_scope_wp new_v5 now scope w) as Hw. unfold dwp in Hw. cbv zeta in Hw.
  assert (Hq : quiet w) by done.
  destruct (run_in_scope new_v5 now scope w) as [[[]|e] w']; [|by destruct Hw].
  destruct Hw as ((st1 & _ & Hst & Hart) & Hrep). exists (dw_outcome w'). split; [|by apply Hrep].
  f_equal. by rewrite Hst, Hart.
Qed.


Lemma graph_delete_vectors D v st : graph_delete_nodes D (with_vectors v st) = with_vectors v (graph_delete_nodes D st).
Proof. done. Qed.

Lemma swept_deleting scope st st' :
  deleting new_v5 (as_run_scope scope) st st' →
  swept new_v5 now (as_run_scope scope) st' = swept new_v5 now (as_run_scope scope) st.
Proof.
  intros (v & g & -> & Hg & Hs).
  assert (Hlg : st_ledger (with_vectors v g) = st_ledger st ∧ st_data (with_vectors v g) = st_data st)
    by by destruct Hg as [->| ->].
  destruct Hlg as [Hl Hd]. unfold swept, without_artifacts. rewrite Hl, Hd. rewrite graph_delete_vectors. simpl.
  rewrite (without_shrunk _ _ _ Hs). by destruct Hg as [->| ->]; rewrite ?graph_delete_more by done.
Qed.

(** Once rows go, what is left to sweep is less. *)
Lemma doomed_after scope l l' :
  l' = {| lg_nodes := lg_nodes l; lg_edges := lg_edges (rolled_back (as_run_scope scope) l) |}
  ∨ l' = rolled_back (as_run_scope scope) l →
  rolled_back (as_run_scope scope) l' = rolled_back (as_run_scope scope) l
  ∧ doomed_nodes (as_run_scope scope) l' ⊆ doomed_nodes (as_run_scope scope) l
  ∧ ∀ c, doomed new_v5 (as_run_scope scope) l' c ⊆ doomed new_v5 (as_run_scope scope) l c.
Proof.
  intros [->| ->]; [|split; [apply rolled_back_twice|]; split;
                     [by rewrite doomed_nodes_unselected|intros c; by rewrite doomed_unselected]].
  split; [unfold rolled_back; simpl; by rewrite filter_unselected|]. split; [done|].
  intros c id Hid. apply elem_of_doomed. apply elem_of_doomed in Hid. simpl in Hid.
  rewrite unique_unselected in Hid. destruct Hid as [Hn|[(_ & e & He & _)|(_ & e & He & _)]];
    [by left|by apply elem_of_nil in He|by apply elem_of_nil in He].
Qed.

(** C12: A sweep that failed can be repeated: whatever calls failed the first time, a
    second sweep leaves the ledger, the graph and the vector store (but for legacy
    points) as an undisturbed sweep would have; and if the first one stopped before
    any row had gone, everything, the markers included. *)
Theorem sweep_retry_converges scope plan st r st1 :
  sweep new_v5 now scope plan st = (r, st1) →
  ∃ o st2, sweep new_v5 now scope [] st1 = (Ok o, st2)
    ∧ st_ledger st2 = st_ledger (swept new_v5 now (as_run_scope scope) st)
    ∧ st_graph st2 = st_graph (swept new_v5 now (as_run_scope scope) st)
    ∧ st_graph_edges st2 = st_graph_edges (swept new_v5 now (as_run_scope scope) st)
    ∧ (∀ c, c ≠ TRIPLETS → st_vectors st2 !! c = st_vectors (swept new_v5 now (as_run_scope scope) st) !! c)
    ∧ (st_ledger st1 = st_ledger st → st2 = swept new_v5 now (as_run_scope scope) st).
Proof.
  intros Hrun. destruct (sweep_refines' scope st1) as (o & Hsw & _). exists o. eexists. split; [done|].
  pose proof (sweep_progress scope plan st) as Hp. rewrite Hrun in Hp. destruct Hp as [[_ Hdel]|Hun].
  { by rewrite (swept_deleting _ _ _ Hdel). }
  destruct Hun as (st' & l' & sub & (v & -> & Hs & Hg) & -> & Hl).
  assert (Hl' : l' = {| lg_nodes := lg_nodes (st_ledger st); lg_edges := lg_edges (rolled_back (as_run_scope scope) (st_ledger st)) |}
                ∨ l' = rolled_back (as_run_scope scope) (st_ledger st)) by tauto.
  destruct (doomed_after _ _ _ Hl') as (Hrb & HN & HD).
  split; [exact Hrb|]. split; [simpl; set_solver|]. split; [|split].
  - simpl. apply set_eq. intros [[a n] b]. rewrite !elem_of_filter. set_solver.
  - intros c Hc. simpl. unfold without. rewrite !map_lookup_imap. specialize (Hs c). specialize (Hg c Hc).
    specialize (HD c). destruct (st_vectors st !! c) as [p|], (v !! c) as [p'|] eqn:Hv; simpl; try done.
    specialize (Hg _ Hv). f_equal. set_solver.
  - simpl. intros Heq. apply swept_deleting. exists v, (graph_delete_nodes (doomed_nodes (as_run_scope scope) (st_ledger st)) st).
    split; [|by split; [right|]]. assert (Hsub : sub = []).
    { destruct Hl as [[_ ->]|[-> Hsub]]; [done|]. rewrite <-Heq in Hsub. rewrite data_ids_unselected in Hsub.
      by apply sublist_nil_r in Hsub. }
    rewrite Heq, Hsub. by destruct st.
Qed.

(** ** Every artifact has an owner *)

(** The invariant the ledger maintains. *)
Definition owned st : Prop :=
  (∀ id, id ∈ st_graph st → ∃ n, n ∈ lg_nodes (st_ledger st) ∧ gn_slug n = id)
  ∧ ∀ c id, id ∈ default ∅ (st_vectors st !! c) →
      (∃ n, n ∈ lg_nodes (st_ledger st) ∧ node_point n c id) ∨ (∃ e, e ∈ lg_edges (st_ledger st) ∧ edge_point e c id).

(** Rows of one slug stand for the same points. *)
Definition uniform l : Prop :=
  (∀ n n' c id, n ∈ lg_nodes l → n' ∈ lg_nodes l → gn_slug n = gn_slug n' → node_point n c id → node_point n' c id)
  ∧ (∀ e e' c id, e ∈ lg_edges l → e' ∈ lg_edges l → ge_slug e = ge_slug e' → edge_point e c id → edge_point e' c id).

(** What a sweep does not doom has an owner among the rows it leaves. *)
Lemma undoomed_owned scope st :
  uniform (st_ledger st) → owned st →
  (∀ id, id ∈ st_graph st ∖ doomed_nodes (as_run_scope scope) (st_ledger st) →
     ∃ n, n ∈ lg_nodes (rolled_back (as_run_scope scope) (st_ledger st)) ∧ gn_slug n = id)
  ∧ ∀ c id, id ∈ default ∅ (st_vectors st !! c) → id ∉ doomed new_v5 (as_run_scope scope) (st_ledger st) c →
     (∃ n, n ∈ lg_nodes (rolled_back (as_run_scope scope) (st_ledger st)) ∧ node_point n c id)
     ∨ (∃ e, e ∈ lg_edges (rolled_back (as_run_scope scope) (st_ledger st)) ∧ edge_point e c id).
Proof.
  intros [Hun Hue] [Hg Hv]. split; simpl.
  - intros id Hid. apply elem_of_difference in Hid as [Hid Hnd]. destruct (Hg id Hid) as (n & Hn & Hs).
    destruct (decide (selected_by (as_run_scope scope) n)) as [Hsel|Hsel].
    + destruct (unique_or_shared _ _ _ Hn Hsel) as [Hu|(r & Hr & Hrs & Hrn)].
      * destruct Hnd. unfold doomed_nodes. apply elem_of_list_to_set, list_elem_of_fmap. by exists n.
      * exists r. split; [by apply list_elem_of_filter|]. simpl in Hrs. congruence.
    + exists n. by split; [apply list_elem_of_filter|].
  - intros c id Hid Hnd.
    destruct (Hv c id) as [(n & Hn & Hpt)|(e & He & Hpt)]; [done|left|right].
    + destruct (decide (selected_by (as_run_scope scope) n)) as [Hsel|Hsel].
      * destruct (unique_or_shared _ _ _ Hn Hsel) as [Hu|(r & Hr & Hrs & Hrn)].
        -- destruct Hnd. apply elem_of_doomed. left. by exists n.
        -- exists r. split; [by apply list_elem_of_filter|]. by apply (Hun n).
      * exists n. by split; [apply list_elem_of_filter|].
    + destruct (decide (selected_by (as_run_scope scope) e)) as [Hsel|Hsel].
      * destruct (unique_or_shared _ _ _ He Hsel) as [Hu|(r & Hr & Hrs & Hrn)].
        -- destruct Hpt as [[-> Hid']|[-> Hid']].
           ++ destruct (decide (edge_retrieval_text e ∈
                get_edge_retrieval_texts_claimed_outside_run (as_run_scope scope) (st_ledger st))) as [Hc|Hc].
              ** apply elem_of_claimed_texts in Hc as (e' & [He' Hn'] & Ht). exists e'.
                 split; [by apply list_elem_of_filter|]. left. split; [done|].
                 unfold edge_type_vector_id in *. by rewrite Ht.
              ** destruct Hnd. apply elem_of_doomed. right. left. split; [done|]. exists e. split; [done|].
                 split; [done|]. intros e' He' Heq. apply Hc, elem_of_claimed_texts. by exists e'.
           ++ destruct Hnd. apply elem_of_doomed. right. right. split; [done|]. by exists e.
        -- exists r. split; [by apply list_elem_of_filter|]. by apply (Hue e).
      * exists e. by split; [apply list_elem_of_filter|].
Qed.

(** C13: If every graph node and every vector point has an owner before a sweep, and rows
    of one slug stand for the same points, then every one left after it has one -
    whatever calls fail, but for the points of the legacy triplet collection, whose
    deletion may fail without stopping the sweep. *)
Theorem sweep_keeps_owned scope plan st :
  uniform (st_ledger st) → owned st →
  let st' := (sweep new_v5 now scope plan st).2 in
  (∀ id, id ∈ st_graph st' → ∃ n, n ∈ lg_nodes (st_ledger st') ∧ gn_slug n = id)
  ∧ ∀ c id, c ≠ TRIPLETS ∨ plan = [] → id ∈ default ∅ (st_vectors st' !! c) →
      (∃ n, n ∈ lg_nodes (st_ledger st') ∧ node_point n c id)
      ∨ (∃ e, e ∈ lg_edges (st_ledger st') ∧ edge_point e c id).
Proof.
  intros Hu Ho. pose proof (undoomed_owned scope st Hu Ho) as [Hn He].
  assert (Hquiet : plan = [] → ∃ o, sweep new_v5 now scope plan st = (Ok o, swept new_v5 now (as_run_scope scope) st))
    by (intros ->; destruct (sweep_refines' scope st) as (o & -> & _); by eexists).
  pose proof (sweep_progress scope plan st) as Hp.
  destruct (sweep new_v5 now scope plan st) as [r st'] eqn:Hsw. cbn [snd].
  destruct Hp as [[_ (v & g & -> & Hg & Hs)]|(st1 & l' & sub & (v & -> & Hs & Hgone) & -> & Hl)].
  - destruct Ho as [Hog Hov]. assert (Hsub : ∀ c id, id ∈ default ∅ (v !! c) → id ∈ default ∅ (st_vectors st !! c)).
    { intros c id Hin. specialize (Hs c). destruct (st_vectors st !! c) as [p|], (v !! c) as [p'|]; simpl in *;
        try done; try (by apply elem_of_empty in Hin); by apply Hs. }
    destruct Hg as [->| ->]; simpl; (split; [|intros c id _ Hin; by apply Hov, Hsub]); intros id Hid; apply Hog; set_solver.
  - assert (Hrows : (∀ n, n ∈ lg_nodes (rolled_back (as_run_scope scope) (st_ledger st)) → n ∈ lg_nodes l')
      ∧ ∀ e, e ∈ lg_edges (rolled_back (as_run_scope scope) (st_ledger st)) → e ∈ lg_edges l').
    { destruct Hl as [[-> _]|[-> _]]; [split; [|done]|done]. by intros n [_ Hin]%list_elem_of_filter. }
    destruct Hrows as [Hrn Hre]. simpl. split.
    + intros id Hid. destruct (Hn id) as (n & Hin & Hslug); [set_solver|]. eauto.
    + intros c id Hor Hin.
      assert (Hfree : id ∈ default ∅ (st_vectors st !! c) ∧ id ∉ doomed new_v5 (as_run_scope scope) (st_ledger st) c).
      { destruct Hor as [Hc|Hq].
        - specialize (Hs c). specialize (Hgone c Hc).
          destruct (st_vectors st !! c) as [p|], (v !! c) as [p'|] eqn:Hvc; simpl in *; try done; try (by apply elem_of_empty in Hin).
          split; [by apply Hs|]. intros Hd. exact (Hgone p' Hvc id Hin Hd).
        - destruct (Hquiet Hq) as (o & Heq).
          apply (f_equal (λ p : _ * stores, st_vectors p.2)) in Heq. simpl in Heq. rewrite Heq in Hin. unfold without in Hin.
          rewrite map_lookup_imap in Hin. destruct (st_vectors st !! c) as [p|]; simpl in *;
            [by apply elem_of_difference in Hin|by apply elem_of_empty in Hin]. }
      destruct Hfree as [Hf1 Hf2]. destruct (He c id Hf1 Hf2) as [(n & ? & ?)|(e & ? & ?)]; eauto.
Qed.

(** Texts are compared as they are but points are named by normalized texts: if the
    swept run has an edge whose text differs from a kept edge's in case, spaces or
    apostrophes only, the sweep deletes the kept edge's [EdgeType] point. *)
Theorem sweep_takes_kept_edge_type scope st e e' id :
  e ∈ unique_rows_for_run (as_run_scope scope) (lg_edges (st_ledger st)) →
  (∀ k, kept_edge scope (st_ledger st) k → edge_retrieval_text k ≠ edge_retrieval_text e) →
  kept_edge scope (st_ledger st) e' → edge_type_vector_id new_v5 e' = Some id →
  edge_retrieval_text e ≠ "" →
  normalize_identifier (edge_retrieval_text e) = normalize_identifier (edge_retrieval_text e') →
  ∃ o st', sweep new_v5 now scope [] st = (Ok o, st')
    ∧ e' ∈ lg_edges (st_ledger st') ∧ id ∉ default ∅ (st_vectors st' !! EDGE_TYPES).
Proof.
  intros Hu Hall [He' Hsel] Hid Hne Hnorm. destruct (sweep_refines' scope st) as (o & -> & _).
  exists o. eexists. split; [done|]. split; [by apply list_elem_of_filter|]. simpl.
  unfold without. rewrite map_lookup_imap. destruct (st_vectors st !! EDGE_TYPES) as [p|]; simpl; [|set_solver].
  apply not_elem_of_difference. right. apply elem_of_doomed. right. left. split; [done|]. exists e.
  split; [done|]. split; [|done]. unfold edge_type_vector_id in *. repeat case_decide; simplify_eq.
  unfold deterministic_id, data_point_id_for. simpl. by rewrite Hnorm.
Qed.

(** Sweeping a scope a second time selects nothing, deletes nothing and reports
    zeroes. *)
Theorem sweep_idempotent scope st :
  sweep new_v5 now scope [] (swept new_v5 now (as_run_scope scope) st)
  = (Ok SweepOutcome_default, swept new_v5 now (as_run_scope scope) st).
Proof.
  set (st' := swept new_v5 now (as_run_scope scope) st).
  destruct (sweep_refines' scope st') as (o & -> & Hrep).
  assert (Hl : st_ledger st' = rolled_back (as_run_scope scope) (st_ledger st)) by done.
  f_equal.
  - f_equal. unfold reported in Hrep. rewrite Hl in Hrep. destruct Hrep as (Hg & Hn & He & Hd & Hw & Hv).
    rewrite doomed_nodes_unselected, size_empty in Hg.
    assert (Hpts : sw_vector_points_deleted o = 0).
    { rewrite Hv. unfold doomed_edge_types. simpl. rewrite !unique_unselected.
      apply points_asked_none. } clear Hv.
    rewrite data_ids_unselected in Hd. simpl in Hn, He. rewrite filter_selected_unselected in Hn. rewrite filter_selected_unselected in He.
    destruct o. simpl in *. by subst.
  - unfold swept at 1. unfold without_artifacts. rewrite Hl, doomed_nodes_unselected, graph_delete_none,
      rolled_back_twice, data_ids_unselected.
    rewrite without_nothing by apply doomed_unselected. by destruct st.
Qed.
(** ** With markers *)

Context `{!UuidFormatLaws, !SerdeJsonLaws}.

(** Markers: an item's goes only if it is among those cleared. *)
Lemma completed_unmark dataset_id ids data d s :
  completed (unmark now dataset_id ids data) d s ↔ completed data d s ∧ ¬ (s = dataset_id ∧ d ∈ ids).
Proof.
  unfold unmark. revert data. induction ids as [|x ids IH]; intros data; simpl; [set_solver|].
  rewrite IH, completed_clear_data. set_solver.
Qed.

(** C10: Whatever calls fail, a sweep takes only what rows of its scope alone claim.  A
    graph node it takes is that of a row of its scope whose slug no row outside the
    scope has; so is a vector point, and an [EdgeType] point only if, besides, no row
    outside the scope has that row's retrieval text, letter for letter.  The rows
    outside its scope stay, with their graph nodes, and so do the markers of the items
    and datasets it does not sweep.  Where the ledger is coherent - edges of one
    [EdgeType] id have one text, edges of one triplet id one slug, and no node type is
    named as the edges' collections - the vector points of the rows that stay stay
    too; without that they may not ([sweep_takes_kept_edge_type]). *)
Theorem sweep_spares_claimed scope plan st r st' :
  sweep new_v5 now scope plan st = (r, st') →
  (∀ id, id ∈ st_graph st → id ∉ st_graph st' → ∃ n, claims_alone scope (lg_nodes (st_ledger st)) n ∧ gn_slug n = id)
  ∧ (∀ c id, id ∈ default ∅ (st_vectors st !! c) → id ∉ default ∅ (st_vectors st' !! c) →
       (∃ n, claims_alone scope (lg_nodes (st_ledger st)) n ∧ node_point n c id)
       ∨ (∃ e, claims_alone scope (lg_edges (st_ledger st)) e ∧ edge_point e c id
            ∧ (c = EDGE_TYPES → ∀ e', kept_edge scope (st_ledger st) e' → edge_retrieval_text e' ≠ edge_retrieval_text e)))
  ∧ (∀ n, kept_node scope (st_ledger st) n →
     n ∈ lg_nodes (st_ledger st') ∧ (gn_slug n ∈ st_graph st → gn_slug n ∈ st_graph st'))
  ∧ (∀ e, kept_edge scope (st_ledger st) e → e ∈ lg_edges (st_ledger st'))
  ∧ (∀ d s, completed (st_data st) d s →
       s ≠ ss_dataset_id scope ∨ d ∉ get_data_ids_for_run (as_run_scope scope) (st_ledger st) →
       completed (st_data st') d s)
  ∧ (coherent (st_ledger st) → ∀ c id,
       (∃ n, kept_node scope (st_ledger st) n ∧ node_point n c id)
       ∨ (∃ e, kept_edge scope (st_ledger st) e ∧ edge_point e c id) →
       id ∈ default ∅ (st_vectors st !! c) → id ∈ default ∅ (st_vectors st' !! c)).
Proof.
  intros Hrun. destruct (sweep_bounds _ _ _ _ _ Hrun) as ([Hg _] & Hs & Hn & He & sub & Hsub & Hd).
  assert (Htaken : ∀ c id, id ∈ default ∅ (st_vectors st !! c) → id ∉ default ∅ (st_vectors st' !! c) →
    id ∈ doomed new_v5 (as_run_scope scope) (st_ledger st) c).
  { intros c id Hin Hno. specialize (Hs c). destruct (st_vectors st !! c) as [p|]; simpl in *; [|set_solver].
    destruct (st_vectors st' !! c) as [p'|]; [|done]. destruct Hs as [_ Hs]. apply Hs in Hin. set_solver. }
  split_and!.
  - intros id Hin Hno. assert (Hd' : id ∈ doomed_nodes (as_run_scope scope) (st_ledger st)).
    { destruct (decide (id ∈ doomed_nodes (as_run_scope scope) (st_ledger st))) as [|Hnd]; [done|].
      destruct Hno. by apply Hg, elem_of_difference. }
    unfold doomed_nodes in Hd'. apply elem_of_list_to_set, list_elem_of_fmap in Hd' as (n & -> & Hu).
    exists n. split; [|done]. by apply elem_of_unique_rows_for_run.
  - intros c id Hin Hno. apply Htaken, elem_of_doomed in Hno; [|done].
    destruct Hno as [(n & Hu & Hp)|[(-> & e & Hu & Hid & Hall)|(-> & e & Hu & Hid)]]; [left; exists n|right; exists e..].
    + split; [by apply elem_of_unique_rows_for_run|done].
    + split; [by apply elem_of_unique_rows_for_run|]. split; [by left|done].
    + split; [by apply elem_of_unique_rows_for_run|]. split; [by right|done].
  - intros n Hk. split; [by apply Hn|]. intros Hin. apply Hg. apply elem_of_difference. split; [done|].
    by apply kept_node_not_doomed.
  - done.
  - intros d s Hc Hor. rewrite Hd. apply completed_unmark. split; [done|]. intros [-> Hin].
    destruct Hor as [Hor|Hor]; [done|]. apply Hor. by eapply sublist_subseteq.
  - intros Hco c id Hneed Hin. destruct (decide (id ∈ default ∅ (st_vectors st' !! c))) as [|Hno]; [done|].
    exfalso. by apply (kept_point_not_doomed _ _ _ _ Hco Hneed), Htaken.
Qed.

(** Ownership rows go only after the artifacts: if any row has gone, every graph
    node and every vector point only the selection claims has (but for points of the
    legacy triplet collection); and a sweep that succeeds has removed all selected
    rows and unmarked all their items. *)
Theorem sweep_order scope plan st r st' :
  sweep new_v5 now scope plan st = (r, st') →
  (st_ledger st' ≠ st_ledger st →
     st_graph st' ## doomed_nodes (as_run_scope scope) (st_ledger st)
     ∧ ∀ c, c ≠ TRIPLETS → gone (doomed new_v5 (as_run_scope scope) (st_ledger st)) (st_vectors st') c)
  ∧ (is_ok r = true →
     st_graph st' ## doomed_nodes (as_run_scope scope) (st_ledger st)
     ∧ (∀ c, c ≠ TRIPLETS → gone (doomed new_v5 (as_run_scope scope) (st_ledger st)) (st_vectors st') c)
     ∧ st_ledger st' = rolled_back (as_run_scope scope) (st_ledger st)
     ∧ ∀ d, d ∈ get_data_ids_for_run (as_run_scope scope) (st_ledger st) →
            ¬ completed (st_data st') d (ss_dataset_id scope)).
Proof.
  intros Hrun. split.
  - intros Hl. pose proof (sweep_progress scope plan st) as Hp. rewrite Hrun in Hp.
    destruct Hp as [[_ (v & g & -> & Hg & _)]|(st1 & l' & sub & (v & -> & _ & Hgone) & -> & _)].
    + by destruct Hl, Hg as [->| ->].
    + simpl. split; [set_solver|done].
  - intros Hok. unfold sweep in Hrun. set (w := {| dw_stores := st |}) in Hrun.
    pose proof (run_in_scope_wp new_v5 now scope w) as Hw. unfold dwp in Hw. cbv zeta in Hw.
    destruct (run_in_scope new_v5 now scope w) as [[[]|e] w']; simplify_eq/=.
    destruct Hw as ((st1 & (v & -> & _ & Hgone) & -> & _) & _). simpl.
    split; [set_solver|]. split; [done|]. split; [done|]. intros d Hd Hc. apply completed_unmark in Hc. tauto.
Qed.
End spec.

(** ** Examples

    A ledger of two runs: run 7 made a node and an edge for item 10, run 8 a node and
    an edge for item 11; both share a third node. *)

#[local] Instance ex_format : UuidFormat := decimal_format.
#[local] Instance ex_serde : SerdeJson := binary_serde.
#[local] Instance ex_lowercase : Lowercase := ascii_lowercase.
#[local] Instance ex_format_laws : UuidFormatLaws := decimal_format_laws.
#[local] Instance ex_serde_laws : SerdeJsonLaws := binary_serde_laws.
Fixpoint ex_hash (s : string) : N :=
  match s with EmptyString => 7 | String c s => (Ascii.N_of_ascii c + 31 * ex_hash s) mod 4294967296 end%N.
Definition ex_v5 (namespace : uuid) (name : string) : uuid := ex_hash name.

Definition ex_node (id slug data run : uuid) : GraphNode := {|
  gn_id := id; gn_slug := slug; gn_user_id := 1; gn_data_id := data; gn_dataset_id := 3;
  gn_pipeline_run_id := Some run; gn_label := None; gn_node_type := "Entity";
  gn_indexed_fields := JArray [JString "name"]; gn_attributes := None; gn_created_at := 0 |}.

Definition ex_edge (id data run source target : uuid) (name : string) : GraphEdge := {|
  ge_id := id; ge_slug := triplet_id ex_v5 source target name; ge_user_id := 1; ge_data_id := data;
  ge_dataset_id := 3; ge_pipeline_run_id := Some run; ge_source_node_id := source;
  ge_destination_node_id := target; ge_relationship_name := name; ge_label := None;
  ge_attributes := None; ge_created_at := 0 |}.

Definition ex_ledger (name name' : string) : ledger := {|
  lg_nodes := [ex_node 100 21 10 7; ex_node 101 22 11 8; ex_node 102 20 10 7; ex_node 103 20 11 8];
  lg_edges := [ex_edge 200 10 7 20 21 name; ex_edge 201 11 8 20 22 name'] |}.

Definition ex_stores (name name' : string) : stores := {|
  st_ledger := ex_ledger name name';
  st_data := mark_cognify_pipeline_status_complete 0 10 3
    {[10%N := {| da_dataset_id := Some 3%N; da_pipeline_status := None; da_updated_at := None |};
      11%N := {| da_dataset_id := Some 3%N; da_pipeline_status := None; da_updated_at := None |}]};
  st_graph := {[20; 21; 22]}%N;
  st_graph_edges := {[(20%N, name, 21%N); (20%N, name', 22%N)]};
  st_vectors := {[("Entity", "name") := {[20; 21; 22]}%N;
                  EDGE_TYPES := {[deterministic_id ex_v5 name; deterministic_id ex_v5 name']}]};
  st_dataset_storage := ∅ |}.

Definition ex_scope : SweepScope := whole_run 7 3.

(** The run's own node, its point and its edge type go; the shared node stays. *)
Example sweep_example :
  let swept := sweep ex_v5 0 ex_scope [] (ex_stores "is a" "works at") in
  is_ok swept.1 = true ∧ st_graph swept.2 = {[20; 22]}%N
  ∧ st_vectors swept.2 !! ("Entity", "name") = Some {[20; 22]}%N
  ∧ st_vectors swept.2 !! EDGE_TYPES = Some {[deterministic_id ex_v5 "works at"]}
  ∧ st_graph_edges swept.2 = {[(20%N, "works at", 22%N)]}
  ∧ map gn_id (lg_nodes (st_ledger swept.2)) = [101; 103]%N.
Proof. cbv zeta. refine (bool_decide_unpack _ _). vm_compute. exact I. Qed.

Ltac list_cases H :=
  let H' := fresh in
  cbn [lg_nodes lg_edges ex_ledger st_ledger ex_stores] in H;
  repeat (apply elem_of_cons in H as [->|H]); [..|by apply elem_of_nil in H].

Lemma ex_coherent : coherent ex_v5 (ex_ledger "is a" "works at").
Proof.
  split.
  - intros e e' id He He' Hid Hid'. rewrite <-Hid' in Hid. clear Hid'.
    list_cases He; list_cases He'; [done|vm_compute in Hid; done|vm_compute in Hid; done|done].
  - intros e e' He He' Hid. list_cases He; list_cases He'; [done|vm_compute in Hid; done|vm_compute in Hid; done|done].
  - intros n c id Hn (_ & Hty & _). destruct c as [ct cf]. simpl in Hty.
    list_cases Hn; simpl in Hty; subst ct; done.
Qed.

Definition ex_spared : result DeleteError SweepOutcome * stores :=
  sweep ex_v5 0 ex_scope [Some (Refused "down")] (ex_stores "is a" "works at").

Lemma sweep_spares_claimed_witness :
  (∀ n, kept_node ex_scope (ex_ledger "is a" "works at") n →
      n ∈ lg_nodes (st_ledger ex_spared.2)
      ∧ (gn_slug n ∈ st_graph (ex_stores "is a" "works at") → gn_slug n ∈ st_graph ex_spared.2))
  ∧ ∀ c id, (∃ n, kept_node ex_scope (ex_ledger "is a" "works at") n ∧ node_point n c id)
            ∨ (∃ e, kept_edge ex_scope (ex_ledger "is a" "works at") e ∧ edge_point ex_v5 e c id) →
      id ∈ default ∅ (st_vectors (ex_stores "is a" "works at") !! c) → id ∈ default ∅ (st_vectors ex_spared.2 !! c).
Proof.
  destruct (sweep_spares_claimed ex_v5 0 ex_scope [Some (Refused "down")] (ex_stores "is a" "works at")
    ex_spared.1 ex_spared.2 eq_refl) as (_ & _ & Hnodes & _ & _ & Hpoints).
  split; [exact Hnodes|exact (Hpoints ex_coherent)].
Defined.

Lemma sweep_order_witness :
  ¬ completed (st_data (sweep ex_v5 0 ex_scope [] (ex_stores "is a" "works at")).2) 10 3.
Proof.
  refine (proj2 (proj2 (proj2 (proj2 (sweep_order ex_v5 0 ex_scope [] (ex_stores "is a" "works at")
    (sweep ex_v5 0 ex_scope [] (ex_stores "is a" "works at")).1
    (sweep ex_v5 0 ex_scope [] (ex_stores "is a" "works at")).2 (surjective_pairing _)) _))) 10%N _).
  - vm_compute. reflexivity.
  - refine (bool_decide_unpack _ _). vm_compute. exact I.
Defined.

(** The vector store is down when the first sweep reaches it. *)
Definition ex_outage : list (option failure) := [None; None; None; None; None; Some (Unanswered "timeout")].

Lemma sweep_retry_converges_witness :
  ∃ o, sweep ex_v5 0 ex_scope [] (sweep ex_v5 0 ex_scope ex_outage (ex_stores "is a" "works at")).2
       = (Ok o, swept ex_v5 0 (as_run_scope ex_scope) (ex_stores "is a" "works at")).
Proof.
  destruct (sweep_retry_converges ex_v5 0 ex_scope ex_outage (ex_stores "is a" "works at")
    (sweep ex_v5 0 ex_scope ex_outage (ex_stores "is a" "works at")).1
    (sweep ex_v5 0 ex_scope ex_outage (ex_stores "is a" "works at")).2 (surjective_pairing _))
    as (o & st2 & Hsw & _ & _ & _ & _ & Hsame).
  exists o. rewrite Hsw, Hsame; [reflexivity|]. vm_compute. reflexivity.
Defined.

Lemma ex_owned : owned ex_v5 (ex_stores "is a" "works at").
Proof.
  split.
  - intros id Hid. simpl in Hid. rewrite !elem_of_union, !elem_of_singleton in Hid.
    destruct Hid as [[->| ->]| ->];
      [exists (ex_node 102 20 10 7)|exists (ex_node 100 21 10 7)|exists (ex_node 101 22 11 8)]; (split; [|done]);
      simpl; rewrite !elem_of_cons; tauto.
  - intros c id Hid. simpl in Hid.
    destruct (decide (c = ("Entity", "name"))) as [->|Hc].
    + rewrite lookup_insert_eq in Hid. simpl in Hid. rewrite !elem_of_union, !elem_of_singleton in Hid. left.
      destruct Hid as [[->| ->]| ->];
        [exists (ex_node 102 20 10 7)|exists (ex_node 100 21 10 7)|exists (ex_node 101 22 11 8)];
        (split; [simpl; rewrite !elem_of_cons; tauto|]); by repeat split; left.
    + rewrite lookup_insert_ne in Hid by done. destruct (decide (c = EDGE_TYPES)) as [->|Hc'].
      * rewrite lookup_singleton_eq in Hid. simpl in Hid. rewrite elem_of_union, !elem_of_singleton in Hid. right.
        destruct Hid as [->| ->]; [exists (ex_edge 200 10 7 20 21 "is a")|exists (ex_edge 201 11 8 20 22 "works at")];
          (split; [simpl; rewrite !elem_of_cons; tauto|]); left; by split.
      * rewrite lookup_singleton_ne in Hid by done. simpl in Hid. set_solver.
Qed.

Lemma sweep_keeps_owned_witness :
  let st := (sweep ex_v5 0 ex_scope ex_outage (ex_stores "is a" "works at")).2 in
  (∀ id, id ∈ st_graph st → ∃ n, n ∈ lg_nodes (st_ledger st) ∧ gn_slug n = id)
  ∧ ∀ id, id ∈ default ∅ (st_vectors st !! EDGE_TYPES) →
      (∃ n, n ∈ lg_nodes (st_ledger st) ∧ node_point n EDGE_TYPES id)
      ∨ (∃ e, e ∈ lg_edges (st_ledger st) ∧ edge_point ex_v5 e EDGE_TYPES id).
Proof.
  cbv zeta.
  destruct (sweep_keeps_owned ex_v5 0 ex_scope ex_outage (ex_stores "is a" "works at")) as [Hn Hv]; [|exact ex_owned|].
  - split.
    + intros n n' c id Hn Hn' Hs Hp. list_cases Hn; list_cases Hn'; first [exact Hp|discriminate Hs].
    + intros e e' c id He He' Hs Hp. list_cases He; list_cases He'; first [exact Hp|vm_compute in Hs; discriminate Hs].
  - split; [exact Hn|]. intros id. apply (Hv EDGE_TYPES id). left. discriminate.
Defined.

(** Run 7's edge type differs from run 8's in case and an apostrophe. *)
Lemma sweep_takes_kept_edge_type_witness :
  ∃ o st, sweep ex_v5 0 ex_scope [] (ex_stores "Works At" "works at'") = (Ok o, st)
    ∧ ex_edge 201 11 8 20 22 "works at'" ∈ lg_edges (st_ledger st)
    ∧ deterministic_id ex_v5 "works at'" ∉ default ∅ (st_vectors st !! EDGE_TYPES).
Proof.
  apply (sweep_takes_kept_edge_type ex_v5 0 ex_scope (ex_stores "Works At" "works at'")
           (ex_edge 200 10 7 20 21 "Works At") (ex_edge 201 11 8 20 22 "works at'")).
  - apply elem_of_unique_rows_for_run. split; [by left|]. split; [by repeat split|].
    intros r Hr Hs. list_cases Hr; [by repeat split|vm_compute in Hs; discriminate Hs].
  - intros k [Hk Hsel]. list_cases Hk; [by destruct Hsel; repeat split|vm_compute; discriminate].
  - split; [by right; left|]. intros (Hrun & _). discriminate Hrun.
  - vm_compute. reflexivity.
  - vm_compute. discriminate.
  - vm_compute. reflexivity.
Defined.
