(* ===== verification/Registry.v ===== *)
(** * The pipeline run registry (pipeline_run_registry/default_impl.rs)

    A state machine: the slots, the eviction order, the channels the slots share
    with subscribers and watchers, the repository and the spawned tasks.  Each
    operation is the function the source has, taken as one step; [register_inline]
    and [register_background] are split where the work future runs. *)

From S2P Require Import Prelude Text Json DataPoint Models Provenance Proc Task Pipeline RunRecords.
Local Open Scope cog_scope.

(** ** Channels

    A [tokio::sync::watch] channel of phases, as far as the registry uses it:
    [watch_new p] is the sender of [watch::channel(p)] whose receiver has been
    dropped, as in [let (phase_tx, _) = watch::channel(p)]. *)
Class Watch (W : Type) := {
  watch_new : RunPhase → W;
  watch_send : RunPhase → W → W;
  watch_borrow : W → RunPhase;
}.

(** The documentation of [watch::Sender::send]: it fails when every receiver has
    been dropped, and then the value is not made available. *)
Class WatchLaws W `{Watch W} := {
  borrow_new : ∀ p, watch_borrow (watch_new p) = p;
  send_closed : ∀ p q, watch_send q (watch_new p) = watch_new p;
}.

Section registry.
Context {W R : Type} `{Watch W, PipelineRunRepository R}.
Context (uuid_to_string : uuid → string) (new_v5 : uuid → string → uuid).

(** The two channels of a slot; [ch_events] is what has been sent. *)
Record channel := { ch_phase : W; ch_events : list RunEvent }.

(** [sl_chan] is the channels' address: slots, watchers and finishers share them
    through clones of the senders. *)
Record RunSlot := {
  sl_chan : nat;
  sl_finished_at : option Z;
  sl_abort_handle : option nat;
  sl_meta : RunHandle;
}.

(** A spawned background run: what it captured and how far it is.  [BgFinished]
    is a run whose finisher task has published its phase. *)
Inductive bg_state :=
  | BgSpawned
  | BgWorking
  | BgDone (phase : RunPhase)
  | BgAborted
  | BgFinished.

Record bg_task := {
  bg_run_id : uuid;
  bg_pipeline_name : string;
  bg_dataset_id : option uuid;
  bg_user_id : option uuid;
  bg_chan : option nat;
  bg_state_of : bg_state;
}.

Record registry := {
  r_runs : gmap uuid RunSlot;
  r_order : list uuid;
  r_chans : gmap nat channel;
  r_next : nat;
  r_repo : R;
  r_inline : list (uuid * option RunHandle);
  r_tasks : gmap nat bg_task;
  r_next_task : nat;
  r_cfg : RegistryConfig;
}.

(** [DefaultPipelineRunRegistry::new] *)
Definition registry_new (repo : R) (cfg : RegistryConfig) : registry := {|
  r_runs := ∅; r_order := []; r_chans := ∅; r_next := 0; r_repo := repo; r_inline := [];
  r_tasks := ∅; r_next_task := 0; r_cfg := cfg |}.

Definition with_runs (runs : gmap uuid RunSlot) (r : registry) : registry :=
  {| r_runs := runs; r_order := r_order r; r_chans := r_chans r; r_next := r_next r;
     r_repo := r_repo r; r_inline := r_inline r; r_tasks := r_tasks r;
     r_next_task := r_next_task r; r_cfg := r_cfg r |}.
Definition with_order (order : list uuid) (r : registry) : registry :=
  {| r_runs := r_runs r; r_order := order; r_chans := r_chans r; r_next := r_next r;
     r_repo := r_repo r; r_inline := r_inline r; r_tasks := r_tasks r;
     r_next_task := r_next_task r; r_cfg := r_cfg r |}.
Definition with_chans (chans : gmap nat channel) (r : registry) : registry :=
  {| r_runs := r_runs r; r_order := r_order r; r_chans := chans; r_next := r_next r;
     r_repo := r_repo r; r_inline := r_inline r; r_tasks := r_tasks r;
     r_next_task := r_next_task r; r_cfg := r_cfg r |}.
Definition with_repo (repo : R) (r : registry) : registry :=
  {| r_runs := r_runs r; r_order := r_order r; r_chans := r_chans r; r_next := r_next r;
     r_repo := repo; r_inline := r_inline r; r_tasks := r_tasks r;
     r_next_task := r_next_task r; r_cfg := r_cfg r |}.
Definition with_inline (inline : list (uuid * option RunHandle)) (r : registry) : registry :=
  {| r_runs := r_runs r; r_order := r_order r; r_chans := r_chans r; r_next := r_next r;
     r_repo := r_repo r; r_inline := inline; r_tasks := r_tasks r;
     r_next_task := r_next_task r; r_cfg := r_cfg r |}.
Definition with_tasks (tasks : gmap nat bg_task) (next : nat) (r : registry) : registry :=
  {| r_runs := r_runs r; r_order := r_order r; r_chans := r_chans r; r_next := r_next r;
     r_repo := r_repo r; r_inline := r_inline r; r_tasks := tasks;
     r_next_task := next; r_cfg := r_cfg r |}.

(** A fresh pair of channels. *)
Definition new_channels (r : registry) : nat * registry :=
  (r_next r,
   {| r_runs := r_runs r; r_order := r_order r;
      r_chans := <[r_next r := {| ch_phase := watch_new Pending; ch_events := [] |}]> (r_chans r);
      r_next := S (r_next r); r_repo := r_repo r; r_inline := r_inline r; r_tasks := r_tasks r;
      r_next_task := r_next_task r; r_cfg := r_cfg r |}).

(** [phase_tx.send(phase)] and [event_tx.send(event)], their errors ignored. *)
Definition send_phase (c : nat) (phase : RunPhase) (r : registry) : registry :=
  with_chans (alter (λ ch, {| ch_phase := watch_send phase (ch_phase ch); ch_events := ch_events ch |})
                c (r_chans r)) r.
Definition send_event (c : nat) (e : RunEvent) (r : registry) : registry :=
  with_chans (alter (λ ch, {| ch_phase := ch_phase ch; ch_events := ch_events ch ++ [e] |})
                c (r_chans r)) r.

Definition event_now (now : Z) (run_id : uuid) (kind : RunEventKind) : RunEvent :=
  {| ev_run_id := run_id; ev_kind := kind; ev_payload := JNull; ev_at := now |}.

Definition slot_finished (now : Z) (s : RunSlot) : RunSlot :=
  {| sl_chan := sl_chan s; sl_finished_at := Some now; sl_abort_handle := sl_abort_handle s;
     sl_meta := sl_meta s |}.
Definition slot_with_meta (meta : RunHandle) (s : RunSlot) : RunSlot :=
  {| sl_chan := sl_chan s; sl_finished_at := sl_finished_at s;
     sl_abort_handle := sl_abort_handle s; sl_meta := meta |}.
Definition slot_with_handle (h : nat) (s : RunSlot) : RunSlot :=
  {| sl_chan := sl_chan s; sl_finished_at := sl_finished_at s; sl_abort_handle := Some h;
     sl_meta := sl_meta s |}.

(** ** Operations *)

(** [publish_already_completed] *)
Definition publish_already_completed (now : Z) (run_id : uuid) (r : registry) : registry * bool :=
  match r_runs r !! run_id with
  | None => (r, false)
  | Some slot => (send_event (sl_chan slot) (event_now now run_id KAlreadyCompleted) r, true)
  end.

(** [run_retention] *)
Definition expired (now retention : Z) (slot : RunSlot) : Prop :=
  match sl_finished_at slot with Some fa => (now - fa > retention)%Z | None => False end.
#[export] Instance expired_dec now retention slot : Decision (expired now retention slot).
Proof. unfold expired. destruct (sl_finished_at slot); apply _. Defined.

Definition run_retention (now : Z) (r : registry) : registry :=
  let to_remove := filter (λ p, expired now (finished_retention (r_cfg r)) p.2) (r_runs r) in
  with_order (filter (λ id, to_remove !! id = None) (r_order r))
    (with_runs (r_runs r ∖ to_remove) r).

(** [ensure_capacity]; [readable] says whether its [try_read] gets the lock. *)
Definition finished_in (r : registry) (id : uuid) : Prop :=
  match r_runs r !! id with Some slot => is_Some (sl_finished_at slot) | None => False end.
#[export] Instance finished_in_dec r id : Decision (finished_in r id).
Proof. unfold finished_in. destruct (r_runs r !! id); apply _. Defined.

Definition ensure_capacity (readable : bool) (r : registry) : registry * result RegistryError unit :=
  if decide (size (r_runs r) < max_in_memory_runs (r_cfg r)) then (r, Ok tt)
  else
    match (if readable then list_find (finished_in r) (r_order r) else None) with
    | Some (idx, id) =>
        (with_runs (delete id (r_runs r)) (with_order (delete idx (r_order r)) r), Ok tt)
    | None => (r, Err RegistryFull)
    end.

(** [create_slot] *)
Definition create_slot (now : Z) (run_id : uuid) (spec : RunSpec) (r : registry)
    : registry * RunHandle :=
  let meta := {| rh_run_id := run_id; rh_task_run_id := run_id; rh_user_id := rs_user_id spec;
                 rh_dataset_id := rs_dataset_id spec; rh_pipeline_name := rs_pipeline_name spec;
                 rh_started_at := now |} in
  match r_runs r !! run_id with
  | Some existing =>
      (send_phase (sl_chan existing) Pending
         (with_runs (<[run_id := slot_with_meta meta existing]> (r_runs r)) r), meta)
  | None =>
      let '(c, r) := new_channels r in
      let slot := {| sl_chan := c; sl_finished_at := None; sl_abort_handle := None;
                     sl_meta := meta |} in
      (with_order (r_order r ++ [run_id]) (with_runs (<[run_id := slot]> (r_runs r)) r), meta)
  end.

(** The event a terminal phase is published as. *)
Definition terminal_kind (phase : RunPhase) : RunEventKind :=
  match phase with
  | PhCompleted => KCompleted
  | PhErrored message => KErrored message
  | _ => KErrored "unexpected terminal phase"
  end.

(** [finish_slot] *)
Definition finish_slot (now : Z) (run_id : uuid) (phase : RunPhase) (r : registry) : registry :=
  match r_runs r !! run_id with
  | None => r
  | Some slot =>
      send_event (sl_chan slot) (event_now now run_id (terminal_kind phase))
        (send_phase (sl_chan slot) phase
          (with_runs (<[run_id := slot_finished now slot]> (r_runs r)) r))
  end.

(** A row written by the registry, its failure ignored. *)
Definition log_row (run_id : uuid) (pipeline_name : string) (dataset_id user_id : option uuid)
    (status : DbStatus) (run_info : option json) (r : registry) : registry :=
  with_repo (log_pipeline_run_entry
    {| pe_pipeline_run_id := run_id;
       pe_pipeline_id := new_v5 NAMESPACE_OID pipeline_name;
       pe_pipeline_name := pipeline_name;
       pe_dataset_id := dataset_id;
       pe_status := status;
       pe_run_info := run_info;
       pe_user_id := user_id |} (r_repo r)).1 r.

Definition phase_of (res : result string unit) : RunPhase :=
  match res with Ok _ => PhCompleted | Err e => PhErrored e end.

(** The status and [run_info] of the terminal row. *)
Definition terminal_row (phase : RunPhase) : DbStatus * option json :=
  match phase with
  | PhCompleted => (DbCompleted, Some run_info_for_completed)
  | PhErrored message => (DbErrored, Some (run_info_for_errored message))
  | _ => (DbErrored, None)
  end.

(** [run_work_inline] up to [work.await]. *)
Definition inline_begin (now : Z) (run_id : uuid) (r : registry) : registry :=
  let slot := r_runs r !! run_id in
  let r := match slot with
           | Some s => send_event (sl_chan s) (event_now now run_id KStarted)
                         (send_phase (sl_chan s) Running r)
           | None => r
           end in
  let meta := sl_meta <$> slot in
  let r := match meta with
           | Some m => log_row run_id (rh_pipeline_name m) (rh_dataset_id m) (rh_user_id m) DbStarted
                         (Some (run_info_for_started uuid_to_string None)) r
           | None => r
           end in
  with_inline (r_inline r ++ [(run_id, meta)]) r.

(** [run_work_inline] from [work.await] on. *)
Definition inline_end (now : Z) (run_id : uuid) (meta : option RunHandle) (res : result string unit)
    (r : registry) : registry * RunOutcome :=
  let phase := phase_of res in
  let r := match meta with
           | Some m => let '(status, info) := terminal_row phase in
                       log_row run_id (rh_pipeline_name m) (rh_dataset_id m) (rh_user_id m) status info r
           | None => r
           end in
  (finish_slot now run_id phase r, {| ro_run_id := run_id; ro_phase := phase |}).

(** [register_inline] up to the work. *)
Definition register_inline (now : Z) (readable : bool) (fresh : uuid) (spec : RunSpec) (r : registry)
    : registry * result RegistryError uuid :=
  let '(r, cap) := ensure_capacity readable r in
  match cap with
  | Err e => (r, Err e)
  | Ok _ =>
      let run_id := default fresh (rs_run_id spec) in
      let '(r, _) := create_slot now run_id spec r in
      (inline_begin now run_id r, Ok run_id)
  end.

(** The end of the [i]-th inline run in progress. *)
Definition inline_done (now : Z) (i : nat) (res : result string unit) (r : registry) : registry :=
  match r_inline r !! i with
  | None => r
  | Some (run_id, meta) => (inline_end now run_id meta res (with_inline (delete i (r_inline r)) r)).1
  end.

(** [register_background]: the run and its finisher are spawned. *)
Definition register_background (now : Z) (readable : bool) (fresh : uuid) (spec : RunSpec)
    (r : registry) : registry * result RegistryError RunHandle :=
  let '(r, cap) := ensure_capacity readable r in
  match cap with
  | Err e => (r, Err e)
  | Ok _ =>
      let run_id := default fresh (rs_run_id spec) in
      let '(r, meta) := create_slot now run_id spec r in
      let h := r_next_task r in
      let r := with_runs (alter (slot_with_handle h) run_id (r_runs r)) r in
      let chan := sl_chan <$> r_runs r !! run_id in
      let task := {| bg_run_id := run_id; bg_pipeline_name := rs_pipeline_name spec;
                     bg_dataset_id := rs_dataset_id spec; bg_user_id := rs_user_id spec;
                     bg_chan := chan; bg_state_of := BgSpawned |} in
      (with_tasks (<[h := task]> (r_tasks r)) (S h) r, Ok meta)
  end.

Definition set_bg (h : nat) (st : bg_state) (r : registry) : registry :=
  with_tasks (alter (λ t, {| bg_run_id := bg_run_id t; bg_pipeline_name := bg_pipeline_name t;
                            bg_dataset_id := bg_dataset_id t; bg_user_id := bg_user_id t;
                            bg_chan := bg_chan t; bg_state_of := st |}) h (r_tasks r))
    (r_next_task r) r.

(** The spawned task: its [STARTED] row, then (the work) its terminal row. *)
Definition bg_start (h : nat) (r : registry) : registry :=
  match r_tasks r !! h with
  | Some t =>
      match bg_state_of t with
      | BgSpawned =>
          set_bg h BgWorking
            (log_row (bg_run_id t) (bg_pipeline_name t) (bg_dataset_id t) (bg_user_id t) DbStarted
               (Some (run_info_for_started uuid_to_string None)) r)
      | _ => r
      end
  | None => r
  end.

Definition bg_done (h : nat) (res : result string unit) (r : registry) : registry :=
  match r_tasks r !! h with
  | Some t =>
      match bg_state_of t with
      | BgWorking =>
          let phase := phase_of res in
          let '(status, info) := terminal_row phase in
          set_bg h (BgDone phase)
            (log_row (bg_run_id t) (bg_pipeline_name t) (bg_dataset_id t) (bg_user_id t) status info r)
      | _ => r
      end
  | None => r
  end.

(** The finisher task: publishes the phase on the senders it cloned. *)
Definition bg_finish (now : Z) (h : nat) (r : registry) : registry :=
  match r_tasks r !! h with
  | Some t =>
      let publish phase :=
        set_bg h BgFinished
          match bg_chan t with
          | Some c => send_event c (event_now now (bg_run_id t) (terminal_kind phase))
                        (send_phase c phase r)
          | None => r
          end in
      match bg_state_of t with
      | BgDone phase => publish phase
      | BgAborted => publish (PhErrored "task was aborted or panicked")
      | _ => r
      end
  | None => r
  end.

(** [subscribe]: the slot side; [readable] and [writable] say whether [try_read]
    and [try_write] get the lock. *)
Definition subscribe (now : Z) (readable writable : bool) (run_id : uuid) (r : registry) : registry :=
  if readable then
    match r_runs r !! run_id with
    | Some _ => r
    | None =>
        if writable then
          let '(c, r) := new_channels r in
          let meta := {| rh_run_id := run_id; rh_task_run_id := run_id; rh_user_id := None;
                         rh_dataset_id := None; rh_pipeline_name := ""; rh_started_at := now |} in
          let slot := {| sl_chan := c; sl_finished_at := None; sl_abort_handle := None;
                         sl_meta := meta |} in
          with_order (r_order r ++ [run_id]) (with_runs (<[run_id := slot]> (r_runs r)) r)
        else r
    end
  else r.

(** [snapshot_status] *)
Definition snapshot_status (readable : bool) (run_id : uuid) (r : registry) : option RunPhase :=
  if readable then
    slot ← r_runs r !! run_id; ch ← r_chans r !! sl_chan slot; Some (watch_borrow (ch_phase ch))
  else None.

(** [AbortHandle::abort]: a run that is not over is stopped where it is. *)
Definition abort_task (h : nat) (r : registry) : registry :=
  match r_tasks r !! h with
  | Some t =>
      match bg_state_of t with
      | BgSpawned | BgWorking => set_bg h BgAborted r
      | _ => r
      end
  | None => r
  end.

(** [abort] *)
Definition abort (now : Z) (run_id : uuid) (r : registry) : registry * result RegistryError unit :=
  match r_runs r !! run_id with
  | None => (r, Err (UnknownRun run_id))
  | Some slot =>
      let r := match sl_abort_handle slot with Some h => abort_task h r | None => r end in
      let m := sl_meta slot in
      let r := if abort_writes_errored_row (r_cfg r) then
                 log_row run_id (rh_pipeline_name m) (rh_dataset_id m) (rh_user_id m) DbErrored
                   (Some (run_info_for_errored "abort")) r
               else r in
      let r := send_phase (sl_chan slot) (PhErrored "aborted") r in
      let r := send_event (sl_chan slot) (event_now now run_id (KErrored "aborted")) r in
      (with_runs (alter (slot_finished now) run_id (r_runs r)) r, Ok tt)
  end.

(** [shutdown] *)
Definition shutdown (now : Z) (r : registry) : registry :=
  let in_flight := (filter (λ p, sl_finished_at p.2 = None) (map_to_list (r_runs r))).*1 in
  let r := foldl (λ r id, (abort now id r).1) r in_flight in
  with_runs ∅ r.

(** ** Histories *)

Inductive op :=
  | OpRegisterInline (readable : bool) (fresh : uuid) (spec : RunSpec)
  | OpInlineDone (i : nat) (res : result string unit)
  | OpRegisterBackground (readable : bool) (fresh : uuid) (spec : RunSpec)
  | OpBgStart (h : nat)
  | OpBgDone (h : nat) (res : result string unit)
  | OpBgFinish (h : nat)
  | OpSubscribe (readable writable : bool) (run_id : uuid)
  | OpPublishAlreadyCompleted (run_id : uuid)
  | OpRetention
  | OpAbort (run_id : uuid)
  | OpShutdown.

(** One operation at time [now]. *)
Definition apply_op (o : Z * op) (r : registry) : registry :=
  let '(now, o) := o in
  match o with
  | OpRegisterInline readable fresh spec => (register_inline now readable fresh spec r).1
  | OpInlineDone i res => inline_done now i res r
  | OpRegisterBackground readable fresh spec => (register_background now readable fresh spec r).1
  | OpBgStart h => bg_start h r
  | OpBgDone h res => bg_done h res r
  | OpBgFinish h => bg_finish now h r
  | OpSubscribe readable writable run_id => subscribe now readable writable run_id r
  | OpPublishAlreadyCompleted run_id => (publish_already_completed now run_id r).1
  | OpRetention => run_retention now r
  | OpAbort run_id => (abort now run_id r).1
  | OpShutdown => shutdown now r
  end.

Definition history (ops : list (Z * op)) (r : registry) : registry :=
  foldl (λ r o, apply_op o r) r ops.
End registry.
