(* ===== verification/RegistryFacts.v ===== *)
(** * Properties of the pipeline run registry

    What snapshots show, how many slots there are, which runs leave, and the rows
    and events of inline and background runs. *)

From S2P Require Import Prelude Text Json DataPoint Models Provenance Proc Task Pipeline PipelineFacts RunRecords Registry.

Section facts.
Context {W R : Type} `{Watch W, !WatchLaws W, PipelineRunRepository R}.
Context (uuid_to_string : uuid → string) (new_v5 : uuid → string → uuid).
Notation registry := (@registry W R).
Notation apply_op := (@apply_op W R _ _ uuid_to_string new_v5).
Notation history := (@history W R _ _ uuid_to_string new_v5).
Notation register_inline := (@register_inline W R _ _ uuid_to_string new_v5).
Notation register_background := (@register_background W R _).
Notation inline_done := (@inline_done W R _ _ new_v5).

(** An invariant kept by every operation of a history is kept by the history. *)
Lemma history_inv (I : registry → Prop) (allowed : Z * op → Prop) ops :
  (∀ o r, allowed o → I r → I (apply_op o r)) → Forall allowed ops →
  ∀ r, I r → I (history ops r).
Proof.
  intros Hstep Hops. induction Hops as [|o ops Ho _ IH]; intros r Hr; [done|].
  apply IH. by apply Hstep.
Qed.

(** ** Phases *)

Definition pending_channels (r : registry) : Prop :=
  map_Forall (λ _ ch, ch_phase ch = watch_new Pending) (r_chans r).

Lemma pending_send_phase c p r : pending_channels r → pending_channels (send_phase c p r).
Proof.
  intros Hr k ch. unfold send_phase. simpl. destruct (decide (k = c)) as [->|Hk].
  - rewrite lookup_alter_eq. intros (ch' & Hch & ->)%fmap_Some. simpl.
    by rewrite (Hr _ _ Hch), send_closed.
  - rewrite lookup_alter_ne by done. apply Hr.
Qed.

Lemma pending_send_event c e r : pending_channels r → pending_channels (send_event c e r).
Proof.
  intros Hr k ch. unfold send_event. simpl. destruct (decide (k = c)) as [->|Hk].
  - rewrite lookup_alter_eq. intros (ch' & Hch & ->)%fmap_Some. simpl. apply (Hr _ _ Hch).
  - rewrite lookup_alter_ne by done. apply Hr.
Qed.

Lemma pending_new_channels r : pending_channels r → pending_channels (new_channels r).2.
Proof. intros Hr. unfold pending_channels. simpl. by apply map_Forall_insert_2. Qed.

Lemma pending_with_runs m r : pending_channels r → pending_channels (with_runs m r).
Proof. done. Qed.

Lemma pending_ensure b r : pending_channels r → pending_channels (ensure_capacity b r).1.
Proof. intros Hr. unfold ensure_capacity. by repeat case_match. Qed.

Lemma pending_create now id spec r : pending_channels r → pending_channels (create_slot now id spec r).1.
Proof.
  intros Hr. unfold create_slot. case_match; simpl.
  - by apply pending_send_phase.
  - by apply pending_new_channels.
Qed.

Lemma pending_abort now id r : pending_channels r → pending_channels (abort new_v5 now id r).1.
Proof.
  intros Hr. unfold abort. case_match; [|done].
  apply pending_with_runs, pending_send_event, pending_send_phase.
  assert (Ha : pending_channels match sl_abort_handle r0 with Some h => abort_task h r | None => r end).
  { unfold abort_task. by repeat case_match. }
  revert Ha. generalize (match sl_abort_handle r0 with Some h => abort_task h r | None => r end) as r1.
  intros r1 Ha. by case_match.
Qed.

Lemma pending_step o r : pending_channels r → pending_channels (apply_op o r).
Proof.
  intros Hr. destruct o as [now [b fresh spec|i res|b fresh spec|h|h res|h|b1 b2 id|id| |id|]]; simpl.
  - unfold Registry.register_inline. pose proof (pending_ensure b r Hr) as He.
    destruct (ensure_capacity b r) as [r1 [[]|e]]; [|done]. simpl in He.
    pose proof (pending_create now (default fresh (rs_run_id spec)) spec r1 He) as Hc.
    destruct (create_slot _ _ _ r1) as [r2 meta]. simpl in *.
    unfold inline_begin. destruct (r_runs r2 !! _) as [s|]; simpl; [|done].
    apply pending_send_event, pending_send_phase, Hc.
  - unfold Registry.inline_done. case_match; [|done]. case_match. unfold inline_end, finish_slot. simpl.
    repeat case_match; simpl; try done; by apply pending_send_event, pending_send_phase.
  - unfold Registry.register_background. pose proof (pending_ensure b r Hr) as He.
    destruct (ensure_capacity b r) as [r1 [[]|e]]; [|done]. simpl in He.
    pose proof (pending_create now (default fresh (rs_run_id spec)) spec r1 He) as Hc.
    by destruct (create_slot _ _ _ r1) as [r2 meta].
  - unfold bg_start. by repeat case_match.
  - unfold bg_done. by repeat case_match.
  - unfold bg_finish. repeat case_match; try done; by apply pending_send_event, pending_send_phase.
  - unfold subscribe. pose proof (pending_new_channels r Hr). destruct (new_channels r) as [c r2].
    by repeat case_match.
  - unfold publish_already_completed. case_match; [|done]. by apply pending_send_event.
  - done.
  - by apply pending_abort.
  - unfold shutdown. unfold pending_channels. simpl.
    change (pending_channels (foldl (λ r id, (abort new_v5 now id r).1) r
      (filter (λ p, sl_finished_at p.2 = None) (map_to_list (r_runs r))).*1)).
    generalize (filter (λ p : uuid * RunSlot, sl_finished_at p.2 = None) (map_to_list (r_runs r))).*1.
    intros ids. revert r Hr. induction ids as [|id ids IH]; intros r Hr; [done|]. simpl.
    apply IH. by apply pending_abort.
Qed.

(** No run is ever seen to leave [Pending].  The registry drops the receiver
    of every phase channel it makes, so every [phase_tx.send] fails: in every
    history, whatever runs start, complete, fail or are aborted, a snapshot of a
    known run is [Pending]. *)
Theorem snapshot_always_pending ops repo cfg readable run_id p :
  snapshot_status readable run_id (history ops (registry_new repo cfg)) = Some p → p = Pending.
Proof.
  assert (Hp : pending_channels (history ops (registry_new repo cfg))).
  { apply (history_inv pending_channels (λ _, True)); [by intros; apply pending_step|by apply Forall_true|].
    apply map_Forall_empty. }
  revert Hp. generalize (history ops (registry_new repo cfg)) as r. intros r Hr.
  unfold snapshot_status. destruct readable; [|done].
  destruct (r_runs r !! run_id) as [slot|]; simpl; [|done].
  destruct (r_chans r !! sl_chan slot) as [ch|] eqn:Hch; simpl; [|done].
  intros [= <-]. by rewrite (Hr _ _ Hch), borrow_new.
Qed.

(** ** Active runs keep their slot *)

Definition unfinished (id : uuid) (r : registry) : Prop :=
  ∃ slot, r_runs r !! id = Some slot ∧ sl_finished_at slot = None.

Lemma unfinished_insert id id' slot r :
  (id = id' → sl_finished_at slot = None) → unfinished id r ∨ id = id' →
  unfinished id (with_runs (<[id' := slot]> (r_runs r)) r).
Proof.
  intros Hs Hr. unfold unfinished. simpl. destruct (decide (id = id')) as [->|Hne].
  - exists slot. rewrite lookup_insert_eq. auto.
  - rewrite lookup_insert_ne by done. by destruct Hr.
Qed.

Lemma unfinished_alter id id' f r :
  (∀ s, sl_finished_at (f s) = sl_finished_at s) → unfinished id r →
  unfinished id (with_runs (alter f id' (r_runs r)) r).
Proof.
  intros Hf (slot & Hs & Hfin). unfold unfinished. simpl. destruct (decide (id = id')) as [->|Hne].
  - rewrite lookup_alter_eq, Hs. simpl. eexists. split; [done|]. by rewrite Hf.
  - rewrite lookup_alter_ne by done. eauto.
Qed.

Lemma unfinished_retention id now r : unfinished id r → unfinished id (run_retention now r).
Proof.
  intros (slot & Hs & Hfin). exists slot. split; [|done]. simpl.
  apply lookup_difference_Some. split; [done|]. apply map_lookup_filter_None. right.
  intros s Hs' Hex. rewrite Hs in Hs'. simplify_eq. unfold expired in Hex. simpl in Hex.
  by rewrite Hfin in Hex.
Qed.

Lemma unfinished_ensure id b r : unfinished id r → unfinished id (ensure_capacity b r).1.
Proof.
  intros (slot & Hs & Hfin). unfold ensure_capacity. case_decide; [by exists slot|].
  destruct (if b then _ else None) as [[idx id']|] eqn:Hf; [|by exists slot].
  exists slot. split; [|done]. simpl. rewrite lookup_delete_ne; [done|]. intros ->.
  destruct b; [|done]. apply list_find_Some in Hf as (_ & Hfi & _).
  unfold finished_in in Hfi. rewrite Hs, Hfin in Hfi. by destruct Hfi.
Qed.

Lemma unfinished_create id now id' spec r :
  unfinished id r → unfinished id (create_slot now id' spec r).1.
Proof.
  intros Hu. unfold create_slot. destruct (r_runs r !! id') as [s|] eqn:Hs; simpl.
  - apply (unfinished_insert id id' (slot_with_meta _ s) r); [|by left].
    intros ->. destruct Hu as (s' & Hs' & Hfin). simpl. congruence.
  - by apply (unfinished_insert id id' _ r); [|left].
Qed.

(** The operations that may end run [id]. *)
Definition leaves_running (id : uuid) (o : Z * op) : Prop :=
  match o.2 with
  | OpRegisterInline _ fresh spec => default fresh (rs_run_id spec) ≠ id
  | OpAbort id' => id' ≠ id
  | OpShutdown => False
  | _ => True
  end.

Definition background_only (id : uuid) (r : registry) : Prop :=
  unfinished id r ∧ Forall (λ p, p.1 ≠ id) (r_inline r).

Lemma inline_create now id spec (r : registry) : r_inline (create_slot now id spec r).1 = r_inline r.
Proof. unfold create_slot. by case_match. Qed.

Lemma inline_ensure b (r : registry) : r_inline (ensure_capacity b r).1 = r_inline r.
Proof. unfold ensure_capacity. by repeat case_match. Qed.

Lemma background_only_step id o r :
  leaves_running id o → background_only id r → background_only id (apply_op o r).
Proof.
  intros Ho [Hu Hin]. destruct o as [now [b fresh spec|i res|b fresh spec|h|h res|h|b1 b2 id'|id'| |id'|]];
    simpl in *.
  - unfold Registry.register_inline. pose proof (unfinished_ensure id b r Hu) as He.
    pose proof (inline_ensure b r) as Hi.
    destruct (ensure_capacity b r) as [r1 [[]|e]]; simpl in *; [|by split; [|rewrite Hi]].
    pose proof (unfinished_create id now (default fresh (rs_run_id spec)) spec r1 He) as Hc.
    pose proof (inline_create now (default fresh (rs_run_id spec)) spec r1) as Hi2.
    destruct (create_slot _ _ _ r1) as [r2 meta]. simpl in *. unfold inline_begin.
    destruct (r_runs r2 !! _) as [s|]; (split; [exact Hc|]); simpl;
      rewrite Hi2, Hi; apply Forall_snoc; done.
  - unfold Registry.inline_done. destruct (r_inline r !! i) as [[id' meta]|] eqn:Hi; [|done].
    pose proof (Forall_lookup_1 _ _ _ _ Hin Hi) as Hne. simpl in Hne.
    assert (Hin' : Forall (λ p : uuid * option RunHandle, p.1 ≠ id) (delete i (r_inline r))).
    { by apply Forall_delete. }
    unfold inline_end, finish_slot. destruct meta as [m|]; [destruct (terminal_row _)|];
      simpl; (destruct (r_runs r !! id') as [s|] eqn:Hs; (split; [|exact Hin']); [|exact Hu]);
      apply (unfinished_insert id id' (slot_finished now s) r); auto; congruence.
  - unfold Registry.register_background. pose proof (unfinished_ensure id b r Hu) as He.
    pose proof (inline_ensure b r) as Hi.
    destruct (ensure_capacity b r) as [r1 [[]|e]]; simpl in *; [|by split; [|rewrite Hi]].
    pose proof (unfinished_create id now (default fresh (rs_run_id spec)) spec r1 He) as Hc.
    pose proof (inline_create now (default fresh (rs_run_id spec)) spec r1) as Hi2.
    destruct (create_slot _ _ _ r1) as [r2 meta]. simpl in *. split; [|by simpl; rewrite Hi2, Hi].
    by apply (unfinished_alter id (default fresh (rs_run_id spec)) (slot_with_handle _) r2).
  - unfold bg_start. by repeat case_match.
  - unfold bg_done. by repeat case_match.
  - unfold bg_finish. by repeat case_match.
  - unfold subscribe. destruct b1; [|done]. destruct (r_runs r !! id') as [s|] eqn:Hs; [done|].
    destruct b2; [|done]. split; [|done]. simpl.
    by apply (unfinished_insert id id' _ r); [|left].
  - unfold publish_already_completed. by case_match.
  - split; [by apply unfinished_retention|done].
  - unfold abort. destruct (r_runs r !! id') as [s|] eqn:Hs; [|done].
    assert (Ha : background_only id match sl_abort_handle s with Some h => abort_task h r | None => r end).
    { unfold abort_task. by repeat case_match. }
    revert Ha. generalize (match sl_abort_handle s with Some h => abort_task h r | None => r end) as r1.
    intros r1 [(s1 & Hs1 & Hf1) Hin1].
    assert (Hr : ∀ r2 : registry, r_runs r2 = r_runs r1 → r_inline r2 = r_inline r1 →
      background_only id (with_runs (alter (slot_finished now) id' (r_runs r2)) r2)).
    { intros r2 Hr2 Hi2. split; [|by simpl; rewrite Hi2]. exists s1. simpl.
      rewrite lookup_alter_ne by done. by rewrite Hr2. }
    case_match; by apply Hr.
  - done.
Qed.

(** What [register_background] leaves for a new id. *)
Lemma register_background_new now readable fresh spec (r r1 : registry) meta :
  let id := default fresh (rs_run_id spec) in
  r_runs r !! id = None → register_background now readable fresh spec r = (r1, Ok meta) →
  (∃ slot, r_runs r1 !! id = Some slot ∧ sl_finished_at slot = None
    ∧ r_tasks r1 !! r_next_task r = Some {| bg_run_id := id; bg_pipeline_name := rs_pipeline_name spec;
        bg_dataset_id := rs_dataset_id spec; bg_user_id := rs_user_id spec;
        bg_chan := Some (sl_chan slot); bg_state_of := BgSpawned |})
  ∧ r_repo r1 = r_repo r ∧ r_cfg r1 = r_cfg r ∧ r_inline r1 = r_inline r.
Proof.
  intros id Hnew Hreg. unfold Registry.register_background in Hreg. fold id in Hreg.
  assert (He : ∀ r' res, ensure_capacity readable r = (r', res) →
    r_runs r' !! id = None ∧ r_repo r' = r_repo r ∧ r_cfg r' = r_cfg r
    ∧ r_next_task r' = r_next_task r ∧ r_inline r' = r_inline r).
  { intros r' res. unfold ensure_capacity. repeat case_match; intros [= <- _]; simpl; try done.
    split_and!; try done. apply lookup_delete_None. by right. }
  destruct (ensure_capacity readable r) as [r0 [[]|e]]; [|done].
  destruct (He _ _ eq_refl) as (Hn0 & <- & <- & <- & <-). clear He.
  unfold create_slot in Hreg. rewrite Hn0 in Hreg. simpl in Hreg.
  rewrite lookup_alter_eq, lookup_insert_eq in Hreg. simpl in Hreg. injection Hreg as <- _.
  split; [|done]. simpl. rewrite lookup_alter_eq, !lookup_insert_eq. simpl. by eexists.
Qed.

(** A background run that completes is never retired.  Its slot is not
    marked finished by anything but an abort, a shutdown or an inline run under
    the same id, so neither retention, however late, nor the eviction that makes
    room for a new run ever removes it. *)
Theorem background_run_never_retired now readable fresh spec (r r1 : registry) meta ops :
  let id := default fresh (rs_run_id spec) in
  register_background now readable fresh spec r = (r1, Ok meta) →
  r_runs r !! id = None → Forall (λ p, p.1 ≠ id) (r_inline r) →
  Forall (leaves_running id) ops →
  unfinished id (history ops r1).
Proof.
  intros id Hreg Hnew Hin Hops.
  apply (history_inv (background_only id) (leaves_running id));
    [by intros; apply background_only_step|done|].
  destruct (register_background_new now readable fresh spec r r1 meta Hnew Hreg)
    as ((slot & Hs & Hf & _) & _ & _ & Hi).
  split; [by exists slot|by rewrite Hi].
Qed.

(** The registry fills up with completed background runs.  Once every slot
    is unfinished in this sense and the limit is reached, every registration,
    inline or in background, is refused with [RegistryFull]. *)
Theorem registry_full_of_completed now readable fresh spec (r : registry) :
  max_in_memory_runs (r_cfg r) ≤ size (r_runs r) →
  map_Forall (λ _ slot, sl_finished_at slot = None) (r_runs r) →
  register_background now readable fresh spec r = (r, Err RegistryFull)
  ∧ register_inline now readable fresh spec r = (r, Err RegistryFull).
Proof.
  intros Hsz Hall.
  assert (He : ensure_capacity readable r = (r, Err RegistryFull)).
  { unfold ensure_capacity. rewrite decide_False by lia.
    destruct readable; [|done]. destruct (list_find _ _) as [[idx id]|] eqn:Hf; [|done].
    apply list_find_Some in Hf as (_ & Hfi & _). unfold finished_in in Hfi.
    destruct (r_runs r !! id) as [slot|] eqn:Hs; [|done].
    rewrite (Hall _ _ Hs) in Hfi. by destruct Hfi. }
  unfold Registry.register_background, Registry.register_inline. by rewrite He.
Qed.

(** ** Capacity *)

Definition no_subscribe (o : Z * op) : Prop :=
  match o.2 with OpSubscribe _ _ _ => False | _ => True end.

Definition bounded (cfg : RegistryConfig) (r : registry) : Prop :=
  r_cfg r = cfg ∧ size (r_runs r) ≤ max_in_memory_runs cfg.

Lemma ensure_room cfg b r r' u : bounded cfg r → ensure_capacity b r = (r', Ok u) →
  r_cfg r' = cfg ∧ S (size (r_runs r')) ≤ max_in_memory_runs cfg.
Proof.
  intros [<- Hsz]. unfold ensure_capacity. case_decide; [by intros [= <- _]; simpl; split; [|lia]|].
  destruct (if b then _ else None) as [[idx id]|] eqn:Hf; [|done]. intros [= <- _]. simpl.
  split; [done|]. destruct b; [|done]. apply list_find_Some in Hf as (_ & Hfi & _).
  unfold finished_in in Hfi. destruct (r_runs r !! id) as [slot|] eqn:Hs; [|done].
  rewrite map_size_delete, Hs. assert (size (r_runs r) ≠ 0); [|lia].
  intros Hz%map_size_empty_inv. by rewrite Hz, lookup_empty in Hs.
Qed.

Lemma bounded_ensure_err cfg b r r' e :
  bounded cfg r → ensure_capacity b r = (r', Err e) → bounded cfg r'.
Proof. unfold ensure_capacity. by repeat case_match; intros; simplify_eq. Qed.

Lemma bounded_create cfg now id spec r :
  r_cfg r = cfg → S (size (r_runs r)) ≤ max_in_memory_runs cfg →
  bounded cfg (create_slot now id spec r).1.
Proof.
  intros Hc Hsz. unfold create_slot. destruct (r_runs r !! id) as [s|] eqn:Hs; split; simpl;
    try done; etransitivity; try exact Hsz; apply size_insert_le.
Qed.

Lemma bounded_runs cfg (r r' : registry) :
  bounded cfg r → r_cfg r' = r_cfg r → size (r_runs r') = size (r_runs r) → bounded cfg r'.
Proof. intros [Hc Hs] Hc' Hs'. split; congruence || lia. Qed.

Lemma bounded_step cfg o r : no_subscribe o → bounded cfg r → bounded cfg (apply_op o r).
Proof.
  intros Ho Hb. destruct o as [now [b fresh spec|i res|b fresh spec|h|h res|h|b1 b2 id|id| |id|]];
    simpl in *; try done.
  - unfold Registry.register_inline. destruct (ensure_capacity b r) as [r1 [[]|e]] eqn:He;
      [|by eapply bounded_ensure_err].
    destruct (ensure_room _ _ _ _ _ Hb He) as [Hc Hsz].
    pose proof (bounded_create cfg now (default fresh (rs_run_id spec)) spec r1 Hc Hsz) as Hcr.
    destruct (create_slot _ _ _ r1) as [r2 meta]. unfold inline_begin.
    by destruct (r_runs r2 !! _).
  - unfold Registry.inline_done. case_match; [|done]. case_match. unfold inline_end, finish_slot. simpl.
    assert (Hins : ∀ k s, r_runs r !! k = Some s → ∀ s', size (<[k:=s']> (r_runs r)) = size (r_runs r)).
    { intros k s Hs s'. by rewrite map_size_insert_Some by eauto. }
    repeat case_match; simplify_eq/=; try done;
      (eapply bounded_runs; [exact Hb|done|simpl; by eapply Hins]).
  - unfold Registry.register_background. destruct (ensure_capacity b r) as [r1 [[]|e]] eqn:He;
      [|by eapply bounded_ensure_err].
    destruct (ensure_room _ _ _ _ _ Hb He) as [Hc Hsz].
    pose proof (bounded_create cfg now (default fresh (rs_run_id spec)) spec r1 Hc Hsz) as Hcr.
    destruct (create_slot _ _ _ r1) as [r2 meta].
    eapply bounded_runs; [exact Hcr|done|simpl; apply size_alter].
  - unfold bg_start. by repeat case_match.
  - unfold bg_done. by repeat case_match.
  - unfold bg_finish. by repeat case_match.
  - unfold publish_already_completed. by case_match.
  - destruct Hb as [Hc Hs]. split; [done|]. simpl. etransitivity; [|exact Hs].
    apply map_subseteq_size. apply map_subseteq_difference_l. done.
  - unfold abort. case_match; [|done].
    assert (Ha : bounded cfg match sl_abort_handle r0 with Some h => abort_task h r | None => r end).
    { unfold abort_task. by repeat case_match. }
    revert Ha. generalize (match sl_abort_handle r0 with Some h => abort_task h r | None => r end) as r1.
    intros r1 Ha. eapply bounded_runs; [exact Ha|by case_match|].
    simpl. rewrite size_alter. by case_match.
  - unfold shutdown. split; [|simpl; rewrite map_size_empty; lia]. simpl.
    destruct Hb as [<- _]. generalize (filter (λ p : uuid * RunSlot, sl_finished_at p.2 = None)
      (map_to_list (r_runs r))).*1. intros ids. revert r. induction ids as [|id ids IH]; intros r; [done|].
    simpl. rewrite IH. unfold abort, abort_task. by repeat case_match.
Qed.

(** Registrations respect the limit: in a history without early
    subscriptions, the registry never holds more than [max_in_memory_runs]
    slots. *)
Theorem registry_bounded ops repo cfg :
  Forall no_subscribe ops →
  size (r_runs (history ops (registry_new repo cfg))) ≤ max_in_memory_runs cfg.
Proof.
  intros Hops. apply (history_inv (bounded cfg) no_subscribe);
    [by intros; apply bounded_step|done|]. split; [done|]. simpl. rewrite map_size_empty. lia.
Qed.

(** ** Inline runs *)

Lemma send_phase_events c p (r : registry) k :
  ch_events <$> r_chans (send_phase c p r) !! k = ch_events <$> r_chans r !! k.
Proof.
  unfold send_phase. simpl. destruct (decide (k = c)) as [->|];
    [rewrite lookup_alter_eq|by rewrite lookup_alter_ne]. by destruct (r_chans r !! c).
Qed.

Lemma send_event_events c e (r : registry) :
  ch_events <$> r_chans (send_event c e r) !! c = (λ es, es ++ [e]) <$> (ch_events <$> r_chans r !! c).
Proof. unfold send_event. simpl. rewrite lookup_alter_eq. by destruct (r_chans r !! c). Qed.

(** A row of the registry's for a run with the given spec. *)
Definition row (id : uuid) (spec : RunSpec) (status : DbStatus) (info : option json)
    : PipelineRunEntry :=
  {| pe_pipeline_run_id := id; pe_pipeline_id := new_v5 NAMESPACE_OID (rs_pipeline_name spec);
     pe_pipeline_name := rs_pipeline_name spec; pe_dataset_id := rs_dataset_id spec;
     pe_status := status; pe_run_info := info; pe_user_id := rs_user_id spec |}.

(** An undisturbed inline run under a new id: two rows are written, started
    and the terminal one its result calls for; its subscribers get exactly a
    started event and one terminal event; and its slot is marked finished, so
    it can be retired. *)
Theorem inline_run_recorded now1 now2 readable fresh spec res (r : registry) :
  let id := default fresh (rs_run_id spec) in
  size (r_runs r) < max_in_memory_runs (r_cfg r) → r_runs r !! id = None →
  let r1 := (register_inline now1 readable fresh spec r).1 in
  let r2 := inline_done now2 (length (r_inline r)) res r1 in
  ∃ slot, r_runs r2 !! id = Some slot ∧ sl_finished_at slot = Some now2
    ∧ r_repo r2 = (log_pipeline_run_entry
                     (row id spec (terminal_row (phase_of res)).1 (terminal_row (phase_of res)).2)
                     (log_pipeline_run_entry
                        (row id spec DbStarted (Some (run_info_for_started uuid_to_string None)))
                        (r_repo r)).1).1
    ∧ ch_events <$> r_chans r2 !! sl_chan slot =
        Some [event_now now1 id KStarted; event_now now2 id (terminal_kind (phase_of res))].
Proof.
  intros id Hsz Hnew r1 r2. unfold r2, r1, Registry.register_inline, ensure_capacity.
  rewrite decide_True by done. fold id. unfold create_slot. rewrite Hnew. cbn [new_channels fst].
  unfold inline_begin. cbn [r_runs with_order with_runs]. rewrite lookup_insert_eq. cbn [fmap option_fmap option_map sl_meta].
  unfold Registry.inline_done. cbn [r_inline with_inline log_row with_repo send_event send_phase with_chans with_order with_runs].
  rewrite lookup_app_r by lia. rewrite Nat.sub_diag. cbn [lookup list_lookup].
  unfold inline_end. destruct (terminal_row (phase_of res)) as [status info] eqn:Ht. cbn [fst snd].
  unfold finish_slot. cbn [r_runs with_inline log_row with_repo send_event send_phase with_chans with_order with_runs].
  rewrite lookup_insert_eq. eexists.
  split; [cbn [r_runs with_chans send_event send_phase with_runs]; by rewrite lookup_insert_eq|].
  split; [done|]. split; [reflexivity|]. cbn [sl_chan slot_finished].
  rewrite send_event_events, send_phase_events.
  cbn [r_chans with_inline log_row with_repo with_runs with_order send_event with_chans].
  rewrite lookup_alter_eq.
  match goal with |- context [r_chans (send_phase ?c ?p ?x) !! ?k] =>
    pose proof (send_phase_events c p x k) as He end.
  destruct (r_chans (send_phase _ _ _) !! _) as [ch|] eqn:Hch; simpl in He |- *;
    rewrite lookup_insert_eq in He; simpl in He; simplify_eq/=. by rewrite He.
Qed.

(** Registering again under the id of a finished run (ids are reused: a
    re-cognify gets the same [pipeline_run_id]) reuses the finished slot without
    clearing its mark: while the new run is in progress, retention removes its
    slot. *)
Theorem reregistered_run_is_evicted now readable fresh spec (r : registry) slot fa later :
  let id := default fresh (rs_run_id spec) in
  size (r_runs r) < max_in_memory_runs (r_cfg r) →
  r_runs r !! id = Some slot → sl_finished_at slot = Some fa →
  (later - fa > finished_retention (r_cfg r))%Z →
  let r1 := (register_inline now readable fresh spec r).1 in
  Exists (λ p, p.1 = id) (r_inline r1)
  ∧ r_runs (run_retention later r1) !! id = None.
Proof.
  intros id Hsz Hs Hfin Hlate r1. unfold r1, Registry.register_inline, ensure_capacity.
  rewrite decide_True by done. fold id. unfold create_slot. rewrite Hs. cbn [fst].
  set (slot' := slot_with_meta _ slot).
  assert (Hl : ∀ r2 : registry, r_runs r2 !! id = Some slot' → r_cfg r2 = r_cfg r →
    r_runs (run_retention later r2) !! id = None).
  { intros r2 Hs2 Hc2. simpl. apply lookup_difference_None. right. exists slot'.
    apply map_lookup_filter_Some. split; [done|]. unfold expired. simpl. by rewrite Hfin, Hc2. }
  unfold inline_begin. cbn [r_runs send_phase with_chans with_runs]. rewrite lookup_insert_eq.
  split.
  - simpl. apply Exists_app. right. by constructor.
  - apply Hl; [|done]. simpl. by rewrite lookup_insert_eq.
Qed.
(** ** Shutdown *)

Context `{!RepositoryLaws R}.

(** [rows] only grow. *)
Definition extends (r r' : registry) : Prop := ∃ l, rows (r_repo r') = rows (r_repo r) ++ l.

Lemma extends_refl r : extends r r.
Proof. exists []. by rewrite app_nil_r. Qed.

Lemma extends_trans r1 r2 r3 : extends r1 r2 → extends r2 r3 → extends r1 r3.
Proof. intros [l1 H1] [l2 H2]. exists (l1 ++ l2). by rewrite H2, H1, app_assoc. Qed.

Lemma log_row_rows id name dataset user status info (r : registry) :
  (∀ e r, (log_pipeline_run_entry e r).2 = Ok tt) →
  rows (r_repo (log_row new_v5 id name dataset user status info r)) = rows (r_repo r) ++
    [{| pe_pipeline_run_id := id; pe_pipeline_id := new_v5 NAMESPACE_OID name;
        pe_pipeline_name := name; pe_dataset_id := dataset; pe_status := status;
        pe_run_info := info; pe_user_id := user |}].
Proof.
  intros Hok. simpl. match goal with |- context [log_pipeline_run_entry ?e ?s] =>
    specialize (Hok e s); destruct (log_pipeline_run_entry e s) as [r' res] eqn:He end.
  simpl in *. subst. by apply log_ok in He.
Qed.

Lemma abort_task_runs h (r : registry) :
  r_runs (abort_task h r) = r_runs r ∧ r_repo (abort_task h r) = r_repo r
  ∧ r_cfg (abort_task h r) = r_cfg r.
Proof. unfold abort_task. by repeat case_match. Qed.

(** What aborting a known run does to the table and to the other slots. *)
Lemma abort_known now id (r : registry) slot :
  (∀ e r, (log_pipeline_run_entry e r).2 = Ok tt) →
  abort_writes_errored_row (r_cfg r) = true → r_runs r !! id = Some slot →
  let r' := (abort new_v5 now id r).1 in
  rows (r_repo r') = rows (r_repo r) ++
    [{| pe_pipeline_run_id := id;
        pe_pipeline_id := new_v5 NAMESPACE_OID (rh_pipeline_name (sl_meta slot));
        pe_pipeline_name := rh_pipeline_name (sl_meta slot);
        pe_dataset_id := rh_dataset_id (sl_meta slot); pe_status := DbErrored;
        pe_run_info := Some (run_info_for_errored "abort");
        pe_user_id := rh_user_id (sl_meta slot) |}]
  ∧ r_cfg r' = r_cfg r ∧ r_runs r' = alter (slot_finished now) id (r_runs r).
Proof.
  intros Hok Hcfg Hs r'. unfold r', abort. rewrite Hs.
  assert (Ha : ∃ r1 : registry,
    match sl_abort_handle slot with Some h => abort_task h r | None => r end = r1
    ∧ r_runs r1 = r_runs r ∧ r_repo r1 = r_repo r ∧ r_cfg r1 = r_cfg r).
  { eexists. split; [done|]. destruct (sl_abort_handle slot); [apply abort_task_runs|done]. }
  destruct Ha as (r1 & -> & Hruns & Hrepo & Hc). cbv zeta. rewrite Hc, Hcfg. cbn [fst].
  split_and!.
  - rewrite <-Hrepo. by rewrite <-log_row_rows by done.
  - done.
  - simpl. by rewrite Hruns.
Qed.

Lemma abort_extends now id (r : registry) :
  (∀ e r, (log_pipeline_run_entry e r).2 = Ok tt) →
  abort_writes_errored_row (r_cfg r) = true →
  let r' := (abort new_v5 now id r).1 in
  extends r r' ∧ r_cfg r' = r_cfg r
  ∧ ∀ k, sl_meta <$> r_runs r' !! k = sl_meta <$> r_runs r !! k.
Proof.
  intros Hok Hcfg r'. unfold r'. destruct (r_runs r !! id) as [slot|] eqn:Hs.
  - destruct (abort_known now id r slot Hok Hcfg Hs) as (Hr & Hc & Hruns).
    split_and!; [by eexists|done|]. intros k. rewrite Hruns. destruct (decide (k = id)) as [->|].
    + rewrite lookup_alter_eq, Hs. done.
    + by rewrite lookup_alter_ne.
  - unfold abort. rewrite Hs. split_and!; [apply extends_refl|done|done].
Qed.

Lemma aborts_extend now ids (r : registry) :
  (∀ e r, (log_pipeline_run_entry e r).2 = Ok tt) →
  abort_writes_errored_row (r_cfg r) = true →
  extends r (foldl (λ r id, (abort new_v5 now id r).1) r ids).
Proof.
  intros Hok. revert r. induction ids as [|k ids IH]; intros r Hcfg; [apply extends_refl|]. simpl.
  destruct (abort_extends now k r Hok Hcfg) as (He & Hc & _).
  eapply extends_trans; [exact He|]. apply IH. by rewrite Hc.
Qed.

(** Aborting a list of runs writes an [ERRORED] row for each known one. *)
Lemma aborts_write_rows now ids (r : registry) id slot :
  (∀ e r, (log_pipeline_run_entry e r).2 = Ok tt) →
  abort_writes_errored_row (r_cfg r) = true → id ∈ ids → r_runs r !! id = Some slot →
  ∃ l1 l2 e, rows (r_repo (foldl (λ r id, (abort new_v5 now id r).1) r ids)) =
               rows (r_repo r) ++ l1 ++ [e] ++ l2
    ∧ pe_pipeline_run_id e = id ∧ pe_status e = DbErrored
    ∧ pe_run_info e = Some (run_info_for_errored "abort").
Proof.
  intros Hok. revert r slot. induction ids as [|id' ids IH]; intros r slot Hcfg Hin Hs; [by inversion Hin|].
  simpl. destruct (decide (id = id')) as [<-|Hne].
  - destruct (abort_known now id r slot Hok Hcfg Hs) as (Hr & Hc & _).
    destruct (aborts_extend now ids (abort new_v5 now id r).1) as [l2 ->]; [done|by rewrite Hc|].
    rewrite Hr. eexists [], l2, _. rewrite <-app_assoc. by split_and!.
  - destruct (abort_extends now id' r Hok Hcfg) as ([l He] & Hc & Hm).
    specialize (Hm id). rewrite Hs in Hm. apply fmap_Some in Hm as (slot' & Hs' & _).
    destruct (IH (abort new_v5 now id' r).1 slot') as (l1 & l2 & e & Hr & Hid); [by rewrite Hc|by apply elem_of_cons in Hin as [->|]|done|].
    exists (l ++ l1), l2, e. rewrite Hr, He, <-!app_assoc. by split.
Qed.

(** The life of a spawned run [t], without the slots: its own state, the rows it
    adds, and what it leaves alone. *)
Definition bg_step (h : nat) (t : bg_task) (st : bg_state) (l : list PipelineRunEntry) (r r' : registry) : Prop :=
  r_tasks r' !! h = Some {| bg_run_id := bg_run_id t; bg_pipeline_name := bg_pipeline_name t;
                            bg_dataset_id := bg_dataset_id t; bg_user_id := bg_user_id t;
                            bg_chan := bg_chan t; bg_state_of := st |}
  ∧ rows (r_repo r') = rows (r_repo r) ++ l ∧ r_runs r' = r_runs r ∧ r_cfg r' = r_cfg r.

Definition bg_row (t : bg_task) (status : DbStatus) (info : option json) : PipelineRunEntry :=
  {| pe_pipeline_run_id := bg_run_id t; pe_pipeline_id := new_v5 NAMESPACE_OID (bg_pipeline_name t);
     pe_pipeline_name := bg_pipeline_name t; pe_dataset_id := bg_dataset_id t;
     pe_status := status; pe_run_info := info; pe_user_id := bg_user_id t |}.

Lemma bg_start_spec h t (r : registry) :
  (∀ e r, (log_pipeline_run_entry e r).2 = Ok tt) →
  r_tasks r !! h = Some t → bg_state_of t = BgSpawned →
  bg_step h t BgWorking [bg_row t DbStarted (Some (run_info_for_started uuid_to_string None))] r
    (bg_start uuid_to_string new_v5 h r).
Proof.
  intros Hok Ht Hst. unfold bg_start, bg_step. rewrite Ht, Hst. split_and!; try done.
  - simpl. by rewrite lookup_alter_eq, Ht.
  - unfold set_bg. cbn [r_repo with_tasks]. by rewrite log_row_rows.
Qed.

Lemma bg_done_spec h t res (r : registry) :
  (∀ e r, (log_pipeline_run_entry e r).2 = Ok tt) →
  r_tasks r !! h = Some t → bg_state_of t = BgWorking →
  bg_step h t (BgDone (phase_of res)) [bg_row t (terminal_row (phase_of res)).1 (terminal_row (phase_of res)).2] r
    (bg_done new_v5 h res r).
Proof.
  intros Hok Ht Hst. unfold bg_done, bg_step. rewrite Ht, Hst.
  destruct (terminal_row (phase_of res)) as [status info]. cbv zeta. cbn [fst snd]. split_and!; try done.
  - simpl. by rewrite lookup_alter_eq, Ht.
  - unfold set_bg. cbn [r_repo with_tasks]. by rewrite log_row_rows.
Qed.

Lemma bg_finish_spec now h t phase (r : registry) :
  r_tasks r !! h = Some t → bg_state_of t = BgDone phase →
  bg_step h t BgFinished [] r (bg_finish now h r).
Proof.
  intros Ht Hst. unfold bg_finish, bg_step. rewrite Ht, Hst, app_nil_r. cbv zeta.
  assert (Hin : ∃ r' : registry, match bg_chan t with
      | Some c => send_event c (event_now now (bg_run_id t) (terminal_kind phase)) (send_phase c phase r)
      | None => r end = r'
    ∧ r_tasks r' = r_tasks r ∧ r_repo r' = r_repo r ∧ r_runs r' = r_runs r ∧ r_cfg r' = r_cfg r).
  { eexists. split; [done|]. by destruct (bg_chan t). }
  destruct Hin as (r' & -> & Htasks & <- & <- & <-). simpl. by rewrite Htasks, lookup_alter_eq, Ht.
Qed.

(** A background run up to its completion. *)
Lemma background_completed now readable fresh spec (r r1 : registry) meta t1 t2 t3 :
  let id := default fresh (rs_run_id spec) in
  (∀ e r, (log_pipeline_run_entry e r).2 = Ok tt) →
  r_runs r !! id = None → register_background now readable fresh spec r = (r1, Ok meta) →
  let h := r_next_task r in
  let r2 := history [(t1, OpBgStart h); (t2, OpBgDone h (Ok tt)); (t3, OpBgFinish h)] r1 in
  ∃ slot, r_runs r2 !! id = Some slot ∧ sl_finished_at slot = None
    ∧ rows (r_repo r2) = rows (r_repo r) ++
        [row id spec DbStarted (Some (run_info_for_started uuid_to_string None));
         row id spec DbCompleted (Some run_info_for_completed)]
    ∧ r_cfg r2 = r_cfg r.
Proof.
  intros id Hok Hnew Hreg h r2. subst r2. fold id in Hnew.
  destruct (register_background_new now readable fresh spec r r1 meta Hnew Hreg)
    as ((slot & Hs & Hfin & Ht) & <- & <- & _). fold id h in Hs, Ht.
  unfold Registry.history. cbn [foldl Registry.apply_op].
  destruct (bg_start_spec h _ r1 Hok Ht eq_refl) as (Ht1 & Hr1 & Hs1 & Hc1).
  destruct (bg_done_spec h _ (Ok tt) _ Hok Ht1 eq_refl) as (Ht2 & Hr2 & Hs2 & Hc2).
  destruct (bg_finish_spec t3 h _ _ _ Ht2 eq_refl) as (_ & Hr3 & Hs3 & Hc3).
  exists slot. rewrite Hs3, Hs2, Hs1, Hr3, Hr2, Hr1, Hc3, Hc2, Hc1, <-!app_assoc. by split_and!.
Qed.

(** Shutting down turns a completed background run into a failed one.  A
    run whose work succeeded, whose [COMPLETED] row is written and whose phase is
    published is still taken for in flight by [shutdown], which appends an
    [ERRORED] row ("abort") after it. *)
Theorem shutdown_errors_completed_run now readable fresh spec (r r1 : registry) meta t1 t2 t3 t4 :
  let id := default fresh (rs_run_id spec) in
  (∀ e r, (log_pipeline_run_entry e r).2 = Ok tt) →
  abort_writes_errored_row (r_cfg r) = true → r_runs r !! id = None →
  register_background now readable fresh spec r = (r1, Ok meta) →
  let h := r_next_task r in
  let r2 := history [(t1, OpBgStart h); (t2, OpBgDone h (Ok tt)); (t3, OpBgFinish h)] r1 in
  ∃ l1 l2 e, rows (r_repo (shutdown new_v5 t4 r2)) =
    rows (r_repo r) ++ [row id spec DbStarted (Some (run_info_for_started uuid_to_string None));
                        row id spec DbCompleted (Some run_info_for_completed)] ++ l1 ++ [e] ++ l2
    ∧ pe_pipeline_run_id e = id ∧ pe_status e = DbErrored
    ∧ pe_run_info e = Some (run_info_for_errored "abort").
Proof.
  intros id Hok Hcfg Hnew Hreg h r2.
  destruct (background_completed now readable fresh spec r r1 meta t1 t2 t3 Hok Hnew Hreg)
    as (slot & Hs & Hfin & Hrows & Hc). fold id h r2 in Hs, Hrows, Hc.
  destruct (aborts_write_rows t4
    (filter (λ p : uuid * RunSlot, sl_finished_at p.2 = None) (map_to_list (r_runs r2))).*1 r2 id slot)
    as (l1 & l2 & e & Hr & Hid); [done|by rewrite Hc| |done|].
  - apply list_elem_of_fmap. exists (id, slot). split; [done|]. apply list_elem_of_filter.
    split; [done|]. by apply elem_of_map_to_list.
  - exists l1, l2, e. split; [|done]. unfold shutdown. simpl. simpl in Hr. rewrite Hr, Hrows.
    by rewrite <-app_assoc.
Qed.
End facts.

(** ** Witnesses *)

(** A watch channel: its value and whether a receiver is left. *)
Definition watch_cell : Type := RunPhase * bool.
Notation watch_example := ({|
  watch_new p := (p, false);
  watch_send q (c : watch_cell) := if c.2 then (q, true) else c;
  watch_borrow c := c.1 |} : Watch watch_cell).

Lemma watch_example_laws : @WatchLaws watch_cell watch_example.
Proof. by split. Qed.

Notation repo_example := ({|
  log_pipeline_run_entry e (r : list PipelineRunEntry) := (r ++ [e], Ok tt);
  rows r := r |} : PipelineRunRepository (list PipelineRunEntry)).

Definition small_config : RegistryConfig := {|
  max_in_memory_runs := 1; finished_retention := 1000; channel_capacity := 64;
  yield_throttle := None; abort_writes_errored_row := true |}.

Definition example_spec (id : option uuid) : RunSpec :=
  {| rs_run_id := id; rs_pipeline_name := "cognify"; rs_user_id := None; rs_dataset_id := None |}.

Notation example_registry := (@registry_new watch_cell (list PipelineRunEntry) [] small_config).
Notation example_history ops :=
  (@history watch_cell (list PipelineRunEntry) watch_example repo_example
     example_to_string example_v5 ops example_registry).

Lemma snapshot_always_pending_witness :
  snapshot_status (H := watch_example) true 5%N
    (example_history [(0%Z, OpRegisterInline true 5%N (example_spec None)); (1%Z, OpInlineDone 0 (Ok tt))])
  = Some Pending ∧ Pending = Pending.
Proof.
  split; [vm_compute; reflexivity|].
  apply (@snapshot_always_pending watch_cell _ watch_example watch_example_laws repo_example
    example_to_string example_v5
    [(0%Z, OpRegisterInline true 5%N (example_spec None)); (1%Z, OpInlineDone 0 (Ok tt))]
    [] small_config true 5%N Pending).
  vm_compute. reflexivity.
Defined.

(** The whole life of one background run, and a day of retention passes. *)
Notation background_life :=
  [(1%Z, OpBgStart 0); (2%Z, OpBgDone 0 (Ok tt)); (3%Z, OpBgFinish 0);
   (60000%Z, OpRetention); (86400000%Z, OpRetention)].

Lemma background_run_never_retired_witness :
  unfinished 5%N (@history watch_cell _ watch_example repo_example example_to_string example_v5
    background_life
    (@register_background watch_cell _ watch_example 0 true 5%N (example_spec None) example_registry).1).
Proof.
  eapply (@background_run_never_retired watch_cell _ watch_example repo_example
    example_to_string example_v5 0 true 5%N (example_spec None) example_registry _ _ background_life);
    [vm_compute; reflexivity|reflexivity|constructor|].
  repeat constructor.
Defined.

(** One completed background run, and a registry of size one is full for good. *)
Lemma registry_full_of_completed_witness :
  (@register_background watch_cell _ watch_example 86400000 true 6%N (example_spec None)
    (example_history ((0%Z, OpRegisterBackground true 5%N (example_spec None)) :: background_life))).2
  = Err RegistryFull.
Proof.
  set (r := example_history ((0%Z, OpRegisterBackground true 5%N (example_spec None)) :: background_life)).
  destruct (@registry_full_of_completed watch_cell _ watch_example repo_example
    example_to_string example_v5 86400000 true 6%N (example_spec None) r) as [E _].
  - vm_compute. reflexivity.
  - apply map_Forall_to_list. vm_compute. repeat constructor.
  - by rewrite E.
Defined.

Lemma registry_bounded_witness :
  size (r_runs (example_history [(0%Z, OpRegisterInline true 5%N (example_spec None));
    (1%Z, OpInlineDone 0 (Ok tt)); (2%Z, OpRegisterInline true 6%N (example_spec None))])) ≤ 1.
Proof.
  apply (@registry_bounded watch_cell _ watch_example repo_example example_to_string example_v5
    [(0%Z, OpRegisterInline true 5%N (example_spec None));
     (1%Z, OpInlineDone 0 (Ok tt)); (2%Z, OpRegisterInline true 6%N (example_spec None))] [] small_config).
  repeat constructor.
Defined.

Lemma inline_run_recorded_witness :
  ∃ slot, r_runs (example_history [(0%Z, OpRegisterInline true 5%N (example_spec None));
                                   (1%Z, OpInlineDone 0 (Err "boom"))]) !! 5%N = Some slot
    ∧ sl_finished_at slot = Some 1%Z.
Proof.
  destruct (@inline_run_recorded watch_cell _ watch_example repo_example example_to_string example_v5
    0 1 true 5%N (example_spec None) (Err "boom") example_registry) as (slot & Hs & Hf & _).
  - vm_compute. lia.
  - reflexivity.
  - exists slot. split; [exact Hs|exact Hf].
Defined.

Lemma reregistered_run_is_evicted_witness :
  let r1 := (@register_inline watch_cell _ watch_example repo_example example_to_string example_v5
    3 true 5%N (example_spec None)
    (@with_runs watch_cell _ {[5%N := {| sl_chan := 0; sl_finished_at := Some 1%Z;
       sl_abort_handle := None; sl_meta := {| rh_run_id := 5%N; rh_task_run_id := 5%N;
       rh_user_id := None; rh_dataset_id := None; rh_pipeline_name := ""; rh_started_at := 0 |} |}]}
      (@registry_new watch_cell (list PipelineRunEntry) [] RegistryConfig_default))).1 in
  Exists (λ p, p.1 = 5%N) (r_inline r1) ∧ r_runs (run_retention 3600002 r1) !! 5%N = None.
Proof.
  apply (@reregistered_run_is_evicted watch_cell _ watch_example repo_example example_to_string example_v5
    3 true 5%N (example_spec None)) with
    (slot := {| sl_chan := 0; sl_finished_at := Some 1%Z;
       sl_abort_handle := None; sl_meta := {| rh_run_id := 5%N; rh_task_run_id := 5%N;
       rh_user_id := None; rh_dataset_id := None; rh_pipeline_name := ""; rh_started_at := 0 |} |})
    (fa := 1%Z).
  - apply Nat.ltb_lt. vm_compute. reflexivity.
  - reflexivity.
  - reflexivity.
  - simpl. lia.
Defined.

Lemma repo_example_laws : @RepositoryLaws _ repo_example.
Proof. split; intros e r r'; simpl; [by intros [= <-]|done]. Qed.

Lemma shutdown_errors_completed_run_witness :
  ∃ l1 l2 e, r_repo (@shutdown watch_cell _ watch_example repo_example example_v5 4
      (@history watch_cell _ watch_example repo_example example_to_string example_v5
        [(1%Z, OpBgStart 0); (2%Z, OpBgDone 0 (Ok tt)); (3%Z, OpBgFinish 0)]
        (@register_background watch_cell _ watch_example 0 true 5%N (example_spec None) example_registry).1)) =
    [row example_v5 5%N (example_spec None) DbStarted (Some (run_info_for_started example_to_string None));
     row example_v5 5%N (example_spec None) DbCompleted (Some run_info_for_completed)] ++ l1 ++ [e] ++ l2
    ∧ pe_pipeline_run_id e = 5%N ∧ pe_status e = DbErrored.
Proof.
  destruct (@shutdown_errors_completed_run watch_cell _ watch_example repo_example
    example_to_string example_v5 repo_example_laws 0 true 5%N (example_spec None) example_registry _ _
    1 2 3 4 (λ e r, eq_refl) eq_refl eq_refl eq_refl) as (l1 & l2 & e & Hr & Hid & Hst & _).
  exists l1, l2, e. split; [exact Hr|]. by split.
Defined.
