(* ===== verification/ScopedWatcher.v ===== *)
(** * The registry's own watcher (pipeline_run_registry/scoped_watcher.rs)

    [watcher_for] hands out a watcher that writes the rows of a run and publishes
    its events to the channels of the run's slot.  What subscribers see agrees with
    what the table records. *)

From S2P Require Import Prelude Text Json DataPoint Models Provenance Proc Task Pipeline PipelineFacts RunRecords Registry RegistryFacts.

Section scoped.
Context {W R : Type} `{Watch W, PipelineRunRepository R}.
Context (uuid_to_string : uuid → string).
Notation registry := (@registry W R).

(** [sw_sink] is the address of the slot's channels, which the [PerRunSink] holds
    clones of; the repository is the registry's. *)
Record ScopedRunWatcher := { sw_run_id : uuid; sw_sink : nat }.

(** [watcher_for] *)
Definition watcher_for (run_id : uuid) (r : registry) : option ScopedRunWatcher :=
  slot ← r_runs r !! run_id; Some {| sw_run_id := run_id; sw_sink := sl_chan slot |}.

(** [PerRunSink::set_phase] and [PerRunSink::publish], as the callbacks use them. *)
Definition sw_announce (now : Z) (phase : RunPhase) (kind : RunEventKind) (w : ScopedRunWatcher)
    (r : registry) : registry :=
  send_event (sw_sink w) (event_now now (sw_run_id w) kind) (send_phase (sw_sink w) phase r).

Definition sw_on_run_started (now : Z) (run : PipelineRunInfo) (w : ScopedRunWatcher) (r : registry) : registry :=
  let e := entry_of run (core_to_db_status (ri_status run)) (run_info_for_started uuid_to_string (ri_recovery_lock run)) in
  sw_announce now Running KStarted w (with_repo (log_pipeline_run_entry e (r_repo r)).1 r).

Definition sw_on_run_completed (now : Z) (run : PipelineRunInfo) (output_count : nat) (w : ScopedRunWatcher)
    (r : registry) : registry * result string unit :=
  match log_pipeline_run_entry (entry_of run DbCompleted run_info_for_completed) (r_repo r) with
  | (repo, Ok _) => (sw_announce now PhCompleted KCompleted w (with_repo repo r), Ok tt)
  | (repo, Err e) => (with_repo repo r, Err e)
  end.

Definition sw_on_run_errored (now : Z) (run : PipelineRunInfo) (error : string) (w : ScopedRunWatcher)
    (r : registry) : registry :=
  let e := entry_of run DbErrored (run_info_for_errored error) in
  sw_announce now (PhErrored error) (KErrored error) w (with_repo (log_pipeline_run_entry e (r_repo r)).1 r).

(** The terminal callbacks the executor makes at the end of a run. *)
Definition sw_conclude (now : Z) (re : run_env) (run : PipelineRunInfo) (result : result ExecutionError nat)
    (w : ScopedRunWatcher) (r : registry) : registry :=
  match result with
  | Ok n =>
      match sw_on_run_completed now (ri_finish Completed (re_completed_at re) run) n w r with
      | (r, Ok _) => r
      | (r, Err reason) =>
          sw_on_run_errored now (ri_finish Errored (re_errored_at re) run)
            (ExecutionError_to_string (RunRecordFailed reason)) w r
      end
  | Err e =>
      sw_on_run_errored now (ri_finish Errored (re_errored_at re) run) (ExecutionError_to_string e) w r
  end.

(** What a subscriber of the channels [c] has been sent. *)
Definition sent (c : nat) (r : registry) : option (list RunEvent) := ch_events <$> r_chans r !! c.

Lemma sent_announce now phase kind w (r : registry) l :
  sent (sw_sink w) r = Some l →
  sent (sw_sink w) (sw_announce now phase kind w r) = Some (l ++ [event_now now (sw_run_id w) kind]).
Proof.
  unfold sent, sw_announce. intros Hl. rewrite send_event_events, send_phase_events.
  destruct (r_chans r !! sw_sink w); by simplify_eq/=.
Qed.

Lemma sent_with_repo c repo (r : registry) : sent c (with_repo repo r) = sent c r.
Proof. done. Qed.

(** A row is written or it is not. *)
Definition written (e : PipelineRunEntry) (l : list PipelineRunEntry) : Prop := l = [] ∨ l = [e].

Context `{!RepositoryLaws R}.

Lemma log_written e (repo : R) :
  ∃ l, rows (log_pipeline_run_entry e repo).1 = rows repo ++ l ∧ written e l.
Proof.
  destruct (log_cases e repo) as (repo' & res & -> & Hr). eexists. split; [exact Hr|].
  destruct res; [by right|by left].
Qed.

Lemma errored_published now run m w (r : registry) l :
  sent (sw_sink w) r = Some l →
  let r' := sw_on_run_errored now run m w r in
  sent (sw_sink w) r' = Some (l ++ [event_now now (sw_run_id w) (KErrored m)])
  ∧ ∃ ts, rows (r_repo r') = rows (r_repo r) ++ ts
      ∧ written (entry_of run DbErrored (run_info_for_errored m)) ts.
Proof.
  intros Hl. split; [by apply sent_announce; rewrite sent_with_repo|]. apply log_written.
Qed.

(** Subscribers and the table agree on a run that reports through the
    registry's watcher.  They are sent its start and then exactly one ending.  A
    [Completed] event means that the run succeeded and that its [COMPLETED] row is
    the last one of the table; any other ending is the [Errored] event of the run's
    error, or of the failed [COMPLETED] write, and no row but an [ERRORED] one with
    that message is written with it. *)
Theorem scoped_run_published now1 now2 re run result id w (r : registry) l :
  watcher_for id r = Some w → sent (sw_sink w) r = Some l →
  let r' := sw_conclude now2 re run result w (sw_on_run_started now1 run w r) in
  ∃ kind ss ts,
    sent (sw_sink w) r' = Some (l ++ [event_now now1 id KStarted; event_now now2 id kind])
    ∧ rows (r_repo r') = rows (r_repo r) ++ ss ++ ts
    ∧ written (entry_of run (core_to_db_status (ri_status run))
                 (run_info_for_started uuid_to_string (ri_recovery_lock run))) ss
    ∧ match kind with
      | KCompleted => is_ok result = true ∧ ts = [entry_of run DbCompleted run_info_for_completed]
      | KErrored m => written (entry_of run DbErrored (run_info_for_errored m)) ts
          ∧ match result with
            | Err e => m = ExecutionError_to_string e
            | Ok _ => ∃ reason, m = ExecutionError_to_string (RunRecordFailed reason)
            end
      | _ => False
      end.
Proof.
  intros Hw Hl. unfold watcher_for in Hw. destruct (r_runs r !! id) as [slot|]; simplify_eq/=.
  set (w := {| sw_run_id := id; sw_sink := sl_chan slot |}) in *.
  set (r1 := sw_on_run_started now1 run w r).
  assert (Hl1 : sent (sw_sink w) r1 = Some (l ++ [event_now now1 id KStarted])) by by apply sent_announce.
  destruct (log_written (entry_of run (core_to_db_status (ri_status run))
    (run_info_for_started uuid_to_string (ri_recovery_lock run))) (r_repo r)) as (ss & Hss & Hwss).
  change (rows (r_repo r1) = rows (r_repo r) ++ ss) in Hss.
  assert (Herr : ∀ m r2, sent (sw_sink w) r2 = sent (sw_sink w) r1 → rows (r_repo r2) = rows (r_repo r1) →
    let r' := sw_on_run_errored now2 (ri_finish Errored (re_errored_at re) run) m w r2 in
    ∃ ts, sent (sw_sink w) r' = Some (l ++ [event_now now1 id KStarted; event_now now2 id (KErrored m)])
      ∧ rows (r_repo r') = rows (r_repo r) ++ ss ++ ts
      ∧ written (entry_of run DbErrored (run_info_for_errored m)) ts).
  { intros m r2 Hs2 Hr2. rewrite Hl1 in Hs2.
    destruct (errored_published now2 (ri_finish Errored (re_errored_at re) run) m w r2 _ Hs2) as [He (ts & Hts & Hwts)].
    exists ts. rewrite He, Hts, Hr2, Hss, <-!app_assoc. done. }
  unfold sw_conclude. destruct result as [n|e].
  - unfold sw_on_run_completed.
    destruct (log_cases (entry_of (ri_finish Completed (re_completed_at re) run) DbCompleted
      run_info_for_completed) (r_repo r1)) as (repo & [u|reason] & -> & Hr); cbv beta iota.
    + exists KCompleted, ss. eexists. split_and!; [|simpl; by rewrite Hr, Hss, <-app_assoc|done..].
      rewrite (sent_announce _ _ _ _ _ _ (eq_trans (sent_with_repo _ _ _) Hl1)), <-app_assoc. done.
    + rewrite app_nil_r in Hr.
      destruct (Herr (ExecutionError_to_string (RunRecordFailed reason)) (with_repo repo r1)) as (ts & ? & ? & ?); [done..|].
      exists (KErrored (ExecutionError_to_string (RunRecordFailed reason))), ss, ts. split_and!; try done. by exists reason.
  - destruct (Herr (ExecutionError_to_string e) r1) as (ts & ? & ? & ?); [done..|].
    by exists (KErrored (ExecutionError_to_string e)), ss, ts.
Qed.
End scoped.

(** ** Witness *)

(** The [STARTED] and [COMPLETED] writes fail, the [ERRORED] one succeeds. *)
Definition example_scoped : @registry watch_cell (nat * list PipelineRunEntry) :=
  (@create_slot _ _ watch_example 0 9%N (example_spec None)
    (@registry_new watch_cell _ (2, []) small_config)).1.

Lemma scoped_run_published_witness :
  let w := {| sw_run_id := 9%N; sw_sink := 0 |} in
  let r := @sw_conclude _ _ watch_example flaky_repo 2 example_run example_info (Ok 3) w
    (@sw_on_run_started _ _ watch_example flaky_repo example_to_string 1 example_info w example_scoped) in
  (map ev_kind <$> sent 0 r)
    = Some [KStarted; KErrored (ExecutionError_to_string (RunRecordFailed "database is locked"))]
  ∧ map pe_status (r_repo r).2 = [DbErrored].
Proof.
  destruct (@scoped_run_published _ _ watch_example flaky_repo example_to_string flaky_repo_laws
    1 2 example_run example_info (Ok 3) 9%N {| sw_run_id := 9%N; sw_sink := 0 |} example_scoped [])
    as (kind & ss & ts & Hs & Hr & Hwss & Hk); [vm_compute; reflexivity..|].
  assert (Hkind : (map ev_kind <$> sent 0 (@sw_conclude _ _ watch_example flaky_repo 2 example_run example_info (Ok 3)
      {| sw_run_id := 9%N; sw_sink := 0 |}
      (@sw_on_run_started _ _ watch_example flaky_repo example_to_string 1 example_info
        {| sw_run_id := 9%N; sw_sink := 0 |} example_scoped))) = Some [KStarted; kind]) by exact (f_equal (fmap (map ev_kind)) Hs).
  split; [|vm_compute; reflexivity].
  etransitivity; [exact Hkind|]. rewrite <-Hkind. vm_compute. reflexivity.
Defined.
