(* ===== verification/PipelineRuns.v ===== *)
(** * The pipeline_runs table
    (crates/database/src/pipelines/{repository,sea_orm_impl}.rs, crates/utils/src/sanitize.rs)

    The table, a row per status transition, and the SeaORM repository over it.  A
    query is the meaning of its SQL statement: joined rows filtered, ordered and
    paged. *)

From stdpp Require Import sorting.
From S2P Require Import Prelude Json Strings Pipeline RunRecords.

(** ** NUL stripping *)

(** Whether a string contains a NUL. *)
Fixpoint has_nul (s : string) : bool :=
  match s with EmptyString => false | String c s => bool_decide (c = Ascii.zero) || has_nul s end.

(** [sanitize_json].  An object of the model has no order: of two keys that become
    equal, one wins. *)
Fixpoint sanitize_json (v : json) : json :=
  match v with
  | JString s => JString (sanitize_string s)
  | JArray items => JArray (map sanitize_json items)
  | JObject m =>
      let m := sanitize_json <$> m in
      JObject (if existsb has_nul (map_to_list m).*1
               then map_fold (λ k v rebuilt, <[sanitize_string k := v]> rebuilt) ∅ m else m)
  | JNull | JBool _ | JInt _ | JFloat _ => v
  end.

(** ** Rows *)

Record PipelineRun := {
  pr_id : uuid;
  pr_created_at : Z;
  pr_status : DbStatus;
  pr_pipeline_run_id : uuid;
  pr_pipeline_name : string;
  pr_pipeline_id : uuid;
  pr_dataset_id : option uuid;
  pr_run_info : option json;
  pr_user_id : option uuid;
}.

Record PipelineRunWithAttributionRow := {
  ra_id : uuid;
  ra_created_at : Z;
  ra_status : DbStatus;
  ra_pipeline_run_id : uuid;
  ra_pipeline_name : string;
  ra_pipeline_id : uuid;
  ra_dataset_id : option uuid;
  ra_dataset_name : option string;
  ra_owner_id : option uuid;
  ra_owner_email : option string;
  ra_user_id : option uuid;
}.

#[export] Instance row_eq_dec : EqDecision PipelineRunWithAttributionRow.
Proof. solve_decision. Defined.

Record PipelineRunVisibility := { vis_user_ids : list uuid; vis_dataset_ids : list uuid }.

(** [PipelineRunVisibility::is_empty] *)
Definition vis_is_empty (v : PipelineRunVisibility) : bool :=
  match vis_user_ids v, vis_dataset_ids v with [], [] => true | _, _ => false end.

(** [PipelineRunVisibility::admits] *)
Definition admits (v : PipelineRunVisibility) (row : PipelineRunWithAttributionRow) : bool :=
  match ra_user_id row with Some u => bool_decide (u ∈ vis_user_ids v) | None => false end
  || match ra_dataset_id row with Some d => bool_decide (d ∈ vis_dataset_ids v) | None => false end.

Record PipelineRunListQuery := {
  q_dataset_id : option uuid;
  q_pipeline_name : option string;
  q_visibility : option PipelineRunVisibility;
  q_limit : N;
  q_offset : N;
}.

(** The two tables the repository reads: [pd_runs] in insertion order, and of a
    dataset its name and owner. *)
Record pipeline_db := { pd_runs : list PipelineRun; pd_datasets : gmap uuid (string * uuid) }.

(** ** Writing *)

(** [log_pipeline_run_entry] at time [now], with the row id [row_id] of
    [Uuid::new_v4()]. *)
Definition insert_entry (row_id : uuid) (now : Z) (e : PipelineRunEntry) (db : pipeline_db) : pipeline_db := {|
  pd_runs := pd_runs db ++ [{|
    pr_id := row_id;
    pr_created_at := now;
    pr_status := pe_status e;
    pr_pipeline_run_id := pe_pipeline_run_id e;
    pr_pipeline_name := pe_pipeline_name e;
    pr_pipeline_id := pe_pipeline_id e;
    pr_dataset_id := pe_dataset_id e;
    pr_run_info := sanitize_json <$> pe_run_info e;
    pr_user_id := pe_user_id e |}];
  pd_datasets := pd_datasets db |}.

(** ** The latest row of a run *)

(** The order [ORDER BY created_at DESC] leaves to the database among equal times
    is the argument [by_created_desc]. *)
Class SqlOrder := { by_created_desc : list PipelineRun → list PipelineRun }.

Class SqlOrderLaws `{SqlOrder} := {
  by_created_desc_perm : ∀ l, by_created_desc l ≡ₚ l;
  by_created_desc_sorted : ∀ l,
    StronglySorted (λ a b, pr_created_at b ≤ pr_created_at a)%Z (by_created_desc l);
}.

Section queries.
Context `{SqlOrder}.

(** [get_pipeline_run] *)
Definition get_pipeline_run (run_id : uuid) (db : pipeline_db) : option PipelineRun :=
  head (by_created_desc (filter (λ r, pr_pipeline_run_id r = run_id) (pd_runs db))).

(** [latest_in_flight_rows]: the first row seen of every run, if it is in flight. *)
Definition latest_per_run (rows : list PipelineRun) : gmap uuid PipelineRun :=
  foldl (λ m row, match m !! pr_pipeline_run_id row with
                  | Some _ => m
                  | None => <[pr_pipeline_run_id row := row]> m
                  end) ∅ rows.

Definition in_flight (s : DbStatus) : bool :=
  match s with DbInitiated | DbStarted => true | DbCompleted | DbErrored => false end.

Definition list_unterminated_runs (db : pipeline_db) : list PipelineRun :=
  filter (λ row, in_flight (pr_status row)) (map_to_list (latest_per_run (by_created_desc (pd_runs db)))).*2.

(** [reset_orphan_run] *)
Definition reset_orphan_run (row_id : uuid) (now : Z) (dataset_id : uuid) (pipeline_name : string)
    (run_row_id : uuid) (reason : string) (db : pipeline_db) : pipeline_db * bool :=
  match head (filter (λ r, pr_id r = run_row_id) (pd_runs db)) with
  | None => (db, false)
  | Some observed =>
      if decide (pr_dataset_id observed ≠ Some dataset_id ∨ pr_pipeline_name observed ≠ pipeline_name)
      then (db, false)
      else
        match get_pipeline_run (pr_pipeline_run_id observed) db with
        | None => (db, false)
        | Some latest =>
            if decide (pr_id latest ≠ run_row_id) then (db, false)
            else if negb (in_flight (pr_status latest)) then (db, false)
            else
              ({| pd_runs := pd_runs db ++ [{|
                    pr_id := row_id;
                    pr_created_at := now;
                    pr_status := DbErrored;
                    pr_pipeline_run_id := pr_pipeline_run_id latest;
                    pr_pipeline_name := pr_pipeline_name latest;
                    pr_pipeline_id := pr_pipeline_id latest;
                    pr_dataset_id := pr_dataset_id latest;
                    pr_run_info := Some (sanitize_json (JObject {["error" := JString reason]}));
                    pr_user_id := pr_user_id latest |}];
                  pd_datasets := pd_datasets db |}, true)
        end
  end.
End queries.

(** ** The runs listing *)

Definition LIST_RUNS_MAX_BINDS : nat := 30000.
Definition LIST_RUNS_CHUNKED_WINDOW : N := 5000.
Definition u64_MAX : N := (2 ^ 64 - 1)%N.

(** A row of [pipeline_runs LEFT JOIN datasets]. *)
Definition attributed (db : pipeline_db) (r : PipelineRun) : PipelineRunWithAttributionRow :=
  let dataset := d ← pr_dataset_id r; pd_datasets db !! d in {|
    ra_id := pr_id r;
    ra_created_at := pr_created_at r;
    ra_status := pr_status r;
    ra_pipeline_run_id := pr_pipeline_run_id r;
    ra_pipeline_name := pr_pipeline_name r;
    ra_pipeline_id := pr_pipeline_id r;
    ra_dataset_id := pr_dataset_id r;
    ra_dataset_name := fst <$> dataset;
    ra_owner_id := snd <$> dataset;
    ra_owner_email := None;
    ra_user_id := pr_user_id r |}.

(** [ORDER BY created_at DESC, id DESC] *)
Definition newer (a b : PipelineRunWithAttributionRow) : Prop :=
  (ra_created_at b < ra_created_at a)%Z ∨ (ra_created_at a = ra_created_at b ∧ (ra_id b ≤ ra_id a)%N).

#[export] Instance newer_dec a b : Decision (newer a b).
Proof. unfold newer. apply _. Defined.

(** A visibility condition: [user_id IN (...)] or [dataset_id IN (...)]; a [NULL]
    column is in no list. *)
Inductive condition :=
  | UserIn (ids : list uuid)
  | DatasetIn (ids : list uuid).

Definition holds (c : condition) (row : PipelineRunWithAttributionRow) : Prop :=
  match c with
  | UserIn ids => match ra_user_id row with Some u => u ∈ ids | None => False end
  | DatasetIn ids => match ra_dataset_id row with Some d => d ∈ ids | None => False end
  end.

#[export] Instance holds_dec c row : Decision (holds c row).
Proof. destruct c; simpl; [destruct (ra_user_id row)|destruct (ra_dataset_id row)]; apply _. Defined.

(** The [WHERE] clause of [fetch_runs]; [Condition::any] of the terms, if given. *)
Definition selected (dataset_id : option uuid) (name : option string)
    (visibility : option (list condition)) (row : PipelineRunWithAttributionRow) : Prop :=
  match dataset_id with Some d => ra_dataset_id row = Some d | None => True end
  ∧ match name with Some n => ra_pipeline_name row = n | None => True end
  ∧ match visibility with Some cs => Exists (λ c, holds c row) cs | None => True end.

#[export] Instance selected_dec d n v row : Decision (selected d n v row).
Proof. unfold selected. destruct d, n, v; apply _. Defined.

(** [fetch_runs] *)
Definition fetch_runs (dataset_id : option uuid) (name : option string)
    (visibility : option (list condition)) (limit offset : N) (db : pipeline_db)
    : list PipelineRunWithAttributionRow :=
  let rows := filter (selected dataset_id name visibility) (map (attributed db) (pd_runs db)) in
  take (N.to_nat limit) (drop (N.to_nat offset) (merge_sort newer rows)).

(** [merged.entry(row.id).or_insert(row)] *)
Definition or_insert_row (m : gmap uuid PipelineRunWithAttributionRow) (row : PipelineRunWithAttributionRow)
    : gmap uuid PipelineRunWithAttributionRow :=
  match m !! ra_id row with Some _ => m | None => <[ra_id row := row]> m end.

(** [list_runs]; [bind_limit] is the repository's [list_bind_limit]. *)
Definition list_runs (bind_limit : nat) (q : PipelineRunListQuery) (db : pipeline_db)
    : result string (list PipelineRunWithAttributionRow) :=
  match q_visibility q with
  | None => Ok (fetch_runs (q_dataset_id q) (q_pipeline_name q) None (q_limit q) (q_offset q) db)
  | Some v =>
      if vis_is_empty v then Ok []
      else if decide (length (vis_user_ids v) + length (vis_dataset_ids v) ≤ bind_limit) then
        let any := (match vis_user_ids v with [] => [] | ids => [UserIn ids] end)
                   ++ (match vis_dataset_ids v with [] => [] | ids => [DatasetIn ids] end) in
        Ok (fetch_runs (q_dataset_id q) (q_pipeline_name q) (Some any) (q_limit q) (q_offset q) db)
      else
        let window := N.min (q_offset q + q_limit q) u64_MAX in
        if (LIST_RUNS_CHUNKED_WINDOW <? window)%N then Err "pipeline-runs listing: offset + limit"
        else
          let conditions := map UserIn (chunks bind_limit (vis_user_ids v))
                            ++ map DatasetIn (chunks bind_limit (vis_dataset_ids v)) in
          let fetched := concat (map (λ c, fetch_runs (q_dataset_id q) (q_pipeline_name q) (Some [c])
                                             window 0 db) conditions) in
          let merged := foldl or_insert_row ∅ fetched in
          let rows := merge_sort newer (map_to_list merged).*2 in
          Ok (take (N.to_nat (q_limit q)) (drop (N.to_nat (q_offset q)) rows))
  end.
