(* ===== verification/PipelineRunsFacts.v ===== *)
(** * Properties of the pipeline_runs repository

    The listing pages the visible rows whatever path it takes, and closing an
    abandoned run appends its one terminal row. *)

From stdpp Require Import sorting.
From S2P Require Import Prelude Json Pipeline RunRecords PipelineRuns.

(** ** Sorted lists *)

(** [newer] orders rows with distinct ids. *)
Lemma newer_trans a b c : newer a b → newer b c → newer a c.
Proof. unfold newer. lia. Qed.

Lemma newer_total a b : newer a b ∨ newer b a.
Proof. unfold newer. lia. Qed.

Lemma newer_antisym a b : newer a b → newer b a → ra_id a = ra_id b.
Proof. unfold newer. lia. Qed.

Notation row := PipelineRunWithAttributionRow (only parsing).

Lemma sorted_rows (l : list row) : StronglySorted newer (merge_sort newer l).
Proof.
  apply StronglySorted_merge_sort; [intros a b c; apply newer_trans|intros a b; apply newer_total].
Qed.

(** Rows with distinct ids have one sorted arrangement. *)
Lemma sorted_unique (l k : list row) :
  NoDup (map ra_id l) → StronglySorted newer l → StronglySorted newer k → l ≡ₚ k → l = k.
Proof.
  intros Hnd Hl Hk Hp. eapply StronglySorted_unique_strong; [|exact Hl|exact Hk|exact Hp].
  intros a b Ha Hb%(elem_of_Permutation_proper b _ _ Hp) Hab Hba.
  pose proof (newer_antisym a b Hab Hba) as E.
  apply list_elem_of_lookup in Ha as [i Hi], Hb as [j Hj].
  assert (i = j) as ->; [|congruence].
  eapply (NoDup_lookup (map ra_id l)); [done|..]; rewrite list_lookup_fmap.
  - by rewrite Hi.
  - by rewrite Hj, E.
Qed.

Lemma sorted_filter (P : row → Prop) `{∀ x, Decision (P x)} (l : list row) :
  StronglySorted newer l → StronglySorted newer (filter P l).
Proof.
  induction 1 as [|x l Hl IH Hx]; [constructor|]. rewrite filter_cons. case_decide; [|done].
  constructor; [done|]. rewrite Forall_forall in *. intros y [_ Hy]%list_elem_of_filter. by apply Hx.
Qed.

Lemma sort_filter (P : row → Prop) `{∀ x, Decision (P x)} (l : list row) :
  NoDup (map ra_id l) → merge_sort newer (filter P l) = filter P (merge_sort newer l).
Proof.
  intros Hnd. apply sorted_unique.
  - rewrite (Permutation_map _ (merge_sort_Permutation _ _)).
    eapply sublist_NoDup; [exact Hnd|]. by apply fmap_sublist, sublist_filter.
  - apply sorted_rows.
  - by apply sorted_filter, sorted_rows.
  - by rewrite !merge_sort_Permutation.
Qed.

(** ** Merging the newest rows of every condition *)

Lemma elem_of_take_filter {A} (P : A → Prop) `{∀ x, Decision (P x)} w (l : list A) x :
  x ∈ take w l → P x → x ∈ take w (filter P l).
Proof.
  intros Hx HP. rewrite <-(take_drop w l) at 1. rewrite filter_app.
  assert (Hlen : length (filter P (take w l)) ≤ w).
  { etransitivity; [apply length_filter|]. rewrite length_take. lia. }
  rewrite take_app_ge by done. apply elem_of_app. left. by apply list_elem_of_filter.
Qed.

Lemma take_filter_all {A} (P : A → Prop) `{∀ x, Decision (P x)} w (l : list A) :
  (∀ x, x ∈ take w l → P x) → take w (filter P l) = take w l.
Proof.
  revert w. induction l as [|x l IH]; intros w HP; [done|]. destruct w as [|w]; [done|].
  rewrite filter_cons_True by (apply HP; by left). simpl. f_equal. apply IH.
  intros y Hy. apply HP. by right.
Qed.

(** The merged map: the fetched rows by id, if rows are told apart by their ids. *)
Lemma merged_lookup (rows : list row) i x :
  (∀ a b, a ∈ rows → b ∈ rows → ra_id a = ra_id b → a = b) →
  foldl or_insert_row ∅ rows !! i = Some x ↔ x ∈ rows ∧ ra_id x = i.
Proof.
  revert i x. induction rows as [|r rows IH] using rev_ind; intros i x Hid.
  { simpl. rewrite lookup_empty, elem_of_nil. naive_solver. }
  assert (IH' : ∀ i x, foldl or_insert_row ∅ rows !! i = Some x ↔ x ∈ rows ∧ ra_id x = i).
  { intros i' x'. apply IH. intros a b Ha Hb. apply Hid; apply elem_of_app; by left. }
  rewrite foldl_app, elem_of_app, list_elem_of_singleton. simpl. unfold or_insert_row at 1.
  destruct (foldl or_insert_row ∅ rows !! ra_id r) as [y|] eqn:Hy.
  - apply IH' in Hy as [Hy Hyr]. assert (y = r) as ->.
    { apply Hid; [|apply elem_of_app; right; by left|done]. apply elem_of_app. by left. }
    rewrite IH'. naive_solver.
  - destruct (decide (i = ra_id r)) as [->|Hne].
    + rewrite lookup_insert_eq. split; [by intros [= <-]; auto|]. intros [[Hx| ->] Hi]; [|done].
      assert (Hn : foldl or_insert_row ∅ rows !! ra_id r = Some x) by by apply IH'. congruence.
    + rewrite lookup_insert_ne, IH' by done. naive_solver.
Qed.

(** The values of the merged map, newest first: the sorted rows, once each. *)
Lemma merged_sorted (fetched all : list row) :
  NoDup (map ra_id all) → (∀ x, x ∈ fetched → x ∈ all) →
  merge_sort newer (map_to_list (foldl or_insert_row ∅ fetched)).*2
    = filter (λ x, x ∈ fetched) (merge_sort newer all).
Proof.
  intros Hnd Hsub.
  assert (Hid : ∀ a b, a ∈ all → b ∈ all → ra_id a = ra_id b → a = b).
  { intros a b Ha Hb E. apply list_elem_of_lookup in Ha as [i Hi], Hb as [j Hj].
    assert (i = j) as ->; [|congruence].
    eapply (NoDup_lookup (map ra_id all)); [done|..]; rewrite list_lookup_fmap; [by rewrite Hi|by rewrite Hj, E]. }
  rewrite <-sort_filter by done.
  assert (Hperm : (map_to_list (foldl or_insert_row ∅ fetched)).*2 ≡ₚ filter (λ x, x ∈ fetched) all).
  { apply NoDup_Permutation.
    - apply NoDup_fmap_2_strong; [|apply NoDup_map_to_list].
      intros [i x] [j y] Hx%elem_of_map_to_list Hy%elem_of_map_to_list. simpl. intros ->.
      apply merged_lookup in Hx as [_ <-], Hy as [_ <-]; auto.
    - apply NoDup_filter. by apply (NoDup_fmap_1 ra_id).
    - intros x. rewrite list_elem_of_filter, list_elem_of_fmap. split.
      + intros ([i y] & -> & Hy%elem_of_map_to_list). simpl.
        apply merged_lookup in Hy as [Hy _]; auto.
      + intros [Hx _]. exists (ra_id x, x). split; [done|]. apply elem_of_map_to_list, merged_lookup; auto. }
  apply sorted_unique; [|apply sorted_rows..|by rewrite !merge_sort_Permutation].
  assert (Hperm' := transitivity (merge_sort_Permutation newer _) Hperm).
  apply (NoDup_Permutation_proper _ _ (Permutation_map ra_id Hperm')).
  eapply sublist_NoDup; [exact Hnd|]. apply (fmap_sublist ra_id), sublist_filter.
Qed.

(** ** The listing *)

(** The rows a query may see. *)
Definition visible (q : PipelineRunListQuery) (row : PipelineRunWithAttributionRow) : Prop :=
  match q_dataset_id q with Some d => ra_dataset_id row = Some d | None => True end
  ∧ match q_pipeline_name q with Some n => ra_pipeline_name row = n | None => True end
  ∧ match q_visibility q with Some v => admits v row = true | None => True end.

#[export] Instance visible_dec q row : Decision (visible q row).
Proof. unfold visible. destruct (q_dataset_id q), (q_pipeline_name q), (q_visibility q); apply _. Defined.

(** A page of a query: the visible rows, newest first. *)
Definition page (q : PipelineRunListQuery) (db : pipeline_db) : list PipelineRunWithAttributionRow :=
  take (N.to_nat (q_limit q)) (drop (N.to_nat (q_offset q))
    (merge_sort newer (filter (visible q) (map (attributed db) (pd_runs db))))).

Lemma admits_holds v row (cs : list condition) :
  (∀ u, u ∈ vis_user_ids v ↔ Exists (λ c, match c with UserIn ids => u ∈ ids | _ => False end) cs) →
  (∀ d, d ∈ vis_dataset_ids v ↔ Exists (λ c, match c with DatasetIn ids => d ∈ ids | _ => False end) cs) →
  admits v row = true ↔ Exists (λ c, holds c row) cs.
Proof.
  intros Hu Hd. unfold admits. rewrite orb_true_iff.
  assert (Hcs : Exists (λ c, holds c row) cs ↔
    (∃ u, ra_user_id row = Some u ∧ u ∈ vis_user_ids v) ∨ (∃ d, ra_dataset_id row = Some d ∧ d ∈ vis_dataset_ids v)).
  { setoid_rewrite Hu. setoid_rewrite Hd. rewrite Exists_exists. setoid_rewrite Exists_exists. split.
    - intros (c & Hc & Hh). destruct c as [ids|ids]; simpl in Hh.
      + left. destruct (ra_user_id row) as [u|] eqn:E; [|done]. exists u. split; [done|]. by exists (UserIn ids).
      + right. destruct (ra_dataset_id row) as [e|] eqn:E; [|done]. exists e. split; [done|]. by exists (DatasetIn ids).
    - intros [(u & E & c & Hc & Hin)|(e & E & c & Hc & Hin)]; exists c; (split; [done|]); destruct c; simpl; try done;
        by rewrite E. }
  rewrite Hcs. f_equiv; destruct (ra_user_id row), (ra_dataset_id row); rewrite ?bool_decide_eq_true; naive_solver.
Qed.

(** The terms for a list of ids, in one piece or in chunks. *)
Definition terms (f : list uuid → condition) (pieces : list (list uuid)) : list condition := map f pieces.

Lemma admits_terms v row us ds :
  concat us = vis_user_ids v → concat ds = vis_dataset_ids v →
  admits v row = true ↔ Exists (λ c, holds c row) (terms UserIn us ++ terms DatasetIn ds).
Proof.
  intros Hus Hds. apply admits_holds.
  - intros x. rewrite <-Hus, Exists_app, !Exists_exists, list_elem_of_In, in_concat. unfold terms. split.
    + intros (l & Hl & Hx). left. exists (UserIn l). split; [|by apply list_elem_of_In].
      apply list_elem_of_fmap. exists l. split; [done|]. by apply list_elem_of_In.
    + intros [(c & (l & -> & Hl)%list_elem_of_fmap & Hx)|(c & (l & -> & Hl)%list_elem_of_fmap & [])].
      exists l. by rewrite <-!list_elem_of_In.
  - intros x. rewrite <-Hds, Exists_app, !Exists_exists, list_elem_of_In, in_concat. unfold terms. split.
    + intros (l & Hl & Hx). right. exists (DatasetIn l). split; [|by apply list_elem_of_In].
      apply list_elem_of_fmap. exists l. split; [done|]. by apply list_elem_of_In.
    + intros [(c & (l & -> & Hl)%list_elem_of_fmap & [])|(c & (l & -> & Hl)%list_elem_of_fmap & Hx)].
      exists l. by rewrite <-!list_elem_of_In.
Qed.

Lemma attributed_ids db : map ra_id (map (attributed db) (pd_runs db)) = map pr_id (pd_runs db).
Proof. rewrite map_map. done. Qed.

Lemma fetch_runs_page q v cs db :
  q_visibility q = Some v →
  (∀ row, admits v row = true ↔ Exists (λ c, holds c row) cs) →
  fetch_runs (q_dataset_id q) (q_pipeline_name q) (Some cs) (q_limit q) (q_offset q) db = page q db.
Proof.
  intros Hv Hcs. unfold fetch_runs, page. do 3 f_equal. apply list_filter_iff.
  intros row. unfold selected, visible. by rewrite Hv, Hcs.
Qed.

Lemma nothing_visible q l :
  (match q_visibility q with Some v => vis_is_empty v = true | None => False end) → filter (visible q) l = [].
Proof.
  intros Hq. induction l as [|row l IH]; [done|]. rewrite filter_cons_False; [done|].
  intros (_ & _ & Hv). destruct (q_visibility q) as [[[|] [|]]|]; try done.
  unfold admits in Hv. simpl in Hv. by destruct (ra_user_id row), (ra_dataset_id row).
Qed.

(** The newest [w] rows of every condition contain the newest [w] visible ones. *)
Lemma merged_page q v cs w db :
  NoDup (map pr_id (pd_runs db)) → q_visibility q = Some v →
  (∀ row, admits v row = true ↔ Exists (λ c, holds c row) cs) →
  let fetched := concat (map (λ c, fetch_runs (q_dataset_id q) (q_pipeline_name q) (Some [c]) w 0 db) cs) in
  take (N.to_nat w) (merge_sort newer (map_to_list (foldl or_insert_row ∅ fetched)).*2)
  = take (N.to_nat w) (merge_sort newer (filter (visible q) (map (attributed db) (pd_runs db)))).
Proof.
  intros Hnd Hv Hcs fetched.
  set (all := filter (visible q) (map (attributed db) (pd_runs db))).
  assert (Hall : NoDup (map ra_id all)).
  { eapply sublist_NoDup; [|apply (fmap_sublist ra_id), sublist_filter].
    change (NoDup (map ra_id (map (attributed db) (pd_runs db)))). by rewrite attributed_ids. }
  assert (Hc : ∀ c, c ∈ cs →
    fetch_runs (q_dataset_id q) (q_pipeline_name q) (Some [c]) w 0 db
      = take (N.to_nat w) (filter (λ row, holds c row) (merge_sort newer all))).
  { intros c Hc. unfold fetch_runs. rewrite drop_0, <-sort_filter by done. do 2 f_equal.
    unfold all. rewrite list_filter_filter. apply list_filter_iff. intros row.
    unfold selected, visible. rewrite Hv, Hcs, Exists_cons, Exists_nil, Exists_exists. naive_solver. }
  assert (Hsub : ∀ x, x ∈ fetched → x ∈ all).
  { intros x. unfold fetched. rewrite list_elem_of_In, in_concat.
    intros (l & (c & <- & Hcin)%in_map_iff & Hx). rewrite Hc in Hx by by apply list_elem_of_In.
    apply list_elem_of_In, elem_of_take in Hx as (k & Hx & _). apply list_elem_of_lookup_2 in Hx.
    apply list_elem_of_filter in Hx as [_ Hx]. by rewrite merge_sort_Permutation in Hx. }
  rewrite (merged_sorted fetched all Hall Hsub). apply take_filter_all.
  intros x Hx. assert (Hvis : x ∈ all).
  { rewrite <-(merge_sort_Permutation newer all). apply elem_of_take in Hx as (k & Hx & _).
    by eapply list_elem_of_lookup_2. }
  apply list_elem_of_filter in Hvis as [(_ & _ & Hadm) _]. rewrite Hv in Hadm.
  apply Hcs, Exists_exists in Hadm as (c & Hcin & Hholds).
  unfold fetched. apply list_elem_of_In, in_concat.
  exists (fetch_runs (q_dataset_id q) (q_pipeline_name q) (Some [c]) w 0 db). split.
  - apply in_map_iff. exists c. split; [done|]. by apply list_elem_of_In.
  - rewrite Hc by done. by apply list_elem_of_In, elem_of_take_filter.
Qed.

(** The listing is the page of the visible rows, newest first, whatever path
    answers it: one statement, or the chunked statements whose newest rows are
    merged.  The only refusal is a chunked window above
    [LIST_RUNS_CHUNKED_WINDOW]. *)
Theorem list_runs_pages bind_limit q db :
  1 ≤ bind_limit → NoDup (map pr_id (pd_runs db)) →
  list_runs bind_limit q db = Ok (page q db)
  ∨ ∃ v e, list_runs bind_limit q db = Err e ∧ q_visibility q = Some v
      ∧ bind_limit < length (vis_user_ids v) + length (vis_dataset_ids v)
      ∧ (LIST_RUNS_CHUNKED_WINDOW < q_offset q + q_limit q)%N.
Proof.
  intros Hlim Hnd. unfold list_runs. destruct (q_visibility q) as [v|] eqn:Hv.
  2:{ left. f_equal. unfold fetch_runs, page. do 3 f_equal. apply list_filter_iff.
      intros row. unfold selected, visible. by rewrite Hv. }
  destruct (vis_is_empty v) eqn:Hempty.
  { left. unfold page. rewrite nothing_visible by by rewrite Hv. by destruct (N.to_nat (q_offset q)), (N.to_nat (q_limit q)). }
  case_decide as Hb.
  - left. f_equal. apply (fetch_runs_page q v); [done|]. intros row.
    destruct v as [[|u us] [|d ds]]; simpl; try done; simpl in *.
    + apply (admits_terms {| vis_user_ids := []; vis_dataset_ids := d :: ds |} row [] [d :: ds]); simpl; by rewrite ?app_nil_r.
    + apply (admits_terms {| vis_user_ids := u :: us; vis_dataset_ids := [] |} row [u :: us] []); simpl; by rewrite ?app_nil_r.
    + apply (admits_terms {| vis_user_ids := u :: us; vis_dataset_ids := d :: ds |} row [u :: us] [d :: ds]); simpl; by rewrite ?app_nil_r.
  - destruct (N.ltb_spec LIST_RUNS_CHUNKED_WINDOW (N.min (q_offset q + q_limit q) u64_MAX)) as [Hw|Hw].
    + right. eexists v, _. split_and!; [done..|lia|lia].
    + left. f_equal.
      assert (Hwin : N.min (q_offset q + q_limit q) u64_MAX = (q_offset q + q_limit q)%N).
      { unfold LIST_RUNS_CHUNKED_WINDOW, u64_MAX in *. lia. }
      rewrite Hwin. unfold page. rewrite !take_drop_commute. f_equal.
      rewrite <-N2Nat.inj_add.
      apply (merged_page q v); [done..|]. intros row. apply admits_terms; apply chunks_concat.
Qed.

(** ** Closing an abandoned run *)

Section latest.
Context `{SqlOrderLaws}.

(** The latest row of a run is one of its rows, and none is later. *)
Lemma get_pipeline_run_some run_id db r :
  get_pipeline_run run_id db = Some r →
  r ∈ pd_runs db ∧ pr_pipeline_run_id r = run_id
  ∧ ∀ r', r' ∈ pd_runs db → pr_pipeline_run_id r' = run_id → (pr_created_at r' ≤ pr_created_at r)%Z.
Proof.
  unfold get_pipeline_run. set (l := filter (λ r, pr_pipeline_run_id r = run_id) (pd_runs db)).
  intros Hh. assert (Hin : ∀ x, x ∈ by_created_desc l ↔ pr_pipeline_run_id x = run_id ∧ x ∈ pd_runs db).
  { intros x. rewrite by_created_desc_perm. unfold l. by rewrite list_elem_of_filter. }
  pose proof (by_created_desc_sorted l) as Hs.
  destruct (by_created_desc l) as [|y k]; [done|]. simpl in Hh. injection Hh as ->.
  destruct (proj1 (Hin r) ltac:(by left)) as [Hr1 Hr2]. split_and!; [done..|].
  intros r' Hr' Hrun. inversion Hs as [|?? _ Hall]; subst. rewrite Forall_forall in Hall.
  pose proof (proj2 (Hin r') (conj Hrun Hr')) as Hk.
  apply elem_of_cons in Hk as [->|Hk]; [lia|]. by apply Hall.
Qed.

(** A row written after every other row of its run is the run's latest. *)
Lemma get_pipeline_run_new db r runs :
  pd_runs db = runs ++ [r] →
  Forall (λ r', pr_pipeline_run_id r' = pr_pipeline_run_id r → (pr_created_at r' < pr_created_at r)%Z) runs →
  get_pipeline_run (pr_pipeline_run_id r) db = Some r.
Proof.
  intros Hdb Hold. destruct (get_pipeline_run (pr_pipeline_run_id r) db) as [r'|] eqn:E.
  - apply get_pipeline_run_some in E as (Hin & Hrun & Hmax).
    rewrite Hdb in Hin, Hmax. apply elem_of_app in Hin as [Hin|Hin%list_elem_of_singleton]; [|by subst].
    rewrite Forall_forall in Hold. specialize (Hold r' Hin Hrun).
    specialize (Hmax r ltac:(apply elem_of_app; right; by left) eq_refl). lia.
  - exfalso. unfold get_pipeline_run in E. apply head_None in E.
    assert (Hin : r ∈ by_created_desc (filter (λ r', pr_pipeline_run_id r' = pr_pipeline_run_id r) (pd_runs db))).
    { rewrite by_created_desc_perm. apply list_elem_of_filter. split; [done|]. rewrite Hdb.
      apply elem_of_app. right. by left. }
    rewrite E in Hin. by inversion Hin.
Qed.

(** The row [reset_orphan_run] writes. *)
Definition closing_row (row_id : uuid) (now : Z) (reason : string) (latest : PipelineRun) : PipelineRun := {|
  pr_id := row_id; pr_created_at := now; pr_status := DbErrored;
  pr_pipeline_run_id := pr_pipeline_run_id latest; pr_pipeline_name := pr_pipeline_name latest;
  pr_pipeline_id := pr_pipeline_id latest; pr_dataset_id := pr_dataset_id latest;
  pr_run_info := Some (sanitize_json (JObject {["error" := JString reason]}));
  pr_user_id := pr_user_id latest |}.

(** What [reset_orphan_run] does on a table with distinct ids. *)
Lemma reset_orphan_run_spec row_id now dataset_id name run_row_id reason db observed :
  NoDup (map pr_id (pd_runs db)) → observed ∈ pd_runs db → pr_id observed = run_row_id →
  let '(db', reset) := reset_orphan_run row_id now dataset_id name run_row_id reason db in
  (reset = true ↔ pr_dataset_id observed = Some dataset_id ∧ pr_pipeline_name observed = name
     ∧ get_pipeline_run (pr_pipeline_run_id observed) db = Some observed
     ∧ in_flight (pr_status observed) = true)
  ∧ pd_runs db' = pd_runs db ++ (if reset then [closing_row row_id now reason observed] else [])
  ∧ (reset = true → Forall (λ r, pr_pipeline_run_id r = pr_pipeline_run_id observed → (pr_created_at r < now)%Z) (pd_runs db) →
     get_pipeline_run (pr_pipeline_run_id observed) db' = Some (closing_row row_id now reason observed)).
Proof.
  intros Hnd Hobs Hid. unfold reset_orphan_run.
  assert (Huniq : ∀ r, r ∈ pd_runs db → pr_id r = run_row_id → r = observed).
  { intros r Hr Hrid. apply list_elem_of_lookup in Hr as [i Hi], Hobs as [j Hj].
    assert (i = j) as ->; [|congruence].
    eapply (NoDup_lookup (map pr_id (pd_runs db))); [done|..]; rewrite list_lookup_fmap;
      [by rewrite Hi|by rewrite Hj; simpl; rewrite Hid, Hrid]. }
  destruct (filter (λ r, pr_id r = run_row_id) (pd_runs db)) as [|o l] eqn:Hf; simpl.
  { exfalso. assert (Hin : observed ∈ filter (λ r, pr_id r = run_row_id) (pd_runs db))
      by by apply list_elem_of_filter. rewrite Hf in Hin. by inversion Hin. }
  assert (o = observed) as ->.
  { assert (Hin : o ∈ filter (λ r, pr_id r = run_row_id) (pd_runs db)) by (rewrite Hf; by left).
    apply list_elem_of_filter in Hin as [? ?]. by apply Huniq. }
  case_decide as Hmatch.
  { rewrite app_nil_r. split_and!; [split; [done|]|done|done]. intros (? & ? & _). tauto. }
  destruct (get_pipeline_run (pr_pipeline_run_id observed) db) as [latest|] eqn:Hlatest.
  2:{ rewrite app_nil_r. split_and!; [split; [done|naive_solver]|done|done]. }
  destruct (get_pipeline_run_some _ _ _ Hlatest) as (Hlin & Hlrun & _).
  case_decide as Hlid.
  { rewrite app_nil_r. split_and!; [split; [done|]|done|done]. intros (_ & _ & [= ->] & _). done. }
  assert (latest = observed) as -> by (apply Huniq; [done|]; destruct (decide (pr_id latest = run_row_id)); tauto).
  destruct (in_flight (pr_status observed)) eqn:Hfl; simpl.
  2:{ rewrite app_nil_r. split_and!; [split; [done|naive_solver]|done|done]. }
  split_and!; [|done|].
  - split; [|done]. intros _. split_and!; try done.
    + destruct (decide (pr_dataset_id observed = Some dataset_id)); tauto.
    + destruct (decide (pr_pipeline_name observed = name)); tauto.
  - intros _ Hold.
    apply (get_pipeline_run_new _ (closing_row row_id now reason observed) (pd_runs db)); [done|].
    eapply Forall_impl; [exact Hold|]. done.
Qed.

(** Closing an abandoned run.  [reset_orphan_run] answers true exactly when
    the observed row is the latest row of its own run, in flight, of that dataset
    and pipeline; it then appends one [ERRORED] row of that run, which is the run's
    latest from then on (as long as time moves forward), and otherwise it writes
    nothing. *)
Theorem reset_orphan_run_closes row_id now dataset_id name run_row_id reason db observed :
  NoDup (map pr_id (pd_runs db)) → observed ∈ pd_runs db → pr_id observed = run_row_id →
  let '(db', reset) := reset_orphan_run row_id now dataset_id name run_row_id reason db in
  (reset = true ↔ pr_dataset_id observed = Some dataset_id ∧ pr_pipeline_name observed = name
     ∧ get_pipeline_run (pr_pipeline_run_id observed) db = Some observed
     ∧ in_flight (pr_status observed) = true)
  ∧ pd_runs db' = pd_runs db ++ (if reset then [closing_row row_id now reason observed] else [])
  ∧ (reset = true → Forall (λ r, pr_pipeline_run_id r = pr_pipeline_run_id observed → (pr_created_at r < now)%Z) (pd_runs db) →
     get_pipeline_run (pr_pipeline_run_id observed) db' = Some (closing_row row_id now reason observed)).
Proof. apply reset_orphan_run_spec. Qed.
End latest.

(** ** Witnesses *)

(** A sort by time, later rows first. *)
Definition not_older (a b : PipelineRun) : Prop := (pr_created_at b ≤ pr_created_at a)%Z.

#[export] Instance not_older_dec a b : Decision (not_older a b).
Proof. unfold not_older. apply _. Defined.

Definition example_order : SqlOrder := {| by_created_desc := merge_sort not_older |}.

Lemma example_order_laws : @SqlOrderLaws example_order.
Proof.
  split; simpl.
  - intros l. apply merge_sort_Permutation.
  - intros l. assert (Transitive not_older) by (intros ???; unfold not_older; lia).
    assert (Total not_older) by (intros ??; unfold not_older; lia).
    apply (StronglySorted_merge_sort not_older).
Qed.

Definition example_run (id : uuid) (at_ : Z) (status : DbStatus) (run : uuid) : PipelineRun := {|
  pr_id := id; pr_created_at := at_; pr_status := status; pr_pipeline_run_id := run;
  pr_pipeline_name := "cognify_pipeline"; pr_pipeline_id := 1%N; pr_dataset_id := Some 8%N;
  pr_run_info := None; pr_user_id := Some 5%N |}.

Definition example_db : pipeline_db := {|
  pd_runs := [example_run 1 10 DbStarted 70; example_run 2 20 DbStarted 71; example_run 3 30 DbCompleted 71]%N%Z;
  pd_datasets := {[8%N := ("notes", 5%N)]} |}.

(** Two user ids and one dataset id, one bind per statement: the chunked path. *)
Definition example_query : PipelineRunListQuery := {|
  q_dataset_id := None; q_pipeline_name := None;
  q_visibility := Some {| vis_user_ids := [4; 5]%N; vis_dataset_ids := [8%N] |};
  q_limit := 1; q_offset := 1 |}.

Lemma list_runs_pages_witness :
  list_runs 1 example_query example_db = Ok (page example_query example_db)
  ∧ map ra_id (page example_query example_db) = [2%N].
Proof.
  destruct (list_runs_pages 1 example_query example_db) as [H|(v & e & _ & _ & _ & H)].
  - lia.
  - vm_compute. repeat constructor; set_solver.
  - split; [exact H|]. vm_compute. reflexivity.
  - vm_compute in H. discriminate.
Defined.

Lemma reset_orphan_run_closes_witness :
  let '(db', reset) := @reset_orphan_run example_order 9%N 40%Z 8%N "cognify_pipeline" 1%N "abandoned" example_db in
  reset = true ∧ length (pd_runs db') = 4.
Proof.
  pose proof (@reset_orphan_run_closes example_order example_order_laws 9%N 40%Z 8%N "cognify_pipeline" 1%N
    "abandoned" example_db (example_run 1 10 DbStarted 70)) as H.
  destruct (@reset_orphan_run example_order 9%N 40%Z 8%N "cognify_pipeline" 1%N "abandoned" example_db)
    as [db' reset].
  destruct H as (Hr & Hrows & _).
  - vm_compute. repeat constructor; set_solver.
  - by left.
  - reflexivity.
  - assert (Hreset : reset = true) by (apply Hr; split_and!; vm_compute; reflexivity).
    split; [exact Hreset|]. rewrite Hrows, Hreset. reflexivity.
Defined.
