(* ===== verification/Recovery.v ===== *)
(** * Run ownership and startup recovery
    (crates/core/src/run_ownership.rs, crates/delete/src/startup_recovery.rs)

    The ownership markers on disk with their OS locks, the handles that hold them,
    and the pass that closes the runs a dead process left behind. *)

From S2P Require Import Prelude Json Pipeline RunRecords PipelineRuns.
From S2P Require Import Strings Ledger Artifacts Sweep.

(** ** Ownership markers

    The marker directory: for every token whose [owner.lock] exists, whether some
    process holds its OS lock. *)
Notation markers := (gmap uuid bool) (only parsing).

(** [own_dir] is the marker's directory, by the token that names it; [own_file]
    says whether the lock file is open, and so locked. *)
Record RunOwnership := {
  own_token : option uuid;
  own_dir : option uuid;
  own_file : bool;
  own_closed : bool;
}.

(** [RunOwnership::none] *)
Definition own_none : RunOwnership :=
  {| own_token := None; own_dir := None; own_file := false; own_closed := false |}.

Definition own_held (token : uuid) : RunOwnership :=
  {| own_token := Some token; own_dir := Some token; own_file := true; own_closed := false |}.

(** [RunOwnership::acquire]; [token] is the [Uuid::new_v4()], [io] says whether
    the directory and the file could be created and locked. *)
Definition own_acquire (token : uuid) (io : bool) (m : markers) : markers * RunOwnership :=
  if io then (<[token := true]> m, own_held token) else (delete token m, own_none).

(** [RunOwnership::claim] *)
Definition own_claim (token : uuid) (m : markers) : markers * option RunOwnership :=
  match m !! token with
  | Some false => (<[token := true]> m, Some (own_held token))
  | Some true | None => (m, None)
  end.

(** [RunOwnership::mark_closed] *)
Definition own_mark_closed (o : RunOwnership) : RunOwnership :=
  {| own_token := own_token o; own_dir := own_dir o; own_file := own_file o; own_closed := true |}.

(** The OS lock of a handle goes when its file is closed, by [drop] or by the
    death of the process. *)
Definition own_release (o : RunOwnership) (m : markers) : markers :=
  match own_dir o with
  | Some d => if own_file o then alter (λ _, false) d m else m
  | None => m
  end.

(** [Drop for RunOwnership] *)
Definition own_drop (o : RunOwnership) (m : markers) : markers :=
  let m := own_release o m in
  if own_closed o then match own_dir o with Some d => delete d m | None => m end else m.

(** ** Lives of handles

    What processes do with markers.  A handle is known by its index; [None] is one
    that is gone. *)
Inductive own_op :=
  | OwnAcquire (token : uuid) (io : bool)
  | OwnClaim (token : uuid)
  | OwnMarkClosed (i : nat)
  | OwnDrop (i : nat)
  | OwnDeath (i : nat).

Record own_state := { os_markers : markers; os_handles : list (option RunOwnership) }.

Definition own_step (o : own_op) (s : own_state) : own_state :=
  match o with
  | OwnAcquire token io =>
      let '(m, h) := own_acquire token io (os_markers s) in
      {| os_markers := m; os_handles := os_handles s ++ [Some h] |}
  | OwnClaim token =>
      let '(m, h) := own_claim token (os_markers s) in
      {| os_markers := m; os_handles := os_handles s ++ [h] |}
  | OwnMarkClosed i =>
      {| os_markers := os_markers s;
         os_handles := alter (fmap own_mark_closed) i (os_handles s) |}
  | OwnDrop i =>
      match os_handles s !! i with
      | Some (Some h) =>
          {| os_markers := own_drop h (os_markers s); os_handles := <[i := None]> (os_handles s) |}
      | _ => s
      end
  | OwnDeath i =>
      match os_handles s !! i with
      | Some (Some h) =>
          {| os_markers := own_release h (os_markers s); os_handles := <[i := None]> (os_handles s) |}
      | _ => s
      end
  end.

(** ** Startup recovery *)

Definition COGNIFY_PIPELINE_NAME : string := "cognify_pipeline".

Definition ABANDONED_RUN_ERROR : string :=
  "AbandonedPipelineRunError: Pipeline run was abandoned: its process stopped before the run finished. Startup recovery rolled the run back; re-run the pipeline. (Status code: 500)".

(** In milliseconds. *)
Definition DEFAULT_STALE_RUN_MIN_AGE : Z := 3600 * 1000.

Record RecoveryReport := {
  rp_candidates : nat;
  rp_recovered : nat;
  rp_skipped_young : nat;
  rp_skipped_dataset_locked : nat;
  rp_skipped_unverifiable : nat;
  rp_already_terminal : nat;
  rp_skipped_missing_dataset : nat;
  rp_failed : nat;
  rp_graph_nodes_deleted : nat;
  rp_vector_points_deleted : nat;
}.

Definition RecoveryReport_default : RecoveryReport :=
  {| rp_candidates := 0; rp_recovered := 0; rp_skipped_young := 0; rp_skipped_dataset_locked := 0;
     rp_skipped_unverifiable := 0; rp_already_terminal := 0; rp_skipped_missing_dataset := 0;
     rp_failed := 0; rp_graph_nodes_deleted := 0; rp_vector_points_deleted := 0 |}.

(** The counter a candidate ends in. *)
Inductive recovery_end :=
  | Recovered
  | SkippedYoung
  | SkippedDatasetLocked
  | SkippedUnverifiable
  | AlreadyTerminal
  | SkippedMissingDataset
  | Failed.

Definition count_end (e : recovery_end) (r : RecoveryReport) : RecoveryReport := {|
  rp_candidates := rp_candidates r;
  rp_recovered := match e with Recovered => S (rp_recovered r) | _ => rp_recovered r end;
  rp_skipped_young := match e with SkippedYoung => S (rp_skipped_young r) | _ => rp_skipped_young r end;
  rp_skipped_dataset_locked := match e with SkippedDatasetLocked => S (rp_skipped_dataset_locked r)
                                          | _ => rp_skipped_dataset_locked r end;
  rp_skipped_unverifiable := match e with SkippedUnverifiable => S (rp_skipped_unverifiable r)
                                        | _ => rp_skipped_unverifiable r end;
  rp_already_terminal := match e with AlreadyTerminal => S (rp_already_terminal r) | _ => rp_already_terminal r end;
  rp_skipped_missing_dataset := match e with SkippedMissingDataset => S (rp_skipped_missing_dataset r)
                                           | _ => rp_skipped_missing_dataset r end;
  rp_failed := match e with Failed => S (rp_failed r) | _ => rp_failed r end;
  rp_graph_nodes_deleted := rp_graph_nodes_deleted r;
  rp_vector_points_deleted := rp_vector_points_deleted r |}.

Definition count_sweep (o : SweepOutcome) (r : RecoveryReport) : RecoveryReport := {|
  rp_candidates := rp_candidates r; rp_recovered := rp_recovered r;
  rp_skipped_young := rp_skipped_young r; rp_skipped_dataset_locked := rp_skipped_dataset_locked r;
  rp_skipped_unverifiable := rp_skipped_unverifiable r; rp_already_terminal := rp_already_terminal r;
  rp_skipped_missing_dataset := rp_skipped_missing_dataset r; rp_failed := rp_failed r;
  rp_graph_nodes_deleted := rp_graph_nodes_deleted r + sw_graph_nodes_deleted o;
  rp_vector_points_deleted := rp_vector_points_deleted r + sw_vector_points_deleted o |}.

(** What a pass finds around it: the clock and the cutoff, the datasets whose lock
    a run of this process holds, the answers of the database for each run, the calls
    that fail while a run is swept, and the [Uuid::new_v4()] of a row it writes, given
    those in use. *)
Record recovery_env := {
  re_now : Z;
  re_cutoff : Z;
  re_locked : gset uuid;
  re_get : uuid → result string unit;
  re_dataset : uuid → result string bool;
  re_plan : uuid → list (option failure);
  re_reset : uuid → result string unit;
  re_row_id : list uuid → uuid;
}.

(** [cutoff]: [min_age] before now, unless that cannot be represented. *)
Definition recovery_cutoff (MIN_UTC now min_age : Z) : Z :=
  if (min_age <=? 2 ^ 63 - 1)%Z && (MIN_UTC <=? now - min_age)%Z then now - min_age else MIN_UTC.

(** The world of a pass: the table, the markers, the stores a sweep works on, and the
    sweeps made, latest last. *)
Record recovery_world := {
  rw_db : pipeline_db;
  rw_markers : markers;
  rw_stores : stores;
  rw_sweeps : list (uuid * uuid);
}.

Section recovery.
Context `{SqlOrder, UuidFormat, SerdeJson, Lowercase} (new_v5 : uuid → string → uuid)
  (parse_str : string → option uuid).

(** The recovery of a run whose marker is claimed, up to the drop of the claim:
    whether the marker may be closed, and the end. *)
Definition recover_claimed (env : recovery_env) (dataset_id run_id : uuid) (w : recovery_world)
    (report : RecoveryReport) : recovery_world * RecoveryReport * bool :=
  match re_get env run_id with
  | Err _ => (w, count_end Failed report, false)
  | Ok _ =>
      match get_pipeline_run run_id (rw_db w) with
      | None => (w, count_end AlreadyTerminal report, true)
      | Some current =>
          if decide (pr_status current ≠ DbStarted) then (w, count_end AlreadyTerminal report, true)
          else
            match re_dataset env dataset_id with
            | Ok false => (w, count_end SkippedMissingDataset report, false)
            | Err _ => (w, count_end Failed report, false)
            | Ok true =>
                let '(w, report, swept) :=
                  if decide (pr_pipeline_name current = COGNIFY_PIPELINE_NAME) then
                    let '(outcome, stores) :=
                      sweep_logging_failure new_v5 (re_now env) (whole_run (pr_pipeline_run_id current) dataset_id)
                        (re_plan env (pr_pipeline_run_id current)) (rw_stores w) in
                    ({| rw_db := rw_db w; rw_markers := rw_markers w; rw_stores := stores;
                        rw_sweeps := rw_sweeps w ++ [(pr_pipeline_run_id current, dataset_id)] |},
                     count_sweep outcome report,
                     match sw_warnings outcome with [] => true | _ => false end)
                  else (w, report, true) in
                if negb swept then (w, count_end Failed report, false)
                else
                  match re_reset env (pr_id current) with
                  | Err _ => (w, count_end Failed report, false)
                  | Ok _ =>
                      let '(db, reset) := reset_orphan_run (re_row_id env (map pr_id (pd_runs (rw_db w)))) (re_now env)
                        dataset_id (pr_pipeline_name current) (pr_id current) ABANDONED_RUN_ERROR (rw_db w) in
                      ({| rw_db := db; rw_markers := rw_markers w; rw_stores := rw_stores w;
                          rw_sweeps := rw_sweeps w |},
                       count_end (if reset then Recovered else AlreadyTerminal) report, true)
                  end
            end
      end
  end.

(** The body of the loop over the candidates. *)
Definition recover_one (env : recovery_env) (st : recovery_world * RecoveryReport) (candidate : PipelineRun)
    : recovery_world * RecoveryReport :=
  let '(w, report) := st in
  if (re_cutoff env <? pr_created_at candidate)%Z then (w, count_end SkippedYoung report)
  else
    match pr_dataset_id candidate with
    | None => (w, count_end SkippedUnverifiable report)
    | Some dataset_id =>
        if decide (dataset_id ∈ re_locked env) then (w, count_end SkippedDatasetLocked report)
        else
          match recovery_lock_of parse_str (pr_run_info candidate) with
          | None => (w, count_end SkippedUnverifiable report)
          | Some token =>
              match own_claim token (rw_markers w) with
              | (_, None) => (w, count_end SkippedUnverifiable report)
              | (m, Some ownership) =>
                  let w := {| rw_db := rw_db w; rw_markers := m; rw_stores := rw_stores w; rw_sweeps := rw_sweeps w |} in
                  let '(w, report, close) :=
                    recover_claimed env dataset_id (pr_pipeline_run_id candidate) w report in
                  let ownership := if close then own_mark_closed ownership else ownership in
                  ({| rw_db := rw_db w; rw_markers := own_drop ownership (rw_markers w);
                      rw_stores := rw_stores w; rw_sweeps := rw_sweeps w |}, report)
              end
          end
    end.

(** [recover_stale_pipeline_runs]; [listed] says whether the candidates could be
    listed. *)
Definition recover_stale_pipeline_runs (env : recovery_env) (listed : bool) (w : recovery_world)
    : recovery_world * RecoveryReport :=
  if negb listed then (w, RecoveryReport_default)
  else
    let candidates := list_unterminated_runs (rw_db w) in
    let r := RecoveryReport_default in
    foldl (recover_one env)
      (w, {| rp_candidates := length candidates; rp_recovered := rp_recovered r;
             rp_skipped_young := rp_skipped_young r;
             rp_skipped_dataset_locked := rp_skipped_dataset_locked r;
             rp_skipped_unverifiable := rp_skipped_unverifiable r;
             rp_already_terminal := rp_already_terminal r;
             rp_skipped_missing_dataset := rp_skipped_missing_dataset r;
             rp_failed := rp_failed r;
             rp_graph_nodes_deleted := rp_graph_nodes_deleted r;
             rp_vector_points_deleted := rp_vector_points_deleted r |})
      candidates.
End recovery.
