(* ===== verification/RecoveryFacts.v ===== *)
(** * Properties of run ownership and startup recovery

    A marker is claimed only when its writer is gone; a recovery pass leaves live
    and unverifiable runs alone, closes the abandoned ones and counts every
    candidate once. *)

From S2P Require Import Prelude Json Pipeline RunRecords PipelineRuns PipelineRunsFacts.
From S2P Require Import Strings Markers Ledger LedgerFacts Artifacts Sweep SweepFacts SweepSpec Recovery.

(** ** Ownership *)

(** Handle [i] holds the marker of [token]. *)
Definition holds_marker (s : own_state) (i : nat) (token : uuid) : Prop :=
  ∃ h, os_handles s !! i = Some (Some h) ∧ own_dir h = Some token.

(** The handles processes can come by: what [acquire] draws is a fresh token. *)
Inductive own_reachable : own_state → Prop :=
  | own_init m : map_Forall (λ _ locked, locked = false) m →
      own_reachable {| os_markers := m; os_handles := [] |}
  | own_next s o : own_reachable s →
      (∀ token io, o = OwnAcquire token io →
         os_markers s !! token = None ∧ ∀ i, ¬ holds_marker s i token) →
      own_reachable (own_step o s).

Record own_ok (s : own_state) : Prop := {
  oo_file : ∀ i h t, os_handles s !! i = Some (Some h) → own_dir h = Some t → own_file h = true;
  oo_locked : ∀ i t, holds_marker s i t → os_markers s !! t = Some true;
  oo_unique : ∀ i j t, holds_marker s i t → holds_marker s j t → i = j;
}.

(** A new handle. *)
Lemma own_ok_add s m' h :
  own_ok s →
  (∀ t, (∃ i, holds_marker s i t) → m' !! t = Some true) →
  match h with
  | Some h0 => match own_dir h0 with
               | Some t => own_file h0 = true ∧ m' !! t = Some true ∧ ∀ i, ¬ holds_marker s i t
               | None => True
               end
  | None => True
  end →
  own_ok {| os_markers := m'; os_handles := os_handles s ++ [h] |}.
Proof.
  intros [Hf Hl Hu] Hm Hh.
  assert (Hnew : ∀ i h0, (os_handles s ++ [h]) !! i = Some (Some h0) →
    os_handles s !! i = Some (Some h0) ∨ (i = length (os_handles s) ∧ h = Some h0)).
  { intros i h0 Hi. apply lookup_app_Some in Hi as [Hi|[Hle Hi]]; [by left|right].
    apply list_lookup_singleton_Some in Hi as [Hz ->]. split; [lia|done]. }
  split; simpl.
  - intros i h0 t Hi Ht. destruct (Hnew i h0 Hi) as [Hi'|[_ ->]]; [by eapply Hf|].
    rewrite Ht in Hh. apply Hh.
  - intros i t (h0 & Hi & Ht). simpl in Hi. destruct (Hnew i h0 Hi) as [Hi'|[_ ->]].
    + apply Hm. exists i, h0. done.
    + rewrite Ht in Hh. apply Hh.
  - intros i j t (h1 & Hi & Ht1) (h2 & Hj & Ht2). simpl in Hi, Hj.
    destruct (Hnew i h1 Hi) as [Hi'|[-> ->]], (Hnew j h2 Hj) as [Hj'|[-> E]]; [|..|done].
    + apply (Hu i j t); [by exists h1|by exists h2].
    + subst. rewrite Ht2 in Hh. destruct Hh as (_ & _ & Hno). exfalso. apply (Hno i). by exists h1.
    + rewrite Ht1 in Hh. destruct Hh as (_ & _ & Hno). exfalso. apply (Hno j). by exists h2.
Qed.

(** A handle that goes, with whatever becomes of its own marker. *)
Lemma own_ok_gone s m' i h :
  own_ok s → os_handles s !! i = Some (Some h) →
  (∀ t, own_dir h ≠ Some t → m' !! t = os_markers s !! t) →
  own_ok {| os_markers := m'; os_handles := <[i := None]> (os_handles s) |}.
Proof.
  intros [Hf Hl Hu] Hi Hm.
  assert (Hrest : ∀ j t, holds_marker {| os_markers := m'; os_handles := <[i := None]> (os_handles s) |} j t →
    j ≠ i ∧ holds_marker s j t).
  { intros j t (h0 & Hj & Ht). simpl in Hj. destruct (decide (j = i)) as [->|Hne].
    - rewrite list_lookup_insert_eq in Hj; [done|]. by eapply lookup_lt_Some.
    - rewrite list_lookup_insert_ne in Hj by done. split; [done|]. by exists h0. }
  split; simpl.
  - intros j h0 t Hj Ht. destruct (Hrest j t) as [_ (h1 & Hj1 & Ht1)]; [by exists h0|].
    destruct (decide (j = i)) as [->|Hne].
    + rewrite list_lookup_insert_eq in Hj; [done|]. by eapply lookup_lt_Some.
    + rewrite list_lookup_insert_ne in Hj by done. by eapply Hf.
  - intros j t Hj. destruct (Hrest j t Hj) as [Hne Hj']. rewrite Hm; [by eapply Hl|].
    intros Ht. apply Hne. apply (Hu j i t); [done|by exists h].
  - intros j k t Hj Hk. destruct (Hrest j t Hj), (Hrest k t Hk). by apply (Hu j k t).
Qed.

Lemma own_release_other h m t : own_dir h ≠ Some t → own_release h m !! t = m !! t.
Proof.
  intros Ht. unfold own_release. destruct (own_dir h) as [d|]; [|done].
  destruct (own_file h); [|done]. rewrite lookup_alter_ne; [done|]. congruence.
Qed.

Lemma own_drop_other h m t : own_dir h ≠ Some t → own_drop h m !! t = m !! t.
Proof.
  intros Ht. unfold own_drop. destruct (own_closed h); [|by apply own_release_other].
  destruct (own_dir h) as [d|] eqn:Hd; [|apply own_release_other; congruence].
  rewrite lookup_delete_ne by congruence. apply own_release_other. congruence.
Qed.

Lemma own_reachable_ok s : own_reachable s → own_ok s.
Proof.
  induction 1 as [m Hm|s o Hs IH Hfresh].
  { split; simpl; [done|..]; intros i; [intros t (h & Hh & _)|intros j t (h & Hh & _)]; done. }
  pose proof (oo_locked _ IH) as Hl. destruct o as [token io|token|i|i|i]; simpl.
  - destruct (Hfresh token io eq_refl) as [Hm Hno]. unfold own_acquire. destruct io.
    + apply own_ok_add; [done| |].
      * intros t [i Hi]. rewrite lookup_insert_ne; [by eapply Hl|]. intros ->. by apply (Hno i).
      * simpl. by rewrite lookup_insert_eq.
    + apply own_ok_add; [done| |done].
      intros t [i Hi]. rewrite lookup_delete_ne; [by eapply Hl|]. intros ->. by apply (Hno i).
  - unfold own_claim. destruct (os_markers s !! token) as [[|]|] eqn:Hm.
    + apply own_ok_add; [done| |done]. intros t [i Hi]. by eapply Hl.
    + assert (Hno : ∀ i, ¬ holds_marker s i token) by (intros i Hi%Hl; congruence).
      apply own_ok_add; [done| |].
      * intros t [i Hi]. rewrite lookup_insert_ne; [by eapply Hl|]. intros ->. by apply (Hno i).
      * simpl. by rewrite lookup_insert_eq.
    + apply own_ok_add; [done| |done]. intros t [i Hi]. by eapply Hl.
  - assert (Hsame : ∀ j t, holds_marker {| os_markers := os_markers s;
      os_handles := alter (fmap own_mark_closed) i (os_handles s) |} j t → holds_marker s j t).
    { intros j t (h & Hj & Ht). simpl in Hj. destruct (decide (i = j)) as [->|Hne].
      - rewrite list_lookup_alter_eq in Hj. apply fmap_Some in Hj as ([h0|] & Hh0 & E); [|done].
        simplify_eq/=. by exists h0.
      - rewrite list_lookup_alter_ne in Hj by done. by exists h. }
    split; simpl.
    + intros j h t Hj Ht. destruct (decide (i = j)) as [->|Hne].
      * rewrite list_lookup_alter_eq in Hj. apply fmap_Some in Hj as ([h0|] & Hh0 & E); [|done].
        simplify_eq/=. by eapply (oo_file _ IH).
      * rewrite list_lookup_alter_ne in Hj by done. by eapply (oo_file _ IH).
    + intros j t Hj%Hsame. by eapply Hl.
    + intros j k t Hj%Hsame Hk%Hsame. by eapply (oo_unique _ IH).
  - destruct (os_handles s !! i) as [[h|]|] eqn:Hi; [|done..].
    apply (own_ok_gone s _ i h); [done..|]. intros t Ht. by apply own_drop_other.
  - destruct (os_handles s !! i) as [[h|]|] eqn:Hi; [|done..].
    apply (own_ok_gone s _ i h); [done..|]. intros t Ht. by apply own_release_other.
Qed.

(** C16: a claim proves its run abandoned.  However handles are taken, claimed,
    closed, dropped or lost with their process, a marker has at most one live
    holder; while it has one no claim succeeds, and once its process is dead a claim
    does. *)
Theorem claim_proves_abandoned s token :
  own_reachable s →
  (∀ i j, holds_marker s i token → holds_marker s j token → i = j)
  ∧ (∀ i, holds_marker s i token → (own_claim token (os_markers s)).2 = None)
  ∧ (∀ i, holds_marker s i token → is_Some (own_claim token (os_markers (own_step (OwnDeath i) s))).2).
Proof.
  intros Hs%own_reachable_ok. split_and!.
  - intros i j. apply (oo_unique _ Hs).
  - intros i Hi%(oo_locked _ Hs). unfold own_claim. by rewrite Hi.
  - intros i Hi. pose proof (oo_locked _ Hs i token Hi) as Hm. destruct Hi as (h & Hi & Ht).
    simpl. rewrite Hi. simpl. unfold own_release. rewrite Ht, (oo_file _ Hs i h token Hi Ht).
    unfold own_claim. rewrite lookup_alter_eq, Hm. simpl. by eauto.
Qed.

(** ** One candidate *)

Section recovery.
Context `{SqlOrderLaws, UuidFormat, SerdeJson, Lowercase}
  (new_v5 : uuid → string → uuid) (parse_str : string → option uuid).
Notation recover_one := (recover_one new_v5 parse_str).
Notation recover_claimed := (recover_claimed new_v5).
#[local] Arguments Recovery.recover_one : simpl never.

(** Every candidate is counted once. *)
Definition counted (r : RecoveryReport) : nat :=
  rp_recovered r + rp_skipped_young r + rp_skipped_dataset_locked r + rp_skipped_unverifiable r
  + rp_already_terminal r + rp_skipped_missing_dataset r + rp_failed r.

Lemma counted_end e r : counted (count_end e r) = S (counted r).
Proof. destruct e; unfold counted; simpl; lia. Qed.

Lemma counted_sweep o r : counted (count_sweep o r) = counted r.
Proof. done. Qed.

Ltac count := cbv beta iota zeta; cbn [snd]; split; [by rewrite counted_end, ?counted_sweep|done].

Lemma recover_claimed_counted env d run w r :
  let '(_, r', _) := recover_claimed env d run w r in
  counted r' = S (counted r) ∧ rp_candidates r' = rp_candidates r.
Proof.
  unfold recover_claimed. destruct (re_get env run); [|count].
  destruct (get_pipeline_run run (rw_db w)) as [current|]; [|count].
  case_decide; [count|]. destruct (re_dataset env d) as [[|]|]; [|count..].
  case_decide; simpl.
  - destruct (sweep_logging_failure _ _ _ _ _) as [outcome stores].
    destruct (sw_warnings _); simpl; [|count].
    destruct (re_reset env (pr_id current)); [|count].
    destruct (reset_orphan_run _ _ _ _ _ _ _) as [db reset]. count.
  - destruct (re_reset env (pr_id current)); [|count].
    destruct (reset_orphan_run _ _ _ _ _ _ _) as [db reset]. count.
Qed.

Lemma recover_one_counted env st c :
  counted (recover_one env st c).2 = S (counted st.2)
  ∧ rp_candidates (recover_one env st c).2 = rp_candidates st.2.
Proof.
  destruct st as [w r]. unfold Recovery.recover_one. destruct (_ <? _)%Z; [count|].
  destruct (pr_dataset_id c) as [d|]; [|count].
  case_decide; [count|].
  destruct (recovery_lock_of parse_str (pr_run_info c)) as [token|]; [|count].
  destruct (own_claim token (rw_markers w)) as [m [o|]]; [|count].
  pose proof (recover_claimed_counted env d (pr_pipeline_run_id c)
    {| rw_db := rw_db w; rw_markers := m; rw_stores := rw_stores w; rw_sweeps := rw_sweeps w |} r) as Hc.
  destruct (recover_claimed _ _ _ _ _) as [[w' r'] close]. simpl. done.
Qed.

(** The report adds up: whatever the database, the markers and the sweeper
    answer, every candidate of a pass ends in exactly one counter. *)
Theorem recovery_report_adds_up env listed w :
  let r := (recover_stale_pipeline_runs new_v5 parse_str env listed w).2 in
  rp_candidates r = counted r
  ∧ (listed = true → rp_candidates r = length (list_unterminated_runs (rw_db w))).
Proof.
  unfold recover_stale_pipeline_runs. destruct listed; [|done]. simpl.
  set (r0 := {| rp_candidates := length (list_unterminated_runs (rw_db w)) |}).
  assert (Hfold : ∀ cs st, counted (foldl (recover_one env) st cs).2 = counted st.2 + length cs
    ∧ rp_candidates (foldl (recover_one env) st cs).2 = rp_candidates st.2).
  { intros cs. induction cs as [|c cs IH]; intros st; simpl; [lia|].
    destruct (IH (recover_one env st c)) as [-> ->].
    destruct (recover_one_counted env st c) as [-> ->]. lia. }
  destruct (Hfold (list_unterminated_runs (rw_db w)) (w, r0)) as [-> ->]. simpl. done.
Qed.

(** ** What a pass touches *)

Definition rows_of (run : uuid) (w : recovery_world) : list PipelineRun :=
  filter (λ r, pr_pipeline_run_id r = run) (pd_runs (rw_db w)).
Definition sweeps_of (run : uuid) (w : recovery_world) : list (uuid * uuid) :=
  filter (λ p, p.1 = run) (rw_sweeps w).
(** The ownership rows of the run, and those whose artifact is in the graph. *)
Definition owned_of (run : uuid) (w : recovery_world) : list GraphNode * list GraphEdge * list GraphNode :=
  let l := st_ledger (rw_stores w) in
  (filter (λ n, gn_pipeline_run_id n = Some run) (lg_nodes l),
   filter (λ e, ge_pipeline_run_id e = Some run) (lg_edges l),
   filter (λ n, gn_pipeline_run_id n = Some run ∧ gn_slug n ∈ st_graph (rw_stores w)) (lg_nodes l)).
Definition row_ids (w : recovery_world) : list uuid := map pr_id (pd_runs (rw_db w)).

(** The rows of the run. *)
Definition run_node (run : uuid) (st : stores) (n : GraphNode) : Prop :=
  n ∈ lg_nodes (st_ledger st) ∧ gn_pipeline_run_id n = Some run.
Definition run_edge (run : uuid) (st : stores) (e : GraphEdge) : Prop :=
  e ∈ lg_edges (st_ledger st) ∧ ge_pipeline_run_id e = Some run.

(** The graph edges between nodes of the run, and the vector points its rows stand for,
    stay; the latter if the ledger is coherent. *)
Record shielded (run : uuid) (st st' : stores) : Prop := {
  sh_edges : ∀ n n' name, run_node run st n → run_node run st n' →
    (gn_slug n, name, gn_slug n') ∈ st_graph_edges st → (gn_slug n, name, gn_slug n') ∈ st_graph_edges st';
  sh_points : coherent new_v5 (st_ledger st) → ∀ c id,
    (∃ n, run_node run st n ∧ node_point n c id) ∨ (∃ e, run_edge run st e ∧ edge_point new_v5 e c id) →
    id ∈ default ∅ (st_vectors st !! c) → id ∈ default ∅ (st_vectors st' !! c);
  sh_ledger : lg_nodes (st_ledger st') ⊆ lg_nodes (st_ledger st) ∧ lg_edges (st_ledger st') ⊆ lg_edges (st_ledger st);
}.

Lemma shielded_same run st : shielded run st st.
Proof. by split. Qed.

Lemma coherent_fewer l l' :
  lg_nodes l' ⊆ lg_nodes l → lg_edges l' ⊆ lg_edges l → coherent new_v5 l → coherent new_v5 l'.
Proof. intros Hn He [Ht Htr Hc]. split; eauto. Qed.

Lemma owned_of_rows run w w' :
  owned_of run w' = owned_of run w →
  (∀ n, run_node run (rw_stores w) n → run_node run (rw_stores w') n)
  ∧ ∀ e, run_edge run (rw_stores w) e → run_edge run (rw_stores w') e.
Proof.
  unfold owned_of. intros [= Hn He _]. split.
  - intros n [Hin Hr]. assert (Hf : n ∈ filter (λ n, gn_pipeline_run_id n = Some run) (lg_nodes (st_ledger (rw_stores w'))))
      by (rewrite Hn; by apply list_elem_of_filter).
    by apply list_elem_of_filter in Hf as [? ?].
  - intros e [Hin Hr]. assert (Hf : e ∈ filter (λ e, ge_pipeline_run_id e = Some run) (lg_edges (st_ledger (rw_stores w'))))
      by (rewrite He; by apply list_elem_of_filter).
    by apply list_elem_of_filter in Hf as [? ?].
Qed.

Lemma shielded_trans run w w1 w2 :
  owned_of run w1 = owned_of run w → shielded run (rw_stores w) (rw_stores w1) →
  shielded run (rw_stores w1) (rw_stores w2) → shielded run (rw_stores w) (rw_stores w2).
Proof.
  intros [Hrn Hre]%owned_of_rows [He Hp [Hn Hl]] [He' Hp' [Hn' Hl']]. split; [by auto| |].
  - intros Hco c id Hrow Hin. apply Hp'; [by eapply coherent_fewer| |by apply Hp].
    destruct Hrow as [(n & ? & ?)|(e & ? & ?)]; [left; exists n|right; exists e]; auto.
  - split; etransitivity; done.
Qed.

(** A [Uuid::new_v4()] is none of the ids in use. *)
Definition fresh_rows (env : recovery_env) : Prop := ∀ l, re_row_id env l ∉ l.

(** The world, as far as runs other than [run] can tell. *)
Definition same_but (run : uuid) (w w' : recovery_world) : Prop :=
  NoDup (row_ids w')
  ∧ ∀ x, x ≠ run → rows_of x w' = rows_of x w ∧ sweeps_of x w' = sweeps_of x w ∧ owned_of x w' = owned_of x w
                   ∧ shielded x (rw_stores w) (rw_stores w').

Lemma same_but_refl run w : NoDup (row_ids w) → same_but run w w.
Proof. split; [done|]. intros x _. by repeat (split; [done|]); apply shielded_same. Qed.

(** A sweep of one run leaves what other runs own. *)
Lemma filter_other_rows `{LedgerRow T} (x : uuid) scope (Q : T → Prop) `{∀ r, Decision (Q r)} (table : list T) :
  x ≠ rs_pipeline_run_id scope →
  filter (λ r, row_run r = Some x ∧ Q r) (filter (λ r, ¬ selected_by scope r) table)
  = filter (λ r, row_run r = Some x ∧ Q r) table.
Proof.
  intros Hx. rewrite list_filter_filter. apply list_filter_iff. intros r. split; [tauto|].
  intros [Hr HQ]. split; [done|]. intros [Hsel _]. rewrite Hr in Hsel. done.
Qed.

Lemma sweep_logging_stores now scope plan st :
  (sweep_logging_failure new_v5 now scope plan st).2 = (sweep new_v5 now scope plan st).2.
Proof. unfold sweep_logging_failure, sweep. by destruct (run_in_scope _ _ _ _) as [[] w]. Qed.

Lemma sweep_owned_of now run d plan w w' x :
  x ≠ run → rw_stores w' = (sweep_logging_failure new_v5 now (whole_run run d) plan (rw_stores w)).2 →
  owned_of x w' = owned_of x w.
Proof.
  intros Hx Hw. rewrite sweep_logging_stores in Hw. set (scope := whole_run run d) in *.
  destruct (sweep new_v5 now scope plan (rw_stores w)) as [r st'] eqn:Hrun.
  assert (Hother : x ≠ rs_pipeline_run_id (as_run_scope scope)) by done.
  pose proof (sweep_progress new_v5 now scope plan (rw_stores w)) as Hp. rewrite Hrun in Hp.
  destruct (sweep_bounds new_v5 now scope plan _ _ _ Hrun) as (Hg & _). simpl in Hw. rewrite <-Hw in *. clear Hw.
  assert (Hl : lg_edges (st_ledger (rw_stores w')) = lg_edges (st_ledger (rw_stores w))
               ∨ lg_edges (st_ledger (rw_stores w'))
                 = filter (λ e, ¬ selected_by (as_run_scope scope) e) (lg_edges (st_ledger (rw_stores w)))).
  { destruct Hp as [[_ (v & g & -> & Hgg & _)]|(st1 & l' & sub & _ & -> & Hl)].
    - left. by destruct Hgg as [->| ->].
    - right. simpl. by destruct Hl as [[-> _]|[-> _]]. }
  assert (Hn : lg_nodes (st_ledger (rw_stores w')) = lg_nodes (st_ledger (rw_stores w))
               ∨ lg_nodes (st_ledger (rw_stores w'))
                 = filter (λ e, ¬ selected_by (as_run_scope scope) e) (lg_nodes (st_ledger (rw_stores w)))).
  { destruct Hp as [[_ (v & g & -> & Hgg & _)]|(st1 & l' & sub & _ & -> & Hl')].
    - left. by destruct Hgg as [->| ->].
    - destruct Hl' as [[-> _]|[-> _]]; [by left|by right]. }
  unfold owned_of. f_equal; [f_equal|].
  - destruct Hn as [->| ->]; [done|].
    pose proof (filter_other_rows x (as_run_scope scope) (λ _ : GraphNode, True) (lg_nodes (st_ledger (rw_stores w))) Hother) as He.
    etransitivity; [|etransitivity; [exact He|]]; apply list_filter_iff; simpl; tauto.
  - destruct Hl as [->| ->]; [done|].
    pose proof (filter_other_rows x (as_run_scope scope) (λ _ : GraphEdge, True) (lg_edges (st_ledger (rw_stores w))) Hother) as He.
    etransitivity; [|etransitivity; [exact He|]]; apply list_filter_iff; simpl; tauto.
  - transitivity (filter (λ n, gn_pipeline_run_id n = Some x ∧ gn_slug n ∈ st_graph (rw_stores w'))
                    (lg_nodes (st_ledger (rw_stores w)))).
    { destruct Hn as [->| ->]; [done|].
      pose proof (filter_other_rows x (as_run_scope scope) (λ n : GraphNode, gn_slug n ∈ st_graph (rw_stores w'))
        (lg_nodes (st_ledger (rw_stores w))) Hother) as He.
      etransitivity; [|etransitivity; [exact He|]]; apply list_filter_iff; simpl; tauto. }
    apply filter_ext_in. intros n Hin. split; [intros [? ?]; split; [done|]; set_solver|].
    intros [Hr Hslug]. split; [done|]. destruct Hg as [Hg _]. apply Hg, elem_of_difference. split; [done|].
    apply kept_node_not_doomed. split; [done|]. intros [Hsel _]. simpl in Hsel. rewrite Hr in Hsel. done.
Qed.

Lemma sweep_shielded now run d plan w w' x :
  x ≠ run → rw_stores w' = (sweep_logging_failure new_v5 now (whole_run run d) plan (rw_stores w)).2 →
  shielded x (rw_stores w) (rw_stores w').
Proof.
  intros Hx Hw. rewrite sweep_logging_stores in Hw. set (scope := whole_run run d) in *.
  destruct (sweep new_v5 now scope plan (rw_stores w)) as [r st'] eqn:Hrun. simpl in Hw. subst st'.
  destruct (sweep_bounds new_v5 now scope plan _ _ _ Hrun) as (_ & Hs & _).
  pose proof (sweep_progress new_v5 now scope plan (rw_stores w)) as Hp. rewrite Hrun in Hp.
  assert (Hn : ∀ n, run_node x (rw_stores w) n → kept_node scope (st_ledger (rw_stores w)) n).
  { intros n [Hin Hr]. split; [done|]. intros [Hsel _]. simpl in Hsel. rewrite Hr in Hsel. done. }
  assert (He : ∀ e, run_edge x (rw_stores w) e → kept_edge scope (st_ledger (rw_stores w)) e).
  { intros e [Hin Hr]. split; [done|]. intros [Hsel _]. simpl in Hsel. rewrite Hr in Hsel. done. }
  split.
  - intros n n' name Hin Hin' Hedge.
    assert (Hsub : ∀ D, D = doomed_nodes (as_run_scope scope) (st_ledger (rw_stores w)) →
      (gn_slug n, name, gn_slug n') ∈ st_graph_edges (graph_delete_nodes D (rw_stores w))).
    { intros D ->. simpl. apply elem_of_filter. split; [|done].
      by split; apply kept_node_not_doomed, Hn. }
    destruct Hp as [[_ (v & g & -> & [->| ->] & _)]|(st1 & l' & sub & (v & -> & _) & -> & _)]; [done|by apply Hsub..].
  - intros Hco c id Hrow Hin. specialize (Hs c).
    assert (Hnd : id ∉ doomed new_v5 (as_run_scope scope) (st_ledger (rw_stores w)) c).
    { apply kept_point_not_doomed; [done|]. destruct Hrow as [(n & ? & ?)|(e & ? & ?)]; [left; exists n|right; exists e]; auto. }
    destruct (st_vectors (rw_stores w) !! c) as [p|]; simpl in *; [|by apply elem_of_empty in Hin].
    destruct (st_vectors (rw_stores w') !! c) as [p'|]; [|done]. destruct Hs as [_ Hs]. simpl.
    by apply Hs, elem_of_union in Hin as [|].
  - destruct Hp as [[_ (v & g & -> & [->| ->] & _)]|(st1 & l' & sub & _ & -> & Hl)]; [done|done|].
    simpl. destruct Hl as [[-> _]|[-> _]]; simpl; split; try done; intros ? [_ ?]%list_elem_of_filter; done.
Qed.

Lemma recover_claimed_frame env d run w r :
  fresh_rows env → NoDup (row_ids w) →
  let '(w', _, _) := recover_claimed env d run w r in same_but run w w' ∧ rw_markers w' = rw_markers w.
Proof.
  intros Hfresh Hnd. unfold recover_claimed.
  assert (Hsame : same_but run w w ∧ rw_markers w = rw_markers w) by (split; [by apply same_but_refl|done]).
  destruct (re_get env run); [|exact Hsame].
  destruct (get_pipeline_run run (rw_db w)) as [current|] eqn:Hcur; [|exact Hsame].
  case_decide; [exact Hsame|]. destruct (re_dataset env d) as [[|]|]; [|exact Hsame..].
  destruct (get_pipeline_run_some _ _ _ Hcur) as (Hin & Hrun & _).
  assert (Hsweep : ∀ w1, rw_db w1 = rw_db w → rw_markers w1 = rw_markers w →
    (∀ x, x ≠ run → sweeps_of x w1 = sweeps_of x w ∧ owned_of x w1 = owned_of x w ∧ shielded x (rw_stores w) (rw_stores w1)) →
    same_but run w w1 ∧ rw_markers w1 = rw_markers w
    ∧ let '(db, reset) := reset_orphan_run (re_row_id env (row_ids w1)) (re_now env) d
        (pr_pipeline_name current) (pr_id current) ABANDONED_RUN_ERROR (rw_db w1) in
      same_but run w {| rw_db := db; rw_markers := rw_markers w1; rw_stores := rw_stores w1;
                        rw_sweeps := rw_sweeps w1 |}).
  { intros w1 Hdb Hm Hs. unfold same_but, rows_of, row_ids. rewrite Hdb.
    split; [split; [done|intros x Hx; split; [done|by apply Hs]]|]. split; [done|].
    pose proof (reset_orphan_run_spec (re_row_id env (row_ids w)) (re_now env) d
      (pr_pipeline_name current) (pr_id current) ABANDONED_RUN_ERROR (rw_db w) current Hnd Hin eq_refl) as Hr.
    unfold row_ids in Hr. destruct (reset_orphan_run _ _ _ _ _ _ _) as [db reset].
    destruct Hr as (_ & Hrows & _). simpl. rewrite Hrows. destruct reset.
    2:{ rewrite app_nil_r. split; [done|]. intros x Hx. split; [done|by apply Hs]. }
    split.
    - rewrite map_app. simpl. apply NoDup_app. split; [done|]. split; [|apply NoDup_singleton].
      intros i Hi ->%list_elem_of_singleton. by apply (Hfresh (map pr_id (pd_runs (rw_db w)))).
    - intros x Hx. split; [|by apply Hs]. rewrite filter_app, filter_cons_False, app_nil_r; [done|].
      simpl. congruence. }
  case_decide; simpl.
  - destruct (sweep_logging_failure _ _ _ _ _) as [outcome stores] eqn:Hsw.
    edestruct (Hsweep {| rw_db := rw_db w; rw_markers := rw_markers w; rw_stores := stores;
      rw_sweeps := rw_sweeps w ++ [(pr_pipeline_run_id current, d)] |}) as (Hw1 & Hw2 & Hw3); [done..| |].
    { intros x Hx. split.
      - unfold sweeps_of. simpl. rewrite filter_app, filter_cons_False, app_nil_r; [done|]. simpl. congruence.
      - split; [apply (sweep_owned_of (re_now env) (pr_pipeline_run_id current) d (re_plan env (pr_pipeline_run_id current)) w)
               |apply (sweep_shielded (re_now env) (pr_pipeline_run_id current) d (re_plan env (pr_pipeline_run_id current)))];
          (congruence || by rewrite Hsw). }
    destruct (sw_warnings _); simpl; [|done]. destruct (re_reset env (pr_id current)); [|done].
    unfold row_ids in Hw3. simpl in Hw3. by destruct (reset_orphan_run _ _ _ _ _ _ _) as [db reset].
  - destruct (Hsweep w) as (Hw1 & Hw2 & Hw3); [done|done|intros x _; by repeat (split; [done|]); apply shielded_same|].
    destruct (re_reset env (pr_id current)); [|done].
    unfold row_ids in Hw3. by destruct (reset_orphan_run _ _ _ _ _ _ _) as [db reset].
Qed.

(** A candidate touches its own run, and the marker it names if that is free. *)
Lemma recover_one_frame env w r c :
  fresh_rows env → NoDup (row_ids w) →
  let w' := (recover_one env (w, r) c).1 in
  same_but (pr_pipeline_run_id c) w w'
  ∧ ∀ t, recovery_lock_of parse_str (pr_run_info c) ≠ Some t ∨ rw_markers w !! t ≠ Some false →
      rw_markers w' !! t = rw_markers w !! t.
Proof.
  intros Hfresh Hnd. pose proof (same_but_refl (pr_pipeline_run_id c) w Hnd) as Hsame.
  unfold Recovery.recover_one. destruct (_ <? _)%Z; [by split|].
  destruct (pr_dataset_id c) as [d|]; [|by split]. case_decide; [by split|].
  destruct (recovery_lock_of parse_str (pr_run_info c)) as [token|] eqn:Htok; [|by split].
  unfold own_claim. destruct (rw_markers w !! token) as [[|]|] eqn:Hm; [by split| |by split].
  set (w1 := {| rw_db := rw_db w; rw_markers := <[token := true]> (rw_markers w); rw_stores := rw_stores w;
                rw_sweeps := rw_sweeps w |}).
  pose proof (recover_claimed_frame env d (pr_pipeline_run_id c) w1 r Hfresh Hnd) as Hf.
  destruct (recover_claimed _ _ _ _ _) as [[w2 r2] close]. destruct Hf as [[Hnd2 Hx] Hm2]. cbn [fst].
  split; [by split|]. intros t Ht. simpl. rewrite own_drop_other.
  - rewrite Hm2. simpl. rewrite lookup_insert_ne; [done|]. intros ->. destruct Ht as [Ht|Ht]; congruence.
  - destruct close; simpl; destruct Ht as [Ht|Ht]; congruence.
Qed.
(** ** A whole pass *)

(** A run is a candidate once. *)
Lemma latest_per_run_keys rows : map_Forall (λ run r, pr_pipeline_run_id r = run) (latest_per_run rows).
Proof.
  unfold latest_per_run. induction rows as [|r rows IH] using rev_ind; [done|].
  rewrite foldl_app. simpl. destruct (foldl _ _ _ !! _); [done|]. by apply map_Forall_insert_2.
Qed.

Lemma candidates_distinct db : NoDup (map pr_pipeline_run_id (list_unterminated_runs db)).
Proof.
  unfold list_unterminated_runs. eapply sublist_NoDup; [|by apply (fmap_sublist pr_pipeline_run_id), sublist_filter].
  pose proof (latest_per_run_keys (by_created_desc (pd_runs db))) as Hk.
  set (m := latest_per_run _) in *. change (NoDup (pr_pipeline_run_id <$> (map_to_list m).*2)).
  rewrite <-list_fmap_compose. rewrite (list_fmap_ext _ fst); [apply NoDup_fst_map_to_list|].
  intros i [run r] Hi%list_elem_of_lookup_2. simpl. apply elem_of_map_to_list in Hi. by apply Hk.
Qed.

Lemma candidate_split db c :
  c ∈ list_unterminated_runs db →
  ∃ l1 l2, list_unterminated_runs db = l1 ++ c :: l2
    ∧ pr_pipeline_run_id c ∉ map pr_pipeline_run_id l1 ∧ pr_pipeline_run_id c ∉ map pr_pipeline_run_id l2.
Proof.
  intros (l1 & l2 & Hl)%list_elem_of_split. exists l1, l2. split; [done|].
  pose proof (candidates_distinct db) as Hdist. rewrite Hl, map_app in Hdist.
  apply NoDup_app in Hdist as (_ & Hd1 & [Hd2 _]%NoDup_cons). split; [|done].
  intros Hc1. apply (Hd1 _ Hc1). by left.
Qed.

(** The state of one run and of the markers that only it may use. *)
Definition undisturbed (run : uuid) (free : uuid → Prop) (w w' : recovery_world) : Prop :=
  rows_of run w' = rows_of run w ∧ sweeps_of run w' = sweeps_of run w ∧ owned_of run w' = owned_of run w
  ∧ shielded run (rw_stores w) (rw_stores w') ∧ ∀ t, free t → rw_markers w' !! t = rw_markers w !! t.

Lemma recover_fold_frame env run cs (own : uuid → Prop) w r :
  fresh_rows env → NoDup (row_ids w) → run ∉ map pr_pipeline_run_id cs →
  (∀ t, own t → Forall (λ c, recovery_lock_of parse_str (pr_run_info c) ≠ Some t) cs ∨ rw_markers w !! t ≠ Some false) →
  let w' := (foldl (recover_one env) (w, r) cs).1 in
  NoDup (row_ids w') ∧ undisturbed run own w w'.
Proof.
  intros Hfresh. revert w r. induction cs as [|c cs IH]; intros w r Hnd Hrun Hown.
  { split; [done|]. by repeat (split; [done|]). }
  simpl in *.
  apply not_elem_of_cons in Hrun as [Hc Hrun].
  destruct (recover_one_frame env w r c Hfresh Hnd) as [[Hnd1 Hs] Hm].
  destruct (recover_one env (w, r) c) as [w1 r1]. simpl in Hnd1, Hs, Hm.
  assert (Hm' : ∀ t, own t → rw_markers w1 !! t = rw_markers w !! t).
  { intros t Ht. apply Hm. destruct (Hown t Ht) as [Hf%Forall_cons|]; [left; tauto|by right]. }
  destruct (IH w1 r1) as (Hnd2 & H2rows & H2sw & H2o & H2sh & H2m); [done..| |].
  { intros t Ht. rewrite Hm' by done. destruct (Hown t Ht) as [Hf%Forall_cons|]; [left; tauto|by right]. }
  destruct (Hs run Hc) as (H1rows & H1sw & H1o & H1sh). split; [done|]. unfold undisturbed.
  rewrite H2rows, H2sw, H2o. split; [done|]. split; [done|]. split; [done|].
  split; [by eapply shielded_trans|]. intros t Ht. rewrite H2m, Hm'; done.
Qed.

(** The reasons to leave a candidate alone: too young, without a dataset, its
    dataset locked by a run of this process, or no proof of abandonment. *)
Definition left_alone (env : recovery_env) (w : recovery_world) (c : PipelineRun) : Prop :=
  (re_cutoff env < pr_created_at c)%Z
  ∨ pr_dataset_id c = None
  ∨ (∃ d, pr_dataset_id c = Some d ∧ d ∈ re_locked env)
  ∨ (∀ t, recovery_lock_of parse_str (pr_run_info c) = Some t → rw_markers w !! t ≠ Some false).

Lemma recover_one_left_alone env w r c : left_alone env w c → (recover_one env (w, r) c).1 = w.
Proof.
  intros Hleft. unfold Recovery.recover_one.
  destruct (Z.ltb_spec (re_cutoff env) (pr_created_at c)) as [|Hage]; [done|].
  destruct (pr_dataset_id c) as [d|] eqn:Hd; [|done]. case_decide as Hl; [done|].
  destruct (recovery_lock_of parse_str (pr_run_info c)) as [token|] eqn:Htok; [|done].
  unfold own_claim. destruct (rw_markers w !! token) as [[|]|] eqn:Hm; [done| |done].
  unfold left_alone in Hleft. exfalso. rewrite Hd, Htok in Hleft.
  destruct Hleft as [|[|[(d' & [= <-] & ?)|Ht]]]; [lia|done|done|]. by apply (Ht token).
Qed.

(** C14: a pass leaves live runs alone.  Take a candidate that is too young, whose
    dataset a run of this process has locked, or that no free marker proves abandoned;
    row ids being distinct and fresh, and whatever the pass does to the other
    candidates: the run's rows are as they were and no sweep of it is made, its
    ownership rows are as they were and the same of their nodes are in the graph, the
    graph edges between its nodes stay, and, if the ledger is coherent (one text per
    [EdgeType] id; otherwise a swept run's edge can take its point), the vector points
    its rows stand for stay; a marker that is held stays held, and none appears. *)
Theorem live_run_untouched env w c :
  fresh_rows env → NoDup (row_ids w) →
  c ∈ list_unterminated_runs (rw_db w) → left_alone env w c →
  undisturbed (pr_pipeline_run_id c) (λ t, rw_markers w !! t ≠ Some false) w
    (recover_stale_pipeline_runs new_v5 parse_str env true w).1.
Proof.
  intros Hfresh Hnd Hin Hleft. unfold recover_stale_pipeline_runs. simpl.
  match goal with |- context [(w, ?report)] => generalize report as r; intros r end.
  destruct (candidate_split (rw_db w) c Hin) as (l1 & l2 & -> & Hc1 & Hc2).
  rewrite foldl_app. simpl.
  set (held t := rw_markers w !! t ≠ Some false).
  destruct (recover_fold_frame env (pr_pipeline_run_id c) l1 held w r) as (Hnd1 & Hr1 & Hs1 & Ho1 & Hsh1 & Hm1);
    [done..|by right|].
  destruct (foldl (recover_one env) (w, r) l1) as [w1 r1]. simpl in Hnd1, Hr1, Hs1, Ho1, Hsh1, Hm1.
  assert (Hleft1 : left_alone env w1 c).
  { destruct Hleft as [|[|[|Ht]]]; [by left|by right; left|by right; right; left|].
    right; right; right. intros t Htok. rewrite Hm1; by apply Ht. }
  pose proof (recover_one_left_alone env w1 r1 c Hleft1) as E.
  destruct (recover_one env (w1, r1) c) as [w1' r2]. simpl in E. subst w1'.
  destruct (recover_fold_frame env (pr_pipeline_run_id c) l2 held w1 r2) as (_ & Hr2 & Hs2 & Ho2 & Hsh2 & Hm2);
    [done..| |].
  { intros t Ht. right. by rewrite Hm1. }
  unfold undisturbed. rewrite Hr2, Hs2, Ho2. split; [done|]. split; [done|]. split; [done|].
  split; [by eapply shielded_trans|]. intros t Ht. by rewrite Hm2, Hm1.
Qed.
(** A candidate the pass must close: old enough, its dataset there and unlocked,
    its marker free, its latest row a [STARTED] one of that dataset, and a database
    and a sweeper that do their work. *)
Record abandoned (env : recovery_env) (w : recovery_world) (c current : PipelineRun) (d token : uuid) : Prop := {
  ab_old : (pr_created_at c ≤ re_cutoff env)%Z;
  ab_dataset : pr_dataset_id c = Some d;
  ab_unlocked : d ∉ re_locked env;
  ab_token : recovery_lock_of parse_str (pr_run_info c) = Some token;
  ab_free : rw_markers w !! token = Some false;
  ab_get : re_get env (pr_pipeline_run_id c) = Ok ();
  ab_exists : re_dataset env d = Ok true;
  ab_reset : re_reset env (pr_id current) = Ok ();
  ab_latest : get_pipeline_run (pr_pipeline_run_id c) (rw_db w) = Some current;
  ab_started : pr_status current = DbStarted;
  ab_same_dataset : pr_dataset_id current = Some d;
  ab_swept : pr_pipeline_name current = COGNIFY_PIPELINE_NAME →
    re_plan env (pr_pipeline_run_id c) = [];
  ab_past : Forall (λ r, pr_created_at r < re_now env)%Z (rows_of (pr_pipeline_run_id c) w);
}.

(** What closing a run leaves: one more row, the run's latest, no marker, and of a
    cognify run no ownership row in the dataset. *)
Definition closed_by (env : recovery_env) (current : PipelineRun) (d token : uuid) (w w' : recovery_world) : Prop :=
  let run := pr_pipeline_run_id current in
  ∃ row_id, let row := closing_row row_id (re_now env) ABANDONED_RUN_ERROR current in
    rows_of run w' = rows_of run w ++ [row]
    ∧ get_pipeline_run run (rw_db w') = Some row
    ∧ sweeps_of run w' = sweeps_of run w
        ++ (if decide (pr_pipeline_name current = COGNIFY_PIPELINE_NAME) then [(run, d)] else [])
    ∧ rw_markers w' !! token = None
    ∧ (pr_pipeline_name current = COGNIFY_PIPELINE_NAME →
         Forall (λ n, gn_dataset_id n ≠ d) (owned_of run w').1.1
         ∧ Forall (λ e, ge_dataset_id e ≠ d) (owned_of run w').1.2).

Lemma rows_of_latest run w w' :
  rows_of run w' = rows_of run w → get_pipeline_run run (rw_db w') = get_pipeline_run run (rw_db w).
Proof. unfold rows_of, get_pipeline_run. by intros ->. Qed.

Lemma abandoned_undisturbed env w w1 c current d token free :
  undisturbed (pr_pipeline_run_id c) free w w1 → free token →
  abandoned env w c current d token → abandoned env w1 c current d token.
Proof.
  intros (Hr & _ & _ & _ & Hm) Hfree []. split; try done.
  - by rewrite Hm.
  - by rewrite (rows_of_latest _ _ _ Hr).
  - by rewrite Hr.
Qed.

Lemma sweep_logging_quiet now scope st :
  let '(o, st') := sweep_logging_failure new_v5 now scope [] st in
  sw_warnings o = [] ∧ st' = swept new_v5 now (as_run_scope scope) st.
Proof.
  destruct (sweep_refines' new_v5 now scope st) as (o & Hs & (_ & _ & _ & _ & Hw & _)).
  unfold sweep_logging_failure. unfold sweep in Hs. destruct (run_in_scope _ _ _ _) as [[] w]; by simplify_eq.
Qed.

Lemma swept_run_rows now run d st x y z :
  let w := {| rw_db := x; rw_markers := y; rw_stores := swept new_v5 now (as_run_scope (whole_run run d)) st;
              rw_sweeps := z |} in
  Forall (λ n, gn_dataset_id n ≠ d) (owned_of run w).1.1 ∧ Forall (λ e, ge_dataset_id e ≠ d) (owned_of run w).1.2.
Proof.
  split; apply Forall_forall; simpl; intros r [Hr [Hn _]%list_elem_of_filter]%list_elem_of_filter Hd;
    apply Hn; unfold selected_by; simpl; by rewrite Hr.
Qed.

Lemma recover_one_closes env w r c current d token :
  NoDup (row_ids w) → abandoned env w c current d token →
  closed_by env current d token w (recover_one env (w, r) c).1.
Proof.
  intros Hnd [Hold Hds Hul Htok Hfree Hget Hex Hres Hlat Hst Hcd Hsw Hpast].
  destruct (get_pipeline_run_some _ _ _ Hlat) as (Hin & Hrun & _).
  unfold Recovery.recover_one. destruct (Z.ltb_spec (re_cutoff env) (pr_created_at c)) as [|_]; [lia|].
  rewrite Hds, decide_False, Htok by done. unfold own_claim. rewrite Hfree.
  unfold recover_claimed. simpl. rewrite Hget, Hlat, decide_False, Hex by tauto. rewrite Hrun.
  set (row_id := re_row_id env (map pr_id (pd_runs (rw_db w)))).
  pose proof (reset_orphan_run_spec row_id (re_now env) d
    (pr_pipeline_name current) (pr_id current) ABANDONED_RUN_ERROR (rw_db w) current Hnd Hin eq_refl) as Hr.
  destruct (reset_orphan_run _ _ _ _ _ _ _) as [db reset] eqn:Hreset. destruct Hr as (Hiff & Hrows & Hnew).
  assert (reset = true) as ->.
  { apply Hiff. rewrite Hrun. split_and!; [done..|by rewrite Hst]. }
  specialize (Hnew eq_refl). rewrite Hrun in Hnew.
  assert (Hlatest : get_pipeline_run (pr_pipeline_run_id c) db
    = Some (closing_row row_id (re_now env) ABANDONED_RUN_ERROR current)).
  { apply Hnew. rewrite Forall_forall in Hpast |- *. intros x Hx Hxr. apply Hpast.
    unfold rows_of. by apply list_elem_of_filter. }
  assert (Hrow : filter (λ r, pr_pipeline_run_id r = pr_pipeline_run_id c) (pd_runs db)
    = rows_of (pr_pipeline_run_id c) w ++ [closing_row row_id (re_now env) ABANDONED_RUN_ERROR current]).
  { rewrite Hrows, filter_app. f_equal. by rewrite filter_cons_True. }
  unfold closed_by. rewrite Hrun. case_decide as Hname.
  - pose proof (sweep_logging_quiet (re_now env) (whole_run (pr_pipeline_run_id c) d) (rw_stores w)) as Hq.
    rewrite Hsw by done. simpl.
    destruct (sweep_logging_failure new_v5 (re_now env) (whole_run (pr_pipeline_run_id c) d) [] (rw_stores w))
      as [outcome stores]. destruct Hq as [Hwarn ->]. simpl in Hwarn. rewrite Hwarn. simpl.
    fold row_id. rewrite Hres, Hreset. simpl. exists row_id.
    split; [exact Hrow|]. split; [exact Hlatest|]. split; [|split].
    + unfold sweeps_of. simpl. rewrite filter_app. f_equal. by rewrite filter_cons_True.
    + unfold own_drop. simpl. by rewrite lookup_delete_eq.
    + intros _. exact (swept_run_rows (re_now env) (pr_pipeline_run_id c) d (rw_stores w) db ∅ []).
  - simpl. fold row_id. rewrite Hres, Hreset. simpl. exists row_id.
    split; [exact Hrow|]. split; [exact Hlatest|]. split; [|split].
    + by rewrite app_nil_r.
    + unfold own_drop. simpl. by rewrite lookup_delete_eq.
    + done.
Qed.

(** C15: a pass closes an abandoned run.  A candidate that is eligible when the
    pass starts, and whose marker no other candidate names, ends with one more row,
    [ERRORED] with the abandonment error and the run's latest, with its artifacts
    swept if it is a cognify run, and without its marker, whatever the pass does to
    the candidates before and after it. *)
Theorem abandoned_run_closed env w c current d token :
  fresh_rows env → NoDup (row_ids w) →
  c ∈ list_unterminated_runs (rw_db w) → abandoned env w c current d token →
  Forall (λ c', pr_pipeline_run_id c' ≠ pr_pipeline_run_id c →
    recovery_lock_of parse_str (pr_run_info c') ≠ Some token) (list_unterminated_runs (rw_db w)) →
  closed_by env current d token w (recover_stale_pipeline_runs new_v5 parse_str env true w).1.
Proof.
  intros Hfresh Hnd Hin Hab Hother. unfold recover_stale_pipeline_runs. simpl.
  match goal with |- context [(w, ?report)] => generalize report as r; intros r end.
  destruct (candidate_split (rw_db w) c Hin) as (l1 & l2 & Hl & Hc1 & Hc2).
  rewrite Hl in Hother |- *. apply Forall_app in Hother as [Ho1 _]. rewrite foldl_app. simpl.
  assert (Hno : Forall (λ c', recovery_lock_of parse_str (pr_run_info c') ≠ Some token) l1).
  { rewrite Forall_forall in Ho1 |- *. intros x Hx. apply Ho1; [done|]. intros E. apply Hc1.
    rewrite <-E. by apply (list_elem_of_fmap_2 pr_pipeline_run_id). }
  assert (Hrun : pr_pipeline_run_id current = pr_pipeline_run_id c)
    by by destruct (get_pipeline_run_some _ _ _ (ab_latest _ _ _ _ _ _ Hab)) as (_ & -> & _).
  destruct (recover_fold_frame env (pr_pipeline_run_id c) l1 (λ t, t = token) w r) as (Hnd1 & Hu1); [done..| |].
  { intros t ->. by left. }
  destruct (foldl (recover_one env) (w, r) l1) as [w1 r1]. simpl in Hnd1, Hu1.
  pose proof (abandoned_undisturbed _ _ _ _ _ _ _ _ Hu1 eq_refl Hab) as Hab1.
  destruct (recover_one_frame env w1 r1 c Hfresh Hnd1) as [[Hnd2 _] _].
  pose proof (recover_one_closes env w1 r1 c current d token Hnd1 Hab1) as (row_id & Hr & Hg & Hs & Hm & Ho).
  destruct (recover_one env (w1, r1) c) as [w2 r2]. simpl in Hnd2, Hr, Hg, Hs, Hm, Ho.
  destruct (recover_fold_frame env (pr_pipeline_run_id c) l2 (λ t, t = token) w2 r2) as (_ & Hr2 & Hs2 & Ho2 & _ & Hm2); [done..| |].
  { intros t ->. right. by rewrite Hm. }
  destruct Hu1 as (Hr1 & Hs1 & _). exists row_id. rewrite Hrun in *.
  rewrite Hr2, Hs2, Hm2, Ho2, (rows_of_latest _ _ _ Hr2), Hr, Hs, Hr1, Hs1; done.
Qed.
End recovery.

(** ** Witnesses *)

Definition example_markers : own_state :=
  own_step (OwnAcquire 5%N true) {| os_markers := ∅; os_handles := [] |}.

Lemma claim_proves_abandoned_witness :
  own_reachable example_markers
  ∧ (own_claim 5%N (os_markers example_markers)).2 = None
  ∧ is_Some (own_claim 5%N (os_markers (own_step (OwnDeath 0) example_markers))).2.
Proof.
  assert (Hreach : own_reachable example_markers).
  { apply own_next; [apply own_init, map_Forall_empty|].
    intros token io [= <- <-]. split; [reflexivity|]. intros i (h & Hh & _). by destruct i. }
  assert (Hheld : holds_marker example_markers 0 5%N) by by exists (own_held 5%N).
  destruct (claim_proves_abandoned example_markers 5%N Hreach) as (_ & Hlive & Hdead).
  split; [exact Hreach|]. split; [exact (Hlive 0 Hheld)|exact (Hdead 0 Hheld)].
Defined.

(** Run 70 is abandoned, its marker 4 free; run 71 is live, its marker 5 held. *)
Definition example_started (id : uuid) (run : uuid) (lock : string) : PipelineRun := {|
  pr_id := id; pr_created_at := 10; pr_status := DbStarted; pr_pipeline_run_id := run;
  pr_pipeline_name := COGNIFY_PIPELINE_NAME; pr_pipeline_id := 1%N; pr_dataset_id := Some 8%N;
  pr_run_info := Some (JObject {["recovery_lock" := JString lock]}); pr_user_id := Some 5%N |}.

Definition example_node (id slug run : uuid) : GraphNode := {|
  gn_id := id; gn_slug := slug; gn_user_id := 5; gn_data_id := id; gn_dataset_id := 8;
  gn_pipeline_run_id := Some run; gn_label := None; gn_node_type := "Entity";
  gn_indexed_fields := JArray []; gn_attributes := None; gn_created_at := 0 |}.

Definition example_world : recovery_world := {|
  rw_db := {| pd_runs := [example_started 1 70 "four"; example_started 2 71 "fives"];
              pd_datasets := {[8%N := ("notes", 5%N)]} |};
  rw_markers := {[4%N := false; 5%N := true]};
  rw_stores := {| st_ledger := {| lg_nodes := [example_node 1 21 70; example_node 2 22 71]; lg_edges := [] |};
                  st_data := ∅; st_graph := {[21; 22]}%N; st_graph_edges := ∅; st_vectors := ∅;
                  st_dataset_storage := ∅ |};
  rw_sweeps := [] |}.

Definition example_env : recovery_env := {|
  re_now := 100; re_cutoff := 50; re_locked := ∅;
  re_get := λ _, Ok (); re_dataset := λ _, Ok true;
  re_plan := λ _, [];
  re_reset := λ _, Ok (); re_row_id := λ l, N.succ (foldr N.max 0%N l) |}.

Definition example_parse (s : string) : option uuid := Some (N.of_nat (String.length s)).

Lemma example_env_fresh : fresh_rows example_env.
Proof.
  intros l. simpl. assert (Hmax : ∀ x, x ∈ l → (x ≤ foldr N.max 0 l)%N).
  { induction l as [|y l IH]; simpl; intros x; [by intros ?%elem_of_nil|].
    intros [->|Hx%IH]%elem_of_cons; lia. }
  intros Hin%Hmax. lia.
Qed.

Lemma example_ids : NoDup (row_ids example_world).
Proof. vm_compute. repeat constructor; set_solver. Qed.

Definition example_pass : recovery_world * RecoveryReport :=
  @recover_stale_pipeline_runs example_order decimal_format binary_serde ascii_lowercase (λ _ _, 0%N) example_parse
    example_env true example_world.

Lemma recovery_report_adds_up_witness :
  let r := example_pass.2 in
  rp_candidates r = counted r ∧ rp_recovered r = 1 ∧ rp_skipped_unverifiable r = 1.
Proof.
  destruct (@recovery_report_adds_up example_order decimal_format binary_serde ascii_lowercase
    (λ _ _, 0%N) example_parse example_env true example_world) as [H _].
  split; [exact H|]. split; vm_compute; reflexivity.
Defined.

Lemma live_run_untouched_witness :
  rows_of 71%N example_pass.1
  = [example_started 2 71 "fives"].
Proof.
  destruct (@live_run_untouched example_order example_order_laws decimal_format binary_serde ascii_lowercase
    (λ _ _, 0%N) example_parse example_env example_world
    (example_started 2 71 "fives")) as [H _].
  - apply example_env_fresh.
  - apply example_ids.
  - vm_compute. right. left.
  - right. right. right. intros t Ht. vm_compute in Ht. injection Ht as <-. vm_compute. discriminate.
  - exact H.
Defined.

Lemma abandoned_run_closed_witness :
  let w := example_pass.1 in
  length (rows_of 70%N w) = 2 ∧ sweeps_of 70%N w = [(70, 8)]%N ∧ rw_markers w !! 4%N = None.
Proof.
  destruct (@abandoned_run_closed example_order example_order_laws decimal_format binary_serde ascii_lowercase
    (λ _ _, 0%N) example_parse example_env example_world
    (example_started 1 70 "four") (example_started 1 70 "four") 8%N 4%N) as (row_id & Hr & _ & Hs & Hm).
  - apply example_env_fresh.
  - apply example_ids.
  - vm_compute. left.
  - split; try (vm_compute; reflexivity); [vm_compute; discriminate|apply not_elem_of_empty|].
    repeat constructor.
  - vm_compute. repeat constructor; intros; congruence.
  - split; [|split].
    + etransitivity; [exact (f_equal length Hr)|]. vm_compute. reflexivity.
    + etransitivity; [exact Hs|]. vm_compute. reflexivity.
    + exact (proj1 Hm).
Defined.
