(* ===== verification/Classify.v ===== *)
(** * Classification of data items (crates/models/src/document.rs)

    A [Data] row becomes a [Document] of a type its loader is chosen by; rows whose
    extension is unknown are left out. *)

From S2P Require Import Prelude Json Strings DataPoint Models.
From Stdlib Require Import QArith.
#[local] Open Scope nat_scope.

(** [extension_to_doc_type] *)
Definition extension_to_doc_type `{Lowercase} (ext : string) : option string :=
  let ext := to_lowercase ext in
  if decide (ext = "pdf") then Some "pdf"
  else if decide (ext = "txt") then Some "text"
  else if decide (ext ∈ ["md"; "json"; "xml"; "yaml"]) then Some "text"
  else if decide (ext = "csv") then Some "csv"
  else if decide (ext ∈ ["docx"; "doc"; "odt"; "xls"; "xlsx"; "ppt"; "pptx"; "odp"; "ods"]) then Some "unstructured"
  else if decide (ext ∈ ["png"; "dwg"; "xcf"; "jpg"; "jpx"; "apng"; "gif"; "webp"; "cr2"; "tif"; "bmp";
                          "jxr"; "psd"; "ico"; "heic"; "avif"]) then Some "image"
  else if decide (ext ∈ ["aac"; "mid"; "mp3"; "m4a"; "ogg"; "flac"; "wav"; "amr"; "aiff"]) then Some "audio"
  else if decide (ext ∈ ["html"; "htm"]) then Some "html"
  else None.

(** [doc_type_to_class_name] *)
Definition doc_type_to_class_name (doc_type : string) : string :=
  if decide (doc_type = "text") then "TextDocument"
  else if decide (doc_type = "pdf") then "PdfDocument"
  else if decide (doc_type = "csv") then "CsvDocument"
  else if decide (doc_type = "image") then "ImageDocument"
  else if decide (doc_type = "audio") then "AudioDocument"
  else if decide (doc_type = "html") then "TextDocument"
  else if decide (doc_type = "unstructured") then "UnstructuredDocument"
  else if decide (doc_type = "dlt_row") then "DltRowDocument"
  else "Document".

(** [metadata_value_is_dlt_sourced]; each nested value is smaller, so the size of the
    value is enough fuel. *)
Fixpoint dlt_sourced_go (fuel : nat) (value : json) : bool :=
  match fuel with
  | 0 => false
  | S fuel =>
      match json_get "source" value ≫= json_as_str with
      | Some source => bool_decide (source = "dlt")
      | None => false
      end
      || match json_get "data_item_external_metadata" value with
         | Some inner => dlt_sourced_go fuel inner
         | None => false
         end
  end.

Definition metadata_value_is_dlt_sourced (value : json) : bool := dlt_sourced_go (json_size value) value.

Lemma json_size_get key value inner : json_get key value = Some inner → json_size inner < json_size value.
Proof. destruct value; try done. apply json_size_field. Qed.

Lemma dlt_sourced_fuel n m value :
  json_size value ≤ n → json_size value ≤ m → dlt_sourced_go n value = dlt_sourced_go m value.
Proof.
  revert m value. induction n as [|n IH]; intros [|m] value Hn Hm; try (destruct value; simpl in *; lia).
  simpl. f_equal. destruct (json_get _ value) as [inner|] eqn:Hg; [|done].
  apply json_size_get in Hg. apply IH; lia.
Qed.

(** The equation of the source. *)
Lemma metadata_value_is_dlt_sourced_eq value :
  metadata_value_is_dlt_sourced value
  = bool_decide (json_get "source" value ≫= json_as_str = Some "dlt")
    || match json_get "data_item_external_metadata" value with
       | Some inner => metadata_value_is_dlt_sourced inner
       | None => false
       end.
Proof.
  unfold metadata_value_is_dlt_sourced at 1. destruct (json_size value) as [|n] eqn:Hn; [by destruct value|].
  simpl. f_equal.
  - destruct (json_get "source" value ≫= json_as_str); [|done]. by apply bool_decide_ext; split; congruence.
  - destruct (json_get _ value) as [inner|] eqn:Hg; [|done]. apply json_size_get in Hg.
    apply dlt_sourced_fuel; lia.
Qed.

Section classify.
Context `{Lowercase, SerdeJson, UuidFormat} (new_v5 : uuid → string → uuid)
  (python_json_dumps_indent4 : json → string).

(** [is_dlt_sourced] *)
Definition is_dlt_sourced (external_metadata : option string) : bool :=
  match external_metadata ≫= from_str with
  | Some v => metadata_value_is_dlt_sourced v
  | None => false
  end.

(** [node_set_value] *)
Definition node_set_value (external_metadata node_set_column : option string) : option json :=
  match (external_metadata ≫= from_str) ≫= json_get "node_set" with
  | Some v => Some v
  | None => node_set_column ≫= from_str
  end.

(** [python_json_dumps_indent4] of the metadata, which is kept when it is not JSON. *)
Definition formatted_metadata (external_metadata : option string) : option string :=
  match external_metadata with
  | None => Some (python_json_dumps_indent4 (JObject ∅))
  | Some t => match from_str t with
              | Some v => Some (python_json_dumps_indent4 v)
              | None => Some t
              end
  end.

(** A [NodeSet] value for each name. *)
Definition node_set_entry (name : string) : json :=
  JObject (<["id" := JString (uuid_to_string (new_v5 NAMESPACE_OID (normalize_identifier ("NodeSet:" +:+ name))))]>
          (<["name" := JString name]> {["type" := JString "NodeSet"]})).

Definition node_set_names (value : option json) : list string :=
  match value with Some (JArray l) => omap json_as_str l | _ => [] end.

(** The document's type, when it has one. *)
Definition doc_type_of (data : Data) : option string :=
  if is_dlt_sourced (data_external_metadata data) then Some "dlt_row"
  else extension_to_doc_type (data_extension data).

(** The base of a document: [names] are those of its node set. *)
Definition document_base (env : chunk_env) (doc_type : string) (data : Data) (names : list string) : DataPoint :=
  let base := DataPoint_new uuid_to_string (ce_fresh env) (ce_created env) (doc_type_to_class_name doc_type) None in
  let base := dp_with_id (data_id data) base in
  let weight := Some (default (1 # 2)%Q (data_importance_weight data)) in
  let base := set_metadata "index_fields" (JArray [JString "name"]) (ce_touched env) base in
  {| dp_id := dp_id base; dp_created_at := dp_created_at base; dp_updated_at := dp_updated_at base;
     dp_ontology_valid := dp_ontology_valid base; dp_version := dp_version base;
     dp_topological_rank := dp_topological_rank base; dp_metadata := dp_metadata base;
     dp_data_type := dp_data_type base;
     dp_belongs_to_set := if decide (names = []) then dp_belongs_to_set base else Some (map node_set_entry names);
     dp_source_pipeline := dp_source_pipeline base; dp_source_task := dp_source_task base;
     dp_source_node_set := if decide (names = []) then dp_source_node_set base else Some (join ", " names);
     dp_source_user := dp_source_user base; dp_source_content_hash := dp_source_content_hash base;
     dp_feedback_weight := dp_feedback_weight base; dp_importance_weight := weight |}.

(** The body of [classify_documents] for one item. *)
Definition classify_one (env : chunk_env) (data : Data) : option Document :=
  doc_type ← doc_type_of data;
  let metadata := formatted_metadata (data_external_metadata data) in
  let names := node_set_names (node_set_value metadata (data_node_set data)) in
  Some {| doc_base := document_base env doc_type data names;
          doc_document_type := doc_type;
          doc_name := data_name data;
          doc_raw_data_location := data_raw_data_location data;
          doc_mime_type := data_mime_type data;
          doc_extension := data_extension data;
          doc_data_id := data_id data;
          doc_external_metadata := metadata |}.

(** [classify_documents]; [env i]: what the [i]-th document reads of the clock and the
    id source. *)
Definition classify_documents (env : nat → chunk_env) (data_items : list Data) : list Document :=
  omap (λ '(i, data), classify_one (env i) data) (zip (seq 0 (length data_items)) data_items).

(** ** What classification keeps *)

Lemma classify_one_ids env data doc :
  classify_one env data = Some doc → doc_data_id doc = data_id data ∧ dp_id (doc_base doc) = data_id data.
Proof. unfold classify_one. by intros (ty & _ & [= <-])%bind_Some. Qed.

Lemma classify_one_is_Some env data : is_Some (classify_one env data) ↔ is_Some (doc_type_of data).
Proof. unfold classify_one. destruct (doc_type_of data); [split; by eexists|split; by intros []]. Qed.

Lemma classify_from env k items :
  map doc_data_id (omap (λ '(i, data), classify_one (env i) data) (zip (seq k (length items)) items))
  = map data_id (filter (λ data, is_Some (doc_type_of data)) items).
Proof.
  revert k. induction items as [|data items IH]; intros k; simpl; [done|].
  destruct (classify_one (env k) data) as [doc|] eqn:Hc; simpl.
  - rewrite filter_cons_True by by apply (classify_one_is_Some (env k)). simpl.
    apply classify_one_ids in Hc as [-> _]. f_equal. apply IH.
  - rewrite filter_cons_False; [apply IH|]. rewrite <-(classify_one_is_Some (env k)), Hc. by intros [].
Qed.

(** Classification keeps, in their order, exactly the items that come from DLT or
    whose extension is known; each document has the id of its item, in its data point
    and as the reference to its row, and the type the tables give; its node sets are
    those of its metadata, or else of the column. *)
Theorem classify_documents_spec env items :
  map doc_data_id (classify_documents env items)
    = map data_id (filter (λ data, is_Some (doc_type_of data)) items)
  ∧ ∀ doc, doc ∈ classify_documents env items →
      dp_id (doc_base doc) = doc_data_id doc
      ∧ dp_data_type (doc_base doc) = doc_type_to_class_name (doc_document_type doc)
      ∧ ∃ data, data ∈ items ∧ doc_type_of data = Some (doc_document_type doc)
          ∧ dp_belongs_to_set (doc_base doc)
            = let names := node_set_names (node_set_value (doc_external_metadata doc) (data_node_set data)) in
              if decide (names = []) then None else Some (map node_set_entry names).
Proof.
  split; [apply classify_from|]. intros doc ([i data] & Hin & Hc)%list_elem_of_omap.
  apply elem_of_zip_r in Hin. unfold classify_one in Hc. apply bind_Some in Hc as (ty & Hty & [= <-]).
  simpl. split; [done|]. split; [done|]. exists data. done.
Qed.
End classify.

(** Python rows written before the current layout nest their metadata. *)
Lemma nested_dlt_metadata :
  metadata_value_is_dlt_sourced
    (JObject {["data_item_external_metadata" := JObject {["source" := JString "dlt"]}]}) = true.
Proof. by rewrite !metadata_value_is_dlt_sourced_eq. Qed.
