(* ===== verification/Failure.v ===== *)
(** * The failure vocabulary of cognify (crates/cognify/src/failure.rs, error.rs)

    A stage that cannot process a chunk or a file records the failure in a
    [FailureReport]; whether the run fails is decided at its end, under a
    [FailurePolicy].  The second half of the file gives the report its meaning: it is
    a function of what was recorded, and merging two reports is recording both. *)

From S2P Require Import Prelude Strings.
From Stdlib Require Import SpecFloat Ascii.



(** ** [f64], the operations the ratio uses *)

Definition f64_prec : Z := 53.
Definition f64_emax : Z := 1024.
Definition f64_of_usize (n : nat) : spec_float := binary_normalize f64_prec f64_emax (Z.of_nat n) 0 false.
Definition f64_div : spec_float → spec_float → spec_float := SFdiv f64_prec f64_emax.
Definition f64_gt (x y : spec_float) : bool := SFltb y x.

(** ** Axes and stages *)

Inductive FailureStop := FailFast | RunToEnd.
#[export] Instance FailureStop_eq_dec : EqDecision FailureStop.
Proof. solve_decision. Defined.

(** [FailureStop::from_raise_errors] *)
Definition from_raise_errors (raise : bool) : FailureStop := if raise then FailFast else RunToEnd.

Inductive RollbackScope := WholeRun | FailedItems | KeepAll.
#[export] Instance RollbackScope_eq_dec : EqDecision RollbackScope.
Proof. solve_decision. Defined.

(** [replace(['-', ' '], "_")] *)
Definition dashes_to_underscores : string → string :=
  map_string (λ c, if decide (c = "-"%char ∨ c = " "%char) then "_"%char else c).

(** [RollbackScope::parse] *)
Definition parse_scope (raw : string) : option RollbackScope :=
  let key := dashes_to_underscores (map_string ascii_lower (trim raw)) in
  if decide (key ∈ ["whole_run"; "wholerun"; "run"]) then Some WholeRun
  else if decide (key ∈ ["failed_items"; "faileditems"; "items"]) then Some FailedItems
  else None.

Inductive FailureStage := Chunking | GraphExtraction | Summarization.
#[export] Instance FailureStage_eq_dec : EqDecision FailureStage.
Proof. solve_decision. Defined.

Definition display_stage (s : FailureStage) : string :=
  match s with
  | Chunking => "chunking"
  | GraphExtraction => "graph extraction"
  | Summarization => "summarization"
  end.

Record StageFailure := {
  sf_stage : FailureStage;
  sf_data_id : uuid;
  sf_chunk_id : option uuid;
  sf_error : string;
  sf_fails_item : bool;
}.

Definition display_failure `{UuidFormat} (f : StageFailure) : string :=
  let head := display_stage (sf_stage f) +:+ " failed for data " +:+ uuid_to_string (sf_data_id f) in
  match sf_chunk_id f with
  | Some chunk_id => head +:+ " chunk " +:+ uuid_to_string chunk_id +:+ ": " +:+ sf_error f
  | None => head +:+ ": " +:+ sf_error f
  end.

Record FailurePolicy := {
  fp_stop : FailureStop;
  fp_scope : RollbackScope;
  fp_tolerate_summarization_failures : bool;
  fp_chunk_failure_ratio_threshold : spec_float;
  fp_report_cap : nat;
}.

(** 0.05, rounded to a double. *)
Definition DEFAULT_CHUNK_FAILURE_RATIO_THRESHOLD : spec_float := S754_finite false 7205759403792794 (-57).
Definition DEFAULT_REPORT_CAP : nat := 100.

Definition FailurePolicy_default : FailurePolicy := {|
  fp_stop := FailFast;
  fp_scope := WholeRun;
  fp_tolerate_summarization_failures := false;
  fp_chunk_failure_ratio_threshold := DEFAULT_CHUNK_FAILURE_RATIO_THRESHOLD;
  fp_report_cap := DEFAULT_REPORT_CAP;
|}.

(** ** The report *)

Record FailureReport := {
  fr_entries : list StageFailure;
  fr_total : nat;
  fr_failed_items : gset uuid;
  fr_unreached_items : gset uuid;
  fr_failed_chunks : gset uuid;
  fr_summarization_failures : nat;
  fr_total_chunks : nat;
  fr_total_items : nat;
  fr_cap : nat;
  fr_budget_exhausted : bool;
}.

(** An empty report with the given cap. *)
Definition empty_report (cap : nat) : FailureReport := {|
  fr_entries := []; fr_total := 0; fr_failed_items := ∅; fr_unreached_items := ∅;
  fr_failed_chunks := ∅; fr_summarization_failures := 0; fr_total_chunks := 0;
  fr_total_items := 0; fr_cap := cap; fr_budget_exhausted := false |}.

Definition FailureReport_default : FailureReport := empty_report DEFAULT_REPORT_CAP.

(** [FailureReport::with_policy] *)
Definition with_policy (policy : FailurePolicy) : FailureReport := empty_report (fp_report_cap policy).

(** [FailureReport::record] *)
Definition record (failure : StageFailure) (r : FailureReport) : FailureReport := {|
  fr_entries := if (length (fr_entries r) <? fr_cap r)%nat then fr_entries r ++ [failure] else fr_entries r;
  fr_total := fr_total r + 1;
  fr_failed_items := if sf_fails_item failure then {[sf_data_id failure]} ∪ fr_failed_items r
                     else fr_failed_items r;
  fr_unreached_items := if sf_fails_item failure then fr_unreached_items r ∖ {[sf_data_id failure]}
                        else fr_unreached_items r;
  fr_failed_chunks := match sf_fails_item failure, sf_chunk_id failure with
                      | true, Some chunk_id => {[chunk_id]} ∪ fr_failed_chunks r
                      | _, _ => fr_failed_chunks r
                      end;
  fr_summarization_failures := if decide (sf_stage failure = Summarization)
                               then fr_summarization_failures r + 1 else fr_summarization_failures r;
  fr_total_chunks := fr_total_chunks r;
  fr_total_items := fr_total_items r;
  fr_cap := fr_cap r;
  fr_budget_exhausted := fr_budget_exhausted r |}.

Definition set_budget (b : bool) (r : FailureReport) : FailureReport := {|
  fr_entries := fr_entries r; fr_total := fr_total r; fr_failed_items := fr_failed_items r;
  fr_unreached_items := fr_unreached_items r; fr_failed_chunks := fr_failed_chunks r;
  fr_summarization_failures := fr_summarization_failures r; fr_total_chunks := fr_total_chunks r;
  fr_total_items := fr_total_items r; fr_cap := fr_cap r; fr_budget_exhausted := b |}.

(** [FailureReport::retain_failed_chunks] *)
Definition retain_failed_chunks (keep : gset uuid) (r : FailureReport) : FailureReport := {|
  fr_entries := fr_entries r; fr_total := fr_total r; fr_failed_items := fr_failed_items r;
  fr_unreached_items := fr_unreached_items r; fr_failed_chunks := fr_failed_chunks r ∩ keep;
  fr_summarization_failures := fr_summarization_failures r; fr_total_chunks := fr_total_chunks r;
  fr_total_items := fr_total_items r; fr_cap := fr_cap r;
  fr_budget_exhausted := fr_budget_exhausted r |}.

(** [FailureReport::mark_unreached] *)
Definition mark_unreached (data_id : uuid) (r : FailureReport) : FailureReport :=
  if decide (data_id ∈ fr_failed_items r) then r else {|
  fr_entries := fr_entries r; fr_total := fr_total r; fr_failed_items := fr_failed_items r;
  fr_unreached_items := {[data_id]} ∪ fr_unreached_items r; fr_failed_chunks := fr_failed_chunks r;
  fr_summarization_failures := fr_summarization_failures r; fr_total_chunks := fr_total_chunks r;
  fr_total_items := fr_total_items r; fr_cap := fr_cap r;
  fr_budget_exhausted := fr_budget_exhausted r |}.

(** [FailureReport::absorb]; the failed items are joined before the unreached ones
    are filtered, and [saturating_sub] is the subtraction of [nat]. *)
Definition absorb (other r : FailureReport) : FailureReport :=
  let failed_items := fr_failed_items r ∪ fr_failed_items other in
  let room := (fr_cap r - length (fr_entries r))%nat in {|
  fr_entries := fr_entries r ++ take room (fr_entries other);
  fr_total := fr_total r + fr_total other;
  fr_failed_items := failed_items;
  fr_unreached_items := (fr_unreached_items r ∪ fr_unreached_items other) ∖ failed_items;
  fr_failed_chunks := fr_failed_chunks r ∪ fr_failed_chunks other;
  fr_summarization_failures := fr_summarization_failures r + fr_summarization_failures other;
  fr_total_chunks := if decide (fr_total_chunks r = 0) then fr_total_chunks other else fr_total_chunks r;
  fr_total_items := if decide (fr_total_items r = 0) then fr_total_items other else fr_total_items r;
  fr_cap := fr_cap r;
  fr_budget_exhausted := fr_budget_exhausted r || fr_budget_exhausted other |}.

(** [FailureReport::note_totals] *)
Definition note_totals (items chunks : nat) (r : FailureReport) : FailureReport := {|
  fr_entries := fr_entries r; fr_total := fr_total r; fr_failed_items := fr_failed_items r;
  fr_unreached_items := fr_unreached_items r; fr_failed_chunks := fr_failed_chunks r;
  fr_summarization_failures := fr_summarization_failures r; fr_total_chunks := chunks;
  fr_total_items := items; fr_cap := fr_cap r; fr_budget_exhausted := fr_budget_exhausted r |}.

(** [FailureReport::is_empty] *)
Definition report_is_empty (r : FailureReport) : bool :=
  bool_decide (fr_total r = 0) && bool_decide (fr_unreached_items r = ∅).

(** [FailureReport::truncated] *)
Definition truncated (r : FailureReport) : nat := fr_total r - length (fr_entries r).

(** [FailureReport::chunk_failure_ratio] *)
Definition chunk_failure_ratio (r : FailureReport) : spec_float :=
  if decide (fr_total_chunks r = 0) then S754_zero false
  else f64_div (f64_of_usize (size (fr_failed_chunks r))) (f64_of_usize (fr_total_chunks r)).

(** [FailureReport::is_fatal] *)
Definition is_fatal (policy : FailurePolicy) (r : FailureReport) : bool :=
  if decide (fr_failed_items r = ∅) then false
  else match fp_scope policy with
  | WholeRun | KeepAll => true
  | FailedItems =>
      let survived := (fr_total_items r - (size (fr_failed_items r) + size (fr_unreached_items r)))%nat in
      if decide (0 < fr_total_items r ∧ survived = 0)%nat then true
      else f64_gt (chunk_failure_ratio r) (fp_chunk_failure_ratio_threshold policy)
  end.

Definition display_report `{UuidFormat} (r : FailureReport) : string :=
  pretty (fr_total r) +:+ " failure(s) (" +:+ pretty (length (fr_entries r)) +:+ " shown, "
  +:+ pretty (truncated r) +:+ " omitted)"
  +:+ String.concat "" (map (λ entry, "; " +:+ display_failure entry) (fr_entries r))
  +:+ (if decide (fr_unreached_items r = ∅) then ""
       else "; " +:+ pretty (size (fr_unreached_items r)) +:+ " item(s) never attempted").

(** ** Errors of cognify *)

Inductive CognifyError :=
  | ConfigError (e : string)
  | ChunkingError (e : string)
  | GraphExtractionError (e : string)
  | SummarizationError (e : string)
  | StorageError (e : string)
  | LlmError (e : string)
  | PaymentRequired (e : string)
  | FactExtractionError (e : string)
  | GraphDatabaseError (e : string)
  | GraphStorageError (e : string)
  | EmbeddingError (e : string)
  | VectorDBError (e : string)
  | DatasetResolutionError (e : string)
  | DatabaseError (e : string)
  | SerializationError (e : string)
  | UnsupportedDocumentType (e : string)
  | ContextBuild (e : string)
  | Execute (e : string)
  | RunFailed (report : FailureReport)
  | OutputTypeMismatch (expected actual : string).

Definition display_cognify_error `{UuidFormat} (e : CognifyError) : string :=
  match e with
  | ConfigError e => "Configuration error: " +:+ e
  | ChunkingError e => "Chunking error: " +:+ e
  | GraphExtractionError e => "Graph extraction error: " +:+ e
  | SummarizationError e => "Summarization error: " +:+ e
  | StorageError e => "Storage error: " +:+ e
  | LlmError e => "LLM error: " +:+ e
  | PaymentRequired e => "LLM payment required: " +:+ e
  | FactExtractionError e => "Fact extraction error: " +:+ e
  | GraphDatabaseError e => "Graph database query failed: " +:+ e
  | GraphStorageError e => "Failed to store graph: " +:+ e
  | EmbeddingError e => "Embedding generation error: " +:+ e
  | VectorDBError e => "Vector database error: " +:+ e
  | DatasetResolutionError e => "Dataset resolution error: " +:+ e
  | DatabaseError e => "Database error: " +:+ e
  | SerializationError e => "Serialization error: " +:+ e
  | UnsupportedDocumentType e => "Unsupported document type: " +:+ e
  | ContextBuild e => "Task context build failed: " +:+ e
  | Execute e => "Pipeline execution failed: " +:+ e
  | RunFailed report => "cognify run failed: " +:+ display_report report
  | OutputTypeMismatch expected actual => "Output type mismatch: expected " +:+ expected +:+ ", got " +:+ actual
  end.

(** [CognifyError::is_budget_exhausted] *)
Definition is_budget_exhausted (e : CognifyError) : bool :=
  match e with
  | PaymentRequired _ => true
  | RunFailed report => fr_budget_exhausted report
  | _ => false
  end.

(** [FailureReport::record_error] *)
Definition record_error (failure : StageFailure) (error : CognifyError) (r : FailureReport) : FailureReport :=
  record failure (if is_budget_exhausted error then set_budget true r else r).

(** ** What a report means

    A log of what the stages did to a report, in order. *)

Inductive report_op :=
  | Recorded (failure : StageFailure) (budget : bool)
  | Unreached (data_id : uuid).

Definition apply_op (r : FailureReport) (op : report_op) : FailureReport :=
  match op with
  | Recorded failure budget => record failure (if budget then set_budget true r else r)
  | Unreached data_id => mark_unreached data_id r
  end.

Definition replay (ops : list report_op) (r : FailureReport) : FailureReport := foldl apply_op r ops.

Definition failure_of (op : report_op) : option StageFailure :=
  match op with Recorded failure _ => Some failure | Unreached _ => None end.
Definition unreached_of (op : report_op) : option uuid :=
  match op with Recorded _ _ => None | Unreached data_id => Some data_id end.
Definition failed_item_of (op : report_op) : option uuid :=
  failure ← failure_of op; if sf_fails_item failure then Some (sf_data_id failure) else None.
Definition failed_chunk_of (op : report_op) : option uuid :=
  failure ← failure_of op; if sf_fails_item failure then sf_chunk_id failure else None.
Definition is_budget (op : report_op) : bool :=
  match op with Recorded _ budget => budget | Unreached _ => false end.

Definition failed (ops : list report_op) : gset uuid := list_to_set (omap failed_item_of ops).
Definition never_reached (ops : list report_op) : gset uuid := list_to_set (omap unreached_of ops).

(** The report of a log. *)
Definition summary (cap : nat) (ops : list report_op) : FailureReport := {|
  fr_entries := take cap (omap failure_of ops);
  fr_total := length (omap failure_of ops);
  fr_failed_items := failed ops;
  fr_unreached_items := never_reached ops ∖ failed ops;
  fr_failed_chunks := list_to_set (omap failed_chunk_of ops);
  fr_summarization_failures := length (filter (λ failure, sf_stage failure = Summarization) (omap failure_of ops));
  fr_total_chunks := 0;
  fr_total_items := 0;
  fr_cap := cap;
  fr_budget_exhausted := existsb is_budget ops |}.

Lemma report_eq r r' :
  fr_entries r = fr_entries r' → fr_total r = fr_total r' → fr_failed_items r = fr_failed_items r' →
  fr_unreached_items r = fr_unreached_items r' → fr_failed_chunks r = fr_failed_chunks r' →
  fr_summarization_failures r = fr_summarization_failures r' → fr_total_chunks r = fr_total_chunks r' →
  fr_total_items r = fr_total_items r' → fr_cap r = fr_cap r' →
  fr_budget_exhausted r = fr_budget_exhausted r' → r = r'.
Proof. destruct r, r'; simpl. congruence. Qed.

Lemma failed_app k l : failed (k ++ l) = failed k ∪ failed l.
Proof. unfold failed. by rewrite omap_app, list_to_set_app_L. Qed.
Lemma never_reached_app k l : never_reached (k ++ l) = never_reached k ∪ never_reached l.
Proof. unfold never_reached. by rewrite omap_app, list_to_set_app_L. Qed.

(** The capped list of entries. *)
Lemma take_snoc_capped {A} (cap : nat) (l : list A) x :
  (if (length (take cap l) <? cap)%nat then take cap l ++ [x] else take cap l) = take cap (l ++ [x]).
Proof.
  rewrite length_take, take_app. case_match eqn:Hlen; (apply Nat.ltb_lt in Hlen || apply Nat.ltb_ge in Hlen).
  - by rewrite (take_ge [x]) by (simpl; lia).
  - replace (cap - length l) with 0 by lia. by rewrite app_nil_r.
Qed.

Lemma record_summary cap ops f b :
  apply_op (summary cap ops) (Recorded f b) = summary cap (ops ++ [Recorded f b]).
Proof.
  apply report_eq; simpl; rewrite ?failed_app, ?never_reached_app, ?omap_app, ?existsb_app,
    ?list_to_set_app_L; unfold failed, never_reached; simpl; destruct b; simpl;
    rewrite ?orb_true_r, ?orb_false_r, ?length_app; simpl; try done.
  all: try (unfold failed_item_of, failed_chunk_of; simpl; destruct (sf_fails_item f); simpl; [|set_solver];
    try destruct (sf_chunk_id f); set_solver).
  all: try (rewrite filter_app, length_app, filter_cons; case_decide; simpl; lia).
  all: apply take_snoc_capped.
Qed.

Lemma unreached_summary cap ops data_id :
  apply_op (summary cap ops) (Unreached data_id) = summary cap (ops ++ [Unreached data_id]).
Proof.
  simpl. unfold mark_unreached. case_decide as Hin; simpl in Hin; apply report_eq; simpl;
    rewrite ?failed_app, ?never_reached_app, ?omap_app, ?existsb_app, ?list_to_set_app_L;
    unfold failed, never_reached in *; simpl; rewrite ?app_nil_r, ?orb_false_r; try done; set_solver.
Qed.

(** The report a log leaves. *)
Lemma replay_summary cap ops ops' : replay ops' (summary cap ops) = summary cap (ops ++ ops').
Proof.
  revert ops. induction ops' as [|op ops' IH]; intros ops; [by rewrite app_nil_r|].
  change (replay (op :: ops') ?r) with (replay ops' (apply_op r op)).
  rewrite (cons_middle op ops ops'), (assoc_L (++)), <- IH. f_equal.
  destruct op; [apply record_summary|apply unreached_summary].
Qed.

Lemma replay_with_policy policy ops : replay ops (with_policy policy) = summary (fp_report_cap policy) ops.
Proof.
  trans (replay ops (summary (fp_report_cap policy) [])); [|apply replay_summary]. f_equal.
  apply report_eq; simpl; rewrite ?take_nil; done.
Qed.

(** A sibling absorbed. *)
Lemma absorb_summary cap items chunks ops ops' :
  absorb (summary cap ops') (note_totals items chunks (summary cap ops))
  = note_totals items chunks (summary cap (ops ++ ops')).
Proof.
  apply report_eq; simpl; rewrite ?failed_app, ?never_reached_app, ?omap_app, ?existsb_app,
    ?list_to_set_app_L, ?filter_app, ?length_app; try done; [| |by case_decide as Hz; rewrite ?Hz..].
  - rewrite take_app, length_take, take_take. f_equal. f_equal. lia.
  - apply set_eq. intros x. rewrite !elem_of_difference, !elem_of_union, !elem_of_difference. tauto.
Qed.

(** ** Theorems *)

(** A failure report is a function of the log of what was recorded: its entries
    are the first failures up to the cap, its counters count all of them, its failed
    items and chunks are those of the failures that fail their item, and its unreached
    items are the never attempted ones that did not fail.  Absorbing the report of a
    stage that ran alongside, capped alike, is having recorded its log as well. *)
Theorem report_is_its_log policy items chunks ops ops' :
  let report := summary (fp_report_cap policy) in
  replay ops (with_policy policy) = report ops
  ∧ absorb (replay ops' (with_policy policy)) (note_totals items chunks (replay ops (with_policy policy)))
    = note_totals items chunks (report (ops ++ ops')).
Proof.
  cbv zeta. rewrite !replay_with_policy. split; [done|]. apply absorb_summary.
Qed.

Lemma survivors_none items ops :
  failed ops ∪ never_reached ops ⊆ items →
  size items - (size (failed ops) + size (never_reached ops ∖ failed ops)) = 0 ↔
  items ⊆ failed ops ∪ never_reached ops.
Proof.
  intros Hin. assert (Hs : size (failed ops) + size (never_reached ops ∖ failed ops)
    = size (failed ops ∪ never_reached ops)).
  { rewrite <- size_union by set_solver. f_equal. apply set_eq. intros x.
    rewrite !elem_of_union, elem_of_difference. destruct (decide (x ∈ failed ops)); tauto. }
  rewrite Hs. split; intros H.
  - assert (items ≡ failed ops ∪ never_reached ops) as Heq; [|set_solver].
    symmetry. apply set_subseteq_size_equiv; [done|lia].
  - apply subseteq_size in H. lia.
Qed.

(** A run whose failures concern its own items fails exactly when an item failed
    and one of these holds: the scope is not [FailedItems]; every item failed or was
    never reached; more chunks failed than the threshold allows.  The answer, and the
    items left out of the completion markers, do not depend on the order in which the
    stages recorded their failures. *)
Theorem is_fatal_spec policy (items : gset uuid) chunks ops ops' :
  ops ≡ₚ ops' → failed ops ∪ never_reached ops ⊆ items →
  let report := note_totals (size items) chunks (replay ops' (with_policy policy)) in
  (is_fatal policy report = true ↔
     failed ops ≠ ∅ ∧ (fp_scope policy ≠ FailedItems ∨ items ⊆ failed ops ∪ never_reached ops
                       ∨ f64_gt (chunk_failure_ratio report) (fp_chunk_failure_ratio_threshold policy) = true))
  ∧ fr_failed_items report ∪ fr_unreached_items report = failed ops ∪ never_reached ops.
Proof.
  intros Hp Hin. cbv zeta. rewrite replay_with_policy.
  assert (Hf : failed ops' = failed ops) by (unfold failed; by rewrite Hp).
  assert (Hu : never_reached ops' = never_reached ops) by (unfold never_reached; by rewrite Hp).
  split.
  - unfold is_fatal. cbn -[chunk_failure_ratio]. rewrite Hf, Hu.
    pose proof (survivors_none items ops Hin) as Hs.
    case_decide as Hz; [split; [done|tauto]|].
    destruct (fp_scope policy); [split; [split; [done|by left]|done]| |split; [split; [done|by left]|done]].
    assert (0 < size items) as Hpos.
    { destruct (decide (size items = 0)) as [H0|]; [|lia]. apply size_empty_inv in H0.
      destruct Hz. set_solver. }
    case_decide as Hc.
    + split; [|done]. intros _. split; [done|]. right; left. tauto.
    + split; [intros Hg; split; [done|by auto]|]. intros [_ [|[Hi|Hg]]]; [done| |done]. tauto.
  - simpl. rewrite Hf, Hu. apply set_eq. intros x.
    rewrite !elem_of_union, elem_of_difference. destruct (decide (x ∈ failed ops)); tauto.
Qed.

(** Two files of ten chunks: one fails in one chunk, the other is not reached. *)
Definition ex_failure : StageFailure := {|
  sf_stage := GraphExtraction; sf_data_id := 1; sf_chunk_id := Some 10%N; sf_error := "timeout";
  sf_fails_item := true |}.

Example is_fatal_spec_witness :
  let policy := {| fp_stop := FailFast; fp_scope := FailedItems; fp_tolerate_summarization_failures := false;
                   fp_chunk_failure_ratio_threshold := DEFAULT_CHUNK_FAILURE_RATIO_THRESHOLD;
                   fp_report_cap := 1 |} in
  let report := note_totals 2 100 (replay [Unreached 2; Recorded ex_failure false] (with_policy policy)) in
  f64_gt (chunk_failure_ratio report) (fp_chunk_failure_ratio_threshold policy) = false
  ∧ is_fatal policy report = true.
Proof.
  intros policy report. split; [by vm_compute|].
  apply (is_fatal_spec policy {[1%N; 2%N]} 100 [Recorded ex_failure false; Unreached 2]
    [Unreached 2; Recorded ex_failure false] ltac:(apply perm_swap)
    ltac:(refine (bool_decide_unpack _ _); vm_compute; exact I)).
  split; [by vm_compute|]. right; left. refine (bool_decide_unpack _ _). vm_compute. exact I.
Defined.

(** The default threshold is five chunks of a hundred, and it must be exceeded. *)
Lemma default_threshold :
  f64_div (f64_of_usize 5) (f64_of_usize 100) = DEFAULT_CHUNK_FAILURE_RATIO_THRESHOLD
  ∧ f64_gt (f64_div (f64_of_usize 5) (f64_of_usize 100)) DEFAULT_CHUNK_FAILURE_RATIO_THRESHOLD = false
  ∧ f64_gt (f64_div (f64_of_usize 6) (f64_of_usize 100)) DEFAULT_CHUNK_FAILURE_RATIO_THRESHOLD = true.
Proof. by vm_compute. Qed.
