(* ===== verification/Config.v ===== *)
(** * The configuration of cognify (crates/cognify/src/config.rs, crates/chunking/src/config.rs)

    The settings a run reads, how the token counter and the chunk size are resolved,
    and the validation every run starts with. *)

From S2P Require Import Prelude Json Strings Text TokenCounter Failure.
From Stdlib Require Import SpecFloat.
#[local] Open Scope nat_scope.

(** ** Token counters *)

Inductive TokenCounterKind :=
  | HuggingFace (model_id : string)
  | HuggingFaceFile (path : string)
  | TikToken
  | WordKind.

#[export] Instance TokenCounterKind_eq_dec : EqDecision TokenCounterKind.
Proof. solve_decision. Defined.

(** [TokenCounterKind::resolve]; [exists_file]: [Path::exists]. *)
Definition resolve `{Lowercase} (exists_file : string → bool)
    (token_counter hf_tokenizer embedding_provider tokenizer_path : string) : TokenCounterKind :=
  let hf_model := let id := trim hf_tokenizer in if decide (id = "") then None else Some (HuggingFace id) in
  let counter := to_lowercase (trim token_counter) in
  let by_provider :=
    let provider := to_lowercase (trim embedding_provider) in
    if decide (provider ∈ ["onnx"; "fastembed"]) then
      let p := trim tokenizer_path in
      if negb (bool_decide (p = "")) && exists_file p then HuggingFaceFile p else WordKind
    else if decide (provider ∈ [""; "openai"; "openai_compatible"]) then TikToken
    else if decide (provider = "bedrock") then TikToken
    else WordKind in
  let rest := default by_provider hf_model in
  if decide (counter = "tiktoken") then TikToken
  else if decide (counter = "word") then WordKind
  else if decide (counter ∈ ["huggingface"; "hf"]) then default rest hf_model
  else rest.

(** The cargo features the counters need. *)
Record features := { feat_hf_tokenizer : bool; feat_tiktoken : bool }.

(** [TokenCounterKind::effective] *)
Definition effective (feat : features) (kind : TokenCounterKind) : TokenCounterKind :=
  match kind with
  | WordKind => WordKind
  | HuggingFace _ | HuggingFaceFile _ => if feat_hf_tokenizer feat then kind else WordKind
  | TikToken => if feat_tiktoken feat then TikToken else WordKind
  end.

Definition WORD_TOKENS_UPPER_BOUND : nat := 150.

(** [TokenCounterKind::fit_token_budget] *)
Definition fit_token_budget (feat : features) (kind : TokenCounterKind) (token_budget : nat) : nat :=
  match effective feat kind with
  | HuggingFace _ | HuggingFaceFile _ | TikToken => token_budget
  | WordKind => (token_budget * 100 / WORD_TOKENS_UPPER_BOUND) `max` 1
  end.

(** ** [CognifyConfig] *)

Inductive ExtractionStrategy := SinglePass | Cascade (rounds : nat).

#[export] Instance ExtractionStrategy_eq_dec : EqDecision ExtractionStrategy.
Proof. solve_decision. Defined.

(** [ExtractionStrategy::parse] *)
Definition parse_strategy (name : string) (cascade_rounds : nat) : option ExtractionStrategy :=
  let name := map_string ascii_lower (trim name) in
  if decide (name ∈ [""; "single_pass"; "single-pass"]) then Some SinglePass
  else if decide (name = "cascade") then Some (Cascade (cascade_rounds `max` 1))
  else None.

Inductive ChunkAttachment := AttachDirect | AttachAll.

(** The settings the run and its stages read; of the graph backend, whether it
    summarizes. *)
Record CognifyConfig := {
  cc_max_chunk_size : option nat;
  cc_chunks_per_batch : nat;
  cc_max_parallel_extractions : nat;
  cc_extraction_strategy : ExtractionStrategy;
  cc_enable_summarization : bool;
  cc_incremental_loading : bool;
  cc_run_ownership_dir : option string;
  cc_token_counter_kind : TokenCounterKind;
  cc_token_count_mode : TokenCountMode;
  cc_failure_stop : FailureStop;
  cc_rollback_scope : RollbackScope;
  cc_tolerate_summarization_failures : bool;
  cc_chunk_failure_ratio_threshold : spec_float;
  cc_failure_report_cap : nat;
  cc_graph_schema : option json;
  cc_chunk_attachment : option ChunkAttachment;
  cc_summary_schema : option json;
  cc_graph_backend : option bool;
}.

Definition DEFAULT_CHUNKS_PER_BATCH : nat := 2000.
Definition DEFAULT_MAX_PARALLEL_EXTRACTIONS : nat := 1000.
Definition DEFAULT_MAX_CHUNK_SIZE : nat := 1500.

(** [CognifyConfig::default] *)
Definition CognifyConfig_default : CognifyConfig := {|
  cc_max_chunk_size := None;
  cc_chunks_per_batch := DEFAULT_CHUNKS_PER_BATCH;
  cc_max_parallel_extractions := DEFAULT_MAX_PARALLEL_EXTRACTIONS;
  cc_extraction_strategy := SinglePass;
  cc_enable_summarization := true;
  cc_incremental_loading := true;
  cc_run_ownership_dir := None;
  cc_token_counter_kind := TikToken;
  cc_token_count_mode := Span;
  cc_failure_stop := FailFast;
  cc_rollback_scope := WholeRun;
  cc_tolerate_summarization_failures := false;
  cc_chunk_failure_ratio_threshold := DEFAULT_CHUNK_FAILURE_RATIO_THRESHOLD;
  cc_failure_report_cap := DEFAULT_REPORT_CAP;
  cc_graph_schema := None;
  cc_chunk_attachment := None;
  cc_summary_schema := None;
  cc_graph_backend := None |}.

(** [with_chunk_size_opt] *)
Definition with_chunk_size_opt (size : option nat) (c : CognifyConfig) : CognifyConfig := {|
  cc_max_chunk_size := size;
  cc_chunks_per_batch := cc_chunks_per_batch c;
  cc_max_parallel_extractions := cc_max_parallel_extractions c;
  cc_extraction_strategy := cc_extraction_strategy c;
  cc_enable_summarization := cc_enable_summarization c;
  cc_incremental_loading := cc_incremental_loading c;
  cc_run_ownership_dir := cc_run_ownership_dir c;
  cc_token_counter_kind := cc_token_counter_kind c;
  cc_token_count_mode := cc_token_count_mode c;
  cc_failure_stop := cc_failure_stop c;
  cc_rollback_scope := cc_rollback_scope c;
  cc_tolerate_summarization_failures := cc_tolerate_summarization_failures c;
  cc_chunk_failure_ratio_threshold := cc_chunk_failure_ratio_threshold c;
  cc_failure_report_cap := cc_failure_report_cap c;
  cc_graph_schema := cc_graph_schema c;
  cc_chunk_attachment := cc_chunk_attachment c;
  cc_summary_schema := cc_summary_schema c;
  cc_graph_backend := cc_graph_backend c |}.

(** [CognifyConfig::chunk_size] *)
Definition chunk_size (c : CognifyConfig) : nat := default DEFAULT_MAX_CHUNK_SIZE (cc_max_chunk_size c).

(** [CognifyConfig::failure_policy] *)
Definition failure_policy (config : CognifyConfig) : FailurePolicy := {|
  fp_stop := cc_failure_stop config;
  fp_scope := cc_rollback_scope config;
  fp_tolerate_summarization_failures := cc_tolerate_summarization_failures config;
  fp_chunk_failure_ratio_threshold := cc_chunk_failure_ratio_threshold config;
  fp_report_cap := cc_failure_report_cap config |}.

(** [CognifyConfig::auto_chunk_size], from the two engines' limits. *)
Definition auto_chunk_size (max_sequence_length max_completion_tokens : nat) : nat :=
  (max_completion_tokens / 2) `min` max_sequence_length `max` 1.

(** [CognifyConfig::with_auto_chunk_size] *)
Definition with_auto_chunk_size (feat : features) (max_sequence_length max_completion_tokens : nat)
    (c : CognifyConfig) : CognifyConfig :=
  let budget := auto_chunk_size max_sequence_length max_completion_tokens in
  with_chunk_size_opt (Some (fit_token_budget feat (cc_token_counter_kind c) budget)) c.

(** ** Validation *)

Inductive ConfigError :=
  | InvalidParameter (e : string)
  | InvalidSummarySchema (e : string)
  | InvalidGraphSchema (e : string).

Definition display_config_error (e : ConfigError) : string :=
  match e with
  | InvalidParameter e => "Invalid configuration parameter: " +:+ e
  | InvalidSummarySchema e => "Invalid summary schema: " +:+ e
  | InvalidGraphSchema e => "Invalid graph schema: " +:+ e
  end.

(** [x.is_finite() && (0.0..=1.0).contains(&x)] *)
Definition f64_one : spec_float := S754_finite false 4503599627370496 (-52).
Definition in_unit_interval (x : spec_float) : bool :=
  match x with
  | S754_zero _ | S754_finite _ _ _ => SFleb (S754_zero false) x && SFleb x f64_one
  | _ => false
  end.

(** [CognifyConfig::validate]; [compile_schema]: the error of
    [DynamicGraphSchema::compile], if any. *)
Definition validate (compile_schema : json → option string) (c : CognifyConfig) : result ConfigError () :=
  let schema := bool_decide (is_Some (cc_graph_schema c)) in
  if bool_decide (is_Some (cc_chunk_attachment c)) && negb schema then
    Err (InvalidParameter "chunk_attachment requires graph_schema")
  else if schema && bool_decide (is_Some (cc_graph_backend c)) then
    Err (InvalidParameter "graph_schema is only supported by the LLM extractor; unset graph_backend")
  else if schema && match cc_extraction_strategy c with Cascade _ => true | SinglePass => false end then
    Err (InvalidParameter "graph_schema is only supported by the single_pass extraction strategy")
  else match cc_graph_schema c ≫= compile_schema with
  | Some e => Err (InvalidGraphSchema e)
  | None =>
      if decide (cc_max_chunk_size c = Some 0) then
        Err (InvalidParameter "max_chunk_size must be greater than 0")
      else if decide (cc_chunks_per_batch c = 0) then
        Err (InvalidParameter "chunks_per_batch must be greater than 0")
      else if decide (cc_max_parallel_extractions c = 0) then
        Err (InvalidParameter "max_parallel_extractions must be greater than 0")
      else if decide (cc_extraction_strategy c = Cascade 0) then
        Err (InvalidParameter "extraction_strategy cascade rounds must be greater than 0")
      else if negb (in_unit_interval (cc_chunk_failure_ratio_threshold c)) then
        Err (InvalidParameter "chunk_failure_ratio_threshold must be a finite value between 0.0 and 1.0")
      else if decide (cc_failure_report_cap c = 0) then
        Err (InvalidParameter "failure_report_cap must be greater than 0")
      else Ok ()
  end.

(** [validate_summary_schema] *)
Definition validate_summary_schema (schema : json) : result ConfigError () :=
  match schema with
  | JObject _ =>
      match json_get "properties" schema with
      | Some (JObject _ as props) =>
          match json_get "summary" props with
          | None => Err (InvalidSummarySchema "schema 'properties' must include a 'summary' field")
          | Some summary_prop =>
              match json_get "type" summary_prop with
              | Some type_val =>
                  if decide (json_as_str type_val = Some "string") then Ok ()
                  else Err (InvalidSummarySchema "'summary' field must be of type 'string'")
              | None => Ok ()
              end
          end
      | _ => Err (InvalidSummarySchema "schema must have a 'properties' object")
      end
  | _ => Err (InvalidSummarySchema "schema must be a JSON object")
  end.

(** The configuration of [cognify_in_scope]: validated, sized, validated again. *)
Definition effective_config (compile_schema : json → option string) (feat : features)
    (max_sequence_length max_completion_tokens : nat) (config : CognifyConfig) : result ConfigError CognifyConfig :=
  result_bind (validate compile_schema config) (λ _,
  match cc_max_chunk_size config with
  | None =>
      let cfg := with_auto_chunk_size feat max_sequence_length max_completion_tokens config in
      result_map (λ _, cfg) (validate compile_schema cfg)
  | Some _ => Ok config
  end).

(** ** What validation gives *)

Lemma fit_token_budget_pos feat kind n : 1 ≤ n → 1 ≤ fit_token_budget feat kind n.
Proof. unfold fit_token_budget. destruct (effective feat kind); lia. Qed.

(** What a validated configuration lets the stages rely on. *)
Record valid_config (c : CognifyConfig) : Prop := {
  vc_batch : 0 < cc_chunks_per_batch c;
  vc_parallel : 0 < cc_max_parallel_extractions c;
  vc_cap : 0 < cc_failure_report_cap c;
  vc_chunk : 0 < chunk_size c;
}.

Lemma validate_valid compile_schema c : validate compile_schema c = Ok () → valid_config c.
Proof.
  unfold validate. intros H. split_match; split; try lia.
  all: unfold chunk_size, DEFAULT_MAX_CHUNK_SIZE; destruct (cc_max_chunk_size c) as [[|]|]; simpl; lia || done.
Qed.

(** The size is never what fails. *)
Lemma validate_resized compile_schema c n :
  cc_max_chunk_size c = None → validate compile_schema (with_chunk_size_opt (Some (S n)) c) = validate compile_schema c.
Proof. intros Hn. unfold validate. simpl. rewrite Hn. by repeat (case_match; try done). Qed.

(** Resolving the configuration of a run fails exactly when the caller's own
    configuration is invalid: the chunk size computed from the engines' limits is at
    least one and never fails the second validation.  The result has a positive batch
    size, window, report cap and chunk size, and keeps the caller's chunk size; a
    computed size is within the embedding engine's limit (or one), and in words only
    two thirds of it. *)
Theorem effective_config_spec compile_schema feat max_seq max_tokens config :
  match effective_config compile_schema feat max_seq max_tokens config with
  | Err e => validate compile_schema config = Err e
  | Ok cfg => validate compile_schema config = Ok () ∧ valid_config cfg
      ∧ failure_policy cfg = failure_policy config
      ∧ match cc_max_chunk_size config with
        | Some n => chunk_size cfg = n
        | None => chunk_size cfg ≤ max_seq `max` 1
            ∧ (effective feat (cc_token_counter_kind config) = WordKind →
               chunk_size cfg ≤ (2 * max_seq / 3) `max` 1)
        end
  end.
Proof.
  unfold effective_config. destruct (validate compile_schema config) as [[]|e] eqn:Hv; simpl; [|done].
  destruct (cc_max_chunk_size config) as [n|] eqn:Hn.
  { split; [done|]. split; [by eapply validate_valid|]. split; [done|]. unfold chunk_size. by rewrite Hn. }
  unfold with_auto_chunk_size. set (budget := auto_chunk_size max_seq max_tokens).
  assert (Hb : 1 ≤ budget ∧ budget ≤ max_seq `max` 1) by (unfold budget, auto_chunk_size; lia).
  set (size := fit_token_budget feat (cc_token_counter_kind config) budget).
  assert (Hs : 1 ≤ size) by (apply fit_token_budget_pos; lia).
  assert (Hle : size ≤ max_seq `max` 1 ∧ (effective feat (cc_token_counter_kind config) = WordKind →
    size ≤ (2 * max_seq / 3) `max` 1)).
  { unfold size, fit_token_budget, WORD_TOKENS_UPPER_BOUND.
    assert (Hw : (budget * 100 / 150) `max` 1 ≤ (2 * max_seq / 3) `max` 1).
    { rewrite <-(Nat.Div0.div_mul_cancel_r (2 * max_seq) 3 50) by lia. simpl (3 * 50).
      destruct (decide (max_seq = 0)); [subst; assert (budget = 1) as -> by lia; simpl; lia|].
      apply Nat.max_le_compat_r, Nat.Div0.div_le_mono. lia. }
    assert (Hw' : (2 * max_seq / 3) `max` 1 ≤ max_seq `max` 1).
    { apply Nat.max_le_compat_r. apply Nat.Div0.div_le_upper_bound. lia. }
    destruct (effective _ _); (split; [lia|]); try done; lia. }
  destruct size as [|m] eqn:Hsz; [lia|]. rewrite validate_resized, Hv by done. simpl.
  split; [done|]. split; [|done].
  eapply validate_valid. by rewrite validate_resized.
Qed.
