(* ===== verification/Rollback.v ===== *)
(** * What the end of a cognify run does (crates/cognify/src/rollback.rs)

    A finished run is swept as a whole, item by item or not at all; the items that
    survive it are marked complete, and the next run skips the marked ones. *)

From stdpp Require Import sorting.
From S2P Require Import Prelude Json Strings Markers Ledger LedgerFacts Artifacts Sweep SweepFacts SweepSpec.
From S2P Require Import Models Pipeline RunRecords Failure.

#[local] Open Scope cog_scope.

(** ** The watcher that captures the run *)

Section capture.
Context {R : Type} `{PipelineRunRepository R} (uuid_to_string : uuid → string).

Record RunIdCapturingWatcher := {
  cw_inner : @DbPipelineWatcher R;
  cw_captured : option (uuid * uuid);
}.

(** [RunIdCapturingWatcher::new] *)
Definition RunIdCapturingWatcher_new (repo : R) : RunIdCapturingWatcher :=
  {| cw_inner := DbPipelineWatcher_new repo; cw_captured := None |}.

Definition terminal_write_failed (w : RunIdCapturingWatcher) : bool := dw_terminal_write_failed (cw_inner w).
Definition run_id (w : RunIdCapturingWatcher) : option uuid := fst <$> cw_captured w.
Definition pipeline_id (w : RunIdCapturingWatcher) : option uuid := snd <$> cw_captured w.

Definition cw_on_run_started (run : PipelineRunInfo) (w : RunIdCapturingWatcher) : RunIdCapturingWatcher := {|
  cw_inner := dw_on_run_started uuid_to_string run (cw_inner w);
  cw_captured := Some (ri_run_id run, ri_pipeline_id run) |}.

(** The terminal callbacks are forwarded; [dw_conclude] is their sequence. *)
Definition cw_conclude (re : run_env) (run : PipelineRunInfo) (result : result ExecutionError nat)
    (w : RunIdCapturingWatcher) : RunIdCapturingWatcher :=
  {| cw_inner := dw_conclude re run result (cw_inner w); cw_captured := cw_captured w |}.
End capture.
Arguments RunIdCapturingWatcher : clear implicits.

(** ** The decision *)

Inductive RunEnding := RunEndedFailed | RunEndedCompleted (report : FailureReport).

Inductive SweepDecision := SweepNothing | SweepWholeRun | SweepItems (items : list uuid).

(** [outstanding_items]: a union of [BTreeSet]s, in order. *)
Definition outstanding_items (report : FailureReport) : list uuid :=
  in_order (fr_failed_items report ∪ fr_unreached_items report).

(** [decide_sweep] *)
Definition decide_sweep (scope : RollbackScope) (ending : RunEnding) : SweepDecision :=
  match scope, ending with
  | KeepAll, _ => SweepNothing
  | WholeRun, RunEndedFailed => SweepWholeRun
  | WholeRun, RunEndedCompleted _ => SweepNothing
  | FailedItems, RunEndedFailed => SweepWholeRun
  | FailedItems, RunEndedCompleted report =>
      match outstanding_items report with
      | [] => SweepNothing
      | items => SweepItems items
      end
  end.

(** ** The two exit paths *)

(** What the policy layer knows of the run. *)
Record RunContext := {
  rc_dataset_id : uuid;
  rc_pipeline_run_id : option uuid;
  rc_pipeline_id : option uuid;
  rc_pipeline_name : string;
  rc_processed : list uuid;
  rc_incremental_loading : bool;
  rc_rollback_scope : RollbackScope;
}.

(** The clock, the calls of the sweep that fail, and the marker writes that do. *)
Record rollback_env := {
  rb_now : Z;
  rb_sweep_plan : list (option failure);
  rb_mark : uuid → option failure;
}.

Section rollback.
Context `{UuidFormat, SerdeJson, Lowercase} (new_v5 : uuid → string → uuid) (env : rollback_env).
Context {R : Type} `{PipelineRunRepository R}.

(** [RunContext::sweep]; the outcome is logged. *)
Definition ctx_sweep (scope : SweepScope) (st : stores) : stores :=
  snd (sweep_logging_failure new_v5 (rb_now env) scope (rb_sweep_plan env) st).

(** One call of [mark_complete]; an error is logged. *)
Definition mark_one (dataset_id data_id : uuid) (st : stores) : stores :=
  match rb_mark env data_id with
  | Some (Refused _) => st
  | Some (Unanswered _) | None =>
      with_data (mark_cognify_pipeline_status_complete (rb_now env) data_id dataset_id (st_data st)) st
  end.

(** [RunContext::mark_complete] *)
Definition mark_complete (ctx : RunContext) (data_ids : list uuid) (st : stores) : stores :=
  if negb (rc_incremental_loading ctx) || bool_decide (data_ids = []) then st
  else foldl (λ st data_id, mark_one (rc_dataset_id ctx) data_id st) st data_ids.

(** [RunContext::append_run_row] *)
Definition append_run_row (ctx : RunContext) (status : DbStatus) (run_info : json) (repo : R) : R :=
  match rc_pipeline_run_id ctx, rc_pipeline_id ctx with
  | Some pipeline_run_id, Some pipeline_id =>
      fst (log_pipeline_run_entry {|
        pe_pipeline_run_id := pipeline_run_id;
        pe_pipeline_id := pipeline_id;
        pe_pipeline_name := rc_pipeline_name ctx;
        pe_dataset_id := Some (rc_dataset_id ctx);
        pe_status := status;
        pe_run_info := Some run_info;
        pe_user_id := None |} repo)
  | _, _ => repo
  end.

(** [on_run_failed] *)
Definition on_run_failed (ctx : RunContext) (error : CognifyError) (executor_recorded_the_error : bool)
    (st : stores) (repo : R) : stores * R :=
  let st := match decide_sweep (rc_rollback_scope ctx) RunEndedFailed, rc_pipeline_run_id ctx with
            | SweepWholeRun, Some run_id => ctx_sweep (whole_run run_id (rc_dataset_id ctx)) st
            | _, _ => st
            end in
  (st, if executor_recorded_the_error then repo
       else append_run_row ctx DbErrored (run_info_for_errored (display_cognify_error error)) repo).

(** [on_run_completed] *)
Definition on_run_completed (ctx : RunContext) (report : FailureReport) (st : stores) : stores :=
  let outstanding := outstanding_items report in
  let st := match decide_sweep (rc_rollback_scope ctx) (RunEndedCompleted report), rc_pipeline_run_id ctx with
            | SweepItems items, Some run_id => ctx_sweep (for_data run_id (rc_dataset_id ctx) items) st
            | _, _ => st
            end in
  mark_complete ctx (filter (λ id, id ∉ outstanding) (rc_processed ctx)) st.

(** [drop_already_complete]; [fault]: the query fails. *)
Definition drop_already_complete (fault : option string) (dataset_id : uuid) (items : list Data)
    (table : data_table) : result CognifyError (list Data) :=
  let ids := map data_id items in
  let answer := match fault with
                | Some e => Err e
                | None => Ok (get_cognify_completed_data_ids dataset_id ids table)
                end in
  let? completed := map_err DatabaseError answer in
  if decide (completed = ∅) then Ok items
  else Ok (filter (λ item, data_id item ∉ completed) items).
End rollback.

(** ** What is left of a run *)

(** The write of a marker takes effect. *)
Definition mark_takes (env : rollback_env) (data_id : uuid) : Prop :=
  match rb_mark env data_id with Some (Refused _) => False | _ => True end.

(** The run owns a row of the item in the dataset. *)
Definition wrote_for (l : ledger) (run_id dataset_id data_id : uuid) : Prop :=
  data_id ∈ get_data_ids_for_run (as_run_scope (whole_run run_id dataset_id)) l.

Lemma elem_of_selected_data_ids `{LedgerRow T} scope (table : list T) data :
  data ∈ selected_data_ids scope table ↔ ∃ row, row ∈ table ∧ selected_by scope row ∧ row_data_id row = data.
Proof.
  unfold selected_data_ids. rewrite elem_of_list_to_set, list_elem_of_fmap. split.
  - intros (row & -> & [Hs Hin]%list_elem_of_filter). eauto.
  - intros (row & Hin & Hs & <-). exists row. split; [done|]. by apply list_elem_of_filter.
Qed.

Lemma elem_of_data_ids_for_run scope l data :
  data ∈ get_data_ids_for_run scope l
  ↔ (∃ n, n ∈ lg_nodes l ∧ selected_by scope n ∧ gn_data_id n = data)
    ∨ (∃ e, e ∈ lg_edges l ∧ selected_by scope e ∧ ge_data_id e = data).
Proof.
  unfold get_data_ids_for_run. destruct (selects_nothing scope) eqn:Hn.
  - assert (Hno : ∀ T (HT : LedgerRow T) (row : T), ¬ selected_by scope row).
    { intros T ? row (_ & _ & Hin). unfold selects_nothing in Hn.
      destruct (rs_data_ids scope) as [[|]|]; [by apply not_elem_of_nil in Hin|done|done]. }
    split; [by intros ?%not_elem_of_nil|]. intros [(n & _ & Hs & _)|(e & _ & Hs & _)]; by apply Hno in Hs.
  - rewrite merge_sort_Permutation, elem_of_elements, elem_of_union, !elem_of_selected_data_ids. done.
Qed.

Lemma selected_for_data `{LedgerRow T} run_id dataset_id ids (row : T) :
  selected_by (as_run_scope (for_data run_id dataset_id ids)) row
  ↔ selected_by (as_run_scope (whole_run run_id dataset_id)) row ∧ row_data_id row ∈ ids.
Proof. unfold selected_by. simpl. tauto. Qed.

(** The items an item-scoped sweep concerns. *)
Lemma data_ids_for_data run_id dataset_id ids l data :
  data ∈ get_data_ids_for_run (as_run_scope (for_data run_id dataset_id ids)) l
  ↔ data ∈ ids ∧ wrote_for l run_id dataset_id data.
Proof.
  unfold wrote_for. rewrite !elem_of_data_ids_for_run. setoid_rewrite selected_for_data. simpl. split.
  - intros [(n & ? & [? ?] & <-)|(e & ? & [? ?] & <-)]; (split; [done|]); [left|right]; eauto.
  - intros (Hin & [(n & ? & ? & <-)|(e & ? & ? & <-)]); [left|right]; eauto 10.
Qed.

Section marks.
Context `{UuidFormat, SerdeJson} (env : rollback_env).

Lemma lookup_marked now data_id dataset_id (table : data_table) data :
  is_Some (mark_cognify_pipeline_status_complete now data_id dataset_id table !! data) ↔ is_Some (table !! data).
Proof.
  unfold mark_cognify_pipeline_status_complete. destruct (table !! data_id) eqn:Hd; [|done].
  destruct (decide (data = data_id)) as [->|]; [rewrite lookup_insert_eq, Hd|rewrite lookup_insert_ne by done]; done.
Qed.

Lemma lookup_cleared now data_id dataset_id (table : data_table) data :
  is_Some (clear_cognify_pipeline_status_for_data now data_id dataset_id table !! data) ↔ is_Some (table !! data).
Proof.
  unfold clear_cognify_pipeline_status_for_data. destruct (table !! data_id) eqn:Hd; [|done].
  repeat (case_match; try done). simplify_eq.
  destruct (decide (data = data_id)) as [->|]; [rewrite lookup_insert_eq, Hd|rewrite lookup_insert_ne by done]; done.
Qed.

Lemma lookup_unmark now dataset_id ids (table : data_table) data :
  is_Some (unmark now dataset_id ids table !! data) ↔ is_Some (table !! data).
Proof.
  unfold unmark. revert table. induction ids as [|id ids IH]; intros table; simpl; [done|].
  by rewrite IH, lookup_cleared.
Qed.

Lemma mark_one_ledger dataset_id data_id st : st_ledger (mark_one env dataset_id data_id st) = st_ledger st.
Proof. unfold mark_one. by repeat case_match. Qed.

Lemma mark_complete_ledger ctx ids st : st_ledger (mark_complete env ctx ids st) = st_ledger st.
Proof.
  unfold mark_complete. case_match; [done|]. clear. revert st.
  induction ids as [|id ids IH]; intros st; simpl; [done|]. by rewrite IH, mark_one_ledger.
Qed.

Context `{!UuidFormatLaws, !SerdeJsonLaws}.

Lemma completed_mark_one dataset_id data_id st d s :
  completed (st_data (mark_one env dataset_id data_id st)) d s
  ↔ completed (st_data st) d s ∨ (d = data_id ∧ s = dataset_id ∧ mark_takes env data_id ∧ is_Some (st_data st !! d)).
Proof.
  unfold mark_one, mark_takes. destruct (rb_mark env data_id) as [[]|]; simpl; [tauto| |];
    rewrite completed_mark; split; intros [|]; simplify_eq/=; naive_solver.
Qed.

Lemma mark_one_rows dataset_id data_id st data :
  is_Some (st_data (mark_one env dataset_id data_id st) !! data) ↔ is_Some (st_data st !! data).
Proof. unfold mark_one. repeat case_match; simpl; rewrite ?lookup_marked; done. Qed.

Lemma completed_mark_complete ctx ids st d s :
  completed (st_data (mark_complete env ctx ids st)) d s
  ↔ completed (st_data st) d s
    ∨ (rc_incremental_loading ctx = true ∧ s = rc_dataset_id ctx ∧ d ∈ ids ∧ mark_takes env d
       ∧ is_Some (st_data st !! d)).
Proof.
  unfold mark_complete. destruct (rc_incremental_loading ctx); simpl; [|naive_solver].
  case_bool_decide as Hn; [subst; set_solver|]. clear Hn. revert st.
  induction ids as [|id ids IH]; intros st; simpl; [set_solver|].
  rewrite IH, completed_mark_one, mark_one_rows, elem_of_cons. naive_solver.
Qed.

End marks.

Section left.
Context `{UuidFormat, SerdeJson, Lowercase} (new_v5 : uuid → string → uuid) (env : rollback_env).

Lemma ctx_sweep_sweep scope st :
  ctx_sweep new_v5 env scope st = (sweep new_v5 (rb_now env) scope (rb_sweep_plan env) st).2.
Proof. unfold ctx_sweep, sweep_logging_failure, sweep. by destruct (run_in_scope _ _ _ _). Qed.

(** What a sweep none of whose calls fails leaves. *)
Lemma ctx_sweep_quiet scope st :
  rb_sweep_plan env = [] → ctx_sweep new_v5 env scope st = swept new_v5 (rb_now env) (as_run_scope scope) st.
Proof.
  intros Hq. rewrite ctx_sweep_sweep, Hq. destruct (sweep_refines' new_v5 (rb_now env) scope st) as (o & -> & _). done.
Qed.

Context `{!UuidFormatLaws, !SerdeJsonLaws}.

(** The markers a sweep leaves, whatever fails. *)
Lemma completed_ctx_sweep scope st d s :
  (completed (st_data (ctx_sweep new_v5 env scope st)) d s → completed (st_data st) d s)
  ∧ (completed (st_data st) d s →
     ¬ (s = ss_dataset_id scope ∧ d ∈ get_data_ids_for_run (as_run_scope scope) (st_ledger st)) →
     completed (st_data (ctx_sweep new_v5 env scope st)) d s)
  ∧ (is_Some (st_data (ctx_sweep new_v5 env scope st) !! d) ↔ is_Some (st_data st !! d)).
Proof.
  rewrite ctx_sweep_sweep. destruct (sweep _ _ _ _ _) as [r st'] eqn:Hrun. simpl.
  destruct (sweep_bounds _ _ _ _ _ _ _ Hrun) as (_ & _ & _ & _ & sub & Hsub & ->).
  rewrite (completed_unmark new_v5), lookup_unmark. split; [tauto|]. split; [|done]. intros Hc Hno. split; [done|].
  intros [-> Hin]. apply Hno. split; [done|]. by eapply sublist_subseteq.
  all: apply _.
Qed.

End left.

(** ** Theorems *)

Section resume.
Context `{UuidFormat, SerdeJson, !UuidFormatLaws, !SerdeJsonLaws}.

(** A run takes up exactly the items not marked complete for its dataset, in their
    order; if the markers cannot be read it fails, and takes up none. *)
Theorem drop_already_complete_spec fault dataset_id items table :
  match fault with
  | Some e => drop_already_complete fault dataset_id items table = Err (DatabaseError e)
  | None => ∃ remaining, drop_already_complete fault dataset_id items table = Ok remaining
      ∧ remaining `sublist_of` items
      ∧ ∀ item, item ∈ remaining ↔ item ∈ items ∧ ¬ completed table (data_id item) dataset_id
  end.
Proof.
  unfold drop_already_complete. destruct fault as [e|]; [done|]. simpl.
  set (done_ids := get_cognify_completed_data_ids dataset_id (map data_id items) table).
  assert (Hin : ∀ item, item ∈ items → data_id item ∈ done_ids ↔ completed table (data_id item) dataset_id).
  { intros item Hi. unfold done_ids. rewrite elem_of_completed_ids. split; [tauto|]. intros Hc. split; [|done].
    by apply list_elem_of_fmap_2. }
  case_decide as He.
  - exists items. split; [done|]. split; [done|]. intros item. split; [|tauto]. intros Hi. split; [done|].
    rewrite <-(Hin item Hi), He. set_solver.
  - eexists. split; [done|]. split; [apply sublist_filter|]. intros item. rewrite list_elem_of_filter.
    split; intros [? ?]; (split; [done|]) || (split; [|done]); by rewrite ?Hin in * by done.
Qed.
End resume.

Section ending.
Context `{UuidFormat, SerdeJson, Lowercase} (new_v5 : uuid → string → uuid) (env : rollback_env).
Context {R : Type} `{PipelineRunRepository R}.

Lemma elem_of_outstanding report data :
  data ∈ outstanding_items report ↔ data ∈ fr_failed_items report ∪ fr_unreached_items report.
Proof. unfold outstanding_items, in_order. by rewrite merge_sort_Permutation, elem_of_elements. Qed.

(** What the sweep of a completed run covers. *)
Lemma decide_completed scope report items :
  decide_sweep scope (RunEndedCompleted report) = SweepItems items →
  scope = FailedItems ∧ items = outstanding_items report.
Proof. unfold decide_sweep. destruct scope; [done| |done]. by case_match; intros [= <-]. Qed.

Definition after_sweep (ctx : RunContext) (report : FailureReport) (st : stores) : stores :=
  match decide_sweep (rc_rollback_scope ctx) (RunEndedCompleted report), rc_pipeline_run_id ctx with
  | SweepItems items, Some run_id => ctx_sweep new_v5 env (for_data run_id (rc_dataset_id ctx) items) st
  | _, _ => st
  end.

Context `{!UuidFormatLaws, !SerdeJsonLaws}.

Lemma completed_after_sweep ctx report st d s :
  (completed (st_data (after_sweep ctx report st)) d s → completed (st_data st) d s)
  ∧ (completed (st_data st) d s →
     ¬ (s = rc_dataset_id ctx ∧ d ∈ outstanding_items report
        ∧ ∃ run_id, rc_pipeline_run_id ctx = Some run_id ∧ wrote_for (st_ledger st) run_id s d) →
     completed (st_data (after_sweep ctx report st)) d s)
  ∧ (is_Some (st_data (after_sweep ctx report st) !! d) ↔ is_Some (st_data st !! d)).
Proof.
  unfold after_sweep. destruct (decide_sweep _ _) as [| |items] eqn:Hd; [done|done|].
  destruct (rc_pipeline_run_id ctx) as [run_id|]; [|done]. apply decide_completed in Hd as [_ ->].
  destruct (completed_ctx_sweep new_v5 env (for_data run_id (rc_dataset_id ctx) (outstanding_items report)) st d s)
    as (Hdown & Hkeep & Hrow). split; [done|]. split; [|done]. intros Hc Hno. apply Hkeep; [done|].
  simpl. intros [-> Hin]. apply data_ids_for_data in Hin as [? ?]. apply Hno. eauto.
Qed.

(** The end of a run that completed, whatever calls of it fail: no item that failed
    or was not reached becomes marked; every processed item that survived is marked,
    under incremental loading, if its row exists and the write is not refused; a
    marker goes only if the run wrote rows for an item that failed or was not reached.
    If the run keeps its good items and no call of the sweep fails, no ownership row of
    it remains for the others, and those it wrote rows for are unmarked. *)
Theorem on_run_completed_spec ctx report st d s :
  let st' := on_run_completed new_v5 env ctx report st in
  (completed (st_data st') d s → completed (st_data st) d s
     ∨ (s = rc_dataset_id ctx ∧ d ∈ rc_processed ctx ∧ d ∉ outstanding_items report))
  ∧ (rc_incremental_loading ctx = true → d ∈ rc_processed ctx → d ∉ outstanding_items report →
     mark_takes env d → is_Some (st_data st !! d) → completed (st_data st') d (rc_dataset_id ctx))
  ∧ (completed (st_data st) d s →
     ¬ (s = rc_dataset_id ctx ∧ d ∈ outstanding_items report
        ∧ ∃ run_id, rc_pipeline_run_id ctx = Some run_id ∧ wrote_for (st_ledger st) run_id s d) →
     completed (st_data st') d s)
  ∧ (∀ run_id, rc_rollback_scope ctx = FailedItems → rb_sweep_plan env = [] →
     rc_pipeline_run_id ctx = Some run_id → d ∈ outstanding_items report →
     ¬ wrote_for (st_ledger st') run_id (rc_dataset_id ctx) d
     ∧ (wrote_for (st_ledger st) run_id (rc_dataset_id ctx) d → ¬ completed (st_data st') d (rc_dataset_id ctx))).
Proof.
  intros st'. subst st'. change (on_run_completed new_v5 env ctx report st) with
    (mark_complete env ctx (filter (λ id, id ∉ outstanding_items report) (rc_processed ctx)) (after_sweep ctx report st)).
  pose proof (completed_mark_complete env ctx (filter (λ id, id ∉ outstanding_items report) (rc_processed ctx))
    (after_sweep ctx report st)) as Hm.
  rewrite mark_complete_ledger, !Hm, !list_elem_of_filter.
  destruct (completed_after_sweep ctx report st d s) as (Hdown & Hkeep & Hrow).
  split; [naive_solver|]. split; [naive_solver|]. split; [naive_solver|].
  intros run_id Hscope Hq Hrun Hout. destruct (outstanding_items report) as [|x items] eqn:Hitems;
    [by apply not_elem_of_nil in Hout|].
  assert (Hsw : after_sweep ctx report st = swept new_v5 (rb_now env)
    (as_run_scope (for_data run_id (rc_dataset_id ctx) (x :: items))) st).
  { unfold after_sweep. rewrite Hscope, Hrun. simpl. rewrite Hitems. by apply ctx_sweep_quiet. }
  split.
  - rewrite Hsw. simpl. intros Hw. assert (Hd : d ∈ get_data_ids_for_run (as_run_scope (for_data run_id (rc_dataset_id ctx) (x :: items)))
      (rolled_back (as_run_scope (for_data run_id (rc_dataset_id ctx) (x :: items))) (st_ledger st)))
      by by apply data_ids_for_data.
    rewrite data_ids_unselected in Hd. by apply not_elem_of_nil in Hd.
  - rewrite Hm, list_elem_of_filter.
    intros Hw [Hc|(_ & _ & [? _] & _)]; [|done]. revert Hc. rewrite Hsw. simpl. rewrite (completed_unmark new_v5).
    intros [_ Hno]. apply Hno. split; [done|]. by apply data_ids_for_data.
    all: apply _.
Qed.

(** C17: The end of a run that failed: unless its scope keeps everything, and if no call
    of the sweep fails, no ownership row of the run remains in the dataset and no item
    it wrote rows for stays marked; whatever fails, no marker appears and the markers
    of other items stay.  A run whose executor recorded the error gets no second row;
    one that failed outside it gets exactly one row, ERRORED, of this run, pipeline and
    dataset and with the error as its text, unless the table refuses it. *)
Theorem on_run_failed_spec `{!RepositoryLaws R} ctx error recorded st (repo : R) run_id pipeline_id d s :
  rc_pipeline_run_id ctx = Some run_id → rc_pipeline_id ctx = Some pipeline_id →
  let '(st', repo') := on_run_failed new_v5 env ctx error recorded st repo in
  (rc_rollback_scope ctx ≠ KeepAll → rb_sweep_plan env = [] →
     ¬ wrote_for (st_ledger st') run_id (rc_dataset_id ctx) d
     ∧ (wrote_for (st_ledger st) run_id (rc_dataset_id ctx) d → ¬ completed (st_data st') d (rc_dataset_id ctx)))
  ∧ (completed (st_data st') d s → completed (st_data st) d s)
  ∧ (completed (st_data st) d s →
     (s = rc_dataset_id ctx → rc_rollback_scope ctx = KeepAll ∨ ¬ wrote_for (st_ledger st) run_id s d) →
     completed (st_data st') d s)
  ∧ (if recorded then rows repo' = rows repo
     else ∃ e, pe_status e = DbErrored ∧ pe_pipeline_run_id e = run_id ∧ pe_pipeline_id e = pipeline_id
            ∧ pe_dataset_id e = Some (rc_dataset_id ctx)
            ∧ pe_run_info e = Some (run_info_for_errored (display_cognify_error error))
            ∧ rows repo' = match log_pipeline_run_entry e repo with
                           | (_, Ok _) => rows repo ++ [e]
                           | (_, Err _) => rows repo
                           end).
Proof.
  intros Hrun Hpid. unfold on_run_failed. rewrite Hrun.
  set (scope := whole_run run_id (rc_dataset_id ctx)).
  set (st1 := match decide_sweep _ _ with SweepWholeRun => _ | _ => _ end).
  assert (Hst : st1 = if decide (rc_rollback_scope ctx = KeepAll) then st else ctx_sweep new_v5 env scope st).
  { unfold st1. by destruct (rc_rollback_scope ctx). }
  destruct (completed_ctx_sweep new_v5 env scope st d s) as (Hdown & Hkeep & _).
  rewrite Hst. split; [|split; [|split]].
  - intros Hs Hq. rewrite decide_False by done. rewrite ctx_sweep_quiet by done. split; simpl.
    + unfold wrote_for. rewrite data_ids_unselected. apply not_elem_of_nil.
    + rewrite (completed_unmark new_v5). intros Hw [_ Hno]. by apply Hno.
      all: apply _.
  - by case_decide.
  - intros Hc Hor. case_decide; [done|]. apply Hkeep; [done|]. intros [-> Hin]. by destruct (Hor eq_refl).
  - destruct recorded; [done|]. unfold append_run_row. rewrite Hrun, Hpid.
    match goal with |- context [log_pipeline_run_entry ?entry repo] => exists entry end.
    split_and!; try done.
    destruct (log_pipeline_run_entry _ _) as [repo' [[]|e]] eqn:Hlog; simpl;
      [exact (log_ok _ _ _ Hlog)|exact (log_err _ _ _ _ Hlog)].
Qed.

End ending.

(** ** Examples

    Run 7 over the items 10 and 12 of dataset 3: item 10 failed after rows were
    written for it, item 12 has a row in [data] and survives. *)

#[local] Instance ex_format' : UuidFormat := decimal_format.
#[local] Instance ex_serde' : SerdeJson := binary_serde.
#[local] Instance ex_lowercase' : Lowercase := ascii_lowercase.
#[local] Instance ex_format_laws' : UuidFormatLaws := decimal_format_laws.
#[local] Instance ex_serde_laws' : SerdeJsonLaws := binary_serde_laws.

Definition ex_rollback_stores : stores :=
  let st := ex_stores "is a" "works at" in
  with_data (<[12%N := {| da_dataset_id := Some 3%N; da_pipeline_status := None; da_updated_at := None |}]> (st_data st)) st.

Definition ex_ctx : RunContext := {|
  rc_dataset_id := 3; rc_pipeline_run_id := Some 7%N; rc_pipeline_id := Some 70%N;
  rc_pipeline_name := "cognify_pipeline"; rc_processed := [10; 12]%N; rc_incremental_loading := true;
  rc_rollback_scope := FailedItems |}.

Definition ex_env : rollback_env := {| rb_now := 5; rb_sweep_plan := []; rb_mark := λ _, None |}.

Definition ex_report : FailureReport :=
  replay [Recorded {| sf_stage := GraphExtraction; sf_data_id := 10; sf_chunk_id := Some 40%N;
                      sf_error := "timeout"; sf_fails_item := true |} false] (with_policy FailurePolicy_default).

Lemma on_run_completed_spec_witness :
  let st' := on_run_completed ex_v5 ex_env ex_ctx ex_report ex_rollback_stores in
  completed (st_data st') 12 3 ∧ ¬ wrote_for (st_ledger st') 7 3 10 ∧ ¬ completed (st_data st') 10 3.
Proof.
  intros st'. split.
  - refine (proj1 (proj2 (on_run_completed_spec ex_v5 ex_env ex_ctx ex_report ex_rollback_stores 12 3)) _ _ _ _ _);
      [done|vm_compute; by right; left| |done|]; refine (bool_decide_unpack _ _); vm_compute; exact I.
  - pose proof (proj2 (proj2 (proj2 (on_run_completed_spec ex_v5 ex_env ex_ctx ex_report ex_rollback_stores 10 3)))
      7%N eq_refl eq_refl eq_refl) as Hout.
    destruct Hout as [Hw Hc]; [refine (bool_decide_unpack _ _); vm_compute; exact I|].
    split; [exact Hw|]. apply Hc. unfold wrote_for. refine (bool_decide_unpack _ _). vm_compute. exact I.
Defined.

Lemma on_run_failed_spec_witness :
  ¬ wrote_for (st_ledger (@on_run_failed _ _ _ ex_v5 ex_env _ flaky_repo ex_ctx (VectorDBError "down") false
                            ex_rollback_stores (1, [])).1) 7 3 10.
Proof.
  pose proof (@on_run_failed_spec _ _ _ ex_v5 ex_env _ flaky_repo _ _ flaky_repo_laws ex_ctx (VectorDBError "down")
    false ex_rollback_stores (1, []) 7%N 70%N 10%N 3%N eq_refl eq_refl) as Hf.
  destruct (on_run_failed _ _ _ _ _ _ _) as [st' repo']. apply Hf; done.
Defined.

Definition ex_data (id : uuid) : Data := {|
  data_id := id; data_name := "notes"; data_raw_data_location := "text_1.txt";
  data_original_data_location := "text_1.txt"; data_extension := "txt"; data_mime_type := "text/plain";
  data_content_hash := ""; data_owner_id := 1; data_created_at := 0; data_updated_at := None;
  data_label := None; data_original_extension := None; data_original_mime_type := None;
  data_loader_engine := None; data_raw_content_hash := None; data_tenant_id := None;
  data_external_metadata := None; data_node_set := None; data_pipeline_status := None;
  data_token_count := 0; data_data_size := 0; data_last_accessed := None;
  data_importance_weight := None; data_dataset_id := Some 3%N; data_legacy_id := None |}.

Lemma drop_already_complete_spec_witness :
  ∃ remaining, drop_already_complete None 3 [ex_data 10; ex_data 12] (st_data ex_rollback_stores) = Ok remaining
    ∧ ex_data 12 ∈ remaining.
Proof.
  destruct (drop_already_complete_spec None 3 [ex_data 10; ex_data 12] (st_data ex_rollback_stores))
    as (remaining & Hr & _ & Hin).
  exists remaining. split; [exact Hr|]. apply Hin. split; [right; left|].
  intros Hc. assert (Hno : 12%N ∉ get_cognify_completed_data_ids 3 [12%N] (st_data ex_rollback_stores))
    by (refine (bool_decide_unpack _ _); vm_compute; exact I).
  apply Hno. rewrite elem_of_completed_ids. split; [left|exact Hc].
Defined.
