(* ===== verification/Summarize.v ===== *)
(** * Summarization of chunks (crates/cognify/src/summarization/{extractor,models}.rs)

    [summarize_chunks] sends the chunks to the LLM through a bounded window of
    concurrent calls ([stream::iter(..).map(..).buffer_unordered(max_parallel)]) and
    sorts what comes back.  The order in which calls are admitted, dispatched and
    answered is a schedule of steps; the theorems hold for every schedule. *)

From stdpp Require Import sorting.
From stdpp Require Import relations.
From S2P Require Import Prelude Json Text DataPoint Failure.
From Stdlib Require Import QArith.
#[local] Open Scope nat_scope.

(** ** Models *)

Record SummarizedContent := { sc_summary : string; sc_description : string }.

Record TextSummary := {
  ts_base : DataPoint;
  ts_made_from : option uuid;
  ts_source_chunk_id : option uuid;
  ts_text : string;
  ts_description : option string;
  ts_model : string;
}.

(** [base.metadata.insert(key, value)] *)
Definition dp_insert_metadata (key : string) (value : json) (dp : DataPoint) : DataPoint := {|
  dp_id := dp_id dp; dp_created_at := dp_created_at dp; dp_updated_at := dp_updated_at dp;
  dp_ontology_valid := dp_ontology_valid dp; dp_version := dp_version dp;
  dp_topological_rank := dp_topological_rank dp; dp_metadata := <[key := value]> (dp_metadata dp);
  dp_data_type := dp_data_type dp; dp_belongs_to_set := dp_belongs_to_set dp;
  dp_source_pipeline := dp_source_pipeline dp; dp_source_task := dp_source_task dp;
  dp_source_node_set := dp_source_node_set dp; dp_source_user := dp_source_user dp;
  dp_source_content_hash := dp_source_content_hash dp; dp_feedback_weight := dp_feedback_weight dp;
  dp_importance_weight := dp_importance_weight dp |}.

(** [base.importance_weight = weight; base.belongs_to_set = sets] *)
Definition dp_scoped (weight : option Q) (sets : option (list json)) (dp : DataPoint) : DataPoint := {|
  dp_id := dp_id dp; dp_created_at := dp_created_at dp; dp_updated_at := dp_updated_at dp;
  dp_ontology_valid := dp_ontology_valid dp; dp_version := dp_version dp;
  dp_topological_rank := dp_topological_rank dp; dp_metadata := dp_metadata dp;
  dp_data_type := dp_data_type dp; dp_belongs_to_set := sets;
  dp_source_pipeline := dp_source_pipeline dp; dp_source_task := dp_source_task dp;
  dp_source_node_set := dp_source_node_set dp; dp_source_user := dp_source_user dp;
  dp_source_content_hash := dp_source_content_hash dp; dp_feedback_weight := dp_feedback_weight dp;
  dp_importance_weight := weight |}.

Section models.
Context (uuid_to_string : uuid → string) (new_v5 : uuid → string → uuid).

(** [TextSummary::new] *)
Definition TextSummary_new (env : chunk_env) (chunk_id : uuid) (txt : string) (description : option string)
    (model : string) : TextSummary :=
  let base := DataPoint_new uuid_to_string (ce_fresh env) (ce_created env) "TextSummary" None in
  let base := dp_with_id (new_v5 chunk_id "TextSummary") base in
  {| ts_base := dp_insert_metadata "index_fields" (JArray [JString "text"]) base;
     ts_made_from := Some chunk_id;
     ts_source_chunk_id := Some chunk_id;
     ts_text := txt;
     ts_description := description;
     ts_model := model |}.

(** [TextSummary::from_summarized_content] *)
Definition from_summarized_content (env : chunk_env) (chunk_id : uuid) (summarized : SummarizedContent)
    (model : string) : TextSummary :=
  TextSummary_new env chunk_id (sc_summary summarized) (Some (sc_description summarized)) model.

(** The summary of a chunk, scoped like it. *)
Definition summary_of_chunk (env : chunk_env) (model : string) (chunk : DocumentChunk)
    (summarized : SummarizedContent) : TextSummary :=
  let s := from_summarized_content env (dc_id chunk) summarized model in
  {| ts_base := dp_scoped (dp_importance_weight (dc_base chunk)) (dp_belongs_to_set (dc_base chunk)) (ts_base s);
     ts_made_from := ts_made_from s; ts_source_chunk_id := ts_source_chunk_id s; ts_text := ts_text s;
     ts_description := ts_description s; ts_model := ts_model s |}.
End models.

(** [summarize_one]: what the LLM answers, typed or raw, is given. *)
Definition summarize_one (summary_schema : option json) (structured : result CognifyError SummarizedContent)
    (raw : result CognifyError json) : result CognifyError SummarizedContent :=
  match summary_schema with
  | None => structured
  | Some _ =>
      result_bind raw (λ raw,
        match json_get "summary" raw ≫= json_as_str with
        | Some summary => Ok {| sc_summary := summary; sc_description := "" |}
        | None => Err (LlmError "summary_schema output missing string `summary` field")
        end)
  end.

(** ** The bounded pipeline *)

Inductive ChunkOutcome :=
  | Summarized (index : nat) (summary : TextSummary)
  | Failed (index : nat) (chunk_id : uuid) (e : CognifyError)
  | Skipped (index : nat) (chunk_id : uuid).

Definition co_index (o : ChunkOutcome) : nat :=
  match o with Summarized i _ | Failed i _ _ | Skipped i _ => i end.

Record SummarizeOutcome := {
  so_summaries : list TextSummary;
  so_failures : list (uuid * CognifyError);
  so_skipped : list uuid;
}.

(** A future in the window: not polled yet, or waiting for the LLM. *)
Inductive future := Fresh | Calling.

Record stream_state := {
  ss_next : nat;
  ss_window : gmap nat future;
  ss_aborted : bool;
  ss_results : list ChunkOutcome;
}.

Definition stream_init : stream_state :=
  {| ss_next := 0; ss_window := ∅; ss_aborted := false; ss_results := [] |}.

Section stream.
(** [answer i]: what [summarize_one] gives for the [i]-th chunk if it is called, as a
    summary. *)
Context (chunk_ids : list uuid) (max_parallel : nat) (fail_fast : bool)
  (answer : nat → result CognifyError TextSummary).

(** The future of the [i]-th chunk completes. *)
Definition finish (i : nat) (aborted : bool) (o : ChunkOutcome) (s : stream_state) : stream_state :=
  {| ss_next := ss_next s; ss_window := delete i (ss_window s); ss_aborted := aborted;
     ss_results := ss_results s ++ [o] |}.

Inductive stream_step : stream_state → stream_state → Prop :=
  (** [buffer_unordered] takes the next input while the window has room. *)
  | step_admit s :
      ss_next s < length chunk_ids → size (ss_window s) < max_parallel →
      stream_step s {| ss_next := S (ss_next s); ss_window := <[ss_next s := Fresh]> (ss_window s);
                       ss_aborted := ss_aborted s; ss_results := ss_results s |}
  (** The first poll of a future: skipped after an abort, *)
  | step_skip s i id :
      ss_window s !! i = Some Fresh → chunk_ids !! i = Some id → fail_fast && ss_aborted s = true →
      stream_step s (finish i (ss_aborted s) (Skipped i id) s)
  (** dispatched otherwise. *)
  | step_dispatch s i :
      ss_window s !! i = Some Fresh → fail_fast && ss_aborted s = false →
      stream_step s {| ss_next := ss_next s; ss_window := <[i := Calling]> (ss_window s);
                       ss_aborted := ss_aborted s; ss_results := ss_results s |}
  | step_summarized s i summary :
      ss_window s !! i = Some Calling → answer i = Ok summary →
      stream_step s (finish i (ss_aborted s) (Summarized i summary) s)
  | step_failed s i id e :
      ss_window s !! i = Some Calling → chunk_ids !! i = Some id → answer i = Err e →
      stream_step s (finish i true (Failed i id e) s).

(** [collect] returns. *)
Definition drained (s : stream_state) : Prop := ss_next s = length chunk_ids ∧ ss_window s = ∅.
End stream.

(** [sort_by_key(|(index, ..)| *index)] *)
Definition index_le {A} (x y : nat * A) : Prop := x.1 ≤ y.1.
#[export] Instance index_le_dec {A} (x y : nat * A) : Decision (index_le x y).
Proof. unfold index_le. apply _. Defined.
Definition by_index {A} (l : list (nat * A)) : list (nat * A) := merge_sort index_le l.

(** The three groups, in input order. *)
Definition outcome_of (results : list ChunkOutcome) : SummarizeOutcome := {|
  so_summaries := map snd (by_index (omap (λ o, match o with Summarized i s => Some (i, s) | _ => None end) results));
  so_failures := map snd (by_index (omap (λ o, match o with Failed i id e => Some (i, (id, e)) | _ => None end) results));
  so_skipped := map snd (by_index (omap (λ o, match o with Skipped i id => Some (i, id) | _ => None end) results)) |}.

(** [summarize_chunks]: the outcomes it may return. *)
Definition summarize_chunks chunk_ids max_parallel fail_fast answer (o : SummarizeOutcome) : Prop :=
  match chunk_ids with
  | [] => o = {| so_summaries := []; so_failures := []; so_skipped := [] |}
  | _ => ∃ s, rtc (stream_step chunk_ids max_parallel fail_fast answer) stream_init s
              ∧ drained chunk_ids s ∧ o = outcome_of (ss_results s)
  end.

(** [SummarizeOutcome::is_complete] *)
Definition is_complete (o : SummarizeOutcome) : bool :=
  match so_failures o, so_skipped o with [], [] => true | _, _ => false end.

(** [with_max_parallel] *)
Definition with_max_parallel (n : nat) : nat := n `max` 1.

(** ** Sorting by index *)

Section sorting.
Context {A : Type}.
Implicit Types (l k : list (nat * A)).

Definition index_lt (x y : nat * A) : Prop := x.1 < y.1.

#[export] Instance index_le_total : Total (@index_le A).
Proof. intros x y. unfold index_le. lia. Qed.
#[export] Instance index_le_trans : Transitive (@index_le A).
Proof. intros x y z. unfold index_le. lia. Qed.
#[export] Instance index_lt_antisym : AntiSymm (=) index_lt.
Proof. intros x y. unfold index_lt. lia. Qed.

Lemma sorted_le_lt l : NoDup l.*1 → StronglySorted index_le l → StronglySorted index_lt l.
Proof.
  induction l as [|x l IH]; intros Hnd Hs; [constructor|]. inversion Hs as [|? ? Hs' Hall]; subst.
  simpl in Hnd. apply NoDup_cons in Hnd as [Hx Hnd]. constructor; [by apply IH|].
  rewrite Forall_forall in *. intros y Hy. specialize (Hall y Hy). unfold index_le, index_lt in *.
  assert (x.1 ≠ y.1); [|lia]. intros Heq. apply Hx. rewrite Heq. by apply list_elem_of_fmap_2.
Qed.

(** A permutation of a list with ascending indices is sorted back into it. *)
Lemma by_index_unique l k : l ≡ₚ k → StronglySorted index_lt k → by_index l = k.
Proof.
  intros Hp Hk. assert (Hnd : NoDup k.*1).
  { clear Hp. induction Hk as [|x k Hk IH Hall]; simpl; [constructor|]. constructor; [|done].
    intros (y & Heq & Hy)%list_elem_of_fmap. rewrite Forall_forall in Hall. specialize (Hall y Hy).
    unfold index_lt in Hall. lia. }
  assert (Hb : by_index l ≡ₚ k) by (etransitivity; [apply merge_sort_Permutation|done]).
  eapply StronglySorted_unique; [apply index_lt_antisym| |done|done].
  apply sorted_le_lt; [by rewrite Hb|]. apply (StronglySorted_merge_sort index_le).
Qed.

Lemma omap_seq_sorted (f : nat → option (nat * A)) a n :
  (∀ i j x, f i = Some (j, x) → j = i) → StronglySorted index_lt (omap f (seq a n)).
Proof.
  intros Hf. revert a. induction n as [|n IH]; intros a; simpl; [constructor|].
  destruct (f a) as [[j x]|] eqn:Hfa; [|done]. constructor; [done|]. apply Hf in Hfa as ->.
  rewrite Forall_forall. intros [j y] (i & Hi & Hfi)%list_elem_of_omap.
  apply Hf in Hfi as ->. apply elem_of_seq in Hi. unfold index_lt. simpl. lia.
Qed.
End sorting.

Lemma omap_seq_NoDup {B} (f : nat → option B) (idx : B → nat) a n :
  (∀ i o, f i = Some o → idx o = i) → NoDup (omap f (seq a n)).
Proof.
  intros Hf. revert a. induction n as [|n IH]; intros a; simpl; [apply NoDup_nil_2|].
  destruct (f a) as [o|] eqn:Hfa; [|apply IH]. apply NoDup_cons. split; [|apply IH].
  intros (i & Hi & Hfi)%list_elem_of_omap. apply Hf in Hfa, Hfi. apply elem_of_seq in Hi. lia.
Qed.

Lemma map_omap_list {A B C} (f : B → C) (g : A → option B) (l : list A) : map f (omap g l) = omap (λ x, f <$> g x) l.
Proof. induction l as [|x l IH]; simpl; [done|]. destruct (g x); simpl; [f_equal|]; apply IH. Qed.

Lemma omap_omap_list {A B C} (f : B → option C) (g : A → option B) (l : list A) : omap f (omap g l) = omap (λ x, g x ≫= f) l.
Proof.
  induction l as [|x l IH]; simpl; [done|]. destruct (g x) as [y|]; simpl; [|apply IH].
  destruct (f y); simpl; [f_equal|]; apply IH.
Qed.

(** ** What every schedule keeps *)

Definition is_failed (o : ChunkOutcome) : bool := match o with Failed _ _ _ => true | _ => false end.
Definition is_skipped (o : ChunkOutcome) : bool := match o with Skipped _ _ => true | _ => false end.

(** The calls answered after the first failure. *)
Fixpoint late (results : list ChunkOutcome) : nat :=
  match results with
  | [] => 0
  | o :: results => if is_failed o then length (filter (λ o, is_skipped o = false) results) else late results
  end.

#[export] Instance future_eq_dec : EqDecision future.
Proof. solve_decision. Defined.

Definition calling (window : gmap nat future) : gmap nat future := filter (λ kv, kv.2 = Calling) window.

Lemma late_snoc results o :
  late (results ++ [o]) = late results + (if existsb is_failed results && negb (is_skipped o) then 1 else 0).
Proof.
  induction results as [|o' results IH]; simpl; [by destruct (is_failed o), (is_skipped o)|].
  destruct (is_failed o') eqn:Hf; simpl; [|by rewrite IH].
  rewrite filter_app, length_app. destruct (is_skipped o) eqn:Hs; simpl.
  - rewrite filter_cons_False by congruence. done.
  - rewrite filter_cons_True by done. done.
Qed.

Lemma late_none results : existsb is_failed results = false → late results = 0.
Proof.
  induction results as [|o results IH]; simpl; [done|]. destruct (is_failed o); [done|apply IH].
Qed.

Lemma summarize_chunks_drained chunk_ids max_parallel fail_fast answer o :
  summarize_chunks chunk_ids max_parallel fail_fast answer o ↔
  ∃ s, rtc (stream_step chunk_ids max_parallel fail_fast answer) stream_init s
       ∧ drained chunk_ids s ∧ o = outcome_of (ss_results s).
Proof.
  destruct chunk_ids as [|id ids]; [|done]. simpl. split.
  - intros ->. by exists stream_init.
  - intros (s & Hr & _ & ->). apply rtc_inv in Hr as [<-|(s' & Hs & _)]; [done|].
    inversion Hs; simpl in *; try lia; rewrite lookup_empty in *; done.
Qed.

Section invariant.
Context (chunk_ids : list uuid) (max_parallel : nat) (fail_fast : bool)
  (answer : nat → result CognifyError TextSummary).
Notation step := (stream_step chunk_ids max_parallel fail_fast answer).

(** An outcome is what became of its chunk. *)
Definition outcome_ok (o : ChunkOutcome) : Prop :=
  match o with
  | Summarized i s => i < length chunk_ids ∧ answer i = Ok s
  | Failed i id e => chunk_ids !! i = Some id ∧ answer i = Err e
  | Skipped i id => chunk_ids !! i = Some id
  end.

Record stream_ok (s : stream_state) : Prop := {
  sk_next : ss_next s ≤ length chunk_ids;
  sk_nodup : NoDup (map co_index (ss_results s));
  sk_seen : ∀ i, i < ss_next s ↔ i ∈ map co_index (ss_results s) ∨ is_Some (ss_window s !! i);
  sk_apart : ∀ i, i ∈ map co_index (ss_results s) → ss_window s !! i = None;
  sk_outcome : ∀ o, o ∈ ss_results s → outcome_ok o;
  sk_window : size (ss_window s) ≤ max_parallel;
  sk_aborted : ss_aborted s = existsb is_failed (ss_results s);
  sk_skipped : existsb is_skipped (ss_results s) = true → fail_fast && ss_aborted s = true;
  sk_late : fail_fast = true → late (ss_results s) + (if ss_aborted s then size (calling (ss_window s)) else 0)
            ≤ max_parallel - 1;
}.

Lemma stream_init_ok : stream_ok stream_init.
Proof.
  split; simpl; try done; try (rewrite map_size_empty; lia); try lia; [apply NoDup_nil_2| |intros o Ho; by apply not_elem_of_nil in Ho].
  intros i. rewrite lookup_empty. split; [lia|intros [Hi|[? [=]]]; by apply not_elem_of_nil in Hi].
Qed.

Lemma calling_insert_fresh i (w : gmap nat future) :
  w !! i = None → calling (<[i := Fresh]> w) = calling w.
Proof. intros Hi. unfold calling. rewrite map_filter_insert_False by done. by rewrite delete_id. Qed.

Lemma calling_delete i f (w : gmap nat future) :
  w !! i = Some f →
  size (calling w) = size (calling (delete i w)) + (if decide (f = Calling) then 1 else 0).
Proof.
  intros Hi. unfold calling. rewrite map_filter_delete. destruct (decide (f = Calling)) as [->|Hf].
  - assert (Hs : filter (λ kv : nat * future, kv.2 = Calling) w !! i = Some Calling) by by apply map_lookup_filter_Some.
    rewrite (map_size_delete_Some i) by by eexists.
    assert (0 < size (filter (λ kv : nat * future, kv.2 = Calling) w)); [|lia].
    apply Nat.neq_0_lt_0. intros Hz%map_size_empty_inv. by rewrite Hz, lookup_empty in Hs.
  - rewrite map_size_delete_None; [lia|]. apply map_lookup_filter_None. right. intros x Hx.
    simplify_eq. done.
Qed.

(** A future of the window completes. *)
Lemma finish_ok s i f o aborted :
  stream_ok s → ss_window s !! i = Some f → outcome_ok o → co_index o = i →
  aborted = ss_aborted s || is_failed o →
  (if is_skipped o then fail_fast && ss_aborted s = true else f = Calling) →
  stream_ok (finish i aborted o s).
Proof.
  intros [Hn Hnd Hseen Hap Hout Hw Hab Hsk Hl] Hi Ho Hidx Hab' Hsk'.
  assert (Hfresh : i ∉ map co_index (ss_results s)) by (intros Hin; apply Hap in Hin; congruence).
  split; simpl; try done; rewrite ?map_app; simpl; rewrite ?Hidx.
  - apply NoDup_app. split; [done|]. split; [|apply NoDup_singleton].
    intros j Hj ->%list_elem_of_singleton. done.
  - intros j. rewrite Hseen, elem_of_app, list_elem_of_singleton. destruct (decide (j = i)) as [->|Hj].
    + rewrite lookup_delete_eq, Hi. naive_solver.
    + rewrite lookup_delete_ne by done. naive_solver.
  - intros j. rewrite elem_of_app, list_elem_of_singleton. intros [Hj| ->]; [|by rewrite lookup_delete_eq].
    apply lookup_delete_None. right. by apply Hap.
  - intros o'. rewrite elem_of_app, list_elem_of_singleton. intros [?| ->]; [by apply Hout|done].
  - rewrite (map_size_delete_Some i) by by eexists. lia.
  - rewrite existsb_app. simpl. by rewrite orb_false_r, <-Hab.
  - rewrite existsb_app. simpl. rewrite orb_false_r, orb_true_iff. subst aborted.
    intros [Hs|Hs]; [apply Hsk in Hs; rename Hs into Ha|rewrite Hs in Hsk'; rename Hsk' into Ha];
      destruct fail_fast; simpl in *; try done; by rewrite Ha.
  - intros Hff. specialize (Hl Hff). rewrite late_snoc, <-Hab. pose proof (calling_delete i f _ Hi) as Hc.
    pose proof (map_size_filter (λ kv : nat * future, kv.2 = Calling) (ss_window s)) as Hle. fold (calling (ss_window s)) in Hle.
    subst aborted. destruct (ss_aborted s) eqn:Ha; simpl.
    + destruct (is_skipped o); simpl; [case_decide; lia|]. subst f. rewrite decide_True in Hc by done. lia.
    + destruct (is_skipped o) eqn:Hso; [by rewrite Hff in Hsk'|]. subst f. rewrite decide_True in Hc by done.
      rewrite late_none by done. destruct (is_failed o); lia.
Qed.

Lemma stream_step_ok s s' : stream_ok s → step s s' → stream_ok s'.
Proof.
  intros Hok Hstep. destruct Hstep as [s Hnext Hroom|s i id Hi Hid Hsk|s i Hi Hsk|s i sm Hi Ha|s i id e Hi Hid Ha].
  - destruct Hok as [Hn Hnd Hseen Hap Hout Hw Hab Hsk Hl].
    assert (Hfree : ss_window s !! ss_next s = None).
    { destruct (ss_window s !! ss_next s) eqn:Hx; [|done]. assert (ss_next s < ss_next s); [|lia].
      apply Hseen. right. by eexists. }
    split; simpl; try done; [| |rewrite map_size_insert_None by done; lia|by rewrite calling_insert_fresh].
    + intros j. destruct (decide (j = ss_next s)) as [->|Hj].
      * rewrite lookup_insert_eq. split; [by right; eexists|lia].
      * rewrite lookup_insert_ne, <-Hseen by done. lia.
    + intros j Hj. rewrite lookup_insert_ne; [by apply Hap|]. intros <-.
      assert (ss_next s < ss_next s); [|lia]. apply Hseen. by left.
  - eapply finish_ok; try done; simpl; [by rewrite orb_false_r].
  - destruct Hok as [Hn Hnd Hseen Hap Hout Hw Hab Hsk' Hl]. split; simpl; try done.
    + intros j. rewrite Hseen. destruct (decide (j = i)) as [->|]; [rewrite lookup_insert_eq, Hi|by rewrite lookup_insert_ne].
      naive_solver.
    + intros j Hj. rewrite lookup_insert_ne; [by apply Hap|]. intros <-. apply Hap in Hj. congruence.
    + rewrite map_size_insert_Some by by eexists. done.
    + intros Hff. specialize (Hl Hff). rewrite Hff in Hsk. simpl in Hsk. rewrite Hsk in *. lia.
  - eapply finish_ok; try done; simpl; [|by rewrite orb_false_r]. split; [|done].
    eapply Nat.lt_le_trans; [|by apply (sk_next _ Hok)]. apply (sk_seen _ Hok). right. by eexists.
  - eapply finish_ok; try done; simpl. by rewrite orb_true_r.
Qed.

Lemma stream_reachable_ok s : rtc step stream_init s → stream_ok s.
Proof.
  intros Hr. remember stream_init as s0 eqn:Hs0. assert (H0 : stream_ok s0) by (subst; apply stream_init_ok).
  clear Hs0. induction Hr; [done|]. eauto using stream_step_ok.
Qed.

(** ** Theorems *)

(** What becomes of the [i]-th chunk, when those of [skip] are never sent. *)
Definition fate (skip : gset nat) (i : nat) : option ChunkOutcome :=
  id ← chunk_ids !! i;
  Some (if decide (i ∈ skip) then Skipped i id
        else match answer i with Ok s => Summarized i s | Err e => Failed i id e end).

Definition fates (skip : gset nat) : list ChunkOutcome := omap (fate skip) (seq 0 (length chunk_ids)).

Definition summary_in (o : ChunkOutcome) : option TextSummary := match o with Summarized _ s => Some s | _ => None end.
Definition failure_in (o : ChunkOutcome) : option (uuid * CognifyError) := match o with Failed _ id e => Some (id, e) | _ => None end.
Definition skipped_in (o : ChunkOutcome) : option uuid := match o with Skipped _ id => Some id | _ => None end.

Definition skipped_set (results : list ChunkOutcome) : gset nat :=
  list_to_set (map co_index (filter (λ o, is_skipped o = true) results)).

Lemma fate_index skip i o : fate skip i = Some o → co_index o = i.
Proof. unfold fate. intros (id & _ & [= <-])%bind_Some. case_decide; [done|]. by destruct (answer i). Qed.

Lemma same_outcome s o o' :
  stream_ok s → o ∈ ss_results s → o' ∈ ss_results s → co_index o = co_index o' → o = o'.
Proof.
  intros Hok Ho Ho' Hi. apply list_elem_of_lookup in Ho as [a Ha], Ho' as [b Hb].
  assert (a = b) as ->; [|congruence]. eapply (NoDup_lookup _ a b (co_index o)); [by apply (sk_nodup _ Hok)| |].
  - change (map co_index (ss_results s)) with (co_index <$> ss_results s). by rewrite list_lookup_fmap, Ha.
  - change (map co_index (ss_results s)) with (co_index <$> ss_results s). by rewrite list_lookup_fmap, Hb, Hi.
Qed.

Lemma outcome_is_fate s o :
  stream_ok s → o ∈ ss_results s → fate (skipped_set (ss_results s)) (co_index o) = Some o.
Proof.
  intros Hok Ho. pose proof (sk_outcome _ Hok o Ho) as Hout.
  assert (Hsk : co_index o ∈ skipped_set (ss_results s) ↔ is_skipped o = true).
  { unfold skipped_set. rewrite elem_of_list_to_set, list_elem_of_fmap. split.
    - intros (o' & Hi & [Hs Ho']%list_elem_of_filter). by rewrite (same_outcome s o o' Hok Ho Ho' Hi).
    - intros Hs. exists o. split; [done|]. by apply list_elem_of_filter. }
  unfold fate. destruct o as [i sm|i id e|i id]; simpl in *.
  - destruct Hout as [Hi Ha]. apply lookup_lt_is_Some in Hi as [id Hid]. rewrite Hid. simpl.
    rewrite decide_False by naive_solver. by rewrite Ha.
  - destruct Hout as [Hid Ha]. rewrite Hid. simpl. rewrite decide_False by naive_solver. by rewrite Ha.
  - rewrite Hout. simpl. by rewrite decide_True by by apply Hsk.
Qed.

(** A drained stream has every fate once. *)
Lemma results_are_fates s :
  stream_ok s → drained chunk_ids s → ss_results s ≡ₚ fates (skipped_set (ss_results s)).
Proof.
  intros Hok [Hn Hw]. apply NoDup_Permutation.
  - apply (NoDup_fmap_1 co_index), (sk_nodup _ Hok).
  - eapply (omap_seq_NoDup _ co_index), fate_index.
  - intros o. unfold fates. rewrite list_elem_of_omap. split.
    + intros Ho. exists (co_index o). split; [|by apply outcome_is_fate]. apply elem_of_seq. split; [lia|].
      rewrite <-Hn. apply (sk_seen _ Hok). left. by apply list_elem_of_fmap_2.
    + intros (i & Hi & Hf). apply elem_of_seq in Hi as [_ Hi]. rewrite <-Hn in Hi.
      apply (sk_seen _ Hok) in Hi as [(o' & Hi & Ho')%list_elem_of_fmap|Hi]; [|rewrite Hw, lookup_empty in Hi; by destruct Hi].
      pose proof (outcome_is_fate s o' Hok Ho') as Hf'. rewrite <-Hi in Hf'. by simplify_eq.
Qed.

(** One of the three groups. *)
Lemma group_of_fates {B} (g : ChunkOutcome → option (nat * B)) (h : ChunkOutcome → option B) results skip :
  results ≡ₚ fates skip → (∀ o i x, g o = Some (i, x) → i = co_index o) → (∀ o, snd <$> g o = h o) →
  map snd (by_index (omap g results)) = omap h (fates skip).
Proof.
  intros Hp Hg Hh. rewrite (by_index_unique _ (omap g (fates skip))).
  - rewrite map_omap_list. apply list_omap_ext, Forall_Forall2_diag, Forall_true. apply Hh.
  - by rewrite Hp.
  - unfold fates. rewrite omap_omap_list. apply omap_seq_sorted. intros i j x (o & Ho & Hx)%bind_Some.
    apply Hg in Hx as ->. by eapply fate_index.
Qed.

Lemma outcome_of_fates results skip :
  results ≡ₚ fates skip →
  outcome_of results = {| so_summaries := omap summary_in (fates skip);
                          so_failures := omap failure_in (fates skip);
                          so_skipped := omap skipped_in (fates skip) |}.
Proof.
  intros Hp. unfold outcome_of. f_equal; (apply group_of_fates; [done|intros [] ? ? [=]; by subst|by intros []]).
Qed.

Lemma length_fates skip : length (fates skip) = length chunk_ids.
Proof.
  unfold fates. assert (Hl : ∀ l, Forall (λ i, i < length chunk_ids) l → length (omap (fate skip) l) = length l).
  { intros l Hl. induction Hl as [|i l Hi Hl IH]; simpl; [done|]. unfold fate at 1.
    apply lookup_lt_is_Some in Hi as [id ->]. simpl. f_equal. apply IH. }
  rewrite Hl, length_seq; [done|]. apply Forall_seq. lia.
Qed.

Lemma failures_nonempty s :
  stream_ok s → drained chunk_ids s → skipped_set (ss_results s) ≠ ∅ →
  fail_fast = true ∧ so_failures (outcome_of (ss_results s)) ≠ [].
Proof.
  intros Hok Hd Hne. pose proof (results_are_fates s Hok Hd) as Hp.
  apply set_choose_L in Hne as [i Hi]. unfold skipped_set in Hi.
  apply elem_of_list_to_set, list_elem_of_fmap in Hi as (o & _ & [Hs Ho]%list_elem_of_filter).
  assert (Hsk : existsb is_skipped (ss_results s) = true).
  { apply existsb_exists. exists o. by rewrite <-list_elem_of_In. }
  apply (sk_skipped _ Hok), andb_true_iff in Hsk as [Hff Hab]. split; [done|].
  rewrite (sk_aborted _ Hok) in Hab. apply existsb_exists in Hab as (o' & Ho'%list_elem_of_In & Hf).
  destruct o' as [| j id e|]; try done. rewrite (outcome_of_fates _ _ Hp). simpl. intros Hnil.
  assert (Hin : (id, e) ∈ omap failure_in (fates (skipped_set (ss_results s)))).
  { apply list_elem_of_omap. exists (Failed j id e). by rewrite <-Hp. }
  rewrite Hnil in Hin. by apply not_elem_of_nil in Hin.
Qed.

Lemma summarize_chunks_fates o :
  summarize_chunks chunk_ids max_parallel fail_fast answer o →
  ∃ s, stream_ok s ∧ drained chunk_ids s ∧ o = outcome_of (ss_results s)
    ∧ o = {| so_summaries := omap summary_in (fates (skipped_set (ss_results s)));
             so_failures := omap failure_in (fates (skipped_set (ss_results s)));
             so_skipped := omap skipped_in (fates (skipped_set (ss_results s))) |}.
Proof.
  intros (s & Hr & Hd & ->)%summarize_chunks_drained. apply stream_reachable_ok in Hr as Hok.
  exists s. split_and!; [done|done|done|]. by apply outcome_of_fates, results_are_fates.
Qed.

(** Whatever the order in which the calls are admitted and answered, what
    [summarize_chunks] returns is given by the set of chunks it skipped: every chunk
    has exactly one fate, the fate of a chunk that is not skipped is the LLM's answer,
    the summaries, the failures and the skipped chunks are in input order, and
    chunks are skipped only under fail-fast and after a failure. *)
Theorem summarize_chunks_spec o :
  summarize_chunks chunk_ids max_parallel fail_fast answer o →
  ∃ skip, o = {| so_summaries := omap summary_in (fates skip);
                 so_failures := omap failure_in (fates skip);
                 so_skipped := omap skipped_in (fates skip) |}
    ∧ length (fates skip) = length chunk_ids
    ∧ (skip ≠ ∅ → fail_fast = true ∧ so_failures o ≠ []).
Proof.
  intros (s & Hok & Hd & Ho & Hf)%summarize_chunks_fates. exists (skipped_set (ss_results s)).
  split; [done|]. split; [apply length_fates|]. rewrite Ho. by apply failures_nonempty.
Qed.

(** Steps left. *)
Definition left_to_do (s : stream_state) : nat :=
  3 * (length chunk_ids - ss_next s) + (2 * size (ss_window s) - size (calling (ss_window s))).

Lemma step_decreases s s' : stream_ok s → step s s' → left_to_do s' < left_to_do s.
Proof.
  intros Hok Hstep. pose proof (map_size_filter (λ kv : nat * future, kv.2 = Calling) (ss_window s)) as Hle.
  fold (calling (ss_window s)) in Hle. unfold left_to_do.
  assert (Hfin : ∀ i f ab o, ss_window s !! i = Some f →
    left_to_do (finish i ab o s) < left_to_do s).
  { intros i f ab o Hi. unfold left_to_do. simpl. pose proof (calling_delete i f _ Hi) as Hc.
    rewrite (map_size_delete_Some i) by by eexists.
    pose proof (map_size_filter (λ kv : nat * future, kv.2 = Calling) (delete i (ss_window s))) as Hle'.
    fold (calling (delete i (ss_window s))) in Hle'. rewrite (map_size_delete_Some i) in Hle' by by eexists.
    assert (size (ss_window s) ≠ 0); [|case_decide; lia].
    intros Hz%map_size_empty_inv. by rewrite Hz, lookup_empty in Hi. }
  destruct Hstep as [s Hnext Hroom|s i id Hi Hid Hsk|s i Hi Hsk|s i sm Hi Ha|s i id e Hi Hid Ha];
    try (by eapply Hfin); simpl.
  - assert (Hfree : ss_window s !! ss_next s = None).
    { destruct (ss_window s !! ss_next s) eqn:Hx; [|done]. assert (ss_next s < ss_next s); [|lia].
      apply (sk_seen _ Hok). right. by eexists. }
    rewrite map_size_insert_None, calling_insert_fresh by done. lia.
  - rewrite map_size_insert_Some by by eexists. unfold calling at 1.
    rewrite map_filter_insert_True, map_size_insert_None; [|apply map_lookup_filter_None; right; intros; by simplify_eq|done].
    change (filter (λ kv : nat * future, kv.2 = Calling) (ss_window s)) with (calling (ss_window s)).
    assert (size (calling (ss_window s)) < size (ss_window s)); [|lia].
    assert (Hd : calling (ss_window s) = calling (delete i (ss_window s))).
    { unfold calling. rewrite map_filter_delete, delete_id; [done|]. apply map_lookup_filter_None. right.
      intros; by simplify_eq. }
    rewrite Hd. eapply Nat.le_lt_trans; [apply map_size_filter|]. rewrite (map_size_delete_Some i) by by eexists.
    assert (size (ss_window s) ≠ 0); [|lia]. intros Hz%map_size_empty_inv. by rewrite Hz, lookup_empty in Hi.
Qed.

Lemma steps_bounded k s s' : stream_ok s → nsteps step k s s' → k + left_to_do s' ≤ left_to_do s.
Proof.
  intros Hok Hn. induction Hn as [s|k s s1 s' Hs Hn IH]; [done|].
  pose proof (step_decreases _ _ Hok Hs). specialize (IH (stream_step_ok _ _ Hok Hs)). lia.
Qed.

(** A stream with room for a call is never stuck. *)
Lemma stream_progress s : 0 < max_parallel → stream_ok s → drained chunk_ids s ∨ ∃ s', step s s'.
Proof.
  intros Hmp Hok. destruct (decide (ss_window s = ∅)) as [Hw|Hw].
  - destruct (decide (ss_next s = length chunk_ids)) as [Hn|Hn]; [by left|right].
    eexists. apply step_admit; [pose proof (sk_next _ Hok); lia|]. by rewrite Hw, map_size_empty.
  - right. apply map_choose in Hw as (i & f & Hi).
    assert (Hid : ∃ id, chunk_ids !! i = Some id).
    { apply lookup_lt_is_Some. eapply Nat.lt_le_trans; [apply (sk_seen _ Hok)|apply (sk_next _ Hok)].
      right. by eexists. }
    destruct Hid as [id Hid]. destruct f.
    + destruct (fail_fast && ss_aborted s) eqn:Ha; eexists; [by eapply step_skip|by eapply step_dispatch].
    + destruct (answer i) eqn:Ha; eexists; [by eapply step_summarized|by eapply step_failed].
Qed.

(** [summarize_chunks] returns: with a window of at least one call, which
    [with_max_parallel] ensures, no schedule gets stuck before every chunk has been
    collected, and none takes more than three steps per chunk. *)
Theorem summarize_chunks_returns k s :
  0 < max_parallel → nsteps step k stream_init s →
  k ≤ 3 * length chunk_ids ∧ (drained chunk_ids s ∨ ∃ s', step s s').
Proof.
  intros Hmp Hn. assert (Hok : stream_ok s) by (apply stream_reachable_ok, rtc_nsteps; by eexists).
  split; [|by apply stream_progress]. pose proof (steps_bounded k _ s stream_init_ok Hn) as Hb.
  unfold left_to_do in Hb. simpl in Hb. rewrite map_size_empty in Hb. lia.
Qed.

(** At most [max_parallel] calls are in flight at any time; under fail-fast, fewer
    than [max_parallel] calls are answered after the first failure, since none is
    dispatched after it. *)
Theorem summarize_calls_bounded s :
  0 < max_parallel → rtc step stream_init s →
  size (calling (ss_window s)) ≤ max_parallel
  ∧ (fail_fast = true → late (ss_results s) < max_parallel).
Proof.
  intros Hmp Hr. apply stream_reachable_ok in Hr as Hok. split.
  - etransitivity; [apply map_size_filter|apply (sk_window _ Hok)].
  - intros Hff. pose proof (sk_late _ Hok Hff). lia.
Qed.
End invariant.

(** ** Examples

    Three chunks, two calls at a time, fail-fast: the first call fails while the second
    is in flight; the third chunk is skipped, the second is still summarized. *)

Definition ex_summary : TextSummary :=
  from_summarized_content (λ _, "") (λ _ _, 9%N) {| ce_fresh := 1; ce_created := 0; ce_touched := 0 |} 41
    {| sc_summary := "s"; sc_description := "d" |} "model".

Definition ex_answer (i : nat) : result CognifyError TextSummary :=
  if decide (i = 0) then Err (LlmError "timeout") else Ok ex_summary.

Definition ex_final : stream_state := {|
  ss_next := 3; ss_window := ∅; ss_aborted := true;
  ss_results := [Failed 0 40 (LlmError "timeout"); Skipped 2 42; Summarized 1 ex_summary] |}.

Lemma ex_schedule : nsteps (stream_step [40; 41; 42]%N 2 true ex_answer) 8 stream_init ex_final.
Proof.
  eapply nsteps_l; [apply step_admit; simpl; [lia|by rewrite map_size_empty; lia]|].
  eapply nsteps_l; [apply step_admit; simpl; [lia|vm_compute; lia]|].
  eapply nsteps_l; [by apply (step_dispatch _ _ _ _ _ 0)|].
  eapply nsteps_l; [by apply (step_dispatch _ _ _ _ _ 1)|].
  eapply nsteps_l; [by apply (step_failed _ _ _ _ _ 0 40 (LlmError "timeout"))|].
  eapply nsteps_l; [apply step_admit; simpl; [lia|vm_compute; lia]|].
  eapply nsteps_l; [by apply (step_skip _ _ _ _ _ 2 42)|].
  eapply nsteps_l; [by apply (step_summarized _ _ _ _ _ 1 ex_summary)|].
  match goal with |- nsteps _ _ ?s _ => replace s with ex_final by by vm_compute end. apply nsteps_O.
Qed.

Lemma ex_outcome :
  summarize_chunks [40; 41; 42]%N 2 true ex_answer (outcome_of (ss_results ex_final)).
Proof. exists ex_final. split; [apply rtc_nsteps; by exists 8; apply ex_schedule|]. done. Qed.

Lemma summarize_chunks_spec_witness :
  ∃ skip, so_skipped (outcome_of (ss_results ex_final)) = omap skipped_in (fates [40; 41; 42]%N ex_answer skip).
Proof.
  destruct (summarize_chunks_spec [40; 41; 42]%N 2 true ex_answer _ ex_outcome) as (skip & Ho & _).
  exists skip. by rewrite Ho.
Defined.

Lemma summarize_chunks_returns_witness : 8 ≤ 9.
Proof. apply (summarize_chunks_returns [40; 41; 42]%N 2 true ex_answer 8 ex_final ltac:(lia) ex_schedule). Defined.

Lemma summarize_calls_bounded_witness : late (ss_results ex_final) = 1 ∧ late (ss_results ex_final) < 2.
Proof.
  split; [by vm_compute|].
  apply (summarize_calls_bounded [40; 41; 42]%N 2 true ex_answer ex_final ltac:(lia)); [|done].
  apply rtc_nsteps. exists 8. apply ex_schedule.
Defined.
