(* ===== verification/GraphTypes.v ===== *)
(** * The types of graph integration

    The graphs a model extracts (crates/cognify/src/fact_extraction/models.rs), the
    entities, types and timestamps they become (crates/models/src/entity.rs,
    entity_type.rs, timestamp.rs) and the pairs, edges and producers the integration
    works on (crates/cognify/src/graph_integration/types.rs). *)

From S2P Require Import Prelude Json Strings DataPoint Models.
From Stdlib Require Import QArith.
#[local] Open Scope nat_scope.

(** ** What a model extracts *)

Record Node := { nd_id : string; nd_name : string; nd_node_type : string; nd_description : string }.

Record Edge := {
  eg_source_node_id : string;
  eg_target_node_id : string;
  eg_relationship_name : string;
  eg_description : option string;
}.

Record KnowledgeGraph := { kg_nodes : list Node; kg_edges : list Edge }.

(** ** Data points *)

(** The fields the integration writes after a point is made. *)
Definition dp_rewritten (id : uuid) (updated_at : Z) (ontology_valid : bool) (metadata : gmap string json)
    (belongs_to_set : option (list json)) (importance_weight : option Q) (dp : DataPoint) : DataPoint := {|
  dp_id := id; dp_created_at := dp_created_at dp; dp_updated_at := updated_at;
  dp_ontology_valid := ontology_valid; dp_version := dp_version dp;
  dp_topological_rank := dp_topological_rank dp; dp_metadata := metadata;
  dp_data_type := dp_data_type dp; dp_belongs_to_set := belongs_to_set;
  dp_source_pipeline := dp_source_pipeline dp; dp_source_task := dp_source_task dp;
  dp_source_node_set := dp_source_node_set dp; dp_source_user := dp_source_user dp;
  dp_source_content_hash := dp_source_content_hash dp; dp_feedback_weight := dp_feedback_weight dp;
  dp_importance_weight := importance_weight |}.

(** [base.importance_weight = Some(weight)] *)
Definition dp_weighted (weight : Q) (dp : DataPoint) : DataPoint :=
  dp_rewritten (dp_id dp) (dp_updated_at dp) (dp_ontology_valid dp) (dp_metadata dp) (dp_belongs_to_set dp)
    (Some weight) dp.

(** [base.belongs_to_set = sets] *)
Definition dp_in_sets (sets : option (list json)) (dp : DataPoint) : DataPoint :=
  dp_rewritten (dp_id dp) (dp_updated_at dp) (dp_ontology_valid dp) (dp_metadata dp) sets
    (dp_importance_weight dp) dp.

(** [DataPoint::set_ontology_valid] *)
Definition set_ontology_valid (valid : bool) (now : Z) (dp : DataPoint) : DataPoint :=
  dp_rewritten (dp_id dp) now valid (dp_metadata dp) (dp_belongs_to_set dp) (dp_importance_weight dp) dp.

Section points.
Context `{UuidFormat, Lowercase} (new_v5 : uuid → string → uuid).

(** [DataPoint::with_metadata] *)
Definition DataPoint_with_metadata (env : chunk_env) (data_type : string) (dataset_id : option uuid)
    (metadata : gmap string json) : DataPoint :=
  let dp := DataPoint_new uuid_to_string (ce_fresh env) (ce_created env) data_type dataset_id in
  dp_rewritten (dp_id dp) (dp_updated_at dp) (dp_ontology_valid dp) metadata (dp_belongs_to_set dp)
    (dp_importance_weight dp) dp.

Definition index_fields (fields : list string) : gmap string json :=
  {["index_fields" := JArray (map JString fields)]}.

(** *** [Entity] *)

(** [Entity::id_for] *)
Definition Entity_id_for (value : string) : uuid := data_point_id_for new_v5 "Entity" [value].

Definition ent_with_base (base : DataPoint) (e : Entity) : Entity :=
  {| ent_base := base; ent_name := ent_name e; ent_is_a := ent_is_a e; ent_description := ent_description e |}.

Definition ent_id (e : Entity) : uuid := dp_id (ent_base e).

(** [Entity::new] *)
Definition Entity_new (env : chunk_env) (name : string) (entity_type_id : option uuid) (description : string)
    (dataset_id : option uuid) : Entity :=
  let base := DataPoint_with_metadata env "Entity" dataset_id (index_fields ["name"]) in
  {| ent_base := dp_with_id (Entity_id_for name) base; ent_name := name; ent_is_a := entity_type_id;
     ent_description := description |}.

(** [Entity::from_node] *)
Definition Entity_from_node (env : chunk_env) (node_id node_name node_description : string)
    (entity_type_id : uuid) (dataset_id : option uuid) : Entity :=
  let entity := Entity_new env node_name (Some entity_type_id) node_description dataset_id in
  ent_with_base (set_metadata "original_node_id" (JString node_id) (ce_touched env)
                   (dp_with_id (Entity_id_for node_id) (ent_base entity))) entity.

(** *** [EntityType] *)

(** [EntityType::id_for] *)
Definition EntityType_id_for (value : string) : uuid := data_point_id_for new_v5 "EntityType" [value].

Definition et_with_base (base : DataPoint) (et : EntityType) : EntityType :=
  {| et_base := base; et_name := et_name et; et_description := et_description et |}.

Definition et_id (et : EntityType) : uuid := dp_id (et_base et).

(** [EntityType::new] *)
Definition EntityType_new (env : chunk_env) (name description : string) (dataset_id : option uuid) : EntityType :=
  let base := DataPoint_with_metadata env "EntityType" dataset_id (index_fields ["name"]) in
  {| et_base := dp_with_id (EntityType_id_for name) base; et_name := name;
     et_description := if decide (description = "") then "Entity type: " +:+ name else description |}.

(** [EntityType::from_node_type] *)
Definition EntityType_from_node_type (env : chunk_env) (type_name : string) (dataset_id : option uuid) : EntityType :=
  EntityType_new env type_name ("Entity type: " +:+ type_name) dataset_id.

(** [EntityType::mark_ontology_valid] *)
Definition mark_ontology_valid (canonical_name : option string) (now : Z) (et : EntityType) : EntityType :=
  let et := et_with_base (set_ontology_valid true now (et_base et)) et in
  match canonical_name with
  | Some canonical =>
      if decide (canonical = et_name et) then et
      else {| et_base := set_metadata "original_name" (JString (et_name et)) now (et_base et);
              et_name := canonical; et_description := et_description et |}
  | None => et
  end.

(** *** [Timestamp] *)

Inductive TimestampPrecision := Year | Month | Day | Second | Span.

(** A [NaiveDateTime], as its calendar fields and its milliseconds since the epoch. *)
Record date_time := {
  dt_year : Z; dt_month : nat; dt_day : nat; dt_hour : nat; dt_minute : nat; dt_second : nat;
  dt_millis : Z;
}.

(** [TimePeriod] *)
Record TimePeriod := {
  tp_normalized : string;
  tp_precision : TimestampPrecision;
  tp_lower : date_time;
  tp_time_until : Z;
}.

Record Timestamp := {
  tm_base : DataPoint;
  tm_name : string;
  tm_timestamp_str : string;
  tm_precision : TimestampPrecision;
  tm_lower : date_time;
  tm_time_until : Z;
}.

(** [Timestamp::id_for] *)
Definition Timestamp_id_for (timestamp_str : string) : uuid := data_point_id_for new_v5 "Timestamp" [timestamp_str].

Definition tm_id (t : Timestamp) : uuid := dp_id (tm_base t).

(** [Timestamp::build] *)
Definition Timestamp_build (env : chunk_env) (period : TimePeriod) : Timestamp :=
  let metadata := <["identity_fields" := JArray [JString "timestamp_str"]]> (index_fields []) in
  let base := DataPoint_with_metadata env "Timestamp" None metadata in
  {| tm_base := dp_with_id (Timestamp_id_for (tp_normalized period)) base;
     tm_name := tp_normalized period;
     tm_timestamp_str := tp_normalized period;
     tm_precision := tp_precision period;
     tm_lower := tp_lower period;
     tm_time_until := tp_time_until period |}.

(** [Timestamp::from_text]; [parse_time_period] is given. *)
Definition Timestamp_from_text (parse_time_period : string → option TimePeriod) (env : chunk_env) (t : string)
    : option Timestamp :=
  Timestamp_build env <$> parse_time_period t.
End points.

#[export] Instance Timestamp_has_data_point : HasDataPoint Timestamp := {|
  data_point := tm_base;
  with_data_point dp t := {|
    tm_base := dp; tm_name := tm_name t; tm_timestamp_str := tm_timestamp_str t;
    tm_precision := tm_precision t; tm_lower := tm_lower t; tm_time_until := tm_time_until t |};
  children _ := [];
  with_children _ t := t;
|}.

#[export] Instance Timestamp_laws : HasDataPointLaws Timestamp.
Proof. split; [by intros t dp []|by intros []]. Qed.

(** ** Pairs and edges *)

Record GraphNodePair := { np_entity : Entity; np_entity_type : option EntityType }.
Record TimestampNode := { tn_timestamp : Timestamp; tn_description : string }.

Definition np_id (p : GraphNodePair) : uuid := ent_id (np_entity p).
Definition tn_id (t : TimestampNode) : uuid := tm_id (tn_timestamp t).

(** The key of an edge. *)
Notation edge_key := (uuid * uuid * string)%type (only parsing).

Record GraphEdgePair := {
  ep_source_entity_id : uuid;
  ep_target_entity_id : uuid;
  ep_relationship_name : string;
  ep_properties : gmap string string;
}.

(** [GraphEdgePair::new] *)
Definition GraphEdgePair_new (source_entity_id target_entity_id : uuid) (relationship_name : string) : GraphEdgePair :=
  {| ep_source_entity_id := source_entity_id; ep_target_entity_id := target_entity_id;
     ep_relationship_name := relationship_name; ep_properties := ∅ |}.

(** [GraphEdgePair::dedup_key] *)
Definition dedup_key (e : GraphEdgePair) : edge_key :=
  (ep_source_entity_id e, ep_target_entity_id e, ep_relationship_name e).

(** [GraphEdgePair::add_property] *)
Definition add_property (key value : string) (e : GraphEdgePair) : GraphEdgePair :=
  {| ep_source_entity_id := ep_source_entity_id e; ep_target_entity_id := ep_target_entity_id e;
     ep_relationship_name := ep_relationship_name e; ep_properties := <[key := value]> (ep_properties e) |}.

(** ** [ArtifactProducers] *)

Record ArtifactProducers := {
  ap_entities : gmap uuid (list uuid);
  ap_edges : gmap (uuid * uuid * string) (list uuid);
}.

Definition ArtifactProducers_default : ArtifactProducers := {| ap_entities := ∅; ap_edges := ∅ |}.

(** [if !producers.contains(&chunk_id) { producers.push(chunk_id) }] *)
Definition push_new (chunk_id : uuid) (producers : list uuid) : list uuid :=
  if decide (chunk_id ∈ producers) then producers else producers ++ [chunk_id].

(** [record_entity] *)
Definition record_entity (entity_id chunk_id : uuid) (p : ArtifactProducers) : ArtifactProducers :=
  {| ap_entities := <[entity_id := push_new chunk_id (default [] (ap_entities p !! entity_id))]> (ap_entities p);
     ap_edges := ap_edges p |}.

(** [record_edge] *)
Definition record_edge (key : edge_key) (chunk_id : uuid) (p : ArtifactProducers) : ArtifactProducers :=
  {| ap_entities := ap_entities p;
     ap_edges := <[key := push_new chunk_id (default [] (ap_edges p !! key))]> (ap_edges p) |}.

(** [entity_chunks] *)
Definition entity_chunks (p : ArtifactProducers) (entity_id : uuid) : list uuid := default [] (ap_entities p !! entity_id).

(** [edge_chunks] *)
Definition edge_chunks (p : ArtifactProducers) (key : edge_key) : list uuid := default [] (ap_edges p !! key).

Lemma elem_of_push_new c c' l : c ∈ push_new c' l ↔ c = c' ∨ c ∈ l.
Proof.
  unfold push_new. case_decide; [naive_solver|]. rewrite elem_of_app, list_elem_of_singleton. tauto.
Qed.

Lemma NoDup_push_new c l : NoDup l → NoDup (push_new c l).
Proof.
  intros Hl. unfold push_new. case_decide; [done|]. apply NoDup_app. split; [done|].
  split; [intros x Hx ->%list_elem_of_singleton; done|apply NoDup_singleton].
Qed.

(** Recording adds one producer of one artifact. *)
Lemma elem_of_record_entity p e c e' c' :
  c ∈ entity_chunks (record_entity e' c' p) e ↔ (e = e' ∧ c = c') ∨ c ∈ entity_chunks p e.
Proof.
  unfold entity_chunks, record_entity. simpl. destruct (decide (e' = e)) as [->|Hne].
  - rewrite lookup_insert_eq. simpl. rewrite elem_of_push_new. naive_solver.
  - rewrite lookup_insert_ne by done. naive_solver.
Qed.

Lemma elem_of_record_edge p (k k' : edge_key) c c' :
  c ∈ edge_chunks (record_edge k' c' p) k ↔ (k = k' ∧ c = c') ∨ c ∈ edge_chunks p k.
Proof.
  unfold edge_chunks, record_edge. simpl. destruct (decide (k' = k)) as [->|Hne].
  - rewrite lookup_insert_eq. simpl. rewrite elem_of_push_new. naive_solver.
  - rewrite lookup_insert_ne by done. naive_solver.
Qed.

Lemma entity_chunks_record_edge p k c e : entity_chunks (record_edge k c p) e = entity_chunks p e.
Proof. done. Qed.
Lemma edge_chunks_record_entity p e c k : edge_chunks (record_entity e c p) k = edge_chunks p k.
Proof. done. Qed.
