(* ===== verification/EdgeText.v ===== *)
(** * The text of edges (crates/cognify/src/graph_extraction/edge_text.rs)

    An edge without a text of its own gets a sentence made of the labels of its
    endpoints.  At the end, [stamp_extracted_edge_text] of tasks.rs, which does so for
    the extracted edges. *)

From S2P Require Import Prelude Json Strings DataPoint Models GraphTypes.
From Stdlib Require Import Ascii.
#[local] Open Scope nat_scope.

Definition PREVIEW_MAX_CHARS : nat := 80.
Definition EDGE_TEXT_KEY : string := "edge_text".
Definition CHUNK_MENTIONS_PREFIX : string := "Document chunk mentions ".

(** ** Labels *)

Definition word_of (cur : string) : list string := if decide (cur = "") then [] else [cur].

(** [str::split_whitespace]; every step removes a byte at least. *)
Fixpoint split_ws (fuel : nat) (cur s : string) : list string :=
  match fuel with
  | 0 => word_of cur
  | S fuel =>
      match strip_one white_space s with
      | Some s => word_of cur ++ split_ws fuel "" s
      | None => match s with
                | EmptyString => word_of cur
                | String c s => split_ws fuel (cur +:+ String c EmptyString) s
                end
      end
  end.

Definition split_whitespace (s : string) : list string := split_ws (String.length s) "" s.

(** [s.chars().take(n)]: a character is a byte and the continuation bytes after it. *)
Definition is_continuation (c : ascii) : bool := let n := N_of_ascii c in (128 <=? n)%N && (n <? 192)%N.

Fixpoint take_chars (n : nat) (s : string) : string :=
  match s with
  | EmptyString => EmptyString
  | String c s =>
      if is_continuation c then String c (take_chars n s)
      else match n with 0 => EmptyString | S n => String c (take_chars n s) end
  end.

(** [trim_preview] *)
Definition trim_preview (s : string) : string := take_chars PREVIEW_MAX_CHARS (join " " (split_whitespace s)).

Example trim_preview_example : trim_preview ("  Alice " +:+ utf8 [0xC2; 0xA0]%N +:+ " sat ") = "Alice sat".
Proof. reflexivity. Qed.

Definition EdgeLabels : Type := gmap uuid string.

(** [EdgeLabels::insert] *)
Definition labels_insert (id : uuid) (index_field_value : string) (labels : EdgeLabels) : EdgeLabels :=
  let label := trim_preview index_field_value in
  if decide (label = "") then labels else <[id := label]> labels.

(** [EdgeLabels::insert_label] *)
Definition labels_insert_label (id : uuid) (label : string) (labels : EdgeLabels) : EdgeLabels :=
  if decide (trim label = "") then labels else <[id := label]> labels.

(** ** Texts *)

(** [fallback_edge_text] *)
Definition fallback_edge_text (source_label relationship_name target_label : string) : string :=
  let relationship := map_string (λ c, if decide (c = "_"%char) then " "%char else c) (trim relationship_name) in
  let relationship := if decide (relationship = "") then "related to" else relationship in
  source_label +:+ " " +:+ relationship +:+ " " +:+ target_label +:+ ".".

(** [chunk_mentions_text] *)
Definition chunk_mentions_text (entity_name description : string) : option string :=
  let description := trim description in
  if decide (description = "") then None else Some (CHUNK_MENTIONS_PREFIX +:+ entity_name +:+ ": " +:+ description).

(** [has_edge_text] *)
Definition has_edge_text (value : option string) : bool :=
  match value with Some text => bool_decide (trim text ≠ "") | None => false end.

Section labels.
Context (parse_str : string → option uuid).

(** [EdgeLabels::get] *)
Definition labels_get (labels : EdgeLabels) (id : string) : option string := id ← parse_str id; labels !! id.

(** [default_edge_text] *)
Definition default_edge_text (labels : EdgeLabels) (source_id relationship_name target_id : string) : option string :=
  source ← labels_get labels source_id;
  target ← labels_get labels target_id;
  Some (fallback_edge_text source relationship_name target).

(** An edge as the graph stores it. *)
Notation EdgeData := (string * string * string * gmap string json)%type.

(** One edge of [ensure_default_edge_text]; whether it had to be left bare. *)
Definition ensure_edge_text (labels : EdgeLabels) (edge : EdgeData) : EdgeData * bool :=
  let '(source_id, target_id, relationship_name, properties) := edge in
  if has_edge_text (properties !! EDGE_TEXT_KEY ≫= json_as_str) then (edge, false)
  else match default_edge_text labels source_id relationship_name target_id with
       | Some t => (source_id, target_id, relationship_name, <[EDGE_TEXT_KEY := JString t]> properties, false)
       | None => (edge, true)
       end.

(** The edges after a pass and how many were left bare. *)
Definition stamped_all {E} (stamp : E → E * bool) (edges : list E) : list E * nat :=
  (map (λ e, (stamp e).1) edges, length (filter (λ e, (stamp e).2 = true) edges)).

(** [ensure_default_edge_text] *)
Definition ensure_default_edge_text (edges : list EdgeData) (labels : EdgeLabels) : list EdgeData * nat :=
  stamped_all (ensure_edge_text labels) edges.

Context `{UuidFormat}.

(** One edge of [ensure_default_edge_text_for_pairs]. *)
Definition ensure_pair_text (labels : EdgeLabels) (edge : GraphEdgePair) : GraphEdgePair * bool :=
  if has_edge_text (ep_properties edge !! EDGE_TEXT_KEY) then (edge, false)
  else match default_edge_text labels (uuid_to_string (ep_source_entity_id edge)) (ep_relationship_name edge)
               (uuid_to_string (ep_target_entity_id edge)) with
       | Some t => (add_property EDGE_TEXT_KEY t edge, false)
       | None => (edge, true)
       end.

(** [ensure_default_edge_text_for_pairs] *)
Definition ensure_default_edge_text_for_pairs (edges : list GraphEdgePair) (labels : EdgeLabels)
    : list GraphEdgePair * nat :=
  stamped_all (ensure_pair_text labels) edges.

(** The labels of an extraction: its timestamps, entities and types. *)
Definition extracted_labels (unique_nodes : list GraphNodePair) (timestamps : list TimestampNode) : EdgeLabels :=
  let label_node labels n :=
    let labels := labels_insert (np_id n) (ent_name (np_entity n)) labels in
    match np_entity_type n with Some et => labels_insert (et_id et) (et_name et) labels | None => labels end in
  let label_timestamp labels t := labels_insert (tn_id t) (tm_name (tn_timestamp t)) labels in
  foldl label_node (foldl label_timestamp ∅ timestamps) unique_nodes.

(** [stamp_extracted_edge_text] (tasks.rs) *)
Definition stamp_extracted_edge_text (unique_nodes : list GraphNodePair) (unique_edges : list GraphEdgePair)
    (timestamps : list TimestampNode) : list GraphEdgePair :=
  (ensure_default_edge_text_for_pairs unique_edges (extracted_labels unique_nodes timestamps)).1.
End labels.

(** ** Facts *)

(** A string that ends in a full stop is not blank. *)
Definition ends_in_dot (s : string) : Prop := ∃ t, s = t +:+ ".".

Lemma white_space_no_dot : Forall (λ p, p ≠ "" ∧ Forall (λ c, c ≠ "."%char) (String.list_ascii_of_string p)) white_space.
Proof. refine (bool_decide_unpack _ _). vm_compute. exact I. Qed.

Lemma substring_all s : String.substring 0 (String.length s) s = s.
Proof. induction s as [|c s IH]; [done|]. simpl. by rewrite IH. Qed.

(** Removing a prefix without a full stop leaves the one at the end. *)
Lemma strip_prefix_dot p : ∀ s, String.prefix p (s +:+ ".") = true → Forall (λ c, c ≠ "."%char) (String.list_ascii_of_string p) →
  ends_in_dot (String.substring (String.length p) (String.length (s +:+ ".") - String.length p) (s +:+ ".")).
Proof.
  induction p as [|a p IH]; intros s Hp Hdot.
  - rewrite Nat.sub_0_r. simpl String.length at 1. rewrite substring_all. by exists s.
  - apply Forall_cons in Hdot as [Ha Hdot]. destruct s as [|b s]; simpl in Hp |- *.
    + destruct (ascii_dec a "."); [done|discriminate].
    + destruct (ascii_dec a b); [|discriminate]. by apply IH.
Qed.

Lemma strip_dot fuel : ∀ s, ends_in_dot s → ends_in_dot (strip white_space fuel s).
Proof.
  induction fuel as [|fuel IH]; intros s Hs; [done|]. simpl. unfold strip_one.
  destruct (list_find _ white_space) as [[i p]|] eqn:Hfind; [|done]. apply IH.
  apply list_find_Some in Hfind as (Hi & Hp & _). destruct Hs as [t ->]. apply strip_prefix_dot; [done|].
  eapply Forall_lookup_1 in Hi; [|apply white_space_no_dot]. by destruct Hi.
Qed.

Lemma list_ascii_append (s t : string) : String.list_ascii_of_string (s +:+ t) = String.list_ascii_of_string s ++ String.list_ascii_of_string t.
Proof. induction s as [|c s IH]; [done|]. simpl. by rewrite IH. Qed.

Lemma rev_string_dot s : ends_in_dot s → ∃ t, rev_string s = String "." t.
Proof. intros [t ->]. unfold rev_string. rewrite list_ascii_append, rev_app_distr. simpl. by eexists. Qed.

Lemma no_white_prefix_dot t : strip_one (map rev_string white_space) (String "." t) = None.
Proof. unfold strip_one. by destruct t. Qed.

Lemma trim_dot s : ends_in_dot s → trim s ≠ "".
Proof.
  intros Hs. unfold trim, trim_start, trim_end. set (s' := strip white_space _ s).
  assert (Hs' : ends_in_dot s') by by apply strip_dot.
  destruct (rev_string_dot s' Hs') as [t Ht]. rewrite Ht.
  assert (Hstrip : ∀ fuel, strip (map rev_string white_space) fuel (String "." t) = String "." t).
  { intros [|fuel]; [done|]. cbn [strip]. by rewrite no_white_prefix_dot. }
  rewrite Hstrip. unfold rev_string. simpl. destruct (rev (String.list_ascii_of_string t)); simpl; discriminate.
Qed.

Lemma fallback_has_text source relationship target : has_edge_text (Some (fallback_edge_text source relationship target)) = true.
Proof.
  apply bool_decide_eq_true, trim_dot. unfold fallback_edge_text. cbv zeta. set (name := if decide _ then _ else _).
  exists (source +:+ " " +:+ name +:+ " " +:+ target). by rewrite !string_app_assoc.
Qed.

Section stamping.
Context `{UuidFormat} (parse_str : string → option uuid) (parse_to_string : ∀ u, parse_str (uuid_to_string u) = Some u).

(** Stamping keeps the key of an edge and every other property. *)
Lemma ensure_pair_key labels e : dedup_key (ensure_pair_text parse_str labels e).1 = dedup_key e.
Proof. unfold ensure_pair_text. case_match; [done|]. by case_match. Qed.

Lemma ensure_pair_other labels e k : k ≠ EDGE_TEXT_KEY →
  ep_properties (ensure_pair_text parse_str labels e).1 !! k = ep_properties e !! k.
Proof.
  intros Hk. unfold ensure_pair_text. case_match; [done|]. case_match; [|done]. simpl. by rewrite lookup_insert_ne.
Qed.

(** An edge that has a text keeps it, one without gets the sentence of its labels, and is
    left bare only if an endpoint has none. *)
Lemma ensure_pair_spec labels e :
  let e' := (ensure_pair_text parse_str labels e).1 in
  (has_edge_text (ep_properties e !! EDGE_TEXT_KEY) = true → e' = e)
  ∧ (is_Some (labels !! ep_source_entity_id e) → is_Some (labels !! ep_target_entity_id e) →
     has_edge_text (ep_properties e' !! EDGE_TEXT_KEY) = true)
  ∧ (has_edge_text (ep_properties e' !! EDGE_TEXT_KEY) = negb (ensure_pair_text parse_str labels e).2).
Proof.
  unfold ensure_pair_text. destruct (has_edge_text (ep_properties e !! EDGE_TEXT_KEY)) eqn:Htext; simpl; [done|].
  unfold default_edge_text, labels_get. rewrite !parse_to_string. simpl.
  destruct (labels !! ep_source_entity_id e) as [s|]; simpl; [|by split_and!; [|intros [? ?]|]].
  destruct (labels !! ep_target_entity_id e) as [t|]; simpl; [|by split_and!; [|intros _ [? ?]|]].
  rewrite lookup_insert_eq. split_and!; [done|intros _ _|]; apply fallback_has_text.
Qed.

(** The ids that get a label: of a timestamp or an entity with a name that is not blank. *)
Definition labelled (nodes : list GraphNodePair) (timestamps : list TimestampNode) (id : uuid) : Prop :=
  (∃ t, t ∈ timestamps ∧ tn_id t = id ∧ trim_preview (tm_name (tn_timestamp t)) ≠ "")
  ∨ (∃ n, n ∈ nodes ∧ np_id n = id ∧ trim_preview (ent_name (np_entity n)) ≠ "").

Lemma labels_insert_mono id name labels id' : is_Some (labels !! id') → is_Some (labels_insert id name labels !! id').
Proof. intros Hid. unfold labels_insert. case_decide; [done|]. by apply lookup_insert_is_Some'; right. Qed.

Lemma labels_insert_own id name labels : trim_preview name ≠ "" → is_Some (labels_insert id name labels !! id).
Proof. intros Hname. unfold labels_insert; cbv zeta. rewrite decide_False by done. apply lookup_insert_is_Some'; by left. Qed.

(** A fold of steps that keep the labels there are and set one for a good element. *)
Lemma foldl_labels {A} (step : EdgeLabels → A → EdgeLabels) (good : A → Prop) id l :
  (∀ labels x, is_Some (labels !! id) → is_Some (step labels x !! id)) →
  (∀ labels x, good x → is_Some (step labels x !! id)) →
  ∀ labels, is_Some (labels !! id) ∨ (∃ x, x ∈ l ∧ good x) → is_Some (foldl step labels l !! id).
Proof.
  intros Hmono Hown. induction l as [|x l IH]; intros labels; simpl.
  - by intros [?|(x & []%not_elem_of_nil & _)].
  - intros [Hid|(y & [->|Hin]%elem_of_cons & Hy)]; apply IH; [left; by apply Hmono|left; by apply Hown|right; by exists y].
Qed.

Lemma labelled_has_label nodes timestamps id : labelled nodes timestamps id →
  is_Some (extracted_labels nodes timestamps !! id).
Proof.
  intros Hid. unfold extracted_labels.
  apply (foldl_labels _ (λ n, np_id n = id ∧ trim_preview (ent_name (np_entity n)) ≠ "")).
  - intros labels n Hl. case_match; repeat apply labels_insert_mono; done.
  - intros labels n [<- Hn]. case_match; [apply labels_insert_mono|]; by apply labels_insert_own.
  - destruct Hid as [Ht|Hn]; [left|right; done].
    apply (foldl_labels _ (λ t, tn_id t = id ∧ trim_preview (tm_name (tn_timestamp t)) ≠ "")); [| |by right].
    + intros labels t. apply labels_insert_mono.
    + intros labels t [<- Hn]. by apply labels_insert_own.
Qed.

(** Stamping rewrites no edge but its blank text: edges keep their order, endpoints,
    relationships and other properties, a text that is there stays, and every edge between
    labelled ids ends with a text that is not blank. *)
Theorem stamp_extracted_edge_text_spec nodes edges timestamps :
  let stamped := stamp_extracted_edge_text parse_str nodes edges timestamps in
  Forall2 (λ e e', dedup_key e' = dedup_key e
             ∧ (∀ k, k ≠ EDGE_TEXT_KEY → ep_properties e' !! k = ep_properties e !! k)
             ∧ (has_edge_text (ep_properties e !! EDGE_TEXT_KEY) = true → e' = e)
             ∧ (labelled nodes timestamps (ep_source_entity_id e) → labelled nodes timestamps (ep_target_entity_id e) →
                has_edge_text (ep_properties e' !! EDGE_TEXT_KEY) = true)) edges stamped.
Proof.
  apply Forall2_fmap_r, Forall_Forall2_diag, Forall_forall. intros e _. set (labels := extracted_labels nodes timestamps).
  destruct (ensure_pair_spec labels e) as (Hkeep & Htext & _). split_and!; [apply ensure_pair_key|intros k; apply ensure_pair_other|done|].
  intros ??. apply Htext; by apply labelled_has_label.
Qed.
End stamping.

(** *** A run *)

#[local] Instance text_uuid : UuidFormat := {|
  uuid_to_string u := binary (N.succ_pos u); uuid_simple u := String "s" (binary (N.succ_pos u)) |}.

Definition text_parse (s : string) : option uuid := Some (Pos.pred_N (of_binary s)).

#[local] Instance text_lowercase : Lowercase := ascii_lowercase.

Definition text_env : chunk_env := {| ce_fresh := 1; ce_created := 2; ce_touched := 3 |}.
Definition text_node (id : uuid) (name : string) : GraphNodePair :=
  {| np_entity := Entity_from_node (λ _ _, id) text_env name name "" 9%N None; np_entity_type := None |}.
Definition text_edge : GraphEdgePair := GraphEdgePair_new 1%N 2%N "lives_in".

Lemma stamp_extracted_edge_text_spec_witness :
  let nodes := [text_node 1%N "alice"; text_node 2%N "paris"] in
  map (λ e, ep_properties e !! EDGE_TEXT_KEY) (stamp_extracted_edge_text text_parse nodes [text_edge] [])
    = [Some "alice lives in paris."]
  ∧ Forall2 (λ e e', dedup_key e' = dedup_key e) [text_edge] (stamp_extracted_edge_text text_parse nodes [text_edge] []).
Proof.
  cbv zeta. split; [vm_compute; reflexivity|]. eapply Forall2_impl.
  - apply (stamp_extracted_edge_text_spec text_parse) with (timestamps := []). intros u. unfold text_parse. simpl.
    by rewrite of_binary_binary, N.pos_pred_succ.
  - by intros e e' (Hkey & _).
Defined.
