(* ===== verification/Expansion.v ===== *)
(** * Graph expansion (crates/cognify/src/graph_integration/expansion.rs)

    The extracted graphs of a run become entities, types, timestamps and edges: nodes
    are merged by name, the endpoints of edges are resolved against every node seen so
    far, edges the graph already has are only claimed, and an ontology may add its own
    nodes and edges.  One definition per function of the source; the local variables of
    the main loop are the [expansion_state].

    The clock and id source of a new point are given by the key it is stored under. *)

From stdpp Require Import sorting.
From S2P Require Import Prelude Json Strings DataPoint Models Provenance GraphTypes.
From Stdlib Require Import QArith.
#[local] Open Scope nat_scope.

(** ** Counters *)

Record EdgeResolutionStats := {
  es_attempted : nat;
  es_resolved_by_id : nat;
  es_resolved_by_name : nat;
  es_resolved_by_id_cross_chunk : nat;
  es_resolved_by_name_cross_chunk : nat;
  es_max_cross_chunk_distance : nat;
  es_dropped_source_missing : nat;
  es_dropped_target_missing : nat;
  es_dropped_ambiguous_name : nat;
}.

Definition EdgeResolutionStats_default : EdgeResolutionStats := {|
  es_attempted := 0; es_resolved_by_id := 0; es_resolved_by_name := 0; es_resolved_by_id_cross_chunk := 0;
  es_resolved_by_name_cross_chunk := 0; es_max_cross_chunk_distance := 0; es_dropped_source_missing := 0;
  es_dropped_target_missing := 0; es_dropped_ambiguous_name := 0 |}.

(** [EdgeResolutionStats::dropped] *)
Definition dropped (s : EdgeResolutionStats) : nat :=
  es_dropped_source_missing s + es_dropped_target_missing s + es_dropped_ambiguous_name s.

(** [EdgeResolutionStats::resolved_cross_chunk] *)
Definition resolved_cross_chunk (s : EdgeResolutionStats) : nat :=
  es_resolved_by_id_cross_chunk s + es_resolved_by_name_cross_chunk s.

(** [stats.attempted += 1] *)
Definition count_attempt (s : EdgeResolutionStats) : EdgeResolutionStats := {|
  es_attempted := es_attempted s + 1; es_resolved_by_id := es_resolved_by_id s;
  es_resolved_by_name := es_resolved_by_name s; es_resolved_by_id_cross_chunk := es_resolved_by_id_cross_chunk s;
  es_resolved_by_name_cross_chunk := es_resolved_by_name_cross_chunk s;
  es_max_cross_chunk_distance := es_max_cross_chunk_distance s;
  es_dropped_source_missing := es_dropped_source_missing s; es_dropped_target_missing := es_dropped_target_missing s;
  es_dropped_ambiguous_name := es_dropped_ambiguous_name s |}.

(** [widen_cross_chunk_distance], when the origin is another chunk. *)
Definition widened (origin position : nat) (s : EdgeResolutionStats) : nat :=
  if decide (origin = position) then es_max_cross_chunk_distance s
  else es_max_cross_chunk_distance s `max` (position - origin).

(** [record_resolved_by_id] *)
Definition record_resolved_by_id (origin position : nat) (s : EdgeResolutionStats) : EdgeResolutionStats := {|
  es_attempted := es_attempted s; es_resolved_by_id := es_resolved_by_id s + 1;
  es_resolved_by_name := es_resolved_by_name s;
  es_resolved_by_id_cross_chunk :=
    if decide (origin = position) then es_resolved_by_id_cross_chunk s else es_resolved_by_id_cross_chunk s + 1;
  es_resolved_by_name_cross_chunk := es_resolved_by_name_cross_chunk s;
  es_max_cross_chunk_distance := widened origin position s;
  es_dropped_source_missing := es_dropped_source_missing s; es_dropped_target_missing := es_dropped_target_missing s;
  es_dropped_ambiguous_name := es_dropped_ambiguous_name s |}.

(** [record_resolved_by_name] *)
Definition record_resolved_by_name (origin position : nat) (s : EdgeResolutionStats) : EdgeResolutionStats := {|
  es_attempted := es_attempted s; es_resolved_by_id := es_resolved_by_id s;
  es_resolved_by_name := es_resolved_by_name s + 1;
  es_resolved_by_id_cross_chunk := es_resolved_by_id_cross_chunk s;
  es_resolved_by_name_cross_chunk :=
    if decide (origin = position) then es_resolved_by_name_cross_chunk s else es_resolved_by_name_cross_chunk s + 1;
  es_max_cross_chunk_distance := widened origin position s;
  es_dropped_source_missing := es_dropped_source_missing s; es_dropped_target_missing := es_dropped_target_missing s;
  es_dropped_ambiguous_name := es_dropped_ambiguous_name s |}.

(** The drops; [source]: it is the source that is missing. *)
Definition count_ambiguous (s : EdgeResolutionStats) : EdgeResolutionStats := {|
  es_attempted := es_attempted s; es_resolved_by_id := es_resolved_by_id s;
  es_resolved_by_name := es_resolved_by_name s; es_resolved_by_id_cross_chunk := es_resolved_by_id_cross_chunk s;
  es_resolved_by_name_cross_chunk := es_resolved_by_name_cross_chunk s;
  es_max_cross_chunk_distance := es_max_cross_chunk_distance s;
  es_dropped_source_missing := es_dropped_source_missing s; es_dropped_target_missing := es_dropped_target_missing s;
  es_dropped_ambiguous_name := es_dropped_ambiguous_name s + 1 |}.

Definition count_missing (source : bool) (s : EdgeResolutionStats) : EdgeResolutionStats := {|
  es_attempted := es_attempted s; es_resolved_by_id := es_resolved_by_id s;
  es_resolved_by_name := es_resolved_by_name s; es_resolved_by_id_cross_chunk := es_resolved_by_id_cross_chunk s;
  es_resolved_by_name_cross_chunk := es_resolved_by_name_cross_chunk s;
  es_max_cross_chunk_distance := es_max_cross_chunk_distance s;
  es_dropped_source_missing := if source then es_dropped_source_missing s + 1 else es_dropped_source_missing s;
  es_dropped_target_missing := if source then es_dropped_target_missing s else es_dropped_target_missing s + 1;
  es_dropped_ambiguous_name := es_dropped_ambiguous_name s |}.

(** ** The registry of declared nodes *)

(** Node ids, and names as aliases; [None] marks a name of several entities.  The
    number is the position of the chunk that declared the key last. *)
Record registry := {
  rg_ids : gmap string (uuid * nat);
  rg_names : gmap string (option (uuid * nat));
}.

(** What an endpoint resolves to. *)
Inductive EndpointResolution :=
  | ById (entity : uuid) (origin : nat)
  | ByName (entity : uuid) (origin : nat)
  | Ambiguous
  | Missing.

(** ** The ontology *)

Inductive NodeCategory := Classes | Individuals.
#[export] Instance NodeCategory_eq_dec : EqDecision NodeCategory.
Proof. solve_decision. Defined.

Record AttachedOntologyNode := { an_name : string; an_category : NodeCategory }.

Notation OntologyEdge := (string * string * string)%type (only parsing).

(** The resolver, as expansion uses it: [get_subgraph name category true]. *)
Record OntologyResolver := {
  or_is_loaded : bool;
  or_get_subgraph : string → string →
    result string (list AttachedOntologyNode * list (string * string * string) * option AttachedOntologyNode);
}.

(** ** The local variables *)

Record type_state := { xt_type_map : gmap string EntityType; xt_key_mapping : gmap string string }.

Record ontology_state := {
  xo_types_map : gmap string EntityType;
  xo_entities_map : gmap string GraphNodePair;
  xo_edge_keys : gset string;
  xo_edges_out : list GraphEdgePair;
}.

Record timestamp_state := { xm_map : gmap uuid TimestampNode; xm_order : list uuid }.

Record edge_state := {
  xe_edge_map : gmap (uuid * uuid * string) GraphEdgePair;
  xe_claimed : gmap (uuid * uuid * string) GraphEdgePair;
  xe_stats : EdgeResolutionStats;
}.

Record expansion_state := {
  xs_nodes : gmap string GraphNodePair;
  xs_types : type_state;
  xs_ontology : ontology_state;
  xs_timestamps : timestamp_state;
  xs_registry : registry;
  xs_producers : ArtifactProducers;
  xs_edges : edge_state;
  xs_visited : gset uuid;
}.

Definition expansion_init : expansion_state := {|
  xs_nodes := ∅;
  xs_types := {| xt_type_map := ∅; xt_key_mapping := ∅ |};
  xs_ontology := {| xo_types_map := ∅; xo_entities_map := ∅; xo_edge_keys := ∅; xo_edges_out := [] |};
  xs_timestamps := {| xm_map := ∅; xm_order := [] |};
  xs_registry := {| rg_ids := ∅; rg_names := ∅ |};
  xs_producers := ArtifactProducers_default;
  xs_edges := {| xe_edge_map := ∅; xe_claimed := ∅; xe_stats := EdgeResolutionStats_default |};
  xs_visited := ∅ |}.

(** [Expansion] *)
Record Expansion := {
  ex_nodes : list GraphNodePair;
  ex_edges : list GraphEdgePair;
  ex_claimed_existing_edges : list GraphEdgePair;
  ex_producers : ArtifactProducers;
  ex_stats : EdgeResolutionStats;
  ex_timestamps : list TimestampNode;
}.

Section expansion.
Context `{UuidFormat, Lowercase} (new_v5 : uuid → string → uuid) (clock : string → chunk_env)
  (parse_time_period : string → option TimePeriod).

(** ** Names and endpoints *)

(** [register_name_alias] *)
Definition register_name_alias (raw_name : string) (entity_id : uuid) (id_key : string) (position : nat)
    (aliases : gmap string (option (uuid * nat))) : gmap string (option (uuid * nat)) :=
  let key := normalize_identifier raw_name in
  if decide (key = "" ∨ key = id_key) then aliases
  else match aliases !! key with
       | Some (Some (id, _)) =>
           if decide (id = entity_id) then <[key := Some (id, position)]> aliases else <[key := None]> aliases
       | Some None => aliases
       | None => <[key := Some (entity_id, position)]> aliases
       end.

(** [refresh_name_alias_origin] *)
Definition refresh_name_alias_origin (raw_name : string) (entity_id : uuid) (position : nat)
    (aliases : gmap string (option (uuid * nat))) : gmap string (option (uuid * nat)) :=
  let key := normalize_identifier raw_name in
  match aliases !! key with
  | Some (Some (id, _)) => if decide (id = entity_id) then <[key := Some (id, position)]> aliases else aliases
  | _ => aliases
  end.

(** [resolve_endpoint] *)
Definition resolve_endpoint (r : registry) (raw : string) : EndpointResolution :=
  let key := normalize_identifier raw in
  match rg_ids r !! key with
  | Some (entity, origin) => ById entity origin
  | None =>
      match rg_names r !! key with
      | Some (Some (entity, origin)) => ByName entity origin
      | Some None => Ambiguous
      | None => Missing
      end
  end.

(** ** The ids of a graph's nodes *)

(** [without_duplicate_node_ids] *)
Fixpoint first_by_id (seen : gset string) (nodes : list Node) : list Node :=
  match nodes with
  | [] => []
  | node :: nodes =>
      if decide (nd_id node ∈ seen) then first_by_id seen nodes
      else node :: first_by_id ({[nd_id node]} ∪ seen) nodes
  end.

Definition without_duplicate_node_ids (graph : KnowledgeGraph) : KnowledgeGraph :=
  {| kg_nodes := first_by_id ∅ (kg_nodes graph); kg_edges := kg_edges graph |}.

(** The order of [sort_by_cached_key] on (type, description, id). *)
Definition ordinal_key (node : Node) : list string :=
  [generate_node_name (nd_node_type node); generate_node_name (nd_description node); generate_node_name (nd_id node)].

Fixpoint keys_leb (x y : list string) : bool :=
  match x, y with
  | a :: x, b :: y =>
      match String.compare a b with Lt => true | Gt => false | Eq => keys_leb x y end
  | [], _ => true
  | _ :: _, [] => false
  end.

Definition ordinal_le (x y : Node) : Prop := keys_leb (ordinal_key x) (ordinal_key y) = true.
#[export] Instance ordinal_le_dec x y : Decision (ordinal_le x y).
Proof. unfold ordinal_le. apply _. Defined.

(** The ids of the nodes of one name. *)
Definition group_ids (chunk_id name_based : uuid) (group : list Node) : list (string * uuid) :=
  match group with
  | [only] => [(nd_id only, name_based)]
  | _ => imap (λ ordinal node,
                 (nd_id node, data_point_id_for new_v5 "Entity"
                                [nd_name node; uuid_to_string chunk_id; pretty (ordinal + 1)]))
           (merge_sort ordinal_le group)
  end.

(** [entity_ids_by_node_id] *)
Definition entity_ids_by_node_id (graph : KnowledgeGraph) (chunk_id : uuid) : gmap string uuid :=
  let name_based node := Entity_id_for new_v5 (nd_name node) in
  let order := foldl (λ order node, push_new (name_based node) order) [] (kg_nodes graph) in
  foldl (λ ids id, foldl (λ ids '(node_id, entity_id), <[node_id := entity_id]> ids) ids
                     (group_ids chunk_id id (filter (λ node, name_based node = id) (kg_nodes graph))))
    ∅ order.

(** [is_timestamp_type] *)
Definition is_timestamp_type (node_type : string) : bool :=
  bool_decide (generate_node_name node_type = "timestamp").

(** ** Stamping *)

Definition EXTRACT_GRAPH_TASK_NAME : string := "extract_graph_from_data".

(** [pre_stamp_extraction] *)
Definition pre_stamp_extraction `{HasDataPoint T} (user_label : option string) (task_rank : option Z) (target : T)
    (visited : gset uuid) : T * gset uuid :=
  stamp_container {| pc_pipeline_name := "cognify_pipeline"; pc_task_name := EXTRACT_GRAPH_TASK_NAME;
                     pc_user_label := user_label; pc_node_set := None; pc_content_hash := None;
                     pc_task_rank := task_rank |} target visited.
(** ** Ontology subgraphs *)

Context (dataset_id : uuid) (chunk_node_sets : gmap uuid (list json)) (chunk_importance_weights : gmap uuid Q)
  (existing_edges_set : gset string) (ontology_resolver : OntologyResolver)
  (user_label : option string) (task_rank : option Z).

Definition type_key (name : string) : string := name +:+ "_type".
Definition entity_key (id : uuid) : string := uuid_to_string id +:+ "_entity".

(** The key of an edge among those of the database. *)
Definition edge_db_key (source target : uuid) (relationship_name : string) : string :=
  uuid_to_string source +:+ "_" +:+ uuid_to_string target +:+ "_" +:+ relationship_name.

(** One node of [process_ontology_nodes]. *)
Definition process_ontology_node (importance_weight : Q) (node_map : gmap string GraphNodePair)
    (type_map : gmap string EntityType) (st : ontology_state * gset uuid) (node : AttachedOntologyNode)
    : ontology_state * gset uuid :=
  let '(o, visited) := st in
  let normalized_name := generate_node_name (an_name node) in
  match an_category node with
  | Classes =>
      let node_id := EntityType_id_for new_v5 (an_name node) in
      let key := uuid_to_string node_id +:+ "_type" in
      if decide (is_Some (type_map !! type_key normalized_name) ∨ is_Some (xo_types_map o !! key)
                 ∨ is_Some (node_map !! entity_key node_id)) then (o, visited)
      else
        let et := EntityType_new new_v5 (clock key) normalized_name normalized_name (Some dataset_id) in
        let base := set_ontology_valid true (ce_touched (clock key)) (dp_with_id node_id (et_base et)) in
        let et := et_with_base (dp_weighted importance_weight base) et in
        let '(et, visited) := pre_stamp_extraction user_label task_rank et visited in
        ({| xo_types_map := <[key := et]> (xo_types_map o); xo_entities_map := xo_entities_map o;
            xo_edge_keys := xo_edge_keys o; xo_edges_out := xo_edges_out o |}, visited)
  | Individuals =>
      let node_id := Entity_id_for new_v5 (an_name node) in
      let key := entity_key node_id in
      if decide (is_Some (node_map !! key) ∨ is_Some (xo_entities_map o !! key)) then (o, visited)
      else
        let entity := Entity_new new_v5 (clock key) normalized_name None normalized_name (Some dataset_id) in
        let base := set_ontology_valid true (ce_touched (clock key)) (dp_with_id node_id (ent_base entity)) in
        let entity := ent_with_base (dp_weighted importance_weight base) entity in
        let '(entity, visited) := pre_stamp_extraction user_label task_rank entity visited in
        let et := EntityType_new new_v5 (clock key) "OntologyIndividual" "" (Some dataset_id) in
        let et := et_with_base (dp_with_id (EntityType_id_for new_v5 "OntologyIndividual") (et_base et)) et in
        let '(et, visited) := pre_stamp_extraction user_label task_rank et visited in
        ({| xo_types_map := xo_types_map o;
            xo_entities_map := <[key := {| np_entity := entity; np_entity_type := Some et |}]> (xo_entities_map o);
            xo_edge_keys := xo_edge_keys o; xo_edges_out := xo_edges_out o |}, visited)
  end.

(** [process_ontology_nodes] *)
Definition process_ontology_nodes (ontology_nodes : list AttachedOntologyNode) (importance_weight : Q)
    (node_map : gmap string GraphNodePair) (type_map : gmap string EntityType) (o : ontology_state)
    (visited : gset uuid) : ontology_state * gset uuid :=
  foldl (process_ontology_node importance_weight node_map type_map) (o, visited) ontology_nodes.

(** [endpoint_id]; of two nodes of one name the last one counts. *)
Definition ontology_endpoint_id (ontology_nodes : list AttachedOntologyNode) (name : string) : uuid :=
  let is_class := foldl (λ m n, <[generate_edge_name (an_name n) := bool_decide (an_category n = Classes)]> m)
                    (∅ : gmap string bool) ontology_nodes in
  if default false (is_class !! generate_edge_name name)
  then EntityType_id_for new_v5 name else Entity_id_for new_v5 name.

(** One edge of [process_ontology_edges]. *)
Definition process_ontology_edge (ontology_nodes : list AttachedOntologyNode) (o : ontology_state)
    (edge : OntologyEdge) : ontology_state :=
  let '(source, relation, target) := edge in
  let source_id := ontology_endpoint_id ontology_nodes source in
  let target_id := ontology_endpoint_id ontology_nodes target in
  let rel_name := generate_edge_name relation in
  let key := edge_db_key source_id target_id rel_name in
  if decide (key ∈ existing_edges_set ∨ key ∈ xo_edge_keys o) then o
  else
    let e := add_property "target_node_id" (uuid_to_string target_id)
               (add_property "source_node_id" (uuid_to_string source_id)
                  (add_property "relationship_name" rel_name
                     (add_property "ontology_valid" "true" (GraphEdgePair_new source_id target_id rel_name)))) in
    {| xo_types_map := xo_types_map o; xo_entities_map := xo_entities_map o;
       xo_edge_keys := {[key]} ∪ xo_edge_keys o; xo_edges_out := xo_edges_out o ++ [e] |}.

(** [process_ontology_edges] *)
Definition process_ontology_edges (ontology_nodes : list AttachedOntologyNode) (edges : list (string * string * string))
    (o : ontology_state) : ontology_state :=
  foldl (process_ontology_edge ontology_nodes) o edges.

(** ** Types *)

(** The creation of an [EntityType] under [effective_key]. *)
Definition create_entity_type (node_type normalized_type_name effective_key : string) (weight : Q)
    (nodes : gmap string GraphNodePair) (ts : type_state) (o : ontology_state) (visited : gset uuid)
    : type_state * ontology_state * gset uuid :=
  let key := type_key normalized_type_name in
  let et := EntityType_from_node_type new_v5 (clock key) normalized_type_name (Some dataset_id) in
  let et := et_with_base (dp_weighted weight (et_base et)) et in
  let '(et, visited) := pre_stamp_extraction user_label task_rank et visited in
  let unmatched := ({| xt_type_map := <[effective_key := et]> (xt_type_map ts);
                       xt_key_mapping := xt_key_mapping ts |}, o, visited) in
  if or_is_loaded ontology_resolver then
    match or_get_subgraph ontology_resolver node_type "classes" with
    | Ok (onto_nodes, onto_edges, Some root_node) =>
        let canonical_name := generate_node_name (an_name root_node) in
        let et := mark_ontology_valid (Some canonical_name) (ce_touched (clock key)) et in
        let et := et_with_base (dp_with_id (EntityType_id_for new_v5 canonical_name) (et_base et)) et in
        let new_type_key := type_key canonical_name in
        let remapped := bool_decide (new_type_key ≠ key) in
        let '(o, visited) := process_ontology_nodes onto_nodes weight nodes (xt_type_map ts) o visited in
        let o := process_ontology_edges (onto_nodes ++ [root_node]) onto_edges o in
        ({| xt_type_map := <[(if remapped then new_type_key else effective_key) := et]> (xt_type_map ts);
            xt_key_mapping := if remapped then <[key := new_type_key]> (xt_key_mapping ts) else xt_key_mapping ts |},
         o, visited)
    | _ => unmatched
    end
  else unmatched.

(** Step 1 for a node: its type, created when it is the first of its name.  [None]: the
    source's [expect] panics. *)
Definition entity_type_of (node_type : string) (weight : Q) (nodes : gmap string GraphNodePair) (ts : type_state)
    (o : ontology_state) (visited : gset uuid) : option (option EntityType * type_state * ontology_state * gset uuid) :=
  let normalized_type_name := generate_node_name node_type in
  if decide (trim normalized_type_name = "") then Some (None, ts, o, visited)
  else
    let key := type_key normalized_type_name in
    let effective_key := default key (xt_key_mapping ts !! key) in
    let '(ts, o, visited) :=
      if decide (is_Some (xt_type_map ts !! effective_key)) then (ts, o, visited)
      else create_entity_type node_type normalized_type_name effective_key weight nodes ts o visited in
    let resolved_key := default key (xt_key_mapping ts !! key) in
    et ← xt_type_map ts !! resolved_key;
    Some (Some et, ts, o, visited).

(** ** Nodes *)

(** The node sets of the chunk, added to those of the entity. *)
Definition union_sets (belongs_to_set : option (list json)) (chunk_sets : option (list json)) : option (list json) :=
  match chunk_sets with
  | None => belongs_to_set
  | Some chunk_sets =>
      Some (foldl (λ sets node_set, if decide (node_set ∈ sets) then sets else sets ++ [node_set])
              (default [] belongs_to_set) chunk_sets)
  end.

(** [create_entity_node] *)
Definition create_entity_node (env : chunk_env) (node : Node) (entity_id : uuid) (entity_type : option EntityType)
    (chunk_id : uuid) (chunk_belongs_to_set : option (list json)) (importance_weight : Q) : GraphNodePair :=
  let entity := Entity_new new_v5 env (generate_node_name (nd_name node)) (et_id <$> entity_type)
                  (nd_description node) (Some dataset_id) in
  let base := dp_with_id entity_id (ent_base entity) in
  let base := set_metadata "original_node_id" (JString (nd_id node)) (ce_touched env) base in
  let base := set_metadata "chunk_id" (JString (uuid_to_string chunk_id)) (ce_touched env) base in
  let base := dp_weighted importance_weight base in
  let base := dp_in_sets (union_sets (dp_belongs_to_set base) chunk_belongs_to_set) base in
  {| np_entity := ent_with_base base entity; np_entity_type := entity_type |}.

(** The entity under the canonical name and id of its individual. *)
Definition canonical_entity (now : Z) (canonical_name : string) (e : Entity) : Entity :=
  let base := set_metadata "original_name" (JString (ent_name e)) now (ent_base e) in
  let base := set_ontology_valid true now (dp_with_id (Entity_id_for new_v5 canonical_name) base) in
  {| ent_base := base; ent_name := canonical_name; ent_is_a := ent_is_a e; ent_description := ent_description e |}.

(** The lookup of the name among the individuals, and the subgraph it brings. *)
Definition match_individual (now : Z) (node : Node) (np : GraphNodePair)
    : GraphNodePair * option (list AttachedOntologyNode * list (string * string * string)) :=
  if or_is_loaded ontology_resolver then
    match or_get_subgraph ontology_resolver (nd_name node) "individuals" with
    | Ok (ont_nodes, ont_edges, Some root_individual) =>
        ({| np_entity := canonical_entity now (generate_node_name (an_name root_individual)) (np_entity np);
            np_entity_type := np_entity_type np |}, Some (ont_nodes, ont_edges))
    | _ => (np, None)
    end
  else (np, None).

(** A name and an id enter the registry together. *)
Definition register (names : list string) (entity_id : uuid) (id_key : string) (position : nat) (r : registry)
    : registry := {|
  rg_ids := <[id_key := (entity_id, position)]> (rg_ids r);
  rg_names := foldl (λ aliases name, register_name_alias name entity_id id_key position aliases) (rg_names r) names |}.

Definition refresh (names : list string) (entity_id : uuid) (position : nat) (r : registry) : registry := {|
  rg_ids := rg_ids r;
  rg_names := foldl (λ aliases name, refresh_name_alias_origin name entity_id position aliases) (rg_names r) names |}.

(** A node of type "Timestamp" whose name parses. *)
Definition declare_timestamp (position : nat) (chunk_id : uuid) (weight : Q) (node : Node) (timestamp : Timestamp)
    (st : expansion_state) : expansion_state :=
  let id := tm_id timestamp in
  let '(ms, visited) :=
    match xm_map (xs_timestamps st) !! id with
    | Some _ => (xs_timestamps st, xs_visited st)
    | None =>
        let timestamp := with_data_point (dp_weighted weight (tm_base timestamp)) timestamp in
        let '(timestamp, visited) := pre_stamp_extraction user_label task_rank timestamp (xs_visited st) in
        ({| xm_map := <[id := {| tn_timestamp := timestamp; tn_description := nd_description node |}]>
                        (xm_map (xs_timestamps st));
            xm_order := xm_order (xs_timestamps st) ++ [id] |}, visited)
    end in
  let id_key := normalize_identifier (nd_id node) in
  let registered := match xm_map ms !! id with
                    | Some node => [tm_timestamp_str (tn_timestamp node)]
                    | None => []
                    end in
  let r := match rg_ids (xs_registry st) !! id_key with
           | Some (entity, _) =>
               if decide (entity = id)
               then refresh [nd_name node] id position
                      {| rg_ids := <[id_key := (id, position)]> (rg_ids (xs_registry st));
                         rg_names := rg_names (xs_registry st) |}
               else register (nd_name node :: registered) id id_key position (xs_registry st)
           | None => register (nd_name node :: registered) id id_key position (xs_registry st)
           end in
  {| xs_nodes := xs_nodes st; xs_types := xs_types st; xs_ontology := xs_ontology st; xs_timestamps := ms;
     xs_registry := r; xs_producers := record_entity id chunk_id (xs_producers st); xs_edges := xs_edges st;
     xs_visited := visited |}.

(** The vacant entry of a node: its entity is made, matched and registered, and the
    subgraph of its individual added. *)
Definition create_entity (position : nat) (chunk_id : uuid) (weight : Q) (node : Node) (entity_id : uuid)
    (entity_type : option EntityType) (st : expansion_state) : expansion_state :=
  let key := entity_key entity_id in
  let np := create_entity_node (clock key) node entity_id entity_type chunk_id (chunk_node_sets !! chunk_id) weight in
  let '(entity, visited) := pre_stamp_extraction user_label task_rank (np_entity np) (xs_visited st) in
  let '(np, subgraph) := match_individual (ce_touched (clock key)) node
                             {| np_entity := entity; np_entity_type := entity_type |} in
  let r := register [nd_name node; ent_name (np_entity np)] (np_id np) (normalize_identifier (nd_id node))
             position (xs_registry st) in
  let nodes := <[key := np]> (xs_nodes st) in
  let '(o, visited) :=
    match subgraph with
    | Some (ont_nodes, ont_edges) =>
        let '(o, visited) := process_ontology_nodes ont_nodes weight nodes (xt_type_map (xs_types st))
                               (xs_ontology st) visited in
        (process_ontology_edges ont_nodes ont_edges o, visited)
    | None => (xs_ontology st, visited)
    end in
  {| xs_nodes := nodes; xs_types := xs_types st; xs_ontology := o; xs_timestamps := xs_timestamps st;
     xs_registry := r; xs_producers := xs_producers st; xs_edges := xs_edges st; xs_visited := visited |}.

(** What follows a declaration: the node id means the entity, the origins move to this
    chunk, and the chunk is a producer. *)
Definition declared (position : nat) (chunk_id : uuid) (node : Node) (np : GraphNodePair) (st : expansion_state)
    : expansion_state :=
  let id_key := normalize_identifier (nd_id node) in
  let r := xs_registry st in
  let r := match rg_ids r !! id_key with
           | Some (entity, _) =>
               if decide (entity = np_id np)
               then {| rg_ids := <[id_key := (np_id np, position)]> (rg_ids r); rg_names := rg_names r |}
               else register [nd_name node] (np_id np) id_key position r
           | None => register [nd_name node] (np_id np) id_key position r
           end in
  {| xs_nodes := xs_nodes st; xs_types := xs_types st; xs_ontology := xs_ontology st;
     xs_timestamps := xs_timestamps st;
     xs_registry := refresh [nd_name node; ent_name (np_entity np)] (np_id np) position r;
     xs_producers := record_entity (np_id np) chunk_id (xs_producers st); xs_edges := xs_edges st;
     xs_visited := xs_visited st |}.

(** Steps 1 and 2 for one node; [None]: a panic. *)
Definition declare_entity (position : nat) (chunk_id : uuid) (weight : Q) (entity_ids : gmap string uuid)
    (node : Node) (st : expansion_state) : option expansion_state :=
  '(entity_type, ts, o, visited) ← entity_type_of (nd_node_type node) weight (xs_nodes st) (xs_types st)
                                     (xs_ontology st) (xs_visited st);
  entity_id ← entity_ids !! nd_id node;
  let st := {| xs_nodes := xs_nodes st; xs_types := ts; xs_ontology := o; xs_timestamps := xs_timestamps st;
               xs_registry := xs_registry st; xs_producers := xs_producers st; xs_edges := xs_edges st;
               xs_visited := visited |} in
  let st := match xs_nodes st !! entity_key entity_id with
            | Some _ => st
            | None => create_entity position chunk_id weight node entity_id entity_type st
            end in
  np ← xs_nodes st !! entity_key entity_id;
  Some (declared position chunk_id node np st).

Definition node_step (position : nat) (chunk_id : uuid) (weight : Q) (entity_ids : gmap string uuid) (node : Node)
    (st : expansion_state) : option expansion_state :=
  match (if is_timestamp_type (nd_node_type node)
         then Timestamp_from_text new_v5 parse_time_period (clock (nd_name node)) (nd_name node) else None) with
  | Some timestamp => Some (declare_timestamp position chunk_id weight node timestamp st)
  | None => declare_entity position chunk_id weight entity_ids node st
  end.

(** ** Edges *)

(** One endpoint: the entity, or [None] for a drop, and the counters. *)
Definition resolve_counted (r : registry) (position : nat) (source : bool) (raw : string) (stats : EdgeResolutionStats)
    : option uuid * EdgeResolutionStats :=
  match resolve_endpoint r raw with
  | ById entity origin => (Some entity, record_resolved_by_id origin position stats)
  | ByName entity origin => (Some entity, record_resolved_by_name origin position stats)
  | Ambiguous => (None, count_ambiguous stats)
  | Missing => (None, count_missing source stats)
  end.

(** Timestamps are leaves: an edge out of one is reversed, an edge between two dropped. *)
Definition oriented (timestamps : gmap uuid TimestampNode) (source target : uuid) : option (uuid * uuid) :=
  match timestamps !! source, timestamps !! target with
  | Some _, Some _ => None
  | Some _, None => Some (target, source)
  | None, _ => Some (source, target)
  end.

(** The trimmed description of an edge. *)
Definition edge_description (edge : Edge) : string := from_option trim "" (eg_description edge).

(** The pair of an extracted edge, with its properties. *)
Definition extracted_edge (source target : uuid) (edge : Edge) : GraphEdgePair :=
  let name := eg_relationship_name edge in
  add_property "edge_text" (edge_description edge)
    (add_property "ontology_valid" "false"
       (add_property "target_node_id" (uuid_to_string target)
          (add_property "source_node_id" (uuid_to_string source)
             (add_property "relationship_name" name (GraphEdgePair_new source target name))))).

(** [if let Entry::Vacant(e) = bucket.entry(key) { e.insert(edge) }] *)
Definition insert_vacant {V} (key : edge_key) (v : V) (m : gmap (uuid * uuid * string) V) :=
  match m !! key with Some _ => m | None => <[key := v]> m end.

(** An edge with resolved endpoints enters the write or the claim bucket. *)
Definition keep_edge (chunk_id source target : uuid) (edge : Edge) (stats : EdgeResolutionStats)
    (es : edge_state) (p : ArtifactProducers) : edge_state * ArtifactProducers :=
  let key := (source, target, eg_relationship_name edge) in
  let np := extracted_edge source target edge in
  let p := record_edge key chunk_id p in
  if decide (edge_db_key source target (eg_relationship_name edge) ∈ existing_edges_set)
  then ({| xe_edge_map := xe_edge_map es; xe_claimed := insert_vacant key np (xe_claimed es);
           xe_stats := stats |}, p)
  else ({| xe_edge_map := insert_vacant key np (xe_edge_map es); xe_claimed := xe_claimed es;
           xe_stats := stats |}, p).

(** Step 3 for one edge. *)
Definition edge_step (position : nat) (chunk_id : uuid) (edge : Edge) (st : expansion_state) : expansion_state :=
  let es := xs_edges st in
  let counted stats := ({| xe_edge_map := xe_edge_map es; xe_claimed := xe_claimed es; xe_stats := stats |},
                        xs_producers st) in
  let '(es, p) :=
    match resolve_counted (xs_registry st) position true (eg_source_node_id edge) (count_attempt (xe_stats es)) with
    | (None, stats) => counted stats
    | (Some source, stats) =>
        match resolve_counted (xs_registry st) position false (eg_target_node_id edge) stats with
        | (None, stats) => counted stats
        | (Some target, stats) =>
            match oriented (xm_map (xs_timestamps st)) source target with
            | None => counted stats
            | Some (source, target) => keep_edge chunk_id source target edge stats es (xs_producers st)
            end
        end
    end in
  {| xs_nodes := xs_nodes st; xs_types := xs_types st; xs_ontology := xs_ontology st;
     xs_timestamps := xs_timestamps st; xs_registry := xs_registry st; xs_producers := p; xs_edges := es;
     xs_visited := xs_visited st |}.

(** ** The pass *)

Definition graph_step (positioned : nat * (uuid * KnowledgeGraph)) (st : expansion_state) : option expansion_state :=
  let '(position, (chunk_id, graph)) := positioned in
  let weight := default (1 # 2)%Q (chunk_importance_weights !! chunk_id) in
  let graph := without_duplicate_node_ids graph in
  let entity_ids := entity_ids_by_node_id graph chunk_id in
  st ← fold_steps (node_step position chunk_id weight entity_ids) (kg_nodes graph) st;
  Some (foldl (λ st edge, edge_step position chunk_id edge st) st (kg_edges graph)).

(** [timestamp_map.remove(&id)] along the order of declaration. *)
Fixpoint take_timestamps (order : list uuid) (m : gmap uuid TimestampNode) : list TimestampNode :=
  match order with
  | [] => []
  | id :: order =>
      match m !! id with Some t => t :: take_timestamps order (delete id m) | None => take_timestamps order m end
  end.

(** An ontology class as a node. *)
Definition ontology_type_node (et : EntityType) : GraphNodePair := {|
  np_entity := Entity_from_node new_v5 (clock (et_name et)) (et_name et) (et_name et)
                 ("Ontology-derived type: " +:+ et_name et) (et_id et) (Some dataset_id);
  np_entity_type := Some et |}.

Definition collected (st : expansion_state) : Expansion := {|
  ex_nodes := (map_to_list (xs_nodes st)).*2
              ++ map (ontology_type_node ∘ snd) (map_to_list (xo_types_map (xs_ontology st)))
              ++ (map_to_list (xo_entities_map (xs_ontology st))).*2;
  ex_edges := (map_to_list (xe_edge_map (xs_edges st))).*2 ++ xo_edges_out (xs_ontology st);
  ex_claimed_existing_edges := (map_to_list (xe_claimed (xs_edges st))).*2;
  ex_producers := xs_producers st;
  ex_stats := xe_stats (xs_edges st);
  ex_timestamps := take_timestamps (xm_order (xs_timestamps st)) (xm_map (xs_timestamps st)) |}.

(** [expand_extracted_graphs]; the values of a hash map come in the order of
    [map_to_list]. *)
Definition expand_extracted_graphs (graphs : list (uuid * KnowledgeGraph)) : option Expansion :=
  st ← fold_steps graph_step (imap pair graphs) expansion_init;
  Some (collected st).
End expansion.
