(* ===== verification/ExpansionFacts.v ===== *)
(** * Theorems of graph expansion (crates/cognify/src/graph_integration/expansion.rs)

    No [expect] of the pass fires; every node a graph declares is owned by the graph's
    chunk, and nobody else owns it; every edge kept leads from an entity of the result
    to an entity or a timestamp of it, is owned, and is in exactly the bucket the
    database calls for; and the counters of the pass add up. *)

From stdpp Require Import sorting.
From S2P Require Import Prelude Json Strings DataPoint Models Provenance GraphTypes Expansion.
From Stdlib Require Import QArith.
#[local] Open Scope nat_scope.

Section expansion.
Context `{UuidFormat, !UuidFormatLaws, Lowercase} (new_v5 : uuid → string → uuid) (clock : string → chunk_env)
  (parse_time_period : string → option TimePeriod) (dataset_id : uuid) (chunk_node_sets : gmap uuid (list json))
  (chunk_importance_weights : gmap uuid Q) (existing : gset string) (resolver : OntologyResolver)
  (user_label : option string) (task_rank : option Z).

(** ** The registry *)

(** Everything the registry answers with satisfies [P]. *)
Definition answers (P : uuid → Prop) (r : registry) : Prop :=
  (∀ k e o, rg_ids r !! k = Some (e, o) → P e) ∧ (∀ k e o, rg_names r !! k = Some (Some (e, o)) → P e).

Lemma answers_mono (P Q : uuid → Prop) r : (∀ e, P e → Q e) → answers P r → answers Q r.
Proof. intros HPQ [Hi Hn]. split; intros k e o Hk; apply HPQ; [by eapply Hi|by eapply Hn]. Qed.

Lemma alias_answers (P : uuid → Prop) name e id_key position names k e' o :
  P e → (∀ k e o, names !! k = Some (Some (e, o)) → P e) →
  register_name_alias name e id_key position names !! k = Some (Some (e', o)) → P e'.
Proof.
  intros He Hn. unfold register_name_alias. case_decide; [apply Hn|].
  destruct (names !! normalize_identifier name) as [[[id o']|]|] eqn:Hk; [case_decide| |];
    try (intros [[? [= <- <-]]|[? ?]]%lookup_insert_Some); eauto; try done.
  all: intros [[? ?]|[? ?]]%lookup_insert_Some; simplify_eq; eauto.
Qed.

Lemma refreshed_answers (P : uuid → Prop) name e position names k e' o :
  (∀ k e o, names !! k = Some (Some (e, o)) → P e) →
  refresh_name_alias_origin name e position names !! k = Some (Some (e', o)) → P e'.
Proof.
  intros Hn. unfold refresh_name_alias_origin.
  destruct (names !! normalize_identifier name) as [[[id o']|]|] eqn:Hk; [case_decide| |]; eauto.
  intros [[? [= <- <-]]|[? ?]]%lookup_insert_Some; eauto.
Qed.

Lemma register_answers (P : uuid → Prop) names e id_key position r :
  P e → answers P r → answers P (register names e id_key position r).
Proof.
  intros He [Hi Hn]. split; simpl.
  - intros k e' o [[? [= <- <-]]|[? ?]]%lookup_insert_Some; eauto.
  - apply (foldl_inv (λ m, ∀ k e o, m !! k = Some (Some (e, o)) → P e)); [|done].
    intros name m _ Hm k e' o. by apply alias_answers.
Qed.

Lemma refresh_answers (P : uuid → Prop) names e position r :
  answers P r → answers P (refresh names e position r).
Proof.
  intros [Hi Hn]. split; simpl; [done|].
  apply (foldl_inv (λ m, ∀ k e o, m !! k = Some (Some (e, o)) → P e)); [|done].
  intros name m _ Hm k e' o. by apply refreshed_answers.
Qed.

Lemma origin_answers (P : uuid → Prop) e id_key position r :
  P e → answers P r → answers P {| rg_ids := <[id_key := (e, position)]> (rg_ids r); rg_names := rg_names r |}.
Proof. intros He Hr. apply (register_answers P [] e id_key position r He Hr). Qed.

Lemma resolve_answers (P : uuid → Prop) r position source raw stats e stats' :
  answers P r → resolve_counted r position source raw stats = (Some e, stats') → P e.
Proof.
  intros [Hi Hn]. unfold resolve_counted, resolve_endpoint.
  destruct (rg_ids r !! _) as [[e' o]|] eqn:Hk; [intros [= -> _]; by eapply Hi|].
  destruct (rg_names r !! _) as [[[e' o]|]|] eqn:Hk'; try done. intros [= -> _]. by eapply Hn.
Qed.

(** ** Ids *)

Lemma pre_stamp_id `{HasDataPointLaws T} (x : T) visited :
  dp_id (data_point (pre_stamp_extraction user_label task_rank x visited).1) = dp_id (data_point x).
Proof.
  unfold pre_stamp_extraction. set (ctx := {| pc_pipeline_name := _ |}).
  pose proof (stamp_container_tree ctx x visited) as Ht. unfold as_dyn at 1 in Ht.
  pose proof (stamp_tree_filled_in (as_dyn x) ctx visited) as Hf. rewrite <-Ht in Hf.
  unfold as_dyn in Hf. inversion Hf as [? ? ? ? [Hrest _ _ _ _ _ _] _]; subst. by rewrite <-Hrest.
Qed.

(** An id in the name space of entities. *)
Definition is_entity_id (id : uuid) : Prop := ∃ values, id = data_point_id_for new_v5 "Entity" values.

Lemma foldl_insert_lookup `{Countable K} {V} (l : list (K * V)) k v : ∀ m : gmap K V,
  foldl (λ m '(k, v), <[k := v]> m) m l !! k = Some v → (k, v) ∈ l ∨ m !! k = Some v.
Proof.
  induction l as [|[k' v'] l IH]; intros m; simpl; [by right|]. intros [Hl|Hm]%IH; [left; by right|].
  apply lookup_insert_Some in Hm as [[-> ->]|[_ ?]]; [left; left|by right].
Qed.

Lemma foldl_insert_is_Some `{Countable K} {V} (l : list (K * V)) k : ∀ m : gmap K V,
  is_Some (m !! k) ∨ k ∈ l.*1 → is_Some (foldl (λ m '(k, v), <[k := v]> m) m l !! k).
Proof.
  induction l as [|[k' v'] l IH]; intros m; simpl; [by intros [?|?%not_elem_of_nil]|].
  rewrite elem_of_cons. intros Hk. apply IH. destruct (decide (k = k')) as [->|Hne].
  - left. rewrite lookup_insert_eq. by eexists.
  - destruct Hk as [?|[?|?]]; [left; by rewrite lookup_insert_ne|done|by right].
Qed.

Lemma elem_of_foldl_push_new {A} (f : A → uuid) l y : ∀ acc,
  y ∈ foldl (λ order x, push_new (f x) order) acc l ↔ y ∈ acc ∨ ∃ x, x ∈ l ∧ y = f x.
Proof.
  induction l as [|x l IH]; intros acc; simpl.
  - split; [by left|]. by intros [?|(? & ?%not_elem_of_nil & _)].
  - rewrite IH, elem_of_push_new. setoid_rewrite elem_of_cons. naive_solver.
Qed.

Lemma group_ids_nodes chunk_id n group : (group_ids new_v5 chunk_id n group).*1 ≡ₚ nd_id <$> group.
Proof.
  destruct group as [|x [|y group]]; [done..|]. unfold group_ids.
  rewrite fmap_imap. transitivity (nd_id <$> merge_sort ordinal_le (x :: y :: group)).
  - by rewrite <-(imap_const nd_id).
  - by rewrite merge_sort_Permutation.
Qed.

Lemma group_ids_form chunk_id n group k id : (k, id) ∈ group_ids new_v5 chunk_id n group → is_entity_id n → is_entity_id id.
Proof.
  assert (Hmany : ∀ l, (k, id) ∈ imap (λ ordinal node, (nd_id node, data_point_id_for new_v5 "Entity"
             [nd_name node; uuid_to_string chunk_id; pretty (ordinal + 1)])) l → is_entity_id id).
  { intros l (i & Hi)%list_elem_of_lookup. rewrite list_lookup_imap in Hi.
    destruct (l !! i); simplify_eq/=. by eexists. }
  destruct group as [|x [|y group]]; [by intros ?%Hmany| |by intros ?%Hmany].
  intros [= _ ->]%list_elem_of_singleton. done.
Qed.

(** Every node of a graph has an id, and all are ids of entities. *)
Lemma entity_ids_lookup graph chunk_id :
  (∀ node, node ∈ kg_nodes graph → is_Some (entity_ids_by_node_id new_v5 graph chunk_id !! nd_id node))
  ∧ (∀ k id, entity_ids_by_node_id new_v5 graph chunk_id !! k = Some id → is_entity_id id).
Proof.
  unfold entity_ids_by_node_id. cbv zeta. set (name_based node := Entity_id_for new_v5 (nd_name node)).
  set (order := foldl _ [] _).
  assert (Horder : ∀ id, id ∈ order ↔ ∃ node, node ∈ kg_nodes graph ∧ id = name_based node).
  { intros id. unfold order. rewrite elem_of_foldl_push_new. split; [by intros [?%not_elem_of_nil|?]|by right]. }
  clearbody order. set (group id := filter (λ node, name_based node = id) (kg_nodes graph)). split.
  - intros node Hnode. assert (Hin : name_based node ∈ order) by (apply Horder; eauto). clear Horder.
    apply list_elem_of_split in Hin as (l1 & l2 & ->). rewrite foldl_app. simpl.
    apply (foldl_inv (λ m, is_Some (m !! nd_id node))).
    { intros id m _ Hm. apply foldl_insert_is_Some. by left. }
    apply foldl_insert_is_Some. right. rewrite group_ids_nodes. apply list_elem_of_fmap_2.
    by apply list_elem_of_filter.
  - intros k id. assert (Hall : ∀ id, id ∈ order → is_entity_id id).
    { intros i (node & _ & ->)%Horder. by eexists. }
    apply (foldl_inv (λ m, ∀ k id, m !! k = Some id → is_entity_id id)).
    + intros i m Hi Hm k' id' [?%group_ids_form|?]%foldl_insert_lookup; eauto.
    + intros k' id'. by rewrite lookup_empty.
Qed.

(** ** The ontology *)

(** The key of an edge pair among those of the database. *)
Definition pair_db_key (e : GraphEdgePair) : string :=
  edge_db_key (ep_source_entity_id e) (ep_target_entity_id e) (ep_relationship_name e).

(** The ontology's edges: once each, none that the database has, and marked valid. *)
Record ontology_ok (o : ontology_state) : Prop := {
  oo_new : ∀ e, e ∈ xo_edges_out o → pair_db_key e ∉ existing ∧ pair_db_key e ∈ xo_edge_keys o
                                   ∧ ep_properties e !! "ontology_valid" = Some "true";
  oo_once : NoDup (pair_db_key <$> xo_edges_out o);
}.

(** The same edges, whatever the nodes. *)
Definition same_edges (o o' : ontology_state) : Prop :=
  xo_edge_keys o' = xo_edge_keys o ∧ xo_edges_out o' = xo_edges_out o.

Lemma same_edges_ok o o' : same_edges o o' → ontology_ok o → ontology_ok o'.
Proof. intros [Hk He] [Hn Ho]. split; rewrite ?Hk, ?He; auto. Qed.

Lemma ontology_nodes_edges nodes weight node_map type_map o visited :
  same_edges o (process_ontology_nodes new_v5 clock dataset_id user_label task_rank
                  nodes weight node_map type_map o visited).1.
Proof.
  unfold process_ontology_nodes.
  apply (foldl_inv (λ st : ontology_state * gset uuid, same_edges o st.1)); [|done].
  intros node [o' v] _ Ho. unfold process_ontology_node. destruct (an_category node).
  - case_decide; [done|]. by destruct (pre_stamp_extraction _ _ _ _).
  - case_decide; [done|]. destruct (pre_stamp_extraction _ _ _ _). by destruct (pre_stamp_extraction _ _ _ _).
Qed.

Lemma ontology_edge_ok nodes edge o : ontology_ok o → ontology_ok (process_ontology_edge new_v5 existing nodes o edge).
Proof.
  intros [Hn Ho]. destruct edge as [[source relation] target]. unfold process_ontology_edge. cbv zeta.
  case_decide as Hkey; [done|].
  pose proof (λ h, Hkey (or_introl h)) as Hdb. pose proof (λ h, Hkey (or_intror h)) as Hkeys. split; simpl.
  - intros e [He| ->%list_elem_of_singleton]%elem_of_app.
    + destruct (Hn e He) as (? & ? & ?). split_and!; [done| |done]. apply elem_of_union. by right.
    + split_and!; [done| |done]. apply elem_of_union. left. by apply elem_of_singleton.
  - rewrite fmap_app. apply NoDup_app. split_and!; [done| |apply NoDup_singleton].
    intros k Hk ->%list_elem_of_singleton. apply list_elem_of_fmap in Hk as (e & Heq & He). apply Hkeys.
    unfold pair_db_key at 1 in Heq. simpl in Heq. rewrite Heq. by apply Hn.
Qed.

Lemma ontology_edges_ok nodes edges o : ontology_ok o → ontology_ok (process_ontology_edges new_v5 existing nodes edges o).
Proof.
  intros Ho. unfold process_ontology_edges. apply (foldl_inv ontology_ok); [|done].
  intros edge o' _. apply ontology_edge_ok.
Qed.

(** ** Types *)

(** A remapped key leads to a type. *)
Definition types_ok (ts : type_state) : Prop :=
  ∀ k v, xt_key_mapping ts !! k = Some v → is_Some (xt_type_map ts !! v).

Notation create_entity_type := (create_entity_type new_v5 clock dataset_id existing resolver user_label task_rank).
Notation entity_type_of := (entity_type_of new_v5 clock dataset_id existing resolver user_label task_rank).

Lemma create_entity_type_ok node_type normalized weight nodes ts o visited :
  types_ok ts → ontology_ok o → xt_key_mapping ts !! type_key normalized = None →
  let '(ts', o', _) := create_entity_type node_type normalized (type_key normalized) weight nodes ts o visited in
  types_ok ts' ∧ ontology_ok o'
  ∧ is_Some (xt_type_map ts' !! default (type_key normalized) (xt_key_mapping ts' !! type_key normalized)).
Proof.
  intros Hts Ho Hnone. unfold Expansion.create_entity_type. cbv zeta. destruct (pre_stamp_extraction _ _ _ _) as [et v].
  assert (Hplain : ∀ et', types_ok {| xt_type_map := <[type_key normalized := et']> (xt_type_map ts);
                                      xt_key_mapping := xt_key_mapping ts |}).
  { intros et' k w Hk. simpl. apply lookup_insert_is_Some. destruct (decide (type_key normalized = w)); [by left|].
    right. split; [done|]. by eapply Hts. }
  assert (Hend : ∀ et', types_ok {| xt_type_map := <[type_key normalized := et']> (xt_type_map ts);
                                    xt_key_mapping := xt_key_mapping ts |} ∧ ontology_ok o
      ∧ is_Some (<[type_key normalized := et']> (xt_type_map ts)
                   !! default (type_key normalized) (xt_key_mapping ts !! type_key normalized))).
  { intros et'. split_and!; [apply Hplain|done|]. rewrite Hnone. simpl. rewrite lookup_insert_eq. by eexists. }
  destruct (or_is_loaded resolver); [|apply Hend].
  destruct (or_get_subgraph resolver node_type "classes") as [[[onodes oedges] [root|]]|e]; [|apply Hend..].
  pose proof (ontology_nodes_edges onodes weight nodes (xt_type_map ts) o v) as Hsame.
  destruct (process_ontology_nodes _ _ _ _ _ _ _ _ _ _ _) as [o' v'].
  assert (Ho' : ontology_ok (process_ontology_edges new_v5 existing (onodes ++ [root]) oedges o')).
  { apply ontology_edges_ok. by eapply same_edges_ok. }
  set (canonical := type_key (generate_node_name (an_name root))).
  case_bool_decide as Hremap; simpl; (split_and!; [|done|]).
  - intros k w. simpl. intros [[<- <-]|[_ Hk]]%lookup_insert_Some.
    + rewrite lookup_insert_eq. by eexists.
    + apply lookup_insert_is_Some. destruct (decide (canonical = w)); [by left|]. right. split; [done|]. by eapply Hts.
  - rewrite lookup_insert_eq. simpl. rewrite lookup_insert_eq. by eexists.
  - apply Hplain.
  - rewrite Hnone. simpl. rewrite lookup_insert_eq. by eexists.
Qed.

(** Step 1 never panics. *)
Lemma entity_type_of_ok node_type weight nodes ts o visited :
  types_ok ts → ontology_ok o →
  ∃ et ts' o' visited', entity_type_of node_type weight nodes ts o visited = Some (et, ts', o', visited')
    ∧ types_ok ts' ∧ ontology_ok o'.
Proof.
  intros Hts Ho. unfold Expansion.entity_type_of. cbv zeta.
  case_decide; [by exists None, ts, o, visited|].
  set (normalized := generate_node_name node_type).
  case_decide as Hknown.
  { destruct Hknown as [et Het]. rewrite Het. simpl. by exists (Some et), ts, o, visited. }
  destruct (xt_key_mapping ts !! type_key normalized) as [mapped|] eqn:Hmap; simpl in Hknown |- *.
  { destruct Hknown. by eapply Hts. }
  pose proof (create_entity_type_ok node_type normalized weight nodes ts o visited Hts Ho Hmap) as Hnew.
  destruct (create_entity_type _ _ _ _ _ _ _ _) as [[ts' o'] v'].
  destruct Hnew as (Hts' & Ho' & [et Het]). rewrite Het. simpl. by exists (Some et), ts', o', v'.
Qed.

(** ** The invariant *)

(** A node as its graph declares it: the chunk, the ids of the graph, the node. *)
Definition declaration : Type := uuid * gmap string uuid * Node.

(** The timestamp a node stands for, if it is one. *)
Definition as_timestamp (node : Node) : option Timestamp :=
  if is_timestamp_type (nd_node_type node)
  then Timestamp_from_text new_v5 parse_time_period (clock (nd_name node)) (nd_name node) else None.

(** The artifact a node stands for. *)
Definition stands_for (st : expansion_state) (ids : gmap string uuid) (node : Node) (id : uuid) : Prop :=
  match as_timestamp node with
  | Some t => id = tm_id t ∧ is_Some (xm_map (xs_timestamps st) !! id)
  | None => ∃ name_id np, ids !! nd_id node = Some name_id ∧ xs_nodes st !! entity_key name_id = Some np ∧ np_id np = id
  end.

Definition has_entity (st : expansion_state) (id : uuid) : Prop := ∃ key np, xs_nodes st !! key = Some np ∧ np_id np = id.
Definition has_timestamp (st : expansion_state) (id : uuid) : Prop := is_Some (xm_map (xs_timestamps st) !! id).
Definition known (st : expansion_state) (id : uuid) : Prop := has_entity st id ∨ has_timestamp st id.

(** The part of the invariant that nodes keep. *)
Record nodes_ok (ds : list declaration) (st : expansion_state) : Prop := {
  no_types : types_ok (xs_types st);
  no_ontology : ontology_ok (xs_ontology st);
  no_registry : answers (known st) (xs_registry st);
  no_entities : ∀ key np, xs_nodes st !! key = Some np →
    is_entity_id (np_id np) ∧ entity_chunks (xs_producers st) (np_id np) ≠ [];
  no_timestamps : ∀ id t, xm_map (xs_timestamps st) !! id = Some t →
    tn_id t = id ∧ (∃ name, id = Timestamp_id_for new_v5 name) ∧ entity_chunks (xs_producers st) id ≠ [];
  no_order : NoDup (xm_order (xs_timestamps st)) ∧ ∀ id, id ∈ xm_order (xs_timestamps st) ↔ has_timestamp st id;
  no_declared : ∀ c ids node, (c, ids, node) ∈ ds → ∃ id, stands_for st ids node id;
  no_producers : ∀ c id, c ∈ entity_chunks (xs_producers st) id ↔
    ∃ ids node, (c, ids, node) ∈ ds ∧ stands_for st ids node id;
}.

(** An edge as its chunk utters it. *)
Definition utterance : Type := uuid * Edge.

(** A kept edge: from an entity to a known artifact, in the bucket the database calls for. *)
Record kept_edge (st : expansion_state) (claimed : bool) (key : uuid * uuid * string) (e : GraphEdgePair) : Prop := {
  ke_key : dedup_key e = key;
  ke_source : has_entity st (ep_source_entity_id e);
  ke_target : known st (ep_target_entity_id e);
  ke_bucket : pair_db_key e ∈ existing ↔ claimed = true;
  ke_producer : edge_chunks (xs_producers st) key ≠ [];
  ke_extracted : ep_properties e !! "ontology_valid" = Some "false";
}.

Record edges_ok (us : list utterance) (st : expansion_state) : Prop := {
  eo_written : ∀ key e, xe_edge_map (xs_edges st) !! key = Some e → kept_edge st false key e;
  eo_claimed : ∀ key e, xe_claimed (xs_edges st) !! key = Some e → kept_edge st true key e;
  eo_producers : ∀ c key, c ∈ edge_chunks (xs_producers st) key →
    ∃ edge, (c, edge) ∈ us ∧ eg_relationship_name edge = key.2;
  eo_attempted : es_attempted (xe_stats (xs_edges st)) = length us;
  eo_dropped : dropped (xe_stats (xs_edges st)) ≤ es_attempted (xe_stats (xs_edges st));
}.

(** What nodes may do to a state. *)
Record grows (st st' : expansion_state) : Prop := {
  gr_nodes : xs_nodes st ⊆ xs_nodes st';
  gr_timestamps : ∀ id, has_timestamp st id → has_timestamp st' id;
  gr_chunks : ∀ c id, c ∈ entity_chunks (xs_producers st) id → c ∈ entity_chunks (xs_producers st') id;
  gr_edge_producers : ap_edges (xs_producers st') = ap_edges (xs_producers st);
  gr_edges : xs_edges st' = xs_edges st;
}.

Lemma has_entity_grows st st' id : xs_nodes st ⊆ xs_nodes st' → has_entity st id → has_entity st' id.
Proof. intros Hn (key & np & Hk & Hid). exists key, np. split; [by eapply lookup_weaken|done]. Qed.

Lemma known_grows st st' id : grows st st' → known st id → known st' id.
Proof. intros Hg [He|Ht]; [left; by eapply has_entity_grows, He; apply Hg|right; by apply Hg]. Qed.

Lemma stands_for_grows st st' ids node id : grows st st' → stands_for st ids node id → stands_for st' ids node id.
Proof.
  intros Hg. unfold stands_for. destruct (as_timestamp node).
  - intros [-> Ht]. split; [done|by apply Hg].
  - intros (n & np & Hids & Hnp & Hid). exists n, np. split_and!; [done| |done]. by eapply lookup_weaken, Hg.
Qed.

Lemma stands_for_unique st ids node id id' : stands_for st ids node id → stands_for st ids node id' → id = id'.
Proof.
  unfold stands_for. destruct (as_timestamp node); [by intros [-> _] [-> _]|].
  intros (n & np & Hids & Hnp & <-) (n' & np' & Hids' & Hnp' & <-). by simplify_eq.
Qed.

Lemma chunks_grow st st' id :
  grows st st' → entity_chunks (xs_producers st) id ≠ [] → entity_chunks (xs_producers st') id ≠ [].
Proof.
  intros Hg (c & Hc)%list_not_nil_elem_of. by eapply elem_of_not_nil, gr_chunks.
Qed.

Lemma edges_ok_grows us st st' : grows st st' → edges_ok us st → edges_ok us st'.
Proof.
  intros Hg [Hw Hc Hp Ha Hd].
  assert (Hkept : ∀ b key e, kept_edge st b key e → kept_edge st' b key e).
  { intros b key e [? Hs Ht ? Hpr ?]. split; [done| |by eapply known_grows|done| |done].
    - eapply has_entity_grows, Hs. apply Hg.
    - unfold edge_chunks. by rewrite (gr_edge_producers _ _ Hg). }
  split; rewrite ?(gr_edges _ _ Hg); eauto.
  intros c key. unfold edge_chunks. rewrite (gr_edge_producers _ _ Hg). apply Hp.
Qed.

(** A declaration recorded: the producers stay exact. *)
Lemma record_declared ds st st' c ids node id :
  nodes_ok ds st → grows st st' →
  (∀ c' id', c' ∈ entity_chunks (xs_producers st') id' ↔ (id' = id ∧ c' = c) ∨ c' ∈ entity_chunks (xs_producers st) id') →
  stands_for st' ids node id →
  (∀ c' ids' node', (c', ids', node') ∈ ds ++ [(c, ids, node)] → ∃ id', stands_for st' ids' node' id')
  ∧ (∀ c' id', c' ∈ entity_chunks (xs_producers st') id' ↔
      ∃ ids' node', (c', ids', node') ∈ ds ++ [(c, ids, node)] ∧ stands_for st' ids' node' id').
Proof.
  intros Hok Hg Hp Hnode. split.
  - intros c' ids' node' [Hin|Heq%list_elem_of_singleton]%elem_of_app; [|simplify_eq; by exists id].
    destruct (no_declared _ _ Hok _ _ _ Hin) as [id' Hid']. exists id'. by eapply stands_for_grows.
  - intros c' id'. rewrite Hp, (no_producers _ _ Hok). split.
    + intros [[-> ->]|(ids' & node' & Hin & Hst)].
      * exists ids, node. split; [|done]. apply elem_of_app. right. by apply list_elem_of_singleton.
      * exists ids', node'. split; [apply elem_of_app; by left|by eapply stands_for_grows].
    + intros (ids' & node' & [Hin|Heq%list_elem_of_singleton]%elem_of_app & Hst).
      * right. exists ids', node'. split; [done|].
        destruct (no_declared _ _ Hok _ _ _ Hin) as [id1 Hid1].
        assert (id' = id1) as ->; [|done]. eapply stands_for_unique; [done|]. by eapply stands_for_grows.
      * simplify_eq. left. split; [|done]. by eapply stands_for_unique.
Qed.

(** ** Nodes *)

Notation declare_timestamp := (declare_timestamp user_label task_rank).

Lemma as_timestamp_id node t : as_timestamp node = Some t → ∃ name, tm_id t = Timestamp_id_for new_v5 name.
Proof.
  unfold as_timestamp. destruct (is_timestamp_type _); [|done]. unfold Timestamp_from_text.
  intros (period & _ & ->)%fmap_Some. by eexists.
Qed.

(** The timestamps after a declaration: the id is there, and nothing else is new. *)
Lemma declare_timestamp_map position c weight node t st :
  let ms := xs_timestamps (declare_timestamp position c weight node t st) in
  has_timestamp (declare_timestamp position c weight node t st) (tm_id t)
  ∧ (∀ id n, xm_map ms !! id = Some n → (id = tm_id t ∧ tn_id n = id) ∨ xm_map (xs_timestamps st) !! id = Some n)
  ∧ (∀ id n, xm_map (xs_timestamps st) !! id = Some n → xm_map ms !! id = Some n)
  ∧ (NoDup (xm_order (xs_timestamps st)) ∧ (∀ id, id ∈ xm_order (xs_timestamps st) ↔ has_timestamp st id) →
     NoDup (xm_order ms) ∧ ∀ id, id ∈ xm_order ms ↔ is_Some (xm_map ms !! id)).
Proof.
  unfold has_timestamp, Expansion.declare_timestamp. cbv zeta.
  destruct (xm_map (xs_timestamps st) !! tm_id t) as [n|] eqn:Hn; simpl.
  { split_and!; [by eexists| |done|done]. intros id n'. by right. }
  pose proof (pre_stamp_id (with_data_point (dp_weighted weight (tm_base t)) t) (xs_visited st)) as Hid.
  destruct (pre_stamp_extraction _ _ _ _) as [t' v]. simpl in Hid. simpl. split_and!.
  - rewrite lookup_insert_eq. by eexists.
  - intros id n' [[<- <-]|[_ ?]]%lookup_insert_Some; [left|by right]. by split.
  - intros id n' Hid'. rewrite lookup_insert_ne; [done|]. intros <-. congruence.
  - intros [Hnd Hin]. split.
    + apply NoDup_app. split_and!; [done| |apply NoDup_singleton].
      intros id Hid' ->%list_elem_of_singleton. apply Hin in Hid' as [? ?]. congruence.
    + intros id. rewrite elem_of_app, list_elem_of_singleton, Hin, lookup_insert_is_Some. unfold has_timestamp.
      destruct (decide (tm_id t = id)) as [<-|Hne]; naive_solver.
Qed.

Lemma declare_timestamp_ok ds position c weight ids node t st :
  as_timestamp node = Some t → nodes_ok ds st →
  grows st (declare_timestamp position c weight node t st)
  ∧ nodes_ok (ds ++ [(c, ids, node)]) (declare_timestamp position c weight node t st).
Proof.
  intros Ht Hok. destruct (declare_timestamp_map position c weight node t st) as (Hhas & Hold & Hkeep & Horder).
  set (st' := declare_timestamp position c weight node t st) in *.
  assert (Hnodes : xs_nodes st' = xs_nodes st ∧ xs_types st' = xs_types st ∧ xs_ontology st' = xs_ontology st
            ∧ xs_edges st' = xs_edges st ∧ xs_producers st' = record_entity (tm_id t) c (xs_producers st)).
  { subst st'. unfold Expansion.declare_timestamp. cbv zeta.
    destruct (xm_map (xs_timestamps st) !! tm_id t); [done|]. by destruct (pre_stamp_extraction _ _ _ _). }
  destruct Hnodes as (Hn & Hty & Ho & He & Hp).
  assert (Hg : grows st st').
  { split; [by rewrite Hn| | | |done].
    - intros id [n Hid]. exists n. by apply Hkeep.
    - intros c' id. rewrite Hp, elem_of_record_entity. by right.
    - by rewrite Hp. }
  split; [done|].
  destruct (record_declared ds st st' c ids node (tm_id t) Hok Hg) as [Hdecl Hprod].
  { intros c' id'. by rewrite Hp, elem_of_record_entity. }
  { unfold stands_for. by rewrite Ht. }
  pose proof (λ id, chunks_grow st st' id Hg) as Hchunks.
  split; [by rewrite Hty; apply Hok|by rewrite Ho; apply Hok| | | |by apply Horder, Hok|done|done].
  - assert (Hbase : answers (known st') (xs_registry st)).
    { eapply answers_mono, Hok. intros e. by apply known_grows. }
    assert (Hnew : known st' (tm_id t)) by by right.
    subst st'. unfold Expansion.declare_timestamp at 2. cbv zeta.
    repeat (case_match; simplify_eq/=); by repeat (apply refresh_answers || apply register_answers || apply origin_answers).
  - intros key np. rewrite Hn. intros [Hi Hc]%(no_entities _ _ Hok). split; [done|]. by apply Hchunks.
  - intros id n [[-> Hid]|Hid]%Hold.
    + split_and!; [done|by eapply as_timestamp_id|].
      apply (elem_of_not_nil c). rewrite Hp, elem_of_record_entity. by left.
    + destruct (no_timestamps _ _ Hok _ _ Hid) as (? & ? & ?). split_and!; [done|done|]. by apply Hchunks.
Qed.

Notation create_entity_node := (create_entity_node new_v5 dataset_id).
Notation match_individual := (match_individual new_v5 resolver).
Notation create_entity := (create_entity new_v5 clock dataset_id chunk_node_sets existing resolver user_label task_rank).
Notation declare_entity := (declare_entity new_v5 clock dataset_id chunk_node_sets existing resolver user_label task_rank).

Lemma match_individual_id now node np : is_entity_id (np_id np) → is_entity_id (np_id (match_individual now node np).1).
Proof.
  intros Hid. unfold Expansion.match_individual. destruct (or_is_loaded resolver); [|done].
  destruct (or_get_subgraph _ _ _) as [[[ns es] [root|]]|]; [|done..]. by eexists.
Qed.

(** A vacant node: one more entity, with an id of the name space. *)
Lemma create_entity_ok position c weight node id et st :
  is_entity_id id → xs_nodes st !! entity_key id = None → ontology_ok (xs_ontology st) →
  let st' := create_entity position c weight node id et st in
  ∃ np, is_entity_id (np_id np) ∧ xs_nodes st' = <[entity_key id := np]> (xs_nodes st)
    ∧ xs_types st' = xs_types st ∧ ontology_ok (xs_ontology st') ∧ xs_timestamps st' = xs_timestamps st
    ∧ (∀ P : uuid → Prop, P (np_id np) → answers P (xs_registry st) → answers P (xs_registry st'))
    ∧ xs_producers st' = xs_producers st ∧ xs_edges st' = xs_edges st.
Proof.
  intros Hid Hnone Ho. unfold Expansion.create_entity. cbv zeta.
  set (np := create_entity_node _ node id et c _ weight).
  pose proof (pre_stamp_id (np_entity np) (xs_visited st)) as Hstamp.
  destruct (pre_stamp_extraction _ _ _ _) as [entity v]. simpl in Hstamp.
  set (stamped := {| np_entity := entity; np_entity_type := et |}).
  pose proof (match_individual_id (ce_touched (clock (entity_key id))) node stamped) as Hmatch.
  destruct (match_individual _ node stamped) as [np' subgraph]. simpl in Hmatch.
  assert (Hnp : is_entity_id (np_id np')).
  { apply Hmatch. unfold np_id, ent_id, stamped. simpl. by rewrite Hstamp. }
  exists np'. destruct subgraph as [[ns es]|].
  - pose proof (ontology_nodes_edges ns weight (<[entity_key id := np']> (xs_nodes st)) (xt_type_map (xs_types st))
                  (xs_ontology st) v) as Hsame.
    destruct (process_ontology_nodes _ _ _ _ _ _ _ _ _ _ _) as [o' v']. simpl in Hsame |- *.
    split_and!; [done..| |done| |done|done].
    + apply ontology_edges_ok. by eapply same_edges_ok.
    + intros P HP. by apply register_answers.
  - simpl. split_and!; [done..| |done|done]. intros P HP. by apply register_answers.
Qed.

(** What follows a declaration. *)
Lemma declared_answers (P : uuid → Prop) position c node np st :
  P (np_id np) → answers P (xs_registry st) → answers P (xs_registry (declared position c node np st)).
Proof.
  intros HP Hr. simpl. apply refresh_answers. destruct (rg_ids _ !! _) as [[e o]|]; [case_decide|].
  - by apply origin_answers.
  - by apply register_answers.
  - by apply register_answers.
Qed.

(** A state with the entity of a node among its nodes, before [declared]: the invariant but
    for this entity's producer. *)
Lemma declared_ok ds position c ids node id np st st' :
  as_timestamp node = None → ids !! nd_id node = Some id → nodes_ok ds st →
  is_entity_id (np_id np) →
  xs_nodes st' = <[entity_key id := np]> (xs_nodes st) → xs_nodes st ⊆ xs_nodes st' →
  types_ok (xs_types st') → ontology_ok (xs_ontology st') → xs_timestamps st' = xs_timestamps st →
  (∀ P : uuid → Prop, P (np_id np) → answers P (xs_registry st) → answers P (xs_registry st')) →
  xs_producers st' = xs_producers st → xs_edges st' = xs_edges st →
  grows st (declared position c node np st') ∧ nodes_ok (ds ++ [(c, ids, node)]) (declared position c node np st').
Proof.
  intros Hts Hids Hok Hid Hnodes Hsub Htypes Hont Htimes Hreg Hprod Hedges.
  assert (Hg : grows st (declared position c node np st')).
  { split; simpl; [done| | |by rewrite Hprod|done].
    - intros i. unfold has_timestamp. simpl. by rewrite Htimes.
    - intros c' i. rewrite elem_of_record_entity, Hprod. by right. }
  assert (Hhere : xs_nodes st' !! entity_key id = Some np) by (rewrite Hnodes; apply lookup_insert_eq).
  split; [done|].
  destruct (record_declared ds st (declared position c node np st') c ids node (np_id np) Hok Hg) as [Hdecl Hp].
  { intros c' i. simpl. by rewrite elem_of_record_entity, Hprod. }
  { unfold stands_for. rewrite Hts. exists id, np. done. }
  split; [done|done| | | | |done|done].
  - assert (Hk : known (declared position c node np st') (np_id np)) by (left; by exists (entity_key id), np).
    apply (declared_answers (known (declared position c node np st'))); [done|]. apply Hreg; [done|].
    eapply answers_mono, Hok. intros e. by apply known_grows.
  - intros key np'. simpl. rewrite Hnodes. intros [[_ <-]|[_ Hnp']]%lookup_insert_Some.
    + split; [done|]. apply (elem_of_not_nil c), elem_of_record_entity. by left.
    + destruct (no_entities _ _ Hok _ _ Hnp') as [? ?]. split; [done|]. by apply (chunks_grow _ _ _ Hg).
  - intros i t. simpl. rewrite Htimes. intros Ht. destruct (no_timestamps _ _ Hok _ _ Ht) as (? & ? & ?).
    split_and!; [done|done|]. by apply (chunks_grow _ _ _ Hg).
  - unfold has_timestamp. simpl. rewrite Htimes. apply Hok.
Qed.

Lemma declare_entity_ok ds position c weight ids node st :
  as_timestamp node = None → is_Some (ids !! nd_id node) → (∀ k id, ids !! k = Some id → is_entity_id id) → nodes_ok ds st →
  ∃ st', declare_entity position c weight ids node st = Some st' ∧ grows st st' ∧ nodes_ok (ds ++ [(c, ids, node)]) st'.
Proof.
  intros Hts [id Hid] Hids Hok. unfold Expansion.declare_entity.
  destruct (entity_type_of_ok (nd_node_type node) weight (xs_nodes st) (xs_types st) (xs_ontology st) (xs_visited st)
              (no_types _ _ Hok) (no_ontology _ _ Hok)) as (et & ts' & o' & v' & -> & Hts' & Ho').
  simpl. rewrite Hid. simpl.
  destruct (xs_nodes st !! entity_key id) as [np|] eqn:Hnp; simpl.
  - rewrite Hnp. simpl. eexists. split; [done|].
    destruct (no_entities _ _ Hok _ _ Hnp) as [Hnpid _].
    eapply (declared_ok ds position c ids node id np st); try done. simpl. by rewrite insert_id.
  - set (st1 := {| xs_nodes := xs_nodes st; xs_types := ts'; xs_ontology := o' |}).
    destruct (create_entity_ok position c weight node id et st1) as
      (np & Hnpid & Hnodes & Htypes & Hont & Htimes & Hreg & Hprod & Hedges); [by eapply Hids|done|done|].
    rewrite Hnodes. simpl. rewrite lookup_insert_eq. simpl. eexists. split; [done|].
    eapply (declared_ok ds position c ids node id np st); try done.
    + rewrite Hnodes. simpl. by apply insert_subseteq.
    + by rewrite Htypes.
Qed.

Notation node_step := (node_step new_v5 clock parse_time_period dataset_id chunk_node_sets existing resolver
                         user_label task_rank).

(** Nodes neither panic nor break the invariant. *)
Lemma node_step_ok ds us position c weight ids node st :
  is_Some (ids !! nd_id node) → (∀ k id, ids !! k = Some id → is_entity_id id) → nodes_ok ds st → edges_ok us st →
  ∃ st', node_step position c weight ids node st = Some st' ∧ nodes_ok (ds ++ [(c, ids, node)]) st' ∧ edges_ok us st'.
Proof.
  intros Hid Hids Hok Hes. unfold Expansion.node_step.
  change (if is_timestamp_type (nd_node_type node) then _ else _) with (as_timestamp node).
  destruct (as_timestamp node) as [t|] eqn:Hts.
  - eexists. split; [done|]. destruct (declare_timestamp_ok ds position c weight ids node t st Hts Hok) as [Hg Hok'].
    split; [done|by eapply edges_ok_grows].
  - destruct (declare_entity_ok ds position c weight ids node st Hts Hid Hids Hok) as (st' & -> & Hg & Hok').
    exists st'. split_and!; [done|done|by eapply edges_ok_grows].
Qed.

(** ** Edges *)

Lemma resolve_stats r position source raw stats :
  let '(o, stats') := resolve_counted r position source raw stats in
  es_attempted stats' = es_attempted stats
  ∧ dropped stats' = dropped stats + match o with Some _ => 0 | None => 1 end.
Proof.
  unfold resolve_counted, dropped. destruct (resolve_endpoint r raw); [..|destruct source]; simpl; lia.
Qed.

Lemma oriented_ends (st : expansion_state) source target s t :
  known st source → known st target → oriented (xm_map (xs_timestamps st)) source target = Some (s, t) →
  has_entity st s ∧ known st t ∧ ¬ has_timestamp st s.
Proof.
  intros Hs Ht. unfold oriented.
  destruct (xm_map (xs_timestamps st) !! source) as [m|] eqn:Hsrc, (xm_map (xs_timestamps st) !! target) as [m'|] eqn:Htgt;
    intros [= <- <-].
  all: assert (Hno : ∀ x, xm_map (xs_timestamps st) !! x = None → ¬ has_timestamp st x)
    by (intros x Hx [? ?]; congruence).
  - destruct Ht as [Ht|[? ?]]; [|congruence]. split_and!; auto.
  - destruct Hs as [Hs|[? ?]]; [|congruence]. split_and!; auto.
  - destruct Hs as [Hs|[? ?]]; [|congruence]. split_and!; auto.
Qed.

Lemma insert_vacant_Some {V} (key k : uuid * uuid * string) (v w : V) m :
  insert_vacant key v m !! k = Some w → (k = key ∧ w = v) ∨ m !! k = Some w.
Proof.
  unfold insert_vacant. destruct (m !! key); [by right|]. intros [[-> ->]|[_ ?]]%lookup_insert_Some; auto.
Qed.

(** With other edges and edge producers the nodes' part still holds. *)
Lemma nodes_ok_edges ds st es p :
  ap_entities p = ap_entities (xs_producers st) → nodes_ok ds st →
  nodes_ok ds {| xs_nodes := xs_nodes st; xs_types := xs_types st; xs_ontology := xs_ontology st;
                 xs_timestamps := xs_timestamps st; xs_registry := xs_registry st; xs_producers := p;
                 xs_edges := es; xs_visited := xs_visited st |}.
Proof.
  intros Hp Hok. assert (Hc : ∀ id, entity_chunks p id = entity_chunks (xs_producers st) id).
  { intros id. unfold entity_chunks. by rewrite Hp. }
  split; try apply Hok; simpl.
  - intros key np Hnp. rewrite Hc. by eapply (no_entities _ _ Hok).
  - intros id t Ht. rewrite Hc. by eapply (no_timestamps _ _ Hok).
  - intros c id. rewrite Hc. apply (no_producers _ _ Hok).
Qed.

Notation with_edges st es p :=
  {| xs_nodes := xs_nodes st; xs_types := xs_types st; xs_ontology := xs_ontology st;
     xs_timestamps := xs_timestamps st; xs_registry := xs_registry st; xs_producers := p;
     xs_edges := es; xs_visited := xs_visited st |}.

(** An edge that is dropped only moves the counters. *)
Lemma edges_counted us c edge st stats :
  edges_ok us st → es_attempted stats = length (us ++ [(c, edge)]) → dropped stats ≤ es_attempted stats →
  edges_ok (us ++ [(c, edge)])
    (with_edges st {| xe_edge_map := xe_edge_map (xs_edges st); xe_claimed := xe_claimed (xs_edges st); xe_stats := stats |}
       (xs_producers st)).
Proof.
  intros [Hw Hc Hp _ _] Ha Hd. split; simpl; [| | |done|done].
  - intros key e He. by destruct (Hw key e He).
  - intros key e He. by destruct (Hc key e He).
  - intros c' key (edge' & Hin & Hname)%Hp. exists edge'. split; [|done]. apply elem_of_app. by left.
Qed.

(** An edge with known endpoints enters its bucket, and its chunk its producers. *)
Lemma keep_edge_ok us c edge st source target stats :
  has_entity st source → known st target → edges_ok us st →
  es_attempted stats = length (us ++ [(c, edge)]) → dropped stats ≤ es_attempted stats →
  let '(es, p) := keep_edge existing c source target edge stats (xs_edges st) (xs_producers st) in
  edges_ok (us ++ [(c, edge)]) (with_edges st es p) ∧ ap_entities p = ap_entities (xs_producers st).
Proof.
  intros Hs Ht [Hw Hc Hp _ _] Ha Hd. unfold keep_edge. cbv zeta.
  set (key := (source, target, eg_relationship_name edge)).
  set (p := record_edge key c (xs_producers st)).
  assert (Hmine : c ∈ edge_chunks p key) by (apply elem_of_record_edge; by left).
  assert (Hnew : ∀ es (b : bool), (pair_db_key (extracted_edge source target edge) ∈ existing ↔ b = true) →
            kept_edge (with_edges st es p) b key (extracted_edge source target edge)).
  { intros es b Hb. split; [done|done|done|done| |done]. exact (elem_of_not_nil _ _ Hmine). }
  assert (Hold : ∀ es b k e, kept_edge st b k e → kept_edge (with_edges st es p) b k e).
  { intros es b k e [? ? ? ? Hpr ?]. split; [done|done|done|done| |done].
    apply list_not_nil_elem_of in Hpr as [c' Hc'].
    apply (elem_of_not_nil c'), elem_of_record_edge. by right. }
  assert (Hpr : ∀ c' k, c' ∈ edge_chunks p k → ∃ edge', (c', edge') ∈ us ++ [(c, edge)] ∧ eg_relationship_name edge' = k.2).
  { intros c' k [[-> ->]|(edge' & Hin & Hname)%Hp]%elem_of_record_edge; [exists edge|exists edge'].
    - split; [|done]. apply elem_of_app. right. by apply list_elem_of_singleton.
    - split; [apply elem_of_app; by left|done]. }
  case_decide as Hdb; (split; [|done]); (split; simpl; [| |done|done|done]).
  - intros k e He. by apply Hold, Hw.
  - intros k e [[-> ->]|He]%insert_vacant_Some; [by apply Hnew|by apply Hold, Hc].
  - intros k e [[-> ->]|He]%insert_vacant_Some; [by apply Hnew|by apply Hold, Hw].
  - intros k e He. by apply Hold, Hc.
Qed.

Lemma edge_step_ok ds us position c edge st :
  nodes_ok ds st → edges_ok us st →
  nodes_ok ds (edge_step existing position c edge st) ∧ edges_ok (us ++ [(c, edge)]) (edge_step existing position c edge st).
Proof.
  intros Hok Hes. pose proof (no_registry _ _ Hok) as Hreg.
  pose proof (eo_attempted _ _ Hes) as Ha. pose proof (eo_dropped _ _ Hes) as Hd.
  assert (Hlen : length (us ++ [(c, edge)]) = length us + 1) by apply length_app.
  unfold edge_step. cbv zeta. set (stats0 := count_attempt _).
  assert (Hcount : es_attempted stats0 = es_attempted (xe_stats (xs_edges st)) + 1
               ∧ dropped stats0 = dropped (xe_stats (xs_edges st))) by done.
  pose proof (resolve_stats (xs_registry st) position true (eg_source_node_id edge) stats0) as Hstats.
  destruct (resolve_counted _ _ true _ _) as [[source|] stats1] eqn:Hsource; simpl.
  2:{ split; [by apply nodes_ok_edges|]. apply edges_counted; [done|lia..]. }
  pose proof (resolve_stats (xs_registry st) position false (eg_target_node_id edge) stats1) as Hstats2.
  destruct (resolve_counted _ _ false _ _) as [[target|] stats2] eqn:Htarget; simpl.
  2:{ split; [by apply nodes_ok_edges|]. apply edges_counted; [done|lia..]. }
  destruct (oriented _ source target) as [[s t]|] eqn:Hor; simpl.
  2:{ split; [by apply nodes_ok_edges|]. apply edges_counted; [done|lia..]. }
  apply (resolve_answers (known st)) in Hsource; [|done]. apply (resolve_answers (known st)) in Htarget; [|done].
  destruct (oriented_ends st source target s t Hsource Htarget Hor) as (Hs & Ht & _).
  pose proof (keep_edge_ok us c edge st s t stats2 Hs Ht Hes ltac:(lia) ltac:(lia)) as Hkeep.
  destruct (keep_edge _ _ _ _ _ _ _ _) as [es p]. destruct Hkeep as [Hkeep Hp]. split; [by apply nodes_ok_edges|done].
Qed.

(** ** The pass *)

Notation graph_step := (graph_step new_v5 clock parse_time_period dataset_id chunk_node_sets chunk_importance_weights
                          existing resolver user_label task_rank).
Notation expand_extracted_graphs := (expand_extracted_graphs new_v5 clock parse_time_period dataset_id chunk_node_sets
                                       chunk_importance_weights existing resolver user_label task_rank).

(** What the graphs declare and utter. *)
Definition declarations (graphs : list (uuid * KnowledgeGraph)) : list declaration :=
  concat (map (λ '(c, g), map (λ node, (c, entity_ids_by_node_id new_v5 (without_duplicate_node_ids g) c, node))
                            (first_by_id ∅ (kg_nodes g))) graphs).
Definition utterances (graphs : list (uuid * KnowledgeGraph)) : list utterance :=
  concat (map (λ '(c, g), map (pair c) (kg_edges g)) graphs).

Lemma graph_step_ok ds us position c g st :
  nodes_ok ds st → edges_ok us st →
  ∃ st', graph_step (position, (c, g)) st = Some st'
    ∧ nodes_ok (ds ++ declarations [(c, g)]) st' ∧ edges_ok (us ++ utterances [(c, g)]) st'.
Proof.
  intros Hok Hes. unfold Expansion.graph_step, declarations, utterances. simpl. rewrite !app_nil_r.
  set (graph := without_duplicate_node_ids g). set (ids := entity_ids_by_node_id new_v5 graph c).
  destruct (entity_ids_lookup graph c) as [Hcover Hform]. fold ids in Hcover, Hform.
  destruct (fold_steps_history (λ past st, nodes_ok (ds ++ map (λ node, (c, ids, node)) past) st ∧ edges_ok us st)
              (node_step position c (default (1 # 2)%Q (chunk_importance_weights !! c)) ids) (first_by_id ∅ (kg_nodes g)))
    with (past := @nil Node) (s := st) as (st1 & -> & Hok1 & Hes1).
  - intros past node s Hin [Hs Hs'].
    destruct (node_step_ok _ us position c (default (1 # 2)%Q (chunk_importance_weights !! c)) ids node s
                (Hcover _ Hin) Hform Hs Hs') as (s' & Hrun & Hs1 & Hs2).
    exists s'. rewrite map_app, app_assoc. done.
  - simpl. by rewrite app_nil_r.
  - simpl. eexists. split; [done|].
    apply (foldl_history (λ past st, nodes_ok _ st ∧ edges_ok (us ++ map (pair c) past) st)
             (λ st edge, edge_step existing position c edge st) (kg_edges g)) with (past := @nil Edge).
    + intros past edge s _ [Hs Hs']. rewrite map_app, app_assoc. simpl. by apply edge_step_ok.
    + simpl. by rewrite app_nil_r.
Qed.

Lemma expansion_init_ok : nodes_ok [] expansion_init ∧ edges_ok [] expansion_init.
Proof.
  split; split; simpl; try done.
  - split; [by intros ? ?%not_elem_of_nil|constructor].
  - split; [constructor|]. intros id. split; [by intros ?%not_elem_of_nil|by intros [? [=]]].
  - by intros c ids node ?%not_elem_of_nil.
  - intros c id. split; [by intros ?%not_elem_of_nil|]. by intros (ids & node & ?%not_elem_of_nil & _).
  - by intros c key ?%not_elem_of_nil.
Qed.

(** The state at the end of the pass. *)
Lemma expansion_runs graphs :
  ∃ st, fold_steps graph_step (imap pair graphs) expansion_init = Some st
    ∧ nodes_ok (declarations graphs) st ∧ edges_ok (utterances graphs) st.
Proof.
  destruct expansion_init_ok as [Hn He].
  destruct (fold_steps_history (λ past st, nodes_ok (declarations (map snd past)) st ∧ edges_ok (utterances (map snd past)) st)
              graph_step (imap pair graphs)) with (past := @nil (nat * (uuid * KnowledgeGraph))) (s := expansion_init)
    as (st & Hrun & Hok & Hes); [|done|].
  - intros past [position [c g]] s _ [Hs Hs']. destruct (graph_step_ok _ _ position c g s Hs Hs') as (s' & Hrun & Hn' & He').
    exists s'. split; [done|]. rewrite map_app. unfold declarations, utterances in *. rewrite !map_app, !concat_app. done.
  - exists st. split; [done|].
    assert (Hsnd : map snd (imap pair graphs) = graphs).
    { change (map snd) with (fmap (M := list) (@snd nat (uuid * KnowledgeGraph))). rewrite fmap_imap.
      rewrite <-(list_fmap_id graphs) at 2. by rewrite <-(imap_const id). }
    simpl in Hok, Hes. rewrite Hsnd in Hok, Hes. done.
Qed.
End expansion.
