(* ===== verification/EntityIds.v ===== *)
(** * The ids of a graph's entities (expansion.rs, [entity_ids_by_node_id])

    A node alone with its name has the id of the name, so the same name in two chunks
    is one entity; the nodes of one graph that share a name have ordinal ids, all
    different. *)

From stdpp Require Import sorting.
From S2P Require Import Prelude Json Strings DataPoint Models GraphTypes Expansion ExpansionFacts.
From Stdlib Require Import QArith Ascii.
#[local] Open Scope nat_scope.

(** ** Ordinals as text *)

Lemma pretty_digits (n : nat) : digits (pretty n) = true.
Proof. apply pretty_N_digits. Qed.

Lemma digit_kept c : is_digit c = true → (N_of_ascii c <? 128)%N = true ∧ ascii_lower c = c ∧ c ≠ " "%char ∧ c ≠ "'"%char.
Proof.
  unfold is_digit, ascii_lower. cbv zeta. intros [Hlo%N.leb_le Hhi%N.leb_le]%andb_true_iff. split_and!.
  - apply N.ltb_lt. lia.
  - rewrite (proj2 (N.leb_gt 65 (N_of_ascii c))) by lia. done.
  - intros ->. vm_compute in Hlo. by destruct Hlo.
  - intros ->. vm_compute in Hlo. by destruct Hlo.
Qed.

(** Digits are normalized already. *)
Lemma normalize_digits `{LowercaseLaws} s : digits s = true → normalize_identifier s = s.
Proof.
  intros Hs. unfold normalize_identifier. rewrite to_lowercase_ascii.
  - induction s as [|c s IH]; [done|]. simpl in Hs. apply andb_true_iff in Hs as [Hc Hs].
    destruct (digit_kept c Hc) as (_ & Hlow & Hspace & Hquote). simpl. rewrite Hlow.
    rewrite decide_False by done. rewrite decide_False by done. by rewrite IH.
  - induction s as [|c s IH]; [done|]. simpl in Hs |- *. apply andb_true_iff in Hs as [Hc Hs].
    destruct (digit_kept c Hc) as (-> & _). by apply IH.
Qed.

(** ** The nodes of a graph *)

Lemma first_by_id_spec nodes : ∀ seen,
  NoDup (nd_id <$> first_by_id seen nodes) ∧ ∀ node, node ∈ first_by_id seen nodes → nd_id node ∉ seen ∧ node ∈ nodes.
Proof.
  induction nodes as [|x nodes IH]; intros seen; simpl.
  { split; [constructor|]. by intros ? ?%not_elem_of_nil. }
  case_decide as Hx.
  - destruct (IH seen) as [Hnd Hin]. split; [done|]. intros node [? ?]%Hin. split; [done|by right].
  - destruct (IH ({[nd_id x]} ∪ seen)) as [Hnd Hin]. split.
    + rewrite fmap_cons. constructor; [|done]. intros (y & Heq & Hy)%list_elem_of_fmap. apply Hin in Hy as [Hy _].
      apply Hy, elem_of_union. left. apply elem_of_singleton. congruence.
    + intros node [->|[Hy ?]%Hin]%elem_of_cons; [split; [done|left]|]. split; [|by right].
      intros Hs. apply Hy, elem_of_union. by right.
Qed.

Lemma same_node l (x y : Node) : NoDup (nd_id <$> l) → x ∈ l → y ∈ l → nd_id x = nd_id y → x = y.
Proof.
  intros Hnd [i Hi]%list_elem_of_lookup [j Hj]%list_elem_of_lookup Heq.
  assert (i = j) as ->; [|congruence].
  apply (NoDup_lookup (nd_id <$> l) i j (nd_id x) Hnd); rewrite list_lookup_fmap; [by rewrite Hi|].
  rewrite Hj. simpl. by rewrite Heq.
Qed.

Section ids.
Context `{UuidFormat, Lowercase, !LowercaseLaws} (new_v5 : uuid → string → uuid).

Notation name_based node := (Entity_id_for new_v5 (nd_name node)).

(** The id of a node is one its group gives it. *)
Lemma entity_ids_group graph chunk_id node :
  NoDup (nd_id <$> kg_nodes graph) → node ∈ kg_nodes graph →
  ∃ id, entity_ids_by_node_id new_v5 graph chunk_id !! nd_id node = Some id
    ∧ (nd_id node, id) ∈ group_ids new_v5 chunk_id (name_based node)
                           (filter (λ n, name_based n = name_based node) (kg_nodes graph)).
Proof.
  intros Hnd Hin. destruct (entity_ids_lookup new_v5 graph chunk_id) as [Hcover _].
  destruct (Hcover node Hin) as [id Hid]. exists id. split; [done|]. revert id Hid.
  unfold entity_ids_by_node_id. cbv zeta. set (order := foldl _ [] _). clearbody order.
  apply (foldl_inv (λ m : gmap string uuid, ∀ id, m !! nd_id node = Some id → (nd_id node, id) ∈ group_ids new_v5 chunk_id _ _)).
  2:{ intros id. by rewrite lookup_empty. }
  intros n m _ Hm id [Hg|Hm']%foldl_insert_lookup; [|by apply Hm].
  assert (Hnode : nd_id node ∈ (group_ids new_v5 chunk_id n (filter (λ n', name_based n' = n) (kg_nodes graph))).*1).
  { by apply (list_elem_of_fmap_2 fst) in Hg. }
  rewrite group_ids_nodes in Hnode. apply list_elem_of_fmap in Hnode as (x & Heq & [Hx Hxin]%list_elem_of_filter).
  assert (x = node) as ->; [|by rewrite <-Hx in Hg].
  by apply (same_node (kg_nodes graph)).
Qed.

(** In a group of several the id of a node is made of its name, its chunk and its ordinal. *)
Lemma group_ids_ordinal chunk_id n group node id :
  (nd_id node, id) ∈ group_ids new_v5 chunk_id n group → NoDup (nd_id <$> group) → node ∈ group → 1 < length group →
  ∃ i, merge_sort ordinal_le group !! i = Some node
    ∧ id = data_point_id_for new_v5 "Entity" [nd_name node; uuid_to_string chunk_id; pretty (i + 1)].
Proof.
  intros Hin Hnd Hnode Hlen. destruct group as [|x [|y group]]; simpl in Hlen; [lia..|]. unfold group_ids in Hin.
  set (sorted := merge_sort ordinal_le (x :: y :: group)) in *.
  apply list_elem_of_lookup in Hin as [i Hi]. rewrite list_lookup_imap in Hi.
  destruct (sorted !! i) as [z|] eqn:Hz; [|done]. simpl in Hi. injection Hi as Heq Hid.
  assert (z = node) as ->; [|by exists i].
  assert (Hp : sorted ≡ₚ x :: y :: group) by apply merge_sort_Permutation.
  assert (Hnd' : NoDup (nd_id <$> sorted)) by by rewrite Hp.
  rewrite <-Hp in Hnode. apply (same_node sorted); [done|by eapply list_elem_of_lookup_2|done|done].
Qed.

Lemma filter_NoDup_ids (P : Node → Prop) `{∀ n, Decision (P n)} l : NoDup (nd_id <$> l) → NoDup (nd_id <$> filter P l).
Proof.
  induction l as [|x l IH]; [done|]. rewrite fmap_cons. intros [Hx Hnd]%NoDup_cons. rewrite filter_cons.
  case_decide; [|by apply IH]. rewrite fmap_cons. constructor; [|by apply IH].
  intros (y & Heq & [_ Hy]%list_elem_of_filter)%list_elem_of_fmap. apply Hx. rewrite Heq. by apply list_elem_of_fmap_2.
Qed.

(** A node that is alone with its name in its graph has the id of the name. *)
Lemma alone_name_based graph chunk_id node :
  NoDup (nd_id <$> kg_nodes graph) → node ∈ kg_nodes graph →
  (∀ n, n ∈ kg_nodes graph → name_based n = name_based node → n = node) →
  entity_ids_by_node_id new_v5 graph chunk_id !! nd_id node = Some (name_based node).
Proof.
  intros Hnd Hin Halone. destruct (entity_ids_group graph chunk_id node Hnd Hin) as (id & -> & Hid).
  set (group := filter _ _) in Hid.
  assert (Hgroup : ∀ n, n ∈ group → n = node) by (intros n [? ?]%list_elem_of_filter; by apply Halone).
  assert (Hnode : node ∈ group) by by apply list_elem_of_filter.
  assert (Hgnd : NoDup group) by by apply (NoDup_fmap_1 nd_id), filter_NoDup_ids.
  destruct group as [|x [|y group]]; [by apply not_elem_of_nil in Hnode| |].
  - rewrite (Hgroup x) in Hid by left. simpl in Hid. apply list_elem_of_singleton in Hid. by simplify_eq.
  - exfalso. rewrite (Hgroup x), (Hgroup y) in Hgnd by (left || (right; left)).
    apply NoDup_cons in Hgnd as [Hno _]. apply Hno. left.
Qed.

Lemma append_inj (s t u : string) : s +:+ t = s +:+ u → t = u.
Proof. apply (inj (String.append s)). Qed.

(** Two nodes of a graph that share a name have different ids. *)
Lemma homonyms_ids graph chunk_id node node' id id' :
  (∀ s t, new_v5 NAMESPACE_OID s = new_v5 NAMESPACE_OID t → s = t) →
  NoDup (nd_id <$> kg_nodes graph) → node ∈ kg_nodes graph → node' ∈ kg_nodes graph → node ≠ node' →
  name_based node = name_based node' →
  entity_ids_by_node_id new_v5 graph chunk_id !! nd_id node = Some id →
  entity_ids_by_node_id new_v5 graph chunk_id !! nd_id node' = Some id' → id ≠ id'.
Proof.
  intros Hinj Hnd Hin Hin' Hne Hname Hid Hid'.
  destruct (entity_ids_group graph chunk_id node Hnd Hin) as (? & ? & Hg). simplify_eq.
  destruct (entity_ids_group graph chunk_id node' Hnd Hin') as (? & ? & Hg'). simplify_eq.
  rewrite <-Hname in Hg'. set (group := filter _ _) in Hg, Hg'.
  assert (Hgin : node ∈ group) by by apply list_elem_of_filter.
  assert (Hgin' : node' ∈ group) by by apply list_elem_of_filter.
  assert (Hgnd : NoDup (nd_id <$> group)) by by apply filter_NoDup_ids.
  assert (Hlen : 1 < length group).
  { destruct group as [|x [|y group]]; simpl; [by apply not_elem_of_nil in Hgin| |lia].
    apply list_elem_of_singleton in Hgin, Hgin'. congruence. }
  destruct (group_ids_ordinal _ _ _ _ _ Hg Hgnd Hgin Hlen) as (i & Hi & ->).
  destruct (group_ids_ordinal _ _ _ _ _ Hg' Hgnd Hgin' Hlen) as (j & Hj & ->).
  intros Heq%Hinj. apply Hinj in Hname. simpl in Hname, Heq.
  apply (append_inj "Entity:") in Hname. simpl in Hname. rewrite Hname in Heq.
  do 6 apply append_inj in Heq.
  rewrite !normalize_digits in Heq by apply pretty_digits.
  assert (Hord : i + 1 = j + 1) by exact (inj (pretty (A := nat)) _ _ Heq).
  assert (i = j) as -> by lia. congruence.
Qed.
End ids.
