(* ===== verification/ExpansionSpec.v ===== *)
(** * What graph expansion promises its callers

    The theorems of the pass, over the invariant of ExpansionFacts. *)

From stdpp Require Import sorting.
From S2P Require Import Prelude Json Strings DataPoint Models Provenance GraphTypes Expansion ExpansionFacts EntityIds.
From Stdlib Require Import QArith.
#[local] Open Scope nat_scope.

Lemma elem_of_take_timestamps id t order : ∀ m : gmap uuid TimestampNode,
  id ∈ order → m !! id = Some t → t ∈ take_timestamps order m.
Proof.
  induction order as [|id' order IH]; intros m Hin Hm; [by apply not_elem_of_nil in Hin|]. simpl.
  destruct (decide (id' = id)) as [->|Hne]; [rewrite Hm; left|].
  apply elem_of_cons in Hin as [?|Hin]; [done|]. destruct (m !! id'); [right|]; apply IH; try done.
  by rewrite lookup_delete_ne.
Qed.

Lemma take_timestamps_elem t order : ∀ m : gmap uuid TimestampNode,
  t ∈ take_timestamps order m → ∃ id, m !! id = Some t.
Proof.
  induction order as [|id order IH]; intros m; simpl; [by intros ?%not_elem_of_nil|].
  destruct (m !! id) as [t'|] eqn:Hid; [|apply IH]. intros [->|Hin]%elem_of_cons; [by exists id|].
  apply IH in Hin as [id' Hin]. exists id'. by apply lookup_delete_Some in Hin as [_ ?].
Qed.

Section expansion.
Context `{UuidFormat, !UuidFormatLaws, Lowercase} (new_v5 : uuid → string → uuid) (clock : string → chunk_env)
  (parse_time_period : string → option TimePeriod) (dataset_id : uuid) (chunk_node_sets : gmap uuid (list json))
  (chunk_importance_weights : gmap uuid Q) (existing : gset string) (resolver : OntologyResolver)
  (user_label : option string) (task_rank : option Z).

Notation graph_step := (graph_step new_v5 clock parse_time_period dataset_id chunk_node_sets chunk_importance_weights
                          existing resolver user_label task_rank).
Notation expand_extracted_graphs := (expand_extracted_graphs new_v5 clock parse_time_period dataset_id chunk_node_sets
                                       chunk_importance_weights existing resolver user_label task_rank).
Notation collected := (collected new_v5 clock dataset_id).
Notation nodes_ok := (nodes_ok new_v5 clock parse_time_period existing).
Notation edges_ok := (edges_ok existing).
Notation stands_for := (stands_for new_v5 clock parse_time_period).
Notation declarations := (declarations new_v5).

(** ** What is collected *)

(** The ids a result gives an edge to end at. *)
Definition entity_ids (ex : Expansion) : list uuid := map np_id (ex_nodes ex).
Definition artifact_ids (ex : Expansion) : list uuid := entity_ids ex ++ map tn_id (ex_timestamps ex).

Lemma expand_state graphs : ∃ st, fold_steps graph_step (imap pair graphs) expansion_init = Some st
  ∧ expand_extracted_graphs graphs = Some (collected st)
  ∧ nodes_ok (declarations graphs) st ∧ edges_ok (utterances graphs) st.
Proof.
  destruct (expansion_runs new_v5 clock parse_time_period dataset_id chunk_node_sets chunk_importance_weights
              existing resolver user_label task_rank graphs) as (st & Hrun & Hn & He).
  exists st. unfold Expansion.expand_extracted_graphs. by rewrite Hrun.
Qed.

Lemma has_entity_collected st id : has_entity st id → id ∈ entity_ids (collected st).
Proof.
  intros (key & np & Hnp & <-). apply (list_elem_of_fmap_2 np_id). unfold Expansion.collected. simpl.
  apply elem_of_app. left. apply (list_elem_of_fmap_2 snd _ (key, np)). by apply elem_of_map_to_list.
Qed.

Lemma known_collected ds st id : nodes_ok ds st → known st id → id ∈ artifact_ids (collected st).
Proof.
  intros Hok [He|[t Ht]]; apply elem_of_app; [left; by apply has_entity_collected|right].
  destruct (no_timestamps _ _ _ _ _ _ Hok _ _ Ht) as (<- & _ & _). apply (list_elem_of_fmap_2 tn_id). simpl.
  eapply elem_of_take_timestamps; [|done]. apply (no_order _ _ _ _ _ _ Hok). by eexists.
Qed.

Lemma stands_for_known st ids node id : stands_for st ids node id → known st id.
Proof.
  unfold ExpansionFacts.stands_for. destruct (as_timestamp _ _ _ node); [intros [_ ?]; by right|].
  intros (n & np & _ & Hnp & <-). left. by eexists _, np.
Qed.

(** What a declaration comes to mean in the end. *)
Definition meaning (st : expansion_state) (d : declaration) : uuid :=
  let '(_, ids, node) := d in
  match as_timestamp new_v5 clock parse_time_period node with
  | Some t => tm_id t
  | None => from_option np_id 0%N (ids !! nd_id node ≫= λ id, xs_nodes st !! entity_key id)
  end.

Lemma stands_for_meaning st c ids node id : stands_for st ids node id → meaning st (c, ids, node) = id.
Proof.
  unfold ExpansionFacts.stands_for, meaning. destruct (as_timestamp _ _ _ node); [by intros [-> _]|].
  intros (n & np & -> & Hnp & <-). simpl. by rewrite Hnp.
Qed.

(** An edge of the result: from one of its entities to one of its artifacts, and owned
    by a chunk that uttered it. *)
Record grounded (graphs : list (uuid * KnowledgeGraph)) (ex : Expansion) (e : GraphEdgePair) : Prop := {
  gd_source : ep_source_entity_id e ∈ entity_ids ex;
  gd_target : ep_target_entity_id e ∈ artifact_ids ex;
  gd_owned : edge_chunks (ex_producers ex) (dedup_key e) ≠ [];
  gd_uttered : ∀ c, c ∈ edge_chunks (ex_producers ex) (dedup_key e) →
    ∃ g edge, (c, g) ∈ graphs ∧ edge ∈ kg_edges g ∧ eg_relationship_name edge = ep_relationship_name e;
}.

Lemma elem_of_utterances c edge graphs :
  (c, edge) ∈ utterances graphs ↔ ∃ g, (c, g) ∈ graphs ∧ edge ∈ kg_edges g.
Proof.
  unfold utterances. rewrite list_elem_of_In, in_concat. split.
  - intros (l & ([c' g] & <- & Hg)%in_map_iff & Hin). apply in_map_iff in Hin as (edge' & [= -> ->] & Hin).
    exists g. by rewrite !list_elem_of_In.
  - intros (g & Hg & Hin). exists (map (pair c) (kg_edges g)). apply list_elem_of_In in Hg, Hin. split.
    + apply in_map_iff. by exists (c, g).
    + apply in_map_iff. by exists edge.
Qed.

Lemma elem_of_declarations c ids node graphs :
  (c, ids, node) ∈ declarations graphs ↔
  ∃ g, (c, g) ∈ graphs ∧ ids = entity_ids_by_node_id new_v5 (without_duplicate_node_ids g) c
       ∧ node ∈ first_by_id ∅ (kg_nodes g).
Proof.
  unfold ExpansionFacts.declarations. rewrite list_elem_of_In, in_concat. split.
  - intros (l & ([c' g] & <- & Hg)%in_map_iff & Hin). apply in_map_iff in Hin as (node' & [= -> <- ->] & Hin).
    exists g. by rewrite !list_elem_of_In.
  - intros (g & Hg & -> & Hin). apply list_elem_of_In in Hg, Hin. eexists. split.
    + apply in_map_iff. by exists (c, g).
    + apply in_map_iff. by exists node.
Qed.

Lemma kept_grounded graphs st b key e :
  nodes_ok (declarations graphs) st → edges_ok (utterances graphs) st →
  kept_edge existing st b key e → grounded graphs (collected st) e.
Proof.
  intros Hok He [Hkey Hs Ht _ Hp _]. subst key. split; [by apply has_entity_collected|by eapply known_collected|done|].
  intros c (edge & (g & Hg & Hin)%elem_of_utterances & Hname)%(eo_producers _ _ _ He). by exists g, edge.
Qed.

Lemma elem_of_map_values `{Countable K} {V} (m : gmap K V) v : v ∈ (map_to_list m).*2 → ∃ k, m !! k = Some v.
Proof. intros ([k v'] & -> & Hin)%list_elem_of_fmap. exists k. by apply elem_of_map_to_list. Qed.

(** ** Theorems *)

(** C23: The pass ends with a result: none of its [expect]s fires, and since no more
    endpoints are dropped than edges attempted, neither does the subtraction of its
    report underflow. *)
Theorem expansion_total graphs :
  ∃ ex, expand_extracted_graphs graphs = Some ex
    ∧ es_attempted (ex_stats ex) = sum_list_with (length ∘ kg_edges ∘ snd) graphs
    ∧ dropped (ex_stats ex) ≤ es_attempted (ex_stats ex).
Proof.
  destruct (expand_state graphs) as (st & _ & Hex & _ & He). exists (collected st). split; [done|]. simpl.
  split; [|apply He]. rewrite (eo_attempted _ _ _ He). clear. unfold utterances.
  induction graphs as [|[c g] graphs IH]; simpl; [done|].
  rewrite length_app, length_map. f_equal. apply IH.
Qed.

(** C24: An edge is written only if the database does not have it and only claimed if it
    does; no edge is claimed twice; and every edge but the ontology's own is grounded. *)
Theorem expansion_grounded graphs ex : expand_extracted_graphs graphs = Some ex →
  (∀ e, e ∈ ex_edges ex →
     pair_db_key e ∉ existing ∧ (ep_properties e !! "ontology_valid" = Some "true" ∨ grounded graphs ex e))
  ∧ (∀ e, e ∈ ex_claimed_existing_edges ex → pair_db_key e ∈ existing ∧ grounded graphs ex e)
  ∧ NoDup (map dedup_key (ex_claimed_existing_edges ex)).
Proof.
  destruct (expand_state graphs) as (st & _ & Hex & Hok & He). rewrite Hex. intros [= <-]. split_and!.
  - intros e [(key & Hw%(eo_written _ _ _ He))%elem_of_map_values|Hin]%elem_of_app.
    + split; [|right; by eapply kept_grounded]. intros Hdb. by apply (ke_bucket _ _ _ _ _ Hw) in Hdb.
    + destruct (oo_new _ _ (no_ontology _ _ _ _ _ _ Hok) e Hin) as (? & _ & ?). split; [done|by left].
  - intros e (key & Hc%(eo_claimed _ _ _ He))%elem_of_map_values. split; [|by eapply kept_grounded].
    by apply (ke_bucket _ _ _ _ _ Hc).
  - simpl. pose proof (eo_claimed _ _ _ He) as Hc. pose proof (NoDup_fst_map_to_list (xe_claimed (xs_edges st))) as Hnd.
    replace (map dedup_key (map_to_list (xe_claimed (xs_edges st))).*2) with (map_to_list (xe_claimed (xs_edges st))).*1;
      [done|].
    rewrite <-list_fmap_compose. apply Forall_fmap_ext, Forall_forall. intros [key e] Hin%elem_of_map_to_list.
    symmetry. exact (ke_key _ _ _ _ _ (Hc key e Hin)).
Qed.

(** Timestamps are leaves, as long as no entity's id is a timestamp's: no extracted
    edge, written or claimed, leads from one. *)
Theorem timestamps_are_leaves graphs ex e t :
  (∀ values name, data_point_id_for new_v5 "Entity" values ≠ Timestamp_id_for new_v5 name) →
  expand_extracted_graphs graphs = Some ex →
  e ∈ ex_edges ex ++ ex_claimed_existing_edges ex → ep_properties e !! "ontology_valid" = Some "false" →
  t ∈ ex_timestamps ex → ep_source_entity_id e ≠ tn_id t.
Proof.
  intros Hapart. destruct (expand_state graphs) as (st & _ & Hex & Hok & He). rewrite Hex. intros [= <-] Hin Hextracted Ht.
  assert (Hs : has_entity st (ep_source_entity_id e)).
  { apply elem_of_app in Hin as [[(key & Hw%(eo_written _ _ _ He))%elem_of_map_values|Hin]%elem_of_app
                                |(key & Hc%(eo_claimed _ _ _ He))%elem_of_map_values]; [apply Hw| |apply Hc].
    destruct (oo_new _ _ (no_ontology _ _ _ _ _ _ Hok) e Hin) as (_ & _ & Hvalid). congruence. }
  destruct Hs as (key & np & Hnp & <-). destruct (no_entities _ _ _ _ _ _ Hok _ _ Hnp) as [[values ->] _].
  simpl in Ht. apply take_timestamps_elem in Ht as [id Hid].
  destruct (no_timestamps _ _ _ _ _ _ Hok _ _ Hid) as (-> & [name ->] & _). apply Hapart.
Qed.

(** C25: Every node a graph declares comes to mean one artifact of the result; the chunks
    that produced an artifact are exactly those whose graphs declare a node that means
    it; and two nodes with one id, of whatever chunks, mean one entity. *)
Theorem producers_exact graphs : ∃ ex (meaning : declaration → uuid),
  expand_extracted_graphs graphs = Some ex
  ∧ (∀ d, d ∈ declarations graphs → meaning d ∈ artifact_ids ex)
  ∧ (∀ c id, c ∈ entity_chunks (ex_producers ex) id ↔ ∃ d, d ∈ declarations graphs ∧ d.1.1 = c ∧ meaning d = id)
  ∧ (∀ d d', as_timestamp new_v5 clock parse_time_period d.2 = None →
             as_timestamp new_v5 clock parse_time_period d'.2 = None →
             d.1.2 !! nd_id d.2 = d'.1.2 !! nd_id d'.2 → meaning d = meaning d').
Proof.
  destruct (expand_state graphs) as (st & _ & Hex & Hok & _). exists (collected st), (meaning st).
  assert (Hmean : ∀ c ids node, (c, ids, node) ∈ declarations graphs → stands_for st ids node (meaning st (c, ids, node))).
  { intros c ids node Hin. destruct (no_declared _ _ _ _ _ _ Hok _ _ _ Hin) as [id Hid].
    by rewrite (stands_for_meaning _ c _ _ _ Hid). }
  split_and!; [done|..].
  - intros [[c ids] node] Hin. eapply known_collected, stands_for_known, Hmean; done.
  - intros c id. simpl. rewrite (no_producers _ _ _ _ _ _ Hok). split.
    + intros (ids & node & Hin & Hst). exists (c, ids, node). split_and!; [done|done|]. by apply stands_for_meaning.
    + intros ([[c' ids] node] & Hin & Hc & <-). simpl in Hc. subst c'. exists ids, node. split; [done|by apply Hmean].
  - intros [[c ids] node] [[c' ids'] node']. simpl. intros -> -> ->. done.
Qed.

(** A node is alone with its name in its graph. *)
Definition alone (g : KnowledgeGraph) (node : Node) : Prop :=
  node ∈ first_by_id ∅ (kg_nodes g)
  ∧ ∀ n, n ∈ first_by_id ∅ (kg_nodes g) → Entity_id_for new_v5 (nd_name n) = Entity_id_for new_v5 (nd_name node) → n = node.

Context `{!LowercaseLaws}.

(** Such a node, unless it is a timestamp, means the entity of its name, and its chunk
    is a producer of it. *)
Lemma alone_declared graphs st c g node :
  nodes_ok (declarations graphs) st → (c, g) ∈ graphs → alone g node →
  as_timestamp new_v5 clock parse_time_period node = None →
  ∃ np, xs_nodes st !! entity_key (Entity_id_for new_v5 (nd_name node)) = Some np
        ∧ c ∈ entity_chunks (xs_producers st) (np_id np).
Proof.
  intros Hok Hg [Hin Halone] Hts.
  assert (Hid : entity_ids_by_node_id new_v5 (without_duplicate_node_ids g) c !! nd_id node
                = Some (Entity_id_for new_v5 (nd_name node))).
  { apply alone_name_based; [apply first_by_id_spec|done|done]. }
  assert (Hd : (c, entity_ids_by_node_id new_v5 (without_duplicate_node_ids g) c, node) ∈ declarations graphs).
  { apply elem_of_declarations. exists g. by split_and!. }
  destruct (no_declared _ _ _ _ _ _ Hok _ _ _ Hd) as [id Hst].
  pose proof Hst as Hst'. unfold ExpansionFacts.stands_for in Hst'. rewrite Hts in Hst'.
  destruct Hst' as (n & np & Hn & Hnp & <-). rewrite Hid in Hn. injection Hn as <-. exists np. split; [done|].
  apply (no_producers _ _ _ _ _ _ Hok). by eexists _, _.
Qed.

(** The same for two nodes of one name. *)
Lemma alone_shared graphs st c g node c' g' node' :
  nodes_ok (declarations graphs) st → (c, g) ∈ graphs → (c', g') ∈ graphs → alone g node → alone g' node' →
  as_timestamp new_v5 clock parse_time_period node = None → as_timestamp new_v5 clock parse_time_period node' = None →
  normalize_identifier (nd_name node) = normalize_identifier (nd_name node') →
  ∃ np, np ∈ ex_nodes (collected st)
    ∧ c ∈ entity_chunks (xs_producers st) (np_id np) ∧ c' ∈ entity_chunks (xs_producers st) (np_id np).
Proof.
  intros Hok Hg Hg' Ha Ha' Hts Hts' Hname.
  destruct (alone_declared graphs st c g node Hok Hg Ha Hts) as (np & Hnp & Hc).
  destruct (alone_declared graphs st c' g' node' Hok Hg' Ha' Hts') as (np' & Hnp' & Hc').
  assert (Hsame : Entity_id_for new_v5 (nd_name node') = Entity_id_for new_v5 (nd_name node)).
  { unfold Entity_id_for, data_point_id_for. simpl. by rewrite Hname. }
  rewrite Hsame, Hnp in Hnp'. injection Hnp' as <-. exists np. split_and!; [|done|done].
  unfold Expansion.collected. simpl. apply elem_of_app. left.
  apply (list_elem_of_fmap_2 snd _ (entity_key (Entity_id_for new_v5 (nd_name node)), np)).
  by apply elem_of_map_to_list.
Qed.

(** Two chunks that each name a thing once, up to case, spaces and apostrophes, share
    one entity of the result and both own it, whatever ids and types they gave it. *)
Theorem one_name_one_entity graphs c g node c' g' node' :
  (c, g) ∈ graphs → (c', g') ∈ graphs → alone g node → alone g' node' →
  as_timestamp new_v5 clock parse_time_period node = None → as_timestamp new_v5 clock parse_time_period node' = None →
  normalize_identifier (nd_name node) = normalize_identifier (nd_name node') →
  ∃ ex np, expand_extracted_graphs graphs = Some ex ∧ np ∈ ex_nodes ex
    ∧ c ∈ entity_chunks (ex_producers ex) (np_id np) ∧ c' ∈ entity_chunks (ex_producers ex) (np_id np).
Proof.
  intros Hg Hg' Ha Ha' Hts Hts' Hname. destruct (expand_state graphs) as (st & _ & Hex & Hok & _).
  destruct (alone_shared graphs st c g node c' g' node') as (np & ? & ? & ?); try done.
  by exists (collected st), np.
Qed.

(** Two nodes of one graph that share a name keep ids of their own, as long as version 5
    ids do not collide. *)
Theorem homonyms_kept_apart g chunk_id node node' :
  (∀ s t, new_v5 NAMESPACE_OID s = new_v5 NAMESPACE_OID t → s = t) →
  node ∈ first_by_id ∅ (kg_nodes g) → node' ∈ first_by_id ∅ (kg_nodes g) → node ≠ node' →
  normalize_identifier (nd_name node) = normalize_identifier (nd_name node') →
  ∃ id id', id ≠ id' ∧ entity_ids_by_node_id new_v5 (without_duplicate_node_ids g) chunk_id !! nd_id node = Some id
    ∧ entity_ids_by_node_id new_v5 (without_duplicate_node_ids g) chunk_id !! nd_id node' = Some id'.
Proof.
  intros Hinj Hin Hin' Hne Hname. set (graph := without_duplicate_node_ids g).
  destruct (entity_ids_lookup new_v5 graph chunk_id) as [Hcover _].
  destruct (Hcover node Hin) as [id Hid], (Hcover node' Hin') as [id' Hid']. exists id, id'. split_and!; [|done|done].
  eapply (homonyms_ids new_v5 graph chunk_id node node'); try done.
  - apply first_by_id_spec.
  - unfold Entity_id_for, data_point_id_for. simpl. by rewrite Hname.
Qed.
End expansion.

(** ** A run

    Two chunks name one person differently; a timestamp is drawn as a source, an endpoint
    is found by name in the other chunk, one edge the database has already and one ends
    nowhere. *)

#[local] Instance ex_format : UuidFormat := decimal_format.
#[local] Instance ex_lowercase : Lowercase := ascii_lowercase.
#[local] Instance ex_format_laws : UuidFormatLaws := decimal_format_laws.
#[local] Instance ex_lowercase_laws : LowercaseLaws := ascii_lowercase_laws.

Definition ex_id (namespace : uuid) (name : string) : uuid := Npos (encode name).
Definition ex_clock (key : string) : chunk_env := {| ce_fresh := 1; ce_created := 2; ce_touched := 3 |}.
Definition ex_parse_time (t : string) : option TimePeriod :=
  if decide (t = "1867")
  then Some {| tp_normalized := "1867"; tp_precision := Year;
               tp_lower := {| dt_year := 1867; dt_month := 1; dt_day := 1; dt_hour := 0; dt_minute := 0; dt_second := 0;
                              dt_millis := -3250368000000 |};
               tp_time_until := -3218832000001 |}
  else None.
Definition ex_resolver : OntologyResolver := {| or_is_loaded := false; or_get_subgraph _ _ := Err "not loaded" |}.

Definition ex_node (id name node_type : string) : Node :=
  {| nd_id := id; nd_name := name; nd_node_type := node_type; nd_description := name |}.
Definition ex_edge (source target name : string) : Edge :=
  {| eg_source_node_id := source; eg_target_node_id := target; eg_relationship_name := name; eg_description := None |}.

Definition ex_first : KnowledgeGraph := {|
  kg_nodes := [ex_node "marie" "Marie Curie" "Person"; ex_node "y" "1867" "Timestamp"; ex_node "p" "Paris" "City"];
  kg_edges := [ex_edge "y" "marie" "born_at"; ex_edge "marie" "p" "lives_in"; ex_edge "marie" "ghost" "knows"] |}.
Definition ex_second : KnowledgeGraph := {|
  kg_nodes := [ex_node "mc" "marie curie" "Scientist"]; kg_edges := [ex_edge "mc" "paris" "works_in"] |}.
Definition ex_graphs : list (uuid * KnowledgeGraph) := [(1%N, ex_first); (2%N, ex_second)].

Definition ex_existing : gset string :=
  {[edge_db_key (Entity_id_for ex_id "Marie Curie") (Entity_id_for ex_id "Paris") "lives_in"]}.

Definition ex_run : option Expansion :=
  expand_extracted_graphs ex_id ex_clock ex_parse_time 9%N ∅ ∅ ex_existing ex_resolver None None ex_graphs.

Definition ex_result : Expansion :=
  default {| ex_nodes := []; ex_edges := []; ex_claimed_existing_edges := []; ex_producers := ArtifactProducers_default;
             ex_stats := EdgeResolutionStats_default; ex_timestamps := [] |} ex_run.

Example ex_counts :
  (length (ex_nodes ex_result), length (ex_edges ex_result), length (ex_claimed_existing_edges ex_result),
   length (ex_timestamps ex_result), es_attempted (ex_stats ex_result), dropped (ex_stats ex_result),
   resolved_cross_chunk (ex_stats ex_result)) = (2, 2, 1, 1, 4, 1, 1).
Proof. vm_compute. reflexivity. Qed.

Lemma ex_run_result : ex_run = Some ex_result.
Proof. vm_compute. reflexivity. Qed.

Lemma ex_id_inj n s t : ex_id n s = ex_id n t → s = t.
Proof. intros [= Heq]. by apply (inj encode). Qed.

Lemma ex_apart values name : data_point_id_for ex_id "Entity" values ≠ Timestamp_id_for ex_id name.
Proof. unfold Timestamp_id_for, data_point_id_for. by intros ?%ex_id_inj. Qed.

Lemma expansion_grounded_witness :
  ex_run = Some ex_result ∧ length (ex_edges ex_result) = 2
  ∧ ∀ e, e ∈ ex_claimed_existing_edges ex_result → pair_db_key e ∈ ex_existing ∧ grounded ex_graphs ex_result e.
Proof.
  split; [exact ex_run_result|]. split; [vm_compute; reflexivity|].
  apply (expansion_grounded ex_id ex_clock ex_parse_time 9%N ∅ ∅ ex_existing ex_resolver None None ex_graphs ex_result).
  exact ex_run_result.
Defined.

Lemma timestamps_are_leaves_witness :
  length (ex_timestamps ex_result) = 1
  ∧ ∀ e t, e ∈ ex_edges ex_result ++ ex_claimed_existing_edges ex_result → t ∈ ex_timestamps ex_result →
      ep_properties e !! "ontology_valid" = Some "false" ∧ ep_source_entity_id e ≠ tn_id t.
Proof.
  split; [vm_compute; reflexivity|]. intros e t He Ht.
  assert (Hvalid : ep_properties e !! "ontology_valid" = Some "false").
  { revert e He. apply Forall_forall. refine (bool_decide_unpack _ _). vm_compute. exact I. }
  split; [done|].
  apply (timestamps_are_leaves ex_id ex_clock ex_parse_time 9%N ∅ ∅ ex_existing ex_resolver None None ex_graphs ex_result e t
           ex_apart ex_run_result He Hvalid Ht).
Defined.

Lemma one_name_one_entity_witness :
  ∃ ex np, ex_run = Some ex ∧ np ∈ ex_nodes ex
    ∧ 1%N ∈ entity_chunks (ex_producers ex) (np_id np) ∧ 2%N ∈ entity_chunks (ex_producers ex) (np_id np).
Proof.
  apply (one_name_one_entity ex_id ex_clock ex_parse_time 9%N ∅ ∅ ex_existing ex_resolver None None ex_graphs
           1%N ex_first (ex_node "marie" "Marie Curie" "Person")
           2%N ex_second (ex_node "mc" "marie curie" "Scientist")); try reflexivity.
  - left.
  - right. left.
  - split; [left|]. replace (first_by_id ∅ (kg_nodes ex_first)) with (kg_nodes ex_first) by (vm_compute; reflexivity).
    intros n [->|[->|[->|[]%not_elem_of_nil]%elem_of_cons]%elem_of_cons]%elem_of_cons; [done|..];
      intros Heq; vm_compute in Heq; discriminate Heq.
  - split; [left|]. replace (first_by_id ∅ (kg_nodes ex_second)) with (kg_nodes ex_second) by (vm_compute; reflexivity).
    by intros n [->|[]%not_elem_of_nil]%elem_of_cons.
Defined.

Lemma homonyms_kept_apart_witness :
  let g := {| kg_nodes := [ex_node "a" "John Smith" "Person"; ex_node "b" "john smith" "Baker"]; kg_edges := [] |} in
  ∃ id id', id ≠ id' ∧ entity_ids_by_node_id ex_id (without_duplicate_node_ids g) 5%N !! "a" = Some id
    ∧ entity_ids_by_node_id ex_id (without_duplicate_node_ids g) 5%N !! "b" = Some id'.
Proof.
  apply (homonyms_kept_apart ex_id {| kg_nodes := [ex_node "a" "John Smith" "Person"; ex_node "b" "john smith" "Baker"];
           kg_edges := [] |} 5%N (ex_node "a" "John Smith" "Person") (ex_node "b" "john smith" "Baker"));
    [intros s t; apply ex_id_inj|left|right; left|discriminate|reflexivity].
Defined.
