(* ===== verification/Ownership.v ===== *)
(** * Who owns what extraction writes (crates/cognify/src/tasks.rs)

    The rows of the ownership ledger for the entities, timestamps and edges of a run,
    the links from its chunks, the lookup of the edges the graph has already
    (graph_integration/db_deduplication.rs), the deduplication in memory
    (graph_integration/deduplication.rs), and the writes of the stage in their order:
    the ledger first, then the graph.

    What the stores answer, and when a call to them fails, is the fault plan of
    Artifacts; [now] is the time of the rows. *)

From S2P Require Import Prelude Json Strings Text DataPoint Models Ledger Artifacts.
From S2P Require Import GraphTypes EdgeText Expansion.
From Stdlib Require Import QArith Ascii.
#[local] Open Scope nat_scope.

(** ** Who a row is attributed to *)

Record LedgerIdentity := {
  li_tenant_id : option uuid;
  li_user_id : uuid;
  li_dataset_id : uuid;
  li_pipeline_run_id : option uuid;
}.

Definition DEFAULT_LEDGER_USER_ID : uuid := nil_uuid.

(** [LedgerIdentity::new] *)
Definition LedgerIdentity_new (tenant_id user_id : option uuid) (dataset_id : uuid) (pipeline_run_id : option uuid)
    : LedgerIdentity := {|
  li_tenant_id := tenant_id; li_user_id := default DEFAULT_LEDGER_USER_ID user_id;
  li_dataset_id := dataset_id; li_pipeline_run_id := pipeline_run_id |}.

(** ** Deduplication in memory *)

(** [deduplicate_nodes_and_edges]: of two of one key the later one. *)
Definition deduplicate_nodes_and_edges (nodes : list GraphNodePair) (edges : list GraphEdgePair)
    : list GraphNodePair * list GraphEdgePair :=
  ((map_to_list (foldl (λ m n, <[np_id n := n]> m) (∅ : gmap uuid GraphNodePair) nodes)).*2,
   (map_to_list (foldl (λ m e, <[dedup_key e := e]> m) (∅ : gmap (uuid * uuid * string) GraphEdgePair) edges)).*2).

Section ownership.
Context `{UuidFormat, Lowercase} (new_v5 : uuid → string → uuid) (parse_str : string → option uuid) (now : Z)
  (entity_value : Entity → option json) (timestamp_value : Timestamp → option json).

(** ** Ids *)

Definition tenant_text (tenant_id : option uuid) : string := from_option uuid_to_string "None" tenant_id.

(** [provenance_node_id] *)
Definition provenance_node_id (tenant_id : option uuid) (user_id dataset_id data_id node_id : uuid) : uuid :=
  new_v5 NAMESPACE_OID (tenant_text tenant_id +:+ uuid_to_string user_id +:+ uuid_to_string dataset_id
                        +:+ uuid_to_string data_id +:+ uuid_to_string node_id).

(** [provenance_edge_id] *)
Definition provenance_edge_id (tenant_id : option uuid) (user_id dataset_id data_id source_id : uuid)
    (edge_text : string) (target_id : uuid) : uuid :=
  new_v5 NAMESPACE_OID (tenant_text tenant_id +:+ uuid_to_string user_id +:+ uuid_to_string dataset_id
                        +:+ uuid_to_string data_id +:+ uuid_to_string source_id +:+ edge_text
                        +:+ uuid_to_string target_id).

(** [edge_slug] *)
Definition edge_slug (edge_text : string) : uuid := new_v5 NAMESPACE_OID (normalize_identifier edge_text).

(** [triplet_slug] *)
Definition triplet_slug (source_id : uuid) (relationship_name : string) (target_id : uuid) : uuid :=
  new_v5 NAMESPACE_OID
    (normalize_identifier (uuid_to_string source_id +:+ relationship_name +:+ uuid_to_string target_id)).

(** ** The data items behind chunks *)

(** [producing_data_ids] *)
Definition producing_data_ids (chunk_ids : list uuid) (chunk_data_map : gmap uuid uuid) : list uuid :=
  foldl (λ data_ids chunk_id, match chunk_data_map !! chunk_id with
                              | Some data_id => push_new data_id data_ids
                              | None => data_ids
                              end) [] chunk_ids.

(** [chunk_document_map] *)
Definition chunk_document_map (chunks : list DocumentChunk) : gmap uuid uuid :=
  foldl (λ m c, <[dc_id c := dc_document_id c]> m) ∅ chunks.

(** The chunk stamped on an entity. *)
Definition stamped_chunk (e : Entity) : option uuid :=
  v ← dp_metadata (ent_base e) !! "chunk_id"; s ← json_as_str v; parse_str s.

Definition stamped_data (chunk_data_map : gmap uuid uuid) (e : Entity) : option uuid :=
  chunk_id ← stamped_chunk e; chunk_data_map !! chunk_id.

(** [entity_document_map] *)
Definition entity_document_map (entities : list GraphNodePair) (chunk_data_map : gmap uuid uuid) : gmap uuid uuid :=
  foldl (λ m n, match stamped_data chunk_data_map (np_entity n) with
                | Some data_id => <[np_id n := data_id]> m
                | None => m
                end) ∅ entities.

(** [chunk_entity_links]: what each chunk contains. *)
Definition push_link (chunk_id : uuid) (link : json) (m : gmap uuid (list json)) : gmap uuid (list json) :=
  <[chunk_id := default [] (m !! chunk_id) ++ [link]]> m.

Definition chunk_entity_links (nodes : list GraphNodePair) (timestamps : list TimestampNode)
    (producers : ArtifactProducers) : gmap uuid (list json) :=
  let link_timestamp m t :=
    foldl (λ m chunk_id, push_link chunk_id (JString (uuid_to_string (tn_id t))) m) m
      (entity_chunks producers (tn_id t)) in
  let link_entity m n :=
    let link := JString (uuid_to_string (np_id n)) in
    match entity_chunks producers (np_id n) with
    | [] => match stamped_chunk (np_entity n) with Some chunk_id => push_link chunk_id link m | None => m end
    | producing_chunks => foldl (λ m chunk_id, push_link chunk_id link m) m producing_chunks
    end in
  foldl link_entity (foldl link_timestamp ∅ timestamps) nodes.

(** ** Rows *)

(** The data items of an artifact, or the fallback. *)
Definition data_ids_or (fallback : uuid) (data_ids : list uuid) : list uuid :=
  match data_ids with [] => [fallback] | _ => data_ids end.

(** A row of the [nodes] table. *)
Definition node_row_of (id : LedgerIdentity) (slug : uuid) (label : string) (node_type : string) (indexed_fields : json)
    (attributes : option json) (data_id : uuid) : GraphNode := {|
  gn_id := provenance_node_id (li_tenant_id id) (li_user_id id) (li_dataset_id id) data_id slug;
  gn_slug := slug; gn_user_id := li_user_id id; gn_data_id := data_id; gn_dataset_id := li_dataset_id id;
  gn_pipeline_run_id := li_pipeline_run_id id; gn_label := Some label; gn_node_type := node_type;
  gn_indexed_fields := indexed_fields; gn_attributes := attributes; gn_created_at := now |}.

(** [entity_provenance_rows] *)
Definition entity_rows (id : LedgerIdentity) (chunk_data_map : gmap uuid uuid) (producers : ArtifactProducers)
    (n : GraphNodePair) : list GraphNode :=
  let entity := np_entity n in
  let data_ids := data_ids_or (default nil_uuid (stamped_data chunk_data_map entity))
                    (producing_data_ids (entity_chunks producers (np_id n)) chunk_data_map) in
  let indexed_fields := default (JArray [JString "name"]) (dp_metadata (ent_base entity) !! "index_fields") in
  let label := if decide (ent_name entity = "") then uuid_to_string (np_id n) else ent_name entity in
  map (node_row_of id (np_id n) label (dp_data_type (ent_base entity)) indexed_fields (entity_value entity)) data_ids.

Definition entity_provenance_rows (id : LedgerIdentity) (entities : list GraphNodePair) (chunk_data_map : gmap uuid uuid)
    (producers : ArtifactProducers) : list GraphNode :=
  concat (map (entity_rows id chunk_data_map producers) entities).

(** [timestamp_provenance_rows] *)
Definition timestamp_rows (id : LedgerIdentity) (chunk_data_map : gmap uuid uuid) (producers : ArtifactProducers)
    (t : TimestampNode) : list GraphNode :=
  let timestamp := tn_timestamp t in
  let data_ids := data_ids_or nil_uuid (producing_data_ids (entity_chunks producers (tn_id t)) chunk_data_map) in
  map (node_row_of id (tn_id t) (tm_name timestamp) (dp_data_type (tm_base timestamp)) (JArray [])
         (timestamp_value timestamp)) data_ids.

Definition timestamp_provenance_rows (id : LedgerIdentity) (timestamps : list TimestampNode)
    (chunk_data_map : gmap uuid uuid) (producers : ArtifactProducers) : list GraphNode :=
  concat (map (timestamp_rows id chunk_data_map producers) timestamps).

(** The text an edge is keyed on. *)
Definition edge_row_text (e : GraphEdgePair) : string :=
  sanitize_string (if decide (ep_relationship_name e = "contains")
                   then default (ep_relationship_name e) (ep_properties e !! "edge_text")
                   else ep_relationship_name e).

(** [semantic_edge_provenance_rows] *)
Definition edge_rows (id : LedgerIdentity) (chunk_data_map entity_data_map : gmap uuid uuid)
    (producers : ArtifactProducers) (e : GraphEdgePair) : list GraphEdge :=
  let source := ep_source_entity_id e in
  let target := ep_target_entity_id e in
  let text := edge_row_text e in
  let fallback := match entity_data_map !! source, entity_data_map !! target with
                  | Some s, Some t => if decide (s = t) then s else nil_uuid
                  | _, _ => nil_uuid
                  end in
  let data_ids := data_ids_or fallback (producing_data_ids (edge_chunks producers (dedup_key e)) chunk_data_map) in
  map (λ data_id, {|
         ge_id := provenance_edge_id (li_tenant_id id) (li_user_id id) (li_dataset_id id) data_id source text target;
         ge_slug := triplet_slug source text target; ge_user_id := li_user_id id; ge_data_id := data_id;
         ge_dataset_id := li_dataset_id id; ge_pipeline_run_id := li_pipeline_run_id id;
         ge_source_node_id := source; ge_destination_node_id := target; ge_relationship_name := text;
         ge_label := Some (ep_relationship_name e); ge_attributes := Some (JObject (JString <$> ep_properties e));
         ge_created_at := now |}) data_ids.

Definition semantic_edge_provenance_rows (id : LedgerIdentity) (edges : list GraphEdgePair)
    (chunk_data_map entity_data_map : gmap uuid uuid) (producers : ArtifactProducers) : list GraphEdge :=
  concat (map (edge_rows id chunk_data_map entity_data_map producers) edges).

(** [record_extraction_ownership] *)
Definition record_extraction_ownership (id : LedgerIdentity) (chunks : list DocumentChunk) (entities : list GraphNodePair)
    (edges claimed_existing_edges : list GraphEdgePair) (timestamps : list TimestampNode) (producers : ArtifactProducers)
    : M string () :=
  let chunk_data_map := chunk_document_map chunks in
  let entity_data_map := entity_document_map entities chunk_data_map in
  let prov_nodes := entity_provenance_rows id entities chunk_data_map producers
                    ++ timestamp_provenance_rows id timestamps chunk_data_map producers in
  let prov_edges := semantic_edge_provenance_rows id edges chunk_data_map entity_data_map producers
                    ++ semantic_edge_provenance_rows id claimed_existing_edges chunk_data_map entity_data_map producers in
  command (λ st, with_ledger (upsert_provenance_graph prov_nodes prov_edges (st_ledger st)) st).

(** ** The graph *)

(** [GraphDBTrait::add_nodes] and [add_edges]. *)
Definition graph_add_nodes (ids : list uuid) (st : stores) : stores :=
  {| st_ledger := st_ledger st; st_data := st_data st; st_graph := st_graph st ∪ list_to_set ids;
     st_graph_edges := st_graph_edges st; st_vectors := st_vectors st; st_dataset_storage := st_dataset_storage st |}.

Definition graph_add_edges (edges : list (uuid * string * uuid)) (st : stores) : stores :=
  {| st_ledger := st_ledger st; st_data := st_data st; st_graph := st_graph st;
     st_graph_edges := st_graph_edges st ∪ list_to_set edges; st_vectors := st_vectors st;
     st_dataset_storage := st_dataset_storage st |}.

(** [GraphDBTrait::has_edges]: of the edges, those that are there. *)
Definition has_edges (edges : list (string * string * string)) (st : stores) : list (string * string * string) :=
  filter (λ '(source, target, name),
            (source, target, name) ∈ map (λ '(s, r, t), (uuid_to_string s, uuid_to_string t, r)) (elements (st_graph_edges st)))
    edges.

(** [collect_distinct_candidate_edges] *)
Definition collect_distinct_candidate_edges (graphs : list KnowledgeGraph) : list (string * string * string) :=
  foldl (λ edges_to_check edge,
           let key := (uuid_to_string (Entity_id_for new_v5 (eg_source_node_id edge)),
                       uuid_to_string (Entity_id_for new_v5 (eg_target_node_id edge)), eg_relationship_name edge) in
           if decide (key ∈ edges_to_check) then edges_to_check else edges_to_check ++ [key])
    [] (concat (map kg_edges graphs)).

(** [retrieve_existing_edges] *)
Definition retrieve_existing_edges (graphs : list KnowledgeGraph) : M string (gset string) :=
  let edges_to_check := collect_distinct_candidate_edges graphs in
  if decide (edges_to_check = []) then mret ∅
  else
    existing_edges ← query (has_edges edges_to_check);
    mret (list_to_set (map (λ '(source, target, name), source +:+ "_" +:+ target +:+ "_" +:+ name) existing_edges)).

(** ** The stage *)

(** What the stage hands on. *)
Record IntegratedGraph := {
  ig_chunks : list DocumentChunk;
  ig_entities : list GraphNodePair;
  ig_timestamps : list TimestampNode;
  ig_edges : list GraphEdgePair;
  ig_producers : ArtifactProducers;
}.

(** [chunk.contains = entity_ids.clone()] *)
Definition link_chunk (links : gmap uuid (list json)) (c : DocumentChunk) : DocumentChunk :=
  match links !! dc_id c with
  | Some contains =>
      {| dc_base := dc_base c; dc_text := dc_text c; dc_name := dc_name c; dc_chunk_size := dc_chunk_size c;
         dc_chunk_index := dc_chunk_index c; dc_cut_type := dc_cut_type c; dc_document_id := dc_document_id c;
         dc_is_part_of := dc_is_part_of c; dc_contains := contains |}
  | None => c
  end.

(** The writes of the stage: ownership, then nodes, then the edges between them. *)
Definition persist_extraction (id : LedgerIdentity) (chunks : list DocumentChunk) (entities : list GraphNodePair)
    (edges claimed_existing_edges : list GraphEdgePair) (timestamps : list TimestampNode) (producers : ArtifactProducers)
    : M string () :=
  record_extraction_ownership id chunks entities edges claimed_existing_edges timestamps producers;;
  command (graph_add_nodes (map np_id entities));;
  (if decide (timestamps = []) then mret () else command (graph_add_nodes (map tn_id timestamps)));;
  command (graph_add_edges (map (λ e, (ep_source_entity_id e, ep_relationship_name e, ep_target_entity_id e)) edges)).

Context (clock : string → chunk_env) (parse_time_period : string → option TimePeriod)
  (ontology_resolver : OntologyResolver).

(** The sets and weights of the chunks. *)
Definition chunk_node_sets (chunks : list DocumentChunk) : gmap uuid (list json) :=
  foldl (λ m c, match dp_belongs_to_set (dc_base c) with Some sets => <[dc_id c := sets]> m | None => m end) ∅ chunks.
Definition chunk_importance_weights (chunks : list DocumentChunk) : gmap uuid Q :=
  foldl (λ m c, <[dc_id c := default (1 # 2)%Q (dp_importance_weight (dc_base c))]> m) ∅ chunks.

(** The second half of [extract_graph_from_data]: from the graphs to the stores. *)
Definition integrate_graphs (tenant_id user_id : option uuid) (dataset_id : uuid) (pipeline_run_id : option uuid)
    (user_label_override : option string) (task_rank : option Z) (chunks_for_extraction surviving_chunks : list DocumentChunk)
    (all_graphs : list (uuid * KnowledgeGraph)) : M string IntegratedGraph :=
  existing_edges_set ← retrieve_existing_edges (map snd all_graphs);
  let user_label := match user_label_override with Some s => Some s | None => uuid_to_string <$> user_id end in
  match expand_extracted_graphs new_v5 clock parse_time_period dataset_id (chunk_node_sets chunks_for_extraction)
          (chunk_importance_weights chunks_for_extraction) existing_edges_set ontology_resolver user_label task_rank
          all_graphs with
  | None => fail "panic"
  | Some ex =>
      let '(unique_nodes, unique_edges) := deduplicate_nodes_and_edges (ex_nodes ex) (ex_edges ex) in
      let unique_edges := stamp_extracted_edge_text parse_str unique_nodes unique_edges (ex_timestamps ex) in
      let links := chunk_entity_links unique_nodes (ex_timestamps ex) (ex_producers ex) in
      let updated_chunks := map (link_chunk links) surviving_chunks in
      persist_extraction (LedgerIdentity_new tenant_id user_id dataset_id pipeline_run_id) updated_chunks unique_nodes
        unique_edges (ex_claimed_existing_edges ex) (ex_timestamps ex) (ex_producers ex);;
      mret {| ig_chunks := updated_chunks; ig_entities := unique_nodes; ig_timestamps := ex_timestamps ex;
              ig_edges := unique_edges; ig_producers := ex_producers ex |}
  end.
End ownership.
