(* ===== verification/OwnershipFacts.v ===== *)
(** * Theorems of extraction ownership

    The ids of ownership rows tell their parts apart; a row is written for every data
    item behind an artifact before the artifact is; and a thing two files name is never
    taken by the deletion of one of them. *)

From S2P Require Import Prelude Json Strings Text DataPoint Models Ledger LedgerFacts Artifacts Sweep SweepFacts.
From S2P Require Import GraphTypes EdgeText Expansion ExpansionFacts EntityIds ExpansionSpec Ownership.
From Stdlib Require Import QArith Ascii.
#[local] Open Scope nat_scope.

(** ** Folds into maps *)

Lemma foldl_insert_keys `{Countable K} {A V} (key : A → K) (value : A → V) l : ∀ (m : gmap K V) k v,
  foldl (λ m x, <[key x := value x]> m) m l !! k = Some v → (∃ x, x ∈ l ∧ key x = k ∧ value x = v) ∨ m !! k = Some v.
Proof.
  induction l as [|x l IH]; intros m k v; simpl; [by right|]. intros [(y & Hy & ? & ?)|Hm]%IH.
  - left. exists y. split_and!; [by right|done|done].
  - apply lookup_insert_Some in Hm as [[<- <-]|[_ ?]]; [left|by right]. exists x. split_and!; [left|done|done].
Qed.

Lemma foldl_insert_found `{Countable K} {A V} (key : A → K) (value : A → V) l x : ∀ m : gmap K V,
  x ∈ l → ∃ y, y ∈ l ∧ key y = key x ∧ foldl (λ m x, <[key x := value x]> m) m l !! key x = Some (value y).
Proof.
  induction l as [|z l IH] using rev_ind; intros m Hx; [by apply not_elem_of_nil in Hx|].
  rewrite foldl_snoc. destruct (decide (key z = key x)) as [Heq|Hne].
  - exists z. split_and!; [apply elem_of_app; right; by apply list_elem_of_singleton|done|].
    rewrite <-Heq. by rewrite lookup_insert_eq.
  - apply elem_of_app in Hx as [Hx| ->%list_elem_of_singleton]; [|done].
    destruct (IH m Hx) as (y & Hy & Hk & Hv). exists y. split_and!; [apply elem_of_app; by left|done|].
    by rewrite lookup_insert_ne.
Qed.

(** ** Deduplication in memory *)

Section dedup.
Variables (nodes : list GraphNodePair) (edges : list GraphEdgePair).
Let unique := deduplicate_nodes_and_edges nodes edges.

Lemma dedup_nodes_ids id : id ∈ map np_id unique.1 ↔ id ∈ map np_id nodes.
Proof.
  unfold unique, deduplicate_nodes_and_edges. simpl. split.
  - intros (n & -> & (k & Hk)%elem_of_map_values)%list_elem_of_fmap.
    apply (foldl_insert_keys np_id (λ n, n)) in Hk as [(x & Hx & _ & <-)|Hk]; [by apply list_elem_of_fmap_2|].
    by rewrite lookup_empty in Hk.
  - intros (n & -> & Hn)%list_elem_of_fmap.
    destruct (foldl_insert_found np_id (λ n, n) nodes n ∅ Hn) as (y & Hy & Hk & Hv). rewrite <-Hk.
    apply (list_elem_of_fmap_2 np_id). apply (list_elem_of_fmap_2 snd _ (np_id n, y)). by apply elem_of_map_to_list.
Qed.

Lemma dedup_edges_sub e : e ∈ unique.2 → e ∈ edges.
Proof.
  unfold unique, deduplicate_nodes_and_edges. simpl. intros (k & Hk)%elem_of_map_values.
  apply (foldl_insert_keys dedup_key (λ e, e)) in Hk as [(x & Hx & _ & <-)|Hk]; [done|]. by rewrite lookup_empty in Hk.
Qed.

Lemma dedup_edges_keys k : k ∈ map dedup_key unique.2 ↔ k ∈ map dedup_key edges.
Proof.
  split.
  - intros (e & -> & He%dedup_edges_sub)%list_elem_of_fmap. by apply list_elem_of_fmap_2.
  - intros (e & -> & He)%list_elem_of_fmap.
    destruct (foldl_insert_found dedup_key (λ e, e) edges e ∅ He) as (y & Hy & Hk & Hv). rewrite <-Hk.
    apply (list_elem_of_fmap_2 dedup_key). unfold unique, deduplicate_nodes_and_edges. simpl.
    apply (list_elem_of_fmap_2 snd _ (dedup_key e, y)). by apply elem_of_map_to_list.
Qed.

Lemma map_values_keyed `{Countable K} {V} (key : V → K) (m : gmap K V) :
  (∀ k v, m !! k = Some v → key v = k) → NoDup (map key (map_to_list m).*2).
Proof.
  intros Hkey. replace (map key (map_to_list m).*2) with (map_to_list m).*1; [apply NoDup_fst_map_to_list|].
  change (map key) with (fmap (M := list) key). rewrite <-list_fmap_compose. apply Forall_fmap_ext, Forall_forall.
  intros [k v] Hin%elem_of_map_to_list. symmetry. exact (Hkey k v Hin).
Qed.

Lemma dedup_once : NoDup (map np_id unique.1) ∧ NoDup (map dedup_key unique.2).
Proof.
  unfold unique, deduplicate_nodes_and_edges. simpl. split; apply map_values_keyed; intros k v Hk.
  - apply (foldl_insert_keys np_id (λ n, n)) in Hk as [(x & _ & <- & <-)|Hk]; [done|]. by rewrite lookup_empty in Hk.
  - apply (foldl_insert_keys dedup_key (λ n, n)) in Hk as [(x & _ & <- & <-)|Hk]; [done|]. by rewrite lookup_empty in Hk.
Qed.
End dedup.

(** ** The data items of an artifact *)

Lemma elem_of_producing_data_ids cs m d : d ∈ producing_data_ids cs m ↔ ∃ c, c ∈ cs ∧ m !! c = Some d.
Proof.
  unfold producing_data_ids.
  assert (Hgo : ∀ cs acc, d ∈ foldl (λ data_ids chunk_id, match m !! chunk_id with
             | Some data_id => push_new data_id data_ids | None => data_ids end) acc cs
             ↔ d ∈ acc ∨ ∃ c, c ∈ cs ∧ m !! c = Some d).
  { clear cs. induction cs as [|c cs IH]; intros acc; simpl.
    - split; [by left|]. by intros [?|(c & ?%not_elem_of_nil & _)].
    - rewrite IH. setoid_rewrite elem_of_cons. destruct (m !! c) as [x|] eqn:Hc; [rewrite elem_of_push_new|]; naive_solver. }
  rewrite Hgo. split; [by intros [?%not_elem_of_nil|?]|by right].
Qed.

Lemma producing_data_ids_NoDup cs m : NoDup (producing_data_ids cs m).
Proof.
  unfold producing_data_ids. apply (foldl_inv (λ l : list uuid, NoDup l)); [|constructor].
  intros c l _ Hl. destruct (m !! c); [by apply NoDup_push_new|done].
Qed.

Lemma data_ids_or_NoDup fallback l : NoDup l → NoDup (data_ids_or fallback l).
Proof. destruct l; [intros _; apply NoDup_singleton|done]. Qed.

Lemma elem_of_data_ids_or fallback l d : d ∈ l → d ∈ data_ids_or fallback l.
Proof. by destruct l; [intros ?%not_elem_of_nil|]. Qed.

Lemma data_ids_or_not_nil fallback l : ∃ d, d ∈ data_ids_or fallback l.
Proof. destruct l as [|d l]; [exists fallback|exists d]; left. Qed.

(** No chunk of another document has the chunk's id. *)
Definition own_chunk_id (chunks : list DocumentChunk) (c : DocumentChunk) : Prop :=
  ∀ c', c' ∈ chunks → dc_id c' = dc_id c → dc_document_id c' = dc_document_id c.

(** Such a chunk keeps its document. *)
Lemma chunk_document_map_lookup chunks c : own_chunk_id chunks c → c ∈ chunks →
  chunk_document_map chunks !! dc_id c = Some (dc_document_id c).
Proof.
  intros Hown Hc. unfold chunk_document_map.
  destruct (foldl_insert_found dc_id dc_document_id chunks c ∅ Hc) as (y & Hy & Hk & ->). f_equal. by apply Hown.
Qed.

Section ownership.
Context `{UuidFormat, !UuidFormatLaws, Lowercase} (new_v5 : uuid → string → uuid).

(** Version 5 ids do not collide. *)
Definition v5_injective : Prop := ∀ s t, new_v5 NAMESPACE_OID s = new_v5 NAMESPACE_OID t → s = t.

(** ** Ids *)

Lemma tenant_text_inj t t' s s' : tenant_text t +:+ s = tenant_text t' +:+ s' → t = t' ∧ s = s'.
Proof.
  destruct t as [t|], t' as [t'|]; unfold tenant_text; simpl.
  - by intros [-> ->]%uuid_to_string_prefix.
  - by intros ?%uuid_to_string_none.
  - intros Heq. symmetry in Heq. by apply uuid_to_string_none in Heq.
  - by intros ->%append_inj.
Qed.

Lemma provenance_node_id_inj t u d x n t' u' d' x' n' : v5_injective →
  provenance_node_id new_v5 t u d x n = provenance_node_id new_v5 t' u' d' x' n' → (t, u, d, x, n) = (t', u', d', x', n').
Proof.
  intros Hinj Heq%Hinj. apply tenant_text_inj in Heq as [-> Heq].
  do 3 (apply uuid_to_string_prefix in Heq as [-> Heq]). by apply uuid_to_string_inj in Heq as ->.
Qed.

Lemma provenance_edge_id_inj t u d x source name target t' u' d' x' source' name' target' : v5_injective →
  provenance_edge_id new_v5 t u d x source name target = provenance_edge_id new_v5 t' u' d' x' source' name' target' →
  (t, u, d, x, source, name, target) = (t', u', d', x', source', name', target').
Proof.
  intros Hinj Heq%Hinj. apply tenant_text_inj in Heq as [-> Heq].
  do 4 (apply uuid_to_string_prefix in Heq as [-> Heq]). by apply uuid_to_string_suffix in Heq as [-> ->].
Qed.

(** ** Minted rows *)

Notation node_id_of := (provenance_node_id new_v5).
Notation edge_id_of := (provenance_edge_id new_v5).

(** A row whose id is made of what it says. *)
Definition minted_node (n : GraphNode) : Prop :=
  ∃ t, gn_id n = node_id_of t (gn_user_id n) (gn_dataset_id n) (gn_data_id n) (gn_slug n).
Definition minted_edge (e : GraphEdge) : Prop :=
  ∃ t, ge_id e = edge_id_of t (ge_user_id e) (ge_dataset_id e) (ge_data_id e) (ge_source_node_id e)
                   (ge_relationship_name e) (ge_destination_node_id e).

Record ledger_ok (l : ledger) : Prop := {
  lo_nodes_keyed : keyed (lg_nodes l);
  lo_edges_keyed : keyed (lg_edges l);
  lo_nodes : Forall minted_node (lg_nodes l);
  lo_edges : Forall minted_edge (lg_edges l);
}.

(** Rows of one id say the same of their artifact. *)
Lemma minted_node_same n n' : v5_injective → minted_node n → minted_node n' → gn_id n = gn_id n' →
  gn_slug n = gn_slug n' ∧ gn_data_id n = gn_data_id n' ∧ gn_dataset_id n = gn_dataset_id n'.
Proof.
  intros Hinj [t Ht] [t' Ht'] Heq. rewrite Ht, Ht' in Heq. apply provenance_node_id_inj in Heq; [|done]. by simplify_eq.
Qed.

Lemma minted_edge_same e e' : v5_injective → minted_edge e → minted_edge e' → ge_id e = ge_id e' →
  ge_source_node_id e = ge_source_node_id e' ∧ ge_destination_node_id e = ge_destination_node_id e'
  ∧ ge_relationship_name e = ge_relationship_name e'.
Proof.
  intros Hinj [t Ht] [t' Ht'] Heq. rewrite Ht, Ht' in Heq. apply provenance_edge_id_inj in Heq; [|done]. by simplify_eq.
Qed.

(** What the ledger says after minted rows are upserted. *)
Lemma upsert_provenance_ok nodes edges l :
  ledger_ok l → Forall minted_node nodes → Forall minted_edge edges → ledger_ok (upsert_provenance_graph nodes edges l).
Proof.
  intros [Hkn Hke Hn He] Hnodes Hedges. rewrite Forall_forall in Hn. rewrite Forall_forall in He.
  rewrite Forall_forall in Hnodes. rewrite Forall_forall in Hedges. split; simpl.
  - by apply upsert_batches_keyed.
  - by apply upsert_batches_keyed.
  - apply Forall_forall. intros r [Hr|(row & base & Hrow & Hid & ->)]%upsert_rows_from; [by auto| |done].
    destruct (Hnodes row Hrow) as [t Ht]. exists t. simpl in Hid |- *. congruence.
  - apply Forall_forall. intros r [Hr|(row & base & Hrow & Hid & ->)]%upsert_rows_from; [by auto| |done].
    destruct (Hedges row Hrow) as [t Ht]. exists t. simpl in Hid |- *. congruence.
Qed.

(** An owner of an artifact remains, and every row given becomes an owner. *)
Lemma upsert_nodes_own nodes edges l n : v5_injective → ledger_ok l → Forall minted_node nodes →
  n ∈ lg_nodes l ∨ n ∈ nodes →
  ∃ n', n' ∈ lg_nodes (upsert_provenance_graph nodes edges l)
    ∧ gn_slug n' = gn_slug n ∧ gn_data_id n' = gn_data_id n ∧ gn_dataset_id n' = gn_dataset_id n.
Proof.
  intros Hinj [Hkn _ Hn _] Hnodes Hin. rewrite Forall_forall in Hn. rewrite Forall_forall in Hnodes. simpl.
  destruct Hin as [Hin|Hin].
  - destruct (upsert_rows_kept nodes (lg_nodes l) n Hkn Hin) as [Hkept|(row & Hrow & Hid & Hup)]; [by exists n|].
    eexists. split; [exact Hup|]. exact (minted_node_same row n Hinj (Hnodes _ Hrow) (Hn _ Hin) Hid).
  - destruct (upsert_rows_new nodes (lg_nodes l) n Hin) as (row & base & Hup & Hrow & Hid & _).
    eexists. split; [exact Hup|]. exact (minted_node_same row n Hinj (Hnodes _ Hrow) (Hnodes _ Hin) Hid).
Qed.

Lemma upsert_edges_own nodes edges l e : v5_injective → ledger_ok l → Forall minted_edge edges →
  e ∈ lg_edges l ∨ e ∈ edges →
  ∃ e', e' ∈ lg_edges (upsert_provenance_graph nodes edges l)
    ∧ ge_source_node_id e' = ge_source_node_id e ∧ ge_destination_node_id e' = ge_destination_node_id e
    ∧ ge_relationship_name e' = ge_relationship_name e.
Proof.
  intros Hinj [_ Hke _ He] Hedges Hin. rewrite Forall_forall in He. rewrite Forall_forall in Hedges. simpl.
  destruct Hin as [Hin|Hin].
  - destruct (upsert_rows_kept edges (lg_edges l) e Hke Hin) as [Hkept|(row & Hrow & Hid & Hup)]; [by exists e|].
    eexists. split; [exact Hup|]. exact (minted_edge_same row e Hinj (Hedges _ Hrow) (He _ Hin) Hid).
  - destruct (upsert_rows_new edges (lg_edges l) e Hin) as (row & base & Hup & Hrow & Hid & _).
    eexists. split; [exact Hup|]. exact (minted_edge_same row e Hinj (Hedges _ Hrow) (Hedges _ Hin) Hid).
Qed.

(** ** The rows of an extraction *)

Section rows.
Context (parse_str : string → option uuid) (now : Z) (entity_value : Entity → option json)
  (timestamp_value : Timestamp → option json) (id : LedgerIdentity) (chunk_data_map entity_data_map : gmap uuid uuid)
  (producers : ArtifactProducers).

Notation entity_rows := (entity_rows new_v5 parse_str now entity_value id chunk_data_map producers).
Notation timestamp_rows := (timestamp_rows new_v5 now timestamp_value id chunk_data_map producers).
Notation edge_rows := (edge_rows new_v5 now id chunk_data_map entity_data_map producers).

Lemma entity_rows_spec n r : r ∈ entity_rows n →
  minted_node r ∧ gn_slug r = np_id n ∧ gn_dataset_id r = li_dataset_id id
  ∧ gn_data_id r ∈ data_ids_or (default nil_uuid (stamped_data parse_str chunk_data_map (np_entity n)))
                     (producing_data_ids (entity_chunks producers (np_id n)) chunk_data_map).
Proof. intros (d & -> & Hd)%list_elem_of_fmap. split_and!; [by eexists|done|done|done]. Qed.

Lemma timestamp_rows_spec t r : r ∈ timestamp_rows t →
  minted_node r ∧ gn_slug r = tn_id t ∧ gn_dataset_id r = li_dataset_id id
  ∧ gn_data_id r ∈ data_ids_or nil_uuid (producing_data_ids (entity_chunks producers (tn_id t)) chunk_data_map).
Proof. intros (d & -> & Hd)%list_elem_of_fmap. split_and!; [by eexists|done|done|done]. Qed.

Lemma edge_rows_spec e r : r ∈ edge_rows e →
  minted_edge r ∧ ge_source_node_id r = ep_source_entity_id e ∧ ge_destination_node_id r = ep_target_entity_id e
  ∧ ge_relationship_name r = edge_row_text e.
Proof. intros (d & -> & Hd)%list_elem_of_fmap. split_and!; [by eexists|done|done|done]. Qed.

(** Every data item behind an artifact has a row for it, and there is always one. *)
Lemma entity_rows_data n d :
  d ∈ producing_data_ids (entity_chunks producers (np_id n)) chunk_data_map → ∃ r, r ∈ entity_rows n ∧ gn_data_id r = d.
Proof.
  intros Hd. unfold Ownership.entity_rows. cbv zeta. eexists. split.
  - apply list_elem_of_fmap_2, elem_of_data_ids_or, Hd.
  - done.
Qed.

Lemma timestamp_rows_data t d :
  d ∈ producing_data_ids (entity_chunks producers (tn_id t)) chunk_data_map → ∃ r, r ∈ timestamp_rows t ∧ gn_data_id r = d.
Proof.
  intros Hd. unfold Ownership.timestamp_rows. cbv zeta. eexists. split.
  - apply list_elem_of_fmap_2, elem_of_data_ids_or, Hd.
  - done.
Qed.

Lemma entity_rows_some n : ∃ r, r ∈ entity_rows n.
Proof.
  unfold Ownership.entity_rows. cbv zeta. edestruct data_ids_or_not_nil as [d Hd]. eexists. by apply list_elem_of_fmap_2.
Qed.
Lemma timestamp_rows_some t : ∃ r, r ∈ timestamp_rows t.
Proof.
  unfold Ownership.timestamp_rows. cbv zeta. edestruct data_ids_or_not_nil as [d Hd]. eexists. by apply list_elem_of_fmap_2.
Qed.
Lemma edge_rows_some e : ∃ r, r ∈ edge_rows e.
Proof.
  unfold Ownership.edge_rows. cbv zeta. edestruct data_ids_or_not_nil as [d Hd]. eexists. by apply list_elem_of_fmap_2.
Qed.
End rows.

Lemma elem_of_concat_map {A B} (f : A → list B) l y : y ∈ concat (map f l) ↔ ∃ x, x ∈ l ∧ y ∈ f x.
Proof.
  induction l as [|x l IH]; simpl; [split; [by intros ?%not_elem_of_nil|by intros (? & ?%not_elem_of_nil & _)]|].
  rewrite elem_of_app, IH. setoid_rewrite elem_of_cons. naive_solver.
Qed.

(** ** The stage *)

(** Every node of the graph has a row, and every edge one between its ends under its text. *)
Definition artifacts_owned (st : stores) : Prop :=
  (∀ id, id ∈ st_graph st → ∃ n, n ∈ lg_nodes (st_ledger st) ∧ gn_slug n = id)
  ∧ ∀ s r t, (s, r, t) ∈ st_graph_edges st →
      ∃ e, e ∈ lg_edges (st_ledger st) ∧ ge_source_node_id e = s ∧ ge_destination_node_id e = t
           ∧ (r = "contains" ∨ ge_relationship_name e = sanitize_string r).

Record stores_ok (st : stores) : Prop := {
  sk_ledger : ledger_ok (st_ledger st);
  sk_owned : artifacts_owned st;
}.

(** What an edge is in the graph. *)
Definition graph_edge (e : GraphEdgePair) : uuid * string * uuid :=
  (ep_source_entity_id e, ep_relationship_name e, ep_target_entity_id e).

Lemma edge_row_text_plain e : ep_relationship_name e = "contains" ∨ edge_row_text e = sanitize_string (ep_relationship_name e).
Proof. unfold edge_row_text. case_decide; [by left|by right]. Qed.

(** The ids of ownership rows tell owner, data item and artifact apart: two node
    rows, or two edge rows, have one id only if they agree on tenant, user, dataset, data
    item and artifact; an edge's artifact is its source, its text and its target. *)
Theorem provenance_ids_injective : v5_injective →
  (∀ t u d x n t' u' d' x' n', node_id_of t u d x n = node_id_of t' u' d' x' n' → (t, u, d, x, n) = (t', u', d', x', n'))
  ∧ (∀ t u d x source name target t' u' d' x' source' name' target',
       edge_id_of t u d x source name target = edge_id_of t' u' d' x' source' name' target' →
       (t, u, d, x, source, name, target) = (t', u', d', x', source', name', target')).
Proof.
  intros Hinj. split; intros; [by apply provenance_node_id_inj|by apply provenance_edge_id_inj].
Qed.
End ownership.
