(* ===== verification/OwnershipSpec.v ===== *)
(** * Extraction owns what it writes

    The writes of the extraction stage under any fault plan, and what the ownership
    rows mean to a deletion. *)

From S2P Require Import Prelude Json Strings Text DataPoint Models Ledger LedgerFacts Artifacts Sweep SweepFacts.
From S2P Require Import GraphTypes EdgeText Expansion ExpansionFacts EntityIds ExpansionSpec Ownership OwnershipFacts.
From Stdlib Require Import QArith.
#[local] Open Scope nat_scope.

Section ownership.
Context `{UuidFormat, !UuidFormatLaws, Lowercase} (new_v5 : uuid → string → uuid) (parse_str : string → option uuid)
  (now : Z) (entity_value : Entity → option json) (timestamp_value : Timestamp → option json).

Notation v5_injective := (v5_injective new_v5).
Notation stores_ok := (stores_ok new_v5).
Notation minted_node := (minted_node new_v5).
Notation minted_edge := (minted_edge new_v5).

(** ** The single writes *)

Lemma upsert_stores_ok nodes edges st : v5_injective → stores_ok st → Forall minted_node nodes → Forall minted_edge edges →
  stores_ok (with_ledger (upsert_provenance_graph nodes edges (st_ledger st)) st).
Proof.
  intros Hinj [Hl [Hn He]] Hnodes Hedges. split; [by apply upsert_provenance_ok|]. split; simpl.
  - intros id (n & Hin & <-)%Hn.
    destruct (upsert_nodes_own new_v5 nodes edges _ n Hinj Hl Hnodes (or_introl Hin)) as (n' & Hn' & Hslug & _). by exists n'.
  - intros s r t (e & Hin & <- & <- & Hr)%He.
    destruct (upsert_edges_own new_v5 nodes edges _ e Hinj Hl Hedges (or_introl Hin)) as (e' & He' & Hs & Ht & Hname).
    exists e'. split_and!; [done|done|done|]. destruct Hr as [?|Hr]; [by left|right; congruence].
Qed.

Lemma add_nodes_ok ids st : stores_ok st →
  (∀ id, id ∈ ids → ∃ n, n ∈ lg_nodes (st_ledger st) ∧ gn_slug n = id) → stores_ok (graph_add_nodes ids st).
Proof.
  intros [Hl [Hn He]] Hids. split; [done|]. split; [|done]. simpl.
  intros id [Hin|Hin%elem_of_list_to_set]%elem_of_union; auto.
Qed.

Lemma add_edges_ok edges st : stores_ok st →
  (∀ s r t, (s, r, t) ∈ edges → ∃ e, e ∈ lg_edges (st_ledger st) ∧ ge_source_node_id e = s
     ∧ ge_destination_node_id e = t ∧ (r = "contains" ∨ ge_relationship_name e = sanitize_string r)) →
  stores_ok (graph_add_edges edges st).
Proof.
  intros [Hl [Hn He]] Hedges. split; [done|]. split; [done|]. simpl.
  intros s r t [Hin|Hin%elem_of_list_to_set]%elem_of_union; auto.
Qed.

(** ** The stage *)

Section stage.
Context (id : LedgerIdentity) (chunks : list DocumentChunk) (entities : list GraphNodePair)
  (edges claimed : list GraphEdgePair) (timestamps : list TimestampNode) (producers : ArtifactProducers).
Let data_map := chunk_document_map chunks.
Let entity_map := entity_document_map parse_str entities data_map.
Notation entity_rows := (entity_rows new_v5 parse_str now entity_value id data_map producers).
Notation timestamp_rows := (timestamp_rows new_v5 now timestamp_value id data_map producers).
Notation edge_rows := (edge_rows new_v5 now id data_map entity_map producers).

(** A node row of the ledger that says what [r] says. *)
Definition says (l : ledger) (r : GraphNode) : Prop :=
  ∃ n, n ∈ lg_nodes l ∧ gn_slug n = gn_slug r ∧ gn_data_id n = gn_data_id r ∧ gn_dataset_id n = gn_dataset_id r.

(** The ownership of the extraction is in the ledger. *)
Record recorded (l : ledger) : Prop := {
  rc_entities : ∀ n r, n ∈ entities → r ∈ entity_rows n → says l r;
  rc_timestamps : ∀ t r, t ∈ timestamps → r ∈ timestamp_rows t → says l r;
  rc_edges : ∀ e, e ∈ edges ++ claimed → ∃ r, r ∈ lg_edges l ∧ ge_source_node_id r = ep_source_entity_id e
    ∧ ge_destination_node_id r = ep_target_entity_id e ∧ ge_relationship_name r = edge_row_text e;
}.

Lemma recorded_by_upsert l :
  let nodes := entity_provenance_rows new_v5 parse_str now entity_value id entities data_map producers
               ++ timestamp_provenance_rows new_v5 now timestamp_value id timestamps data_map producers in
  let rows := semantic_edge_provenance_rows new_v5 now id edges data_map entity_map producers
              ++ semantic_edge_provenance_rows new_v5 now id claimed data_map entity_map producers in
  v5_injective → ledger_ok new_v5 l →
  Forall minted_node nodes ∧ Forall minted_edge rows ∧ recorded (upsert_provenance_graph nodes rows l).
Proof.
  intros nodes rows Hinj Hl.
  assert (Hnode : ∀ r, r ∈ nodes ↔ (∃ n, n ∈ entities ∧ r ∈ entity_rows n) ∨ ∃ t, t ∈ timestamps ∧ r ∈ timestamp_rows t).
  { intros r. unfold nodes, entity_provenance_rows, timestamp_provenance_rows. by rewrite elem_of_app, !elem_of_concat_map. }
  assert (Hrow : ∀ r, r ∈ rows ↔ ∃ e, e ∈ edges ++ claimed ∧ r ∈ edge_rows e).
  { intros r. unfold rows, semantic_edge_provenance_rows. rewrite <-concat_app, <-map_app. by rewrite elem_of_concat_map. }
  assert (Hn : Forall minted_node nodes).
  { apply Forall_forall. intros r [(n & _ & Hr)|(t & _ & Hr)]%Hnode.
    - by apply (entity_rows_spec new_v5) in Hr as [? _].
    - by apply (timestamp_rows_spec new_v5) in Hr as [? _]. }
  assert (He : Forall minted_edge rows).
  { apply Forall_forall. intros r (e & _ & Hr)%Hrow. by apply (edge_rows_spec new_v5) in Hr as [? _]. }
  split_and!; [done|done|]. split.
  - intros n r Hin Hr. apply (upsert_nodes_own new_v5 nodes rows l r Hinj Hl Hn). right. apply Hnode. left. by exists n.
  - intros t r Hin Hr. apply (upsert_nodes_own new_v5 nodes rows l r Hinj Hl Hn). right. apply Hnode. right. by exists t.
  - intros e Hin. destruct (edge_rows_some new_v5 now id data_map entity_map producers e) as [r Hr].
    pose proof (edge_rows_spec new_v5 now id data_map entity_map producers e r Hr) as (_ & Hs & Ht & Hname).
    destruct (upsert_edges_own new_v5 nodes rows l r Hinj Hl He) as (r' & Hr' & Hs' & Ht' & Hname').
    { right. apply Hrow. by exists e. }
    exists r'. split_and!; congruence.
Qed.

(** What the stage leaves when it succeeds. *)
Record persisted (st st' : stores) : Prop := {
  pe_ok : stores_ok st';
  pe_recorded : recorded (st_ledger st');
  pe_graph : ∀ i, i ∈ st_graph st' ↔ i ∈ st_graph st ∨ i ∈ map np_id entities ∨ i ∈ map tn_id timestamps;
  pe_edges : ∀ x, x ∈ st_graph_edges st' ↔ x ∈ st_graph_edges st ∨ x ∈ map graph_edge edges;
}.

(** The last write, once the nodes are there. *)
Lemma persist_edges_dwp w st1 w3 : stores_ok (dw_stores w3) → recorded (st_ledger st1) → (quiet w → quiet w3) →
  st_ledger (dw_stores w3) = st_ledger st1 → st_graph_edges (dw_stores w3) = st_graph_edges (dw_stores w) →
  (∀ i, i ∈ st_graph (dw_stores w3) ↔ i ∈ st_graph (dw_stores w) ∨ i ∈ map np_id entities ∨ i ∈ map tn_id timestamps) →
  dwp (command (graph_add_edges (map graph_edge edges))) (λ _ w', persisted (dw_stores w) (dw_stores w'))
    (λ _ w', ¬ quiet w ∧ stores_ok (dw_stores w')) w3.
Proof.
  intros Hok Hrec Hq Hl He Hg. assert (Hok' : stores_ok (graph_add_edges (map graph_edge edges) (dw_stores w3))).
  { apply add_edges_ok; [done|]. intros s r t (e & Heq & Hin)%list_elem_of_fmap. injection Heq as -> -> ->. rewrite Hl.
    destruct (rc_edges _ Hrec e) as (row & Hrow & Hs & Ht & Hname); [apply elem_of_app; by left|].
    exists row. split_and!; [done|done|done|]. rewrite Hname. apply edge_row_text_plain. }
  apply dwp_command; [|by intros e plan st Hq' [->| ->]; (split; [auto|])].
  intros plan _. split; [done| |done|]; simpl.
  - by rewrite Hl.
  - intros x. by rewrite elem_of_union, elem_of_list_to_set, He.
Qed.

Lemma persist_extraction_dwp w : v5_injective → stores_ok (dw_stores w) →
  dwp (persist_extraction new_v5 parse_str now entity_value timestamp_value id chunks entities edges claimed timestamps producers)
    (λ _ w', persisted (dw_stores w) (dw_stores w'))
    (λ _ w', ¬ quiet w ∧ stores_ok (dw_stores w')) w.
Proof.
  intros Hinj Hok. destruct (recorded_by_upsert _ Hinj (sk_ledger _ _ Hok)) as (Hmn & Hme & Hrec).
  unfold persist_extraction. apply dwp_bind. unfold record_extraction_ownership. cbv zeta. fold data_map entity_map.
  pose proof (upsert_stores_ok _ _ _ Hinj Hok Hmn Hme) as Hok1. set (st1 := with_ledger _ (dw_stores w)) in Hok1.
  apply dwp_command; [|by intros e plan st Hq [->| ->]]. intros plan1 Hq1. fold st1.
  assert (Hslug : ∀ r, says (st_ledger st1) r → ∃ n, n ∈ lg_nodes (st_ledger st1) ∧ gn_slug n = gn_slug r).
  { intros r (n & Hn & Hs & _). by exists n. }
  assert (Hok2 : stores_ok (graph_add_nodes (map np_id entities) st1)).
  { apply add_nodes_ok; [done|]. intros i (n & -> & Hn)%list_elem_of_fmap.
    destruct (entity_rows_some new_v5 parse_str now entity_value id data_map producers n) as [r Hr].
    pose proof (entity_rows_spec new_v5 parse_str now entity_value id data_map producers n r Hr) as (_ & <- & _).
    by apply Hslug, (rc_entities _ Hrec n). }
  apply dwp_bind, dwp_command; [|intros e plan st Hq [->| ->]; (split; [naive_solver|done])]. intros plan2 Hq2.
  set (st2 := graph_add_nodes (map np_id entities) st1) in *.
  assert (Hok3 : stores_ok (graph_add_nodes (map tn_id timestamps) st2)).
  { apply add_nodes_ok; [done|]. intros i (t & -> & Ht)%list_elem_of_fmap.
    destruct (timestamp_rows_some new_v5 now timestamp_value id data_map producers t) as [r Hr].
    pose proof (timestamp_rows_spec new_v5 now timestamp_value id data_map producers t r Hr) as (_ & <- & _).
    by apply Hslug, (rc_timestamps _ Hrec t). }
  apply dwp_bind. case_decide as Hnone.
  - apply dwp_ret. apply (persist_edges_dwp w st1); [done|done| |done|done|].
    + intros Hq. apply Hq2, Hq1, Hq.
    + intros i. simpl. rewrite elem_of_union, elem_of_list_to_set, Hnone. simpl. rewrite elem_of_nil. tauto.
  - apply dwp_command; [|intros e plan st Hq [->| ->]; (split; [|done])].
    + intros plan3 Hq3. apply (persist_edges_dwp w st1); [done|done| |done|done|].
      * intros Hq. apply Hq3, Hq2, Hq1, Hq.
      * intros i. simpl. rewrite !elem_of_union, !elem_of_list_to_set. tauto.
    + intros Hw. apply Hq, Hq2, Hq1, Hw.
    + intros Hw. apply Hq, Hq2, Hq1, Hw.
Qed.
End stage.

(** ** From the graphs to the stores *)

Lemma linked_document_map links chunks : chunk_document_map (map (link_chunk links) chunks) = chunk_document_map chunks.
Proof.
  unfold chunk_document_map. generalize (∅ : gmap uuid uuid). induction chunks as [|c chunks IH]; intros m; simpl; [done|].
  rewrite IH. f_equal. unfold link_chunk. by destruct (links !! dc_id c).
Qed.

Context (clock : string → chunk_env) (parse_time_period : string → option TimePeriod) (resolver : OntologyResolver)
  (tenant_id user_id : option uuid) (dataset_id : uuid) (pipeline_run_id : option uuid)
  (user_label_override : option string) (task_rank : option Z) (chunks_for_extraction surviving : list DocumentChunk)
  (graphs : list (uuid * KnowledgeGraph)).

Notation integrate := (integrate_graphs new_v5 parse_str now entity_value timestamp_value clock parse_time_period resolver
  tenant_id user_id dataset_id pipeline_run_id user_label_override task_rank chunks_for_extraction surviving graphs).
Notation identity := (LedgerIdentity_new tenant_id user_id dataset_id pipeline_run_id).
Notation expand existing := (expand_extracted_graphs new_v5 clock parse_time_period dataset_id
  (chunk_node_sets chunks_for_extraction) (chunk_importance_weights chunks_for_extraction) existing resolver
  match user_label_override with Some s => Some s | None => uuid_to_string <$> user_id end task_rank graphs).

(** A success: the result of the expansion, deduplicated and written. *)
Record integrated (st : stores) (ig : IntegratedGraph) (st' : stores) : Prop := {
  it_expansion : ∃ existing ex, expand existing = Some ex ∧ ig_timestamps ig = ex_timestamps ex
    ∧ ig_producers ig = ex_producers ex ∧ ig_entities ig = (deduplicate_nodes_and_edges (ex_nodes ex) (ex_edges ex)).1;
  it_persisted : ∃ chunks claimed, chunk_document_map chunks = chunk_document_map surviving
    ∧ persisted identity chunks (ig_entities ig) (ig_edges ig) claimed (ig_timestamps ig) (ig_producers ig) st st';
}.

Lemma integrate_dwp w : v5_injective → stores_ok (dw_stores w) →
  dwp integrate (λ ig w', integrated (dw_stores w) ig (dw_stores w')) (λ _ w', ¬ quiet w ∧ stores_ok (dw_stores w')) w.
Proof.
  intros Hinj Hok. unfold integrate_graphs. apply dwp_bind.
  assert (Hrest : ∀ existing w', (quiet w → quiet w') → dw_stores w' = dw_stores w →
    dwp (match expand existing with
         | None => fail "panic"
         | Some ex =>
             let '(unique_nodes, unique_edges) := deduplicate_nodes_and_edges (ex_nodes ex) (ex_edges ex) in
             let unique_edges := stamp_extracted_edge_text parse_str unique_nodes unique_edges (ex_timestamps ex) in
             let links := chunk_entity_links parse_str unique_nodes (ex_timestamps ex) (ex_producers ex) in
             let updated_chunks := map (link_chunk links) surviving in
             persist_extraction new_v5 parse_str now entity_value timestamp_value identity updated_chunks unique_nodes
               unique_edges (ex_claimed_existing_edges ex) (ex_timestamps ex) (ex_producers ex);;
             mret {| ig_chunks := updated_chunks; ig_entities := unique_nodes; ig_timestamps := ex_timestamps ex;
                     ig_edges := unique_edges; ig_producers := ex_producers ex |}
         end)
        (λ ig w'', integrated (dw_stores w) ig (dw_stores w'')) (λ _ w'', ¬ quiet w ∧ stores_ok (dw_stores w'')) w').
  { intros existing w' Hq Hst.
    destruct (expand_state new_v5 clock parse_time_period dataset_id (chunk_node_sets chunks_for_extraction)
                (chunk_importance_weights chunks_for_extraction) existing resolver
                match user_label_override with Some s => Some s | None => uuid_to_string <$> user_id end task_rank graphs)
      as (xs & _ & Hex & _). rewrite Hex.
    destruct (deduplicate_nodes_and_edges _ _) as [unique_nodes unique_edges] eqn:Hdedup. cbv zeta.
    apply dwp_bind. rewrite <-Hst in Hok. eapply dwp_mono; [by apply persist_extraction_dwp| |].
    - intros [] w'' Hp. apply dwp_ret. rewrite Hst in Hp. split.
      + exists existing. eexists. split_and!; [exact Hex|done|done|by rewrite Hdedup].
      + eexists _, _. split; [apply linked_document_map|exact Hp].
    - intros _ w'' [Hnq Hok']. split; [auto|done]. }
  unfold retrieve_existing_edges. cbv zeta. case_decide.
  - apply dwp_ret, Hrest; done.
  - apply dwp_bind, dwp_query.
    + intros plan Hq. apply dwp_ret, Hrest; [|done]. done.
    + intros e plan Hq. done.
Qed.

Notation run w := (integrate w).

(** C26: Whatever call fails, no entity, timestamp or edge is in the graph without a row
    of the ledger that names it: a stage that starts with every node and edge of the graph
    owned ends so.  It fails only if a call does, and when it succeeds everything it
    returns is in the graph. *)
Theorem extraction_owned_first w : v5_injective → stores_ok (dw_stores w) →
  stores_ok (dw_stores (run w).2)
  ∧ match (run w).1 with
    | Ok ig => (∀ i, i ∈ st_graph (dw_stores (run w).2) ↔
                  i ∈ st_graph (dw_stores w) ∨ i ∈ map np_id (ig_entities ig) ∨ i ∈ map tn_id (ig_timestamps ig))
               ∧ (∀ x, x ∈ st_graph_edges (dw_stores (run w).2) ↔
                  x ∈ st_graph_edges (dw_stores w) ∨ x ∈ map graph_edge (ig_edges ig))
    | Err _ => dw_plan w ≠ []
    end.
Proof.
  intros Hinj Hok. pose proof (integrate_dwp w Hinj Hok) as Hrun. unfold dwp in Hrun.
  destruct (integrate w) as [[ig|e] w']; simpl; [|by destruct Hrun].
  destruct Hrun as [_ (chunks & claimed & _ & [Hok' _ Hg He])]. done.
Qed.

(** A row that says who owns what. *)
Definition owns (l : ledger) (data_id slug : uuid) : Prop :=
  ∃ n, n ∈ lg_nodes l ∧ gn_slug n = slug ∧ gn_data_id n = data_id ∧ gn_dataset_id n = dataset_id.

(** An artifact with an owner besides [data_id] is not among those only [data_id] has. *)
Lemma shared_not_unique l data_id data_id' slug row :
  owns l data_id' slug → data_id' ≠ data_id → row ∈ unique_rows_for_data data_id dataset_id (lg_nodes l) → gn_slug row ≠ slug.
Proof.
  intros (n & Hn & Hs & Hd & Hds) Hne Hrow Heq. apply list_elem_of_filter in Hrow as [[_ Hno] _]. apply Hno.
  apply Exists_exists. exists n. simpl. rewrite Hs, Heq. split_and!; [done|done|]. split; simpl; congruence.
Qed.

(** The documents of the chunks that produced an entity own it. *)
Lemma producer_owns st ig st' chunk np : integrated st ig st' → own_chunk_id surviving chunk → chunk ∈ surviving →
  np ∈ ig_entities ig → dc_id chunk ∈ entity_chunks (ig_producers ig) (np_id np) →
  owns (st_ledger st') (dc_document_id chunk) (np_id np).
Proof.
  intros [_ (chunks & claimed & Hmap & [_ Hrec _ _])] Hnd Hchunk Hnp Hc.
  destruct (entity_rows_data new_v5 parse_str now entity_value identity (chunk_document_map chunks) (ig_producers ig) np
              (dc_document_id chunk)) as (r & Hr & Hdata).
  { apply elem_of_producing_data_ids. exists (dc_id chunk). split; [done|]. rewrite Hmap. by apply chunk_document_map_lookup. }
  pose proof (entity_rows_spec new_v5 parse_str now entity_value identity (chunk_document_map chunks) (ig_producers ig) np r Hr)
    as (_ & Hslug & Hds & _).
  destruct (rc_entities _ _ _ _ _ _ _ _ Hrec np r Hnp Hr) as (n & Hn & Hs' & Hd' & Hds'). exists n.
  split_and!; [done|congruence|congruence|]. rewrite Hds', Hds. done.
Qed.

Context `{!LowercaseLaws}.

(** C27: Suppose version 5 ids do not collide, the graph's nodes and edges are owned, and
    two chunks of different documents, neither with an id that a chunk of another
    document shares, each name a thing by a node that is alone with its name in its
    chunk's graph and is not read as a timestamp, the two names being one up to case,
    spaces and apostrophes.  Then a stage that succeeds leaves one entity for it in the
    graph, both documents own it, and what a deletion of either document takes for its
    own does not include it. *)
Theorem shared_entity_survives_deletion w ig w' chunk g node chunk' g' node' :
  v5_injective → stores_ok (dw_stores w) → run w = (Ok ig, w') → own_chunk_id surviving chunk → own_chunk_id surviving chunk' →
  chunk ∈ surviving → chunk' ∈ surviving → dc_document_id chunk ≠ dc_document_id chunk' →
  (dc_id chunk, g) ∈ graphs → (dc_id chunk', g') ∈ graphs → alone new_v5 g node → alone new_v5 g' node' →
  as_timestamp new_v5 clock parse_time_period node = None → as_timestamp new_v5 clock parse_time_period node' = None →
  normalize_identifier (nd_name node) = normalize_identifier (nd_name node') →
  ∃ np, np ∈ ig_entities ig ∧ np_id np ∈ st_graph (dw_stores w')
    ∧ ∀ document row, document = dc_document_id chunk ∨ document = dc_document_id chunk' →
        owns (st_ledger (dw_stores w')) document (np_id np)
        ∧ (row ∈ unique_rows_for_data document dataset_id (lg_nodes (st_ledger (dw_stores w'))) → gn_slug row ≠ np_id np).
Proof.
  intros Hinj Hok Hw Hnd Hnd' Hc Hc' Hdocs Hg Hg' Ha Ha' Hts Hts' Hname.
  pose proof (integrate_dwp w Hinj Hok) as Hrun. unfold dwp in Hrun. rewrite Hw in Hrun.
  destruct (it_expansion _ _ _ Hrun) as (existing & ex & Hex & _ & Hprod & Hents).
  destruct (expand_state new_v5 clock parse_time_period dataset_id (chunk_node_sets chunks_for_extraction)
              (chunk_importance_weights chunks_for_extraction) existing resolver
              match user_label_override with Some s => Some s | None => uuid_to_string <$> user_id end task_rank graphs)
    as (xs & _ & Hex' & Hxs & _).
  rewrite Hex in Hex'. injection Hex' as ->.
  destruct (alone_shared new_v5 clock parse_time_period dataset_id existing graphs xs _ g node _ g' node' Hxs Hg Hg' Ha Ha'
              Hts Hts' Hname) as (np & Hnp & Hp & Hp').
  assert (Hid : np_id np ∈ map np_id (ig_entities ig)).
  { rewrite Hents. apply dedup_nodes_ids. by apply (list_elem_of_fmap_2 np_id). }
  apply list_elem_of_fmap in Hid as (np1 & Heq & Hnp1). exists np1. rewrite Heq in Hp, Hp'.
  assert (Hown : owns (st_ledger (dw_stores w')) (dc_document_id chunk) (np_id np1)).
  { eapply producer_owns; [done|done|done|done|]. by rewrite Hprod. }
  assert (Hown' : owns (st_ledger (dw_stores w')) (dc_document_id chunk') (np_id np1)).
  { eapply producer_owns; [done|done|done|done|]. by rewrite Hprod. }
  split_and!; [done| |].
  - destruct (it_persisted _ _ _ Hrun) as (? & ? & _ & [_ _ Hgraph _]). apply Hgraph. right. left.
    by apply (list_elem_of_fmap_2 np_id).
  - intros document row [->| ->]; (split; [done|]).
    + apply (shared_not_unique _ _ (dc_document_id chunk')); [done|]. by apply not_eq_sym.
    + by apply (shared_not_unique _ _ (dc_document_id chunk)).
Qed.
End ownership.

(** ** A run of the stage

    The graphs of ExpansionSpec, from chunks of two documents. *)

#[local] Instance own_format : UuidFormat := decimal_format.
#[local] Instance own_lowercase : Lowercase := ascii_lowercase.
#[local] Instance own_format_laws : UuidFormatLaws := decimal_format_laws.
#[local] Instance own_lowercase_laws : LowercaseLaws := ascii_lowercase_laws.

Definition own_chunk (id document_id : uuid) : DocumentChunk :=
  DocumentChunk_new uuid_to_string (ex_clock "") id [] 0 0 "sentence_end" document_id.
Definition own_chunks : list DocumentChunk := [own_chunk 1%N 11%N; own_chunk 2%N 12%N].

Definition own_empty : stores := {|
  st_ledger := {| lg_nodes := []; lg_edges := [] |}; st_data := ∅; st_graph := ∅; st_graph_edges := ∅;
  st_vectors := ∅; st_dataset_storage := ∅ |}.

Definition own_world (st : stores) (plan : list (option failure)) : delete_world :=
  {| dw_stores := st; dw_plan := plan; dw_outcome := SweepOutcome_default |}.

Definition own_stage (w : delete_world) : result string IntegratedGraph * delete_world :=
  integrate_graphs ex_id (λ _, None) 5%Z (λ _, None) (λ _, None) ex_clock ex_parse_time ex_resolver
    None (Some 3%N) 9%N (Some 4%N) None None own_chunks own_chunks ex_graphs w.

Lemma own_injective : v5_injective ex_id.
Proof. intros s t. apply ex_id_inj. Qed.

Lemma own_empty_ok : stores_ok ex_id own_empty.
Proof.
  split; [split; simpl; constructor|]. split; simpl.
  - intros id Hid. by apply elem_of_empty in Hid.
  - intros s r t Hst. by apply elem_of_empty in Hst.
Qed.

Definition own_faults : list (option failure) := [None; None; Some (Refused "disk full")].

Lemma provenance_ids_injective_witness :
  v5_injective ex_id
  ∧ (provenance_node_id ex_id None 3%N 9%N 11%N 5%N = provenance_node_id ex_id None 3%N 9%N 12%N 5%N → False).
Proof.
  split; [exact own_injective|]. intros Heq.
  pose proof (proj1 (provenance_ids_injective ex_id own_injective) _ _ _ _ _ _ _ _ _ _ Heq) as Hd. discriminate Hd.
Defined.

Lemma extraction_owned_first_witness :
  stores_ok ex_id (dw_stores (own_stage (own_world own_empty own_faults)).2)
  ∧ (own_stage (own_world own_empty own_faults)).1 = Err "disk full"
  ∧ length (lg_nodes (st_ledger (dw_stores (own_stage (own_world own_empty own_faults)).2))) = 4.
Proof.
  split.
  - refine (proj1 (extraction_owned_first ex_id (λ _, None) 5%Z (λ _, None) (λ _, None) ex_clock ex_parse_time ex_resolver
             None (Some 3%N) 9%N (Some 4%N) None None own_chunks own_chunks ex_graphs (own_world own_empty own_faults)
             own_injective own_empty_ok)).
  - split; vm_compute; reflexivity.
Defined.

Lemma own_stage_succeeds : (if (own_stage (own_world own_empty [])).1 then true else false) = true.
Proof. vm_compute. reflexivity. Qed.

Definition own_after : stores := dw_stores (own_stage (own_world own_empty [])).2.

Lemma shared_entity_survives_deletion_witness :
  ∃ ig w', own_stage (own_world own_empty []) = (Ok ig, w')
  ∧ ∃ np, np ∈ ig_entities ig ∧ np_id np ∈ st_graph (dw_stores w')
    ∧ ∀ document row, document = 11%N ∨ document = 12%N →
        owns 9%N (st_ledger (dw_stores w')) document (np_id np)
        ∧ (row ∈ unique_rows_for_data document 9%N (lg_nodes (st_ledger (dw_stores w'))) → gn_slug row ≠ np_id np).
Proof.
  pose proof own_stage_succeeds as Hok.
  destruct (own_stage (own_world own_empty [])) as [[ig|e] w'] eqn:Hrun; [clear Hok|discriminate Hok].
  exists ig, w'. split; [done|]. unfold own_stage in Hrun.
  apply (shared_entity_survives_deletion ex_id (λ _, None) 5%Z (λ _, None) (λ _, None) ex_clock ex_parse_time ex_resolver
           None (Some 3%N) 9%N (Some 4%N) None None own_chunks own_chunks ex_graphs (own_world own_empty []) ig w'
           (own_chunk 1%N 11%N) ex_first (ex_node "marie" "Marie Curie" "Person")
           (own_chunk 2%N 12%N) ex_second (ex_node "mc" "marie curie" "Scientist")
           own_injective own_empty_ok Hrun); try reflexivity.
  - intros c [->|[->|[]%not_elem_of_nil]%elem_of_cons]%elem_of_cons Hid; [reflexivity|discriminate Hid].
  - intros c [->|[->|[]%not_elem_of_nil]%elem_of_cons]%elem_of_cons Hid; [discriminate Hid|reflexivity].
  - left.
  - right. left.
  - vm_compute. discriminate.
  - left.
  - right. left.
  - split; [left|]. replace (first_by_id ∅ (kg_nodes ex_first)) with (kg_nodes ex_first) by (vm_compute; reflexivity).
    intros n [->|[->|[->|[]%not_elem_of_nil]%elem_of_cons]%elem_of_cons]%elem_of_cons; [done|..];
      intros Heq; vm_compute in Heq; discriminate Heq.
  - split; [left|]. replace (first_by_id ∅ (kg_nodes ex_second)) with (kg_nodes ex_second) by (vm_compute; reflexivity).
    by intros n [->|[]%not_elem_of_nil]%elem_of_cons.
Defined.

(** *** What the stage does not protect *)

Definition own_marie : uuid := Entity_id_for ex_id "Marie Curie".
Definition own_paris : uuid := Entity_id_for ex_id "Paris".

(** An edge a chunk of document 12 drew to an entity only document 11 declares: the edge
    has a row of document 12, but the entity none, so a deletion of document 11 takes the
    entity for its own, and with the node goes the edge. *)
Lemma edge_end_not_shared :
  (own_marie, "works_in", own_paris) ∈ st_graph_edges own_after
  ∧ Forall (λ e, ge_label e = Some "works_in" → ge_data_id e = 12%N) (lg_edges (st_ledger own_after))
  ∧ own_paris ∈ map gn_slug (unique_rows_for_data 11%N 9%N (lg_nodes (st_ledger own_after)))
  ∧ (own_marie, "works_in", own_paris) ∉ st_graph_edges (graph_delete_nodes {[own_paris]} own_after).
Proof. split_and!; (refine (bool_decide_unpack _ _); vm_compute; exact I). Qed.

(** The graph has the edge that the same graphs draw again, but the lookup, which keys
    its ends by node id and not by name, does not find it. *)
Lemma written_edge_not_found :
  (own_marie, "lives_in", own_paris) ∈ st_graph_edges own_after
  ∧ (retrieve_existing_edges ex_id (map snd ex_graphs) (own_world own_after [])).1 = Ok ∅.
Proof. split; [refine (bool_decide_unpack _ _); vm_compute; exact I|vm_compute; reflexivity]. Qed.
