(* ===== verification/DynamicWalk.v ===== *)
(** * The storage walk of custom graphs (crates/cognify/src/dynamic_graph.rs)

    The data points a custom model's answer is made of, the resolution of transparent
    containers, and the walk that says which nodes and edges of the answers of a batch
    are stored.  Recursion is on fuel; [DynamicWalkFacts] shows that the number of nodes
    is enough.  The grouping of answers into batches and their attachment to chunks are
    functions of tasks.rs. *)

From S2P Require Import Prelude Json Strings DataPoint Models Config GraphTypes EdgeText.
#[local] Open Scope nat_scope.

(** ** Data *)

Record DynamicDataPoint := {
  dy_occurrence_id : uuid;
  dy_base : DataPoint;
  dy_properties : gmap string json;
  dy_property_strs : gmap string string;
  dy_index_fields : list string;
  dy_transparent : bool;
}.

Definition dy_id (n : DynamicDataPoint) : uuid := dp_id (dy_base n).

Record DynamicRelationship := { dr_source : uuid; dr_target : uuid; dr_field_name : string }.

#[export] Instance DynamicRelationship_eq_dec : EqDecision DynamicRelationship.
Proof. solve_decision. Defined.
#[export] Instance DynamicRelationship_countable : Countable DynamicRelationship.
Proof.
  refine (inj_countable' (λ r, (dr_source r, dr_target r, dr_field_name r))
            (λ '(s, t, f), {| dr_source := s; dr_target := t; dr_field_name := f |}) _).
  by intros [].
Defined.

Record DynamicGraph := {
  dg_root : uuid;
  dg_root_occurrence : uuid;
  dg_nodes : list DynamicDataPoint;
  dg_relationships : list DynamicRelationship;
}.

Record StoredDynamicGraph := {
  sg_nodes : list DynamicDataPoint;
  sg_relationships : list DynamicRelationship;
}.

(** [to_graph_value]; [base_value] is what serde makes of the base. *)
Definition to_graph_value (base_value : DataPoint → option json) (n : DynamicDataPoint) : json :=
  JObject (dy_properties n ∪ match base_value (dy_base n) with Some (JObject map) => map | _ => ∅ end).

(** [index_field_texts] *)
Definition index_field_texts `{SerdeJson} (n : DynamicDataPoint) : list (string * string) :=
  omap (λ field,
          value ← dy_properties n !! field;
          text ← match value with JNull => None | JString text => Some (trim text) | v => Some (json_to_string v) end;
          if decide (text = "") then None else Some (field, text))
    (dy_index_fields n).

(** [index_field_strs] *)
Definition index_field_strs (n : DynamicDataPoint) : list string :=
  omap (λ field,
          value ← dy_property_strs n !! field;
          let text := trim value in if decide (text = "") then None else Some text)
    (dy_index_fields n).

(** [embeddable_text] *)
Definition embeddable_text (n : DynamicDataPoint) : string := join " " (index_field_strs n).

(** [label] *)
Definition dy_label (n : DynamicDataPoint) : string :=
  match index_field_strs n with
  | text :: _ => trim_preview text
  | [] =>
      match dy_property_strs n !! "name" with
      | Some name => if decide (trim name = "") then dp_data_type (dy_base n) else trim name
      | None => dp_data_type (dy_base n)
      end
  end.

(** ** Lookups *)

Record GraphIndex := {
  gi_nodes : gmap uuid DynamicDataPoint;
  gi_relationships : list DynamicRelationship;
}.

(** [GraphIndex::new] *)
Definition GraphIndex_new (graph : DynamicGraph) : GraphIndex := {|
  gi_nodes := foldl (λ m n, <[dy_occurrence_id n := n]> m) ∅ (dg_nodes graph);
  gi_relationships := dg_relationships graph |}.

(** [GraphIndex::outgoing] *)
Definition outgoing (index : GraphIndex) (occurrence : uuid) : list DynamicRelationship :=
  filter (λ r, dr_source r = occurrence) (gi_relationships index).

(** ** Transparent containers *)

Record TransparentResolution := {
  tr_active : gset uuid;
  tr_expanded : gset uuid;
  tr_seen_ids : gset uuid;
  tr_resolved : list uuid;
}.

Definition TransparentResolution_default : TransparentResolution :=
  {| tr_active := ∅; tr_expanded := ∅; tr_seen_ids := ∅; tr_resolved := [] |}.

Section index.
Context (index : GraphIndex).

(** A target that is a stored node. *)
Definition resolve_stored (target : uuid) (node : DynamicDataPoint) (s : TransparentResolution) : TransparentResolution :=
  if decide (dy_id node ∈ tr_seen_ids s) then s
  else {| tr_active := tr_active s; tr_expanded := tr_expanded s;
          tr_seen_ids := {[dy_id node]} ∪ tr_seen_ids s; tr_resolved := tr_resolved s ++ [target] |}.

(** One relationship of a container. *)
Definition resolve_relationship (resolve : uuid → TransparentResolution → option TransparentResolution)
    (relationship : DynamicRelationship) (s : TransparentResolution) : option TransparentResolution :=
  match gi_nodes index !! dr_target relationship with
  | Some target => if dy_transparent target then resolve (dr_target relationship) s
                   else Some (resolve_stored (dr_target relationship) target s)
  | None => Some s
  end.

(** [TransparentResolution::resolve] *)
Fixpoint resolve (fuel : nat) (container : uuid) (s : TransparentResolution) : option TransparentResolution :=
  match fuel with
  | 0 => None
  | S fuel =>
      if decide (container ∈ tr_expanded s ∨ container ∈ tr_active s) then Some s
      else
        s ← fold_steps (resolve_relationship (resolve fuel)) (outgoing index container)
              {| tr_active := {[container]} ∪ tr_active s; tr_expanded := tr_expanded s;
                 tr_seen_ids := tr_seen_ids s; tr_resolved := tr_resolved s |};
        Some {| tr_active := tr_active s ∖ {[container]}; tr_expanded := {[container]} ∪ tr_expanded s;
                tr_seen_ids := tr_seen_ids s; tr_resolved := tr_resolved s |}
  end.

(** A call of depth more than this stops at a container it is in already. *)
Definition walk_fuel : nat := S (S (size (gi_nodes index))).

(** [transparent_children] *)
Definition transparent_children (container : uuid) : option (list uuid) :=
  tr_resolved <$> resolve walk_fuel container TransparentResolution_default.

(** ** The walk *)

(** The walker with the claims it shares. *)
Record DynamicWalker := {
  wk_claimed_nodes : gset uuid;
  wk_claimed_edges : gset DynamicRelationship;
  wk_nodes : list DynamicDataPoint;
  wk_relationships : list DynamicRelationship;
}.

Definition claim_node (node : DynamicDataPoint) (w : DynamicWalker) : DynamicWalker :=
  {| wk_claimed_nodes := {[dy_id node]} ∪ wk_claimed_nodes w; wk_claimed_edges := wk_claimed_edges w;
     wk_nodes := wk_nodes w ++ [node]; wk_relationships := wk_relationships w |}.

Definition claim_edge (stored : DynamicRelationship) (w : DynamicWalker) : DynamicWalker :=
  if decide (stored ∈ wk_claimed_edges w) then w
  else {| wk_claimed_nodes := wk_claimed_nodes w; wk_claimed_edges := {[stored]} ∪ wk_claimed_edges w;
          wk_nodes := wk_nodes w; wk_relationships := wk_relationships w ++ [stored] |}.

(** The stored occurrences a relationship leads to. *)
Definition targets_of (relationship : DynamicRelationship) : option (list uuid) :=
  match gi_nodes index !! dr_target relationship with
  | Some target => if dy_transparent target then transparent_children (dr_target relationship)
                   else Some [dr_target relationship]
  | None => Some [dr_target relationship]
  end.

(** The edge from a node to an occurrence, and what is behind it. *)
Definition visit_target (walk : uuid → DynamicWalker → option DynamicWalker) (node : DynamicDataPoint) (field_name : string)
    (target : uuid) (w : DynamicWalker) : option DynamicWalker :=
  match gi_nodes index !! target with
  | None => Some w
  | Some target_node =>
      let w := claim_edge {| dr_source := dy_id node; dr_target := dy_id target_node; dr_field_name := field_name |} w in
      if decide (dy_id target_node ∈ wk_claimed_nodes w) then Some w else walk target w
  end.

Definition visit_relationship (walk : uuid → DynamicWalker → option DynamicWalker) (node : DynamicDataPoint)
    (relationship : DynamicRelationship) (w : DynamicWalker) : option DynamicWalker :=
  targets ← targets_of relationship;
  fold_steps (visit_target walk node (dr_field_name relationship)) targets w.

(** [DynamicWalker::walk] *)
Fixpoint walk (fuel : nat) (occurrence : uuid) (w : DynamicWalker) : option DynamicWalker :=
  match fuel with
  | 0 => None
  | S fuel =>
      match gi_nodes index !! occurrence with
      | None => Some w
      | Some node =>
          if dy_transparent node then
            children ← transparent_children occurrence;
            fold_steps (walk fuel) children w
          else if decide (dy_id node ∈ wk_claimed_nodes w) then Some w
          else fold_steps (visit_relationship (walk fuel) node) (outgoing index occurrence) (claim_node node w)
      end
  end.
End index.

(** The claims a batch shares. *)
Record DynamicWalkState := {
  ws_claimed_nodes : gset uuid;
  ws_claimed_edges : gset DynamicRelationship;
}.

Definition DynamicWalkState_default : DynamicWalkState := {| ws_claimed_nodes := ∅; ws_claimed_edges := ∅ |}.

(** [DynamicGraph::walk_from] *)
Definition walk_from (graph : DynamicGraph) (roots : list uuid) (state : DynamicWalkState)
    : option (StoredDynamicGraph * DynamicWalkState) :=
  let index := GraphIndex_new graph in
  w ← fold_steps (walk index (walk_fuel index)) roots
        {| wk_claimed_nodes := ws_claimed_nodes state; wk_claimed_edges := ws_claimed_edges state;
           wk_nodes := []; wk_relationships := [] |};
  Some ({| sg_nodes := wk_nodes w; sg_relationships := wk_relationships w |},
        {| ws_claimed_nodes := wk_claimed_nodes w; ws_claimed_edges := wk_claimed_edges w |}).

(** [DynamicGraph::stored_graph] *)
Definition stored_graph (graph : DynamicGraph) : option StoredDynamicGraph :=
  fst <$> walk_from graph [dg_root_occurrence graph] DynamicWalkState_default.

(** ** Attachment *)

(** [DynamicGraph::direct_attachment_targets] *)
Definition node_ids (index : GraphIndex) (occurrences : list uuid) : list uuid :=
  omap (λ occurrence, option_map dy_id (gi_nodes index !! occurrence)) occurrences.

Definition direct_attachment_targets (graph : DynamicGraph) : option (list uuid) :=
  let index := GraphIndex_new graph in
  let unwrapped := option_map (node_ids index) (transparent_children index (dg_root_occurrence graph)) in
  match gi_nodes index !! dg_root_occurrence graph with
  | Some node => if dy_transparent node then unwrapped else Some [dg_root graph]
  | None => unwrapped
  end.

(** [DynamicGraph::all_attachment_targets] *)
Definition all_attachment_targets (graph : DynamicGraph) : option (list uuid) :=
  stored ← stored_graph graph; Some (map dy_id (sg_nodes stored)).

(** Where the walk of a graph starts. *)
Definition walk_roots (attachment : ChunkAttachment) (graph : DynamicGraph) : option (list uuid) :=
  match attachment with
  | AttachDirect => Some [dg_root_occurrence graph]
  | AttachAll => stored ← stored_graph graph; Some (map dy_occurrence_id (sg_nodes stored))
  end.

(** [store_dynamic_graph_batch] *)
Definition batch_step (attachment : ChunkAttachment) (graph : DynamicGraph)
    (acc : list StoredDynamicGraph * DynamicWalkState) : option (list StoredDynamicGraph * DynamicWalkState) :=
  let '(stored, state) := acc in
  roots ← walk_roots attachment graph;
  '(walked, state) ← walk_from graph roots state;
  Some (stored ++ [walked], state).

Definition store_dynamic_graph_batch (graphs : list DynamicGraph) (attachment : ChunkAttachment)
    : option (list StoredDynamicGraph) :=
  fst <$> fold_steps (batch_step attachment) graphs ([], DynamicWalkState_default).

(** ** Batches (crates/cognify/src/tasks.rs) *)

Record AttributedDynamicGraph := { ag_graph : DynamicGraph; ag_chunk_id : uuid; ag_data_id : uuid }.

(** The batch of each chunk within its document. *)
Definition chunk_batches (chunks_per_batch : nat) (chunks : list DocumentChunk) : gmap uuid nat :=
  (foldl (λ '(positions, batches) chunk,
            let position := default 0 (positions !! dc_document_id chunk) in
            (<[dc_document_id chunk := S position]> positions,
             <[dc_id chunk := position / chunks_per_batch]> batches))
     ((∅, ∅) : gmap uuid nat * gmap uuid nat) chunks).2.

(** The groups, as indices into the graphs, in order of first occurrence. *)
Fixpoint push_group {K} `{EqDecision K} (key : K) (index : nat) (groups : list (K * list nat)) : list (K * list nat) :=
  match groups with
  | [] => [(key, [index])]
  | (k, members) :: groups => if decide (k = key) then (k, members ++ [index]) :: groups
                              else (k, members) :: push_group key index groups
  end.

Definition graph_groups (batches : gmap uuid nat) (graphs : list AttributedDynamicGraph) : list (list nat) :=
  map snd (foldl (λ groups '(index, a),
                    push_group (ag_data_id a, default 0 (batches !! ag_chunk_id a)) index groups)
             [] (imap pair graphs)).

(** [stored[index] = graph], of indices within bounds. *)
Definition store_group (graphs : list AttributedDynamicGraph) (attachment : ChunkAttachment) (members : list nat)
    (stored : list StoredDynamicGraph) : option (list StoredDynamicGraph) :=
  walked ← store_dynamic_graph_batch (map ag_graph (omap (λ index, graphs !! index) members)) attachment;
  Some (foldl (λ stored '(index, graph), <[index := graph]> stored) stored (zip members walked)).

(** [store_dynamic_graphs] *)
Definition store_dynamic_graphs (chunks_per_batch : nat) (chunk_attachment : option ChunkAttachment)
    (graphs : list AttributedDynamicGraph) (chunks : list DocumentChunk) : option (list StoredDynamicGraph) :=
  let batches := chunk_batches (Nat.max chunks_per_batch 1) chunks in
  fold_steps (store_group graphs (default AttachDirect chunk_attachment)) (graph_groups batches graphs)
    (repeat {| sg_nodes := []; sg_relationships := [] |} (length graphs)).

(** The first chunk of an id. *)
Fixpoint set_contains (id : uuid) (contains : list json) (chunks : list DocumentChunk) : list DocumentChunk :=
  match chunks with
  | [] => []
  | c :: chunks =>
      if decide (dc_id c = id) then
        {| dc_base := dc_base c; dc_text := dc_text c; dc_name := dc_name c; dc_chunk_size := dc_chunk_size c;
           dc_chunk_index := dc_chunk_index c; dc_cut_type := dc_cut_type c; dc_document_id := dc_document_id c;
           dc_is_part_of := dc_is_part_of c; dc_contains := contains |} :: chunks
      else c :: set_contains id contains chunks
  end.

(** The chunks of [attach_dynamic_graphs]. *)
Definition attach_step `{UuidFormat} (attachment : ChunkAttachment) (a : AttributedDynamicGraph)
    (chunks : list DocumentChunk) : option (list DocumentChunk) :=
  targets ← match attachment with
            | AttachDirect => direct_attachment_targets (ag_graph a)
            | AttachAll => all_attachment_targets (ag_graph a)
            end;
  Some (set_contains (ag_chunk_id a) (map (λ target, JString (uuid_to_string target)) targets) chunks).

Definition attach_dynamic_graphs `{UuidFormat} (excluded_items : gset uuid) (attachment : option ChunkAttachment)
    (graphs : list AttributedDynamicGraph) (chunks : list DocumentChunk) : option (list DocumentChunk) :=
  fold_steps (attach_step (default AttachDirect attachment)) graphs
    (filter (λ c, dc_document_id c ∉ excluded_items) chunks).
