(* ===== verification/DynamicWalkFacts.v ===== *)
(** * Theorems of the storage walk (crates/cognify/src/dynamic_graph.rs)

    Transparent containers are replaced by what is reached through them, cycles and
    diamonds included; the walk ends, stores a node of each id once, and stores every
    edge of a stored node with both its ends. *)

From stdpp Require Import relations.
From S2P Require Import Prelude Json Strings DataPoint Models Config GraphTypes EdgeText DynamicWalk.
#[local] Open Scope nat_scope.

(** ** Transparent containers *)

Section index.
Context (index : GraphIndex).
Notation nodes := (gi_nodes index).

(** From a container to a transparent one in it. *)
Definition unwraps_to (c d : uuid) : Prop :=
  ∃ r n, r ∈ outgoing index c ∧ dr_target r = d ∧ nodes !! d = Some n ∧ dy_transparent n = true.

(** An occurrence that is stored. *)
Definition stored_at (t : uuid) (n : DynamicDataPoint) : Prop := nodes !! t = Some n ∧ dy_transparent n = false.

(** A stored occurrence reached through transparent containers only. *)
Definition unwrapped (root t : uuid) : Prop :=
  ∃ c r n, rtc unwraps_to root c ∧ r ∈ outgoing index c ∧ dr_target r = t ∧ stored_at t n.

(** What a relationship leads to is accounted for. *)
Definition handled (s : TransparentResolution) (r : DynamicRelationship) : Prop :=
  ∀ n, nodes !! dr_target r = Some n →
    if dy_transparent n then dr_target r ∈ tr_expanded s ∪ tr_active s else dy_id n ∈ tr_seen_ids s.

Record resolution_ok (root : uuid) (s : TransparentResolution) : Prop := {
  ro_sound : ∀ t, t ∈ tr_resolved s → unwrapped root t;
  ro_seen : list_to_set (node_ids index (tr_resolved s)) = tr_seen_ids s;
  ro_once : NoDup (node_ids index (tr_resolved s));
  ro_closed : ∀ c, c ∈ tr_expanded s → ∀ r, r ∈ outgoing index c → handled s r;
}.

(** A state later than another, inside the same containers. *)
Record later (s s' : TransparentResolution) : Prop := {
  la_active : tr_active s' = tr_active s;
  la_expanded : tr_expanded s ⊆ tr_expanded s';
  la_seen : tr_seen_ids s ⊆ tr_seen_ids s';
}.

Lemma handled_later s s' r : later s s' → handled s r → handled s' r.
Proof. intros [Ha He Hs] Hr n Hn. specialize (Hr n Hn). destruct (dy_transparent n); [rewrite Ha|]; set_solver. Qed.

Lemma node_ids_snoc l t n : nodes !! t = Some n → node_ids index (l ++ [t]) = node_ids index l ++ [dy_id n].
Proof. intros Hn. unfold node_ids. rewrite omap_app. simpl. by rewrite Hn. Qed.

Lemma resolve_stored_ok root c r n s : resolution_ok root s → rtc unwraps_to root c → r ∈ outgoing index c →
  stored_at (dr_target r) n →
  let s' := resolve_stored (dr_target r) n s in later s s' ∧ resolution_ok root s' ∧ dy_id n ∈ tr_seen_ids s'.
Proof.
  intros [Hsound Hseen Honce Hclosed] Hc Hr [Hn Ht]. unfold resolve_stored. case_decide as Hin; [done|].
  split_and!; [split; set_solver|split; simpl|set_solver].
  - intros t [Hold| ->%list_elem_of_singleton]%elem_of_app; [by apply Hsound|by exists c, r, n].
  - rewrite (node_ids_snoc _ _ _ Hn), list_to_set_app_L, Hseen. set_solver.
  - rewrite (node_ids_snoc _ _ _ Hn). apply NoDup_app. split_and!; [done| |apply NoDup_singleton].
    intros i Hi ->%list_elem_of_singleton. apply Hin. rewrite <-Hseen. by apply elem_of_list_to_set.
  - intros d Hd r' Hr' n' Hn'. specialize (Hclosed d Hd r' Hr' n' Hn'). simpl. destruct (dy_transparent n'); set_solver.
Qed.

(** The containers that can still be entered. *)
Definition enterable (active : gset uuid) : nat := size (dom nodes ∖ active).

Lemma enterable_shrinks active t n : nodes !! t = Some n → t ∉ active → enterable ({[t]} ∪ active) < enterable active.
Proof.
  intros Hn Ht. unfold enterable. apply subset_size. apply elem_of_dom_2 in Hn. set_solver.
Qed.

Lemma resolve_ok root fuel : ∀ c s, resolution_ok root s → rtc unwraps_to root c →
  (c ∉ tr_active s → enterable ({[c]} ∪ tr_active s) < fuel) →
  ∃ s', resolve index (S fuel) c s = Some s' ∧ later s s' ∧ resolution_ok root s' ∧ c ∈ tr_expanded s' ∪ tr_active s'.
Proof.
  induction fuel as [|fuel IH]; intros c s Hok Hc Hfuel;
    [|remember (S fuel) as fuel' eqn:Hf]; cbn [resolve];
    (case_decide as Hdone; [exists s; split_and!; [done|done|done|set_solver]|]).
  { exfalso. apply (Nat.nlt_0_r (enterable ({[c]} ∪ tr_active s))), Hfuel. naive_solver. }
  subst fuel'. set (s0 := {| tr_active := {[c]} ∪ tr_active s; tr_expanded := tr_expanded s;
                tr_seen_ids := tr_seen_ids s; tr_resolved := tr_resolved s |}).
  assert (Hok0 : resolution_ok root s0).
  { destruct Hok as [Hsound Hseen Honce Hclosed]. split; [done|done|done|]. intros d Hd r Hr n Hn.
    specialize (Hclosed d Hd r Hr n Hn). simpl. destruct (dy_transparent n); set_solver. }
  edestruct (fold_steps_history (λ past s1, later s0 s1 ∧ resolution_ok root s1 ∧ ∀ r, r ∈ past → handled s1 r)
             (resolve_relationship index (resolve index (S fuel))))
    with (l := outgoing index c) (s := s0) (past := @nil DynamicRelationship) as (s1 & Hrun & Hlater & Hok1 & Hall).
  - intros past r s1 Hr (Hlater & Hok1 & Hpast). unfold resolve_relationship. destruct (nodes !! dr_target r) as [n|] eqn:Hn.
    + destruct (dy_transparent n) eqn:Ht.
      * destruct (IH (dr_target r) s1) as (s2 & Hrun & Hlater2 & Hok2 & Hin).
        -- done.
        -- eapply rtc_r; [done|]. by exists r, n.
        -- rewrite (la_active _ _ Hlater). simpl. intros Hact. pose proof (enterable_shrinks _ _ _ Hn Hact).
           assert (c ∉ tr_active s) as Hin'%Hfuel by naive_solver. lia.
        -- exists s2. split; [done|]. split_and!; [split|done|].
           ++ by rewrite (la_active _ _ Hlater2), (la_active _ _ Hlater).
           ++ etransitivity; [apply Hlater|apply Hlater2].
           ++ etransitivity; [apply Hlater|apply Hlater2].
           ++ intros r' [Hr'| ->%list_elem_of_singleton]%elem_of_app; [by eapply handled_later, Hpast|].
              intros n' Hn'. rewrite Hn in Hn'. injection Hn' as <-. by rewrite Ht.
      * destruct (resolve_stored_ok root c r n s1) as (Hlater2 & Hok2 & Hin); [done|done|done|done|].
        eexists. split; [done|]. split_and!; [split|done|].
        -- by rewrite (la_active _ _ Hlater2), (la_active _ _ Hlater).
        -- etransitivity; [apply Hlater|apply Hlater2].
        -- etransitivity; [apply Hlater|apply Hlater2].
        -- intros r' [Hr'| ->%list_elem_of_singleton]%elem_of_app; [by eapply handled_later, Hpast|].
           intros n' Hn'. rewrite Hn in Hn'. injection Hn' as <-. by rewrite Ht.
    + exists s1. split_and!; [done|done|done|].
      intros r' [Hr'| ->%list_elem_of_singleton]%elem_of_app; [by apply Hpast|]. intros n' Hn'. congruence.
  - split_and!; [done|done|]. by intros r ?%not_elem_of_nil.
  - simpl in Hall. rewrite Hrun. simpl. eexists. split; [done|].
    assert (Hact : ({[c]} ∪ tr_active s) ∖ {[c]} = tr_active s) by set_solver.
    assert (Hh : ∀ r, handled s1 r → handled {| tr_active := tr_active s1 ∖ {[c]}; tr_expanded := {[c]} ∪ tr_expanded s1;
                                               tr_seen_ids := tr_seen_ids s1; tr_resolved := tr_resolved s1 |} r).
    { intros r Hr n Hn. specialize (Hr n Hn). rewrite (la_active _ _ Hlater) in *. simpl in *.
      destruct (dy_transparent n); set_solver. }
    destruct Hlater as [Hl1 Hl2 Hl3]. simpl in *. split_and!; [split; simpl|split; simpl|set_solver].
    + by rewrite Hl1.
    + set_solver.
    + done.
    + apply Hok1.
    + apply Hok1.
    + apply Hok1.
    + intros d [->%elem_of_singleton|Hd]%elem_of_union r Hr; apply Hh; [by apply Hall|by apply (ro_closed _ _ Hok1 d)].
Qed.

(** What replaces a container: the stored occurrences reached through it, one of each id. *)
Lemma transparent_children_spec c : ∃ children, transparent_children index c = Some children
  ∧ (∀ t, t ∈ children → unwrapped c t)
  ∧ (∀ t n, unwrapped c t → nodes !! t = Some n → dy_id n ∈ node_ids index children)
  ∧ NoDup (node_ids index children).
Proof.
  destruct (resolve_ok c (S (size nodes)) c TransparentResolution_default) as (s & Hrun & Hlater & Hok & Hin).
  - split; simpl; [by intros t ?%not_elem_of_nil|done|constructor|set_solver].
  - done.
  - intros _. unfold enterable. rewrite <-size_dom. apply Nat.lt_succ_r, subseteq_size. set_solver.
  - unfold transparent_children, walk_fuel. rewrite Hrun. simpl. destruct Hok as [Hsound Hseen Honce Hclosed].
    eexists. split_and!; [done|done| |done].
    pose proof (la_active _ _ Hlater) as Hact. simpl in Hact. rewrite Hact, union_empty_r_L in Hin.
    assert (Hexp : ∀ d, rtc unwraps_to c d → d ∈ tr_expanded s).
    { apply rtc_ind_r; [done|]. intros d e _ (r & n & Hr & <- & Hn & Ht) Hd.
      specialize (Hclosed d Hd r Hr n Hn). rewrite Ht, Hact in Hclosed. set_solver. }
    intros t n (d & r & n' & Hd & Hr & <- & Hn' & Ht) Hn. rewrite Hn in Hn'. injection Hn' as <-.
    specialize (Hclosed d (Hexp d Hd) r Hr n Hn). rewrite Ht, <-Hseen in Hclosed. by apply elem_of_list_to_set in Hclosed.
Qed.

Lemma transparent_children_stored c children t : transparent_children index c = Some children → t ∈ children →
  ∃ n, stored_at t n.
Proof.
  intros Hc Ht. destruct (transparent_children_spec c) as (children' & Hc' & Hsound & _). rewrite Hc in Hc'.
  injection Hc' as <-. destruct (Hsound t Ht) as (_ & _ & n & _ & _ & _ & Hn). by exists n.
Qed.

Lemma targets_of_total r : ∃ targets, targets_of index r = Some targets.
Proof.
  unfold targets_of. destruct (nodes !! dr_target r) as [n|]; [|by eexists].
  destruct (dy_transparent n); [|by eexists]. destruct (transparent_children_spec (dr_target r)) as (l & Hl & _). by exists l.
Qed.

Lemma targets_of_stored r targets t n : targets_of index r = Some targets → t ∈ targets → nodes !! t = Some n → stored_at t n.
Proof.
  unfold targets_of. intros Htargets Ht Hn. destruct (nodes !! dr_target r) as [m|] eqn:Hm.
  - destruct (dy_transparent m) eqn:Htr.
    + destruct (transparent_children_stored _ _ _ Htargets Ht) as (n' & Hn' & ?). rewrite Hn in Hn'. by injection Hn' as <-.
    + injection Htargets as <-. apply list_elem_of_singleton in Ht as ->. rewrite Hm in Hn. by injection Hn as <-.
  - injection Htargets as <-. apply list_elem_of_singleton in Ht as ->. congruence.
Qed.

(** ** The walk *)

(** The edges a relationship of a stored node stands for. *)
Definition stands_for_edge (n : DynamicDataPoint) (r : DynamicRelationship) (e : DynamicRelationship) : Prop :=
  ∃ targets t m, targets_of index r = Some targets ∧ t ∈ targets ∧ nodes !! t = Some m
    ∧ e = {| dr_source := dy_id n; dr_target := dy_id m; dr_field_name := dr_field_name r |}.

(** Every edge of a node is claimed. *)
Definition emitted (claimed : gset DynamicRelationship) (n : DynamicDataPoint) : Prop :=
  ∀ r e, r ∈ outgoing index (dy_occurrence_id n) → stands_for_edge n r e → e ∈ claimed.

(** What a part of the walk adds: nodes and edges nobody had claimed, each once; edges
    with both ends; nodes with all their edges. *)
Record walked (w w' : DynamicWalker) : Prop := {
  wa_nodes : ∃ new, wk_nodes w' = wk_nodes w ++ new
    ∧ wk_claimed_nodes w' = wk_claimed_nodes w ∪ list_to_set (map dy_id new) ∧ NoDup (map dy_id new)
    ∧ ∀ n, n ∈ new → dy_id n ∉ wk_claimed_nodes w ∧ stored_at (dy_occurrence_id n) n
                     ∧ emitted (wk_claimed_edges w') n;
  wa_edges : ∃ new, wk_relationships w' = wk_relationships w ++ new
    ∧ wk_claimed_edges w' = wk_claimed_edges w ∪ list_to_set new ∧ NoDup new
    ∧ ∀ e, e ∈ new → e ∉ wk_claimed_edges w ∧ dr_source e ∈ wk_claimed_nodes w' ∧ dr_target e ∈ wk_claimed_nodes w';
}.

Lemma walked_nodes w w' : walked w w' → wk_claimed_nodes w ⊆ wk_claimed_nodes w'.
Proof. intros [(new & _ & -> & _) _]. set_solver. Qed.
Lemma walked_edges w w' : walked w w' → wk_claimed_edges w ⊆ wk_claimed_edges w'.
Proof. intros [_ (new & _ & -> & _)]. set_solver. Qed.

Lemma emitted_mono claimed claimed' n : claimed ⊆ claimed' → emitted claimed n → emitted claimed' n.
Proof. intros Hsub Hn r e Hr He. by eapply Hsub, Hn. Qed.

#[export] Instance walked_preorder : PreOrder walked.
Proof.
  split.
  - intros w. split; exists []; rewrite app_nil_r; (split_and!; [done|set_solver|constructor|by intros ? ?%not_elem_of_nil]).
  - intros w w1 w2 H1 H2. pose proof (walked_nodes _ _ H1) as Hn1. pose proof (walked_nodes _ _ H2) as Hn2.
    pose proof (walked_edges _ _ H2) as He2.
    destruct H1 as [(n1 & HN1 & HC1 & HD1 & HA1) (e1 & HR1 & HE1 & HF1 & HB1)].
    destruct H2 as [(n2 & HN2 & HC2 & HD2 & HA2) (e2 & HR2 & HE2 & HF2 & HB2)]. split.
    + exists (n1 ++ n2). rewrite map_app. split_and!.
      * by rewrite HN2, HN1, app_assoc.
      * rewrite HC2, HC1, list_to_set_app_L. set_solver.
      * apply NoDup_app. split_and!; [done| |done]. intros i Hi (m & -> & Hm)%list_elem_of_fmap.
        apply (HA2 m Hm). rewrite HC1. apply elem_of_union. right. by apply elem_of_list_to_set.
      * intros m [Hm|Hm]%elem_of_app.
        -- destruct (HA1 m Hm) as (? & ? & ?). split_and!; [done|done|by eapply emitted_mono].
        -- destruct (HA2 m Hm) as (Hfresh & ? & ?). split_and!; [|done|done]. set_solver.
    + exists (e1 ++ e2). split_and!.
      * by rewrite HR2, HR1, app_assoc.
      * rewrite HE2, HE1, list_to_set_app_L. set_solver.
      * apply NoDup_app. split_and!; [done| |done]. intros e Hi Hm. apply (HB2 e Hm). rewrite HE1. set_solver.
      * intros e [Hm|Hm]%elem_of_app.
        -- destruct (HB1 e Hm) as (? & ? & ?). split_and!; [done|by apply Hn2|by apply Hn2].
        -- destruct (HB2 e Hm) as (Hfresh & ? & ?). split_and!; [|done|done]. rewrite HE1 in Hfresh. set_solver.
Qed.

(** The ids that can still be claimed. *)
Definition unclaimed (claimed : gset uuid) : nat := size ((list_to_set (map dy_id (map_to_list nodes).*2) : gset uuid) ∖ claimed).

Lemma unclaimed_le claimed claimed' : claimed ⊆ claimed' → unclaimed claimed' ≤ unclaimed claimed.
Proof. intros Hsub. unfold unclaimed. apply subseteq_size. set_solver. Qed.

Lemma unclaimed_shrinks claimed t n : nodes !! t = Some n → dy_id n ∉ claimed →
  unclaimed ({[dy_id n]} ∪ claimed) < unclaimed claimed.
Proof.
  intros Hn Hfresh. unfold unclaimed. apply subset_size. assert (dy_id n ∈ (list_to_set (map dy_id (map_to_list nodes).*2) : gset uuid)).
  { apply elem_of_list_to_set, list_elem_of_fmap_2, (list_elem_of_fmap_2 snd _ (t, n)). by apply elem_of_map_to_list. }
  set_solver.
Qed.

Lemma unclaimed_bound claimed : unclaimed claimed ≤ size nodes.
Proof.
  unfold unclaimed. etransitivity; [apply (subseteq_size (C := gset uuid) _ (list_to_set (map dy_id (map_to_list nodes).*2))); set_solver|].
  rewrite <-(length_map_to_list nodes), <-(length_map snd). change (map snd) with (fmap (M := list) (@snd uuid DynamicDataPoint)).
  rewrite <-(length_map dy_id). generalize (map dy_id (map_to_list nodes).*2). clear. intros l.
  induction l as [|x l IH]; simpl; [done|].
  rewrite size_union_alt, size_singleton.
  pose proof (subseteq_size (C := gset uuid) (list_to_set l ∖ {[x]}) (list_to_set l) ltac:(set_solver)). lia.
Qed.

Context (keyed : ∀ t n, nodes !! t = Some n → dy_occurrence_id n = t).

(** The walk of a stored occurrence. *)
Definition walks (walk : uuid → DynamicWalker → option DynamicWalker) (t : uuid) (n : DynamicDataPoint) (w : DynamicWalker)
    : Prop := ∃ w', walk t w = Some w' ∧ walked w w' ∧ dy_id n ∈ wk_claimed_nodes w'.

Lemma claim_edge_nodes e w : wk_nodes (claim_edge e w) = wk_nodes w ∧ wk_claimed_nodes (claim_edge e w) = wk_claimed_nodes w.
Proof. unfold claim_edge. by case_decide. Qed.

(** An edge is added with its target. *)
Lemma claim_edge_walked e w w' : walked (claim_edge e w) w' → dr_source e ∈ wk_claimed_nodes w' →
  dr_target e ∈ wk_claimed_nodes w' → walked w w' ∧ e ∈ wk_claimed_edges w'.
Proof.
  intros [(nn & HN & HC & HD & HA) (ne & HR & HE & HF & HB)] Hs Ht. destruct (claim_edge_nodes e w) as [H1 H2].
  rewrite H1, H2 in *. unfold claim_edge in HR, HE, HB. case_decide as Hin; simpl in *.
  - split; [split; [by exists nn|by exists ne]|]. rewrite HE. set_solver.
  - split; [split; [by exists nn|exists (e :: ne)]|rewrite HE; set_solver]. split_and!.
    + by rewrite HR, <-app_assoc.
    + rewrite HE. set_solver.
    + constructor; [|done]. intros He. apply (HB e He). set_solver.
    + intros e' [->|He']%elem_of_cons; [done|]. destruct (HB e' He') as (? & ? & ?). split_and!; [set_solver|done|done].
Qed.

Lemma visit_target_walked walk n field_name t w : dy_id n ∈ wk_claimed_nodes w →
  (∀ m w1, stored_at t m → wk_claimed_nodes w ⊆ wk_claimed_nodes w1 → walks walk t m w1) →
  (∀ m, nodes !! t = Some m → stored_at t m) →
  ∃ w', visit_target index walk n field_name t w = Some w' ∧ walked w w'
    ∧ ∀ m, nodes !! t = Some m →
        {| dr_source := dy_id n; dr_target := dy_id m; dr_field_name := field_name |} ∈ wk_claimed_edges w'.
Proof.
  intros Hn Hwalk Hstored. unfold visit_target. destruct (nodes !! t) as [m|] eqn:Hm; [|by exists w].
  set (e := {| dr_source := dy_id n; dr_target := dy_id m; dr_field_name := field_name |}). cbv zeta. fold e.
  destruct (claim_edge_nodes e w) as [_ Hc]. rewrite Hc. case_decide as Hin.
  - exists (claim_edge e w). destruct (claim_edge_walked e w (claim_edge e w)) as [Hw He]; [done|by rewrite Hc|by rewrite Hc|].
    split_and!; [done|done|]. by intros m' [= <-].
  - destruct (Hwalk m (claim_edge e w)) as (w' & Hrun & Hw & Hid); [by apply Hstored|by rewrite Hc|].
    assert (Hn' : dy_id n ∈ wk_claimed_nodes w'). { apply (walked_nodes _ _ Hw). by rewrite Hc. }
    destruct (claim_edge_walked e w w') as [Hw' He]; [done|done|done|].
    exists w'. split_and!; [done|done|]. by intros m' [= <-].
Qed.

Lemma visit_relationship_walked walk n r w : dy_id n ∈ wk_claimed_nodes w →
  (∀ t m w1, stored_at t m → wk_claimed_nodes w ⊆ wk_claimed_nodes w1 → walks walk t m w1) →
  ∃ w', visit_relationship index walk n r w = Some w' ∧ walked w w'
    ∧ ∀ e, stands_for_edge n r e → e ∈ wk_claimed_edges w'.
Proof.
  intros Hn Hwalk. unfold visit_relationship. destruct (targets_of_total r) as [targets Htargets]. rewrite Htargets. simpl.
  edestruct (fold_steps_history (λ past w1, walked w w1 ∧ ∀ t m, t ∈ past → nodes !! t = Some m →
      {| dr_source := dy_id n; dr_target := dy_id m; dr_field_name := dr_field_name r |} ∈ wk_claimed_edges w1)
      (visit_target index walk n (dr_field_name r)) targets) with (past := @nil uuid) (s := w) as (w' & Hrun & Hw & Hall).
  - intros past t w1 Ht (Hw1 & Hpast).
    destruct (visit_target_walked walk n (dr_field_name r) t w1) as (w2 & Hrun & Hw2 & He).
    + by apply (walked_nodes _ _ Hw1).
    + intros m w3 Hm Hsub. apply Hwalk; [done|]. etransitivity; [by apply walked_nodes|done].
    + intros m Hm. by eapply targets_of_stored.
    + exists w2. split_and!; [done|by etransitivity|].
      intros t' m [Hin| ->%list_elem_of_singleton]%elem_of_app Hm; [|by apply He].
      apply (walked_edges _ _ Hw2). by eapply Hpast.
  - split; [done|]. by intros t m ?%not_elem_of_nil.
  - exists w'. split_and!; [done|done|]. intros e (targets' & t & m & Htargets' & Ht & Hm & ->).
    rewrite Htargets in Htargets'. injection Htargets' as <-. by eapply Hall.
Qed.

(** A node claimed, and then all its edges. *)
Lemma claim_node_walked w w' t n : stored_at t n → dy_id n ∉ wk_claimed_nodes w → walked (claim_node n w) w' →
  emitted (wk_claimed_edges w') n → walked w w' ∧ dy_id n ∈ wk_claimed_nodes w'.
Proof.
  intros [Hn Ht] Hfresh [(nn & HN & HC & HD & HA) He] Hem. simpl in *. pose proof (keyed _ _ Hn) as Hocc.
  split; [split; [exists (n :: nn)|done]|rewrite HC; set_solver]. split_and!.
  - by rewrite HN, <-app_assoc.
  - rewrite HC. simpl. set_solver.
  - simpl. constructor; [|done]. intros (m & Heq & Hm)%list_elem_of_fmap. destruct (HA m Hm) as [Hm' _]. set_solver.
  - intros m [->|Hm]%elem_of_cons; [split_and!; [done|by rewrite Hocc|done]|].
    destruct (HA m Hm) as (? & ? & ?). split_and!; [set_solver|done|done].
Qed.

Lemma walk_stored fuel : ∀ t n w, stored_at t n → unclaimed (wk_claimed_nodes w) < fuel → walks (walk index fuel) t n w.
Proof.
  induction fuel as [|fuel IH]; intros t n w [Hn Ht] Hfuel; [lia|]. unfold walks. cbn [walk]. rewrite Hn, Ht.
  case_decide as Hin; [by exists w|].
  pose proof (unclaimed_shrinks _ _ _ Hn Hin) as Hless.
  edestruct (fold_steps_history (λ past w1, walked (claim_node n w) w1 ∧ ∀ r e, r ∈ past → stands_for_edge n r e →
      e ∈ wk_claimed_edges w1) (visit_relationship index (walk index fuel) n) (outgoing index t))
    with (past := @nil DynamicRelationship) (s := claim_node n w) as (w' & Hrun & Hw & Hall).
  - intros past r w1 Hr (Hw1 & Hpast). pose proof (walked_nodes _ _ Hw1) as Hsub. simpl in Hsub.
    destruct (visit_relationship_walked (walk index fuel) n r w1) as (w2 & Hrun & Hw2 & He).
    + set_solver.
    + intros t' m w3 Hm Hsub3. apply IH; [done|]. eapply Nat.le_lt_trans; [|apply (Nat.lt_le_trans _ _ fuel Hless); lia].
      apply unclaimed_le. set_solver.
    + exists w2. split_and!; [done|by etransitivity|].
      intros r' e [Hin'| ->%list_elem_of_singleton]%elem_of_app Hfor; [|by apply He].
      apply (walked_edges _ _ Hw2). by eapply Hpast.
  - split; [done|]. by intros r e ?%not_elem_of_nil.
  - simpl in Hall. exists w'. split; [done|]. apply (claim_node_walked w w' t n); [done|done|done|].
    intros r e Hr He. rewrite (keyed _ _ Hn) in Hr. by eapply Hall.
Qed.

(** What a root stands for is claimed. *)
Definition entered (claimed : gset uuid) (t : uuid) : Prop :=
  (∀ n, stored_at t n → dy_id n ∈ claimed)
  ∧ (∀ n u m, nodes !! t = Some n → dy_transparent n = true → unwrapped t u → nodes !! u = Some m → dy_id m ∈ claimed).

Lemma walk_ok t w : ∃ w', walk index (walk_fuel index) t w = Some w' ∧ walked w w' ∧ entered (wk_claimed_nodes w') t.
Proof.
  pose proof (unclaimed_bound (wk_claimed_nodes w)) as Hbound. unfold walk_fuel.
  destruct (nodes !! t) as [n|] eqn:Hn; [destruct (dy_transparent n) eqn:Ht|].
  - cbn [walk]. rewrite Hn, Ht. destruct (transparent_children_spec t) as (children & Hc & _ & Hall & _). rewrite Hc. cbn [mbind option_bind].
    edestruct (fold_steps_history (λ past w1, walked w w1 ∧ ∀ u m, u ∈ past → nodes !! u = Some m → dy_id m ∈ wk_claimed_nodes w1)
        (walk index (S (size nodes))) children) with (past := @nil uuid) (s := w) as (w' & Hrun & Hw & Hids).
    + intros past u w1 Hu (Hw1 & Hpast). destruct (transparent_children_stored t children u Hc Hu) as [m Hm].
      destruct (walk_stored (S (size nodes)) u m w1 Hm) as (w2 & Hrun & Hw2 & Hid).
      { apply Nat.lt_succ_r, unclaimed_bound. }
      exists w2. split_and!; [done|by etransitivity|].
      intros u' m' [Hin| ->%list_elem_of_singleton]%elem_of_app Hm'.
      * apply (walked_nodes _ _ Hw2). by eapply Hpast.
      * destruct Hm as [Hm _]. rewrite Hm in Hm'. by injection Hm' as <-.
    + split; [done|]. by intros u m ?%not_elem_of_nil.
    + exists w'. split_and!; [done|done|split].
      * intros n' [Hn' Ht']. rewrite Hn in Hn'. injection Hn' as <-. congruence.
      * intros n' u m _ _ Hu Hm. specialize (Hall u m Hu Hm). unfold node_ids in Hall.
        apply list_elem_of_omap in Hall as (u' & Hu' & Hid). simpl in Hids. destruct (nodes !! u') as [m'|] eqn:Hm'; [|done].
        injection Hid as <-. by eapply Hids.
  - destruct (walk_stored (S (S (size nodes))) t n w) as (w' & Hrun & Hw & Hid); [done|lia|].
    exists w'. split_and!; [done|done|split].
    + intros n' [Hn' _]. rewrite Hn in Hn'. by injection Hn' as <-.
    + intros n' u m Hn'. rewrite Hn in Hn'. injection Hn' as <-. congruence.
  - exists w. cbn [walk]. rewrite Hn. split_and!; [done|done|split].
    + intros n' [Hn' _]. congruence.
    + intros n' u m Hn'. congruence.
Qed.
End index.

(** ** The batch *)

Lemma index_nodes graph t n : gi_nodes (GraphIndex_new graph) !! t = Some n → dy_occurrence_id n = t ∧ n ∈ dg_nodes graph.
Proof.
  unfold GraphIndex_new. simpl. assert (Hgo : ∀ l (m : gmap uuid DynamicDataPoint),
    foldl (λ m n, <[dy_occurrence_id n := n]> m) m l !! t = Some n → (dy_occurrence_id n = t ∧ n ∈ l) ∨ m !! t = Some n).
  { induction l as [|x l IH]; intros m; simpl; [by right|]. intros [[? ?]|Hm]%IH; [left; split; [done|by right]|].
    apply lookup_insert_Some in Hm as [[? ->]|[_ ?]]; [left; split; [done|left]|by right]. }
  intros [?|Hm]%Hgo; [done|]. by rewrite lookup_empty in Hm.
Qed.

(** The nodes one graph adds to a batch: its own, stored, with all their edges. *)
Definition graph_stored (claimed : gset DynamicRelationship) (graph : DynamicGraph) (s : StoredDynamicGraph) : Prop :=
  ∀ n, n ∈ sg_nodes s → stored_at (GraphIndex_new graph) (dy_occurrence_id n) n ∧ emitted (GraphIndex_new graph) claimed n.

Lemma entered_mono index claimed claimed' t : claimed ⊆ claimed' → entered index claimed t → entered index claimed' t.
Proof. intros Hsub [H1 H2]. split; eauto. Qed.

Lemma walk_from_ok graph roots state : ∃ s state', walk_from graph roots state = Some (s, state')
  ∧ ws_claimed_nodes state' = ws_claimed_nodes state ∪ list_to_set (map dy_id (sg_nodes s))
  ∧ NoDup (map dy_id (sg_nodes s)) ∧ (∀ n, n ∈ sg_nodes s → dy_id n ∉ ws_claimed_nodes state)
  ∧ ws_claimed_edges state' = ws_claimed_edges state ∪ list_to_set (sg_relationships s)
  ∧ NoDup (sg_relationships s) ∧ (∀ e, e ∈ sg_relationships s → e ∉ ws_claimed_edges state
      ∧ dr_source e ∈ ws_claimed_nodes state' ∧ dr_target e ∈ ws_claimed_nodes state')
  ∧ graph_stored (ws_claimed_edges state') graph s
  ∧ ∀ t, t ∈ roots → entered (GraphIndex_new graph) (ws_claimed_nodes state') t.
Proof.
  unfold walk_from. set (index := GraphIndex_new graph). cbv zeta. set (w0 := {| wk_claimed_nodes := _ |}).
  assert (Hkeyed : ∀ t n, gi_nodes index !! t = Some n → dy_occurrence_id n = t) by (intros t n Hn; by apply index_nodes in Hn as [? _]).
  edestruct (fold_steps_history (λ past w, walked index w0 w ∧ ∀ t, t ∈ past → entered index (wk_claimed_nodes w) t)
      (walk index (walk_fuel index)) roots) with (past := @nil uuid) (s := w0) as (w & Hrun & Hw & Hroots).
  - intros past t w Ht (Hw & Hpast). destruct (walk_ok index Hkeyed t w) as (w' & Hrun & Hw' & Hent).
    exists w'. split_and!; [done|by etransitivity|].
    intros t' [Hin| ->%list_elem_of_singleton]%elem_of_app; [|done].
    eapply entered_mono; [by apply (walked_nodes index w w')|by apply Hpast].
  - split; [done|]. by intros t ?%not_elem_of_nil.
  - rewrite Hrun. simpl. destruct Hw as [(nn & HN & HC & HD & HA) (ne & HR & HE & HF & HB)]. simpl in *. subst nn ne.
    eexists _, _. split; [done|]. simpl. split_and!; [done|done|by apply HA|done|done|done| |done].
    intros n Hn. by destruct (HA n Hn) as (_ & ? & ?).
Qed.

(** What a standalone walk stores covers the root. *)
Lemma stored_graph_ok graph : ∃ s, stored_graph graph = Some s
  ∧ entered (GraphIndex_new graph) (list_to_set (map dy_id (sg_nodes s))) (dg_root_occurrence graph)
  ∧ ∀ n, n ∈ sg_nodes s → stored_at (GraphIndex_new graph) (dy_occurrence_id n) n.
Proof.
  unfold stored_graph.
  destruct (walk_from_ok graph [dg_root_occurrence graph] DynamicWalkState_default)
    as (s & state & Hrun & Hc & _ & _ & _ & _ & _ & Hst & Hr).
  rewrite Hrun. exists s. split; [done|]. simpl in Hc. rewrite union_empty_l_L in Hc. split.
  - rewrite <-Hc. apply Hr. by apply list_elem_of_singleton.
  - intros n Hn. by destruct (Hst n Hn) as [? _].
Qed.

(** The result of a batch: every id once, every edge once and with both its ends, every
    node with all its edges, every root. *)
Record batch_ok (graphs : list DynamicGraph) (stored : list StoredDynamicGraph) : Prop := {
  bo_length : length stored = length graphs;
  bo_ids : NoDup (map dy_id (concat (map sg_nodes stored)));
  bo_edges : NoDup (concat (map sg_relationships stored));
  bo_ends : ∀ e, e ∈ concat (map sg_relationships stored) →
    dr_source e ∈ map dy_id (concat (map sg_nodes stored)) ∧ dr_target e ∈ map dy_id (concat (map sg_nodes stored));
  bo_nodes : Forall2 (graph_stored (list_to_set (concat (map sg_relationships stored)))) graphs stored;
  bo_roots : ∀ g, g ∈ graphs →
    entered (GraphIndex_new g) (list_to_set (map dy_id (concat (map sg_nodes stored)))) (dg_root_occurrence g);
}.

Definition batch_inv (past : list DynamicGraph) (acc : list StoredDynamicGraph * DynamicWalkState) : Prop :=
  batch_ok past acc.1 ∧ ws_claimed_nodes acc.2 = list_to_set (map dy_id (concat (map sg_nodes acc.1)))
  ∧ ws_claimed_edges acc.2 = list_to_set (concat (map sg_relationships acc.1)).

Lemma walk_roots_ok attachment graph : ∃ roots, walk_roots attachment graph = Some roots
  ∧ ∀ claimed, (∀ t, t ∈ roots → entered (GraphIndex_new graph) claimed t) →
      entered (GraphIndex_new graph) claimed (dg_root_occurrence graph).
Proof.
  destruct attachment; simpl.
  - eexists. split; [done|]. intros claimed Hall. apply Hall. by apply list_elem_of_singleton.
  - destruct (stored_graph_ok graph) as (s & Hs & Hroot & Hst). rewrite Hs. simpl. eexists. split; [done|].
    intros claimed Hall. eapply entered_mono; [|exact Hroot].
    intros i (n & -> & Hn)%elem_of_list_to_set%list_elem_of_fmap.
    destruct (Hall (dy_occurrence_id n)) as [Hid _]; [by apply list_elem_of_fmap_2|]. by apply Hid, Hst.
Qed.

Lemma batch_step_ok attachment past g acc : batch_inv past acc →
  ∃ acc', batch_step attachment g acc = Some acc' ∧ batch_inv (past ++ [g]) acc'.
Proof.
  destruct acc as [stored state]. intros ([Hlen Hids Hedges Hends Hnodes Hroots] & Hc & He). unfold batch_step. simpl in *.
  destruct (walk_roots_ok attachment g) as (roots & -> & Hent). simpl.
  destruct (walk_from_ok g roots state) as (s & state' & -> & Hcn & Hdn & Hfn & Hce & Hde & Hfe & Hst & Hr). simpl.
  eexists. split; [done|]. unfold batch_inv. simpl.
  rewrite !map_app, !concat_app, !map_app. simpl. rewrite !app_nil_r.
  rewrite !list_to_set_app_L, <-Hc, <-He, <-Hcn, <-Hce. split_and!; [split|done|done].
  - rewrite !length_app. simpl. by rewrite Hlen.
  - rewrite map_app, concat_app, map_app. simpl. rewrite app_nil_r. apply NoDup_app. split_and!; [done| |done].
    intros i Hi (n & -> & Hn)%list_elem_of_fmap. apply (Hfn n Hn). rewrite Hc. by apply elem_of_list_to_set.
  - rewrite map_app, concat_app. simpl. rewrite app_nil_r. apply NoDup_app. split_and!; [done| |done].
    intros e Hi Hn. destruct (Hfe e Hn) as [Hfresh _]. apply Hfresh. rewrite He. by apply elem_of_list_to_set.
  - rewrite !map_app, !concat_app, !map_app. simpl. rewrite !app_nil_r.
    intros e [Hin|Hin]%elem_of_app; rewrite !elem_of_app.
    + destruct (Hends e Hin). auto.
    + destruct (Hfe e Hin) as (_ & Hs & Ht). rewrite Hcn, Hc in Hs, Ht.
      rewrite elem_of_union, !elem_of_list_to_set in Hs. rewrite elem_of_union, !elem_of_list_to_set in Ht. done.
  - rewrite map_app, concat_app. simpl. rewrite app_nil_r, list_to_set_app_L, <-He, <-Hce.
    apply Forall2_app; [|by constructor]. eapply Forall2_impl; [done|]. intros g' s' Hg n Hn.
    destruct (Hg n Hn) as [? Hem]. split; [done|]. eapply emitted_mono; [|done]. rewrite Hce, He. set_solver.
  - rewrite map_app, concat_app, map_app. simpl. rewrite app_nil_r, list_to_set_app_L, <-Hc, <-Hcn.
    intros g' [Hg'| ->%list_elem_of_singleton]%elem_of_app; [|by apply Hent].
    eapply entered_mono; [|by apply Hroots]. rewrite Hcn, Hc. set_solver.
Qed.

Lemma store_dynamic_graph_batch_ok attachment graphs :
  ∃ stored, store_dynamic_graph_batch graphs attachment = Some stored ∧ batch_ok graphs stored.
Proof.
  unfold store_dynamic_graph_batch.
  destruct (fold_steps_history batch_inv (batch_step attachment) graphs) with (past := @nil DynamicGraph)
    (s := (@nil StoredDynamicGraph, DynamicWalkState_default)) as (acc & Hrun & Hinv & _).
  - intros past g acc _. apply batch_step_ok.
  - split_and!; [split; simpl|done|done];
      first [done|by intros ? ?%not_elem_of_nil|constructor].
  - rewrite Hrun. by exists acc.1.
Qed.

(** ** Batches *)

Section groups.
Context `{EqDecision K}.

Lemma push_group_perm (key : K) i groups :
  concat (map snd (push_group key i groups)) ≡ₚ concat (map snd groups) ++ [i].
Proof.
  induction groups as [|[k members] groups IH]; simpl; [done|]. case_decide; simpl.
  - rewrite <-!app_assoc. apply Permutation_app_head, Permutation_app_comm.
  - by rewrite IH, app_assoc.
Qed.

(** Members of one group have its key, and no two groups share a key. *)
Definition grouped (key_of : nat → K) (groups : list (K * list nat)) : Prop :=
  NoDup (map fst groups) ∧ Forall (λ '(k, members), Forall (λ i, key_of i = k) members) groups.

Lemma push_group_keys (key : K) i groups k : k ∈ map fst (push_group key i groups) ↔ k = key ∨ k ∈ map fst groups.
Proof.
  induction groups as [|[k' members] groups IH]; simpl; [by rewrite list_elem_of_singleton, elem_of_nil; naive_solver|].
  case_decide; simpl; rewrite !elem_of_cons; [naive_solver|]. rewrite IH. naive_solver.
Qed.

Lemma push_group_grouped (key_of : nat → K) i groups : grouped key_of groups → grouped key_of (push_group (key_of i) i groups).
Proof.
  intros [Hnd Hall]. induction groups as [|[k members] groups IH]; simpl.
  - split; [apply NoDup_singleton|]. constructor; [by constructor|done].
  - apply Forall_cons in Hall as [Hm Hall]. apply NoDup_cons in Hnd as [Hk Hnd]. destruct (IH Hnd Hall) as [Hnd' Hall'].
    case_decide as Heq; (split; simpl; [|constructor; [|done]]).
    + by constructor.
    + apply Forall_app. split; [done|by constructor].
    + constructor; [|done]. intros [?|?]%push_group_keys; [congruence|done].
    + done.
Qed.
End groups.

Lemma imap_pair_fst {A} (l : list A) : (imap pair l).*1 = seq 0 (length l).
Proof. rewrite fmap_imap. etransitivity; [exact (imap_seq_0 l (λ i, i))|apply list_fmap_id]. Qed.

Lemma imap_pair_elem {A} (l : list A) i x : (i, x) ∈ imap pair l → l !! i = Some x.
Proof. intros (j & y & [= -> ->] & Hy)%elem_of_lookup_imap. done. Qed.

(** The key of a graph's batch. *)
Definition batch_key (batches : gmap uuid nat) (a : AttributedDynamicGraph) : uuid * nat :=
  (ag_data_id a, default 0 (batches !! ag_chunk_id a)).

Definition same_batch (batches : gmap uuid nat) (graphs : list AttributedDynamicGraph) (i j : nat) : Prop :=
  batch_key batches <$> graphs !! i = batch_key batches <$> graphs !! j.

(** The batches partition the graphs, by data item and position of their chunks. *)
Lemma graph_groups_spec batches graphs :
  concat (graph_groups batches graphs) ≡ₚ seq 0 (length graphs)
  ∧ ∀ members i j, members ∈ graph_groups batches graphs → i ∈ members → j < length graphs →
      (j ∈ members ↔ same_batch batches graphs i j).
Proof.
  unfold graph_groups. set (key_of := λ i, from_option (batch_key batches) (nil_uuid, 0) (graphs !! i)).
  assert (Hgo : ∀ l groups, (∀ i a, (i, a) ∈ l → graphs !! i = Some a) → grouped key_of groups →
    let groups' := foldl (λ groups '(index, a),
      push_group (ag_data_id a, default 0 (batches !! ag_chunk_id a)) index groups) groups l in
    concat (map snd groups') ≡ₚ concat (map snd groups) ++ l.*1 ∧ grouped key_of groups').
  { induction l as [|[i a] l IH]; intros groups Hl Hg; cbn zeta; simpl; [by rewrite app_nil_r|].
    assert (Hkey : (ag_data_id a, default 0 (batches !! ag_chunk_id a)) = key_of i).
    { unfold key_of. rewrite (Hl i a); [done|left]. }
    rewrite Hkey. destruct (IH (push_group (key_of i) i groups)) as [Hperm Hg'].
    - intros j b Hj. apply Hl. by right.
    - by apply push_group_grouped.
    - split; [|done]. by rewrite Hperm, push_group_perm, <-app_assoc. }
  destruct (Hgo (imap pair graphs) []) as [Hperm [Hnd Hall]]; [intros i a; apply imap_pair_elem|split; constructor|].
  set (groups := foldl _ _ _) in *. rewrite imap_pair_fst in Hperm. simpl in Hperm. split; [done|].
  assert (Hsame : ∀ i j, i < length graphs → j < length graphs → (same_batch batches graphs i j ↔ key_of i = key_of j)).
  { intros i j [a Ha]%lookup_lt_is_Some_2 [b Hb]%lookup_lt_is_Some_2. unfold same_batch, key_of. rewrite Ha, Hb. simpl. split; congruence. }
  assert (Hmember : ∀ k m i, (k, m) ∈ groups → i ∈ m → key_of i = k ∧ i < length graphs).
  { intros k m i Hkm Hi. split.
    - rewrite Forall_forall in Hall. specialize (Hall _ Hkm). simpl in Hall. rewrite Forall_forall in Hall. by apply Hall.
    - assert (Hin : i ∈ seq 0 (length graphs)); [|by apply elem_of_seq in Hin as [_ ?]].
      rewrite <-Hperm. apply list_elem_of_In, in_concat. exists m. split; [|by apply list_elem_of_In].
      apply list_elem_of_In. by apply (list_elem_of_fmap_2 snd _ (k, m)). }
  intros members i j ([k members'] & -> & Hkm)%list_elem_of_fmap Hi Hj. simpl in *.
  destruct (Hmember k members' i Hkm Hi) as [Hki Hleni]. rewrite (Hsame i j Hleni Hj). split.
  - intros Hjm. destruct (Hmember k members' j Hkm Hjm) as [Hkj _]. congruence.
  - intros Hkey. assert (Hin : j ∈ concat (map snd groups)). { rewrite Hperm. apply elem_of_seq. lia. }
    apply list_elem_of_In, in_concat in Hin as (m & Hm & Hjm). apply list_elem_of_In in Hm, Hjm.
    apply list_elem_of_fmap in Hm as ([k' m'] & -> & Hkm'). simpl in Hjm.
    destruct (Hmember k' m' j Hkm' Hjm) as [Hkj _].
    assert (k' = k) as -> by congruence. replace members' with m'; [done|].
    apply list_elem_of_lookup in Hkm as [x Hx], Hkm' as [y Hy].
    assert (x = y) as ->; [|congruence].
    apply (NoDup_lookup groups.*1 x y k Hnd); rewrite list_lookup_fmap; [by rewrite Hx|by rewrite Hy].
Qed.

(** Writing results to slots. *)
Lemma foldl_insert_slots {A} (pairs : list (nat * A)) : ∀ l : list A, NoDup pairs.*1 →
  (∀ i x, (i, x) ∈ pairs → i < length l → foldl (λ l '(i, x), <[i := x]> l) l pairs !! i = Some x)
  ∧ (∀ i, i ∉ pairs.*1 → foldl (λ l '(i, x), <[i := x]> l) l pairs !! i = l !! i)
  ∧ length (foldl (λ l '(i, x), <[i := x]> l) l pairs) = length l.
Proof.
  induction pairs as [|[i x] pairs IH]; intros l Hnd; simpl; [split_and!; [by intros ?? ?%not_elem_of_nil|done|done]|].
  apply NoDup_cons in Hnd as [Hi Hnd]. destruct (IH (<[i := x]> l) Hnd) as (H1 & H2 & H3). split_and!.
  - intros j y [[= -> ->]|Hin]%elem_of_cons Hlen.
    + rewrite H2 by done. by apply list_lookup_insert_eq.
    + apply H1; [done|]. by rewrite length_insert.
  - intros j Hj. apply not_elem_of_cons in Hj as [Hne Hj]. rewrite H2 by done. by apply list_lookup_insert_ne.
  - by rewrite H3, length_insert.
Qed.

(** The slots of the members of a batch hold what its walk stored for them. *)
Definition batch_stored (attachment : ChunkAttachment) (graphs : list AttributedDynamicGraph) (stored : list StoredDynamicGraph)
    (members : list nat) : Prop :=
  ∃ walked, store_dynamic_graph_batch (map ag_graph (omap (λ i, graphs !! i) members)) attachment = Some walked
    ∧ batch_ok (map ag_graph (omap (λ i, graphs !! i) members)) walked
    ∧ ∀ k i, members !! k = Some i → stored !! i = walked !! k.

Lemma omap_lookup_length {A} (l : list A) members : Forall (λ i, i < length l) members →
  length (omap (λ i, l !! i) members) = length members.
Proof.
  induction 1 as [|i members Hi _ IH]; simpl; [done|]. apply lookup_lt_is_Some_2 in Hi as [x ->]. simpl. f_equal. exact IH.
Qed.

Lemma zip_fst {A B} (l : list A) (k : list B) : length l = length k → (zip l k).*1 = l.
Proof. intros Hlen. apply fst_zip. lia. Qed.

Lemma zip_lookup {A B} (l : list A) (k : list B) i x y : l !! i = Some x → k !! i = Some y → (x, y) ∈ zip l k.
Proof.
  intros Hx Hy. apply (list_elem_of_lookup_2 _ i). rewrite lookup_zip_with, Hx, Hy. done.
Qed.

Lemma store_group_ok attachment graphs members stored :
  NoDup members → Forall (λ i, i < length graphs) members → length stored = length graphs →
  ∃ stored', store_group graphs attachment members stored = Some stored' ∧ length stored' = length graphs
    ∧ batch_stored attachment graphs stored' members ∧ ∀ i, i ∉ members → stored' !! i = stored !! i.
Proof.
  intros Hnd Hbound Hlen. unfold store_group, batch_stored. set (gs := map ag_graph _).
  destruct (store_dynamic_graph_batch_ok attachment gs) as (walked & Hrun & Hok). rewrite Hrun. simpl.
  assert (Hwl : length members = length walked).
  { rewrite (bo_length _ _ Hok). unfold gs. rewrite length_map. symmetry. by apply omap_lookup_length. }
  destruct (foldl_insert_slots (zip members walked) stored) as (H1 & H2 & H3); [by rewrite zip_fst|].
  eexists. split_and!; [done|by rewrite H3| |].
  - exists walked. split_and!; [done|done|]. intros k i Hk.
    destruct (walked !! k) as [x|] eqn:Hx.
    + apply H1; [by eapply zip_lookup|]. rewrite Hlen. rewrite Forall_forall in Hbound. apply Hbound.
      by apply (list_elem_of_lookup_2 _ k).
    + exfalso. apply lookup_ge_None in Hx. apply lookup_lt_Some in Hk. lia.
  - intros i Hi. apply H2. by rewrite zip_fst.
Qed.

Lemma batch_stored_ext attachment graphs stored stored' members :
  (∀ i, i ∈ members → stored' !! i = stored !! i) → batch_stored attachment graphs stored members →
  batch_stored attachment graphs stored' members.
Proof.
  intros Heq (walked & Hrun & Hok & Hslots). exists walked. split_and!; [done|done|]. intros k i Hk.
  rewrite Heq; [by apply Hslots|]. by apply (list_elem_of_lookup_2 _ k).
Qed.

Lemma store_groups_ok attachment graphs groups : ∀ stored, NoDup (concat groups) →
  Forall (λ i, i < length graphs) (concat groups) → length stored = length graphs →
  ∃ stored', fold_steps (store_group graphs attachment) groups stored = Some stored' ∧ length stored' = length graphs
    ∧ (∀ members, members ∈ groups → batch_stored attachment graphs stored' members)
    ∧ ∀ i, i ∉ concat groups → stored' !! i = stored !! i.
Proof.
  induction groups as [|members groups IH]; intros stored Hnd Hbound Hlen; simpl.
  - exists stored. split_and!; [done|done|by intros ? ?%not_elem_of_nil|done].
  - simpl in Hnd, Hbound. apply NoDup_app in Hnd as (Hm & Hdisj & Hnd). apply Forall_app in Hbound as [Hb1 Hb2].
    destruct (store_group_ok attachment graphs members stored Hm Hb1 Hlen) as (s1 & -> & Hlen1 & Hst1 & Hkeep1). simpl.
    destruct (IH s1 Hnd Hb2 Hlen1) as (s2 & -> & Hlen2 & Hst2 & Hkeep2).
    exists s2. split_and!; [done|done| |].
    + intros m [->|Hin]%elem_of_cons; [|by apply Hst2]. eapply batch_stored_ext; [|done].
      intros i Hi. apply Hkeep2. by apply Hdisj.
    + intros i Hi. apply not_elem_of_app in Hi as [Hi1 Hi2]. by rewrite Hkeep2, Hkeep1.
Qed.

(** ** Theorems *)

(** C28: What replaces a transparent container is what is reached through it: the
    resolution ends on every graph, cycles included, returns stored nodes behind
    transparent ones only, one occurrence of every id that is reached, and nothing
    else. *)
Theorem transparent_children_exact graph container :
  let index := GraphIndex_new graph in
  ∃ children, transparent_children index container = Some children
    ∧ (∀ t, t ∈ children → unwrapped index container t)
    ∧ (∀ i, i ∈ node_ids index children ↔
         ∃ t n, unwrapped index container t ∧ gi_nodes index !! t = Some n ∧ dy_id n = i)
    ∧ NoDup (node_ids index children).
Proof.
  intros index. destruct (transparent_children_spec index container) as (children & Hc & Hsound & Hall & Hnd).
  exists children. split_and!; [done|done| |done]. intros i. split.
  - intros (t & Ht & Hi)%list_elem_of_omap. destruct (gi_nodes index !! t) as [n|] eqn:Hn; [|done].
    injection Hi as <-. exists t, n. split_and!; [by apply Hsound|done|done].
  - intros (t & n & Ht & Hn & <-). by eapply Hall.
Qed.

(** Every graph of a run has its stored one. *)
Lemma store_dynamic_graphs_total chunks_per_batch attachment graphs chunks :
  ∃ stored, store_dynamic_graphs chunks_per_batch attachment graphs chunks = Some stored ∧ length stored = length graphs.
Proof.
  destruct (graph_groups_spec (chunk_batches (Nat.max chunks_per_batch 1) chunks) graphs) as [Hperm _].
  unfold store_dynamic_graphs. cbv zeta.
  edestruct (store_groups_ok (default AttachDirect attachment) graphs) as (stored & Hrun & Hlen & _).
  - rewrite Hperm. apply NoDup_seq.
  - rewrite Hperm. apply Forall_forall. intros i [_ Hi]%elem_of_seq. done.
  - apply repeat_length.
  - by exists stored.
Qed.

(** The batch of a chunk id: the position, within its document, of the last chunk that has
    it, by [n]; 0 if there is none. *)
Definition batch_number (n : nat) (chunks : list DocumentChunk) (id : uuid) : nat :=
  match list_find (λ c, dc_id c = id) (reverse chunks) with
  | Some (i, c) => length (filter (λ c', dc_document_id c' = dc_document_id c) (drop (S i) (reverse chunks))) / n
  | None => 0
  end.

Lemma chunk_batches_number n chunks id : default 0 (chunk_batches n chunks !! id) = batch_number n chunks id.
Proof.
  unfold chunk_batches. set (step := λ '(positions, batches) chunk, _).
  assert (Hgo : (∀ d, default 0 ((foldl step (∅, ∅) chunks).1 !! d)
        = length (filter (λ c', dc_document_id c' = d) (reverse chunks)))
    ∧ ∀ id, default 0 ((foldl step (∅, ∅) chunks).2 !! id) = batch_number n chunks id); [|by apply Hgo].
  unfold batch_number. induction chunks as [|c chunks [IHp IHb]] using rev_ind.
  { split; intros ?; unfold reverse; simpl; by rewrite lookup_empty. }
  rewrite foldl_snoc, reverse_snoc. destruct (foldl step (∅, ∅) chunks) as [positions batches]. simpl in *. split.
  - intros d. destruct (decide (dc_document_id c = d)) as [<-|Hne].
    + rewrite lookup_insert_eq, filter_cons_True by done. simpl. by rewrite IHp.
    + by rewrite lookup_insert_ne, filter_cons_False, IHp by done.
  - intros id'. destruct (decide (dc_id c = id')) as [<-|Hne].
    + rewrite lookup_insert_eq. simpl. by rewrite drop_0, IHp.
    + rewrite lookup_insert_ne by done. rewrite IHb. by destruct (list_find _ (reverse chunks)) as [[i c']|].
Qed.

(** C29: The storage walk of a run's custom graphs ends, and leaves one stored graph for
    each.  The graphs are split into batches, two being in one exactly if they are of
    the same data item and the positions of their chunks in their document fall into
    the same run of [chunks_per_batch] (at least 1); in every batch a node is stored
    once by id, no transparent one is, an edge is stored once and with both its ends,
    every stored node keeps all its edges, and every root, or what replaces it, is
    stored. *)
Theorem store_dynamic_graphs_spec chunks_per_batch attachment graphs chunks :
  let n := Nat.max chunks_per_batch 1 in
  ∃ groups stored, store_dynamic_graphs chunks_per_batch attachment graphs chunks = Some stored
    ∧ length stored = length graphs
    ∧ concat groups ≡ₚ seq 0 (length graphs)
    ∧ (∀ members i j a b, members ∈ groups → i ∈ members → graphs !! i = Some a → graphs !! j = Some b →
         (j ∈ members ↔ ag_data_id a = ag_data_id b
            ∧ batch_number n chunks (ag_chunk_id a) = batch_number n chunks (ag_chunk_id b)))
    ∧ ∀ members, members ∈ groups → batch_stored (default AttachDirect attachment) graphs stored members.
Proof.
  intros n. set (groups := graph_groups (chunk_batches n chunks) graphs).
  destruct (graph_groups_spec (chunk_batches n chunks) graphs) as [Hperm Hsame].
  fold groups in Hperm, Hsame. unfold store_dynamic_graphs. cbv zeta. fold n groups.
  edestruct (store_groups_ok (default AttachDirect attachment) graphs groups) as (stored & Hrun & Hlen & Hst & _).
  - rewrite Hperm. apply NoDup_seq.
  - rewrite Hperm. apply Forall_forall. intros i [_ Hi]%elem_of_seq. done.
  - apply repeat_length.
  - exists groups, stored. split_and!; try done. intros members i j a b Hm Hi Ha Hb.
    rewrite (Hsame members i j Hm Hi) by by eapply lookup_lt_Some.
    unfold same_batch, batch_key. rewrite Ha, Hb. simpl. rewrite !chunk_batches_number. split; [by intros [= -> ->]|].
    by intros [-> ->].
Qed.
