(* ===== verification/Loaders.v ===== *)
(** * Document loaders (crates/ingestion/src/loaders/{mod,text,csv_loader}.rs)

    A loader turns the bytes of a document into text, rows or one chunk; the registry
    maps a document type to its loader.  The decoding of UTF-8 is the standard
    library's, errors included. *)

From Stdlib Require Import ZifyBool.
From S2P Require Import Prelude Text Models TextChunker.
#[local] Open Scope N_scope.

(** ** [String::from_utf8] *)

Notation bytes := (list N) (only parsing).

(** [Utf8Error]: the bytes valid before the error, and its length unless the input
    ends in the middle of a character. *)
Record Utf8Error := { valid_up_to : nat; error_len : option nat }.

Definition is_cont (b : N) : bool := (128 <=? b) && (b <=? 191).

(** The second byte of a three- or four-byte character. *)
Definition second_of_three (b0 b1 : N) : bool :=
  if b0 =? 224 then (160 <=? b1) && (b1 <=? 191)
  else if b0 =? 237 then (128 <=? b1) && (b1 <=? 159)
  else is_cont b1.
Definition second_of_four (b0 b1 : N) : bool :=
  if b0 =? 240 then (144 <=? b1) && (b1 <=? 191)
  else if b0 =? 244 then (128 <=? b1) && (b1 <=? 143)
  else is_cont b1.

(** [from_utf8] of the bytes from the offset [i]. *)
Fixpoint from_utf8_at (i : nat) (bs : bytes) : result Utf8Error text :=
  let error len := Err {| valid_up_to := i; error_len := len |} in
  match bs with
  | [] => Ok []
  | b0 :: bs =>
      if b0 <? 128 then result_map (cons b0) (from_utf8_at (S i) bs)
      else if (194 <=? b0) && (b0 <=? 223) then
        match bs with
        | [] => error None
        | b1 :: bs =>
            if is_cont b1 then result_map (cons ((b0 - 192) * 64 + (b1 - 128))) (from_utf8_at (2 + i) bs)
            else error (Some 1%nat)
        end
      else if (224 <=? b0) && (b0 <=? 239) then
        match bs with
        | [] => error None
        | b1 :: bs =>
            if negb (second_of_three b0 b1) then error (Some 1%nat) else
            match bs with
            | [] => error None
            | b2 :: bs =>
                if is_cont b2
                then result_map (cons ((b0 - 224) * 4096 + (b1 - 128) * 64 + (b2 - 128))) (from_utf8_at (3 + i) bs)
                else error (Some 2%nat)
            end
        end
      else if (240 <=? b0) && (b0 <=? 244) then
        match bs with
        | [] => error None
        | b1 :: bs =>
            if negb (second_of_four b0 b1) then error (Some 1%nat) else
            match bs with
            | [] => error None
            | b2 :: bs =>
                if negb (is_cont b2) then error (Some 2%nat) else
                match bs with
                | [] => error None
                | b3 :: bs =>
                    if is_cont b3
                    then result_map (cons ((b0 - 240) * 262144 + (b1 - 128) * 4096 + (b2 - 128) * 64 + (b3 - 128)))
                           (from_utf8_at (4 + i) bs)
                    else error (Some 3%nat)
                end
            end
        end
      else error (Some 1%nat)
  end.

Definition from_utf8 (bs : bytes) : result Utf8Error text := from_utf8_at 0 bs.

(** [Display] of [Utf8Error]. *)
Definition display_utf8_error (e : Utf8Error) : string :=
  match error_len e with
  | Some len => "invalid utf-8 sequence of " +:+ pretty len +:+ " bytes from index " +:+ pretty (valid_up_to e)
  | None => "incomplete utf-8 byte sequence from index " +:+ pretty (valid_up_to e)
  end.

(** [str::as_bytes] *)
Definition utf8_of_char (c : char) : bytes :=
  if c <? 128 then [c]
  else if c <? 2048 then [192 + c / 64; 128 + c mod 64]
  else if c <? 65536 then [224 + c / 4096; 128 + (c / 64) mod 64; 128 + c mod 64]
  else [240 + c / 262144; 128 + (c / 4096) mod 64; 128 + (c / 64) mod 64; 128 + c mod 64].
Definition as_bytes (t : text) : bytes := concat (map utf8_of_char t).

(** A Unicode scalar value: what a [char] may be. *)
Definition scalar (c : char) : Prop := c < 55296 ∨ (57344 <= c ∧ c < 1114112).

(** ** Loaders *)

Inductive LoaderError :=
  | InvalidUtf8 (e : string)
  | UnsupportedFormat (e : string)
  | IoError (e : string)
  | ExtractionFailed (e : string).

Definition display_loader_error (e : LoaderError) : string :=
  match e with
  | InvalidUtf8 e => "Invalid UTF-8 in document content: " +:+ e
  | UnsupportedFormat e => "Unsupported document format: " +:+ e
  | IoError e => "IO error during extraction: " +:+ e
  | ExtractionFailed e => "Extraction failed: " +:+ e
  end.

Inductive LoaderOutput :=
  | LoadedText (t : text)
  | LoadedRows (rows : list text)
  | LoadedSingleChunk (t : text) (cut_type : string).

(** The trait [DocumentLoader]. *)
Record DocumentLoader := {
  dl_extract : bytes → Document → result LoaderError LoaderOutput;
  dl_engine_name : string;
}.

(** [LoaderRegistry] *)
Definition LoaderRegistry : Type := gmap string DocumentLoader.
Definition registry_new : LoaderRegistry := ∅.
Definition registry_register (document_type : string) (loader : DocumentLoader) (r : LoaderRegistry) : LoaderRegistry :=
  <[document_type := loader]> r.
Definition registry_get (document_type : string) (r : LoaderRegistry) : option DocumentLoader := r !! document_type.

(** [TextLoader::extract] *)
Definition text_extract (bs : bytes) (_ : Document) : result LoaderError LoaderOutput :=
  result_map LoadedText (map_err (λ e, InvalidUtf8 (display_utf8_error e)) (from_utf8 bs)).

Definition TextLoader : DocumentLoader := {| dl_extract := text_extract; dl_engine_name := "text_loader" |}.

Section csv.
(** The [csv] crate's reader: the headers, or an error, and the records in order. *)
Context (csv_headers : text → result string (list text)) (csv_records : text → list (result string (list text))).

(** The pairs of one record. *)
Definition csv_row (headers record : list text) : text :=
  text_join (ascii ", ") (map (λ '(col, val), col ++ ascii ": " ++ val) (zip headers record)).

(** The loop over the records. *)
Fixpoint csv_rows (headers : list text) (records : list (result string (list text))) : result LoaderError (list text) :=
  match records with
  | [] => Ok []
  | Err e :: _ => Err (ExtractionFailed e)
  | Ok record :: records => result_map (cons (csv_row headers record)) (csv_rows headers records)
  end.

(** [CsvLoader::extract] *)
Definition csv_extract (bs : bytes) (_ : Document) : result LoaderError LoaderOutput :=
  result_bind (map_err (λ e, InvalidUtf8 (display_utf8_error e)) (from_utf8 bs)) (λ t,
  result_bind (map_err ExtractionFailed (csv_headers t)) (λ headers,
  if decide (headers = []) then Ok (LoadedRows [])
  else result_map LoadedRows (csv_rows headers (csv_records t)))).

Definition CsvLoader : DocumentLoader := {| dl_extract := csv_extract; dl_engine_name := "csv_loader" |}.
End csv.

(** ** Decoding inverts encoding *)

#[local] Ltac Zify.zify_post_hook ::= Z.to_euclidean_division_equations.

Lemma from_utf8_char i c bs : scalar c → from_utf8_at i (utf8_of_char c ++ bs)
  = result_map (cons c) (from_utf8_at (len_utf8 c + i) bs).
Proof.
  intros Hc. unfold scalar in Hc. unfold utf8_of_char, len_utf8.
  assert (Hb : ∀ x, is_cont (128 + x mod 64) = true) by (intros x; unfold is_cont; lia).
  destruct (N.ltb_spec c 128); [simpl; by rewrite (proj2 (N.ltb_lt c 128))|].
  destruct (N.ltb_spec c 2048).
  { cbn [app from_utf8_at]. rewrite Hb.
    replace (_ <? 128) with false by lia. replace (_ && _) with true by lia. do 2 f_equal. lia. }
  destruct (N.ltb_spec c 65536).
  - cbn [app from_utf8_at]. rewrite Hb.
    replace (_ <? 128) with false by lia. replace (_ && _) with false by lia.
    replace (_ && _) with true by lia.
    assert (Hs : second_of_three (224 + c / 4096) (128 + (c / 64) mod 64) = true).
    { unfold second_of_three, is_cont. repeat case_match; lia. }
    rewrite Hs. cbn [negb]. do 2 f_equal. lia.
  - cbn [app from_utf8_at]. rewrite !Hb.
    replace (_ <? 128) with false by lia. replace (_ && _) with false by lia.
    replace (_ && _) with false by lia. replace (_ && _) with true by lia.
    assert (Hs : second_of_four (240 + c / 262144) (128 + (c / 4096) mod 64) = true).
    { unfold second_of_four, is_cont. repeat case_match; lia. }
    rewrite Hs. cbn [negb]. do 2 f_equal. lia.
Qed.

Lemma from_utf8_as_bytes t : Forall scalar t → from_utf8 (as_bytes t) = Ok t.
Proof.
  intros Ht. unfold from_utf8. generalize 0%nat. induction Ht as [|c t Hc Ht IH]; intros i; [done|].
  unfold as_bytes. simpl. rewrite from_utf8_char by done. by rewrite IH.
Qed.

(** The text loader reads back any text that was stored. *)
Lemma text_loader_reads t doc : Forall scalar t → dl_extract TextLoader (as_bytes t) doc = Ok (LoadedText t).
Proof. intros Ht. simpl. unfold text_extract. by rewrite from_utf8_as_bytes. Qed.
