(* ===== verification/StructuralEdges.v ===== *)
(** * Structural edges and edge types
    (crates/cognify/src/graph_extraction/extractable.rs, crates/models/src/edge_type.rs,
    crates/cognify/src/edge_evidence.rs, crates/cognify/src/tasks.rs)

    The edges the data points of a run name in their fields, the texts they get, the
    [EdgeType] points made of the texts of all edges, and the rows that say which chunk
    supports which edge. *)

From stdpp Require Import sorting.
From S2P Require Import Prelude Json Strings Text DataPoint Models Summarize Ledger Artifacts Loaders.
From S2P Require Import GraphTypes EdgeText Expansion Ownership DynamicWalk.
From Stdlib Require Import Ascii.
#[local] Open Scope nat_scope.

(** An edge as the graph stores it. *)
Notation EdgeData := (string * string * string * gmap string json)%type (only parsing).

(** ** Relationships *)

Record Relationship := { rl_field_name : string; rl_target_id : uuid }.

(** [&dyn GraphExtractable]: what the methods of the object return. *)
Record GraphExtractable := {
  data_point_id : uuid;
  data_point_type : string;
  relationships : list Relationship;
}.

(** A field that names one data point. *)
Definition field_relationship (field_name : string) (target : option uuid) : list Relationship :=
  match target with Some id => [{| rl_field_name := field_name; rl_target_id := id |}] | None => [] end.

(** The ids in [contains]. *)
Definition contained_ids (parse_str : string → option uuid) (c : DocumentChunk) : list uuid :=
  omap (λ entity_ref, id_str ← json_as_str entity_ref; parse_str id_str) (dc_contains c).

Definition chunk_extractable (parse_str : string → option uuid) (c : DocumentChunk) : GraphExtractable := {|
  data_point_id := dc_id c; data_point_type := dp_data_type (dc_base c);
  relationships := field_relationship "is_part_of" (dc_is_part_of c)
    ++ map (λ id, {| rl_field_name := "contains"; rl_target_id := id |}) (contained_ids parse_str c) |}.

Definition entity_extractable (e : Entity) : GraphExtractable := {|
  data_point_id := ent_id e; data_point_type := dp_data_type (ent_base e);
  relationships := field_relationship "is_a" (ent_is_a e) |}.

Definition type_extractable (et : EntityType) : GraphExtractable := {|
  data_point_id := et_id et; data_point_type := dp_data_type (et_base et); relationships := [] |}.

Definition ts_id (s : TextSummary) : uuid := dp_id (ts_base s).

Definition summary_extractable (s : TextSummary) : GraphExtractable := {|
  data_point_id := ts_id s; data_point_type := dp_data_type (ts_base s);
  relationships := field_relationship "made_from" (ts_made_from s) |}.

Section edges.
Context `{UuidFormat}.

(** [get_graph_from_model]: one relationship. *)
Definition push_relationship (now : string) (item : GraphExtractable)
    (acc : list EdgeData * gset (string * string * string)) (rel : Relationship)
    : list EdgeData * gset (string * string * string) :=
  let '(edges, seen) := acc in
  let source := uuid_to_string (data_point_id item) in
  let target := uuid_to_string (rl_target_id rel) in
  let key := (source, target, rl_field_name rel) in
  if decide (key ∈ seen) then (edges, seen)
  else (edges ++ [(source, target, rl_field_name rel, {["updated_at" := JString now]})], {[key]} ∪ seen).

Definition get_graph_from_model (now : string) (items : list GraphExtractable) : list EdgeData :=
  (foldl (λ acc item, foldl (push_relationship now item) acc (relationships item)) ([], ∅) items).1.
End edges.

(** ** Texts *)

(** What the storage stage gets; the failures it only forwards are left out. *)
Record SummarizedData := {
  sd_chunks : list DocumentChunk;
  sd_documents : list Document;
  sd_entities : list GraphNodePair;
  sd_timestamps : list TimestampNode;
  sd_edges : list GraphEdgePair;
  sd_producers : ArtifactProducers;
  sd_dynamic_graphs : list AttributedDynamicGraph;
  sd_summaries : list TextSummary;
  sd_dataset_id : uuid;
  sd_user_id : option uuid;
  sd_tenant_id : option uuid;
}.

(** The UTF-8 of a text. *)
Definition string_of_text (t : text) : string := utf8 (as_bytes t).

Definition label_pair (labels : EdgeLabels) (n : GraphNodePair) : EdgeLabels :=
  let labels := labels_insert (np_id n) (ent_name (np_entity n)) labels in
  match np_entity_type n with Some et => labels_insert (et_id et) (et_name et) labels | None => labels end.

(** The labels of a storage batch. *)
Definition batch_labels (input : SummarizedData) (dynamic_nodes : gmap uuid DynamicDataPoint) : EdgeLabels :=
  let labels := foldl (λ l '(id, node), labels_insert_label id (dy_label node) l) ∅ (map_to_list dynamic_nodes) in
  let labels := foldl (λ l c, labels_insert (dc_id c) (string_of_text (dc_text c)) l) labels (sd_chunks input) in
  let labels := foldl (λ l s, labels_insert (ts_id s) (ts_text s) l) labels (sd_summaries input) in
  let labels := foldl (λ l d, labels_insert (doc_id d) (doc_name d) l) labels (sd_documents input) in
  let labels := foldl label_pair labels (sd_entities input) in
  foldl (λ l t, labels_insert (tn_id t) (tm_name (tn_timestamp t)) l) labels (sd_timestamps input).

Section texts.
Context `{UuidFormat} (parse_str : string → option uuid).

(** The texts that say what a chunk mentions. *)
Definition mention (id : uuid) (name description : string) (mentions : gmap string string) : gmap string string :=
  match chunk_mentions_text name description with
  | Some t => <[uuid_to_string id := t]> mentions
  | None => mentions
  end.

Definition batch_mentions (input : SummarizedData) : gmap string string :=
  let mentions := foldl (λ m n, mention (np_id n) (ent_name (np_entity n)) (ent_description (np_entity n)) m) ∅
                    (sd_entities input) in
  foldl (λ m t, mention (tn_id t) (tm_name (tn_timestamp t)) (tn_description t) m) mentions (sd_timestamps input).

Definition mention_edge (mentions : gmap string string) (edge : EdgeData) : EdgeData :=
  let '(source_id, target_id, relationship, properties) := edge in
  if decide (relationship = "contains") then
    match mentions !! target_id with
    | Some t => (source_id, target_id, relationship, <[EDGE_TEXT_KEY := JString t]> properties)
    | None => edge
    end
  else edge.

(** [stamp_structural_edge_text] *)
Definition stamp_structural_edge_text (structural_edges dynamic_edges : list EdgeData) (input : SummarizedData)
    (dynamic_nodes : gmap uuid DynamicDataPoint) : list EdgeData * list EdgeData :=
  let labels := batch_labels input dynamic_nodes in
  let structural_edges := map (mention_edge (batch_mentions input)) structural_edges in
  ((ensure_default_edge_text parse_str structural_edges labels).1,
   (ensure_default_edge_text parse_str dynamic_edges labels).1).
End texts.

(** ** Edge types *)

Definition i32_max : Z := 2 ^ 31 - 1.

(** [i32::saturating_add] of counts. *)
Definition saturating_add (a b : Z) : Z := Z.min (a + b) i32_max.

(** [BTreeMap<String, i32>]: texts in the order of their bytes. *)
Definition text_le (x y : string * Z) : Prop := match String.compare x.1 y.1 with Gt => False | _ => True end.
#[export] Instance text_le_dec x y : Decision (text_le x y).
Proof. unfold text_le. destruct (String.compare x.1 y.1); [left|left|right]; tauto. Defined.

Definition count_text (counts : gmap string Z) (t : string) : gmap string Z :=
  if decide (t = "") then counts else <[t := (default 0 (counts !! t) + 1)%Z]> counts.

Definition counts_by_text (texts : list string) : list (string * Z) :=
  merge_sort text_le (map_to_list (foldl count_text ∅ texts)).

Section types.
Context `{UuidFormat, Lowercase} (new_v5 : uuid → string → uuid) (clock : string → chunk_env).

(** [EdgeType::point_id_for] *)
Definition point_id_for (edge_text : option string) (relationship_name : string) : option uuid :=
  let t := retrieval_text edge_text relationship_name in
  if decide (t = "") then None else Some (deterministic_id new_v5 t).

(** [EdgeType::new_deterministic] *)
Definition new_deterministic (relationship_name : string) (dataset_id : option uuid) : EdgeType :=
  let base := DataPoint_with_metadata (clock relationship_name) "EdgeType" dataset_id (index_fields ["relationship_name"]) in
  {| edge_base := dp_with_id (deterministic_id new_v5 relationship_name) base;
     edge_relationship_name := relationship_name; edge_number_of_edges := 0%Z |}.

Definition edge_id (et : EdgeType) : uuid := dp_id (edge_base et).

(** [base.touch()] *)
Definition dp_touch (now : Z) (dp : DataPoint) : DataPoint :=
  dp_rewritten (dp_id dp) now (dp_ontology_valid dp) (dp_metadata dp) (dp_belongs_to_set dp) (dp_importance_weight dp) dp.

(** [EdgeType::set_count] *)
Definition set_count (count : Z) (et : EdgeType) : EdgeType :=
  {| edge_base := dp_touch (ce_touched (clock (edge_relationship_name et))) (edge_base et);
     edge_relationship_name := edge_relationship_name et; edge_number_of_edges := count |}.

(** One text of [build_edge_types]; [slot_of] are places in [folded]. *)
Definition fold_text (dataset_id : uuid) (acc : gmap uuid nat * list EdgeType) (counted : string * Z)
    : gmap uuid nat * list EdgeType :=
  let '(slot_of, folded) := acc in
  let '(t, count) := counted in
  let id := deterministic_id new_v5 t in
  match slot_of !! id with
  | Some idx => (slot_of, alter (λ existing, set_count (saturating_add (edge_number_of_edges existing) count) existing) idx folded)
  | None => (<[id := length folded]> slot_of,
             folded ++ [set_count count (new_deterministic t (Some dataset_id))])
  end.

(** [build_edge_types] *)
Definition build_edge_types (texts : list string) (dataset_id : uuid) : list EdgeType :=
  (foldl (fold_text dataset_id) (∅, []) (counts_by_text texts)).2.
End types.

(** [edge_retrieval_text] (tasks.rs) *)
Definition pair_retrieval_text (e : GraphEdgePair) : string :=
  retrieval_text (ep_properties e !! EDGE_TEXT_KEY) (ep_relationship_name e).

(** The text of a stored edge. *)
Definition data_retrieval_text (e : EdgeData) : string :=
  let '(_, _, relationship, properties) := e in retrieval_text (properties !! EDGE_TEXT_KEY ≫= json_as_str) relationship.

(** ** Evidence *)

Definition KIND_EXTRACTED : string := "extracted".
Definition KIND_STRUCTURAL : string := "structural".

Record EvidenceScope := {
  es_tenant_id : option uuid;
  es_user_id : uuid;
  es_dataset_id : uuid;
  es_pipeline_run_id : option uuid;
  es_captured_at : Z;
}.

Record EdgeEvidence := {
  ev_id : uuid; ev_tenant_id : option uuid; ev_user_id : uuid; ev_dataset_id : uuid; ev_data_id : uuid;
  ev_pipeline_run_id : option uuid; ev_chunk_id : uuid; ev_chunk_index : option nat; ev_edge_id : uuid;
  ev_source_node_id : uuid; ev_destination_node_id : uuid; ev_relationship_name : string;
  ev_evidence_kind : string; ev_source_task : option string; ev_confidence : option json; ev_created_at : Z;
}.

(** A support of an edge: its kind, ends, relationship and confidence. *)
Notation Support := (string * uuid * uuid * string * option json)%type (only parsing).

Section evidence.
Context `{UuidFormat, Lowercase} (new_v5 : uuid → string → uuid) (parse_str : string → option uuid)
  (namespace_url : uuid) (as_f64 : json → option json).

Definition unit_separator : string := String (ascii_of_nat 31) EmptyString.

(** [evidence_id] *)
Definition evidence_id (scope : EvidenceScope) (data_id chunk_id edge_id : uuid) (evidence_kind : string) : uuid :=
  let parts := [from_option uuid_to_string "" (es_tenant_id scope); uuid_to_string (es_user_id scope);
                uuid_to_string (es_dataset_id scope); uuid_to_string data_id;
                from_option uuid_to_string "" (es_pipeline_run_id scope); uuid_to_string chunk_id;
                uuid_to_string edge_id; evidence_kind] in
  new_v5 namespace_url ("cognee:edge-evidence:v1:" +:+ join unit_separator parts).

(** [confidence] *)
Definition confidence (properties : gmap string json) : option json := properties !! "confidence" ≫= as_f64.

(** The order of edge keys. *)
Definition edge_key_le (x y : (uuid * uuid * string) * list uuid) : Prop :=
  let '((s, t, r), _) := x in let '((s', t', r'), _) := y in
  (s < s' ∨ s = s' ∧ (t < t' ∨ t = t' ∧ match String.compare r r' with Gt => False | _ => True end))%N.
#[export] Instance edge_key_le_dec x y : Decision (edge_key_le x y).
Proof.
  destruct x as [[[s t] r] l], y as [[[s' t'] r'] l']. unfold edge_key_le.
  destruct (String.compare r r'); apply _.
Defined.

Definition push_support (chunk_id : uuid) (s : Support) (by_chunk : gmap uuid (list Support)) : gmap uuid (list Support) :=
  <[chunk_id := default [] (by_chunk !! chunk_id) ++ [s]]> by_chunk.

(** The supports of extraction, in key order, and the structural ones. *)
Definition extracted_supports (producers : ArtifactProducers) (by_chunk : gmap uuid (list Support)) : gmap uuid (list Support) :=
  foldl (λ m '((source, target, relationship), chunk_ids),
           foldl (λ m chunk_id, push_support chunk_id (KIND_EXTRACTED, source, target, relationship, None) m) m chunk_ids)
    by_chunk (merge_sort edge_key_le (map_to_list (ap_edges producers))).

Definition structural_supports (chunk_ids : gset uuid) (structural_edges : list EdgeData)
    (by_chunk : gmap uuid (list Support)) : gmap uuid (list Support) :=
  foldl (λ m '(source, target, relationship, properties),
           match parse_str source, parse_str target with
           | Some source_id, Some target_id =>
               if decide (source_id ∈ chunk_ids)
               then push_support source_id (KIND_STRUCTURAL, source_id, target_id, relationship, confidence properties) m
               else m
           | _, _ => m
           end) by_chunk structural_edges.

Definition evidence_row (scope : EvidenceScope) (chunk : DocumentChunk) (s : Support) : EdgeEvidence :=
  let '(kind, source, destination, relationship, confidence) := s in
  let edge_id := triplet_slug new_v5 source relationship destination in
  {| ev_id := evidence_id scope (dc_document_id chunk) (dc_id chunk) edge_id kind;
     ev_tenant_id := es_tenant_id scope; ev_user_id := es_user_id scope; ev_dataset_id := es_dataset_id scope;
     ev_data_id := dc_document_id chunk; ev_pipeline_run_id := es_pipeline_run_id scope; ev_chunk_id := dc_id chunk;
     ev_chunk_index := if decide (Z.of_nat (dc_chunk_index chunk) ≤ i32_max)%Z then Some (dc_chunk_index chunk) else None;
     ev_edge_id := edge_id; ev_source_node_id := source; ev_destination_node_id := destination;
     ev_relationship_name := relationship; ev_evidence_kind := kind;
     ev_source_task := dp_source_task (dc_base chunk); ev_confidence := confidence; ev_created_at := es_captured_at scope |}.

(** A row unless there is one of its id. *)
Definition push_evidence (acc : list EdgeEvidence * gset uuid) (row : EdgeEvidence) : list EdgeEvidence * gset uuid :=
  let '(rows, seen) := acc in
  if decide (ev_id row ∈ seen) then (rows, seen) else (rows ++ [row], {[ev_id row]} ∪ seen).

(** [build_edge_evidence] *)
Definition build_edge_evidence (scope : EvidenceScope) (chunks : list DocumentChunk) (structural_edges : list EdgeData)
    (producers : ArtifactProducers) : list EdgeEvidence :=
  let by_chunk := structural_supports (list_to_set (map dc_id chunks)) structural_edges (extracted_supports producers ∅) in
  (foldl (λ acc chunk, foldl push_evidence acc (map (evidence_row scope chunk) (default [] (by_chunk !! dc_id chunk))))
     ([], ∅) chunks).1.
End evidence.
