(* ===== verification/StructuralFacts.v ===== *)
(** * Theorems of structural edges and edge types

    The edges found in the fields of data points are those the fields name, once each;
    the edge types are one per point id, with the least text and the count of all texts
    of that id; the evidence rows are one per support of a chunk. *)

From stdpp Require Import sorting.
From S2P Require Import Prelude Json Strings Text DataPoint Models Summarize Ledger Artifacts Loaders.
From S2P Require Import GraphTypes EdgeText Expansion ExpansionFacts ExpansionSpec Ownership OwnershipFacts DynamicWalk.
From S2P Require Import StructuralEdges.
From Stdlib Require Import Ascii.
#[local] Open Scope nat_scope.

(** ** Structural edges *)

Section edges.
Context `{UuidFormat}.

Definition edge_data_key (e : EdgeData) : string * string * string := let '(s, t, r, _) := e in (s, t, r).

Definition relationship_key (item : GraphExtractable) (rel : Relationship) : string * string * string :=
  (uuid_to_string (data_point_id item), uuid_to_string (rl_target_id rel), rl_field_name rel).

(** The edges so far have the keys seen, once each, and nothing but their time. *)
Definition edges_inv (now : string) (acc : list EdgeData * gset (string * string * string)) : Prop :=
  NoDup (map edge_data_key acc.1) ∧ acc.2 = list_to_set (map edge_data_key acc.1)
  ∧ Forall (λ e, e.2 = {["updated_at" := JString now]}) acc.1.

Lemma push_relationship_inv now item acc rel : edges_inv now acc →
  edges_inv now (push_relationship now item acc rel)
  ∧ ∀ k, k ∈ map edge_data_key (push_relationship now item acc rel).1 ↔
         k ∈ map edge_data_key acc.1 ∨ k = relationship_key item rel.
Proof.
  destruct acc as [edges seen]. unfold edges_inv. simpl. intros (Hnd & -> & Hall).
  fold (relationship_key item rel). case_decide as Hin; simpl.
  - split; [done|]. intros k. apply elem_of_list_to_set in Hin. naive_solver.
  - assert (Hnin : relationship_key item rel ∉ map edge_data_key edges) by (intros Hk; by apply Hin, elem_of_list_to_set).
    rewrite map_app. simpl. fold (relationship_key item rel). split_and!.
    + apply NoDup_app. split_and!; [done| |apply NoDup_singleton]. by intros k Hk ->%list_elem_of_singleton.
    + rewrite list_to_set_app_L. simpl. set_solver.
    + apply Forall_app. split; [done|]. by constructor.
    + intros k. rewrite elem_of_app, list_elem_of_singleton. done.
Qed.

Lemma push_relationships_inv now item rels : ∀ acc, edges_inv now acc →
  let acc' := foldl (push_relationship now item) acc rels in
  edges_inv now acc' ∧ ∀ k, k ∈ map edge_data_key acc'.1 ↔
    k ∈ map edge_data_key acc.1 ∨ ∃ rel, rel ∈ rels ∧ k = relationship_key item rel.
Proof.
  induction rels as [|rel rels IH]; intros acc Hinv; simpl.
  - split; [done|]. intros k. split; [by left|]. by intros [?|(r & []%not_elem_of_nil & _)].
  - destruct (push_relationship_inv now item acc rel Hinv) as [Hinv1 Hk1].
    destruct (IH _ Hinv1) as [Hinv2 Hk2]. split; [done|]. intros k. rewrite Hk2, Hk1. setoid_rewrite elem_of_cons. naive_solver.
Qed.

Lemma model_inv now items : let acc := foldl (λ acc item, foldl (push_relationship now item) acc (relationships item)) ([], ∅) items in
  edges_inv now acc ∧ ∀ k, k ∈ map edge_data_key acc.1 ↔
    ∃ item rel, item ∈ items ∧ rel ∈ relationships item ∧ k = relationship_key item rel.
Proof.
  assert (Hgo : ∀ acc, edges_inv now acc →
    let acc' := foldl (λ acc item, foldl (push_relationship now item) acc (relationships item)) acc items in
    edges_inv now acc' ∧ ∀ k, k ∈ map edge_data_key acc'.1 ↔ k ∈ map edge_data_key acc.1
      ∨ ∃ item rel, item ∈ items ∧ rel ∈ relationships item ∧ k = relationship_key item rel).
  { induction items as [|item items IH]; intros acc Hinv; simpl.
    - split; [done|]. intros k. split; [by left|]. by intros [?|(i & r & []%not_elem_of_nil & _)].
    - destruct (push_relationships_inv now item (relationships item) acc Hinv) as [Hinv1 Hk1].
      destruct (IH _ Hinv1) as [Hinv2 Hk2]. split; [done|]. intros k. rewrite Hk2, Hk1. setoid_rewrite elem_of_cons. naive_solver. }
  destruct (Hgo ([], ∅)) as [Hinv Hk]; [by split_and!; [constructor|..]|].
  split; [done|]. intros k. rewrite Hk. simpl. rewrite elem_of_nil. naive_solver.
Qed.

(** An edge comes of a field. *)
Lemma model_edges_named now items e : e ∈ get_graph_from_model now items →
  ∃ item rel, item ∈ items ∧ rel ∈ relationships item ∧ e.1.2 = rl_field_name rel.
Proof.
  intros He. destruct (proj1 (proj2 (model_inv now items) (edge_data_key e))) as (item & rel & Hitem & Hrel & Hk).
  { by apply list_elem_of_fmap_2. }
  exists item, rel. split_and!; [done|done|]. destruct e as [[[s t] r] p]. unfold relationship_key in Hk. by simplify_eq/=.
Qed.

(** The structural edges of a batch are those the fields of its data points name,
    each once, whatever fields name it again. *)
Theorem get_graph_from_model_spec now items :
  NoDup (map edge_data_key (get_graph_from_model now items))
  ∧ (∀ k, k ∈ map edge_data_key (get_graph_from_model now items) ↔
       ∃ item rel, item ∈ items ∧ rel ∈ relationships item ∧ k = relationship_key item rel)
  ∧ Forall (λ e, e.2 = {["updated_at" := JString now]}) (get_graph_from_model now items).
Proof. destruct (model_inv now items) as [(Hnd & _ & Hall) Hk]. by split_and!. Qed.
End edges.

(** ** Edge types *)

Section types.
Context `{UuidFormat, Lowercase} (new_v5 : uuid → string → uuid) (clock : string → chunk_env).
Notation id_of := (deterministic_id new_v5).

(** *** Counting *)

(** The sum of the counts of the texts of an id. *)
Definition sum_counts (id : uuid) (l : list (string * Z)) : Z :=
  foldr (λ x acc, if decide (id_of x.1 = id) then (x.2 + acc)%Z else acc) 0%Z l.

Lemma sum_counts_perm id l k : l ≡ₚ k → sum_counts id l = sum_counts id k.
Proof. induction 1; simpl; repeat case_decide; lia. Qed.

(** The texts of an id. *)
Definition texts_of (id : uuid) (texts : list string) : list string := filter (λ t, t ≠ "" ∧ id_of t = id) texts.

Lemma sum_counts_insert id (m : gmap string Z) t :
  sum_counts id (map_to_list (<[t := (default 0 (m !! t) + 1)%Z]> m))
  = (sum_counts id (map_to_list m) + (if decide (id_of t = id) then 1 else 0))%Z.
Proof.
  destruct (m !! t) as [c|] eqn:Ht; simpl.
  - rewrite <-(insert_delete_eq m t (c + 1)%Z).
    rewrite (sum_counts_perm _ _ _ (map_to_list_insert (delete t m) t (c + 1)%Z (lookup_delete_eq m t))).
    rewrite <-(insert_delete_id m t c Ht) at 2.
    rewrite (sum_counts_perm _ _ _ (map_to_list_insert (delete t m) t c (lookup_delete_eq m t))).
    simpl. case_decide; lia.
  - rewrite (sum_counts_perm _ _ _ (map_to_list_insert m t _ Ht)). simpl. case_decide; lia.
Qed.

Lemma counts_sum id texts : ∀ m, sum_counts id (map_to_list (foldl count_text m texts))
  = (sum_counts id (map_to_list m) + Z.of_nat (length (texts_of id texts)))%Z.
Proof.
  unfold texts_of. induction texts as [|t texts IH]; intros m; simpl; [lia|].
  rewrite IH. unfold count_text. rewrite filter_cons. destruct (decide (t = "")) as [->|Hne].
  - rewrite decide_False by naive_solver. done.
  - rewrite sum_counts_insert. repeat case_decide; simpl; try naive_solver lia; lia.
Qed.

Lemma counts_dom t texts : ∀ m, is_Some (foldl count_text m texts !! t) ↔ is_Some (m !! t) ∨ (t ∈ texts ∧ t ≠ "").
Proof.
  induction texts as [|t' texts IH]; intros m; simpl.
  - rewrite elem_of_nil. naive_solver.
  - rewrite IH, elem_of_cons. unfold count_text. case_decide as Hne; [naive_solver|].
    rewrite lookup_insert_is_Some'. naive_solver.
Qed.

Lemma counts_pos texts : ∀ m, map_Forall (λ _ c, 0 < c)%Z m → map_Forall (λ _ c, 0 < c)%Z (foldl count_text m texts).
Proof.
  induction texts as [|t texts IH]; intros m Hm; simpl; [done|]. apply IH. unfold count_text. case_decide; [done|].
  apply map_Forall_insert_2; [|done]. destruct (m !! t) as [c|] eqn:Ht; simpl; [|lia]. specialize (Hm t c Ht). simpl in Hm. lia.
Qed.

(** *** Order *)

#[local] Instance text_le_total : Total text_le.
Proof.
  intros x y. unfold text_le. rewrite (String.compare_antisym x.1 y.1). by destruct (String.compare y.1 x.1); simpl; auto.
Qed.

Lemma counts_by_text_perm texts : counts_by_text texts ≡ₚ map_to_list (foldl count_text ∅ texts).
Proof. apply merge_sort_Permutation. Qed.

Lemma counts_by_text_lookup t c texts : (t, c) ∈ counts_by_text texts ↔ foldl count_text ∅ texts !! t = Some c.
Proof. by rewrite counts_by_text_perm, elem_of_map_to_list. Qed.

Lemma elem_of_counts_by_text t texts : (∃ c, (t, c) ∈ counts_by_text texts) ↔ t ∈ texts ∧ t ≠ "".
Proof.
  setoid_rewrite counts_by_text_lookup.
  pose proof (counts_dom t texts ∅) as Hd. rewrite lookup_empty in Hd. unfold is_Some in Hd. naive_solver.
Qed.

Lemma compare_refl x : String.compare x x = Eq.
Proof. induction x as [|a x IH]; [done|]. simpl. unfold Ascii.compare. by rewrite N.compare_refl. Qed.

Lemma compare_trans x : ∀ y z, String.compare x y ≠ Gt → String.compare y z ≠ Gt → String.compare x z ≠ Gt.
Proof.
  induction x as [|a x IH]; intros [|b y] [|c z]; simpl; try done. unfold Ascii.compare.
  destruct (N.compare_spec (N_of_ascii a) (N_of_ascii b)) as [Hab|Hab|Hab];
    destruct (N.compare_spec (N_of_ascii b) (N_of_ascii c)) as [Hbc|Hbc|Hbc];
    destruct (N.compare_spec (N_of_ascii a) (N_of_ascii c)) as [Hac|Hac|Hac]; try done; try lia. apply IH.
Qed.

#[local] Instance text_le_trans : Transitive text_le.
Proof.
  assert (Hle : ∀ x y, text_le x y ↔ String.compare x.1 y.1 ≠ Gt).
  { intros x y. unfold text_le. by destruct (String.compare x.1 y.1). }
  intros x y z. rewrite !Hle. apply compare_trans.
Qed.

Lemma counts_by_text_sorted texts : StronglySorted text_le (counts_by_text texts).
Proof. apply Sorted_StronglySorted; [apply _|]. apply Sorted_merge_sort. apply _. Qed.

(** *** Folding *)

(** What has been folded of the texts gone through: one point per id, with the first
    text of that id and the sum of their counts. *)
Record folded_ok (past : list (string * Z)) (acc : gmap uuid nat * list EdgeType) : Prop := {
  fo_slots : ∀ id idx, acc.1 !! id = Some idx ↔ edge_id <$> acc.2 !! idx = Some id;
  fo_seen : ∀ x, x ∈ past → is_Some (acc.1 !! id_of x.1);
  fo_points : ∀ et, et ∈ acc.2 → edge_number_of_edges et = sum_counts (edge_id et) past
    ∧ ∃ before c after, past = before ++ (edge_relationship_name et, c) :: after
      ∧ id_of (edge_relationship_name et) = edge_id et ∧ ∀ x, x ∈ before → id_of x.1 ≠ edge_id et;
}.

Lemma set_count_id c et : edge_id (set_count clock c et) = edge_id et.
Proof. done. Qed.

Lemma sum_counts_app id l k : sum_counts id (l ++ k) = (sum_counts id l + sum_counts id k)%Z.
Proof. unfold sum_counts. induction l as [|x l IH]; simpl; [lia|]. case_decide; lia. Qed.

Lemma sum_counts_none id l : (∀ x, x ∈ l → id_of x.1 ≠ id) → sum_counts id l = 0%Z.
Proof.
  induction l as [|x l IH]; intros Hl; simpl; [done|]. rewrite decide_False by (apply Hl; left). apply IH.
  intros y Hy. apply Hl. by right.
Qed.

Lemma fold_text_ok dataset_id past acc t c : folded_ok past acc →
  (sum_counts (id_of t) past + c ≤ i32_max)%Z →
  folded_ok (past ++ [(t, c)]) (fold_text new_v5 clock dataset_id acc (t, c)).
Proof.
  destruct acc as [slots folded]. intros [Hslots Hseen Hpoints] Hmax. simpl in *. unfold fold_text.
  destruct (slots !! id_of t) as [idx|] eqn:Hslot.
  - pose proof Hslot as Hidx. apply Hslots in Hidx.
    set (f := λ existing, set_count clock (saturating_add (edge_number_of_edges existing) c) existing).
    assert (Hids : ∀ i, edge_id <$> alter f idx folded !! i = edge_id <$> folded !! i).
    { intros i. destruct (decide (i = idx)) as [->|Hne]; [|by rewrite list_lookup_alter_ne].
      rewrite list_lookup_alter_eq. by destruct (folded !! idx). }
    split; simpl.
    + intros id i. by rewrite Hids.
    + intros x [Hx| ->%list_elem_of_singleton]%elem_of_app; [by apply Hseen|by exists idx].
    + intros et [i Hi]%list_elem_of_lookup. destruct (decide (i = idx)) as [->|Hne].
      * rewrite list_lookup_alter_eq in Hi. destruct (folded !! idx) as [old|] eqn:Hold; [|done]. injection Hi as <-.
        simpl in Hidx. injection Hidx as Hid.
        destruct (Hpoints old) as (Hcount & before & c0 & after & -> & Hname & Hbefore); [by eapply list_elem_of_lookup_2|].
        unfold f. rewrite set_count_id. simpl. split.
        -- rewrite sum_counts_app. simpl. rewrite decide_True by done. rewrite Hcount, Hid. unfold saturating_add. lia.
        -- exists before, c0, (after ++ [(t, c)]). split_and!; [by rewrite <-app_assoc|done|done].
      * rewrite list_lookup_alter_ne in Hi by done.
        destruct (Hpoints et) as (Hcount & before & c0 & after & -> & Hname & Hbefore); [by eapply list_elem_of_lookup_2|].
        split; [|exists before, c0, (after ++ [(t, c)]); by rewrite <-app_assoc].
        rewrite sum_counts_app. simpl. rewrite decide_False; [lia|]. intros Heq.
        assert (Hi' : slots !! id_of t = Some i) by (apply Hslots; rewrite Hi, Heq; done). congruence.
  - assert (Hnone : ∀ x, x ∈ past → id_of x.1 ≠ id_of t).
    { intros x Hx Heq. destruct (Hseen x Hx) as [i Hi]. congruence. }
    split; simpl.
    + intros id i. rewrite lookup_insert_Some. destruct (decide (i < length folded)) as [Hlt|Hge].
      * rewrite lookup_app_l by done. rewrite <-Hslots. split; [intros [[<- <-]|[_ ?]]; [lia|done]|].
        intros Hid. right. split; [congruence|done].
      * rewrite lookup_app_r by lia. destruct (i - length folded) as [|k] eqn:Hk; simpl.
        -- replace i with (length folded) by lia. split; [intros [[<- _]|[_ Hid]]|intros [= <-]; by left]; [done|].
           apply Hslots in Hid. rewrite lookup_ge_None_2 in Hid by lia. done.
        -- split; [|done]. intros [[<- <-]|[_ Hid]]; [lia|]. apply Hslots in Hid. rewrite lookup_ge_None_2 in Hid by lia. done.
    + intros x [Hx| ->%list_elem_of_singleton]%elem_of_app; apply lookup_insert_is_Some'; [right; by apply Hseen|by left].
    + intros et [Het| ->%list_elem_of_singleton]%elem_of_app.
      * destruct (Hpoints et Het) as (Hcount & before & c0 & after & -> & Hname & Hbefore).
        split; [|exists before, c0, (after ++ [(t, c)]); by rewrite <-app_assoc].
        rewrite sum_counts_app. simpl. rewrite decide_False; [lia|]. intros Heq.
        apply (Hnone (edge_relationship_name et, c0)); [|simpl; congruence]. apply elem_of_app. right. left.
      * rewrite set_count_id. simpl. unfold edge_id. simpl. split.
        -- rewrite sum_counts_app, (sum_counts_none _ past Hnone). simpl. rewrite decide_True by done. lia.
        -- exists past, c, []. done.
Qed.

Lemma sum_counts_nonneg id l : Forall (λ x, 0 < x.2)%Z l → (0 ≤ sum_counts id l)%Z.
Proof. induction 1; simpl; [lia|]. case_decide; lia. Qed.

Lemma fold_texts_ok dataset_id l : ∀ past acc, folded_ok past acc → Forall (λ x, 0 < x.2)%Z l →
  (∀ id, sum_counts id (past ++ l) ≤ i32_max)%Z →
  folded_ok (past ++ l) (foldl (fold_text new_v5 clock dataset_id) acc l).
Proof.
  induction l as [|[t c] l IH]; intros past acc Hok Hpos Hmax; simpl; [by rewrite app_nil_r|].
  apply Forall_cons in Hpos as [Hc Hpos]. rewrite (cons_middle (t, c) past l), app_assoc in *.
  apply IH; [|done|done]. apply fold_text_ok; [done|]. specialize (Hmax (id_of t)).
  rewrite !sum_counts_app in Hmax. simpl in Hmax. rewrite decide_True in Hmax by done.
  pose proof (sum_counts_nonneg (id_of t) l Hpos). lia.
Qed.

(** Whatever the counts, the points are those of the ids of the nonblank texts. *)
Lemma build_edge_types_ids texts dataset_id id :
  id ∈ map edge_id (build_edge_types new_v5 clock texts dataset_id) ↔ ∃ t, t ∈ texts ∧ t ≠ "" ∧ id_of t = id.
Proof.
  set (ids_ok := λ (past : list (string * Z)) (acc : gmap uuid nat * list EdgeType),
    (∀ id idx, acc.1 !! id = Some idx → edge_id <$> acc.2 !! idx = Some id)
    ∧ (∀ x, x ∈ past → is_Some (acc.1 !! id_of x.1)) ∧ ∀ et, et ∈ acc.2 → ∃ x, x ∈ past ∧ id_of x.1 = edge_id et).
  assert (Hgo : ∀ l past acc, ids_ok past acc → ids_ok (past ++ l) (foldl (fold_text new_v5 clock dataset_id) acc l)).
  { induction l as [|[t c] l IH]; intros past acc Hok; simpl; [by rewrite app_nil_r|].
    rewrite (cons_middle (t, c) past l), app_assoc. apply IH. destruct acc as [slots folded], Hok as (Hs & Hp & Hf).
    simpl in *. unfold fold_text. destruct (slots !! id_of t) as [idx|] eqn:Hslot; split_and!; simpl.
    - intros i k Hk%Hs. destruct (decide (idx = k)) as [->|Hne]; [|by rewrite list_lookup_alter_ne].
      rewrite list_lookup_alter_eq. by destruct (folded !! k).
    - intros x [Hx| ->%list_elem_of_singleton]%elem_of_app; [by apply Hp|by exists idx].
    - intros et Het. assert (edge_id et ∈ map edge_id folded) as (et' & Hid & Het')%list_elem_of_fmap.
      { apply list_elem_of_lookup in Het as [k Hk]. destruct (decide (idx = k)) as [->|Hne].
        - rewrite list_lookup_alter_eq in Hk. destruct (folded !! k) as [et0|] eqn:Hold; [|done].
          apply list_elem_of_fmap. exists et0. injection Hk as <-. split; [done|by eapply list_elem_of_lookup_2].
        - rewrite list_lookup_alter_ne in Hk by done. apply list_elem_of_fmap_2. by eapply list_elem_of_lookup_2. }
      destruct (Hf et' Het') as (x & Hx & Hxid). exists x. split; [apply elem_of_app; by left|congruence].
    - intros i k [[<- <-]|[Hne Hk%Hs]]%lookup_insert_Some; [by rewrite list_lookup_middle|].
      destruct (folded !! k) as [et|] eqn:Hf'; [|done]. by rewrite (lookup_app_l_Some _ _ _ _ Hf').
    - intros x [Hx| ->%list_elem_of_singleton]%elem_of_app; apply lookup_insert_is_Some'; [right; by apply Hp|by left].
    - intros et [(x & Hx & Hxid)%Hf| ->%list_elem_of_singleton]%elem_of_app.
      + exists x. split; [apply elem_of_app; by left|done].
      + exists (t, c). split; [apply elem_of_app; right; by left|done]. }
  destruct (Hgo (counts_by_text texts) [] (∅, [])) as (Hs & Hp & Hf).
  { split_and!; simpl; [by intros ? ? ?%lookup_empty_Some|by intros ? ?%not_elem_of_nil..]. }
  simpl in *. unfold build_edge_types. split.
  - intros (et & -> & (x & Hx & Hid)%Hf)%list_elem_of_fmap. destruct x as [t c]. exists t.
    destruct (proj1 (elem_of_counts_by_text t texts) (ex_intro _ c Hx)) as [? ?]. done.
  - intros (t & Ht & Hne & <-). destruct (proj2 (elem_of_counts_by_text t texts) (conj Ht Hne)) as [c Hin].
    destruct (Hp _ Hin) as [i Hi%Hs]. simpl in Hi. destruct (_ !! i) as [et|] eqn:Het; [|done]. injection Hi as <-.
    apply list_elem_of_fmap_2. by eapply list_elem_of_lookup_2.
Qed.

(** Over the texts of all edges of a run, each nonblank text has the point of its id; of
    the texts that share an id, as spellings of one name do, the point has the least, and
    as its count how often any of them occurs; and there is no other point. *)
Theorem build_edge_types_spec texts dataset_id : (Z.of_nat (length texts) ≤ i32_max)%Z →
  let folded := build_edge_types new_v5 clock texts dataset_id in
  NoDup (map edge_id folded)
  ∧ (∀ id, id ∈ map edge_id folded ↔ ∃ t, t ∈ texts ∧ t ≠ "" ∧ id_of t = id)
  ∧ ∀ et, et ∈ folded →
      let name := edge_relationship_name et in
      name ∈ texts ∧ name ≠ "" ∧ edge_id et = id_of name
      ∧ (∀ t, t ∈ texts → t ≠ "" → id_of t = id_of name → String.compare name t ≠ Gt)
      ∧ edge_number_of_edges et = Z.of_nat (length (texts_of (id_of name) texts)).
Proof.
  intros Hlen folded. assert (Hsum : ∀ id, sum_counts id (counts_by_text texts) = Z.of_nat (length (texts_of id texts))).
  { intros id. rewrite (sum_counts_perm _ _ _ (counts_by_text_perm texts)), counts_sum. by rewrite map_to_list_empty. }
  assert (Hok : folded_ok (counts_by_text texts) (foldl (fold_text new_v5 clock dataset_id) (∅, []) (counts_by_text texts))).
  { apply (fold_texts_ok dataset_id (counts_by_text texts) []).
    - split; simpl; [|by intros ? ?%not_elem_of_nil..]. intros id idx. rewrite lookup_empty. by destruct idx.
    - apply Forall_forall. intros [t c] Hx%counts_by_text_lookup. simpl.
      apply (counts_pos texts ∅ (map_Forall_empty _) t c Hx).
    - intros id. simpl. rewrite Hsum. unfold texts_of. pose proof (length_filter (λ t, t ≠ "" ∧ id_of t = id) texts). lia. }
  destruct Hok as [Hslots Hseen Hpoints]. unfold folded, build_edge_types. set (acc := foldl _ _ _) in *.
  assert (Hname : ∀ et, et ∈ acc.2 → edge_id et = id_of (edge_relationship_name et)
    ∧ (∃ c, (edge_relationship_name et, c) ∈ counts_by_text texts)
    ∧ ∀ t, t ∈ texts → t ≠ "" → id_of t = edge_id et → String.compare (edge_relationship_name et) t ≠ Gt).
  { intros et Het. destruct (Hpoints et Het) as (_ & before & c & after & Heq & Hid & Hbefore). split_and!; [done| |].
    - exists c. rewrite Heq. apply elem_of_app. right. left.
    - intros t Ht Hne Htid. destruct (proj2 (elem_of_counts_by_text t texts) (conj Ht Hne)) as [c' Hin].
      pose proof (counts_by_text_sorted texts) as Hsorted. rewrite Heq in Hin, Hsorted.
      apply elem_of_app in Hin as [Hin|[[= -> _]|Hin]%elem_of_cons].
      + by destruct (Hbefore _ Hin).
      + by rewrite compare_refl.
      + apply StronglySorted_app in Hsorted as (_ & _ & Hafter). apply StronglySorted_inv in Hafter as [_ Hafter].
        rewrite Forall_forall in Hafter. specialize (Hafter _ Hin). unfold text_le in Hafter. simpl in Hafter.
        by destruct (String.compare _ t). }
  split_and!.
  - apply NoDup_alt. intros i j id Hi Hj. change (map edge_id) with (fmap (M := list) edge_id) in Hi, Hj.
    rewrite list_lookup_fmap in Hi, Hj. apply Hslots in Hi, Hj. congruence.
  - intros id. split.
    + intros (et & -> & Het)%list_elem_of_fmap. destruct (Hname et Het) as (Hid & Hin%elem_of_counts_by_text & _).
      exists (edge_relationship_name et). destruct Hin. done.
    + intros (t & Ht & Hne & <-). destruct (proj2 (elem_of_counts_by_text t texts) (conj Ht Hne)) as [c Hin].
      destruct (Hseen _ Hin) as [i Hi]. apply Hslots in Hi. simpl in Hi.
      destruct (acc.2 !! i) as [et|] eqn:Het; [|done]. injection Hi as <-.
      apply list_elem_of_fmap_2. by eapply list_elem_of_lookup_2.
  - intros et Het. destruct (Hname et Het) as (Hid & Hin%elem_of_counts_by_text & Hleast).
    destruct Hin as [Hin Hne]. split_and!; [done|done|done| |].
    + intros t Ht Htne Htid. apply Hleast; [done|done|congruence].
    + destruct (Hpoints et Het) as [-> _]. by rewrite Hsum, Hid.
Qed.
End types.

(** ** Evidence *)

Section evidence.
Context `{UuidFormat, Lowercase} (new_v5 : uuid → string → uuid) (parse_str : string → option uuid)
  (namespace_url : uuid) (as_f64 : json → option json) (scope : EvidenceScope).

Definition supports_in (by_chunk : gmap uuid (list Support)) (c : uuid) (s : Support) : Prop := s ∈ default [] (by_chunk !! c).

Lemma push_support_in c s m c' s' : supports_in (push_support c s m) c' s' ↔ supports_in m c' s' ∨ (c' = c ∧ s' = s).
Proof.
  unfold supports_in, push_support. destruct (decide (c = c')) as [<-|Hne].
  - rewrite lookup_insert_eq. simpl. rewrite elem_of_app, list_elem_of_singleton. naive_solver.
  - rewrite lookup_insert_ne by done. naive_solver.
Qed.

Lemma push_supports_in s cs : ∀ m c' s',
  supports_in (foldl (λ m chunk_id, push_support chunk_id s m) m cs) c' s' ↔ supports_in m c' s' ∨ (c' ∈ cs ∧ s' = s).
Proof.
  induction cs as [|c cs IH]; intros m c' s'; simpl; [rewrite elem_of_nil; naive_solver|].
  rewrite IH, push_support_in, elem_of_cons. naive_solver.
Qed.

(** What supports an edge in a chunk: its extraction produced the edge, or the edge leads
    from it. *)
Definition supported (structural_edges : list EdgeData) (producers : ArtifactProducers) (chunk_ids : list uuid)
    (c : uuid) (s : Support) : Prop :=
  (∃ source target relationship, c ∈ edge_chunks producers (source, target, relationship)
     ∧ s = (KIND_EXTRACTED, source, target, relationship, None))
  ∨ (∃ source target target_id relationship properties, (source, target, relationship, properties) ∈ structural_edges
     ∧ parse_str source = Some c ∧ parse_str target = Some target_id ∧ c ∈ chunk_ids
     ∧ s = (KIND_STRUCTURAL, c, target_id, relationship, confidence as_f64 properties)).

Lemma extracted_supports_in producers c s : supports_in (extracted_supports producers ∅) c s ↔
  ∃ source target relationship, c ∈ edge_chunks producers (source, target, relationship)
    ∧ s = (KIND_EXTRACTED, source, target, relationship, None).
Proof.
  unfold extracted_supports.
  assert (Hgo : ∀ l m, supports_in (foldl (λ m '((source, target, relationship), chunk_ids),
      foldl (λ m chunk_id, push_support chunk_id (KIND_EXTRACTED, source, target, relationship, None) m) m chunk_ids) m l) c s
      ↔ supports_in m c s ∨ ∃ source target relationship cs, ((source, target, relationship), cs) ∈ l ∧ c ∈ cs
          ∧ s = (KIND_EXTRACTED, source, target, relationship, None)).
  { induction l as [|[[[source target] relationship] cs] l IH]; intros m; simpl.
    - split; [by left|]. by intros [?|(? & ? & ? & ? & []%not_elem_of_nil & _)].
    - rewrite IH, push_supports_in. setoid_rewrite elem_of_cons. naive_solver. }
  rewrite Hgo. unfold supports_in at 1. rewrite lookup_empty. simpl. rewrite elem_of_nil.
  setoid_rewrite merge_sort_Permutation. setoid_rewrite elem_of_map_to_list. unfold edge_chunks. split.
  - intros [[]|(source & target & r & cs & Hcs & Hc & ->)]. exists source, target, r. by rewrite Hcs.
  - intros (source & target & r & Hc & ->). right. destruct (ap_edges producers !! (source, target, r)) as [cs|] eqn:Hcs.
    + exists source, target, r, cs. done.
    + by apply not_elem_of_nil in Hc.
Qed.

Lemma structural_supports_in chunk_ids edges m c s :
  supports_in (structural_supports parse_str as_f64 (list_to_set chunk_ids) edges m) c s ↔ supports_in m c s
  ∨ ∃ source target target_id relationship properties, (source, target, relationship, properties) ∈ edges
     ∧ parse_str source = Some c ∧ parse_str target = Some target_id ∧ c ∈ chunk_ids
     ∧ s = (KIND_STRUCTURAL, c, target_id, relationship, confidence as_f64 properties).
Proof.
  unfold structural_supports. revert m.
  induction edges as [|[[[source target] relationship] properties] edges IH]; intros m; simpl.
  - split; [by left|]. by intros [?|(? & ? & ? & ? & ? & []%not_elem_of_nil & _)].
  - rewrite IH. setoid_rewrite elem_of_cons.
    destruct (parse_str source) as [source_id|] eqn:Hs; [destruct (parse_str target) as [target_id|] eqn:Ht|].
    + case_decide as Hin; [rewrite push_support_in|]; rewrite elem_of_list_to_set in Hin.
      * split.
        -- intros [[?|[-> ->]]|(s1 & t1 & i1 & r1 & p1 & H1 & H2)]; [by left|right|right].
           ++ exists source, target, target_id, relationship, properties. split_and!; [by left|done..].
           ++ exists s1, t1, i1, r1, p1. split; [by right|done].
        -- intros [?|(s1 & t1 & i1 & r1 & p1 & [[= -> -> -> ->]|H1] & Hs1 & Ht1 & Hc & ->)]; [auto|left; right|right; eauto 12].
           rewrite Hs in Hs1. rewrite Ht in Ht1. by simplify_eq.
      * split.
        -- intros [?|(s1 & t1 & i1 & r1 & p1 & H1 & H2)]; [by left|right]. exists s1, t1, i1, r1, p1. split; [by right|done].
        -- intros [?|(s1 & t1 & i1 & r1 & p1 & [[= -> -> -> ->]|H1] & Hs1 & Ht1 & Hc & ->)]; [auto|exfalso|right; eauto 12].
           rewrite Hs in Hs1. injection Hs1 as ->. done.
    + split.
      * intros [?|(s1 & t1 & i1 & r1 & p1 & H1 & H2)]; [by left|right]. exists s1, t1, i1, r1, p1. split; [by right|done].
      * intros [?|(s1 & t1 & i1 & r1 & p1 & [[= -> -> -> ->]|H1] & Hs1 & Ht1 & Hc & ->)]; [auto|exfalso|right; eauto 12].
        congruence.
    + split.
      * intros [?|(s1 & t1 & i1 & r1 & p1 & H1 & H2)]; [by left|right]. exists s1, t1, i1, r1, p1. split; [by right|done].
      * intros [?|(s1 & t1 & i1 & r1 & p1 & [[= -> -> -> ->]|H1] & Hs1 & Ht1 & Hc & ->)]; [auto|exfalso|right; eauto 12].
        congruence.
Qed.

Lemma foldl_concat_map {A B C} (f : A → B → A) (g : C → list B) l : ∀ a,
  foldl (λ a x, foldl f a (g x)) a l = foldl f a (concat (map g l)).
Proof. induction l as [|x l IH]; intros a; simpl; [done|]. by rewrite foldl_app, IH. Qed.

(** Rows pushed, one per id. *)
Lemma push_evidence_rows l : ∀ acc, acc.2 = list_to_set (map ev_id acc.1) → NoDup (map ev_id acc.1) →
  let acc' := foldl push_evidence acc l in
  acc'.2 = list_to_set (map ev_id acc'.1) ∧ NoDup (map ev_id acc'.1)
  ∧ (∀ row, row ∈ acc'.1 → row ∈ acc.1 ∨ row ∈ l)
  ∧ ∀ i, i ∈ map ev_id acc'.1 ↔ i ∈ map ev_id acc.1 ∨ i ∈ map ev_id l.
Proof.
  induction l as [|row l IH]; intros [rows seen] Hseen Hnd; simpl in *.
  - split_and!; [done|done|by left|]. intros i. rewrite elem_of_nil. naive_solver.
  - subst seen. case_decide as Hin.
    + destruct (IH (rows, list_to_set (map ev_id rows)) eq_refl Hnd) as (H1 & H2 & H3 & H4). split_and!; [done|done| |].
      * intros r [?|?]%H3; [by left|right; by right].
      * intros i. rewrite H4, elem_of_cons. simpl. apply elem_of_list_to_set in Hin. naive_solver.
    + assert (Hnin : ev_id row ∉ map ev_id rows) by (intros Hk; by apply Hin, elem_of_list_to_set).
      destruct (IH (rows ++ [row], {[ev_id row]} ∪ list_to_set (map ev_id rows))) as (H1 & H2 & H3 & H4); simpl.
      * rewrite map_app, list_to_set_app_L. simpl. set_solver.
      * rewrite map_app. simpl. apply NoDup_app. split_and!; [done| |apply NoDup_singleton].
        by intros i Hi ->%list_elem_of_singleton.
      * split_and!; [done|done| |].
        -- intros r [[?| ->%list_elem_of_singleton]%elem_of_app|?]%H3; [by left|right; left|right; by right].
        -- intros i. rewrite H4. simpl. rewrite map_app. simpl. rewrite elem_of_app, !elem_of_cons, elem_of_nil. naive_solver.
Qed.

(** The evidence of a batch has one row per id, each row is the support of an edge by a
    stored chunk, and every support of a stored chunk has its row. *)
Theorem build_edge_evidence_spec chunks structural_edges producers :
  let rows := build_edge_evidence new_v5 parse_str namespace_url as_f64 scope chunks structural_edges producers in
  let row chunk s := evidence_row new_v5 namespace_url scope chunk s in
  NoDup (map ev_id rows)
  ∧ (∀ r, r ∈ rows → ∃ chunk s, chunk ∈ chunks
       ∧ supported structural_edges producers (map dc_id chunks) (dc_id chunk) s ∧ r = row chunk s)
  ∧ (∀ chunk s, chunk ∈ chunks → supported structural_edges producers (map dc_id chunks) (dc_id chunk) s →
       ∃ r, r ∈ rows ∧ ev_id r = ev_id (row chunk s)).
Proof.
  unfold build_edge_evidence. set (by_chunk := structural_supports _ _ _ _ _). cbv zeta.
  assert (Hsup : ∀ c s, supports_in by_chunk c s ↔ supported structural_edges producers (map dc_id chunks) c s).
  { intros c s. unfold by_chunk, supported. by rewrite structural_supports_in, extracted_supports_in. }
  set (rows_of chunk := map (evidence_row new_v5 namespace_url scope chunk) (default [] (by_chunk !! dc_id chunk))).
  rewrite (foldl_concat_map push_evidence rows_of).
  destruct (push_evidence_rows (concat (map rows_of chunks)) ([], ∅)) as (_ & Hnd & Hfrom & Hids); [done|constructor|].
  split_and!; [done| |].
  - intros r [[]%not_elem_of_nil|(c & Hc & (s & -> & Hs)%list_elem_of_fmap)%elem_of_concat_map]%Hfrom.
    exists c, s. split_and!; [done|by apply Hsup|done].
  - intros c s Hc Hs%Hsup. assert (Hin : ev_id (evidence_row new_v5 namespace_url scope c s) ∈ map ev_id (concat (map rows_of chunks))).
    { apply (list_elem_of_fmap_2 ev_id), elem_of_concat_map. exists c. split; [done|]. by apply list_elem_of_fmap_2. }
    pose proof (proj2 (Hids _) (or_intror Hin)) as (r & Heq & Hr)%list_elem_of_fmap. by exists r.
Qed.
End evidence.

(** *** A run *)

#[local] Instance structural_format : UuidFormat := decimal_format.
#[local] Instance structural_lowercase : Lowercase := ascii_lowercase.

Lemma build_edge_types_spec_witness :
  let folded := build_edge_types ex_id ex_clock ["is a"; "knows"; ""; "Is A"; "is_a"] 9%N in
  map (λ et, (edge_relationship_name et, edge_number_of_edges et)) folded = [("Is A", 3%Z); ("knows", 1%Z)]
  ∧ NoDup (map edge_id folded).
Proof.
  cbv zeta. split; [vm_compute; reflexivity|].
  refine (proj1 (build_edge_types_spec ex_id ex_clock ["is a"; "knows"; ""; "Is A"; "is_a"] 9%N _)).
  vm_compute. discriminate.
Defined.
