(* ===== verification/ChunkDocument.v ===== *)
(** * Chunking one document (crates/cognify/src/tasks.rs, crates/models/src/document_chunk.rs)

    The content is retrieved, decoded by the document's loader and cut by the chunker
    the loader's output asks for; a DLT row is one chunk of its own type. *)

From S2P Require Import Prelude Text TokenCounter Json Strings DataPoint Models CutType.
From S2P Require Import ChunkByParagraph TextChunker ChunkByRow Failure Loaders.
From Stdlib Require Import QArith.
#[local] Open Scope nat_scope.

(** ** DLT rows *)

Definition DLT_ROW_TYPE : string := "DltRow".

(** [DocumentChunk::dlt_row] *)
Definition DocumentChunk_dlt_row (uuid_to_string : uuid → string) (env : chunk_env) (id : uuid) (name : string)
    (t : text) (chunk_size chunk_index : nat) (document_id : uuid) : DocumentChunk :=
  let chunk := DocumentChunk_new uuid_to_string env id t chunk_size chunk_index "dlt_row" document_id in
  let base := dc_base chunk in
  {| dc_base := {|
       dp_id := dp_id base; dp_created_at := dp_created_at base; dp_updated_at := dp_updated_at base;
       dp_ontology_valid := dp_ontology_valid base; dp_version := dp_version base;
       dp_topological_rank := dp_topological_rank base; dp_metadata := dp_metadata base;
       dp_data_type := DLT_ROW_TYPE; dp_belongs_to_set := dp_belongs_to_set base;
       dp_source_pipeline := dp_source_pipeline base; dp_source_task := dp_source_task base;
       dp_source_node_set := dp_source_node_set base; dp_source_user := dp_source_user base;
       dp_source_content_hash := dp_source_content_hash base; dp_feedback_weight := dp_feedback_weight base;
       dp_importance_weight := dp_importance_weight base |};
     dc_text := dc_text chunk; dc_name := Some name; dc_chunk_size := dc_chunk_size chunk;
     dc_chunk_index := dc_chunk_index chunk; dc_cut_type := dc_cut_type chunk;
     dc_document_id := dc_document_id chunk; dc_is_part_of := dc_is_part_of chunk; dc_contains := dc_contains chunk |}.

(** [DocumentChunk::is_dlt_row] *)
Definition is_dlt_row (c : DocumentChunk) : bool := bool_decide (dp_data_type (dc_base c) = DLT_ROW_TYPE).

(** The [field] closure of [dlt_row_name]. *)
Definition dlt_field `{SerdeJson} (metadata : option json) (key : string) : option string :=
  v ← metadata ≫= json_get key;
  s ← match v with
      | JString s => Some s
      | JInt _ | JFloat _ => Some (json_to_string v)
      | _ => None
      end;
  if decide (s = "") then None else Some s.

(** [dlt_row_name] *)
Definition dlt_row_name `{SerdeJson} (document : Document) : string :=
  let metadata := doc_external_metadata document ≫= from_str in
  match dlt_field metadata "table_name", dlt_field metadata "primary_key_value" with
  | Some table, Some key => table +:+ ":" +:+ key
  | Some table, None => table
  | None, _ => doc_name document
  end.

(** [str::trim] *)
Fixpoint text_trim_start (t : text) : text :=
  match t with
  | [] => []
  | c :: t' => if is_whitespace c then text_trim_start t' else t
  end.
Definition text_trim (t : text) : text := reverse (text_trim_start (reverse (text_trim_start t))).

(** ** One document *)

(** [chunk.base.belongs_to_set = ..] if the document has sets, and
    [chunk.base.importance_weight = ..]. *)
Definition inherit_scope (document : Document) (chunk : DocumentChunk) : DocumentChunk :=
  let base := dc_base chunk in
  {| dc_base := {|
       dp_id := dp_id base; dp_created_at := dp_created_at base; dp_updated_at := dp_updated_at base;
       dp_ontology_valid := dp_ontology_valid base; dp_version := dp_version base;
       dp_topological_rank := dp_topological_rank base; dp_metadata := dp_metadata base;
       dp_data_type := dp_data_type base;
       dp_belongs_to_set := match dp_belongs_to_set (doc_base document) with
                            | Some sets => Some sets
                            | None => dp_belongs_to_set base
                            end;
       dp_source_pipeline := dp_source_pipeline base; dp_source_task := dp_source_task base;
       dp_source_node_set := dp_source_node_set base; dp_source_user := dp_source_user base;
       dp_source_content_hash := dp_source_content_hash base; dp_feedback_weight := dp_feedback_weight base;
       dp_importance_weight := dp_importance_weight (doc_base document) |};
     dc_text := dc_text chunk; dc_name := dc_name chunk; dc_chunk_size := dc_chunk_size chunk;
     dc_chunk_index := dc_chunk_index chunk; dc_cut_type := dc_cut_type chunk;
     dc_document_id := dc_document_id chunk; dc_is_part_of := dc_is_part_of chunk; dc_contains := dc_contains chunk |}.

Section chunk_one.
Context `{SerdeJson} (uuid_to_string : uuid → string) (new_v5 : uuid → text → uuid) (env : nat → chunk_env)
  (is_alphabetic : char → bool) (new_v4 : nat → uuid).
(** [retrieve]: what the storage answers. *)
Context (retrieve : string → result string bytes) (max_chunk_size : nat) (C : TokenCounter)
  (token_count_mode : TokenCountMode) (loader_registry : LoaderRegistry).

(** [dlt_row_chunk_id] *)
Definition dlt_row_chunk_id (document_id : uuid) : uuid :=
  new_v5 NAMESPACE_OID (ascii (chunk_key uuid_to_string document_id 0)).

(** What is cut of a loader's output.  [None]: the chunker panics. *)
Definition chunk_output (document_id : uuid) (output : LoaderOutput) : option (list DocumentChunk) :=
  match output with
  | LoadedText t =>
      chunk_text C uuid_to_string new_v5 env document_id max_chunk_size token_count_mode is_alphabetic new_v4 t
  | LoadedRows rows =>
      let joined := text_join row_sep rows in
      Some (chunk_by_row C uuid_to_string new_v5 env document_id max_chunk_size joined)
  | LoadedSingleChunk t cut_type =>
      let chunk_id := new_v5 NAMESPACE_OID (ascii (chunk_key uuid_to_string document_id 0)) in
      Some [DocumentChunk_new uuid_to_string (env 0) chunk_id t (count_tokens t) 0 cut_type document_id]
  end.

(** [chunk_one_document]: the chunks, and the token count written back to the item's
    row when a database is given.  [None]: a panic. *)
Definition chunk_one_document (document : Document)
    : option (result CognifyError (list DocumentChunk * option nat)) :=
  let document_id := dp_id (doc_base document) in
  match retrieve (doc_raw_data_location document) with
  | Err e => Some (Err (ChunkingError e))
  | Ok content_bytes =>
      if decide (doc_document_type document = "dlt_row") then
        match from_utf8 content_bytes with
        | Err e => Some (Err (ChunkingError (display_utf8_error e)))
        | Ok t =>
            let trimmed := text_trim t in
            if decide (trimmed = []) then Some (Ok ([], None))
            else
              let word_count := count_tokens trimmed in
              let chunk := DocumentChunk_dlt_row uuid_to_string (env 0) (dlt_row_chunk_id document_id)
                             (dlt_row_name document) trimmed word_count 0 document_id in
              Some (Ok ([inherit_scope document chunk], Some word_count))
        end
      else
        match registry_get (doc_document_type document) loader_registry with
        | None => Some (Err (UnsupportedDocumentType (doc_document_type document)))
        | Some loader =>
            match dl_extract loader content_bytes document with
            | Err e => Some (Err (ChunkingError (display_loader_error e)))
            | Ok output =>
                chunks ← chunk_output document_id output;
                let chunks := map (inherit_scope document) chunks in
                Some (Ok (chunks, Some (sum_list_with dc_chunk_size chunks)))
            end
        end
  end.
End chunk_one.

(** ** Every chunk belongs to its document *)

Definition of_document (document_id : uuid) (c : DocumentChunk) : Prop :=
  dc_document_id c = document_id ∧ dc_is_part_of c = Some document_id.

Lemma inherit_scope_document document id c : of_document id c → of_document id (inherit_scope document c).
Proof. done. Qed.

Section chunkers.
Context (C : TokenCounter) (uuid_to_string : uuid → string) (new_v5 : uuid → text → uuid) (env : nat → chunk_env)
  (document_id : uuid) (max_chunk_size : nat).
Notation mine := (λ c, of_document document_id c ∧ dp_data_type (dc_base c) = "DocumentChunk").

Lemma emit_accumulated_mine mode res accumulated size idx :
  accumulated ≠ [] → Forall mine res →
  ∃ res', emit_accumulated C uuid_to_string new_v5 env document_id mode res accumulated size idx = Some res'
    ∧ Forall mine res'.
Proof.
  intros Hne Hres. unfold emit_accumulated. destruct (last_is_some _ Hne) as [p Hp]. rewrite Hp. simpl.
  eexists. split; [done|]. apply Forall_app. split; [done|]. by constructor.
Qed.

Lemma chunker_loop_mine mode ps st :
  Forall mine (cs_result st) →
  ∃ st', chunker_loop C uuid_to_string new_v5 env document_id max_chunk_size mode ps st = Some st'
    ∧ Forall mine (cs_result st').
Proof.
  revert st. induction ps as [|p ps IH]; intros st Hst; simpl; [by eexists|].
  unfold chunker_step. case_match; simpl; [by apply IH|].
  destruct (cs_accumulated st) as [|q acc] eqn:Ha; simpl.
  - apply IH. simpl. apply Forall_app. split; [done|]. by constructor.
  - destruct (emit_accumulated_mine mode (cs_result st) (q :: acc) (cs_accumulated_size st) (cs_chunk_index st)
      ltac:(done) Hst) as (res & -> & Hres). simpl. by apply IH.
Qed.

(** The text chunker returns, for any counter. *)
Lemma chunk_text_mine mode is_alphabetic new_v4 data :
  ∃ cs, chunk_text C uuid_to_string new_v5 env document_id max_chunk_size mode is_alphabetic new_v4 data = Some cs
    ∧ Forall mine cs.
Proof.
  unfold chunk_text. destruct (chunk_by_paragraph_groups C new_v5 data max_chunk_size true mode is_alphabetic new_v4)
    as (ss & ps & gs & _ & -> & _). simpl.
  destruct (chunker_loop_mine mode ps chunker_init) as (st & -> & Hst); [done|]. simpl. unfold chunker_finish.
  destruct (cs_accumulated st) as [|p acc] eqn:Ha; [by eexists|]. by apply emit_accumulated_mine.
Qed.

Lemma pair_step_mine st p :
  Forall mine (rs_result st) → Forall mine (rs_result (pair_step C uuid_to_string new_v5 env document_id max_chunk_size st p)).
Proof.
  intros Hst. unfold pair_step. simpl. case_match; [|done]. apply Forall_app. split; [done|]. by constructor.
Qed.

Lemma row_step_mine acc row :
  Forall mine acc.1 → Forall mine (row_step C uuid_to_string new_v5 env document_id max_chunk_size acc row).1.
Proof.
  intros Hacc. unfold row_step. destruct row as [|c row]; [done|].
  assert (Hloop : ∀ ps st, Forall mine (rs_result st) →
    Forall mine (rs_result (foldl (pair_step C uuid_to_string new_v5 env document_id max_chunk_size) st ps))).
  { induction ps as [|p ps IH]; intros st Hst; simpl; [done|]. by apply IH, pair_step_mine. }
  case_bool_decide; simpl; [by apply Hloop|]. apply Forall_app. split; [by apply Hloop|]. by constructor.
Qed.

Lemma chunk_by_row_mine data : Forall mine (chunk_by_row C uuid_to_string new_v5 env document_id max_chunk_size data).
Proof.
  unfold chunk_by_row. generalize (text_split row_sep data). intros rows.
  assert (Hgo : ∀ acc, Forall mine acc.1 →
    Forall mine (foldl (row_step C uuid_to_string new_v5 env document_id max_chunk_size) acc rows).1);
    [|by apply Hgo].
  induction rows as [|row rows IH]; intros acc Hacc; simpl; [done|]. by apply IH, row_step_mine.
Qed.
End chunkers.

(** ** Theorem *)

(** The document can be read: it is stored, and decodes as its type asks. *)
Definition readable (retrieve : string → result string bytes) (loader_registry : LoaderRegistry) (document : Document) : Prop :=
  ∃ content, retrieve (doc_raw_data_location document) = Ok content ∧
    if decide (doc_document_type document = "dlt_row") then ∃ t, from_utf8 content = Ok t
    else ∃ loader output, registry_get (doc_document_type document) loader_registry = Some loader
                          ∧ dl_extract loader content document = Ok output.

Lemma inherit_scope_keeps document (cs : list DocumentChunk) :
  sum_list_with dc_chunk_size (map (inherit_scope document) cs) = sum_list_with dc_chunk_size cs.
Proof. induction cs as [|c cs IH]; simpl; [done|]. by rewrite IH. Qed.

Lemma chunk_output_mine uuid_to_string new_v5 env is_alphabetic new_v4 max_chunk_size C mode document_id output :
  ∃ cs, chunk_output uuid_to_string new_v5 env is_alphabetic new_v4 max_chunk_size C mode document_id output = Some cs
    ∧ Forall (λ c, of_document document_id c ∧ dp_data_type (dc_base c) = "DocumentChunk") cs.
Proof.
  destruct output; simpl; [apply chunk_text_mine|eexists; split; [done|apply chunk_by_row_mine]|].
  eexists. split; [done|]. by repeat constructor.
Qed.

(** What the run relies on. *)
Lemma chunk_one_document_mine `{SerdeJson} uuid_to_string new_v5 env is_alphabetic new_v4 retrieve max_chunk_size C
    mode loader_registry document :
  ∃ r, chunk_one_document uuid_to_string new_v5 env is_alphabetic new_v4 retrieve max_chunk_size C mode
         loader_registry document = Some r
    ∧ ∀ cs count, r = Ok (cs, count) → Forall (of_document (dp_id (doc_base document))) cs.
Proof.
  unfold chunk_one_document. destruct (retrieve _) as [content|e]; [|by eexists].
  case_decide.
  - destruct (from_utf8 content); [|by eexists]. case_decide; (eexists; split; [done|]); intros cs count [= <- _]; [done|].
    by repeat constructor.
  - destruct (registry_get _ _) as [loader|]; [|by eexists]. destruct (dl_extract loader content document); [|by eexists].
    destruct (chunk_output_mine uuid_to_string new_v5 env is_alphabetic new_v4 max_chunk_size C mode
      (dp_id (doc_base document)) a) as (cs & -> & Hcs). simpl. eexists. split; [done|].
    intros cs' count [= <- _]. apply Forall_map. eapply Forall_impl; [done|]. by intros c [Hc _].
Qed.

(** C22: chunking a document never panics, whatever the storage, the loaders and the
    token counter answer; it succeeds exactly for the documents that can be read and
    decoded; every chunk then belongs to the document, carries its weight and its node
    sets, and is of the DLT type exactly for a DLT document; the token count written
    back is the sum of the sizes. *)
Theorem chunk_one_document_spec `{SerdeJson} uuid_to_string new_v5 env is_alphabetic new_v4 retrieve max_chunk_size C
    mode loader_registry document :
  ∃ r, chunk_one_document uuid_to_string new_v5 env is_alphabetic new_v4 retrieve max_chunk_size C mode
         loader_registry document = Some r
    ∧ (is_ok r = true ↔ readable retrieve loader_registry document)
    ∧ ∀ cs count, r = Ok (cs, count) →
        default 0 count = sum_list_with dc_chunk_size cs
        ∧ Forall (λ c, of_document (dp_id (doc_base document)) c
            ∧ dp_importance_weight (dc_base c) = dp_importance_weight (doc_base document)
            ∧ (∀ sets, dp_belongs_to_set (doc_base document) = Some sets → dp_belongs_to_set (dc_base c) = Some sets)
            ∧ is_dlt_row c = bool_decide (doc_document_type document = "dlt_row")) cs.
Proof.
  unfold chunk_one_document, readable. destruct (retrieve _) as [content|e]; cycle 1.
  { eexists. split; [done|]. split; [|done]. split; [done|]. by intros (? & ? & _). }
  case_decide as Hdlt.
  - destruct (from_utf8 content) as [t|e] eqn:Hu; cycle 1.
    { eexists. split; [done|]. split; [|done]. split; [done|]. intros (? & [= ->] & t & Ht). congruence. }
    case_decide as Htrim; (eexists; split; [done|]; split; [by split; [intros _; eauto|]|]); intros cs count [= <- <-];
      (split; [simpl; lia|]); [done|].
    repeat constructor; simpl; [by intros sets ->|]. by rewrite bool_decide_eq_true_2 by done.
  - destruct (registry_get _ _) as [loader|] eqn:Hl; cycle 1.
    { eexists. split; [done|]. split; [|done]. split; [done|]. by intros (? & _ & ? & ? & ? & _). }
    destruct (dl_extract loader content document) as [output|e] eqn:Ho; cycle 1.
    { eexists. split; [done|]. split; [|done]. split; [done|]. intros (? & [= ->] & ? & ? & [= <-] & ?). congruence. }
    destruct (chunk_output_mine uuid_to_string new_v5 env is_alphabetic new_v4 max_chunk_size C mode
      (dp_id (doc_base document)) output) as (cs & -> & Hcs). simpl. eexists. split; [done|]. split; [by split; [intros _; eauto 10|]|].
    intros cs' count [= <- <-]. split; [done|]. apply Forall_map. eapply Forall_impl; [done|].
    intros c [Hd Ht]. split; [done|]. simpl. split; [done|]. split; [by intros sets ->|].
    unfold is_dlt_row. simpl. rewrite Ht, !bool_decide_eq_false_2; done.
Qed.
