(* ===== verification/AddDataPoints.v ===== *)
(** * The storage stage (crates/cognify/src/tasks.rs)

    [add_data_points]: the ownership rows of everything the stage writes, the graph
    nodes and edges, and the vector points, in the order of the writes.  A call to a
    store may fail as the fault plan of Artifacts says; the embedding engine is a
    function that may fail.  Of a vector point the stores keep its collection and id,
    not its vector and payload; the evidence table is not among the stores. *)

From stdpp Require Import sorting.
From S2P Require Import Prelude Json Strings Text DataPoint Models Provenance Summarize Failure Ledger Artifacts Loaders ChunkDocument.
From S2P Require Import Config GraphTypes EdgeText Expansion Ownership DynamicWalk StructuralEdges.
#[local] Open Scope nat_scope.

(** ** Ownership rows *)

Section rows.
Context `{UuidFormat, Lowercase} (new_v5 : uuid → string → uuid) (parse_str : string → option uuid) (now : Z)
  (entity_value : Entity → option json) (chunk_value : DocumentChunk → option json)
  (summary_value : TextSummary → option json) (type_value : EntityType → option json)
  (document_value : Document → option json) (base_value : DataPoint → option json).

Notation node_row_of := (node_row_of new_v5 now).

Definition indexed_fields_of (base : DataPoint) (fields : list string) : json :=
  default (JArray (map JString fields)) (dp_metadata base !! "index_fields").

Definition chunk_row (id : LedgerIdentity) (c : DocumentChunk) : GraphNode :=
  node_row_of id (dc_id c) ("chunk_" +:+ pretty (dc_chunk_index c)) (dp_data_type (dc_base c))
    (indexed_fields_of (dc_base c) ["text"]) (chunk_value c) (dc_document_id c).

Definition summary_data_id (chunk_data_map : gmap uuid uuid) (s : TextSummary) : uuid :=
  default nil_uuid (chunk_id ← ts_made_from s; chunk_data_map !! chunk_id).

Definition summary_row (id : LedgerIdentity) (chunk_data_map : gmap uuid uuid) (s : TextSummary) : GraphNode :=
  node_row_of id (ts_id s) ("summary_" +:+ uuid_to_string (ts_id s)) (dp_data_type (ts_base s))
    (indexed_fields_of (ts_base s) ["text"]) (summary_value s) (summary_data_id chunk_data_map s).

Definition type_row (id : LedgerIdentity) (et : EntityType) : GraphNode :=
  node_row_of id (et_id et) (et_name et) (dp_data_type (et_base et)) (indexed_fields_of (et_base et) ["name"])
    (type_value et) nil_uuid.

Definition document_row (id : LedgerIdentity) (d : Document) : GraphNode :=
  node_row_of id (doc_id d) (if decide (doc_name d = "") then uuid_to_string (doc_id d) else doc_name d)
    (dp_data_type (doc_base d)) (indexed_fields_of (doc_base d) ["name"]) (document_value d) (doc_id d).

(** [edge_attributes] *)
Definition edge_attributes (properties : gmap string json) : option json :=
  if decide (properties = ∅) then None else Some (JObject properties).

(** The row of an edge. *)
Definition edge_row_of (id : LedgerIdentity) (data_id source target : uuid) (row_text : string) (slug : uuid)
    (label : option string) (attributes : option json) : GraphEdge := {|
  ge_id := provenance_edge_id new_v5 (li_tenant_id id) (li_user_id id) (li_dataset_id id) data_id source row_text target;
  ge_slug := slug; ge_user_id := li_user_id id; ge_data_id := data_id; ge_dataset_id := li_dataset_id id;
  ge_pipeline_run_id := li_pipeline_run_id id; ge_source_node_id := source; ge_destination_node_id := target;
  ge_relationship_name := row_text; ge_label := label; ge_attributes := attributes; ge_created_at := now |}.

Definition structural_row (id : LedgerIdentity) (e : EdgeData) : GraphEdge :=
  let '(source_id_str, target_id_str, rel_name, properties) := e in
  let source_id := default nil_uuid (parse_str source_id_str) in
  let target_id := default nil_uuid (parse_str target_id_str) in
  let rel_name := sanitize_string rel_name in
  let edge_text := if decide (rel_name = "contains")
                   then sanitize_string <$> (properties !! EDGE_TEXT_KEY ≫= json_as_str) else None in
  let '(row_text, label) := match edge_text with
                            | Some t => (t, Some rel_name)
                            | None => (rel_name, None)
                            end in
  edge_row_of id nil_uuid source_id target_id row_text (edge_slug new_v5 row_text) label (edge_attributes properties).

(** [upsert_provenance] *)
Definition provenance_nodes (id : LedgerIdentity) (input : SummarizedData) : list GraphNode :=
  let chunk_data_map := chunk_document_map (sd_chunks input) in
  entity_provenance_rows new_v5 parse_str now entity_value id (sd_entities input) chunk_data_map (sd_producers input)
  ++ map (chunk_row id) (sd_chunks input)
  ++ map (summary_row id chunk_data_map) (sd_summaries input)
  ++ map (type_row id) (omap np_entity_type (sd_entities input))
  ++ map (document_row id) (sd_documents input).

Definition provenance_edges (id : LedgerIdentity) (input : SummarizedData) (structural_edges : list EdgeData)
    : list GraphEdge :=
  let chunk_data_map := chunk_document_map (sd_chunks input) in
  let entity_data_map := entity_document_map parse_str (sd_entities input) chunk_data_map in
  semantic_edge_provenance_rows new_v5 now id (sd_edges input) chunk_data_map entity_data_map (sd_producers input)
  ++ map (structural_row id) structural_edges.

Definition upsert_provenance (id : LedgerIdentity) (input : SummarizedData) (structural_edges : list EdgeData)
    : M CognifyError () :=
  let prov_nodes := provenance_nodes id input in
  let prov_edges := provenance_edges id input structural_edges in
  if decide (prov_nodes = [] ∧ prov_edges = []) then mret ()
  else m_map_err DatabaseError
         (command (λ st, with_ledger (upsert_provenance_graph prov_nodes prov_edges (st_ledger st)) st)).

(** *** Custom graphs *)

(** The properties of the edges, by edge; the last of a key. *)
Definition properties_by_edge (edges : list EdgeData) : gmap (string * string * string) json :=
  foldl (λ m '(source, target, relationship, properties),
           match edge_attributes properties with
           | Some attributes => <[(source, target, relationship) := attributes]> m
           | None => m
           end) ∅ edges.

Definition dynamic_label (n : DynamicDataPoint) : string :=
  match dy_properties n !! "label" ≫= json_as_str with
  | Some label => label
  | None => default (uuid_to_string (dy_id n)) (dy_properties n !! "name" ≫= json_as_str)
  end.

Definition dynamic_node_row (id : LedgerIdentity) (data_id : uuid) (n : DynamicDataPoint) : GraphNode :=
  node_row_of id (dy_id n) (dynamic_label n) (dp_data_type (dy_base n)) (JArray (map JString (dy_index_fields n)))
    (Some (to_graph_value base_value n)) data_id.

Definition dynamic_edge_row (id : LedgerIdentity) (data_id : uuid) (field_properties : gmap (string * string * string) json)
    (r : DynamicRelationship) : GraphEdge :=
  let field := sanitize_string (dr_field_name r) in
  edge_row_of id data_id (dr_source r) (dr_target r) field (triplet_slug new_v5 (dr_source r) field (dr_target r))
    (Some field) (field_properties !! (uuid_to_string (dr_source r), uuid_to_string (dr_target r), dr_field_name r)).

Definition attachment_row (id : LedgerIdentity) (data_id : uuid) (contains_properties : gmap (string * string * string) json)
    (chunk : DocumentChunk) (target : uuid) : GraphEdge :=
  let attributes := contains_properties !! (uuid_to_string (dc_id chunk), uuid_to_string target, "contains") in
  let edge_text := sanitize_string <$> (a ← attributes; v ← json_get EDGE_TEXT_KEY a; json_as_str v) in
  let '(row_text, label) := match edge_text with Some t => (t, Some "contains") | None => ("contains", None) end in
  edge_row_of id data_id (dc_id chunk) target row_text (triplet_slug new_v5 (dc_id chunk) "contains" target) label attributes.

Definition find_chunk (id : uuid) (chunks : list DocumentChunk) : option DocumentChunk :=
  snd <$> list_find (λ c, dc_id c = id) chunks.

(** The rows of one custom graph. *)
Definition dynamic_node_rows (id : LedgerIdentity) (attributed : AttributedDynamicGraph) (stored : StoredDynamicGraph)
    : list GraphNode := map (dynamic_node_row id (ag_data_id attributed)) (sg_nodes stored).

Definition dynamic_edge_rows (id : LedgerIdentity) (chunks : list DocumentChunk)
    (contains_properties field_properties : gmap (string * string * string) json)
    (attributed : AttributedDynamicGraph) (stored : StoredDynamicGraph) : list GraphEdge :=
  map (dynamic_edge_row id (ag_data_id attributed) field_properties) (sg_relationships stored)
  ++ match find_chunk (ag_chunk_id attributed) chunks with
     | Some chunk => map (attachment_row id (ag_data_id attributed) contains_properties chunk) (contained_ids parse_str chunk)
     | None => []
     end.

(** [record_dynamic_graph_ownership] *)
Definition record_dynamic_graph_ownership (id : LedgerIdentity) (graphs : list AttributedDynamicGraph)
    (stored : list StoredDynamicGraph) (chunks : list DocumentChunk) (structural_edges dynamic_edges : list EdgeData)
    : M CognifyError () :=
  let contains_properties := properties_by_edge structural_edges in
  let field_properties := properties_by_edge dynamic_edges in
  let nodes := concat (map (λ '(a, s), dynamic_node_rows id a s) (zip graphs stored)) in
  let edges := concat (map (λ '(a, s), dynamic_edge_rows id chunks contains_properties field_properties a s)
                         (zip graphs stored)) in
  m_map_err DatabaseError (command (λ st, with_ledger (upsert_provenance_graph nodes edges (st_ledger st)) st)).
End rows.

(** ** Vector points *)

(** [VectorDB::create_collection] and [index_points] *)
Definition create_collection (c : collection) (st : stores) : stores :=
  {| st_ledger := st_ledger st; st_data := st_data st; st_graph := st_graph st; st_graph_edges := st_graph_edges st;
     st_vectors := <[c := default ∅ (st_vectors st !! c)]> (st_vectors st); st_dataset_storage := st_dataset_storage st |}.

Definition index_points (c : collection) (ids : list uuid) (st : stores) : stores :=
  {| st_ledger := st_ledger st; st_data := st_data st; st_graph := st_graph st; st_graph_edges := st_graph_edges st;
     st_vectors := <[c := list_to_set ids ∪ default ∅ (st_vectors st !! c)]> (st_vectors st);
     st_dataset_storage := st_dataset_storage st |}.

Definition vector_call {A} (m : M string A) : M CognifyError A := m_map_err VectorDBError m.

(** The bulk-load scope and the announcements: calls without an effect on the points. *)
Definition hint : M string () := command (λ st, st).

Definition m_of_result {E A} (r : result E A) : M E A := match r with Ok a => mret a | Err e => fail e end.

(** [IndexedFieldsStats::record] *)
Definition record_stats (c : collection) (count : nat) (stats : gmap string nat) : gmap string nat :=
  let key := c.1 +:+ "_" +:+ c.2 in <[key := default 0 (stats !! key) + count]> stats.

Section embedding.
Context {V : Type} (embed : list string → result string (list V)) (batch_size : nat).

(** [embed_in_batches]: the batches in order; the first failure. *)
Fixpoint embed_batches (batches : list (list string)) : result string (list V) :=
  match batches with
  | [] => Ok []
  | b :: batches => match embed b with
                    | Ok vectors => match embed_batches batches with Ok rest => Ok (vectors ++ rest) | Err e => Err e end
                    | Err e => Err e
                    end
  end.

Definition embed_in_batches (texts : list string) : result string (list V) :=
  match texts with [] => Ok [] | _ => embed_batches (chunks (Nat.max batch_size 1) texts) end.

(** A precomputed vector, or the next fresh one. *)
Fixpoint take_vectors (precomputed : gmap uuid V) (ids : list uuid) (fresh : list V) : result CognifyError (list V) :=
  match ids with
  | [] => Ok []
  | id :: ids =>
      match precomputed !! id with
      | Some v => result_map (cons v) (take_vectors precomputed ids fresh)
      | None => match fresh with
                | v :: fresh => result_map (cons v) (take_vectors precomputed ids fresh)
                | [] => Err (EmbeddingError "missing fresh embedding")
                end
      end
  end.

(** [reuse_or_embed] *)
Definition reuse_or_embed (precomputed : gmap uuid V) (entries : list (uuid * string)) : result CognifyError (list V) :=
  match embed_in_batches (map snd (filter (λ e, precomputed !! e.1 = None) entries)) with
  | Ok fresh => take_vectors precomputed (map fst entries) fresh
  | Err e => Err (EmbeddingError e)
  end.

(** The vectors of a window that are never precomputed. *)
Definition embed_entries (entries : list (uuid * string)) : result CognifyError (list V) :=
  map_err EmbeddingError (embed_in_batches (map snd entries)).

(** One window: its vectors, and a point per entry that has one. *)
Definition index_window (c : collection) (vectors_of : list (uuid * string) → result CognifyError (list V))
    (_ : ()) (entries : list (uuid * string)) : M CognifyError () :=
  vectors ← m_of_result (vectors_of entries);
  vector_call (command (index_points c (map fst (take (length vectors) entries)))).

(** A collection: created if it is not there, announced, and written in windows. *)
Definition index_collection (window : nat) (c : collection)
    (vectors_of : list (uuid * string) → result CognifyError (list V)) (entries : list (uuid * string))
    (stats : gmap string nat) : M CognifyError (gmap string nat) :=
  match entries with
  | [] => mret stats
  | _ =>
      exists_ ← vector_call (query (has_collection c));
      (if exists_ : bool then mret () else vector_call (command (create_collection c)));;
      vector_call hint;;
      m_foldl (index_window c vectors_of) () (chunks window entries);;
      mret (record_stats c (length entries) stats)
  end.

(** An embedding that is kept: its point, collection and vector. *)
Notation Embedding := (uuid * (string * string) * V)%type.

Definition embeddings_of (c : collection) (entries : list (uuid * string)) : result CognifyError (list Embedding) :=
  match entries with
  | [] => Ok []
  | _ => result_map (zip_with (λ id v, (id, c, v)) (map fst entries)) (embed_entries entries)
  end.

Definition chunk_entries (chunks : list DocumentChunk) : list (uuid * string) :=
  map (λ c, (dc_id c, string_of_text (dc_text c))) chunks.
Definition entity_entries (entities : list GraphNodePair) : list (uuid * string) :=
  map (λ n, (np_id n, ent_name (np_entity n))) entities.
Definition summary_entries (summaries : list TextSummary) : list (uuid * string) := map (λ s, (ts_id s, ts_text s)) summaries.
Definition document_entries (documents : list Document) : list (uuid * string) := map (λ d, (doc_id d, doc_name d)) documents.
Definition edge_type_entries (edge_types : list EdgeType) : list (uuid * string) :=
  map (λ et, (edge_id et, edge_relationship_name et)) edge_types.

(** The entity types, one per id. *)
Definition unique_types (entities : list GraphNodePair) : list EntityType :=
  (foldl (λ '(types, seen) et, if decide (et_id et ∈ seen) then (types, seen) else (types ++ [et], {[et_id et]} ∪ seen))
     (([], ∅) : list EntityType * gset uuid) (omap np_entity_type entities)).1.
Definition type_entries (entities : list GraphNodePair) : list (uuid * string) :=
  map (λ et, (et_id et, et_name et)) (unique_types entities).

(** [generate_embeddings]; the data type of a chunk's embedding is its own. *)
Definition generate_embeddings (input : SummarizedData) : result CognifyError (list Embedding) :=
  match embed_entries (chunk_entries (sd_chunks input)) with
  | Err e => Err e
  | Ok vectors =>
      let chunk_embeddings := zip_with (λ c v, (dc_id c, (dp_data_type (dc_base c), "text"), v)) (sd_chunks input) vectors in
      match embeddings_of ("Entity", "name") (entity_entries (sd_entities input)) with
      | Err e => Err e
      | Ok entity_embeddings =>
          result_map (λ summary_embeddings, chunk_embeddings ++ entity_embeddings ++ summary_embeddings)
            (embeddings_of ("TextSummary", "text") (summary_entries (sd_summaries input)))
      end
  end.

(** [BTreeMap::entry(type).or_default().push]: documents by type, in the order of the
    bytes of the types. *)
Definition type_le (x y : string * list Document) : Prop := match String.compare x.1 y.1 with Gt => False | _ => True end.
#[export] Instance type_le_dec x y : Decision (type_le x y).
Proof. unfold type_le. destruct (String.compare x.1 y.1); [left|left|right]; tauto. Defined.

Definition documents_by_type (documents : list Document) : list (string * list Document) :=
  merge_sort type_le (map_to_list
    (foldl (λ m d, let t := dp_data_type (doc_base d) in <[t := default [] (m !! t) ++ [d]]> m)
       (∅ : gmap string (list Document)) documents)).

(** [index_data_points_windowed] *)
Definition index_data_points_windowed (input : SummarizedData) (edge_types : list EdgeType)
    (precomputed_embeddings : list Embedding) (window : nat) : M CognifyError (gmap string nat) :=
  let window := Nat.max window 1 in
  let precomputed := foldl (λ m '(id, _, v), <[id := v]> m) ∅ precomputed_embeddings in
  let reused := reuse_or_embed precomputed in
  let document_chunks := filter (λ c, is_dlt_row c = false) (sd_chunks input) in
  let dlt_rows := filter (λ c, is_dlt_row c = true) (sd_chunks input) in
  stats ← index_collection window ("DocumentChunk", "text") reused (chunk_entries document_chunks) ∅;
  stats ← index_collection window (DLT_ROW_TYPE, "text") reused (chunk_entries dlt_rows) stats;
  stats ← index_collection window ("Entity", "name") reused (entity_entries (sd_entities input)) stats;
  stats ← index_collection window ("EntityType", "name") embed_entries (type_entries (sd_entities input)) stats;
  stats ← index_collection window ("TextSummary", "text") reused (summary_entries (sd_summaries input)) stats;
  stats ← index_collection window ("EdgeType", "relationship_name") embed_entries (edge_type_entries edge_types) stats;
  m_foldl (λ stats '(type_name, docs), index_collection window (type_name, "name") embed_entries (document_entries docs) stats)
    stats (documents_by_type (sd_documents input)).

(** A bulk-load scope around a write: it is finished either way, and only its own
    failures are not the write's. *)
Definition in_bulk_load {A} (m : M CognifyError A) : M CognifyError A :=
  begun ← m_catch hint;
  indexed ← m_catch m;
  (match begun with Ok _ => m_catch hint | Err e => mret (Ok ()) end);;
  m_of_result indexed.

(** [index_data_points] *)
Definition index_data_points (input : SummarizedData) (edge_types : list EdgeType) (precomputed_embeddings : list Embedding)
    (window : nat) : M CognifyError (gmap string nat) :=
  in_bulk_load (index_data_points_windowed input edge_types precomputed_embeddings window).

(** *** Custom graphs *)

Context `{SerdeJson}.

(** The entries of each collection of custom nodes. *)
Definition dynamic_collections (nodes : list DynamicDataPoint) : gmap (string * string) (list (uuid * string)) :=
  foldl (λ m n,
           foldl (λ m '(field, t),
                    let c := (dp_data_type (dy_base n), field) in <[c := default [] (m !! c) ++ [(dy_id n, t)]]> m)
             m (index_field_texts n)) ∅ nodes.

Definition collection_le (x y : (string * string) * list (uuid * string)) : Prop :=
  match String.compare x.1.1 y.1.1 with
  | Lt => True
  | Gt => False
  | Eq => match String.compare x.1.2 y.1.2 with Gt => False | _ => True end
  end.
#[export] Instance collection_le_dec x y : Decision (collection_le x y).
Proof.
  unfold collection_le. destruct (String.compare x.1.1 y.1.1); [|left; done|right; tauto].
  destruct (String.compare x.1.2 y.1.2); [left|left|right]; tauto.
Defined.

(** One window of custom nodes; the embeddings kept of it. *)
Definition index_dynamic_window (retain_embeddings : bool) (c : collection) (retained : list Embedding)
    (entries : list (uuid * string)) : M CognifyError (list Embedding) :=
  vectors ← m_of_result (embed_entries entries);
  vector_call (command (index_points c (map fst (take (length vectors) entries))));;
  mret (if retain_embeddings then retained ++ zip_with (λ id v, (id, c, v)) (map fst entries) vectors else retained).

(** One collection of [index_dynamic_graph_points]. *)
Definition index_dynamic_collection (retain_embeddings : bool) (window : nat)
    (acc : list Embedding * gmap string nat) (entry : (string * string) * list (uuid * string))
    : M CognifyError (list Embedding * gmap string nat) :=
  let '(retained, stats) := acc in
  let '(c, entries) := entry in
  exists_ ← vector_call (query (has_collection c));
  (if exists_ : bool then mret () else vector_call (command (create_collection c)));;
  vector_call hint;;
  retained ← m_foldl (index_dynamic_window retain_embeddings c) retained (chunks window entries);
  mret (retained, record_stats c (length entries) stats).

(** [index_dynamic_graph] *)
Definition index_dynamic_graph (retain_embeddings : bool) (window : nat) (nodes : list DynamicDataPoint)
    (stats : gmap string nat) : M CognifyError (list Embedding * gmap string nat) :=
  in_bulk_load (m_foldl (index_dynamic_collection retain_embeddings window) ([], stats)
                  (merge_sort collection_le (map_to_list (dynamic_collections nodes)))).
End embedding.

(** ** The stage *)

(** The settings the stage reads. *)
Record StorageConfig := {
  sc_chunks_per_batch : nat;
  sc_chunk_attachment : option ChunkAttachment;
  sc_retain_embeddings : bool;
  sc_edge_evidence_enabled : bool;
  sc_evidence_pipeline_run_id : option uuid;
}.

(** What the stage adds to the input it returns, of [CognifyResult]. *)
Record AddedDataPoints (V : Type) := {
  ad_edge_types : list EdgeType;
  ad_embeddings : list (uuid * (string * string) * V);
  ad_embedding_count : nat;
  ad_indexed_fields : gmap string nat;
  ad_pipeline_run_id : option uuid;
}.
Arguments ad_edge_types {V} _.
Arguments ad_embeddings {V} _.
Arguments ad_embedding_count {V} _.
Arguments ad_indexed_fields {V} _.
Arguments ad_pipeline_run_id {V} _.

(** The nodes of the custom graphs, the first of an id. *)
Definition dynamic_nodes_of (stored : list StoredDynamicGraph) : gmap uuid DynamicDataPoint :=
  foldl (λ m n, match m !! dy_id n with Some _ => m | None => <[dy_id n := n]> m end) ∅ (concat (map sg_nodes stored)).

Definition nodes_in_order (nodes : gmap uuid DynamicDataPoint) : list DynamicDataPoint :=
  omap (λ id, nodes !! id) (merge_sort N.le (map_to_list nodes).*1).

Section stage.
Context `{UuidFormat, Lowercase, SerdeJson} (new_v5 : uuid → string → uuid) (parse_str : string → option uuid) (now : Z)
  (entity_value : Entity → option json) (chunk_value : DocumentChunk → option json)
  (summary_value : TextSummary → option json) (type_value : EntityType → option json)
  (document_value : Document → option json) (base_value : DataPoint → option json)
  (clock : string → chunk_env) (time_text : string) (namespace_url : uuid) (as_f64 : json → option json)
  {V : Type} (embed : list string → result string (list V)) (batch_size window : nat).

(** The edges of the custom graphs, each once. *)
Definition dynamic_edges_of (stored : list StoredDynamicGraph) : list EdgeData :=
  map (λ r, (uuid_to_string (dr_source r), uuid_to_string (dr_target r), dr_field_name r, {["updated_at" := JString time_text]}))
    (foldl (λ seen r, if decide (r ∈ seen) then seen else seen ++ [r]) [] (concat (map sg_relationships stored))).

(** The data points whose fields name edges. *)
Definition extractable_items (input : SummarizedData) : list GraphExtractable :=
  map (chunk_extractable parse_str) (sd_chunks input)
  ++ map summary_extractable (sd_summaries input)
  ++ concat (map (λ n, entity_extractable (np_entity n) ::
                       match np_entity_type n with Some et => [type_extractable et] | None => [] end) (sd_entities input)).

(** What the graph stores of an edge. *)
Definition stored_edge (e : EdgeData) : uuid * string * uuid :=
  let '(source, target, relationship, _) := e in
  (default nil_uuid (parse_str source), relationship, default nil_uuid (parse_str target)).

Definition graph_call (f : stores → stores) : M CognifyError () := m_map_err GraphDatabaseError (command f).

(** [add_nodes] of a list, skipped when it is empty. *)
Definition add_nodes_unless_empty {A} (id_of : A → uuid) (l : list A) : M CognifyError () :=
  match l with [] => mret () | _ => graph_call (graph_add_nodes (map id_of l)) end.
Definition add_edges_unless_empty (l : list EdgeData) : M CognifyError () :=
  match l with [] => mret () | _ => graph_call (graph_add_edges (map stored_edge l)) end.

(** The texts of all edges of the stage. *)
Definition retrieval_texts (input : SummarizedData) (structural_edges dynamic_edges : list EdgeData) : list string :=
  map pair_retrieval_text (sd_edges input) ++ map data_retrieval_text (structural_edges ++ dynamic_edges).

(** The edge types, stamped. *)
Definition stamped_edge_types (input : SummarizedData) (structural_edges dynamic_edges : list EdgeData) : list EdgeType :=
  let user_label := uuid_to_string <$> sd_user_id input in
  (foldl (λ '(types, visited) et, let '(et, visited) := pre_stamp_extraction user_label None et visited in (types ++ [et], visited))
     ([], ∅) (build_edge_types new_v5 clock (retrieval_texts input structural_edges dynamic_edges) (sd_dataset_id input))).1.

(** [capture_edge_evidence] *)
Definition capture_edge_evidence (id : LedgerIdentity) (input : SummarizedData) (structural_edges : list EdgeData)
    : M CognifyError () :=
  let scope := {| es_tenant_id := li_tenant_id id; es_user_id := li_user_id id; es_dataset_id := li_dataset_id id;
                  es_pipeline_run_id := li_pipeline_run_id id; es_captured_at := now |} in
  match build_edge_evidence new_v5 parse_str namespace_url as_f64 scope (sd_chunks input) structural_edges (sd_producers input) with
  | [] => mret ()
  | _ => m_map_err DatabaseError (command (λ st, st))
  end.

(** The two writes of the ledger, before any other. *)
Definition record_ownership (id : LedgerIdentity) (input : SummarizedData) (stored : list StoredDynamicGraph)
    (structural_edges dynamic_edges : list EdgeData) : M CognifyError () :=
  record_dynamic_graph_ownership new_v5 parse_str now base_value id (sd_dynamic_graphs input) stored (sd_chunks input)
    structural_edges dynamic_edges;;
  upsert_provenance new_v5 parse_str now entity_value chunk_value summary_value type_value document_value id input
    structural_edges.

(** The writes of the graph. *)
Definition write_graph (input : SummarizedData) (dynamic_nodes : list DynamicDataPoint)
    (structural_edges dynamic_edges : list EdgeData) : M CognifyError () :=
  add_nodes_unless_empty dc_id (sd_chunks input);;
  add_nodes_unless_empty ts_id (sd_summaries input);;
  (match sd_entities input with
   | [] => mret ()
   | _ => graph_call (graph_add_nodes (map et_id (omap np_entity_type (sd_entities input))))
   end);;
  add_nodes_unless_empty doc_id (sd_documents input);;
  add_nodes_unless_empty dy_id dynamic_nodes;;
  add_edges_unless_empty dynamic_edges;;
  add_edges_unless_empty structural_edges.

(** The points of the vector store. *)
Definition write_points (config : StorageConfig) (input : SummarizedData) (dynamic_nodes : list DynamicDataPoint)
    (edge_types : list EdgeType) : M CognifyError (list (uuid * (string * string) * V) * gmap string nat) :=
  embeddings ← (if sc_retain_embeddings config then m_of_result (generate_embeddings embed batch_size input) else mret []);
  indexed_fields ← index_data_points embed batch_size input edge_types embeddings window;
  match dynamic_nodes with
  | [] => mret (embeddings, indexed_fields)
  | _ =>
      '(dynamic_embeddings, indexed_fields) ←
        index_dynamic_graph embed batch_size (sc_retain_embeddings config) window dynamic_nodes indexed_fields;
      mret (embeddings ++ dynamic_embeddings, indexed_fields)
  end.

(** The evidence, last. *)
Definition write_evidence (config : StorageConfig) (id : LedgerIdentity) (input : SummarizedData)
    (structural_edges dynamic_edges : list EdgeData) : M CognifyError () :=
  match sc_edge_evidence_enabled config, sd_user_id input with
  | true, Some _ =>
      let evidence_identity :=
        match sc_evidence_pipeline_run_id config with
        | Some run_id => {| li_tenant_id := li_tenant_id id; li_user_id := li_user_id id; li_dataset_id := li_dataset_id id;
                            li_pipeline_run_id := Some run_id |}
        | None => id
        end in
      capture_edge_evidence evidence_identity input (structural_edges ++ dynamic_edges)
  | _, _ => mret ()
  end.

(** [add_data_points] *)
Definition add_data_points (input : SummarizedData) (pipeline_run_id : option uuid) (config : StorageConfig)
    : M CognifyError (AddedDataPoints V) :=
  match store_dynamic_graphs (sc_chunks_per_batch config) (sc_chunk_attachment config) (sd_dynamic_graphs input)
          (sd_chunks input) with
  | None => fail (OutputTypeMismatch "panic" "out of fuel")
  | Some stored =>
      let dynamic_nodes := dynamic_nodes_of stored in
      let nodes := nodes_in_order dynamic_nodes in
      let '(structural_edges, dynamic_edges) :=
        stamp_structural_edge_text parse_str (get_graph_from_model time_text (extractable_items input))
          (dynamic_edges_of stored) input dynamic_nodes in
      let id := LedgerIdentity_new (sd_tenant_id input) (sd_user_id input) (sd_dataset_id input) pipeline_run_id in
      record_ownership id input stored structural_edges dynamic_edges;;
      write_graph input nodes structural_edges dynamic_edges;;
      let edge_types := stamped_edge_types input structural_edges dynamic_edges in
      '(embeddings, indexed_fields) ← write_points config input nodes edge_types;
      write_evidence config id input structural_edges dynamic_edges;;
      mret {| ad_edge_types := edge_types; ad_embeddings := embeddings;
              ad_embedding_count := length (sd_chunks input) + length (sd_entities input) + length (sd_summaries input)
                                    + sum_list_with (length ∘ index_field_texts) nodes;
              ad_indexed_fields := indexed_fields; ad_pipeline_run_id := pipeline_run_id |}
  end.
End stage.
