(* ===== verification/StorageRows.v ===== *)
(** * Facts of the storage stage's ownership rows

    Every node and edge the stage writes to the graph has a row among those it hands to
    the ledger before. *)

From stdpp Require Import sorting.
From S2P Require Import Prelude Json Strings Text DataPoint Models Provenance Summarize Failure Ledger LedgerFacts Artifacts Loaders.
From S2P Require Import Sweep SweepFacts Config GraphTypes EdgeText Expansion ExpansionFacts EntityIds ExpansionSpec.
From S2P Require Import Ownership OwnershipFacts OwnershipSpec DynamicWalk DynamicWalkFacts StructuralEdges StructuralFacts AddDataPoints.
#[local] Open Scope nat_scope.

(** ** What the ledger says of the graph *)

Definition node_owned (l : ledger) (i : uuid) : Prop := ∃ n, n ∈ lg_nodes l ∧ gn_slug n = i.

(** A row names an edge of the graph. *)
Definition edge_says `{UuidFormat, Lowercase} (e : GraphEdge) (x : uuid * string * uuid) : Prop :=
  ge_source_node_id e = x.1.1 ∧ ge_destination_node_id e = x.2
  ∧ (x.1.2 = "contains" ∨ ge_relationship_name e = sanitize_string x.1.2).

Definition edge_owned `{UuidFormat, Lowercase} (l : ledger) (x : uuid * string * uuid) : Prop :=
  ∃ e, e ∈ lg_edges l ∧ edge_says e x.

Section rows.
Context `{UuidFormat, !UuidFormatLaws, Lowercase} (new_v5 : uuid → string → uuid) (parse_str : string → option uuid)
  (parse_to_string : ∀ u, parse_str (uuid_to_string u) = Some u) (v5_inj : v5_injective new_v5).

Lemma node_owned_upsert nodes edges l i : ledger_ok new_v5 l → Forall (minted_node new_v5) nodes →
  node_owned l i ∨ i ∈ map gn_slug nodes → node_owned (upsert_provenance_graph nodes edges l) i.
Proof.
  intros Hl Hn Hi.
  assert (∃ n, (n ∈ lg_nodes l ∨ n ∈ nodes) ∧ gn_slug n = i) as (n & Hin & <-).
  { destruct Hi as [(n & Hn' & <-)|(n & -> & Hn')%list_elem_of_fmap]; exists n; auto. }
  destruct (upsert_nodes_own new_v5 nodes edges l n v5_inj Hl Hn Hin) as (n' & Hn' & Hs & _). by exists n'.
Qed.

Lemma edge_owned_upsert nodes edges l x : ledger_ok new_v5 l → Forall (minted_edge new_v5) edges →
  edge_owned l x ∨ (∃ e, e ∈ edges ∧ edge_says e x) → edge_owned (upsert_provenance_graph nodes edges l) x.
Proof.
  intros Hl He Hx.
  assert (∃ e, (e ∈ lg_edges l ∨ e ∈ edges) ∧ edge_says e x) as (e & Hin & Hs & Ht & Hr).
  { destruct Hx as [(e & He' & Hsays)|(e & He' & Hsays)]; exists e; auto. }
  destruct (upsert_edges_own new_v5 nodes edges l e v5_inj Hl He Hin) as (e' & He' & Hs' & Ht' & Hr').
  exists e'. split; [done|]. split_and!; [congruence|congruence|]. destruct Hr as [Hr|Hr]; [by left|right; congruence].
Qed.

(** ** The rows are minted *)

Section minted.
Context (now : Z) (entity_value : Entity → option json) (chunk_value : DocumentChunk → option json)
  (summary_value : TextSummary → option json) (type_value : EntityType → option json)
  (document_value : Document → option json) (base_value : DataPoint → option json) (id : LedgerIdentity).

Lemma node_row_minted slug label node_type fields attributes data_id :
  minted_node new_v5 (node_row_of new_v5 now id slug label node_type fields attributes data_id).
Proof. by eexists. Qed.

Lemma edge_row_minted data_id source target row_text slug label attributes :
  minted_edge new_v5 (edge_row_of new_v5 now id data_id source target row_text slug label attributes).
Proof. by eexists. Qed.

Notation nodes_of := (provenance_nodes new_v5 parse_str now entity_value chunk_value summary_value type_value document_value id).
Notation edges_of := (provenance_edges new_v5 parse_str now id).

Lemma minted_map {A} (row : A → GraphNode) l : (∀ x, minted_node new_v5 (row x)) → Forall (minted_node new_v5) (map row l).
Proof. intros Hrow. apply Forall_fmap, Forall_forall. intros x _. apply Hrow. Qed.

Lemma provenance_nodes_minted input : Forall (minted_node new_v5) (nodes_of input).
Proof.
  unfold provenance_nodes. cbv zeta. rewrite !Forall_app. split_and!; try (apply minted_map; intros x; apply node_row_minted).
  apply Forall_forall. unfold entity_provenance_rows. intros r (n & _ & Hr)%elem_of_concat_map.
  by apply (entity_rows_spec new_v5) in Hr as [? _].
Qed.

Lemma provenance_edges_minted input structural : Forall (minted_edge new_v5) (edges_of input structural).
Proof.
  unfold provenance_edges. cbv zeta. apply Forall_app. split.
  - apply Forall_forall. unfold semantic_edge_provenance_rows. intros r (e & _ & Hr)%elem_of_concat_map.
    by apply (edge_rows_spec new_v5) in Hr as [? _].
  - apply Forall_fmap, Forall_forall. intros [[[s t] r] p] _. unfold structural_row. simpl. cbv zeta.
    destruct (if decide _ then _ else _); apply edge_row_minted.
Qed.

(** ** The rows cover the graph *)

Lemma provenance_nodes_cover input i :
  i ∈ map dc_id (sd_chunks input) ++ map ts_id (sd_summaries input)
      ++ map et_id (omap np_entity_type (sd_entities input)) ++ map doc_id (sd_documents input) →
  i ∈ map gn_slug (nodes_of input).
Proof.
  unfold provenance_nodes. cbv zeta. rewrite !map_app, !map_map. rewrite !elem_of_app. simpl. tauto.
Qed.

Lemma dynamic_rows_cover graphs stored i : length stored = length graphs →
  i ∈ map dy_id (concat (map sg_nodes stored)) →
  i ∈ map gn_slug (concat (map (λ '(a, s), dynamic_node_rows new_v5 now base_value id a s) (zip graphs stored))).
Proof.
  intros Hlen (n & -> & (s & Hs & Hn)%elem_of_concat_map)%list_elem_of_fmap.
  apply list_elem_of_lookup in Hs as [k Hk].
  destruct (lookup_lt_is_Some_2 graphs k) as [a Ha]; [rewrite <-Hlen; by eapply lookup_lt_Some|].
  apply (list_elem_of_fmap_2' _ _ (dynamic_node_row new_v5 now base_value id (ag_data_id a) n)); [|done].
  apply elem_of_concat_map. exists (a, s). split; [by eapply zip_lookup|]. by apply list_elem_of_fmap_2.
Qed.
End minted.

(** *** Edges *)

(** The name of a field as it is, or one that is not taken for [contains]. *)
Definition plain_name (r : string) : Prop := r = "contains" ∨ sanitize_string r ≠ "contains".

Lemma structural_rows_cover now id structural x :
  (∀ e, e ∈ structural → plain_name e.1.2) → x ∈ map (stored_edge parse_str) structural →
  ∃ row, row ∈ map (structural_row new_v5 parse_str now id) structural ∧ edge_says row x.
Proof.
  intros Hplain (e & -> & He)%list_elem_of_fmap. exists (structural_row new_v5 parse_str now id e).
  split; [by apply list_elem_of_fmap_2|]. specialize (Hplain e He). destruct e as [[[s t] r] p]. simpl in *.
  case_decide as Hr.
  - destruct Hplain as [->|?]; [|done]. destruct (sanitize_string <$> _); split_and!; simpl; auto.
  - split_and!; [done|done|by right].
Qed.

(** What is stored of an edge depends on its key. *)
Definition stored_key (k : string * string * string) : uuid * string * uuid :=
  (default nil_uuid (parse_str k.1.1), k.2, default nil_uuid (parse_str k.1.2)).

Lemma stored_edge_key e : stored_edge parse_str e = stored_key (edge_data_key e).
Proof. by destruct e as [[[s t] r] p]. Qed.

Lemma stored_edges_keys l : map (stored_edge parse_str) l = map stored_key (map edge_data_key l).
Proof. rewrite map_map. apply map_ext. intros e. apply stored_edge_key. Qed.

Lemma ensure_edge_key labels e : edge_data_key (ensure_edge_text parse_str labels e).1 = edge_data_key e.
Proof. destruct e as [[[s t] r] p]. unfold ensure_edge_text. case_match; [done|]. by case_match. Qed.

Lemma mention_edge_key mentions e : edge_data_key (mention_edge mentions e) = edge_data_key e.
Proof. destruct e as [[[s t] r] p]. simpl. case_decide; [|done]. by case_match. Qed.

Lemma stamped_keys structural dynamic input dynamic_nodes :
  let stamped := stamp_structural_edge_text parse_str structural dynamic input dynamic_nodes in
  map edge_data_key stamped.1 = map edge_data_key structural ∧ map edge_data_key stamped.2 = map edge_data_key dynamic.
Proof.
  unfold stamp_structural_edge_text, ensure_default_edge_text, stamped_all. simpl. rewrite !map_map. split.
  - apply map_ext. intros e. by rewrite ensure_edge_key, mention_edge_key.
  - apply map_ext. intros e. apply ensure_edge_key.
Qed.

Lemma elem_of_dedup {A} `{EqDecision A} (l : list A) x :
  x ∈ foldl (λ seen r, if decide (r ∈ seen) then seen else seen ++ [r]) [] l ↔ x ∈ l.
Proof.
  assert (Hgo : ∀ l seen, x ∈ foldl (λ seen r, if decide (r ∈ seen) then seen else seen ++ [r]) seen l ↔ x ∈ seen ∨ x ∈ l).
  { clear l. induction l as [|r l IH]; intros seen; simpl; [rewrite elem_of_nil; tauto|]. rewrite IH, elem_of_cons.
    case_decide; [naive_solver|]. rewrite elem_of_app, list_elem_of_singleton. tauto. }
  rewrite Hgo, elem_of_nil. tauto.
Qed.

(** The stored edges of the custom graphs. *)
Definition relationship_edge (r : DynamicRelationship) : uuid * string * uuid := (dr_source r, dr_field_name r, dr_target r).

Lemma elem_of_dynamic_edges time_text stored x :
  x ∈ map (stored_edge parse_str) (dynamic_edges_of time_text stored)
  ↔ ∃ r, r ∈ concat (map sg_relationships stored) ∧ x = relationship_edge r.
Proof.
  unfold dynamic_edges_of. rewrite map_map. split.
  - intros (r & -> & Hr)%list_elem_of_fmap. apply (proj1 (elem_of_dedup _ _)) in Hr. exists r. split; [done|].
    simpl. by rewrite !parse_to_string.
  - intros (r & Hr & ->). apply list_elem_of_fmap. exists r. split; [simpl; by rewrite !parse_to_string|by apply elem_of_dedup].
Qed.

Lemma dynamic_edge_rows_cover now id chunks contains_properties field_properties graphs stored r :
  length stored = length graphs → r ∈ concat (map sg_relationships stored) →
  ∃ row, row ∈ concat (map (λ '(a, s), dynamic_edge_rows new_v5 parse_str now id chunks contains_properties field_properties a s)
                         (zip graphs stored))
    ∧ edge_says row (relationship_edge r).
Proof.
  intros Hlen (s & Hs & Hr)%elem_of_concat_map. apply list_elem_of_lookup in Hs as [k Hk].
  destruct (lookup_lt_is_Some_2 graphs k) as [a Ha]; [rewrite <-Hlen; by eapply lookup_lt_Some|].
  exists (dynamic_edge_row new_v5 now id (ag_data_id a) field_properties r). split; [|split_and!; [done|done|by right]].
  apply elem_of_concat_map. exists (a, s). split; [by eapply zip_lookup|]. apply elem_of_app. left. by apply list_elem_of_fmap_2.
Qed.

Lemma dynamic_edge_rows_minted now id chunks contains_properties field_properties graphs stored :
  Forall (minted_edge new_v5) (concat (map (λ '(a, s),
    dynamic_edge_rows new_v5 parse_str now id chunks contains_properties field_properties a s) (zip graphs stored))).
Proof.
  apply Forall_forall. intros row ([a s] & _ & [(r & -> & _)%list_elem_of_fmap|Hr]%elem_of_app)%elem_of_concat_map.
  - by apply edge_row_minted.
  - destruct (find_chunk _ _) as [c|]; [|by apply not_elem_of_nil in Hr].
    apply list_elem_of_fmap in Hr as (t & -> & _). unfold attachment_row. cbv zeta. case_match. by apply edge_row_minted.
Qed.

Lemma dynamic_node_rows_minted now base_value id graphs stored :
  Forall (minted_node new_v5) (concat (map (λ '(a, s), dynamic_node_rows new_v5 now base_value id a s) (zip graphs stored))).
Proof.
  apply Forall_forall. intros row ([a s] & _ & (n & -> & _)%list_elem_of_fmap)%elem_of_concat_map. by apply node_row_minted.
Qed.

(** The fields that name data points. *)
Lemma extractable_names input e time_text :
  e ∈ get_graph_from_model time_text (extractable_items parse_str input) → plain_name e.1.2.
Proof.
  intros (item & rel & Hitem & Hrel & ->)%model_edges_named.
  assert (Hfield : ∀ name o, plain_name name → rel ∈ field_relationship name o → plain_name (rl_field_name rel)).
  { intros name [t|]; simpl; [by intros ? ->%list_elem_of_singleton|by intros _ ?%not_elem_of_nil]. }
  unfold extractable_items in Hitem.
  apply elem_of_app in Hitem as [(c & -> & _)%list_elem_of_fmap|
    [(s & -> & _)%list_elem_of_fmap|(n & _ & Hn)%elem_of_concat_map]%elem_of_app]; simpl in Hrel.
  - apply elem_of_app in Hrel as [?%Hfield|(i & -> & _)%list_elem_of_fmap]; [done| |by left].
    right. vm_compute. discriminate.
  - apply Hfield in Hrel; [done|]. right. vm_compute. discriminate.
  - apply elem_of_cons in Hn as [->|Hn]; [apply Hfield in Hrel; [done|]; right; vm_compute; discriminate|].
    destruct (np_entity_type n); [|by apply not_elem_of_nil in Hn].
    apply list_elem_of_singleton in Hn as ->. by apply not_elem_of_nil in Hrel.
Qed.
End rows.
