(* ===== verification/StoragePoints.v ===== *)
(** * Facts of the storage stage's vector points

    The points each collection gains, whatever calls fail: a write is described by the
    points it asks for ([writes]), and the description is composed as the code is. *)

From stdpp Require Import sorting.
From S2P Require Import Prelude Json Strings Text DataPoint Models Provenance Summarize Failure Ledger LedgerFacts Artifacts Loaders.
From S2P Require Import Sweep SweepFacts Config GraphTypes EdgeText Expansion Ownership OwnershipFacts DynamicWalk.
From S2P Require Import StructuralEdges StructuralFacts ChunkDocument AddDataPoints.
#[local] Open Scope nat_scope.

(** ** Vector stores that gain points *)

Notation point := ((string * string) * uuid)%type (only parsing).

Definition points_in (v : gmap (string * string) (gset uuid)) (c : string * string) : gset uuid := default ∅ (v !! c).

(** [v'] has the points of [v] and those of [l]. *)
Definition gained (l : list point) (v v' : gmap (string * string) (gset uuid)) : Prop :=
  ∀ c i, i ∈ points_in v' c ↔ i ∈ points_in v c ∨ (c, i) ∈ l.

(** [v'] has the points of [v] and some of [l]. *)
Definition grown (l : list point) (v v' : gmap (string * string) (gset uuid)) : Prop :=
  ∀ c i, (i ∈ points_in v c → i ∈ points_in v' c) ∧ (i ∈ points_in v' c → i ∈ points_in v c ∨ (c, i) ∈ l).

Lemma gained_grown l v v' : gained l v v' → grown l v v'.
Proof. intros Hg c i. specialize (Hg c i). tauto. Qed.

Lemma grown_refl l v : grown l v v.
Proof. intros c i. tauto. Qed.

Lemma gained_trans l l' v v' v'' : gained l v v' → gained l' v' v'' → gained (l ++ l') v v''.
Proof. intros H1 H2 c i. rewrite (H2 c i), (H1 c i), elem_of_app. tauto. Qed.

Lemma grown_trans l l' v v' v'' : grown l v v' → grown l' v' v'' → grown (l ++ l') v v''.
Proof. intros H1 H2 c i. specialize (H1 c i). specialize (H2 c i). rewrite elem_of_app. tauto. Qed.

Lemma gained_proper l l' v v' : (∀ x, x ∈ l ↔ x ∈ l') → gained l v v' → gained l' v v'.
Proof. intros Hl Hg c i. rewrite (Hg c i), Hl. done. Qed.

Lemma grown_proper l l' v v' : (∀ x, x ∈ l → x ∈ l') → grown l v v' → grown l' v v'.
Proof. intros Hl Hg c i. specialize (Hg c i) as [? Hg]. naive_solver. Qed.

(** Nothing but vectors is written. *)
Definition only_vectors (st st' : stores) : Prop := st' = with_vectors (st_vectors st') st.

Lemma only_vectors_refl st : only_vectors st st.
Proof. by destruct st. Qed.

Lemma only_vectors_trans st st' st'' : only_vectors st st' → only_vectors st' st'' → only_vectors st st''.
Proof. unfold only_vectors. intros -> ->. done. Qed.

(** ** Writes *)

Section writes.
Context {V : Type} (embed : list string → result string (list V)).

(** The engine refuses some texts. *)
Definition embedding_fails : Prop := ∃ texts e, embed texts = Err e.

(** [m] writes the points of [l], and nothing else; it fails only if a call does. *)
Definition writes {E A} (l : list point) (m : M E A) : Prop := ∀ w,
  dwp m (λ _ w', only_vectors (dw_stores w) (dw_stores w') ∧ (quiet w → quiet w')
                 ∧ gained l (st_vectors (dw_stores w)) (st_vectors (dw_stores w')))
        (λ _ w', only_vectors (dw_stores w) (dw_stores w') ∧ (¬ quiet w ∨ embedding_fails)
                 ∧ grown l (st_vectors (dw_stores w)) (st_vectors (dw_stores w'))) w.

Lemma writes_ret {E A} (a : A) : writes [] (mret a : M E A).
Proof. intros w. apply dwp_ret. split_and!; [apply only_vectors_refl|done|]. intros c i. rewrite elem_of_nil. tauto. Qed.

Lemma writes_bind {E A B} l l' (m : M E A) (k : A → M E B) : writes l m → (∀ a, writes l' (k a)) → writes (l ++ l') (m ≫= k).
Proof.
  intros Hm Hk w. apply dwp_bind. eapply dwp_mono; [apply Hm| |]; simpl.
  - intros a w' (Ho & Hq & Hg). eapply dwp_mono; [apply Hk| |]; simpl.
    + intros b w'' (Ho' & Hq' & Hg'). split_and!; [by eapply only_vectors_trans|auto|by eapply gained_trans].
    + intros e w'' (Ho' & Hq' & Hg'). split_and!; [by eapply only_vectors_trans|tauto|].
      eapply grown_trans; [by apply gained_grown|done].
  - intros e w' (Ho & Hq & Hg). split_and!; [done|done|]. eapply grown_proper; [|done]. intros x Hx. apply elem_of_app. by left.
Qed.

Lemma writes_proper {E A} l l' (m : M E A) : (∀ x, x ∈ l ↔ x ∈ l') → writes l m → writes l' m.
Proof.
  intros Hl Hm w. eapply dwp_mono; [apply Hm| |]; simpl.
  - intros a w' (? & ? & ?). split_and!; [done..|by eapply gained_proper].
  - intros a w' (? & ? & ?). split_and!; [done..|]. eapply grown_proper; [|done]. intros x. apply Hl.
Qed.

Lemma writes_map_err {E F A} (f : E → F) l (m : M E A) : writes l m → writes l (m_map_err f m).
Proof. intros Hm w. apply dwp_map_err, Hm. Qed.

Lemma writes_of_result {E A} (r : result E A) : (∀ e, r = Err e → embedding_fails) → writes [] (m_of_result r).
Proof.
  intros Hr. destruct r as [a|e]; simpl; [apply writes_ret|]. intros w. apply dwp_fail.
  split_and!; [apply only_vectors_refl|right; by eapply Hr|apply grown_refl].
Qed.

Lemma writes_foldl {E A B} (f : A → B → M E A) (L : B → list point) bs : (∀ a b, b ∈ bs → writes (L b) (f a b)) →
  ∀ a, writes (concat (map L bs)) (m_foldl f a bs).
Proof.
  induction bs as [|b bs IH]; intros Hf a; simpl; [apply writes_ret|]. apply writes_bind.
  - apply Hf. left.
  - intros a'. apply IH. intros a'' b' Hb'. apply Hf. by right.
Qed.

Lemma writes_command (f : stores → stores) l :
  (∀ st, only_vectors st (f st) ∧ gained l (st_vectors st) (st_vectors (f st))) → writes l (command f).
Proof.
  intros Hf w. apply dwp_command.
  - intros plan Hq. simpl. destruct (Hf (dw_stores w)). by split_and!.
  - intros e plan st Hq Hst. simpl. destruct (Hf (dw_stores w)) as [Ho Hg]. destruct Hst as [->| ->].
    + split_and!; [apply only_vectors_refl|by left|apply grown_refl].
    + split_and!; [done|by left|by apply gained_grown].
Qed.

Lemma writes_query {A} (f : stores → A) : writes [] (query f).
Proof.
  intros w. apply dwp_query.
  - intros plan Hq. split_and!; [apply only_vectors_refl|done|]. intros c i. rewrite elem_of_nil. tauto.
  - intros e plan Hq. split_and!; [apply only_vectors_refl|by left|apply grown_refl].
Qed.

Lemma writes_hint : writes [] hint.
Proof. apply writes_command. intros st. split; [apply only_vectors_refl|]. intros c i. rewrite elem_of_nil. tauto. Qed.

Lemma writes_create c : writes [] (command (create_collection c)).
Proof.
  apply writes_command. intros st. split; [done|]. intros c' i. rewrite elem_of_nil. unfold points_in, create_collection. simpl.
  destruct (decide (c' = c)) as [->|Hne]; [rewrite lookup_insert_eq|rewrite lookup_insert_ne by done]; simpl; tauto.
Qed.

Lemma writes_index c ids : writes (map (pair c) ids) (command (index_points c ids)).
Proof.
  apply writes_command. intros st. split; [done|]. intros c' i. unfold points_in, index_points. simpl.
  rewrite list_elem_of_fmap. destruct (decide (c' = c)) as [->|Hne]; [rewrite lookup_insert_eq|rewrite lookup_insert_ne by done]; simpl.
  - rewrite elem_of_union, elem_of_list_to_set. naive_solver.
  - naive_solver.
Qed.

(** A bulk-load scope changes nothing of what is written in it. *)
Lemma writes_bulk {A} l (m : M CognifyError A) : writes l m → writes l (in_bulk_load m).
Proof.
  intros Hm w. unfold in_bulk_load. apply dwp_bind, dwp_catch.
  assert (Hrest : ∀ (begun : result string ()) w', only_vectors (dw_stores w) (dw_stores w') → (quiet w → quiet w') →
    st_vectors (dw_stores w') = st_vectors (dw_stores w) →
    dwp (indexed ← m_catch m; (match begun with Ok _ => m_catch hint | Err e => mret (Ok () : result string ()) end);;
         m_of_result indexed)
      (λ _ w', only_vectors (dw_stores w) (dw_stores w') ∧ (quiet w → quiet w')
                 ∧ gained l (st_vectors (dw_stores w)) (st_vectors (dw_stores w')))
      (λ _ w', only_vectors (dw_stores w) (dw_stores w') ∧ (¬ quiet w ∨ embedding_fails)
                 ∧ grown l (st_vectors (dw_stores w)) (st_vectors (dw_stores w'))) w').
  { intros begun w' Ho Hq Hv. apply dwp_bind, dwp_catch.
    assert (Hend : ∀ indexed w'' (Q : A → delete_world → Prop) (X : CognifyError → delete_world → Prop),
      (∀ w3, dw_stores w3 = dw_stores w'' → (quiet w'' → quiet w3) → dwp (m_of_result indexed) Q X w3) →
      dwp ((match begun with Ok _ => m_catch hint | Err e => mret (Ok () : result string ()) end);;
           m_of_result indexed) Q X w'').
    { intros indexed w'' Q X HQ. apply dwp_bind. destruct begun as [u|e]; [|apply dwp_ret; by apply HQ].
      apply dwp_catch, dwp_command; [intros plan Hp; by apply HQ|]. intros e plan st Hp Hst.
      apply HQ; [by destruct Hst as [->| ->]|]. intros Hq''. by destruct Hp. }
    eapply dwp_mono; [apply Hm| |]; rewrite Hv.
    - intros a w'' (Ho' & Hq' & Hg). apply Hend. intros w3 Hst3 Hq3. apply dwp_ret. cbv beta. rewrite Hst3.
      split_and!; [by eapply only_vectors_trans|auto|done].
    - intros e w'' (Ho' & Hq' & Hg). apply Hend. intros w3 Hst3 Hq3. apply dwp_fail. cbv beta. rewrite Hst3.
      split_and!; [by eapply only_vectors_trans|tauto|done]. }
  apply dwp_command.
  - intros plan Hq. cbv beta. apply (Hrest (Ok ())); [apply only_vectors_refl|done|done].
  - intros e plan st Hq Hst. apply (Hrest (Err e)); destruct Hst as [->| ->]; simpl; (apply only_vectors_refl || done || tauto).
Qed.

(** ** Embeddings *)

(** A vector for every text. *)
Definition embeds_all : Prop := ∀ texts vectors, embed texts = Ok vectors → length vectors = length texts.

Lemma embed_batches_length batches vectors : embeds_all → embed_batches embed batches = Ok vectors →
  length vectors = length (concat batches).
Proof.
  intros Hall. revert vectors. induction batches as [|b batches IH]; intros vectors; simpl; [by intros [= <-]|].
  destruct (embed b) as [vs|e] eqn:Hb; [|done]. destruct (embed_batches embed batches) as [rest|e]; [|done].
  intros [= <-]. rewrite !length_app, (Hall _ _ Hb), (IH rest); done.
Qed.

Lemma embed_batches_fails batches e : embed_batches embed batches = Err e → embedding_fails.
Proof.
  induction batches as [|b batches IH]; simpl; [done|]. destruct (embed b) as [vs|e'] eqn:Hb; [|by exists b, e'].
  destruct (embed_batches embed batches); [done|]. intros [= ->]. by apply IH.
Qed.

Section batched.
Context (batch_size : nat).

Lemma embed_in_batches_length texts vectors : embeds_all → embed_in_batches embed batch_size texts = Ok vectors →
  length vectors = length texts.
Proof.
  intros Hall. unfold embed_in_batches. destruct texts as [|t texts]; [by intros [= <-]|].
  intros Hv. rewrite (embed_batches_length _ _ Hall Hv). by rewrite chunks_concat.
Qed.

Lemma embed_in_batches_fails texts e : embed_in_batches embed batch_size texts = Err e → embedding_fails.
Proof. unfold embed_in_batches. destruct texts; [done|]. apply embed_batches_fails. Qed.

(** With a fresh vector for each id that has none, every id gets one. *)
Lemma take_vectors_enough (precomputed : gmap uuid V) ids : ∀ fresh,
  length fresh = length (filter (λ id, precomputed !! id = None) ids) →
  ∃ vectors, take_vectors precomputed ids fresh = Ok vectors ∧ length vectors = length ids.
Proof.
  induction ids as [|id ids IH]; intros fresh Hlen; simpl; [by eexists|]. rewrite filter_cons in Hlen.
  destruct (precomputed !! id) as [v|] eqn:Hid.
  - rewrite decide_False in Hlen by done. destruct (IH _ Hlen) as (vs & -> & Hvs). eexists. split; [done|]. simpl. by f_equal.
  - rewrite decide_True in Hlen by done. destruct fresh as [|v fresh]; [done|]. injection Hlen as Hlen.
    destruct (IH _ Hlen) as (vs & -> & Hvs). eexists. split; [done|]. simpl. by f_equal.
Qed.

Lemma missing_entries (precomputed : gmap uuid V) (entries : list (uuid * string)) :
  length (filter (λ e, precomputed !! e.1 = None) entries) = length (filter (λ id, precomputed !! id = None) (map fst entries)).
Proof. induction entries as [|[id t] entries IH]; [done|]. simpl. rewrite !filter_cons. simpl. case_decide; simpl; congruence. Qed.

(** What the stage asks the vectors of a window to be. *)
Definition good_vectors (vectors_of : list (uuid * string) → result CognifyError (list V)) : Prop := ∀ entries,
  match vectors_of entries with Ok vectors => length vectors = length entries | Err _ => embedding_fails end.

Lemma reuse_good precomputed : embeds_all → good_vectors (reuse_or_embed embed batch_size precomputed).
Proof.
  intros Hall entries. unfold reuse_or_embed. destruct (embed_in_batches _ _ _) as [fresh|e] eqn:Hf.
  - apply embed_in_batches_length in Hf; [|done]. rewrite length_map, missing_entries in Hf.
    destruct (take_vectors_enough _ _ _ Hf) as (vs & -> & ->). by rewrite length_map.
  - by eapply embed_in_batches_fails.
Qed.

(** *** Alignment *)

Lemma embed_batches_pointwise (vector : string → V) batches vectors :
  (∀ texts vs, embed texts = Ok vs → vs = map vector texts) → embed_batches embed batches = Ok vectors →
  vectors = map vector (concat batches).
Proof.
  intros Hvec. revert vectors. induction batches as [|b batches IH]; intros vectors; simpl; [by intros [= <-]|].
  destruct (embed b) as [vs|e] eqn:Hb; [|done]. destruct (embed_batches embed batches) as [rest|e]; [|done].
  intros [= <-]. by rewrite map_app, (Hvec _ _ Hb), (IH rest).
Qed.

Lemma embed_in_batches_pointwise (vector : string → V) texts vectors :
  (∀ texts vs, embed texts = Ok vs → vs = map vector texts) → embed_in_batches embed batch_size texts = Ok vectors →
  vectors = map vector texts.
Proof.
  intros Hvec. unfold embed_in_batches. destruct texts as [|t texts]; [by intros [= <-]|].
  intros Hv. rewrite (embed_batches_pointwise _ _ _ Hvec Hv). by rewrite chunks_concat.
Qed.

Lemma take_vectors_aligned (vector : string → V) (precomputed : gmap uuid V) entries :
  take_vectors precomputed (map fst entries) (map vector (map snd (filter (λ e, precomputed !! e.1 = None) entries)))
  = Ok (map (λ e, default (vector e.2) (precomputed !! e.1)) entries).
Proof.
  induction entries as [|[id t] entries IH]; [done|]. simpl. rewrite filter_cons. simpl.
  destruct (precomputed !! id) as [v|] eqn:Hid.
  - rewrite decide_False by done. by rewrite IH.
  - rewrite decide_True by done. simpl. by rewrite IH.
Qed.

(** The vectors of a window of points are aligned with the points, whichever of them
    were embedded before and however the rest is batched: each point has its precomputed
    vector, or else the embedding of its text; there is no result only if the engine
    refuses. *)
Theorem reuse_or_embed_spec (vector : string → V) precomputed entries :
  (∀ texts vectors, embed texts = Ok vectors → vectors = map vector texts) →
  match reuse_or_embed embed batch_size precomputed entries with
  | Ok vectors => vectors = map (λ e, default (vector e.2) (precomputed !! e.1)) entries
  | Err _ => embedding_fails
  end.
Proof.
  intros Hvec. unfold reuse_or_embed. destruct (embed_in_batches _ _ _) as [fresh|e] eqn:Hf.
  - apply (embed_in_batches_pointwise vector) in Hf as ->; [|done]. by rewrite take_vectors_aligned.
  - by eapply embed_in_batches_fails.
Qed.

Lemma embed_good : embeds_all → good_vectors (embed_entries embed batch_size).
Proof.
  intros Hall entries. unfold embed_entries. destruct (embed_in_batches _ _ _) as [fresh|e] eqn:Hf; simpl.
  - apply embed_in_batches_length in Hf; [|done]. by rewrite length_map in Hf.
  - by eapply embed_in_batches_fails.
Qed.

Lemma embed_entries_fails entries e : embed_entries embed batch_size entries = Err e → embedding_fails.
Proof.
  unfold embed_entries. destruct (embed_in_batches _ _ _) as [fresh|e'] eqn:Hf; [done|]. intros _. by eapply embed_in_batches_fails.
Qed.

Lemma embeddings_of_fails c entries e : embeddings_of embed batch_size c entries = Err e → embedding_fails.
Proof.
  unfold embeddings_of. destruct entries as [|x entries]; [done|].
  destruct (embed_entries embed batch_size (x :: entries)) as [vs|e'] eqn:He; [done|]. intros _. by eapply embed_entries_fails.
Qed.

Lemma generate_embeddings_fails input e : generate_embeddings embed batch_size input = Err e → embedding_fails.
Proof.
  unfold generate_embeddings. destruct (embed_entries embed batch_size _) as [vs|e'] eqn:Hc; [|intros _; by eapply embed_entries_fails].
  destruct (embeddings_of embed batch_size ("Entity", "name") _) as [es|e'] eqn:He; [|intros _; by eapply embeddings_of_fails].
  destruct (embeddings_of embed batch_size ("TextSummary", "text") _) as [ss|e'] eqn:Hs; [done|].
  intros _. by eapply embeddings_of_fails.
Qed.

(** ** Collections *)

(** The points of a list of entries. *)
Definition entry_points (c : string * string) (entries : list (uuid * string)) : list point := map (pair c) (map fst entries).

Lemma writes_window c vectors_of u entries : good_vectors vectors_of →
  writes (entry_points c entries) (index_window c vectors_of u entries).
Proof.
  intros Hgood. unfold index_window. specialize (Hgood entries). destruct (vectors_of entries) as [vs|e].
  - change (writes (entry_points c entries) (vector_call (command (index_points c (map fst (take (length vs) entries)))))).
    rewrite Hgood, firstn_all. apply writes_map_err, writes_index.
  - intros w. apply dwp_bind, dwp_fail. split_and!; [apply only_vectors_refl|by right|apply grown_refl].
Qed.

Lemma entry_points_chunks c window entries :
  concat (map (entry_points c) (chunks window entries)) = entry_points c entries.
Proof.
  rewrite <-(chunks_concat window entries) at 2. unfold entry_points. by rewrite !concat_map, !map_map.
Qed.

(** A collection that is written in windows. *)
Lemma writes_prepared {A B} c (step : A → list (uuid * string) → M CognifyError A) window entries a (k : A → M CognifyError B) :
  (∀ a b, writes (entry_points c b) (step a b)) → (∀ a, writes [] (k a)) →
  writes (entry_points c entries)
    (exists_ ← vector_call (query (has_collection c));
     (if exists_ : bool then mret () else vector_call (command (create_collection c)));;
     vector_call hint;;
     a' ← m_foldl step a (chunks window entries);
     k a').
Proof.
  intros Hstep Hk. rewrite <-(app_nil_r (entry_points c entries)), <-(entry_points_chunks c window entries).
  apply (writes_bind [] _); [apply writes_map_err, writes_query|].
  intros b. apply (writes_bind [] _); [destruct b; [apply writes_ret|apply writes_map_err, writes_create]|].
  intros u. apply (writes_bind [] _); [apply writes_map_err, writes_hint|]. intros u'.
  apply writes_bind; [|done]. apply writes_foldl. intros a0 b0 _. apply Hstep.
Qed.

Lemma writes_collection window c vectors_of entries stats : good_vectors vectors_of →
  writes (entry_points c entries) (index_collection window c vectors_of entries stats).
Proof.
  intros Hgood. unfold index_collection. destruct entries as [|e entries]; [apply writes_ret|].
  apply writes_prepared; [intros; by apply writes_window|]. intros u. apply writes_ret.
Qed.

(** *** Grouping *)

(** The map of groups a fold builds. *)
Lemma elem_of_grouped `{Countable K} {A B} (key : A → K) (value : A → B) l k y : ∀ m : gmap K (list B),
  y ∈ default [] (foldl (λ m x, <[key x := default [] (m !! key x) ++ [value x]]> m) m l !! k)
  ↔ y ∈ default [] (m !! k) ∨ ∃ x, x ∈ l ∧ key x = k ∧ value x = y.
Proof.
  induction l as [|x l IH]; intros m; simpl.
  - split; [by left|]. by intros [?|(x & []%not_elem_of_nil & _)].
  - rewrite IH. setoid_rewrite elem_of_cons. destruct (decide (key x = k)) as [<-|Hne].
    + rewrite lookup_insert_eq. simpl. rewrite elem_of_app, list_elem_of_singleton. naive_solver.
    + rewrite lookup_insert_ne by done. naive_solver.
Qed.

(** The points of groups. *)
Lemma elem_of_group_points `{Countable K} {B} (coll : K → string * string) (point_of : B → uuid) (groups : list (K * list B)) m x :
  groups ≡ₚ map_to_list m →
  x ∈ concat (map (λ g, map (pair (coll g.1)) (map point_of g.2)) groups)
  ↔ ∃ k y, y ∈ default [] (m !! k) ∧ x = (coll k, point_of y).
Proof.
  intros Hperm. rewrite elem_of_concat_map. split.
  - intros ([k l] & Hg & (i & -> & (y & -> & Hy)%list_elem_of_fmap)%list_elem_of_fmap). exists k, y.
    rewrite Hperm in Hg. apply elem_of_map_to_list in Hg. by rewrite Hg.
  - intros (k & y & Hy & ->). destruct (m !! k) as [l|] eqn:Hk; [|by apply not_elem_of_nil in Hy].
    exists (k, l). split; [rewrite Hperm; by apply elem_of_map_to_list|]. by apply list_elem_of_fmap_2, list_elem_of_fmap_2.
Qed.

(** ** The points of the stage *)

(** What is to be in the vector store of a batch, by collection. *)
Definition batch_points (input : SummarizedData) (edge_types : list EdgeType) : list point :=
  map (λ c, ((if is_dlt_row c then DLT_ROW_TYPE else "DocumentChunk", "text"), dc_id c)) (sd_chunks input)
  ++ map (λ n, (("Entity", "name"), np_id n)) (sd_entities input)
  ++ map (λ et, (("EntityType", "name"), et_id et)) (omap np_entity_type (sd_entities input))
  ++ map (λ s, (("TextSummary", "text"), ts_id s)) (sd_summaries input)
  ++ map (λ et, (("EdgeType", "relationship_name"), edge_id et)) edge_types
  ++ map (λ d, ((dp_data_type (doc_base d), "name"), doc_id d)) (sd_documents input).

Lemma unique_types_ids entities i :
  i ∈ map et_id (unique_types entities) ↔ i ∈ map et_id (omap np_entity_type entities).
Proof.
  unfold unique_types. set (types := omap np_entity_type entities).
  assert (Hgo : ∀ types (acc : list EntityType * gset uuid), acc.2 = list_to_set (map et_id acc.1) →
    i ∈ map et_id (foldl (λ '(types, seen) et, if decide (et_id et ∈ seen) then (types, seen)
                                            else (types ++ [et], {[et_id et]} ∪ seen)) acc types).1
    ↔ i ∈ map et_id acc.1 ∨ i ∈ map et_id types).
  { clear types. induction types as [|et types IH]; intros [acc seen] Hseen; simpl in *.
    - rewrite elem_of_nil. tauto.
    - rewrite elem_of_cons. case_decide as Hin.
      + rewrite IH by done. simpl. subst seen. apply elem_of_list_to_set in Hin. naive_solver.
      + rewrite IH; simpl.
        * rewrite map_app, elem_of_app. simpl. rewrite list_elem_of_singleton. tauto.
        * subst seen. rewrite map_app, list_to_set_app_L. simpl. set_solver. }
  rewrite Hgo by done. simpl. rewrite elem_of_nil. tauto.
Qed.

Lemma elem_of_document_points documents x :
  x ∈ concat (map (λ g, entry_points (g.1, "name") (document_entries g.2)) (documents_by_type documents))
  ↔ x ∈ map (λ d, ((dp_data_type (doc_base d), "name"), doc_id d)) documents.
Proof.
  pose proof (elem_of_group_points (λ t, (t, "name")) doc_id (documents_by_type documents) _ x (merge_sort_Permutation _ _)) as Hg.
  replace (concat (map (λ g, entry_points (g.1, "name") (document_entries g.2)) (documents_by_type documents)))
    with (concat (map (λ g : string * list Document, map (pair (g.1, "name")) (map doc_id g.2)) (documents_by_type documents))).
  2: { f_equal. apply map_ext. intros [t ds]. unfold entry_points, document_entries. by rewrite !map_map. }
  rewrite Hg. clear Hg.
  setoid_rewrite (elem_of_grouped (λ d, dp_data_type (doc_base d)) (λ d, d)). setoid_rewrite lookup_empty.
  rewrite list_elem_of_fmap. simpl. split.
  - intros (k & y & [[]%not_elem_of_nil|(d & Hd & <- & <-)] & ->). by exists d.
  - intros (d & -> & Hd). eexists _, d. split; [right; by exists d|done].
Qed.

(** The fold over a batch's rows of documents is one over groups. *)
Lemma writes_documents window groups stats : embeds_all →
  writes (concat (map (λ g, entry_points (g.1, "name") (document_entries g.2)) groups))
    (m_foldl (λ stats '(type_name, docs),
                index_collection window (type_name, "name") (embed_entries embed batch_size) (document_entries docs) stats)
       stats groups).
Proof. intros Hall. apply writes_foldl. intros stats' [t docs] _. by apply writes_collection, embed_good. Qed.

Lemma writes_batch input edge_types precomputed window : embeds_all →
  writes (batch_points input edge_types) (index_data_points_windowed embed batch_size input edge_types precomputed window).
Proof.
  intros Hall. unfold index_data_points_windowed. cbv zeta. set (pre := foldl _ ∅ precomputed).
  pose proof (reuse_good pre Hall) as Hreuse. pose proof (embed_good Hall) as Hembed.
  eapply writes_proper; [|repeat (apply writes_bind; [by apply writes_collection|intros ?]); by apply writes_documents].
  intros x. unfold batch_points. rewrite !elem_of_app, elem_of_document_points. unfold entry_points, chunk_entries,
    entity_entries, type_entries, summary_entries, edge_type_entries. rewrite !map_map. simpl.
  assert (Hchunks : ∀ l, x ∈ map (λ c, ((if is_dlt_row c then DLT_ROW_TYPE else "DocumentChunk", "text"), dc_id c)) l
    ↔ x ∈ map (λ c, (("DocumentChunk", "text"), dc_id c)) (filter (λ c, is_dlt_row c = false) l)
      ∨ x ∈ map (λ c, ((DLT_ROW_TYPE, "text"), dc_id c)) (filter (λ c, is_dlt_row c = true) l)).
  { intros l. induction l as [|c l IH]; simpl; [rewrite elem_of_nil; tauto|]. rewrite !filter_cons, elem_of_cons, IH.
    destruct (is_dlt_row c); simpl; rewrite elem_of_cons; tauto. }
  assert (Htypes : x ∈ map (λ et, (("EntityType", "name"), et_id et)) (unique_types (sd_entities input))
    ↔ x ∈ map (λ et, (("EntityType", "name"), et_id et)) (omap np_entity_type (sd_entities input))).
  { rewrite <-!(map_map et_id (pair ("EntityType", "name"))). rewrite !(list_elem_of_fmap (pair _)).
    by setoid_rewrite unique_types_ids. }
  rewrite Hchunks, Htypes. tauto.
Qed.

(** *** Custom nodes *)

Context `{SerdeJson}.

(** The points of custom nodes: one of each field that is indexed. *)
Definition custom_node_points (n : DynamicDataPoint) : list point :=
  map (λ f, ((dp_data_type (dy_base n), f.1), dy_id n)) (index_field_texts n).

Definition custom_points (nodes : list DynamicDataPoint) : list point := concat (map custom_node_points nodes).

Lemma elem_of_dynamic_collections nodes c e :
  e ∈ default [] (dynamic_collections nodes !! c)
  ↔ ∃ n f, n ∈ nodes ∧ f ∈ index_field_texts n ∧ (dp_data_type (dy_base n), f.1) = c ∧ (dy_id n, f.2) = e.
Proof.
  unfold dynamic_collections.
  assert (Hinner : ∀ (n : DynamicDataPoint) (fields : list (string * string)) (m : gmap (string * string) (list (uuid * string))), foldl (λ m '(field, t),
      let c := (dp_data_type (dy_base n), field) in <[c := default [] (m !! c) ++ [(dy_id n, t)]]> m) m fields
    = foldl (λ m f, <[(dp_data_type (dy_base n), f.1) := default [] (m !! (dp_data_type (dy_base n), f.1)) ++ [(dy_id n, f.2)]]> m)
        m fields).
  { intros n fields. induction fields as [|[field t] fields IH]; intros m; [done|]. apply IH. }
  assert (Hgo : ∀ nodes (m : gmap (string * string) (list (uuid * string))), e ∈ default [] (foldl (λ m n, foldl (λ m '(field, t),
      let c := (dp_data_type (dy_base n), field) in <[c := default [] (m !! c) ++ [(dy_id n, t)]]> m) m (index_field_texts n))
      m nodes !! c)
    ↔ e ∈ default [] (m !! c) ∨ ∃ n f, n ∈ nodes ∧ f ∈ index_field_texts n ∧ (dp_data_type (dy_base n), f.1) = c
                                      ∧ (dy_id n, f.2) = e).
  { clear nodes. induction nodes as [|n nodes IH]; intros m; simpl.
    - split; [by left|]. by intros [?|(? & ? & []%not_elem_of_nil & _)].
    - rewrite IH, Hinner, (elem_of_grouped (λ f : string * string, (dp_data_type (dy_base n), f.1)) (λ f : string * string, (dy_id n, f.2))).
      setoid_rewrite elem_of_cons. split; [|naive_solver]. intros [[?|(f & ? & ? & ?)]|(n' & f & ? & ? & ? & ?)]; [by left| |].
      + right. exists n, f. auto.
      + right. exists n', f. auto. }
  rewrite Hgo, lookup_empty. simpl. rewrite elem_of_nil. tauto.
Qed.

Lemma writes_custom retain window nodes stats : embeds_all →
  writes (custom_points nodes) (index_dynamic_graph embed batch_size retain window nodes stats).
Proof.
  intros Hall. unfold index_dynamic_graph. apply writes_bulk. set (groups := merge_sort _ _).
  apply (writes_proper (concat (map (λ g, entry_points g.1 g.2) groups))).
  - intros x. unfold entry_points.
    rewrite (elem_of_group_points (λ c, c) fst groups _ x (merge_sort_Permutation _ _)). unfold custom_points.
    setoid_rewrite elem_of_dynamic_collections. rewrite elem_of_concat_map. unfold custom_node_points. split.
    + intros (k & y & (n & f & Hn & Hf & <- & <-) & ->). exists n. split; [done|]. apply list_elem_of_fmap. by exists f.
    + intros (n & Hn & (f & -> & Hf)%list_elem_of_fmap). eexists _, (dy_id n, f.2). split; [by exists n, f|done].
  - apply writes_foldl. intros [retained stats'] [c entries] _. unfold index_dynamic_collection.
    apply writes_prepared; [|intros; apply writes_ret]. intros kept b. unfold index_dynamic_window.
    pose proof (embed_good Hall b) as Hb. destruct (embed_entries embed batch_size b) as [vs|e].
    + apply (writes_proper (entry_points c b ++ [])); [intros x; by rewrite app_nil_r|].
      change (writes (entry_points c b ++ []) (vector_call (command (index_points c (map fst (take (length vs) b))));;
        mret (if retain then kept ++ zip_with (λ id v, (id, c, v)) (map fst b) vs else kept))).
      rewrite Hb, firstn_all. apply writes_bind; [apply writes_map_err, writes_index|]. intros u. apply writes_ret.
    + intros w. apply dwp_bind, dwp_fail. split_and!; [apply only_vectors_refl|by right|apply grown_refl].
Qed.
End batched.
End writes.

(** Three points, one of which has its vector already; texts go to the engine in batches
    of one. *)
Lemma reuse_or_embed_spec_witness :
  let entries := [(1%N, "a"); (2%N, "bcd"); (3%N, "ef")] in
  reuse_or_embed (λ texts, Ok (map String.length texts)) 1 {[2%N := 42]} entries = Ok [1; 42; 2]
  ∧ [1; 42; 2] = map (λ e, default (String.length e.2) (({[2%N := 42]} : gmap uuid nat) !! e.1)) entries.
Proof.
  cbv zeta. split; [vm_compute; reflexivity|].
  refine (reuse_or_embed_spec (λ texts, Ok (map String.length texts)) 1 String.length {[2%N := 42]}
            [(1%N, "a"); (2%N, "bcd"); (3%N, "ef")] _).
  by intros texts vectors [= <-].
Defined.
