(* ===== verification/StorageSpec.v ===== *)
(** * What the storage stage leaves in the stores

    Ownership first: whatever call fails, and whatever the embedding engine refuses,
    nothing is in the graph that the ledger does not name.  A stage that succeeds has
    written exactly the nodes, edges and points of its batch. *)

From stdpp Require Import sorting.
From S2P Require Import Prelude Json Strings Text DataPoint Models Provenance Summarize Failure Ledger LedgerFacts Artifacts Loaders.
From S2P Require Import Sweep SweepFacts Config GraphTypes EdgeText Expansion ExpansionFacts EntityIds ExpansionSpec.
From S2P Require Import Ownership OwnershipFacts OwnershipSpec DynamicWalk DynamicWalkFacts StructuralEdges StructuralFacts AddDataPoints.
From S2P Require Import StorageRows StoragePoints.
From Stdlib Require Import Ascii.
#[local] Open Scope nat_scope.

(** ** The nodes of custom graphs *)

Lemma dynamic_nodes_lookup stored i : 
  (∀ n, dynamic_nodes_of stored !! i = Some n → dy_id n = i ∧ n ∈ concat (map sg_nodes stored))
  ∧ (is_Some (dynamic_nodes_of stored !! i) ↔ i ∈ map dy_id (concat (map sg_nodes stored))).
Proof.
  unfold dynamic_nodes_of. set (nodes := concat (map sg_nodes stored)).
  assert (Hgo : ∀ l (m : gmap uuid DynamicDataPoint),
    let m' := foldl (λ m n, match m !! dy_id n with Some _ => m | None => <[dy_id n := n]> m end) m l in
    (∀ n, m' !! i = Some n → m !! i = Some n ∨ dy_id n = i ∧ n ∈ l) ∧ (is_Some (m' !! i) ↔ is_Some (m !! i) ∨ i ∈ map dy_id l)).
  { induction l as [|x l IH]; intros m; simpl; [rewrite elem_of_nil; naive_solver|].
    destruct (IH (match m !! dy_id x with Some _ => m | None => <[dy_id x := x]> m end)) as [Hfrom Hdom].
    setoid_rewrite Hdom. rewrite elem_of_cons. split.
    - intros n [Hm|[Hi Hn]]%Hfrom; [|right; split; [done|by right]]. destruct (m !! dy_id x) eqn:Hx; [by left|].
      apply lookup_insert_Some in Hm as [[<- <-]|[_ Hm]]; [right; split; [done|left]|by left].
    - destruct (m !! dy_id x) eqn:Hx; [|rewrite lookup_insert_is_Some'; naive_solver].
      split; [naive_solver|]. intros [?|[->|?]]; [by left|left; by eexists|by right]. }
  destruct (Hgo nodes ∅) as [Hfrom Hdom]. split.
  - intros n [Hn|?]%Hfrom; [by rewrite lookup_empty in Hn|done].
  - rewrite Hdom, lookup_empty. split; [by intros [[? [=]]|?]|by right].
Qed.

Lemma nodes_in_order_elem stored n : n ∈ nodes_in_order (dynamic_nodes_of stored) ↔ dynamic_nodes_of stored !! dy_id n = Some n.
Proof.
  unfold nodes_in_order. rewrite list_elem_of_omap. split.
  - intros (i & _ & Hi). by destruct (proj1 (dynamic_nodes_lookup stored i) n Hi) as [<- _].
  - intros Hn. exists (dy_id n). split; [|done]. rewrite merge_sort_Permutation. apply list_elem_of_fmap.
    exists (dy_id n, n). split; [done|by apply elem_of_map_to_list].
Qed.

Lemma nodes_in_order_ids stored i :
  i ∈ map dy_id (nodes_in_order (dynamic_nodes_of stored)) ↔ i ∈ map dy_id (concat (map sg_nodes stored)).
Proof.
  destruct (dynamic_nodes_lookup stored i) as [Hfrom Hdom]. rewrite <-Hdom, list_elem_of_fmap. split.
  - intros (n & -> & Hn%nodes_in_order_elem). by eexists.
  - intros [n Hn]. destruct (Hfrom n Hn) as [<- _]. exists n. split; [done|]. by apply nodes_in_order_elem.
Qed.

(** ** The edge types *)

Section edge_types.
Context `{UuidFormat, Lowercase} (new_v5 : uuid → string → uuid).

Lemma stamped_types_ids user_label types acc :
  map edge_id (foldl (λ '(types, visited) et,
    let '(et, visited) := pre_stamp_extraction user_label None et visited in (types ++ [et], visited)) acc types).1
  = map edge_id acc.1 ++ map edge_id types.
Proof.
  revert acc. induction types as [|et types IH]; intros [done visited]; simpl; [by rewrite app_nil_r|].
  destruct (pre_stamp_extraction user_label None et visited) as [et' visited'] eqn:Het. rewrite IH. simpl.
  rewrite map_app, <-app_assoc. do 2 f_equal. simpl. f_equal.
  pose proof (pre_stamp_id user_label None et visited) as Hid. by rewrite Het in Hid.
Qed.

(** The edge types of a stage have the ids of its nonblank edge texts. *)
Lemma stamped_edge_types_ids clock input structural dynamic id :
  id ∈ map edge_id (stamped_edge_types new_v5 clock input structural dynamic)
  ↔ ∃ t, t ∈ map pair_retrieval_text (sd_edges input) ++ map data_retrieval_text (structural ++ dynamic)
         ∧ t ≠ "" ∧ deterministic_id new_v5 t = id.
Proof. unfold stamped_edge_types. rewrite stamped_types_ids. apply build_edge_types_ids. Qed.
End edge_types.

(** ** The stage *)

Section stage.
Context `{UuidFormat, !UuidFormatLaws, Lowercase, SerdeJson} (new_v5 : uuid → string → uuid) (parse_str : string → option uuid)
  (now : Z) (entity_value : Entity → option json) (chunk_value : DocumentChunk → option json)
  (summary_value : TextSummary → option json) (type_value : EntityType → option json)
  (document_value : Document → option json) (base_value : DataPoint → option json)
  (clock : string → chunk_env) (time_text : string) (namespace_url : uuid) (as_f64 : json → option json)
  {V : Type} (embed : list string → result string (list V)) (batch_size window : nat).
Context (input : SummarizedData) (pipeline_run_id : option uuid) (config : StorageConfig).

Notation stores_ok := (stores_ok new_v5).
Notation identity := (LedgerIdentity_new (sd_tenant_id input) (sd_user_id input) (sd_dataset_id input) pipeline_run_id).
Notation stage := (add_data_points new_v5 parse_str now entity_value chunk_value summary_value type_value document_value
  base_value clock time_text namespace_url as_f64 embed batch_size window input pipeline_run_id config).

(** The nodes and edges of a batch, given its stored custom graphs. *)
Definition batch_nodes (stored : list StoredDynamicGraph) : list uuid :=
  map dc_id (sd_chunks input) ++ map ts_id (sd_summaries input)
  ++ map et_id (omap np_entity_type (sd_entities input)) ++ map doc_id (sd_documents input)
  ++ map dy_id (concat (map sg_nodes stored)).

Definition batch_edges (stored : list StoredDynamicGraph) : list (uuid * string * uuid) :=
  map (stored_edge parse_str) (get_graph_from_model time_text (extractable_items parse_str input))
  ++ map relationship_edge (concat (map sg_relationships stored)).

Lemma dwp_graph f w (Q : () → delete_world → Prop) (X : CognifyError → delete_world → Prop) :
  (∀ plan, (quiet w → plan = []) → Q () (with_stores (f (dw_stores w)) plan w)) →
  (∀ e plan st, ¬ quiet w → st = dw_stores w ∨ st = f (dw_stores w) → X e (with_stores st plan w)) →
  dwp (graph_call f) Q X w.
Proof. intros HQ HX. apply dwp_map_err, dwp_command; [done|]. intros e. apply HX. Qed.

(** *** The writes of the graph *)

Section graph.
Context (l : ledger) (w : delete_world).

(** Since [w] the graph has gained nodes and edges that the ledger [l] owns. *)
Definition graph_gained (nodes : list uuid) (edges : list (uuid * string * uuid)) (w' : delete_world) : Prop :=
  stores_ok (dw_stores w') ∧ st_ledger (dw_stores w') = l ∧ (quiet w → quiet w')
  ∧ (∀ i, i ∈ st_graph (dw_stores w') ↔ i ∈ st_graph (dw_stores w) ∨ i ∈ nodes)
  ∧ (∀ x, x ∈ st_graph_edges (dw_stores w') ↔ x ∈ st_graph_edges (dw_stores w) ∨ x ∈ edges)
  ∧ st_vectors (dw_stores w') = st_vectors (dw_stores w).

Lemma graph_nodes_dwp nodes edges ids w' : Forall (node_owned l) ids → graph_gained nodes edges w' →
  dwp (graph_call (graph_add_nodes ids)) (λ _, graph_gained (nodes ++ ids) edges)
    (λ _ w'', ¬ quiet w ∧ stores_ok (dw_stores w'')) w'.
Proof.
  intros Hids (Hok & Hl & Hq & Hn & He & Hv).
  assert (Hok' : stores_ok (graph_add_nodes ids (dw_stores w'))).
  { apply add_nodes_ok; [done|]. rewrite Forall_forall in Hids. intros i Hi. rewrite Hl. by apply Hids. }
  apply dwp_graph.
  - intros plan Hp. split_and!; [done|done|intros Hw; exact (Hp (Hq Hw))| |done|done]. intros i. simpl.
    rewrite elem_of_union, elem_of_list_to_set, Hn, elem_of_app. tauto.
  - intros e plan st Hnq [->| ->]; (split; [tauto|done]).
Qed.

Lemma graph_edges_dwp nodes edges new w' : Forall (edge_owned l) new → graph_gained nodes edges w' →
  dwp (graph_call (graph_add_edges new)) (λ _, graph_gained nodes (edges ++ new))
    (λ _ w'', ¬ quiet w ∧ stores_ok (dw_stores w'')) w'.
Proof.
  intros Hnew (Hok & Hl & Hq & Hn & He & Hv).
  assert (Hok' : stores_ok (graph_add_edges new (dw_stores w'))).
  { apply add_edges_ok; [done|]. rewrite Forall_forall in Hnew. intros s r t Hi. rewrite Hl.
    destruct (Hnew _ Hi) as (e & Hin & Hs & Ht & Hr). exists e. by split_and!. }
  apply dwp_graph.
  - intros plan Hp. split_and!; [done|done|intros Hw; exact (Hp (Hq Hw))|done| |done]. intros i. simpl.
    rewrite elem_of_union, elem_of_list_to_set, He, elem_of_app. tauto.
  - intros e plan st Hnq [->| ->]; (split; [tauto|done]).
Qed.

Lemma add_nodes_unless_empty_dwp {A} (id_of : A → uuid) items nodes edges w' :
  Forall (node_owned l) (map id_of items) → graph_gained nodes edges w' →
  dwp (add_nodes_unless_empty id_of items) (λ _, graph_gained (nodes ++ map id_of items) edges)
    (λ _ w'', ¬ quiet w ∧ stores_ok (dw_stores w'')) w'.
Proof.
  intros Hids Hg. destruct items as [|x items]; [|by apply graph_nodes_dwp]. apply dwp_ret. by rewrite app_nil_r.
Qed.

Lemma add_edges_unless_empty_dwp new nodes edges w' :
  Forall (edge_owned l) (map (stored_edge parse_str) new) → graph_gained nodes edges w' →
  dwp (add_edges_unless_empty parse_str new) (λ _, graph_gained nodes (edges ++ map (stored_edge parse_str) new))
    (λ _ w'', ¬ quiet w ∧ stores_ok (dw_stores w'')) w'.
Proof.
  intros Hids Hg. destruct new as [|x new]; [|by apply graph_edges_dwp]. apply dwp_ret. by rewrite app_nil_r.
Qed.

Lemma type_nodes_dwp nodes edges w' : Forall (node_owned l) (map et_id (omap np_entity_type (sd_entities input))) →
  graph_gained nodes edges w' →
  dwp (match sd_entities input with
       | [] => mret ()
       | _ => graph_call (graph_add_nodes (map et_id (omap np_entity_type (sd_entities input))))
       end) (λ _, graph_gained (nodes ++ map et_id (omap np_entity_type (sd_entities input))) edges)
    (λ _ w'', ¬ quiet w ∧ stores_ok (dw_stores w'')) w'.
Proof.
  intros Hids Hg. destruct (sd_entities input) as [|x entities]; [|by apply graph_nodes_dwp].
  apply dwp_ret. simpl. by rewrite app_nil_r.
Qed.

Lemma write_graph_dwp nodes structural dynamic :
  stores_ok (dw_stores w) → st_ledger (dw_stores w) = l →
  Forall (node_owned l) (map dc_id (sd_chunks input) ++ map ts_id (sd_summaries input)
    ++ map et_id (omap np_entity_type (sd_entities input)) ++ map doc_id (sd_documents input) ++ map dy_id nodes) →
  Forall (edge_owned l) (map (stored_edge parse_str) dynamic ++ map (stored_edge parse_str) structural) →
  dwp (write_graph parse_str input nodes structural dynamic)
    (λ _, graph_gained (map dc_id (sd_chunks input) ++ map ts_id (sd_summaries input)
            ++ map et_id (omap np_entity_type (sd_entities input)) ++ map doc_id (sd_documents input) ++ map dy_id nodes)
            (map (stored_edge parse_str) dynamic ++ map (stored_edge parse_str) structural))
    (λ _ w', ¬ quiet w ∧ stores_ok (dw_stores w')) w.
Proof.
  intros Hok Hl Hn He. rewrite !Forall_app in Hn. destruct Hn as (Hc & Hs & Ht & Hd & Hy). apply Forall_app in He as [He1 He2].
  assert (Hg : graph_gained [] [] w).
  { split_and!; [done|done|done|..|done]; intros x; rewrite elem_of_nil; tauto. }
  unfold write_graph.
  apply dwp_bind. eapply dwp_mono; [by apply (add_nodes_unless_empty_dwp _ _ _ _ _ Hc Hg)|intros [] w1 Hg1; cbv beta in Hg1|done].
  apply dwp_bind. eapply dwp_mono; [by apply (add_nodes_unless_empty_dwp _ _ _ _ _ Hs Hg1)|intros [] w2 Hg2; cbv beta in Hg2|done].
  apply dwp_bind. eapply dwp_mono; [by apply (type_nodes_dwp _ _ _ Ht Hg2)|intros [] w3 Hg3; cbv beta in Hg3|done].
  apply dwp_bind. eapply dwp_mono; [by apply (add_nodes_unless_empty_dwp _ _ _ _ _ Hd Hg3)|intros [] w4 Hg4; cbv beta in Hg4|done].
  apply dwp_bind. eapply dwp_mono; [by apply (add_nodes_unless_empty_dwp _ _ _ _ _ Hy Hg4)|intros [] w5 Hg5; cbv beta in Hg5|done].
  apply dwp_bind. eapply dwp_mono; [by apply (add_edges_unless_empty_dwp _ _ _ _ He1 Hg5)|intros [] w6 Hg6; cbv beta in Hg6|done].
  eapply dwp_mono; [by apply (add_edges_unless_empty_dwp _ _ _ _ He2 Hg6)|intros [] w7 Hg7; cbv beta in Hg7|done].
  by rewrite <-!app_assoc in Hg7.
Qed.
End graph.

(** *** The writes of the ledger *)

Context (v5_inj : v5_injective new_v5) (parse_to_string : ∀ u, parse_str (uuid_to_string u) = Some u).

(** From [w] to [w'] rows were upserted, and nothing else was written. *)
Record upserted (nodes : list GraphNode) (edges : list GraphEdge) (w w' : delete_world) : Prop := {
  up_ok : stores_ok (dw_stores w');
  up_quiet : quiet w → quiet w';
  up_rest : dw_stores w' = with_ledger (st_ledger (dw_stores w')) (dw_stores w);
  up_nodes : ∀ i, node_owned (st_ledger (dw_stores w)) i ∨ i ∈ map gn_slug nodes → node_owned (st_ledger (dw_stores w')) i;
  up_edges : ∀ x, edge_owned (st_ledger (dw_stores w)) x ∨ (∃ e, e ∈ edges ∧ edge_says e x) →
    edge_owned (st_ledger (dw_stores w')) x;
}.

Lemma upsert_dwp nodes edges w : stores_ok (dw_stores w) →
  Forall (minted_node new_v5) nodes → Forall (minted_edge new_v5) edges →
  dwp (m_map_err DatabaseError (command (λ st, with_ledger (upsert_provenance_graph nodes edges (st_ledger st)) st)))
    (λ _, upserted nodes edges w) (λ _ w', ¬ quiet w ∧ stores_ok (dw_stores w')) w.
Proof.
  intros Hok Hn He. pose proof (sk_ledger _ _ Hok) as Hl.
  pose proof (upsert_stores_ok new_v5 nodes edges _ v5_inj Hok Hn He) as Hok'.
  apply dwp_map_err, dwp_command.
  - intros plan Hp. split; simpl.
    + done.
    + done.
    + done.
    + intros i. by apply (node_owned_upsert new_v5 v5_inj).
    + intros x. by apply (edge_owned_upsert new_v5 v5_inj).
  - intros e plan st Hq [->| ->]; by split.
Qed.

Notation record stored structural dynamic := (record_ownership new_v5 parse_str now entity_value chunk_value summary_value
  type_value document_value base_value identity input stored structural dynamic).

Lemma upsert_provenance_dwp structural w : stores_ok (dw_stores w) →
  dwp (upsert_provenance new_v5 parse_str now entity_value chunk_value summary_value type_value document_value identity input
         structural)
    (λ _, upserted (provenance_nodes new_v5 parse_str now entity_value chunk_value summary_value type_value document_value
                      identity input)
                   (provenance_edges new_v5 parse_str now identity input structural) w)
    (λ _ w', ¬ quiet w ∧ stores_ok (dw_stores w')) w.
Proof.
  intros Hok. unfold upsert_provenance. cbv zeta. case_decide as Hnone.
  - apply dwp_ret. destruct Hnone as [-> ->]. split; [done|done|by destruct (dw_stores w)| |].
    + by intros i [?|?%not_elem_of_nil].
    + by intros x [?|(e & ?%not_elem_of_nil & _)].
  - apply upsert_dwp; [done|apply provenance_nodes_minted|apply provenance_edges_minted].
Qed.

(** What the ledger says once the ownership of a batch is recorded. *)
Record ownership_recorded (stored : list StoredDynamicGraph) (structural dynamic : list EdgeData) (w w' : delete_world) : Prop := {
  or_ok : stores_ok (dw_stores w');
  or_quiet : quiet w → quiet w';
  or_rest : dw_stores w' = with_ledger (st_ledger (dw_stores w')) (dw_stores w);
  or_nodes : Forall (node_owned (st_ledger (dw_stores w'))) (batch_nodes stored);
  or_edges : Forall (edge_owned (st_ledger (dw_stores w')))
    (map (stored_edge parse_str) dynamic ++ map (stored_edge parse_str) structural);
}.

Lemma record_ownership_dwp stored structural dynamic w :
  stores_ok (dw_stores w) → length stored = length (sd_dynamic_graphs input) →
  (∀ e, e ∈ structural → plain_name e.1.2) →
  (∀ x, x ∈ map (stored_edge parse_str) dynamic → ∃ r, r ∈ concat (map sg_relationships stored) ∧ x = relationship_edge r) →
  dwp (record stored structural dynamic) (λ _, ownership_recorded stored structural dynamic w)
    (λ _ w', ¬ quiet w ∧ stores_ok (dw_stores w')) w.
Proof.
  intros Hok Hlen Hplain Hdynamic. unfold record_ownership. apply dwp_bind. unfold record_dynamic_graph_ownership. cbv zeta.
  eapply dwp_mono; [apply upsert_dwp; [done|apply dynamic_node_rows_minted|apply dynamic_edge_rows_minted]| |done].
  intros [] w1 [Hok1 Hq1 Hrest1 Hn1 He1]. eapply dwp_mono; [by apply upsert_provenance_dwp| |].
  - intros [] w2 [Hok2 Hq2 Hrest2 Hn2 He2]. split; [done|auto| | |].
    + rewrite Hrest2. simpl. rewrite Hrest1. done.
    + apply Forall_forall. intros i Hi. apply Hn2. unfold batch_nodes in Hi. rewrite !app_assoc in Hi.
      apply elem_of_app in Hi as [Hi|Hi].
      * right. apply provenance_nodes_cover. by rewrite !app_assoc.
      * left. apply Hn1. right. by apply dynamic_rows_cover.
    + apply Forall_forall. intros x [Hx|Hx]%elem_of_app; apply He2.
      * left. apply He1. right. destruct (Hdynamic x Hx) as (r & Hr & ->). by apply dynamic_edge_rows_cover.
      * right. destruct (structural_rows_cover new_v5 parse_str now identity structural x Hplain Hx) as (row & Hrow & Hsays).
        exists row. split; [|done]. unfold provenance_edges. cbv zeta. apply elem_of_app. by right.
  - intros _ w2 [Hq2 Hok2]. split; [|done]. intros Hw. by apply Hq2, Hq1.
Qed.

(** *** The writes of the points *)

Context (embeds : embeds_all embed).

Lemma writes_points nodes edge_types :
  writes embed (batch_points input edge_types ++ custom_points nodes)
    (write_points embed batch_size window config input nodes edge_types).
Proof.
  unfold write_points. apply (writes_bind embed [] _).
  { destruct (sc_retain_embeddings config); [|apply writes_ret].
    apply writes_of_result. intros e. apply generate_embeddings_fails. }
  intros embeddings. apply writes_bind; [unfold index_data_points; by apply writes_bulk, writes_batch|].
  intros fields. destruct nodes as [|n nodes]; [apply writes_ret|].
  apply (writes_proper embed (custom_points (n :: nodes) ++ [])); [intros x; by rewrite app_nil_r|].
  apply writes_bind; [by apply writes_custom|]. intros [? ?]. apply writes_ret.
Qed.

Lemma writes_evidence structural dynamic :
  writes embed [] (write_evidence new_v5 parse_str now namespace_url as_f64 config identity input structural dynamic).
Proof.
  unfold write_evidence. destruct (sc_edge_evidence_enabled config), (sd_user_id input); try apply writes_ret.
  unfold capture_edge_evidence. cbv zeta. case_match; [apply writes_ret|].
  apply writes_map_err, writes_command. intros st. split; [apply only_vectors_refl|]. intros c i. rewrite elem_of_nil. tauto.
Qed.

Lemma only_vectors_ok st st' : only_vectors st st' → stores_ok st → stores_ok st'.
Proof. intros -> [Hl Ho]. by split. Qed.

(** *** The whole stage *)

(** The texts of the batch's edges: those extracted, and those of the fields and of the
    custom graphs as the stage stamps them. *)
Definition edge_texts (stored : list StoredDynamicGraph) : list string :=
  let stamped := stamp_structural_edge_text parse_str (get_graph_from_model time_text (extractable_items parse_str input))
                   (dynamic_edges_of time_text stored) input (dynamic_nodes_of stored) in
  map pair_retrieval_text (sd_edges input) ++ map data_retrieval_text (stamped.1 ++ stamped.2).

(** A batch that was stored. *)
Record batch_written (added : AddedDataPoints V) (w w' : delete_world) : Prop := {
  bw_stored : ∃ stored, store_dynamic_graphs (sc_chunks_per_batch config) (sc_chunk_attachment config)
                          (sd_dynamic_graphs input) (sd_chunks input) = Some stored
    ∧ (∀ i, i ∈ st_graph (dw_stores w') ↔ i ∈ st_graph (dw_stores w) ∨ i ∈ batch_nodes stored)
    ∧ (∀ x, x ∈ st_graph_edges (dw_stores w') ↔ x ∈ st_graph_edges (dw_stores w) ∨ x ∈ batch_edges stored)
    ∧ gained (batch_points input (ad_edge_types added) ++ custom_points (nodes_in_order (dynamic_nodes_of stored)))
        (st_vectors (dw_stores w)) (st_vectors (dw_stores w'))
    ∧ ∀ id, id ∈ map edge_id (ad_edge_types added) ↔
        ∃ t, t ∈ edge_texts stored ∧ t ≠ "" ∧ deterministic_id new_v5 t = id;
}.

Lemma stage_dwp w : stores_ok (dw_stores w) →
  dwp stage (λ added w', stores_ok (dw_stores w') ∧ batch_written added w w')
    (λ _ w', stores_ok (dw_stores w') ∧ (¬ quiet w ∨ embedding_fails embed)) w.
Proof.
  intros Hok. unfold add_data_points.
  destruct (store_dynamic_graphs_total (sc_chunks_per_batch config) (sc_chunk_attachment config)
              (sd_dynamic_graphs input) (sd_chunks input)) as (stored & Hstored & Hlen). rewrite Hstored. cbv zeta.
  destruct (stamp_structural_edge_text _ _ _ _ _) as [structural dynamic] eqn:Hstamp.
  destruct (stamped_keys parse_str (get_graph_from_model time_text (extractable_items parse_str input))
              (dynamic_edges_of time_text stored) input (dynamic_nodes_of stored)) as [Hks Hkd].
  rewrite Hstamp in Hks, Hkd. simpl in Hks, Hkd.
  assert (Hstructural : map (stored_edge parse_str) structural
    = map (stored_edge parse_str) (get_graph_from_model time_text (extractable_items parse_str input))).
  { by rewrite !stored_edges_keys, Hks. }
  assert (Hdynamic : ∀ x, x ∈ map (stored_edge parse_str) dynamic ↔
    ∃ r, r ∈ concat (map sg_relationships stored) ∧ x = relationship_edge r).
  { intros x. rewrite stored_edges_keys, Hkd, <-stored_edges_keys. by apply elem_of_dynamic_edges. }
  assert (Hplain : ∀ e, e ∈ structural → plain_name e.1.2).
  { intros e He. assert (edge_data_key e ∈ map edge_data_key structural) as Hk by by apply list_elem_of_fmap_2.
    rewrite Hks in Hk. apply list_elem_of_fmap in Hk as (e' & Hkey & He'). apply extractable_names in He'.
    destruct e as [[[s t] r] p], e' as [[[s' t'] r'] p']. by injection Hkey as -> -> ->. }
  apply dwp_bind. eapply dwp_mono.
  { apply record_ownership_dwp; [done|exact Hlen|exact Hplain|]. intros x Hx. by apply Hdynamic. }
  2: { intros _ w' [Hnq Hok']. split; [done|by left]. }
  intros [] w1 [Hok1 Hq1 Hrest1 Hn1 He1].
  apply dwp_bind. eapply dwp_mono; [apply (write_graph_dwp (st_ledger (dw_stores w1)) w1)| |].
  - done.
  - done.
  - rewrite Forall_forall in Hn1. apply Forall_forall. intros i Hi. apply Hn1. unfold batch_nodes. revert Hi.
    rewrite !elem_of_app, nodes_in_order_ids. tauto.
  - done.
  - intros [] w2 (Hok2 & Hl2 & Hq2 & Hn2 & He2 & Hv2).
    apply dwp_bind. eapply dwp_mono; [apply writes_points| |]; simpl.
    + intros [embeddings fields] w3 (Ho3 & Hq3 & Hg3). apply dwp_bind.
      eapply dwp_mono; [apply writes_evidence| |]; simpl.
      * intros [] w4 (Ho4 & Hq4 & Hg4). apply dwp_ret. pose proof (only_vectors_trans _ _ _ Ho3 Ho4) as Ho.
        split; [by eapply only_vectors_ok|]. split. exists stored. split; [done|].
        assert (Hgraph : st_graph (dw_stores w4) = st_graph (dw_stores w2)
                         ∧ st_graph_edges (dw_stores w4) = st_graph_edges (dw_stores w2)) by by rewrite Ho.
        destruct Hgraph as [-> ->]. split_and!.
        -- intros i. rewrite Hn2, Hrest1. unfold batch_nodes. rewrite !elem_of_app, nodes_in_order_ids. simpl. tauto.
        -- intros x. rewrite He2, Hrest1. unfold batch_edges. rewrite !elem_of_app, Hstructural, Hdynamic. simpl.
           rewrite (list_elem_of_fmap relationship_edge). naive_solver.
        -- intros c i. rewrite (Hg4 c i), (Hg3 c i), Hv2, Hrest1. simpl. rewrite elem_of_nil. tauto.
        -- intros id. unfold edge_texts. cbv zeta. rewrite Hstamp. simpl. apply stamped_edge_types_ids.
      * intros e w4 (Ho4 & Hq4 & Hg4). split; [eapply only_vectors_ok; [|done]; by eapply only_vectors_trans|]. tauto.
    + intros e w3 (Ho3 & Hq3 & Hg3). split; [by eapply only_vectors_ok|]. tauto.
  - intros e w2 [Hnq Hok']. split; [done|]. left. tauto.
Qed.

(** C30: Whatever call of the storage stage fails, and whatever the embedding engine
    refuses, every node and edge of the graph keeps a row of the ledger that names it.
    (Version 5 ids do not collide, ids are read back as printed, and the engine
    answers one vector per text.)  The stage fails only if a call or the engine does;
    when it succeeds the graph has gained exactly the nodes of the batch and the edges
    its fields and custom graphs name, and the vector store exactly the points of its
    chunks, entities, entity types, summaries, documents and custom nodes and one
    [EdgeType] point for the id of each nonblank edge text of the batch. *)
Theorem storage_owned_first w : stores_ok (dw_stores w) →
  stores_ok (dw_stores (stage w).2)
  ∧ match (stage w).1 with
    | Ok added => batch_written added w (stage w).2
    | Err _ => ¬ quiet w ∨ embedding_fails embed
    end.
Proof. intros Hok. pose proof (stage_dwp w Hok) as Hs. unfold dwp in Hs. by destruct (stage w) as [[]]. Qed.
End stage.

(** ** A batch

    Two chunks of one document, a summary, an entity, and a custom graph: two nodes that
    name each other, in a container that is not stored. *)

(** Ids in binary between dashes, and their parser. *)
Fixpoint until_dash (s : string) : string :=
  match s with
  | String c s => if decide (c = "-"%char) then EmptyString else String c (until_dash s)
  | EmptyString => EmptyString
  end.

Definition binary_digits (u : N) : string := binary (N.succ_pos u).
Definition binary_format : UuidFormat := dashed_format binary_digits.
Definition parse_binary (s : string) : option uuid :=
  match s with String _ s => Some (Pos.pred_N (of_binary (until_dash s))) | EmptyString => None end.

Lemma parse_binary_inverse u : parse_binary (@uuid_to_string binary_format u) = Some u.
Proof.
  assert (Hdash : ∀ p s, until_dash (binary p +:+ String "-" s) = binary p).
  { intros p s. induction p as [p IH|p IH|]; [| |done]; simpl; by rewrite IH. }
  change (Some (Pos.pred_N (of_binary (until_dash (binary (N.succ_pos u) +:+ String "-" "")))) = Some u).
  by rewrite Hdash, of_binary_binary, N.pos_pred_succ.
Qed.

Lemma binary_format_laws : @UuidFormatLaws binary_format.
Proof.
  apply dashed_format_laws.
  - intros u v Heq%(f_equal of_binary). unfold binary_digits in Heq. rewrite !of_binary_binary in Heq.
    apply (f_equal Pos.pred_N) in Heq. by rewrite !N.pos_pred_succ in Heq.
  - intros u. unfold binary_digits. induction (N.succ_pos u) as [p IH|p IH|]; [exact IH|exact IH|done].
Qed.

#[local] Instance batch_format : UuidFormat := binary_format.
#[local] Instance batch_format_laws : UuidFormatLaws := binary_format_laws.
#[local] Instance batch_lowercase : Lowercase := ascii_lowercase.
#[local] Instance batch_serde : SerdeJson := binary_serde.

Definition batch_base (id : uuid) (data_type : string) : DataPoint :=
  dp_with_id id (DataPoint_with_metadata (ex_clock "") data_type None ∅).

Definition batch_custom (id : uuid) (name : string) (transparent : bool) : DynamicDataPoint := {|
  dy_occurrence_id := id; dy_base := batch_base id "Tool"; dy_properties := {["name" := JString name]};
  dy_property_strs := {["name" := name]}; dy_index_fields := ["name"]; dy_transparent := transparent |}.

Definition batch_relation (source target : uuid) : DynamicRelationship :=
  {| dr_source := source; dr_target := target; dr_field_name := "uses" |}.

Definition batch_graph : AttributedDynamicGraph := {|
  ag_graph := {| dg_root := 30%N; dg_root_occurrence := 30%N;
                 dg_nodes := [batch_custom 30 "tools" true; batch_custom 31 "hammer" false; batch_custom 32 "nail" false];
                 dg_relationships := [batch_relation 30 31; batch_relation 31 32; batch_relation 32 31] |};
  ag_chunk_id := 1%N; ag_data_id := 11%N |}.

Definition batch_chunk (id : uuid) (contains : list uuid) : DocumentChunk := {|
  dc_base := batch_base id "DocumentChunk"; dc_text := []; dc_name := None; dc_chunk_size := 0; dc_chunk_index := 0;
  dc_cut_type := "sentence_end"; dc_document_id := 11%N; dc_is_part_of := Some 11%N;
  dc_contains := map (λ i, JString (uuid_to_string i)) contains |}.

Definition batch_entity : GraphNodePair := {|
  np_entity := {| ent_base := batch_base 20 "Entity"; ent_name := "anna"; ent_is_a := Some 21%N; ent_description := "" |};
  np_entity_type := Some {| et_base := batch_base 21 "EntityType"; et_name := "person"; et_description := "" |} |}.

Definition batch_input : SummarizedData := {|
  sd_chunks := [batch_chunk 1 [20%N; 31%N]; batch_chunk 2 [20%N]];
  sd_documents := [{| doc_base := batch_base 11 "TextDocument"; doc_document_type := "text"; doc_name := "notes";
                      doc_raw_data_location := ""; doc_mime_type := ""; doc_extension := "txt"; doc_data_id := 11%N;
                      doc_external_metadata := None |}];
  sd_entities := [batch_entity]; sd_timestamps := []; sd_edges := [GraphEdgePair_new 20%N 20%N "knows"];
  sd_producers := {| ap_entities := {[20%N := [1%N; 2%N]]}; ap_edges := ∅ |};
  sd_dynamic_graphs := [batch_graph];
  sd_summaries := [{| ts_base := batch_base 40 "TextSummary"; ts_made_from := Some 1%N; ts_source_chunk_id := Some 1%N;
                      ts_text := "anna hammers"; ts_description := None; ts_model := "m" |}];
  sd_dataset_id := 9%N; sd_user_id := Some 3%N; sd_tenant_id := None |}.

Definition batch_config : StorageConfig := {|
  sc_chunks_per_batch := 10; sc_chunk_attachment := None; sc_retain_embeddings := true; sc_edge_evidence_enabled := true;
  sc_evidence_pipeline_run_id := None |}.

Definition batch_embed (texts : list string) : result string (list nat) := Ok (map String.length texts).

(** The stage from empty stores, with its calls failing as [plan] says. *)
Definition batch_stage (plan : list (option failure)) : result CognifyError (AddedDataPoints nat) * delete_world :=
  add_data_points ex_id parse_binary 5%Z (λ _, None) (λ _, None) (λ _, None) (λ _, None) (λ _, None) (λ _, None)
    ex_clock "now" 7%N (λ _, None) batch_embed 2 2 batch_input (Some 4%N) batch_config (own_world own_empty plan).

Lemma batch_empty_ok plan : stores_ok ex_id (dw_stores (own_world own_empty plan)).
Proof.
  split; [split; simpl; constructor|]. split; simpl.
  - intros id Hid. by apply elem_of_empty in Hid.
  - intros s r t Hst. by apply elem_of_empty in Hst.
Qed.

(** The summaries are refused by the graph; what is there is owned. *)
Lemma storage_owned_first_witness :
  let refused := batch_stage [None; None; None; Some (Refused "disk full")] in
  stores_ok ex_id (dw_stores refused.2)
  ∧ (match refused.1 with Err (GraphDatabaseError e) => e = "disk full" | _ => False end)
  ∧ st_graph (dw_stores refused.2) = {[1%N; 2%N]}
  ∧ match (batch_stage []).1 with
    | Ok added => st_graph (dw_stores (batch_stage []).2) = {[1%N; 2%N; 11%N; 21%N; 31%N; 32%N; 40%N]}
                  ∧ points_in (st_vectors (dw_stores (batch_stage []).2)) ("Tool", "name") = {[31%N; 32%N]}
    | Err _ => False
    end.
Proof.
  split_and!; [|vm_compute; reflexivity..| ].
  - refine (proj1 (storage_owned_first ex_id parse_binary 5%Z (λ _, None) (λ _, None) (λ _, None) (λ _, None) (λ _, None)
      (λ _, None) ex_clock "now" 7%N (λ _, None) batch_embed 2 2 batch_input (Some 4%N) batch_config own_injective
      parse_binary_inverse _ (own_world own_empty [None; None; None; Some (Refused "disk full")]) (batch_empty_ok _))).
    intros texts vectors [= <-]. by rewrite length_map.
  - vm_compute. split; reflexivity.
Defined.
