(* ===== verification/StorageTexts.v ===== *)
(** * The texts a sweep finds again

    An [EdgeType] point is made of the text of an edge before it is stored; a sweep finds
    the point from the row of the edge in the ledger.  Both arrive at one id. *)

From stdpp Require Import sorting.
From S2P Require Import Prelude Json Strings Text DataPoint Models Provenance Summarize Failure Ledger LedgerFacts Artifacts Loaders.
From S2P Require Import Sweep SweepFacts Config GraphTypes EdgeText Expansion ExpansionFacts EntityIds ExpansionSpec.
From S2P Require Import Ownership OwnershipFacts OwnershipSpec DynamicWalk DynamicWalkFacts StructuralEdges StructuralFacts AddDataPoints.
From S2P Require Import StorageRows StoragePoints StorageSpec.
#[local] Open Scope nat_scope.

(** An edge has a text, or none and a name without NUL bytes. *)
Definition told (edge_text : option string) (relationship_name : string) : Prop :=
  has_edge_text edge_text = true ∨ (edge_text = None ∧ sanitize_string relationship_name = relationship_name).

#[export] Instance told_dec edge_text r : Decision (told edge_text r).
Proof. unfold told. apply _. Defined.

Lemma has_text_retrieval edge_text r r' : has_edge_text edge_text = true → retrieval_text edge_text r = retrieval_text edge_text r'.
Proof.
  unfold has_edge_text, retrieval_text. destruct edge_text as [t|]; simpl; [|discriminate].
  intros Ht%bool_decide_eq_true. by rewrite !decide_False.
Qed.

(** A row that keeps the text of its edge gives the text the point was made of. *)
Lemma row_retrieval row edge_text r : edge_text_of row = edge_text → told edge_text r →
  (edge_text = None → ge_relationship_name row = sanitize_string r) → edge_retrieval_text row = retrieval_text edge_text r.
Proof.
  intros Hrow [Ht|[-> Hr]] Hname; unfold edge_retrieval_text; rewrite Hrow; [by apply has_text_retrieval|].
  by rewrite Hname, Hr.
Qed.

Section texts.
Context `{UuidFormat, !UuidFormatLaws, Lowercase} (new_v5 : uuid → string → uuid) (parse_str : string → option uuid)
  (now : Z) (id : LedgerIdentity).

(** ** Extracted and structural edges *)

Lemma semantic_row_text chunk_data_map entity_data_map producers e row :
  told (ep_properties e !! EDGE_TEXT_KEY) (ep_relationship_name e) →
  row ∈ edge_rows new_v5 now id chunk_data_map entity_data_map producers e →
  edge_retrieval_text row = pair_retrieval_text e.
Proof.
  intros Ht (d & -> & _)%list_elem_of_fmap. apply row_retrieval; [|done|].
  - unfold edge_text_of. simpl. rewrite lookup_fmap. unfold EDGE_TEXT_KEY. by destruct (ep_properties e !! "edge_text").
  - intros Hnone. simpl. unfold edge_row_text. unfold EDGE_TEXT_KEY in Hnone. rewrite Hnone. by destruct (decide _).
Qed.

Lemma attributes_text attributes : 
  (a ← edge_attributes attributes; v ← json_get "edge_text" a; json_as_str v) = attributes !! "edge_text" ≫= json_as_str.
Proof. unfold edge_attributes. case_decide as He; [by rewrite He, lookup_empty|done]. Qed.

Lemma structural_row_text e :
  told (e.2 !! EDGE_TEXT_KEY ≫= json_as_str) e.1.2 →
  edge_retrieval_text (structural_row new_v5 parse_str now id e) = data_retrieval_text e.
Proof.
  destruct e as [[[s t] r] p]. simpl. intros Ht. unfold EDGE_TEXT_KEY in *.
  apply row_retrieval; [|done|]; destruct (if decide (sanitize_string r = "contains") then _ else _) as [x|] eqn:Hx; simpl.
  - apply attributes_text.
  - apply attributes_text.
  - intros Hnone. case_decide; [|done]. by rewrite Hnone in Hx.
  - done.
Qed.

(** ** Edges of custom graphs *)

Lemma properties_by_edge_lookup edges : NoDup (map edge_data_key edges) → ∀ e, e ∈ edges →
  properties_by_edge edges !! edge_data_key e = edge_attributes e.2.
Proof.
  intros Hnd. unfold properties_by_edge. set (step := λ m '(source, target, relationship, properties), _).
  assert (Hother : ∀ l m k, k ∉ map edge_data_key l → foldl step m l !! k = m !! k).
  { induction l as [|[[[s t] r] p] l IH]; intros m k Hk; [done|]. cbn [foldl].
    cbn [map edge_data_key] in Hk. apply not_elem_of_cons in Hk as [Hne Hk]. rewrite IH by done.
    simpl. destruct (edge_attributes p); [by rewrite lookup_insert_ne|done]. }
  assert (Hgo : ∀ l (m : gmap (string * string * string) json), NoDup (map edge_data_key l) →
    (∀ e, e ∈ l → m !! edge_data_key e = None) →
    ∀ e, e ∈ l → foldl step m l !! edge_data_key e = edge_attributes e.2).
  { induction l as [|[[[s t] r] p] l IH]; intros m Hl Hm e He; [by apply not_elem_of_nil in He|]. cbn [foldl].
    cbn [map edge_data_key] in Hl. apply NoDup_cons in Hl as [Hnin Hl]. apply elem_of_cons in He as [->|He].
    - simpl. rewrite Hother by done. specialize (Hm _ (list_elem_of_here _ _)). simpl in Hm.
      destruct (edge_attributes p); [by rewrite lookup_insert_eq|done].
    - apply IH; [done| |done]. intros e' He'. simpl. assert (edge_data_key e' ≠ (s, t, r)) as Hne.
      { intros Heq. apply Hnin. rewrite <-Heq. by apply list_elem_of_fmap_2. }
      destruct (edge_attributes p); [rewrite lookup_insert_ne by done|]; apply Hm; by right. }
  intros e He. apply Hgo; [done| |done]. intros e' _. apply lookup_empty.
Qed.

Lemma dedup_NoDup {A} `{EqDecision A} (l : list A) :
  NoDup (foldl (λ seen r, if decide (r ∈ seen) then seen else seen ++ [r]) [] l).
Proof.
  apply (foldl_inv (λ seen : list A, NoDup seen)); [|constructor]. intros x seen _ Hnd. case_decide; [done|].
  apply NoDup_app. split_and!; [done| |apply NoDup_singleton]. by intros y Hy ->%list_elem_of_singleton.
Qed.

(** The key of a relationship's edge. *)
Definition relationship_data_key (r : DynamicRelationship) : string * string * string :=
  (uuid_to_string (dr_source r), uuid_to_string (dr_target r), dr_field_name r).

Lemma dynamic_keys time_text stored :
  NoDup (map edge_data_key (dynamic_edges_of time_text stored))
  ∧ ∀ e, e ∈ dynamic_edges_of time_text stored →
      ∃ r, r ∈ concat (map sg_relationships stored) ∧ edge_data_key e = relationship_data_key r.
Proof.
  unfold dynamic_edges_of. rewrite map_map. split.
  - apply NoDup_fmap_2; [|apply dedup_NoDup]. intros [s t f] [s' t' f'] Heq. simpl in Heq.
    injection Heq as ->%(inj uuid_to_string) ->%(inj uuid_to_string) ->. done.
  - intros e (r & -> & Hr)%list_elem_of_fmap. apply (proj1 (elem_of_dedup _ _)) in Hr. by exists r.
Qed.

Lemma dynamic_row_text data_id edges e r : NoDup (map edge_data_key edges) → e ∈ edges →
  edge_data_key e = relationship_data_key r → told (e.2 !! EDGE_TEXT_KEY ≫= json_as_str) e.1.2 →
  edge_retrieval_text (dynamic_edge_row new_v5 now id data_id (properties_by_edge edges) r) = data_retrieval_text e.
Proof.
  intros Hnd He Hkey Ht. pose proof (properties_by_edge_lookup edges Hnd e He) as Hp.
  destruct e as [[[s t] f] p]. simpl in *. injection Hkey as -> -> ->.
  apply row_retrieval; [|done|done]. unfold edge_text_of. simpl. rewrite Hp. apply attributes_text.
Qed.

(** The rows the stage hands to the ledger. *)
Section rows.
Context (entity_value : Entity → option json) (clock : string → chunk_env) (time_text : string) (input : SummarizedData)
  (stored : list StoredDynamicGraph) (stored_all : length stored = length (sd_dynamic_graphs input)).

Definition stage_edge_rows (structural dynamic : list EdgeData) : list GraphEdge :=
  concat (map (λ '(a, s), dynamic_edge_rows new_v5 parse_str now id (sd_chunks input) (properties_by_edge structural)
                            (properties_by_edge dynamic) a s) (zip (sd_dynamic_graphs input) stored))
  ++ provenance_edges new_v5 parse_str now id input structural.

(** The edges of the stage, stamped. *)
Definition stage_edges : list EdgeData * list EdgeData :=
  stamp_structural_edge_text parse_str (get_graph_from_model time_text (extractable_items parse_str input))
    (dynamic_edges_of time_text stored) input (dynamic_nodes_of stored).

Definition edges_told : Prop :=
  Forall (λ e, told (ep_properties e !! EDGE_TEXT_KEY) (ep_relationship_name e)) (sd_edges input)
  ∧ Forall (λ e : EdgeData, told (e.2 !! EDGE_TEXT_KEY ≫= json_as_str) e.1.2) (stage_edges.1 ++ stage_edges.2).

(** Every text of the stage is that of a row. *)
Lemma text_has_row t : edges_told → t ∈ retrieval_texts input stage_edges.1 stage_edges.2 →
  ∃ row, row ∈ stage_edge_rows stage_edges.1 stage_edges.2 ∧ edge_retrieval_text row = t.
Proof.
  intros [Hpairs Hdata] Ht. unfold stage_edge_rows, provenance_edges, retrieval_texts in *. cbv zeta.
  rewrite Forall_forall in Hpairs. rewrite Forall_forall in Hdata.
  apply elem_of_app in Ht as [(e & -> & He)%list_elem_of_fmap|(e & -> & He)%list_elem_of_fmap].
  - destruct (edge_rows_some new_v5 now id (chunk_document_map (sd_chunks input))
      (entity_document_map parse_str (sd_entities input) (chunk_document_map (sd_chunks input))) (sd_producers input) e) as [row Hrow].
    exists row. split; [|by eapply semantic_row_text; [apply Hpairs|]].
    rewrite !elem_of_app. right. left. unfold semantic_edge_provenance_rows. apply elem_of_concat_map. by exists e.
  - pose proof (Hdata e He) as Htold. apply elem_of_app in He as [He|He].
    + exists (structural_row new_v5 parse_str now id e). split; [|by apply structural_row_text].
      rewrite !elem_of_app. right. right. by apply list_elem_of_fmap_2.
    + destruct (dynamic_keys time_text stored) as [Hnd Hkeys].
      destruct (stamped_keys parse_str (get_graph_from_model time_text (extractable_items parse_str input))
                  (dynamic_edges_of time_text stored) input (dynamic_nodes_of stored)) as [_ Hkd]. fold stage_edges in Hkd.
      assert (∃ e', e' ∈ dynamic_edges_of time_text stored ∧ edge_data_key e' = edge_data_key e) as (e' & He' & Hk').
      { assert (edge_data_key e ∈ map edge_data_key (dynamic_edges_of time_text stored)) as Hin.
        { rewrite <-Hkd. by apply list_elem_of_fmap_2. }
        apply list_elem_of_fmap in Hin as (e' & Heq & He'). by exists e'. }
      destruct (Hkeys e' He') as (r & Hr & Hkey). rewrite Hk' in Hkey.
      apply elem_of_concat_map in Hr as (s & Hs & Hr). apply list_elem_of_lookup in Hs as [k Hk].
      destruct (lookup_lt_is_Some_2 (sd_dynamic_graphs input) k) as [a Ha]; [rewrite <-stored_all; by eapply lookup_lt_Some|].
      exists (dynamic_edge_row new_v5 now id (ag_data_id a) (properties_by_edge stage_edges.2) r). split.
      * apply elem_of_app. left. apply elem_of_concat_map. exists (a, s). split; [by eapply zip_lookup|].
        apply elem_of_app. left. by apply list_elem_of_fmap_2.
      * apply dynamic_row_text; [by rewrite Hkd|done|done|done].
Qed.

(** C31: What the stage writes as an [EdgeType] point a deletion can find: the id of every
    edge type is the one a sweep derives from a row among those the stage hands to the
    ledger, for edges that have a text or a name without NUL bytes. *)
Theorem edge_types_derivable et : edges_told →
  et ∈ stamped_edge_types new_v5 clock input stage_edges.1 stage_edges.2 →
  ∃ row, row ∈ stage_edge_rows stage_edges.1 stage_edges.2 ∧ edge_type_vector_id new_v5 row = Some (edge_id et).
Proof.
  intros Htold Het. assert (edge_id et ∈ map edge_id (build_edge_types new_v5 clock
    (retrieval_texts input stage_edges.1 stage_edges.2) (sd_dataset_id input))) as (et' & Hid & Het')%list_elem_of_fmap.
  { apply (list_elem_of_fmap_2 edge_id) in Het. unfold stamped_edge_types in Het. by rewrite stamped_types_ids in Het. }
  apply (list_elem_of_fmap_2 edge_id) in Het'.
  destruct (proj1 (build_edge_types_ids new_v5 clock _ _ _) Het') as (t & Ht & Hne & Htid).
  destruct (text_has_row t Htold Ht) as (row & Hrow & Htext). exists row. split; [done|].
  unfold edge_type_vector_id. rewrite Htext, decide_False by done. by rewrite Hid, Htid.
Qed.
End rows.
End texts.

(** ** The batch of StorageSpec *)

#[local] Existing Instances batch_format batch_format_laws batch_lowercase batch_serde.

Definition batch_stored : list StoredDynamicGraph :=
  default [] (store_dynamic_graphs 10 None (sd_dynamic_graphs batch_input) (sd_chunks batch_input)).

Definition batch_types : list EdgeType :=
  stamped_edge_types ex_id ex_clock batch_input (stage_edges parse_binary "now" batch_input batch_stored).1
    (stage_edges parse_binary "now" batch_input batch_stored).2.

Lemma edge_types_derivable_witness :
  length batch_types = 7 ∧
  Forall (λ et, ∃ row : GraphEdge, edge_type_vector_id ex_id row = Some (edge_id et)) batch_types.
Proof.
  split; [vm_compute; reflexivity|]. apply Forall_forall. intros et Het.
  destruct (edge_types_derivable ex_id parse_binary 5%Z
              (LedgerIdentity_new None (Some 3%N) 9%N (Some 4%N)) ex_clock "now" batch_input batch_stored
              ltac:(vm_compute; reflexivity) et) as (row & _ & Hrow); [|exact Het|by exists row].
  split; (refine (bool_decide_unpack _ _); vm_compute; exact I).
Defined.
