(* ===== verification/CognifyStages.v ===== *)
(** * The stages of a cognify run, and how they fail (crates/cognify/src/tasks.rs)

    classify → chunk → (extract ‖ summarize) → gate.  Each stage records what fails in
    the report it hands on; what a failure stops and what travels on is decided by the
    two axes of the policy.  What a loader, an LLM or a graph backend answers is an
    argument. *)

From S2P Require Import Prelude Json Strings Text TokenCounter DataPoint Models Classify Failure Config Summarize ChunkDocument.
#[local] Open Scope nat_scope.

(** ** Values *)

Record CognifyInput := {
  ci_data_items : list Data;
  ci_dataset_id : uuid;
  ci_user_id : option uuid;
  ci_tenant_id : option uuid;
}.

Record ClassifiedDocuments := {
  cd_documents : list Document;
  cd_failures : FailureReport;
}.

Record ExtractedChunks := {
  ec_chunks : list DocumentChunk;
  ec_documents : list Document;
  ec_failures : FailureReport;
}.


(** ** Task 1: classify *)

(** [classify_documents] of the stage: items without a document are unreached. *)
Definition classify_stage (classify : list Data → list Document) (input : CognifyInput)
    (policy : FailurePolicy) : ClassifiedDocuments :=
  let documents := classify (ci_data_items input) in
  let failures := with_policy policy in
  let failures :=
    if decide (length documents = length (ci_data_items input)) then failures
    else foldl (λ failures item, mark_unreached (data_id item) failures) failures
           (filter (λ item, data_id item ∉ map doc_data_id documents) (ci_data_items input)) in
  {| cd_documents := documents; cd_failures := failures |}.

(** ** Task 2: chunk *)

(** [chunk_one_document document]: see [ChunkDocument]; [None] where it panics. *)
Section chunk.
Context `{UuidFormat} (chunk_one_document : Document → option (result CognifyError (list DocumentChunk * option nat)))
  (policy : FailurePolicy) (item_total : nat).

(** The failure of a document to chunk. *)
Definition chunking_failure (document : Document) (e : CognifyError) : StageFailure := {|
  sf_stage := Chunking; sf_data_id := doc_data_id document; sf_chunk_id := None;
  sf_error := display_cognify_error e; sf_fails_item := true |}.

(** The loop of [extract_chunks_from_documents]. *)
Fixpoint chunk_loop (documents : list Document) (all_chunks : list DocumentChunk) (kept_documents : list Document)
    (failures : FailureReport) : option (result CognifyError ExtractedChunks) :=
  match documents with
  | [] => Some (Ok {| ec_chunks := all_chunks; ec_documents := kept_documents;
                      ec_failures := note_totals item_total (length all_chunks) failures |})
  | document :: later =>
      outcome ← chunk_one_document document;
      match outcome with
      | Ok (chunks, _) => chunk_loop later (all_chunks ++ chunks) (kept_documents ++ [document]) failures
      | Err e =>
          let failures := record (chunking_failure document e) failures in
          if decide (fp_stop policy = FailFast) then
            let failures := foldl (λ failures d, mark_unreached (doc_data_id d) failures) failures later in
            let failures := note_totals item_total (length all_chunks) failures in
            if decide (fp_scope policy ≠ FailedItems) then Some (Err (RunFailed failures))
            else Some (Ok {| ec_chunks := all_chunks; ec_documents := kept_documents; ec_failures := failures |})
          else chunk_loop later all_chunks kept_documents failures
      end
  end.
End chunk.

(** [extract_chunks_from_documents]; [counter]: what the token counter's [build]
    answers. *)
Definition extract_chunks_from_documents `{UuidFormat} (counter : result string TokenCounter)
    (chunk_one_document : TokenCounter → Document → option (result CognifyError (list DocumentChunk * option nat)))
    (policy : FailurePolicy) (input : ClassifiedDocuments) : option (result CognifyError ExtractedChunks) :=
  match counter with
  | Err e => Some (Err (ChunkingError e))
  | Ok counter =>
      let item_total := length (cd_documents input) + size (fr_unreached_items (cd_failures input)) in
      chunk_loop (chunk_one_document counter) policy item_total (cd_documents input) [] [] (cd_failures input)
  end.

(** ** Task 3a: extract *)

(** What became of one chunk of a batch; [budget]: the error is an exhausted budget. *)
Inductive chunk_extraction (G : Type) :=
  | GraphExtracted (graph : G)
  | GraphFailed (error : string) (budget : bool).
Arguments GraphExtracted {G} _.
Arguments GraphFailed {G} _ _.

Record ExtractedGraphData (G : Type) := {
  xg_chunks : list DocumentChunk;
  xg_documents : list Document;
  xg_graphs : list (uuid * G);
  xg_backend_summaries : list TextSummary;
  xg_failures : FailureReport;
}.
Arguments Build_ExtractedGraphData {G} _ _ _ _ _.
Arguments xg_chunks {G} _.
Arguments xg_documents {G} _.
Arguments xg_graphs {G} _.
Arguments xg_backend_summaries {G} _.
Arguments xg_failures {G} _.

Definition extraction_failure (chunk : DocumentChunk) (error : string) : StageFailure := {|
  sf_stage := GraphExtraction; sf_data_id := dc_document_id chunk; sf_chunk_id := Some (dc_id chunk);
  sf_error := error; sf_fails_item := true |}.

(** The variables of the batch loops. *)
Record extract_state (G : Type) := {
  es_graphs : list (uuid * G);
  es_summaries : list TextSummary;
  es_failures : FailureReport;
  es_batch_failed : bool;
}.
Arguments Build_extract_state {G} _ _ _ _.
Arguments es_graphs {G} _.
Arguments es_summaries {G} _.
Arguments es_failures {G} _.
Arguments es_batch_failed {G} _.

Section extract.
Context {G : Type}.
(** [extract_batch]: the outcomes of the chunks of a batch, in their order, or an error
    of the stage; [summarize_chunk]: the summary a backend makes from a graph. *)
Context (extract_batch : list DocumentChunk → result CognifyError (list (chunk_extraction G)))
  (summarize_chunk : DocumentChunk → G → option TextSummary) (policy : FailurePolicy) (batch_size : nat).

(** One chunk of a collected batch. *)
Definition take_extraction (st : extract_state G) (entry : DocumentChunk * chunk_extraction G) : extract_state G :=
  let '(chunk, outcome) := entry in
  match outcome with
  | GraphExtracted graph => {|
      es_graphs := es_graphs st ++ [(dc_id chunk, graph)];
      es_summaries := es_summaries st ++ option_list (summarize_chunk chunk graph);
      es_failures := es_failures st;
      es_batch_failed := es_batch_failed st |}
  | GraphFailed error budget => {|
      es_graphs := es_graphs st;
      es_summaries := es_summaries st;
      es_failures := record (extraction_failure chunk error)
                       (if budget then set_budget true (es_failures st) else es_failures st);
      es_batch_failed := true |}
  end.

(** The loop over the batches; the index the abort names, if it fired. *)
Fixpoint extract_batches (batch_idx : nat) (batches : list (list DocumentChunk)) (st : extract_state G)
    : result CognifyError (extract_state G * option nat) :=
  match batches with
  | [] => Ok (st, None)
  | batch :: batches =>
      match extract_batch batch with
      | Err e => Err e
      | Ok outcomes =>
          let st := foldl take_extraction
            {| es_graphs := es_graphs st; es_summaries := es_summaries st; es_failures := es_failures st;
               es_batch_failed := false |} (zip batch outcomes) in
          if es_batch_failed st && bool_decide (fp_stop policy = FailFast)
          then Ok (st, Some ((batch_idx + 1) * batch_size))
          else extract_batches (S batch_idx) batches st
      end
  end.

(** The documents none of whose chunks failed or was never dispatched. *)
Definition complete_documents (documents : list Document) (failures : FailureReport) : list uuid :=
  filter (λ id, id ∉ fr_failed_items failures ∪ fr_unreached_items failures) (map doc_id documents).

(** [extract_graph_from_data], up to the integration of the graphs. *)
Definition extract_graph_from_data (input : ExtractedChunks) : result CognifyError (ExtractedGraphData G) :=
  let untouched := {| xg_chunks := ec_chunks input; xg_documents := ec_documents input; xg_graphs := [];
                      xg_backend_summaries := []; xg_failures := ec_failures input |} in
  let chunks_for_extraction := filter (λ c, is_dlt_row c = false) (ec_chunks input) in
  if decide (ec_chunks input = []) then Ok untouched
  else if decide (chunks_for_extraction = []) then Ok untouched
  else
    let init := {| es_graphs := []; es_summaries := []; es_failures := ec_failures input; es_batch_failed := false |} in
    match extract_batches 0 (chunks batch_size chunks_for_extraction) init with
    | Err e => Err e
    | Ok (st, None) =>
        Ok {| xg_chunks := ec_chunks input; xg_documents := ec_documents input; xg_graphs := es_graphs st;
              xg_backend_summaries := es_summaries st; xg_failures := es_failures st |}
    | Ok (st, Some first_unreached) =>
        let failures := foldl (λ failures c, mark_unreached (dc_document_id c) failures) (es_failures st)
                          (drop first_unreached chunks_for_extraction) in
        if decide (fp_scope policy ≠ FailedItems) then Err (RunFailed failures)
        else
          let complete := complete_documents (ec_documents input) failures in
          let surviving_chunks := filter (λ c, dc_document_id c ∈ complete) (ec_chunks input) in
          let kept_chunk_ids := map dc_id surviving_chunks in
          Ok {| xg_chunks := surviving_chunks;
                xg_documents := filter (λ d, doc_id d ∈ complete) (ec_documents input);
                xg_graphs := filter (λ entry, entry.1 ∈ kept_chunk_ids) (es_graphs st);
                xg_backend_summaries := es_summaries st;
                xg_failures := failures |}
    end.
End extract.

(** *** The two sources of graphs *)

(** The LLM: a call per chunk, collected in input order. *)
Definition llm_batch `{UuidFormat} {G} (extract : DocumentChunk → result CognifyError G) (batch : list DocumentChunk)
    : result CognifyError (list (chunk_extraction G)) :=
  Ok (map (λ chunk, match extract chunk with
                    | Ok graph => GraphExtracted graph
                    | Err e => GraphFailed (display_cognify_error e) (is_budget_exhausted e)
                    end) batch).

Inductive GraphBackendError :=
  | BackendExtraction (backend message : string)
  | ArityMismatch (backend : string) (expected got : nat)
  | NotAvailable (what : string).

Definition display_backend_error (e : GraphBackendError) : string :=
  match e with
  | BackendExtraction backend message => "graph backend '" +:+ backend +:+ "' failed: " +:+ message
  | ArityMismatch backend expected got =>
      "graph backend '" +:+ backend +:+ "' returned " +:+ pretty got +:+ " graphs for " +:+ pretty expected +:+ " chunks"
  | NotAvailable what => "graph backend is not available: " +:+ what
  end.

(** [ChunkGraphExtractor] *)
Record ChunkGraphExtractor (G : Type) := {
  gb_name : string;
  gb_summarizes_chunks : bool;
  gb_extract_graphs : list DocumentChunk → result GraphBackendError (list (result string G));
  gb_summarize_chunk : DocumentChunk → G → string;
}.
Arguments gb_name {G} _.
Arguments gb_summarizes_chunks {G} _.
Arguments gb_extract_graphs {G} _ _.
Arguments gb_summarize_chunk {G} _ _ _.

(** One batch of [extract_graphs_via_backend]. *)
Definition backend_batch {G} (backend : ChunkGraphExtractor G) (batch : list DocumentChunk)
    : result CognifyError (list (chunk_extraction G)) :=
  match gb_extract_graphs backend batch with
  | Err (ArityMismatch name expected got) =>
      Err (GraphExtractionError (display_backend_error (ArityMismatch name expected got)))
  | Err e => Ok (map (λ _, GraphFailed (display_backend_error e) false) batch)
  | Ok results =>
      if decide (length results = length batch)
      then Ok (map (λ r, match r with Ok graph => GraphExtracted graph | Err e => GraphFailed e false end) results)
      else Err (GraphExtractionError (display_backend_error
                  (ArityMismatch (gb_name backend) (length batch) (length results))))
  end.

(** The summary of a chunk in [extract_graphs_via_backend]; a blank one is dropped. *)
Definition backend_summary {G} (uuid_to_string : uuid → string) (new_v5 : uuid → string → uuid)
    (env : DocumentChunk → chunk_env) (enable_summarization : bool) (backend : ChunkGraphExtractor G)
    (chunk : DocumentChunk) (graph : G) : option TextSummary :=
  if enable_summarization && gb_summarizes_chunks backend then
    let txt := gb_summarize_chunk backend chunk graph in
    if decide (trim txt = "") then None
    else
      let s := TextSummary_new uuid_to_string new_v5 (env chunk) (dc_id chunk) txt None (gb_name backend) in
      Some {| ts_base := dp_scoped (dp_importance_weight (dc_base chunk)) (dp_belongs_to_set (dc_base chunk)) (ts_base s);
              ts_made_from := ts_made_from s; ts_source_chunk_id := ts_source_chunk_id s; ts_text := ts_text s;
              ts_description := ts_description s; ts_model := ts_model s |}
  else None.

(** ** Task 3b: summarize *)

Record SummarizedChunks := { sz_summaries : list TextSummary; sz_failures : FailureReport }.

(** [data_id_of]: the map from chunk ids to documents; of two equal ids the last
    stays. *)
Definition chunk_documents (chunks : list DocumentChunk) : gmap uuid uuid :=
  list_to_map (reverse (map (λ c, (dc_id c, dc_document_id c)) chunks)).

Definition summarization_failure (tolerate : bool) (data_id chunk_id : uuid) (error : string) : StageFailure := {|
  sf_stage := Summarization; sf_data_id := data_id; sf_chunk_id := Some chunk_id;
  sf_error := error; sf_fails_item := negb tolerate |}.

Section summarize.
Context `{UuidFormat} (new_v5 : uuid → string → uuid) (config : CognifyConfig).

(** The recording of an outcome.  [None]: [data_id_of] panics. *)
Definition record_outcome (chunks : list DocumentChunk) (outcome : SummarizeOutcome) (failures : FailureReport)
    : option FailureReport :=
  let data_id_of chunk_id := chunk_documents chunks !! chunk_id in
  let tolerate := cc_tolerate_summarization_failures config in
  failures ← foldl (λ failures '(chunk_id, error),
                 failures ← failures;
                 data_id ← data_id_of chunk_id;
                 Some (record_error (summarization_failure tolerate data_id chunk_id (display_cognify_error error))
                         error failures))
               (Some failures) (so_failures outcome);
  foldl (λ failures chunk_id,
           failures ← failures; data_id ← data_id_of chunk_id; Some (mark_unreached data_id failures))
    (Some failures) (so_skipped outcome).

(** [stop_on_failure] *)
Definition stop_on_failure : bool :=
  bool_decide (cc_failure_stop config = FailFast) && negb (cc_tolerate_summarization_failures config).

(** The future of the [i]-th chunk, once dispatched: [summarized i] is what
    [summarize_one] gives for it, [env i] what [TextSummary::new] reads.  No
    index past the chunks is dispatched. *)
Definition chunk_answer (env : nat → chunk_env) (model : string) (summarized : nat → result CognifyError SummarizedContent)
    (chunks : list DocumentChunk) (i : nat) : result CognifyError TextSummary :=
  match chunks !! i with
  | Some chunk => result_map (summary_of_chunk uuid_to_string new_v5 (env i) model chunk) (summarized i)
  | None => Err (SummarizationError "no such chunk")
  end.

(** [summarize_text]: what it may return ([None]: it panics). *)
Definition summarize_text (env : nat → chunk_env) (model : string)
    (summarized : nat → result CognifyError SummarizedContent)
    (input : ExtractedChunks) (r : option SummarizedChunks) : Prop :=
  let non_dlt_chunks := filter (λ c, is_dlt_row c = false) (ec_chunks input) in
  let failures := with_policy (failure_policy config) in
  if cc_enable_summarization config && bool_decide (cc_graph_backend config = Some true) then r = Some {| sz_summaries := []; sz_failures := failures |}
  else if cc_enable_summarization config && negb (bool_decide (non_dlt_chunks = [])) then
    ∃ outcome, summarize_chunks (map dc_id non_dlt_chunks)
                 (with_max_parallel (cc_max_parallel_extractions config)) stop_on_failure
                 (chunk_answer env model summarized non_dlt_chunks) outcome
      ∧ r = failures ← record_outcome non_dlt_chunks outcome failures;
            Some {| sz_summaries := so_summaries outcome; sz_failures := failures |}
  else r = Some {| sz_summaries := []; sz_failures := failures |}.
End summarize.

(** ** Merging the two halves *)

Record SummarizedData (G : Type) := {
  sd_chunks : list DocumentChunk;
  sd_documents : list Document;
  sd_graphs : list (uuid * G);
  sd_summaries : list TextSummary;
  sd_failures : FailureReport;
}.
Arguments Build_SummarizedData {G} _ _ _ _ _.
Arguments sd_chunks {G} _.
Arguments sd_documents {G} _.
Arguments sd_graphs {G} _.
Arguments sd_summaries {G} _.
Arguments sd_failures {G} _.

(** A summary whose chunk is among those that survive. *)
Definition attributable (surviving_chunks : gset uuid) (s : TextSummary) : Prop :=
  match ts_made_from s with None => True | Some id => id ∈ surviving_chunks end.
#[export] Instance attributable_dec surviving_chunks s : Decision (attributable surviving_chunks s).
Proof. unfold attributable. destruct (ts_made_from s); apply _. Defined.

(** [merge_graph_and_summaries] *)
Definition merge_graph_and_summaries {G} (graph : ExtractedGraphData G) (summarized : SummarizedChunks)
    : SummarizedData G :=
  let surviving_chunks : gset uuid := list_to_set (map dc_id (xg_chunks graph)) in
  let summaries := filter (attributable surviving_chunks) (sz_summaries summarized ++ xg_backend_summaries graph) in
  let summarization_failures := retain_failed_chunks surviving_chunks (sz_failures summarized) in
  {| sd_chunks := xg_chunks graph;
     sd_documents := xg_documents graph;
     sd_graphs := xg_graphs graph;
     sd_summaries := summaries;
     sd_failures := absorb summarization_failures (xg_failures graph) |}.

(** The gate at the end of [make_add_data_points_task]. *)
Definition end_of_run_gate {G} (config : CognifyConfig) (data : SummarizedData G)
    : result CognifyError (SummarizedData G) :=
  if is_fatal (failure_policy config) (sd_failures data) then Err (RunFailed (sd_failures data)) else Ok data.
