(* ===== verification/CognifyStagesFacts.v ===== *)
(** * What a cognify run accounts for (facts of [CognifyStages])

    Every item a run was given ends up in its report, as failed or unreached, or was
    processed by every stage. *)

From S2P Require Import Prelude Json Strings Text DataPoint Models Classify Failure Config Summarize ChunkDocument CognifyStages.
#[local] Open Scope nat_scope.

Create HintDb outstanding.

(** ** The items a report leaves out *)

Definition outstanding (r : FailureReport) : gset uuid := fr_failed_items r ∪ fr_unreached_items r.

Lemma outstanding_record f r :
  outstanding (record f r) = outstanding r ∪ (if sf_fails_item f then {[sf_data_id f]} else ∅).
Proof.
  unfold outstanding, record. simpl. destruct (sf_fails_item f); apply set_eq; intros x;
    rewrite ?elem_of_union, ?elem_of_difference, ?elem_of_singleton, ?elem_of_union;
    destruct (decide (x = sf_data_id f)); set_solver.
Qed.

Lemma outstanding_mark id r : outstanding (mark_unreached id r) = outstanding r ∪ {[id]}.
Proof. unfold outstanding, mark_unreached. case_decide; simpl; set_solver. Qed.

Lemma outstanding_marks {A} (f : A → uuid) l r :
  outstanding (foldl (λ r x, mark_unreached (f x) r) r l) = outstanding r ∪ list_to_set (map f l).
Proof.
  revert r. induction l as [|x l IH]; intros r; simpl; [set_solver|]. rewrite IH, outstanding_mark. set_solver.
Qed.

Lemma outstanding_absorb o r : outstanding (absorb o r) = outstanding r ∪ outstanding o.
Proof.
  unfold outstanding, absorb. simpl. apply set_eq. intros x. rewrite !elem_of_union, elem_of_difference, !elem_of_union.
  destruct (decide (x ∈ fr_failed_items r)), (decide (x ∈ fr_failed_items o)); tauto.
Qed.

Lemma outstanding_budget b r : outstanding (set_budget b r) = outstanding r.
Proof. done. Qed.
Lemma outstanding_totals i c r : outstanding (note_totals i c r) = outstanding r.
Proof. done. Qed.
Lemma outstanding_retain keep r : outstanding (retain_failed_chunks keep r) = outstanding r.
Proof. done. Qed.
Lemma outstanding_policy policy : outstanding (with_policy policy) = ∅.
Proof. unfold outstanding. simpl. set_solver. Qed.
Lemma outstanding_record_error f e r :
  outstanding (record_error f e r) = outstanding r ∪ (if sf_fails_item f then {[sf_data_id f]} else ∅).
Proof. unfold record_error. rewrite outstanding_record. by destruct (is_budget_exhausted e). Qed.
#[export] Hint Rewrite outstanding_record @outstanding_mark @outstanding_marks outstanding_absorb outstanding_budget
  outstanding_totals outstanding_retain outstanding_policy outstanding_record_error : outstanding.

(** ** Classification *)

Lemma sublist_full {A} (l k : list A) : l `sublist_of` k → length k ≤ length l → l = k.
Proof.
  induction 1 as [|x l k Hs IH|x l k Hs IH]; simpl; intros Hl; [done| |].
  - f_equal. apply IH. lia.
  - apply sublist_length in Hs. lia.
Qed.

(** Classification keeps items whole and in order. *)
Definition classifies (classify : list Data → list Document) : Prop :=
  ∀ items, ∃ kept, kept `sublist_of` items ∧ map doc_data_id (classify items) = map data_id kept.

Lemma classify_documents_classifies `{Lowercase, SerdeJson, UuidFormat} new_v5 dumps env :
  classifies (classify_documents new_v5 dumps env).
Proof. intros items. exists (filter (λ data, is_Some (doc_type_of data)) items). split; [apply sublist_filter|]. apply classify_from. Qed.

Lemma classify_stage_outstanding classify input policy item :
  classifies classify → item ∈ ci_data_items input →
  data_id item ∈ map doc_data_id (cd_documents (classify_stage classify input policy))
  ∨ data_id item ∈ outstanding (cd_failures (classify_stage classify input policy)).
Proof.
  intros Hc Hin. unfold classify_stage. simpl. case_decide as Hlen.
  - left. destruct (Hc (ci_data_items input)) as (kept & Hsub & Hk).
    pose proof (f_equal length Hk) as Hl. rewrite !length_map in Hl. rewrite Hk.
    rewrite (sublist_full _ _ Hsub) by lia. by apply list_elem_of_fmap_2.
  - autorewrite with outstanding.
    destruct (decide (data_id item ∈ map doc_data_id (classify (ci_data_items input)))) as [|Hno]; [by left|].
    right. apply elem_of_union_r, elem_of_list_to_set, list_elem_of_fmap. exists item. split; [done|].
    by apply list_elem_of_filter.
Qed.

(** ** Chunking *)

Section chunking.
Context `{UuidFormat} (chunk_one : Document → option (result CognifyError (list DocumentChunk * option nat)))
  (policy : FailurePolicy).

(** The chunks of a document. *)
Definition chunks_of (d : Document) (cs : list DocumentChunk) : Prop := ∃ count, chunk_one d = Some (Ok (cs, count)).

(** What the loop makes of the documents. *)
Record chunked (documents : list Document) (all_chunks : list DocumentChunk) (kept : list Document)
    (failures : FailureReport) (ec : ExtractedChunks) : Prop := {
  ck_documents : ∀ d, d ∈ ec_documents ec → d ∈ kept ∨ d ∈ documents;
  ck_chunks : ∀ c, c ∈ ec_chunks ec → c ∈ all_chunks ∨ ∃ d cs, d ∈ ec_documents ec ∧ chunks_of d cs ∧ c ∈ cs;
  ck_kept : kept ⊆ ec_documents ec ∧ all_chunks ⊆ ec_chunks ec;
  ck_all : ∀ d, d ∈ documents → doc_data_id d ∈ outstanding (ec_failures ec)
      ∨ (d ∈ ec_documents ec ∧ ∃ cs, chunks_of d cs ∧ cs ⊆ ec_chunks ec);
  ck_failures : outstanding failures ⊆ outstanding (ec_failures ec);
}.

Lemma chunk_loop_chunked total documents : ∀ all_chunks kept failures ec,
  chunk_loop chunk_one policy total documents all_chunks kept failures = Some (Ok ec) →
  chunked documents all_chunks kept failures ec.
Proof.
  induction documents as [|d documents IH]; intros all_chunks kept failures ec; simpl.
  { intros [= <-]. split; simpl; auto. by intros ? ?%not_elem_of_nil. }
  destruct (chunk_one d) as [[[cs count]|e]|] eqn:Hd; simpl; [| |done].
  - intros Hl. apply IH in Hl as [H1 H2 [H3 H4] H5 H6]. split; try done.
    + intros d' Hd'. apply H1 in Hd' as [[?| ->%list_elem_of_singleton]%elem_of_app|]; [by left|right; by left|right; by right].
    + intros c Hc. apply H2 in Hc as [[?|Hc]%elem_of_app|]; [by left|right|by right].
      exists d, cs. split; [apply H3, elem_of_app; right; by left|]. by split; [exists count|].
    + split; intros x Hx; [apply H3|apply H4]; apply elem_of_app; by left.
    + intros d' [->|Hd']%elem_of_cons; [right|by apply H5]. split; [apply H3, elem_of_app; right; by left|].
      exists cs. split; [by exists count|]. intros x Hx. apply H4, elem_of_app. by right.
  - case_decide.
    + case_decide; intros [= <-]. split; simpl; auto; autorewrite with outstanding; simpl; [|set_solver].
      intros d' [->|Hd']%elem_of_cons; left; [set_solver|].
      apply elem_of_union_r, elem_of_list_to_set, list_elem_of_fmap. eauto.
    + intros Hl. apply IH in Hl as [H1 H2 H3 H5 H6]. autorewrite with outstanding in H6. simpl in H6.
      split; try done; [|intros d' [->|Hd']%elem_of_cons; [left; set_solver|by apply H5]|set_solver].
      intros d' Hd'. apply H1 in Hd' as [|]; [by left|right; by right].
Qed.
End chunking.

(** ** Extraction *)

Section extraction.
Context {G : Type} (extract_batch : list DocumentChunk → result CognifyError (list (chunk_extraction G)))
  (summarize_chunk : DocumentChunk → G → option TextSummary) (policy : FailurePolicy) (batch_size : nat).
Context (answers_all : ∀ batch outcomes, extract_batch batch = Ok outcomes → length outcomes = length batch).

(** A batch that held the chunk was answered with this graph for it. *)
Definition answered (c : DocumentChunk) (g : G) : Prop :=
  ∃ batch outcomes i, extract_batch batch = Ok outcomes ∧ batch !! i = Some c ∧ outcomes !! i = Some (GraphExtracted g).

(** The chunk's graph is among [graphs], or its file is outstanding. *)
Definition extracted (graphs : list (uuid * G)) (failures : FailureReport) (c : DocumentChunk) : Prop :=
  (∃ g, answered c g ∧ (dc_id c, g) ∈ graphs) ∨ dc_document_id c ∈ outstanding failures.

(** The state only grows. *)
Definition grows (st st' : extract_state G) : Prop :=
  es_graphs st ⊆ es_graphs st' ∧ outstanding (es_failures st) ⊆ outstanding (es_failures st').

Lemma extracted_grows st st' c :
  grows st st' → extracted (es_graphs st) (es_failures st) c → extracted (es_graphs st') (es_failures st') c.
Proof. intros [Hg Ho] [(g & Ha & Hin)|Hin]; [left; exists g; split; [done|]; by apply Hg|right; by apply Ho]. Qed.

Lemma grows_trans st1 st2 st3 : grows st1 st2 → grows st2 st3 → grows st1 st3.
Proof. intros [] []. split; etransitivity; done. Qed.

Lemma take_extraction_grows st entry : grows st (take_extraction summarize_chunk st entry).
Proof.
  destruct entry as [c [g|e b]]; split; simpl; try done; [intros x ?; apply elem_of_app; by left|].
  autorewrite with outstanding. destruct b; set_solver.
Qed.

Lemma take_extractions_grow entries st : grows st (foldl (take_extraction summarize_chunk) st entries).
Proof.
  revert st. induction entries as [|entry entries IH]; intros st; simpl; [by split|].
  eapply grows_trans; [apply take_extraction_grows|apply IH].
Qed.

Lemma take_extractions_cover batch outcomes st c :
  extract_batch batch = Ok outcomes → c ∈ batch →
  let st' := foldl (take_extraction summarize_chunk) st (zip batch outcomes) in
  extracted (es_graphs st') (es_failures st') c.
Proof.
  intros Hb [i Hi]%list_elem_of_lookup. pose proof (answers_all _ _ Hb) as Hlen.
  destruct (lookup_lt_is_Some_2 outcomes i) as [o Ho]; [rewrite Hlen; by apply lookup_lt_Some in Hi|].
  assert (Hz : zip batch outcomes !! i = Some (c, o)) by (apply lookup_zip_Some; done).
  rewrite <-(take_drop_middle _ _ _ Hz), foldl_app. cbv zeta. simpl.
  eapply extracted_grows; [apply take_extractions_grow|]. set (st1 := foldl _ _ _).
  destruct o as [g|e b]; simpl.
  - left. exists g. split; [by exists batch, outcomes, i|]. set_solver.
  - right. autorewrite with outstanding. simpl. set_solver.
Qed.

(** The batches that were sent, and what is known of their chunks. *)
Lemma extract_batches_cover batches : ∀ idx st st' stop,
  extract_batches extract_batch summarize_chunk policy batch_size idx batches st = Ok (st', stop) →
  ∃ sent rest, batches = sent ++ rest ∧ grows st st'
    ∧ (∀ c, c ∈ concat sent → extracted (es_graphs st') (es_failures st') c)
    ∧ match stop with None => rest = [] | Some k => sent ≠ [] ∧ k = (idx + length sent) * batch_size end.
Proof.
  induction batches as [|batch batches IH]; intros idx st st' stop; simpl.
  { intros [= <- <-]. exists [], []. split_and!; try done. by intros ? ?%not_elem_of_nil. }
  destruct (extract_batch batch) as [outcomes|] eqn:Hb; [|done].
  set (st0 := Build_extract_state _ _ _ _). set (st1 := foldl _ _ _).
  assert (Hg : grows st st1) by apply (take_extractions_grow _ st0).
  assert (Hc : ∀ c, c ∈ batch → extracted (es_graphs st1) (es_failures st1) c).
  { intros c Hc. by apply take_extractions_cover. }
  destruct (es_batch_failed st1 && _).
  - intros [= <- <-]. exists [batch], batches. split_and!; try done; try (simpl; lia).
    intros c. simpl. rewrite app_nil_r. apply Hc.
  - intros (sent & rest & -> & Hg' & Hs & Hr)%IH. exists (batch :: sent), rest. split_and!; try done.
    + by eapply grows_trans.
    + intros c. simpl. rewrite elem_of_app. intros [Hin|Hin]; [|by apply Hs]. eapply extracted_grows; [done|by apply Hc].
    + destruct stop; [|done]. destruct Hr as [_ ->]. split; [done|]. simpl. lia.
Qed.

(** The chunks of the batches after the abort are those the report marks. *)
Lemma unsent_dropped (l : list DocumentChunk) sent rest c :
  0 < batch_size → chunks batch_size l = sent ++ rest → c ∈ concat rest →
  c ∈ drop (length sent * batch_size) l.
Proof.
  intros Hn Hl Hc. assert (Hs : length (concat sent) = length sent * batch_size).
  { assert (Hr : rest ≠ []) by (intros ->; by apply not_elem_of_nil in Hc). clear Hc.
    revert rest Hl Hr. induction sent as [|b sent IH] using rev_ind; intros rest Hl Hr; [done|].
    rewrite concat_snoc, !length_app. simpl. rewrite <-app_assoc in Hl. simpl in Hl.
    rewrite (IH (b :: rest)), (chunks_full _ _ _ _ _ Hn Hl Hr) by done. lia. }
  rewrite <-(chunks_concat batch_size l), Hl, concat_app, drop_app_ge by lia.
  by replace (_ - _) with 0 by lia.
Qed.

(** What a run that gets past the extraction knows of its chunks and documents. *)
Record extracted_all (input : ExtractedChunks) (xg : ExtractedGraphData G) : Prop := {
  ea_outstanding : outstanding (ec_failures input) ⊆ outstanding (xg_failures xg);
  ea_chunks : ∀ c, c ∈ ec_chunks input → c ∈ xg_chunks xg ∨ dc_document_id c ∈ outstanding (xg_failures xg);
  ea_documents : ∀ d, d ∈ ec_documents input → d ∈ xg_documents xg ∨ doc_id d ∈ outstanding (xg_failures xg);
  ea_graphs : ∀ c, c ∈ ec_chunks input → is_dlt_row c = false → extracted (xg_graphs xg) (xg_failures xg) c;
}.

Lemma complete_outstanding documents failures id :
  id ∈ complete_documents documents failures ↔ id ∈ map doc_id documents ∧ id ∉ outstanding failures.
Proof. unfold complete_documents. rewrite list_elem_of_filter. tauto. Qed.

Lemma extract_graph_cover input xg :
  0 < batch_size → (∀ c, c ∈ ec_chunks input → dc_document_id c ∈ map doc_id (ec_documents input)) →
  extract_graph_from_data extract_batch summarize_chunk policy batch_size input = Ok xg → extracted_all input xg.
Proof.
  intros Hn Hdoc. unfold extract_graph_from_data.
  set (todo := filter _ (ec_chunks input)).
  assert (Htodo : ∀ c, c ∈ ec_chunks input → is_dlt_row c = false → c ∈ todo)
    by (intros c Hc Hd; by apply list_elem_of_filter).
  case_decide as Hc0; [intros [= <-]; split; simpl; auto; rewrite Hc0; by intros ? ?%not_elem_of_nil|].
  case_decide as Ht0; [intros [= <-]; split; simpl; auto|].
  { intros c Hc Hd. specialize (Htodo c Hc Hd). rewrite Ht0 in Htodo. by apply not_elem_of_nil in Htodo. }
  destruct (extract_batches _ _ _ _ _ _ _) as [[st stop]|] eqn:Hx; [|done].
  apply extract_batches_cover in Hx as (sent & rest & Hb & [_ Ho] & Hsent & Hstop). simpl in Ho.
  assert (Hall : ∀ c, c ∈ todo → c ∈ concat sent ∨ c ∈ concat rest).
  { intros c. by rewrite <-(chunks_concat batch_size todo), Hb, concat_app, elem_of_app. }
  destruct stop as [k|].
  - case_decide; [done|]. intros [= <-]. destruct Hstop as [_ ->].
    set (failures := foldl _ (es_failures st) _).
    assert (Hf : outstanding failures = outstanding (es_failures st)
      ∪ list_to_set (map dc_document_id (drop ((0 + length sent) * batch_size) todo)))
      by apply outstanding_marks.
    assert (Hcomplete : ∀ c, c ∈ ec_chunks input → dc_document_id c ∉ outstanding failures →
      dc_document_id c ∈ complete_documents (ec_documents input) failures)
      by (intros c Hc Hno; apply complete_outstanding; auto).
    split; simpl.
    + set_solver.
    + intros c Hc. destruct (decide (dc_document_id c ∈ outstanding failures)); [by right|left].
      apply list_elem_of_filter. auto.
    + intros d Hd. destruct (decide (doc_id d ∈ outstanding failures)); [by right|left].
      apply list_elem_of_filter. split; [|done]. apply complete_outstanding. split; [by apply list_elem_of_fmap_2|done].
    + intros c Hc Hd. destruct (decide (dc_document_id c ∈ outstanding failures)) as [|Hno]; [by right|].
      destruct (Hall c (Htodo c Hc Hd)) as [Hin|Hin].
      * destruct (Hsent c Hin) as [(g & Ha & Hg)|]; [|set_solver]. left. exists g. split; [done|].
        apply list_elem_of_filter. split; [|done]. simpl. apply list_elem_of_fmap_2, list_elem_of_filter. auto.
      * destruct Hno. rewrite Hf. apply elem_of_union_r, elem_of_list_to_set, list_elem_of_fmap_2.
        by eapply unsent_dropped.
  - intros [= <-]. subst rest. split; simpl; try done; [by left|by left|].
    intros c Hc Hd. destruct (Hall c (Htodo c Hc Hd)) as [Hin|Hin]; [by apply Hsent|by apply not_elem_of_nil in Hin].
Qed.

(** A batch without a failure adds nothing to what is outstanding. *)
Lemma take_extractions_clean entries st :
  let st' := foldl (take_extraction summarize_chunk) st entries in
  (es_batch_failed st = true → es_batch_failed st' = true)
  ∧ (es_batch_failed st' = false → es_failures st' = es_failures st).
Proof.
  cbv zeta. revert st. induction entries as [|[c o] entries IH]; intros st; [done|].
  change (foldl ?f ?st (?e :: ?es)) with (foldl f (f st e) es).
  destruct (IH (take_extraction summarize_chunk st (c, o))) as [Hm Hc]. destruct o as [g|e b]; simpl in *; [done|].
  split; [intros _; by apply Hm|]. intros Hf. rewrite Hm in Hf by done. done.
Qed.

Lemma extract_batches_clean batches idx st st' :
  fp_stop policy = FailFast →
  extract_batches extract_batch summarize_chunk policy batch_size idx batches st = Ok (st', None) →
  es_failures st' = es_failures st.
Proof.
  intros Hff. revert idx st. induction batches as [|batch batches IH]; intros idx st; simpl; [by intros [= <-]|].
  destruct (extract_batch batch) as [outcomes|]; [|done]. rewrite Hff, bool_decide_eq_true_2, andb_true_r by done.
  set (st0 := Build_extract_state _ _ _ _). set (st1 := foldl _ _ _).
  destruct (es_batch_failed st1) eqn:Hf; [done|]. intros Hr%IH. rewrite Hr.
  destruct (take_extractions_clean (zip batch outcomes) st0) as [_ Hc]. by apply Hc.
Qed.
(** Every graph is of a chunk that was sent. *)
Lemma take_extractions_graphs entries st id g :
  (id, g) ∈ es_graphs (foldl (take_extraction summarize_chunk) st entries) →
  (id, g) ∈ es_graphs st ∨ ∃ c outcome, (c, outcome) ∈ entries ∧ dc_id c = id.
Proof.
  revert st. induction entries as [|[c outcome] entries IH]; intros st; [by left|].
  change (foldl ?f ?st (?e :: ?es)) with (foldl f (f st e) es). intros [Hin|(c' & o' & Hin & Hid)]%IH.
  - destruct outcome as [g'|e b]; simpl in Hin; [|by left].
    apply elem_of_app in Hin as [Hin|[= -> ->]%list_elem_of_singleton]; [by left|right]. exists c, (GraphExtracted g').
    split; [by left|done].
  - right. exists c', o'. split; [by right|done].
Qed.

Lemma extract_batches_graphs batches : ∀ idx st st' stop id g,
  extract_batches extract_batch summarize_chunk policy batch_size idx batches st = Ok (st', stop) →
  (id, g) ∈ es_graphs st' → (id, g) ∈ es_graphs st ∨ ∃ c, c ∈ concat batches ∧ dc_id c = id.
Proof.
  induction batches as [|batch batches IH]; intros idx st st' stop id g; simpl; [intros [= <- _]; by left|].
  destruct (extract_batch batch) as [outcomes|]; [|done]. set (st0 := Build_extract_state _ _ _ _).
  assert (Hb : (id, g) ∈ es_graphs (foldl (take_extraction summarize_chunk) st0 (zip batch outcomes)) →
    (id, g) ∈ es_graphs st ∨ ∃ c, c ∈ batch ++ concat batches ∧ dc_id c = id).
  { intros [Hin|(c & o & Hin & Hid)]%take_extractions_graphs; [by left|right]. exists c. split; [|done].
    apply elem_of_app. left. by eapply elem_of_zip_l. }
  destruct (es_batch_failed _ && _); [by intros [= <- _]|]. intros Hx Hin.
  apply (IH _ _ _ _ _ _ Hx) in Hin as [Hin|(c & Hin & Hid)]; [by apply Hb|right]. exists c. split; [|done].
  apply elem_of_app. by right.
Qed.

(** What is kept, under [FailFast]. *)
Lemma failfast_kept input xg :
  fp_stop policy = FailFast →
  extract_graph_from_data extract_batch summarize_chunk policy batch_size input = Ok xg →
  (∀ c, c ∈ xg_chunks xg → dc_document_id c ∈ outstanding (xg_failures xg) → dc_document_id c ∈ outstanding (ec_failures input))
  ∧ (∀ c c', c ∈ xg_chunks xg → c' ∈ ec_chunks input → dc_document_id c' = dc_document_id c → c' ∈ xg_chunks xg)
  ∧ (∀ id g, (id, g) ∈ xg_graphs xg → ∃ c, c ∈ xg_chunks xg ∧ dc_id c = id).
Proof.
  intros Hff. unfold extract_graph_from_data. set (todo := filter _ (ec_chunks input)).
  case_decide as Hc0; [intros [= <-]; simpl; split_and!; try done; by intros ? ? ?%not_elem_of_nil|].
  case_decide as Ht0; [intros [= <-]; simpl; split_and!; try done; by intros ? ? ?%not_elem_of_nil|].
  destruct (extract_batches _ _ _ _ _ _ _) as [[st [k|]]|] eqn:Hx; [| |done].
  - case_decide; [done|]. intros [= <-]. simpl.
    set (failures := foldl _ (es_failures st) _). split_and!.
    + intros c [Hc _]%list_elem_of_filter Hout. by apply complete_outstanding in Hc as [_ ?].
    + intros c c' [Hc _]%list_elem_of_filter Hc' Heq. apply list_elem_of_filter. by rewrite Heq.
    + intros id g [Hin _]%list_elem_of_filter. simpl in Hin. apply list_elem_of_fmap in Hin as (c & -> & Hc). by exists c.
  - intros [= <-]. simpl. split_and!; [|done|].
    + intros c _. by rewrite (extract_batches_clean _ _ _ _ Hff Hx).
    + intros id g Hin. destruct (extract_batches_graphs _ _ _ _ _ id g Hx Hin) as [?%not_elem_of_nil|(c & Hc & Hid)]; [done|].
      exists c. split; [|done]. rewrite chunks_concat in Hc. by apply list_elem_of_filter in Hc as [_ ?].
Qed.

(** C18: Under [FailFast], with batches of at least one chunk and the chunks those of the
    documents given, a file is kept whole or is reported.  If the extraction goes on:
    no chunk it keeps is of a file that failed or was cut off in it; it keeps all the
    chunks of each file it keeps a chunk of, and the file of every chunk it drops is
    listed failed or unreached; every graph belongs to a chunk it keeps; and each
    chunk that is no DLT row was answered and has its graph, unless its file is
    listed - so the files of all the batches the abort cut off are. *)
Theorem failfast_keeps_whole_files input xg :
  fp_stop policy = FailFast → 0 < batch_size →
  (∀ c, c ∈ ec_chunks input → dc_document_id c ∈ map doc_id (ec_documents input)) →
  extract_graph_from_data extract_batch summarize_chunk policy batch_size input = Ok xg →
  (∀ c, c ∈ xg_chunks xg → dc_document_id c ∈ outstanding (xg_failures xg) → dc_document_id c ∈ outstanding (ec_failures input))
  ∧ (∀ c c', c ∈ xg_chunks xg → c' ∈ ec_chunks input → dc_document_id c' = dc_document_id c → c' ∈ xg_chunks xg)
  ∧ (∀ c, c ∈ ec_chunks input → c ∉ xg_chunks xg → dc_document_id c ∈ outstanding (xg_failures xg))
  ∧ (∀ id g, (id, g) ∈ xg_graphs xg → ∃ c, c ∈ xg_chunks xg ∧ dc_id c = id)
  ∧ (∀ c, c ∈ ec_chunks input → is_dlt_row c = false →
       (∃ g, answered c g ∧ (dc_id c, g) ∈ xg_graphs xg) ∨ dc_document_id c ∈ outstanding (xg_failures xg)).
Proof.
  intros Hff Hn Hdoc Hx. pose proof (extract_graph_cover _ _ Hn Hdoc Hx) as [_ Hcover _ Hgraphs].
  destruct (failfast_kept input xg Hff Hx) as (? & ? & ?). split_and!; try done.
  intros c Hc Hno. by destruct (Hcover c Hc).
Qed.
End extraction.

Lemma llm_batch_answers_all `{UuidFormat} {G} (extract : DocumentChunk → result CognifyError G) batch outcomes :
  llm_batch extract batch = Ok outcomes → length outcomes = length batch.
Proof. intros [= <-]. by rewrite length_map. Qed.

Lemma backend_batch_answers_all {G} (backend : ChunkGraphExtractor G) batch outcomes :
  backend_batch backend batch = Ok outcomes → length outcomes = length batch.
Proof.
  unfold backend_batch. destruct (gb_extract_graphs backend batch) as [results|[]]; try done.
  - case_decide; [|done]. intros [= <-]. by rewrite length_map.
  - intros [= <-]. by rewrite length_map.
  - intros [= <-]. by rewrite length_map.
Qed.

(** ** Summarization *)

Section summarization.
Context `{UuidFormat} (new_v5 : uuid → string → uuid) (config : CognifyConfig).

Lemma chunk_documents_some (chunks : list DocumentChunk) c :
  c ∈ chunks → ∃ c', c' ∈ chunks ∧ dc_id c' = dc_id c ∧ chunk_documents chunks !! dc_id c = Some (dc_document_id c').
Proof.
  intros Hc. unfold chunk_documents. destruct (list_to_map _ !! dc_id c) as [d|] eqn:Hl.
  - pose proof (elem_of_list_to_map_2 _ _ _ Hl) as Hin. rewrite elem_of_reverse in Hin.
    apply list_elem_of_fmap in Hin as (c' & [= Hi ->] & Hc'). eauto.
  - apply not_elem_of_list_to_map_2 in Hl. destruct Hl. rewrite fmap_reverse, elem_of_reverse, <-list_fmap_compose.
    apply list_elem_of_fmap. by exists c.
Qed.

(** [data_id_of] does not panic, and charges what was not summarized to a document. *)
Lemma record_outcome_total chunks outcome r :
  (∀ id e, (id, e) ∈ so_failures outcome → id ∈ map dc_id chunks) →
  (∀ id, id ∈ so_skipped outcome → id ∈ map dc_id chunks) →
  ∃ r', record_outcome config chunks outcome r = Some r'
    ∧ outstanding r ⊆ outstanding r'
    ∧ (cc_tolerate_summarization_failures config = false → ∀ id e d, (id, e) ∈ so_failures outcome →
         chunk_documents chunks !! id = Some d → d ∈ outstanding r')
    ∧ (∀ id d, id ∈ so_skipped outcome → chunk_documents chunks !! id = Some d → d ∈ outstanding r').
Proof.
  intros Hf Hs. unfold record_outcome. destruct outcome as [summaries failures skipped]. simpl in *.
  assert (Hsome : ∀ id, id ∈ map dc_id chunks → ∃ d, chunk_documents chunks !! id = Some d).
  { intros id (c & -> & Hc)%list_elem_of_fmap. destruct (chunk_documents_some chunks c Hc) as (c' & _ & _ & ->). eauto. }
  revert r. induction failures as [|[id e] failures IH]; intros r; simpl.
  - clear Hf. revert r. induction skipped as [|id skipped IHs]; intros r; simpl.
    + exists r. split_and!; try done; intros; by (exfalso; eapply not_elem_of_nil).
    + destruct (Hsome id) as [d Hd]; [apply Hs; by left|]. rewrite Hd. simpl.
      destruct (IHs ltac:(intros; apply Hs; by right) (mark_unreached d r)) as (r' & Hr & Hsub & _ & Hsk).
      exists r'. split; [done|]. rewrite outstanding_mark in Hsub. split_and!; [set_solver| |].
      * intros _ ? ? ? ?%not_elem_of_nil. done.
      * intros id' d' [->|Hin]%elem_of_cons Hd'; [simplify_eq; set_solver|by eapply Hsk].
  - destruct (Hsome id) as [d Hd]; [eapply Hf; by left|]. rewrite Hd. simpl.
    set (r1 := record_error _ _ r).
    destruct (IH ltac:(intros; eapply Hf; by right) r1) as (r' & Hr & Hsub & Hfl & Hsk).
    exists r'. split; [done|]. unfold r1 in Hsub. rewrite outstanding_record_error in Hsub. simpl in Hsub.
    split_and!; [set_solver| |done].
    intros Ht id' e' d' [[= -> ->]|Hin]%elem_of_cons Hd'; [|by eapply Hfl].
    simplify_eq. rewrite Ht in Hsub. simpl in Hsub. set_solver.
Qed.

(** What summarization leaves of its input: a chunk has its summary, or its failure is
    charged to a file, its own unless a chunk of another file has the same id. *)
Lemma summarize_text_cover env model summarized input r :
  summarize_text new_v5 config env model summarized input r →
  let todo := filter (λ c, is_dlt_row c = false) (ec_chunks input) in
  ∃ sz, r = Some sz ∧
    (cc_enable_summarization config = true → cc_graph_backend config ≠ Some true → cc_tolerate_summarization_failures config = false →
     ∀ i c, todo !! i = Some c →
       (∃ c', c' ∈ todo ∧ dc_id c' = dc_id c ∧ dc_document_id c' ∈ outstanding (sz_failures sz))
       ∨ ∃ content, summarized i = Ok content
           ∧ summary_of_chunk uuid_to_string new_v5 (env i) model c content ∈ sz_summaries sz).
Proof.
  cbv zeta. unfold summarize_text. set (todo := filter _ _).
  destruct (cc_enable_summarization config) eqn:He; simpl; [|intros ->; by eexists].
  case_bool_decide as Hb; [intros ->; by eexists|]. case_bool_decide as Hn; simpl.
  { intros ->. eexists. split; [done|]. intros _ _ _ i c. by rewrite Hn. }
  intros (outcome & Ho & ->). apply summarize_chunks_fates in Ho as (s & Hok & Hd & _ & ->).
  set (skip := skipped_set _). set (answer := chunk_answer _ _ _ _ _). set (ids := map dc_id todo).
  assert (Hid : ∀ i o, fate ids answer skip i = Some o → ∃ c, todo !! i = Some c ∧
    o = if decide (i ∈ skip) then Skipped i (dc_id c)
        else match answer i with Ok s => Summarized i s | Err e => Failed i (dc_id c) e end).
  { intros i o. unfold fate, ids. rewrite list_lookup_fmap. destruct (todo !! i) as [c|]; [|done].
    simpl. intros [= <-]. eauto. }
  destruct (record_outcome_total todo {| so_summaries := omap summary_in (fates ids answer skip);
    so_failures := omap failure_in (fates ids answer skip); so_skipped := omap skipped_in (fates ids answer skip) |}
    (with_policy (failure_policy config))) as (r' & -> & _ & Hf & Hs); simpl in *.
  - intros id e (o & (i & _ & Hi)%list_elem_of_omap & Hx)%list_elem_of_omap. apply Hid in Hi as (c & Hc & ->).
    apply list_elem_of_lookup_2 in Hc. case_decide; [done|]. destruct (answer i); simplify_eq/=. by apply list_elem_of_fmap_2.
  - intros id (o & (i & _ & Hi)%list_elem_of_omap & Hx)%list_elem_of_omap. apply Hid in Hi as (c & Hc & ->).
    apply list_elem_of_lookup_2 in Hc. case_decide; [|by destruct (answer i)]. simplify_eq/=. by apply list_elem_of_fmap_2.
  - eexists. split; [done|]. intros _ _ Ht i c Hc. simpl.
    destruct (chunk_documents_some todo c) as (c' & Hc' & Hid' & Hdoc); [by eapply list_elem_of_lookup_2|].
    assert (Hin : ∀ o, fate ids answer skip i = Some o → o ∈ fates ids answer skip).
    { intros o Hfo. unfold fates. apply list_elem_of_omap. exists i. split; [|done]. apply elem_of_seq.
      unfold ids. rewrite length_map. apply lookup_lt_Some in Hc. lia. }
    assert (Hfate : fate ids answer skip i = Some (if decide (i ∈ skip) then Skipped i (dc_id c)
      else match answer i with Ok s => Summarized i s | Err e => Failed i (dc_id c) e end))
      by (unfold fate, ids; by rewrite list_lookup_fmap, Hc).
    apply Hin in Hfate. case_decide.
    + left. exists c'. split_and!; [done|done|]. eapply Hs; [|done]. apply list_elem_of_omap. eexists. by split.
    + destruct (answer i) as [sm|e] eqn:Ha.
      * right. unfold answer, chunk_answer in Ha. rewrite Hc in Ha. destruct (summarized i) as [content|]; [|done].
        simpl in Ha. simplify_eq. eexists. split; [done|]. apply list_elem_of_omap. eexists. by split.
      * left. exists c'. split_and!; [done|done|]. eapply Hf; [done| |done]. apply list_elem_of_omap. eexists. by split.
Qed.
End summarization.

(** ** Chunks that share their id

    A chunk that begins a document with a paragraph over the limit has the id of its
    text, so two documents can share it. *)

(** If two documents share a chunk and its summary fails for the first and not for
    the second, the failure is charged to the second: the file whose summary failed is
    not listed, and the one whose summary succeeded is. *)
Theorem shared_chunk_misattributed `{UuidFormat} config c c' s e policy :
  cc_tolerate_summarization_failures config = false →
  dc_id c = dc_id c' → dc_document_id c ≠ dc_document_id c' →
  ∃ r, record_outcome config [c; c'] {| so_summaries := [s]; so_failures := [(dc_id c, e)]; so_skipped := [] |}
         (with_policy policy) = Some r
    ∧ dc_document_id c ∉ outstanding r ∧ dc_document_id c' ∈ outstanding r.
Proof.
  intros Ht Hid Hdoc. assert (Hl : chunk_documents [c; c'] !! dc_id c = Some (dc_document_id c')).
  { unfold chunk_documents. simpl. rewrite Hid. by rewrite lookup_insert_eq. }
  unfold record_outcome. simpl. rewrite Hl. simpl. eexists. split; [done|].
  rewrite outstanding_record_error, outstanding_policy. simpl. rewrite Ht. simpl. set_solver.
Qed.
