(* ===== verification/CognifyRun.v ===== *)
(** * A cognify run (crates/cognify/src/tasks.rs)

    The four tasks of the pipeline, composed, and [cognify]: what it skips, the records
    and the ownership marker of the run, and what its end does to the stores. *)

From S2P Require Import Prelude Json Strings Text TokenCounter DataPoint Models Markers Ledger Artifacts Sweep.
From S2P Require Import Pipeline RunRecords Recovery Classify Failure Config Rollback Summarize.
From S2P Require Import Loaders ChunkDocument CognifyStages.
#[local] Open Scope nat_scope.

(** ** The tasks *)

(** What the outside answers the tasks: the loaders and the storage, the LLM or the
    graph backend, and the databases the results are written to. *)
Record stage_answers (G : Type) := {
  sa_classify : list Data → list Document;
  sa_counter : result string TokenCounter;
  sa_chunk_one : TokenCounter → Document → option (result CognifyError (list DocumentChunk * option nat));
  sa_extract_batch : list DocumentChunk → result CognifyError (list (chunk_extraction G));
  sa_backend_summary : DocumentChunk → G → option TextSummary;
  sa_integrate : ExtractedGraphData G → result CognifyError ();
  sa_env : nat → chunk_env;
  sa_model : string;
  sa_summarized : nat → result CognifyError SummarizedContent;
  sa_add_data_points : SummarizedData G → result CognifyError ();
}.
Arguments sa_classify {G} _ _.
Arguments sa_counter {G} _.
Arguments sa_chunk_one {G} _ _ _.
Arguments sa_extract_batch {G} _ _.
Arguments sa_backend_summary {G} _ _ _.
Arguments sa_integrate {G} _ _.
Arguments sa_env {G} _ _.
Arguments sa_model {G} _.
Arguments sa_summarized {G} _ _.
Arguments sa_add_data_points {G} _ _.

Section tasks.
Context `{UuidFormat} (new_v5 : uuid → string → uuid) (config : CognifyConfig) {G : Type} (sa : stage_answers G).
Notation policy := (failure_policy config).

(** [make_extract_graph_and_summarize_task]: the two branches over the same chunks;
    an error of the extraction is the error of the task. *)
Definition extract_graph_and_summarize (input : ExtractedChunks) (r : option (result CognifyError (SummarizedData G)))
    : Prop :=
  let extracted :=
    result_bind (extract_graph_from_data (sa_extract_batch sa) (sa_backend_summary sa) policy
                   (cc_chunks_per_batch config) input)
                (λ graph, result_map (λ _, graph) (sa_integrate sa graph)) in
  match extracted with
  | Err e => r = Some (Err e)
  | Ok graph => ∃ summarized, summarize_text new_v5 config (sa_env sa) (sa_model sa) (sa_summarized sa) input summarized
                ∧ r = summarized ← summarized; Some (Ok (merge_graph_and_summaries graph summarized))
  end.

(** [make_add_data_points_task] *)
Definition add_data_points_task (data : SummarizedData G) : result CognifyError (SummarizedData G) :=
  result_bind (sa_add_data_points sa data) (λ _, end_of_run_gate config data).

(** The tasks of [build_cognify_pipeline] on an input, one after the other: the result,
    or the index of the task that failed and its error.  [None]: a panic. *)
Definition cognify_tasks (input : CognifyInput) (r : option (result (nat * CognifyError) (SummarizedData G))) : Prop :=
  match extract_chunks_from_documents (sa_counter sa) (sa_chunk_one sa) policy
          (classify_stage (sa_classify sa) input policy) with
  | None => r = None
  | Some (Err e) => r = Some (Err (1, e))
  | Some (Ok chunks) => ∃ fused, extract_graph_and_summarize chunks fused
      ∧ r = fused ← fused;
            match fused with
            | Err e => Some (Err (2, e))
            | Ok data => Some (map_err (pair 3) (add_data_points_task data))
            end
  end.
End tasks.

(** ** The tasks as the pipeline builds them *)

(** What lies outside the tasks: clocks and id sources, Python's JSON printer, the
    storage, the loaders, the extraction's answers and the databases. *)
Record outside (G : Type) := {
  os_classify_env : nat → chunk_env;
  os_dumps : json → string;
  os_counter : result string TokenCounter;
  os_chunk_env : Document → nat → chunk_env;
  os_is_alphabetic : char → bool;
  os_new_v4 : nat → uuid;
  os_retrieve : string → result string (list N);
  os_loaders : Loaders.LoaderRegistry;
  os_extract : DocumentChunk → result CognifyError G;
  os_backend : option (ChunkGraphExtractor G);
  os_summary_env : DocumentChunk → chunk_env;
  os_integrate : ExtractedGraphData G → result CognifyError ();
  os_env : nat → chunk_env;
  os_model : string;
  os_summarized : nat → result CognifyError SummarizedContent;
  os_add_data_points : SummarizedData G → result CognifyError ();
}.
Arguments os_classify_env {G} _ _.
Arguments os_dumps {G} _ _.
Arguments os_counter {G} _.
Arguments os_chunk_env {G} _ _ _.
Arguments os_is_alphabetic {G} _ _.
Arguments os_new_v4 {G} _ _.
Arguments os_retrieve {G} _ _.
Arguments os_loaders {G} _.
Arguments os_extract {G} _ _.
Arguments os_backend {G} _.
Arguments os_summary_env {G} _ _.
Arguments os_integrate {G} _ _.
Arguments os_env {G} _ _.
Arguments os_model {G} _.
Arguments os_summarized {G} _ _.
Arguments os_add_data_points {G} _ _.

(** [build_cognify_pipeline]: the tasks, over what lies outside; the graph backend is
    the configured one. *)
Definition pipeline_answers `{UuidFormat, SerdeJson, Lowercase} (new_v5 : uuid → text → uuid) (config : CognifyConfig)
    {G : Type} (o : outside G) : stage_answers G :=
  let new_v5_str namespace s := new_v5 namespace (ascii s) in
  {| sa_classify := classify_documents new_v5_str (os_dumps o) (os_classify_env o);
     sa_counter := os_counter o;
     sa_chunk_one counter d := chunk_one_document uuid_to_string new_v5 (os_chunk_env o d) (os_is_alphabetic o)
       (os_new_v4 o) (os_retrieve o) (chunk_size config) counter (cc_token_count_mode config) (os_loaders o) d;
     sa_extract_batch := match os_backend o with
                         | Some backend => backend_batch backend
                         | None => llm_batch (os_extract o)
                         end;
     sa_backend_summary chunk graph :=
       match os_backend o with
       | Some backend => backend_summary uuid_to_string new_v5_str (os_summary_env o)
                           (cc_enable_summarization config) backend chunk graph
       | None => None
       end;
     sa_integrate := os_integrate o;
     sa_env := os_env o;
     sa_model := os_model o;
     sa_summarized := os_summarized o;
     sa_add_data_points := os_add_data_points o |}.

(** ** The run *)

Definition COGNIFY_PIPELINE_STAMP_NAME : string := "cognify_pipeline".

(** The fields of [CognifyResult] the run layer sets. *)
Record CognifyResult := {
  cr_failures : FailureReport;
  cr_already_completed : bool;
  cr_prior_pipeline_run_id : option uuid;
  cr_pipeline_run_id : option uuid;
}.

(** [CognifyResult::empty] *)
Definition CognifyResult_empty : CognifyResult := {|
  cr_failures := FailureReport_default; cr_already_completed := false;
  cr_prior_pipeline_run_id := None; cr_pipeline_run_id := None |}.

(** The caller. *)
Record caller := {
  ca_dataset_id : uuid;
  ca_user_id : option uuid;
  ca_tenant_id : option uuid;
}.

(** What a run finds around it: the ids and times it is given, the marker directory,
    the markers' query, the latest run of the dataset and the calls of its end that
    fail. *)
Record cognify_env := {
  cv_run : run_env;
  cv_fresh_pipeline_id : uuid;
  cv_token : uuid;
  cv_marker_io : bool;
  cv_markers_fault : option string;
  cv_latest_run : result string (option (uuid * DbStatus));
  cv_rollback : rollback_env;
}.

Record run_world (R : Type) := {
  rw_stores : stores;
  rw_repo : R;
  rw_markers : gmap uuid bool;
}.
Arguments Build_run_world {R} _ _ _.
Arguments rw_stores {R} _.
Arguments rw_repo {R} _.
Arguments rw_markers {R} _.

Section run.
Context `{UuidFormat, SerdeJson, Lowercase} (new_v5 : uuid → string → uuid).
Context {R : Type} `{PipelineRunRepository R} (env : cognify_env) (who : caller).

(** The run's record: [PipelineRunInfo]. *)
Definition cognify_run_info (recovery_lock : option uuid) : PipelineRunInfo := {|
  ri_run_id := re_run_id (cv_run env);
  ri_pipeline_id := default (cv_fresh_pipeline_id env)
    (deterministic_pipeline_id uuid_to_string new_v5 (Some COGNIFY_PIPELINE_STAMP_NAME) (ca_user_id who)
       (Some (ca_dataset_id who)));
  ri_pipeline_name := COGNIFY_PIPELINE_STAMP_NAME;
  ri_user_id := ca_user_id who;
  ri_tenant_id := ca_tenant_id who;
  ri_dataset_id := Some (ca_dataset_id who);
  ri_status := Started;
  ri_started_at := re_started_at (cv_run env);
  ri_completed_at := None;
  ri_recovery_lock := recovery_lock |}.

(** [RunOwnership::acquire], when a directory is configured. *)
Definition acquire_ownership (dir : option string) (m : gmap uuid bool) : gmap uuid bool * option RunOwnership :=
  match dir with
  | Some _ => let '(m, o) := own_acquire (cv_token env) (cv_marker_io env) m in (m, Some o)
  | None => (m, None)
  end.

(** [mark_closed] unless the terminal row failed, and the drop of the handle. *)
Definition end_ownership (terminal_write_failed : bool) (ownership : option RunOwnership) (m : gmap uuid bool)
    : gmap uuid bool :=
  match ownership with
  | Some o => own_drop (if terminal_write_failed then o else own_mark_closed o) m
  | None => m
  end.

(** [record_run_without_work] *)
Definition record_run_without_work (dir : option string) (w : run_world R) : result CognifyError uuid * run_world R :=
  let '(m, ownership) := acquire_ownership dir (rw_markers w) in
  let run := cognify_run_info (ownership ≫= own_token) in
  let watcher := dw_on_run_started uuid_to_string run (DbPipelineWatcher_new (rw_repo w)) in
  let '(watcher, completed) := dw_on_run_completed (ri_finish Completed (re_completed_at (cv_run env)) run) 0 watcher in
  let '(watcher, outcome) :=
    match completed with
    | Ok _ => (watcher, Ok (ri_run_id run))
    | Err e => (dw_on_run_errored (ri_finish Errored (re_completed_at (cv_run env)) run) e watcher,
                Err (Execute ("the run's COMPLETED record could not be written: " +:+ e)))
    end in
  (outcome, {| rw_stores := rw_stores w; rw_repo := dw_repo watcher;
               rw_markers := end_ownership (dw_terminal_write_failed watcher) ownership m |}).

(** What the executor returns and the watcher's callbacks at its end, given the result
    of the tasks; [unwrap_execution_error] has recovered the tasks' own error. *)
Definition conclude_run {G} (run : PipelineRunInfo) (tasked : result (nat * CognifyError) (SummarizedData G))
    (watcher : RunIdCapturingWatcher R) : result CognifyError (SummarizedData G) * RunIdCapturingWatcher R :=
  let ended := match tasked with
               | Ok _ => Ok 1
               | Err (task_index, e) => Err (TaskFailed task_index 1 (display_cognify_error e))
               end in
  let executed := match tasked with
                  | Err (_, e) => Err e
                  | Ok data =>
                      match dw_on_run_completed (ri_finish Completed (re_completed_at (cv_run env)) run) 1
                              (cw_inner watcher) with
                      | (_, Ok _) => Ok data
                      | (_, Err reason) => Err (Execute (ExecutionError_to_string (RunRecordFailed reason)))
                      end
                  end in
  (executed, cw_conclude (cv_run env) run ended watcher).

(** The policy layer's view of the run. *)
Definition run_context (config : CognifyConfig) (processed : list uuid) (watcher : RunIdCapturingWatcher R)
    : RunContext := {|
  rc_dataset_id := ca_dataset_id who;
  rc_pipeline_run_id := run_id watcher;
  rc_pipeline_id := Rollback.pipeline_id watcher;
  rc_pipeline_name := COGNIFY_PIPELINE_STAMP_NAME;
  rc_processed := processed;
  rc_incremental_loading := cc_incremental_loading config;
  rc_rollback_scope := cc_rollback_scope config |}.

(** [tasks]: the result of the tasks and the stores they leave; [teardown]: that of
    [extract_dlt_fk_edges] on the result. *)
Context {G : Type} (tasks : CognifyInput → stores → result (nat * CognifyError) (SummarizedData G) * stores)
  (teardown : SummarizedData G → stores → result CognifyError () * stores).

(** [cognify_in_scope] from the pipeline on, for the items that are left.  Building the
    task context cannot fail there: [TaskContextBuilder::build] errs only on a missing
    field, and the four it requires have just been set; a bulk load that fails to open
    or close is logged. *)
Definition run_items (config : CognifyConfig) (data_items : list Data) (w : run_world R)
    : result CognifyError CognifyResult * run_world R :=
  let processed_ids := map data_id data_items in
  let input := {| ci_data_items := data_items; ci_dataset_id := ca_dataset_id who;
                  ci_user_id := ca_user_id who; ci_tenant_id := ca_tenant_id who |} in
  let '(m, ownership) := acquire_ownership (cc_run_ownership_dir config) (rw_markers w) in
  let run := cognify_run_info (ownership ≫= own_token) in
  let watcher := cw_on_run_started uuid_to_string run (RunIdCapturingWatcher_new (rw_repo w)) in
  let '(tasked, st) := tasks input (rw_stores w) in
  let '(executed, watcher) := conclude_run run tasked watcher in
  let m := end_ownership (terminal_write_failed watcher) ownership m in
  let run_ctx := run_context config processed_ids watcher in
  let repo := dw_repo (cw_inner watcher) in
  match executed with
  | Err e =>
      let '(st, repo) := on_run_failed new_v5 (cv_rollback env) run_ctx e true st repo in
      (Err e, {| rw_stores := st; rw_repo := repo; rw_markers := m |})
  | Ok data =>
      let '(torn_down, st) := teardown data st in
      match torn_down with
      | Ok _ =>
          let st := on_run_completed new_v5 (cv_rollback env) run_ctx (sd_failures data) st in
          (Ok {| cr_failures := sd_failures data; cr_already_completed := false;
                 cr_prior_pipeline_run_id := None;
                 cr_pipeline_run_id := Some (ri_run_id run) |},
           {| rw_stores := st; rw_repo := repo; rw_markers := m |})
      | Err e =>
          let '(st, repo) := on_run_failed new_v5 (cv_rollback env) run_ctx e false st repo in
          (Err e, {| rw_stores := st; rw_repo := repo; rw_markers := m |})
      end
  end.

(** [cognify_in_scope] when every item is already complete. *)
Definition nothing_to_do (config : CognifyConfig) (w : run_world R) : result CognifyError CognifyResult * run_world R :=
  match cv_latest_run env with
  | Err e => (Err (DatabaseError e), w)
  | Ok latest =>
      let prior := match latest with Some (run_id, DbCompleted) => Some run_id | _ => None end in
      match record_run_without_work (cc_run_ownership_dir config) w with
      | (Err e, w) => (Err e, w)
      | (Ok run_id, w) =>
          (Ok {| cr_failures := FailureReport_default; cr_already_completed := true;
                 cr_prior_pipeline_run_id := prior;
                 cr_pipeline_run_id := Some run_id |}, w)
      end
  end.

(** [cognify_in_scope]; [resolved]: the configuration as [effective_config] resolves it. *)
Definition cognify_in_scope (resolved : result ConfigError CognifyConfig) (data_items : list Data) (w : run_world R)
    : result CognifyError CognifyResult * run_world R :=
  match resolved with
  | Err e => (Err (Failure.ConfigError (display_config_error e)), w)
  | Ok config =>
      if decide (data_items = []) then (Ok CognifyResult_empty, w)
      else
        let remaining :=
          if cc_incremental_loading config
          then drop_already_complete (cv_markers_fault env) (ca_dataset_id who) data_items (st_data (rw_stores w))
          else Ok data_items in
        match remaining with
        | Err e => (Err e, w)
        | Ok [] => nothing_to_do config w
        | Ok data_items => run_items config data_items w
        end
  end.
End run.
