(* ===== verification/CognifyRunFacts.v ===== *)
(** * What a cognify run guarantees (facts of [CognifyRun])

    From the tasks' report to the completion markers: an item is marked complete only
    when every stage processed it, and a run over marked items is a no-op. *)

From S2P Require Import Prelude Json Strings Text TokenCounter DataPoint Models Markers Ledger Artifacts Sweep SweepSpec.
From S2P Require Import Pipeline RunRecords Recovery Classify Failure Config Rollback Summarize ChunkDocument.
From S2P Require Import CognifyStages CognifyStagesFacts CognifyRun.
#[local] Open Scope nat_scope.

(** ** The tasks account for every item *)

Section tasks.
Context `{UuidFormat} (new_v5 : uuid → string → uuid) (config : CognifyConfig) {G : Type} (sa : stage_answers G).

(** The chunks of a document, with the run's counter. *)
Definition run_chunks (d : Document) (cs : list DocumentChunk) : Prop :=
  ∃ counter, sa_counter sa = Ok counter ∧ chunks_of (sa_chunk_one sa counter) d cs.

(** What the tasks rely on: documents keep the id of their item; chunking a document
    does not panic and gives chunks of that document; a batch is answered chunk by
    chunk. *)
Record sound_answers (items : list Data) : Prop := {
  so_classifies : classifies (sa_classify sa);
  so_ids : ∀ d, d ∈ sa_classify sa items → doc_id d = doc_data_id d;
  so_chunks : ∀ counter d, is_Some (sa_chunk_one sa counter d);
  so_document : ∀ d cs c, run_chunks d cs → c ∈ cs → dc_document_id c = doc_id d;
  so_batch : ∀ batch outcomes, sa_extract_batch sa batch = Ok outcomes → length outcomes = length batch;
}.

(** The run summarizes every chunk by the LLM, and a failure to do so counts. *)
Definition summaries_required : Prop :=
  cc_enable_summarization config = true ∧ cc_graph_backend config ≠ Some true
  ∧ cc_tolerate_summarization_failures config = false.

(** The summary is what the LLM answered for the chunk. *)
Definition summary_for (c : DocumentChunk) (s : TextSummary) : Prop :=
  ∃ i content, sa_summarized sa i = Ok content
    ∧ s = summary_of_chunk uuid_to_string new_v5 (sa_env sa i) (sa_model sa) c content.

(** A chunk of another file of the run has the chunk's id, and that file is listed. *)
Definition charged_elsewhere (items : list Data) (failures : FailureReport) (c : DocumentChunk) : Prop :=
  ∃ d cs c', d ∈ sa_classify sa items ∧ run_chunks d cs ∧ c' ∈ cs ∧ dc_id c' = dc_id c
    ∧ dc_document_id c' ≠ dc_document_id c ∧ dc_document_id c' ∈ outstanding failures.

(** Every stage has processed the chunk; the failure of a summary is charged by the
    chunk's id, so a file that shares it may be charged in its place. *)
Definition chunk_processed (items : list Data) (data : SummarizedData G) (c : DocumentChunk) : Prop :=
  c ∈ sd_chunks data ∧
  (is_dlt_row c = false →
     (∃ g, answered (sa_extract_batch sa) c g ∧ (dc_id c, g) ∈ sd_graphs data)
     ∧ (summaries_required → (∃ s, s ∈ sd_summaries data ∧ summary_for c s)
                             ∨ charged_elsewhere items (sd_failures data) c)).

(** Every stage has processed the item. *)
Definition item_processed (items : list Data) (data : SummarizedData G) (id : uuid) : Prop :=
  ∃ d cs, d ∈ sa_classify sa items ∧ doc_data_id d = id ∧ d ∈ sd_documents data ∧ run_chunks d cs
          ∧ ∀ c, c ∈ cs → chunk_processed items data c.

Lemma chunk_loop_total (chunk_one : Document → option (result CognifyError (list DocumentChunk * option nat)))
    policy total documents : (∀ d, is_Some (chunk_one d)) → ∀ all_chunks kept failures,
  is_Some (chunk_loop chunk_one policy total documents all_chunks kept failures).
Proof.
  intros Hc. induction documents as [|d documents IH]; intros all_chunks kept failures; simpl; [by eexists|].
  destruct (Hc d) as [[[cs count]|e] ->]; simpl; [apply IH|]. case_decide; [case_decide; by eexists|apply IH].
Qed.

(** What the fused stage keeps of its input. *)
Lemma fused_cover items input fused :
  sound_answers items → 0 < cc_chunks_per_batch config →
  (∀ c, c ∈ ec_chunks input → dc_document_id c ∈ map doc_id (ec_documents input)
        ∧ ∃ d cs, d ∈ sa_classify sa items ∧ run_chunks d cs ∧ c ∈ cs) →
  extract_graph_and_summarize new_v5 config sa input fused →
  is_Some fused ∧ ∀ data, fused = Some (Ok data) →
    outstanding (ec_failures input) ⊆ outstanding (sd_failures data)
    ∧ (∀ d, d ∈ ec_documents input → d ∈ sd_documents data ∨ doc_id d ∈ outstanding (sd_failures data))
    ∧ ∀ c, c ∈ ec_chunks input → chunk_processed items data c ∨ dc_document_id c ∈ outstanding (sd_failures data).
Proof.
  intros Hsa Hbatch Hin. unfold extract_graph_and_summarize.
  destruct (extract_graph_from_data _ _ _ _ input) as [graph|e] eqn:Hx; simpl; cycle 1.
  { intros ->. split; [by eexists|done]. }
  destruct (sa_integrate sa graph) as [[]|e]; simpl; cycle 1.
  { intros ->. split; [by eexists|done]. }
  intros (sz & Hs & ->). apply summarize_text_cover in Hs as (summarized & -> & Hs). simpl.
  split; [by eexists|]. intros data [= <-].
  apply extract_graph_cover in Hx as [Ho Hc Hd Hg]; [|by apply (so_batch items)|done|by apply Hin].
  unfold merge_graph_and_summaries. simpl. rewrite outstanding_absorb, outstanding_retain.
  split; [set_solver|]. split; [intros d Hd'; destruct (Hd d Hd'); [by left|right; set_solver]|].
  intros c Hc'. destruct (decide (dc_document_id c ∈ outstanding (xg_failures graph) ∪ outstanding (sz_failures summarized)))
    as [|Hno]; [by right|left]. apply not_elem_of_union in Hno as [Hno Hno'].
  destruct (Hc c Hc') as [Hsurv|]; [|done]. split; [done|]. intros Hdlt. split.
  { destruct (Hg c Hc' Hdlt) as [(g & Ha & Hin')|]; [|done]. by exists g. }
  intros (Hen & Hback & Htol). assert (Htodo : c ∈ filter (λ c, is_dlt_row c = false) (ec_chunks input))
    by by apply list_elem_of_filter.
  apply list_elem_of_lookup in Htodo as [i Hi].
  destruct (Hs Hen Hback Htol i c Hi) as [(c' & [_ Hc1]%list_elem_of_filter & Hid & Hout)|(content & Hcontent & Hsum)].
  - right. destruct (Hin c' Hc1) as (_ & d & cs & Hd1 & Hr & Hcs). exists d, cs, c'. split_and!; try done.
    + intros Heq. apply Hno'. by rewrite <-Heq.
    + simpl. rewrite outstanding_absorb, outstanding_retain. apply elem_of_union_r. exact Hout.
  - left. exists (summary_of_chunk uuid_to_string new_v5 (sa_env sa i) (sa_model sa) c content).
    split; [|by exists i, content]. apply list_elem_of_filter. split.
    + unfold attributable. simpl. apply elem_of_list_to_set, list_elem_of_fmap_2. done.
    + apply elem_of_app. left. exact Hsum.
Qed.

(** The tasks never panic, and what they report covers every item. *)
Lemma tasks_cover input r :
  sound_answers (ci_data_items input) → 0 < cc_chunks_per_batch config →
  cognify_tasks new_v5 config sa input r →
  is_Some r ∧ ∀ data, r = Some (Ok data) →
    is_fatal (failure_policy config) (sd_failures data) = false
    ∧ ∀ item, item ∈ ci_data_items input →
      item_processed (ci_data_items input) data (data_id item) ∨ data_id item ∈ outstanding (sd_failures data).
Proof.
  intros Hsa Hbatch. unfold cognify_tasks, extract_chunks_from_documents.
  set (cd := classify_stage _ _ _). destruct (sa_counter sa) as [counter|e] eqn:Hcnt; cycle 1.
  { intros ->. split; [by eexists|done]. }
  set (total := length (cd_documents cd) + _).
  destruct (chunk_loop_total (sa_chunk_one sa counter) (failure_policy config) total (cd_documents cd)
    (so_chunks _ Hsa counter) [] [] (cd_failures cd)) as [[ec|e] Hl]; rewrite Hl; cycle 1.
  { intros ->. split; [by eexists|done]. }
  intros (fused & Hf & ->). apply chunk_loop_chunked in Hl as [H1 H2 _ H4 H5].
  assert (Hrun : ∀ d cs, chunks_of (sa_chunk_one sa counter) d cs → run_chunks d cs) by (intros d cs ?; by exists counter).
  apply (fused_cover (ci_data_items input)) in Hf as [[fr Hfr] Hf]; [|done|done|]; cycle 1.
  { intros c Hc. apply H2 in Hc as [?%not_elem_of_nil|(d & cs & Hd & Hcs & Hc)]; [done|].
    split; [|exists d, cs; apply H1 in Hd as [?%not_elem_of_nil|Hd]; [done|auto]]. rewrite (so_document _ Hsa d cs c) by auto. by apply list_elem_of_fmap_2. }
  subst fused. simpl. destruct fr as [data|e]; [|split; [by eexists|done]]. split; [by eexists|].
  destruct (Hf data eq_refl) as (Ho & Hd & Hc). intros data' Hdata'.
  unfold add_data_points_task, end_of_run_gate in Hdata'. destruct (sa_add_data_points sa data) as [[]|]; [|done].
  simpl in Hdata'. destruct (is_fatal _ _) eqn:Hfatal; [done|]. simpl in Hdata'. injection Hdata' as <-.
  split; [done|]. intros item Hitem.
  destruct (classify_stage_outstanding (sa_classify sa) input (failure_policy config) item (so_classifies _ Hsa) Hitem)
    as [Hcl|Hcl]; [|right; apply Ho, H5, Hcl].
  apply list_elem_of_fmap in Hcl as (d & Hid & Hcl). rewrite Hid. apply H4 in Hcl as Hdone.
  destruct Hdone as [|(Hkept & cs & Hcs & Hsub)]; [right; by apply Ho|].
  assert (Hdid : doc_id d = doc_data_id d) by (exact (so_ids _ Hsa d Hcl)).
  destruct (decide (doc_data_id d ∈ outstanding (sd_failures data))) as [|Hno]; [by right|left].
  exists d, cs. split; [done|]. split; [done|]. split; [destruct (Hd d Hkept); [done|congruence]|].
  split; [by apply Hrun|]. intros c Hcin. destruct (Hc c) as [|Hbad]; [by apply Hsub|done|].
  destruct Hno. rewrite <-Hdid, <-(so_document _ Hsa d cs c); auto.
Qed.
End tasks.

(** ** The tasks of the pipeline are sound *)

Section pipeline.
Context `{UuidFormat, SerdeJson, Lowercase} (new_v5 : uuid → text → uuid) (config : CognifyConfig) {G : Type} (o : outside G).
Notation sa := (pipeline_answers new_v5 config o).

Lemma pipeline_answers_sound items : sound_answers sa items.
Proof.
  split; simpl.
  - apply classify_documents_classifies.
  - intros d ([i data] & _ & Hc)%list_elem_of_omap. apply classify_one_ids in Hc as [H1' H2']. unfold doc_id. congruence.
  - intros counter d. edestruct chunk_one_document_mine as (r & -> & _). by eexists.
  - intros d cs c (counter & _ & count & Hc) Hin. simpl in Hc.
    edestruct chunk_one_document_mine as (r & Hr & Hf). rewrite Hr in Hc. injection Hc as ->.
    specialize (Hf cs count eq_refl). rewrite Forall_forall in Hf. by destruct (Hf c Hin).
  - destruct (os_backend o); [apply backend_batch_answers_all|apply llm_batch_answers_all].
Qed.
End pipeline.

(** ** Markers *)

Section markers.
Context `{UuidFormat, SerdeJson, Lowercase} (new_v5 : uuid → string → uuid).
Context `{!UuidFormatLaws, !SerdeJsonLaws} (env : rollback_env) {R : Type} `{PipelineRunRepository R}.

Lemma completed_on_run_failed ctx error recorded st (repo : R) d s :
  completed (st_data (on_run_failed new_v5 env ctx error recorded st repo).1) d s → completed (st_data st) d s.
Proof.
  unfold on_run_failed. simpl. destruct (decide_sweep _ _); [done| |done].
  destruct (rc_pipeline_run_id ctx) as [run_id|]; [|done].
  apply (completed_ctx_sweep new_v5 env (whole_run run_id (rc_dataset_id ctx)) st d s).
Qed.

(** The markers after a completed run. *)
Lemma completed_run_iff ctx report st d s :
  completed (st_data (on_run_completed new_v5 env ctx report st)) d s ↔
  completed (st_data (after_sweep new_v5 env ctx report st)) d s
  ∨ (rc_incremental_loading ctx = true ∧ s = rc_dataset_id ctx ∧ (d ∉ outstanding report ∧ d ∈ rc_processed ctx)
     ∧ mark_takes env d ∧ is_Some (st_data (after_sweep new_v5 env ctx report st) !! d)).
Proof.
  pose proof (completed_mark_complete env ctx (filter (λ id, id ∉ outstanding_items report) (rc_processed ctx))
    (after_sweep new_v5 env ctx report st) d s) as Hm.
  rewrite list_elem_of_filter, elem_of_outstanding in Hm. exact Hm.
Qed.

Lemma completed_on_run_completed ctx report st d s :
  completed (st_data (on_run_completed new_v5 env ctx report st)) d s →
  completed (st_data st) d s ∨ (s = rc_dataset_id ctx ∧ d ∈ rc_processed ctx ∧ d ∉ outstanding report).
Proof.
  intros Hc%completed_run_iff. destruct (completed_after_sweep new_v5 env ctx report st d s) as (Hdown & _ & _).
  naive_solver.
Qed.

(** Every item of a run without failures becomes marked. *)
Lemma marked_on_run_completed ctx report st d :
  rc_incremental_loading ctx = true → outstanding report = ∅ → d ∈ rc_processed ctx → mark_takes env d →
  is_Some (st_data st !! d) → completed (st_data (on_run_completed new_v5 env ctx report st)) d (rc_dataset_id ctx).
Proof.
  intros Hinc Hout Hin Hm Hrow. apply completed_run_iff. right.
  destruct (completed_after_sweep new_v5 env ctx report st d (rc_dataset_id ctx)) as (_ & _ & Hr).
  rewrite Hr, Hout. by split_and!.
Qed.

Lemma kept_on_run_completed ctx report st d s :
  outstanding report = ∅ → completed (st_data st) d s →
  completed (st_data (on_run_completed new_v5 env ctx report st)) d s.
Proof.
  intros Hout Hc. apply completed_run_iff. left.
  destruct (completed_after_sweep new_v5 env ctx report st d s) as (_ & Hkeep & _). apply Hkeep; [done|].
  rewrite elem_of_outstanding. fold (outstanding report). rewrite Hout. set_solver.
Qed.
End markers.

(** ** Theorems *)

Section run.
Context `{UuidFormat, SerdeJson, Lowercase} (new_v5 : uuid → text → uuid).
Notation new_v5_str := (λ namespace s, new_v5 namespace (ascii s)).


Context `{!UuidFormatLaws, !SerdeJsonLaws} {R : Type} `{PipelineRunRepository R}.
Context (config : CognifyConfig) {G : Type} (o : outside G).
Context (tasks : CognifyInput → stores → result (nat * CognifyError) (SummarizedData G) * stores)
  (teardown : SummarizedData G → stores → result CognifyError () * stores).

(** The tasks are those of the pipeline, and neither they nor the teardown write
    completion markers or remove items. *)
Record realizes : Prop := {
  rt_tasks : ∀ input st, cognify_tasks new_v5_str config (pipeline_answers new_v5 config o) input (Some (tasks input st).1);
  rt_marks : ∀ input st d s, completed (st_data (tasks input st).2) d s ↔ completed (st_data st) d s;
  rt_rows : ∀ input st (d : uuid), is_Some (st_data (tasks input st).2 !! d) ↔ is_Some (st_data st !! d);
  rt_teardown_marks : ∀ data st d s, completed (st_data (teardown data st).2) d s ↔ completed (st_data st) d s;
  rt_teardown_rows : ∀ data st (d : uuid), is_Some (st_data (teardown data st).2 !! d) ↔ is_Some (st_data st !! d);
}.

Lemma conclude_run_ok env run (tasked : result (nat * CognifyError) (SummarizedData G)) (watcher : RunIdCapturingWatcher R) data :
  (conclude_run env run tasked watcher).1 = Ok data → tasked = Ok data.
Proof.
  unfold conclude_run. cbn [fst]. destruct tasked as [data'|[i e]]; [|done].
  destruct (dw_on_run_completed _ _ _) as [? []]; [congruence|done].
Qed.

(** The two ways a run over items ends. *)
Lemma run_items_cases env who items (w : run_world R) :
  let '(res, w') := run_items new_v5_str env who tasks teardown config items w in
  let '(tasked, st) := tasks {| ci_data_items := items; ci_dataset_id := ca_dataset_id who;
                                ci_user_id := ca_user_id who; ci_tenant_id := ca_tenant_id who |} (rw_stores w) in
  (∃ e, res = Err e ∧ ∃ ctx recorded st1 (repo : R), (st1 = st ∨ ∃ data, st1 = (teardown data st).2)
     ∧ rw_stores w' = (on_run_failed new_v5_str (cv_rollback env) ctx e recorded st1 repo).1)
  ∨ ∃ data r ctx, res = Ok r ∧ tasked = Ok data ∧ cr_failures r = sd_failures data ∧ cr_already_completed r = false
     ∧ rc_dataset_id ctx = ca_dataset_id who ∧ rc_processed ctx = map data_id items
     ∧ rc_incremental_loading ctx = cc_incremental_loading config
     ∧ rw_stores w' = on_run_completed new_v5_str (cv_rollback env) ctx (sd_failures data) (teardown data st).2.
Proof.
  unfold run_items. set (input := Build_CognifyInput _ _ _ _).
  destruct (acquire_ownership env (cc_run_ownership_dir config) (rw_markers w)) as [m ownership].
  destruct (tasks input (rw_stores w)) as [tasked st].
  destruct (conclude_run env _ tasked _) as [executed watcher] eqn:Hc.
  destruct executed as [data|e]; cycle 1.
  { destruct (on_run_failed _ _ _ _ _ _ _) as [st1 repo] eqn:Hf. left. exists e. split; [done|].
    exists (run_context who config (map data_id items) watcher), true, st, (dw_repo (cw_inner watcher)).
    split; [by left|]. by rewrite Hf. }
  destruct (teardown data st) as [[[]|e] st1] eqn:Ht; cycle 1.
  { destruct (on_run_failed _ _ _ _ _ _ _) as [st2 repo] eqn:Hf. left. exists e. split; [done|].
    exists (run_context who config (map data_id items) watcher), false, st1, (dw_repo (cw_inner watcher)).
    split; [right; exists data; by rewrite Ht|]. by rewrite Hf. }
  right. exists data. eexists. exists (run_context who config (map data_id items) watcher). split; [done|].
  split; [exact (conclude_run_ok _ _ _ _ _ (f_equal fst Hc))|]. rewrite Ht. by split_and!.
Qed.

(** C2: An item becomes marked complete only when it was processed.  The tasks are those
    of the pipeline under a valid configuration, and neither they nor the teardown
    touch markers: if a run leaves a completion marker that was not there, then the
    run returned without error, the marker is of its dataset, the item is one of its
    items, is neither listed as failed nor as never reached, and every stage processed
    it - each of its chunks is kept and, unless a DLT row, has its graph and, when the
    run must summarize, its summary or, where a chunk of another file has the same
    id, that other file listed in its place. *)
Theorem marked_only_if_processed env who items (w : run_world R) d s :
  valid_config config → realizes →
  let '(res, w') := cognify_in_scope new_v5_str env who tasks teardown (Ok config) items w in
  completed (st_data (rw_stores w')) d s → ¬ completed (st_data (rw_stores w)) d s →
  s = ca_dataset_id who ∧ ∃ r data remaining, res = Ok r ∧ cr_failures r = sd_failures data
    ∧ d ∉ outstanding (cr_failures r) ∧ remaining `sublist_of` items
    ∧ item_processed new_v5_str config (pipeline_answers new_v5 config o) remaining data d.
Proof.
  intros Hv Hr.
  assert (Hrun : ∀ remaining, remaining `sublist_of` items →
    let '(res, w') := run_items new_v5_str env who tasks teardown config remaining w in
    completed (st_data (rw_stores w')) d s → ¬ completed (st_data (rw_stores w)) d s →
    s = ca_dataset_id who ∧ ∃ r data remaining, res = Ok r ∧ cr_failures r = sd_failures data
      ∧ d ∉ outstanding (cr_failures r) ∧ remaining `sublist_of` items
      ∧ item_processed new_v5_str config (pipeline_answers new_v5 config o) remaining data d).
  { intros remaining Hsub. pose proof (run_items_cases env who remaining w) as Hcases.
    destruct (run_items _ _ _ _ _ _ _ _) as [res w'].
    set (input := Build_CognifyInput _ _ _ _) in *. pose proof (rt_tasks Hr input (rw_stores w)) as Ht.
    pose proof (rt_marks Hr input (rw_stores w) d s) as Hm.
    destruct (tasks input (rw_stores w)) as [tasked st]. simpl in *.
    destruct Hcases as [(e & -> & ctx & recorded & st1 & repo & Hst1 & ->)|
      (data & r & ctx & -> & -> & Hrf & _ & Hds & Hp & _ & ->)]; intros Hc Hno.
    - apply (completed_on_run_failed _ (cv_rollback env) ctx e recorded st1 repo) in Hc.
      destruct Hno. rewrite <-Hm. destruct Hst1 as [->|[data ->]]; [done|]. by apply (rt_teardown_marks Hr) in Hc.
    - apply (completed_on_run_completed new_v5_str (cv_rollback env) ctx (sd_failures data) (teardown data st).2 d s)
        in Hc as [Hc|(-> & Hin & Hout)].
      + destruct Hno. rewrite <-Hm. by apply (rt_teardown_marks Hr) in Hc.
      + split; [done|]. exists r, data, remaining. rewrite Hrf. split_and!; try done.
        rewrite Hp in Hin. apply list_elem_of_fmap in Hin as (item & -> & Hitem).
        apply tasks_cover in Ht as [_ Ht]; [|by apply pipeline_answers_sound|by apply vc_batch].
        destruct (Ht data eq_refl) as [_ Hall]. by destruct (Hall item Hitem). }
  unfold cognify_in_scope. case_decide; [done|].
  destruct (if cc_incremental_loading config then _ else _) as [remaining|e] eqn:Hrem; [|done].
  assert (Hsub : remaining `sublist_of` items).
  { destruct (cc_incremental_loading config); [|by simplify_eq]. unfold drop_already_complete in Hrem.
    destruct (cv_markers_fault env); [done|]. simpl in Hrem. case_decide; simplify_eq; [done|].
    apply sublist_filter. }
  destruct remaining as [|item remaining]; [|by apply Hrun].
  unfold nothing_to_do. destruct (cv_latest_run env); [|done].
  unfold record_run_without_work. destruct (acquire_ownership _ _ _) as [m ownership].
  destruct (dw_on_run_completed _ _ _) as [watcher [[]|e]]; done.
Qed.
#[local] Instance completed_dec table d s : Decision (completed table d s).
Proof.
  destruct (decide (d ∈ get_cognify_completed_data_ids s [d] table)) as [Hin|Hno].
  - left. by apply elem_of_completed_ids in Hin as [_ ?].
  - right. intros Hc. apply Hno, elem_of_completed_ids. split; [by left|done].
Qed.

(** What [drop_already_complete] leaves. *)
Lemma remaining_iff dataset_id (items remaining : list Data) table :
  drop_already_complete None dataset_id items table = Ok remaining →
  ∀ item, item ∈ remaining ↔ item ∈ items ∧ ¬ completed table (data_id item) dataset_id.
Proof.
  unfold drop_already_complete. simpl. set (ids := get_cognify_completed_data_ids _ _ _).
  assert (Hin : ∀ item, item ∈ items → data_id item ∈ ids ↔ completed table (data_id item) dataset_id).
  { intros item Hi. unfold ids. rewrite elem_of_completed_ids. split; [tauto|]. intros Hc. split; [|done].
    by apply list_elem_of_fmap_2. }
  case_decide as He; intros [= <-] item.
  - split; [|tauto]. intros Hi. split; [done|]. rewrite <-(Hin item Hi), He. set_solver.
  - rewrite list_elem_of_filter. split; intros [Ha Hb]; (split; [done|]) || (split; [|done]); by rewrite ?Hin in * by done.
Qed.

(** Nothing is left of items that are all marked. *)
Lemma cognify_all_marked env who items (w : run_world R) :
  cc_incremental_loading config = true → cv_markers_fault env = None → items ≠ [] →
  (∀ item, item ∈ items → completed (st_data (rw_stores w)) (data_id item) (ca_dataset_id who)) →
  cognify_in_scope new_v5_str env who tasks teardown (Ok config) items w = nothing_to_do new_v5_str env who config w.
Proof.
  intros Hinc Hf Hne Hall. unfold cognify_in_scope. rewrite decide_False by done. rewrite Hinc, Hf.
  destruct (drop_already_complete _ _ _ _) as [remaining|e] eqn:Hd; [|by unfold drop_already_complete in Hd; simpl in Hd; case_decide].
  destruct remaining as [|item remaining]; [done|].
  destruct (proj1 (remaining_iff _ _ _ _ Hd item) ltac:(left)) as [Hin Hno]. by destruct Hno; apply Hall.
Qed.

Lemma nothing_to_do_stores env who (w : run_world R) :
  let '(res, w') := nothing_to_do new_v5_str env who config w in
  rw_stores w' = rw_stores w ∧ ∀ r, res = Ok r → cr_already_completed r = true ∧ cr_failures r = FailureReport_default.
Proof.
  unfold nothing_to_do. destruct (cv_latest_run env); [|done].
  unfold record_run_without_work. destruct (acquire_ownership _ _ _) as [m ownership].
  destruct (dw_on_run_completed _ _ _) as [watcher [[]|e]]; (split; [done|]); by intros r [= <-].
Qed.

(** The rows of a run without work. *)
Definition idle_row (env : cognify_env) (who : caller) (status : DbStatus) (info : json) : PipelineRunEntry :=
  entry_of (cognify_run_info new_v5_str env who None) status info.
Definition idle_started (env : cognify_env) (who : caller) (dir : option string) : PipelineRunEntry :=
  idle_row env who DbStarted (run_info_for_started uuid_to_string
    (if cv_marker_io env && bool_decide (is_Some dir) then Some (cv_token env) else None)).
Definition idle_completed (env : cognify_env) (who : caller) : PipelineRunEntry :=
  idle_row env who DbCompleted run_info_for_completed.

Lemma nothing_to_do_rows `{!RepositoryLaws R} env who (w : run_world R) :
  let started := idle_started env who (cc_run_ownership_dir config) in
  let completed := idle_completed env who in
  let '(res, w') := nothing_to_do new_v5_str env who config w in
  ∃ new, rows (rw_repo w') = rows (rw_repo w) ++ new
    ∧ match res with
      | Ok r => cr_already_completed r = true ∧ cr_pipeline_run_id r = Some (re_run_id (cv_run env))
                ∧ (new = [started; completed] ∨ new = [completed])
      | Err _ => ∃ e, new `sublist_of` [started; idle_row env who DbErrored (run_info_for_errored e)]
      end
    ∧ ((∀ e repo, (log_pipeline_run_entry e repo).2 = Ok tt) → is_ok (cv_latest_run env) = true →
       is_ok res = true ∧ new = [started; completed]).
Proof.
  cbv zeta. unfold nothing_to_do. destruct (cv_latest_run env) as [latest|e]; cycle 1.
  { exists []. rewrite app_nil_r. split; [done|]. split; [exists ""; apply sublist_nil_l|done]. }
  unfold record_run_without_work.
  assert (Hlock : (acquire_ownership env (cc_run_ownership_dir config) (rw_markers w)).2 ≫= own_token
    = if cv_marker_io env && bool_decide (is_Some (cc_run_ownership_dir config)) then Some (cv_token env) else None).
  { unfold acquire_ownership, own_acquire. destruct (cc_run_ownership_dir config), (cv_marker_io env); done. }
  destruct (acquire_ownership env (cc_run_ownership_dir config) (rw_markers w)) as [m ownership].
  simpl in Hlock. rewrite Hlock. clear Hlock. set (lock := if _ && _ then _ else _).
  set (run := cognify_run_info _ _ _ lock).
  unfold dw_on_run_started, dw_on_run_completed, dw_on_run_errored, DbPipelineWatcher_new. simpl.
  change (entry_of run DbStarted (run_info_for_started uuid_to_string lock))
    with (idle_started env who (cc_run_ownership_dir config)).
  change (entry_of (ri_finish Completed (re_completed_at (cv_run env)) run) DbCompleted run_info_for_completed)
    with (idle_completed env who).
  destruct (log_cases (idle_started env who (cc_run_ownership_dir config)) (rw_repo w)) as (r1 & o1 & E1 & HL1).
  rewrite E1. simpl. destruct (log_cases (idle_completed env who) r1) as (r2 & [[]|e2] & E2 & HL2); rewrite E2; simpl.
  - eexists. rewrite HL2, HL1, <-app_assoc. split; [done|]. split; [split_and!; try done; destruct o1; [by left|by right]|].
    intros Hall _. specialize (Hall (idle_started env who (cc_run_ownership_dir config)) (rw_repo w)).
    rewrite E1 in Hall. simpl in Hall. by rewrite Hall.
  - change (entry_of (ri_finish Errored (re_completed_at (cv_run env)) run) DbErrored (run_info_for_errored e2))
      with (idle_row env who DbErrored (run_info_for_errored e2)).
    destruct (log_cases (idle_row env who DbErrored (run_info_for_errored e2)) r2) as (r3 & o3 & -> & HL3).
    assert (Hno : (∀ e repo, (log_pipeline_run_entry e repo).2 = Ok tt) → False)
      by (intros Hall; specialize (Hall (idle_completed env who) r1); by rewrite E2 in Hall).
    destruct o3; simpl; eexists; rewrite HL3, HL2, HL1, app_nil_r, <-app_assoc; (split; [done|]);
      (split; [|by intros ?%Hno]); exists e2; destruct o1; simpl; repeat constructor.
Qed.

(** C5: Cognifying again is a no-op on the stores.  After a run, with incremental loading
    and a marker query that answers, that returned and left no item out, the items
    having their rows and every marker write having taken, a second run over the same
    items, whatever it finds around it, leaves the stores as they are.  It is not
    silent in the table of runs: if it returns, it says that everything was already
    complete, names its run, and has added its own COMPLETED row after its STARTED row
    (or without one the table refused); if it fails it has added at most a STARTED
    and an ERRORED row; and it returns, with exactly the pair, whenever the table takes
    every row and the query for the latest run answers. *)
Theorem rerun_is_noop `{!RepositoryLaws R} env env' who items (w : run_world R) :
  realizes → items ≠ [] → cc_incremental_loading config = true → cv_markers_fault env = None →
  cv_markers_fault env' = None → (∀ item, item ∈ items →
    mark_takes (cv_rollback env) (data_id item) ∧ is_Some (st_data (rw_stores w) !! data_id item)) →
  let '(res, w1) := cognify_in_scope new_v5_str env who tasks teardown (Ok config) items w in
  ∀ r, res = Ok r → outstanding (cr_failures r) = ∅ →
  let '(res', w2) := cognify_in_scope new_v5_str env' who tasks teardown (Ok config) items w1 in
  let started := idle_started env' who (cc_run_ownership_dir config) in
  let completed := idle_completed env' who in
  rw_stores w2 = rw_stores w1
  ∧ ∃ new, rows (rw_repo w2) = rows (rw_repo w1) ++ new
    ∧ match res' with
      | Ok r' => cr_already_completed r' = true ∧ cr_pipeline_run_id r' = Some (re_run_id (cv_run env'))
                 ∧ (new = [started; completed] ∨ new = [completed])
      | Err _ => ∃ e, new `sublist_of` [started; idle_row env' who DbErrored (run_info_for_errored e)]
      end
    ∧ ((∀ e repo, (log_pipeline_run_entry e repo).2 = Ok tt) → is_ok (cv_latest_run env') = true →
       is_ok res' = true ∧ new = [started; completed]).
Proof.
  intros Hr Hne Hinc Hf Hf' Hitems.
  destruct (cognify_in_scope _ env _ _ _ _ _ _) as [res w1] eqn:Hrun. intros r -> Hout.
  assert (Hall : ∀ item, item ∈ items → completed (st_data (rw_stores w1)) (data_id item) (ca_dataset_id who)).
  { intros item Hin. unfold cognify_in_scope in Hrun. rewrite decide_False in Hrun by done. rewrite Hinc, Hf in Hrun.
    destruct (drop_already_complete _ _ _ _) as [remaining|e] eqn:Hd; [|done].
    pose proof (remaining_iff _ _ _ _ Hd item) as Hrem. destruct remaining as [|i0 remaining].
    - pose proof (nothing_to_do_stores env who w) as Hnt. rewrite Hrun in Hnt. destruct Hnt as [-> _].
      destruct (decide (completed (st_data (rw_stores w)) (data_id item) (ca_dataset_id who))) as [|Hno]; [done|].
      by destruct (not_elem_of_nil item); apply Hrem.
    - pose proof (run_items_cases env who (i0 :: remaining) w) as Hcases. rewrite Hrun in Hcases.
      set (input := Build_CognifyInput _ _ _ _) in *. set (ds := ca_dataset_id who) in *.
      pose proof (rt_marks Hr input (rw_stores w) (data_id item) ds) as Hm.
      pose proof (rt_rows Hr input (rw_stores w) (data_id item)) as Hrow.
      destruct (tasks input (rw_stores w)) as [tasked st]. simpl in Hm, Hrow.
      destruct Hcases as [(e & ? & _)|(data & r' & ctx & [= <-] & _ & Hrf & _ & Hds & Hp & Hi & ->)]; [done|].
      rewrite Hrf in Hout. rewrite <-Hds.
      destruct (decide (completed (st_data (rw_stores w)) (data_id item) ds)) as [Hc|Hno].
      + apply (kept_on_run_completed new_v5_str (cv_rollback env)); [done|]. apply (rt_teardown_marks Hr). by rewrite Hds, Hm.
      + apply (marked_on_run_completed new_v5_str (cv_rollback env)); [by rewrite Hi|done| |by apply Hitems|].
        * rewrite Hp. apply list_elem_of_fmap_2. by apply Hrem.
        * apply (rt_teardown_rows Hr), Hrow, Hitems, Hin. }
  rewrite cognify_all_marked by done. pose proof (nothing_to_do_stores env' who w1) as Hnt.
  pose proof (nothing_to_do_rows env' who w1) as Hrows.
  destruct (nothing_to_do _ _ _ _ _) as [res' w2]. destruct Hnt as [Hs _]. by split.
Qed.

(** A row of the run. *)
Definition of_run (env : cognify_env) (who : caller) (e : PipelineRunEntry) : Prop :=
  pe_pipeline_run_id e = re_run_id (cv_run env) ∧ pe_dataset_id e = Some (ca_dataset_id who).

(** What the watcher has written when the run is over. *)
Lemma conclude_run_rows `{!RepositoryLaws R} env who lock
    (tasked : result (nat * CognifyError) (SummarizedData G)) (repo : R) :
  let run := cognify_run_info new_v5_str env who lock in
  let watcher := (conclude_run env run tasked (cw_on_run_started uuid_to_string run (RunIdCapturingWatcher_new repo))).2 in
  cw_captured watcher = Some (re_run_id (cv_run env), ri_pipeline_id run)
  ∧ ∃ new, rows (dw_repo (cw_inner watcher)) = rows repo ++ new ∧ Forall (of_run env who) new
    ∧ if terminal_write_failed watcher then Forall (λ e, is_terminal (pe_status e) = false) new
      else Exists (λ e, is_terminal (pe_status e) = true) new.
Proof.
  cbv zeta. set (run := cognify_run_info _ _ _ lock). split; [done|].
  unfold conclude_run, cw_conclude, cw_on_run_started, RunIdCapturingWatcher_new, terminal_write_failed. simpl.
  set (ended := match tasked with Ok _ => Ok 1 | Err _ => _ end).
  set (started := dw_on_run_started uuid_to_string run (DbPipelineWatcher_new repo)).
  assert (Hs : dw_terminal_write_failed started = false ∧ ∃ new, rows (dw_repo started) = rows repo ++ new
    ∧ Forall (of_run env who) new ∧ Forall (λ e, is_terminal (pe_status e) = false) new).
  { unfold started, dw_on_run_started. simpl.
    destruct (log_cases (entry_of run DbStarted (run_info_for_started uuid_to_string lock)) repo)
      as (repo' & [[]|e] & -> & Hrows); simpl; (split; [done|]); eexists; (split; [exact Hrows|]); by repeat constructor. }
  destruct Hs as (Hf & new & Hnew & Hof & Hnt). clearbody started.
  pose proof (dw_conclude_rows (cv_run env) run ended started Hf) as Hc. cbv zeta in Hc.
  destruct (dw_terminal_write_failed (dw_conclude _ _ _ _)) eqn:Hfail.
  - exists new. by rewrite Hc.
  - destruct Hc as (e & Hrows & Hid & Hds & Hterm & _). exists (new ++ [e]). rewrite Hrows, Hnew, <-app_assoc.
    split; [done|]. split; [|apply Exists_app; right; by constructor].
    apply Forall_app. split; [done|]. constructor; [|done]. split; [by rewrite Hid|by rewrite Hds].
Qed.

(** A run whose terminal row was refused has failed. *)
Lemma conclude_run_failed env run (tasked : result (nat * CognifyError) (SummarizedData G)) (watcher : RunIdCapturingWatcher R) :
  terminal_write_failed watcher = false →
  let '(executed, watcher') := conclude_run env run tasked watcher in
  is_ok executed = true → terminal_write_failed watcher' = false.
Proof.
  intros Hw. unfold conclude_run, cw_conclude, terminal_write_failed, dw_conclude in *. simpl.
  destruct tasked as [data|[i e]]; [|done].
  unfold dw_on_run_completed. destruct (log_pipeline_run_entry _ _) as [repo' [[]|e]]; done.
Qed.

(** What is left of the run's marker: with a directory and its file created, gone once
    the run is closed, and otherwise there without a holder. *)
Definition marker_left (env : cognify_env) (dir : option string) (closed : bool) (m : gmap uuid bool) : gmap uuid bool :=
  match dir with
  | None => m
  | Some _ => if cv_marker_io env && negb closed then <[cv_token env := false]> m else delete (cv_token env) m
  end.

(** What the end of a run leaves: its rows, one of them terminal and the marker gone,
    or none of them, an error and the marker. *)
Definition recorded {A} (env : cognify_env) (who : caller) (dir : option string) (res : result CognifyError A)
    (w w' : run_world R) : Prop :=
  ∃ new, rows (rw_repo w') = rows (rw_repo w) ++ new ∧ Forall (of_run env who) new
    ∧ ((Exists (λ e, is_terminal (pe_status e) = true) new ∧ rw_markers w' = marker_left env dir true (rw_markers w))
       ∨ (Forall (λ e, is_terminal (pe_status e) = false) new ∧ is_ok res = false
          ∧ rw_markers w' = marker_left env dir false (rw_markers w))).

Lemma end_ownership_left env dir failed (m : gmap uuid bool) :
  let '(m', ownership) := acquire_ownership env dir m in
  end_ownership failed ownership m' = marker_left env dir (negb failed) m.
Proof.
  unfold acquire_ownership, own_acquire, marker_left, end_ownership, own_drop, own_release.
  destruct dir as [d|]; [|done]. destruct (cv_marker_io env), failed; simpl; try done.
  - by rewrite alter_insert_eq.
  - by rewrite alter_insert_eq, delete_insert_eq.
Qed.

(** A run over items is recorded. *)
Lemma run_items_recorded `{!RepositoryLaws R} env who items (w : run_world R) :
  let '(res, w') := run_items new_v5_str env who tasks teardown config items w in
  recorded env who (cc_run_ownership_dir config) res w w'.
Proof.
  unfold run_items.
  set (input := Build_CognifyInput _ _ _ _).
  pose proof (λ failed, end_ownership_left env (cc_run_ownership_dir config) failed (rw_markers w)) as Hmark.
  destruct (acquire_ownership env (cc_run_ownership_dir config) (rw_markers w)) as [m ownership].
  set (run := cognify_run_info _ _ _ _).
  destruct (tasks input (rw_stores w)) as [tasked st].
  pose proof (conclude_run_rows env who (ownership ≫= own_token) tasked (rw_repo w)) as Hc. cbv zeta in Hc.
  change (cognify_run_info new_v5_str env who (ownership ≫= own_token)) with run in Hc.
  assert (Hstart : terminal_write_failed (cw_on_run_started uuid_to_string run (RunIdCapturingWatcher_new (rw_repo w))) = false).
  { unfold terminal_write_failed, cw_on_run_started, dw_on_run_started. simpl. by destruct (log_pipeline_run_entry _ _). }
  pose proof (conclude_run_failed env run tasked _ Hstart) as Hok.
  destruct (conclude_run env run tasked _) as [executed watcher]. simpl in Hc, Hok.
  destruct Hc as (Hcap & new & Hrows & Hof & Hterm).
  rewrite Hmark. clear Hmark. unfold recorded.
  destruct executed as [data|e]; [destruct (teardown data st) as [[[]|e] st1]|].
  - rewrite Hok in Hterm by done. rewrite Hok by done. exists new. split; [done|]. split; [done|]. by left.
  - rewrite Hok in Hterm by done. rewrite Hok by done. unfold on_run_failed, append_run_row, run_context. simpl.
    unfold run_id, Rollback.pipeline_id. rewrite Hcap. simpl.
    set (entry := Build_PipelineRunEntry _ _ _ _ _ _ _).
    destruct (log_cases entry (dw_repo (cw_inner watcher))) as (repo' & [[]|msg] & -> & Hlog); simpl.
    + exists (new ++ [entry]). rewrite Hlog, Hrows, <-app_assoc. split; [done|]. split.
      * apply Forall_app. split; [done|]. by repeat constructor.
      * left. split; [|done]. apply Exists_app. by left.
    + exists new. rewrite Hlog, Hrows, app_nil_r. split; [done|]. split; [done|]. by left.
  - simpl. exists new. split; [done|]. split; [done|]. destruct (terminal_write_failed watcher); [by right|by left].
Qed.

(** The run of a call that finds every item marked is recorded. *)
Lemma record_without_work_recorded `{!RepositoryLaws R} env who dir (w : run_world R) :
  let '(res, w') := record_run_without_work new_v5_str env who dir w in
  recorded env who dir res w w' ∧ rw_stores w' = rw_stores w.
Proof.
  unfold record_run_without_work. pose proof (λ failed, end_ownership_left env dir failed (rw_markers w)) as Hmark.
  destruct (acquire_ownership env dir (rw_markers w)) as [m ownership].
  set (run := cognify_run_info _ _ _ _).
  unfold dw_on_run_started, dw_on_run_completed, dw_on_run_errored, DbPipelineWatcher_new. simpl.
  destruct (log_cases (entry_of run DbStarted (run_info_for_started uuid_to_string (ownership ≫= own_token))) (rw_repo w))
    as (r1 & o1 & -> & HL1). simpl.
  destruct (log_cases (entry_of (ri_finish Completed (re_completed_at (cv_run env)) run) DbCompleted run_info_for_completed) r1)
    as (r2 & [[]|e2] & -> & HL2); simpl; [split; [|done]|].
  - rewrite Hmark. eexists. simpl. rewrite HL2, HL1, <-app_assoc. split; [done|].
    split; [|left; split; [|done]].
    + apply Forall_app. split; [by destruct o1; repeat constructor|by repeat constructor].
    + apply Exists_app. right. by repeat constructor.
  - destruct (log_cases (entry_of (ri_finish Errored (re_completed_at (cv_run env)) run) DbErrored (run_info_for_errored e2)) r2)
      as (r3 & [[]|e3] & -> & HL3); simpl; (split; [|done]); rewrite Hmark; eexists; simpl;
      rewrite HL3, HL2, HL1, app_nil_r, <-?app_assoc; (split; [done|]); (split;
        [apply Forall_app; split; [by destruct o1; repeat constructor|by repeat constructor]|]).
    + left. split; [|done]. apply Exists_app. right. by repeat constructor.
    + right. split; [|done]. apply Forall_app. split; [by destruct o1; repeat constructor|done].
Qed.

End run.

(** ** Every call is recorded *)

Section record.
Context `{UuidFormat, SerdeJson, Lowercase} (new_v5 : uuid → text → uuid).
Context {R : Type} `{PipelineRunRepository R} `{!RepositoryLaws R} {G : Type}.
Context (tasks : CognifyInput → stores → result (nat * CognifyError) (SummarizedData G) * stores)
  (teardown : SummarizedData G → stores → result CognifyError () * stores).

(** The call reaches a run: its configuration resolves, it was given items, the marker
    query answers and, when every item is marked, so does that of the latest run. *)
Definition starts_run (env : cognify_env) (who : caller) (resolved : result ConfigError CognifyConfig)
    (items : list Data) (w : run_world R) : bool :=
  match resolved with
  | Err _ => false
  | Ok config =>
      negb (bool_decide (items = [])) &&
      match (if cc_incremental_loading config
             then drop_already_complete (cv_markers_fault env) (ca_dataset_id who) items (st_data (rw_stores w))
             else Ok items) with
      | Err _ => false
      | Ok [] => is_ok (cv_latest_run env)
      | Ok _ => true
      end
  end.

(** C4: A run that is over left a record of it.  [cognify_in_scope], whatever it is
    asked, whatever the tasks do, however the run ends and whichever of its rows the
    table refuses: a call that reaches no run changes nothing, and returns an error or
    the empty result.  One that does - over the items left, or for none because all
    are marked - adds only rows of this run and dataset; either one of them is
    terminal and the run's ownership marker is gone, or none is, the call returned an
    error, and the marker, if it could be created, stays without a holder for startup
    recovery to claim. *)
Theorem run_ends_recorded env who resolved items (w : run_world R) :
  let '(res, w') := cognify_in_scope (λ namespace s, new_v5 namespace (ascii s)) env who tasks teardown resolved items w in
  if starts_run env who resolved items w
  then ∃ config, resolved = Ok config ∧ recorded env who (cc_run_ownership_dir config) res w w'
  else w' = w ∧ (is_ok res = false ∨ res = Ok CognifyResult_empty).
Proof.
  unfold cognify_in_scope, starts_run. destruct resolved as [config|e]; [|split; [done|by left]].
  case_decide as Hitems; [rewrite bool_decide_eq_true_2 by done; simpl; split; [done|by right]|].
  rewrite bool_decide_eq_false_2 by done. simpl.
  destruct (if cc_incremental_loading config then _ else _) as [[|item remaining]|e]; [| |split; [done|by left]].
  - unfold nothing_to_do. destruct (cv_latest_run env) as [latest|e]; simpl; [|split; [done|by left]].
    pose proof (record_without_work_recorded new_v5 env who (cc_run_ownership_dir config) w) as Hrec.
    destruct (record_run_without_work _ _ _ _ _) as [[id|e] w']; exists config; (split; [done|]); apply Hrec.
  - pose proof (run_items_recorded new_v5 config tasks teardown env who (item :: remaining) w) as Hrec.
    destruct (run_items _ _ _ _ _ _ _ _) as [res w']. by exists config.
Qed.
End record.
