(* ===== verification/CognifyRunExample.v ===== *)
(** * Examples of cognify runs

    Runs over two text files, computed: the theorems of [CognifyRunFacts] applied to
    them. *)

From S2P Require Import Prelude Json Strings Text TokenCounter DataPoint Models Markers Ledger Artifacts Sweep SweepSpec.
From S2P Require Import Pipeline RunRecords Recovery Classify Failure Config Rollback Summarize Loaders ChunkDocument TextChunker.
From S2P Require Import ChunkBySentence CognifyStages CognifyStagesFacts CognifyRun CognifyRunFacts.
#[local] Open Scope nat_scope.

(** ** Runs that do not summarize *)

Section quiet.
Context `{UuidFormat, SerdeJson, Lowercase} (new_v5 : uuid → text → uuid) (config : CognifyConfig) {G : Type} (o : outside G).
Notation sa := (pipeline_answers new_v5 config o).
Notation new_v5_str := (λ namespace s, new_v5 namespace (ascii s)).

(** The tasks, when summarization is off. *)
Definition quiet_tasks (input : CognifyInput) : option (result (nat * CognifyError) (SummarizedData G)) :=
  chunked ← extract_chunks_from_documents (sa_counter sa) (sa_chunk_one sa) (failure_policy config)
              (classify_stage (sa_classify sa) input (failure_policy config));
  match chunked with
  | Err e => Some (Err (1, e))
  | Ok chunks =>
      match result_bind (extract_graph_from_data (sa_extract_batch sa) (sa_backend_summary sa) (failure_policy config)
                           (cc_chunks_per_batch config) chunks)
              (λ graph, result_map (λ _, graph) (sa_integrate sa graph)) with
      | Err e => Some (Err (2, e))
      | Ok graph =>
          let summarized := {| sz_summaries := []; sz_failures := with_policy (failure_policy config) |} in
          Some (map_err (pair 3) (add_data_points_task config sa (merge_graph_and_summaries graph summarized)))
      end
  end.

Lemma quiet_tasks_run input :
  cc_enable_summarization config = false → cognify_tasks new_v5_str config sa input (quiet_tasks input).
Proof.
  intros Hoff. unfold cognify_tasks, quiet_tasks.
  destruct (extract_chunks_from_documents _ _ _ _) as [[chunks|e]|]; simpl; [|done|done].
  unfold extract_graph_and_summarize. cbv zeta.
  destruct (result_bind _ _) as [graph|e].
  - set (summarized := Build_SummarizedChunks _ _).
    exists (Some (Ok (merge_graph_and_summaries graph summarized))). split; [|done].
    exists (Some summarized). split; [|done]. unfold summarize_text. by rewrite Hoff.
  - exists (Some (Err e)). by split.
Qed.

Lemma quiet_tasks_some input : is_Some (quiet_tasks input).
Proof.
  unfold quiet_tasks, extract_chunks_from_documents. simpl. destruct (os_counter o) as [counter|e]; [|by eexists].
  match goal with |- is_Some (chunk_loop ?f ?p ?t ?l ?a ?k ?r ≫= _) =>
    destruct (chunk_loop_total f p t l ltac:(intros d; edestruct chunk_one_document_mine as (x & -> & _); by eexists)
                a k r) as [[ec|e] ->] end; simpl; [|by eexists].
  destruct (result_bind _ _); by eexists.
Qed.

Definition quiet_run (input : CognifyInput) (st : stores) : result (nat * CognifyError) (SummarizedData G) * stores :=
  (default (Err (0, Execute "")) (quiet_tasks input), st).
Definition quiet_teardown (data : SummarizedData G) (st : stores) : result CognifyError () * stores := (Ok (), st).

Lemma quiet_realizes : cc_enable_summarization config = false → realizes new_v5 config o quiet_run quiet_teardown.
Proof.
  intros Hoff. split; simpl; try done. intros input _. destruct (quiet_tasks_some input) as [r Hr].
  rewrite Hr. simpl. rewrite <-Hr. by apply quiet_tasks_run.
Qed.
End quiet.

(** ** Two files

    Items 10 and 12 of dataset 3, of the same text; the extraction fails for 10. *)

#[local] Instance exr_format : UuidFormat := decimal_format.
#[local] Instance exr_serde : SerdeJson := binary_serde.
#[local] Instance exr_lowercase : Lowercase := ascii_lowercase.
#[local] Instance exr_format_laws : UuidFormatLaws := decimal_format_laws.
#[local] Instance exr_serde_laws : SerdeJsonLaws := binary_serde_laws.

(** A hash that tells texts apart. *)
Definition text_v5 (namespace : uuid) (t : text) : uuid := foldl (λ a c, (a * 256 + c)%N) 1%N t.

Definition exr_config (scope : RollbackScope) : CognifyConfig := {|
  cc_max_chunk_size := Some 100; cc_chunks_per_batch := 1; cc_max_parallel_extractions := 2;
  cc_extraction_strategy := SinglePass; cc_enable_summarization := false; cc_incremental_loading := true;
  cc_run_ownership_dir := Some "runs"; cc_token_counter_kind := WordKind; cc_token_count_mode := Span;
  cc_failure_stop := RunToEnd; cc_rollback_scope := scope; cc_tolerate_summarization_failures := false;
  cc_chunk_failure_ratio_threshold := f64_one; cc_failure_report_cap := 10; cc_graph_schema := None;
  cc_chunk_attachment := None; cc_summary_schema := None; cc_graph_backend := None |}.

Definition exr_clock : chunk_env := {| ce_fresh := 1; ce_created := 0; ce_touched := 0 |}.

Definition exr_outside : outside nat := {|
  os_classify_env _ := exr_clock;
  os_dumps _ := "";
  os_counter := Ok WordCounter;
  os_chunk_env _ _ := exr_clock;
  os_is_alphabetic := ascii_alphabetic;
  os_new_v4 := counted_v4;
  os_retrieve _ := Ok (ascii "Hello world.");
  os_loaders := registry_register "text" TextLoader registry_new;
  os_extract c := if decide (dc_document_id c = 10%N) then Err (LlmError "timeout") else Ok 7;
  os_backend := None;
  os_summary_env _ := exr_clock;
  os_integrate _ := Ok ();
  os_env _ := exr_clock;
  os_model := "model";
  os_summarized _ := Err (LlmError "off");
  os_add_data_points _ := Ok () |}.

Definition exr_items : list Data := [ex_data 10; ex_data 12].
Definition exr_input : CognifyInput :=
  {| ci_data_items := exr_items; ci_dataset_id := 3; ci_user_id := None; ci_tenant_id := None |}.
Definition exr_who : caller := {| ca_dataset_id := 3; ca_user_id := None; ca_tenant_id := None |}.
Definition exr_env (fault : option string) : cognify_env := {|
  cv_run := {| re_run_id := 70; re_started_at := 1; re_completed_at := 2; re_errored_at := 3 |};
  cv_fresh_pipeline_id := 5; cv_token := 6; cv_marker_io := true; cv_markers_fault := fault;
  cv_latest_run := Ok None; cv_rollback := ex_env |}.
Definition exr_world : run_world (nat * list PipelineRunEntry) :=
  {| rw_stores := ex_rollback_stores; rw_repo := (0, []); rw_markers := ∅ |}.

Lemma exr_valid scope : valid_config (exr_config scope).
Proof. split; vm_compute; lia. Qed.

Notation exr_run scope fault items w :=
  (cognify_in_scope (H2 := flaky_repo) (λ namespace s, text_v5 namespace (ascii s)) (exr_env fault) exr_who
     (quiet_run text_v5 (exr_config scope) exr_outside) quiet_teardown (Ok (exr_config scope)) items w) (only parsing).

(** ** The theorems at work *)


(** A marker, as membership in the answer of the query. *)
Lemma completed_compute table d s :
  bool_decide (d ∈ get_cognify_completed_data_ids s [d] table) = true ↔ completed table d s.
Proof.
  rewrite bool_decide_eq_true, elem_of_completed_ids. split; [tauto|]. intros Hc. split; [by left|done].
Qed.

Lemma marked_only_if_processed_witness :
  let '(res, w') := exr_run FailedItems None exr_items exr_world in
  completed (st_data (rw_stores w')) 12 3
  ∧ ∃ r data remaining, res = Ok r ∧ cr_failures r = sd_failures data ∧ remaining `sublist_of` exr_items
      ∧ item_processed (λ namespace s, text_v5 namespace (ascii s)) (exr_config FailedItems) (pipeline_answers text_v5 (exr_config FailedItems) exr_outside)
          remaining data 12.
Proof.
  pose proof (marked_only_if_processed (H4 := flaky_repo) text_v5 (exr_config FailedItems) exr_outside
    (quiet_run text_v5 (exr_config FailedItems) exr_outside) quiet_teardown (exr_env None) exr_who exr_items exr_world 12 3
    (exr_valid FailedItems) (quiet_realizes text_v5 (exr_config FailedItems) exr_outside eq_refl)) as Hm.
  assert (Hc : bool_decide (12%N ∈ get_cognify_completed_data_ids 3 [12%N]
    (st_data (rw_stores (exr_run FailedItems None exr_items exr_world).2))) = true) by (vm_compute; reflexivity).
  apply completed_compute in Hc.
  destruct (exr_run FailedItems None exr_items exr_world) as [res w']. split; [exact Hc|].
  destruct (Hm Hc) as (_ & r & data & remaining & Hr & Hf & _ & Hs & Hp).
  - intros Hno. apply completed_compute in Hno. revert Hno. vm_compute. discriminate.
  - exists r, data, remaining. split; [exact Hr|]. split; [exact Hf|]. split; [exact Hs|exact Hp].
Defined.

Lemma rerun_is_noop_witness :
  let w1 := (exr_run WholeRun None [ex_data 12] exr_world).2 in
  rw_stores (exr_run WholeRun None [ex_data 12] w1).2 = rw_stores w1
  ∧ ∃ new, (rw_repo (exr_run WholeRun None [ex_data 12] w1).2).2 = (rw_repo w1).2 ++ new.
Proof.
  pose proof (rerun_is_noop (H4 := flaky_repo) (RepositoryLaws0 := flaky_repo_laws) text_v5 (exr_config WholeRun) exr_outside
    (quiet_run text_v5 (exr_config WholeRun) exr_outside) quiet_teardown (exr_env None) (exr_env None) exr_who
    [ex_data 12] exr_world (quiet_realizes text_v5 (exr_config WholeRun) exr_outside eq_refl)
    ltac:(discriminate) eq_refl eq_refl eq_refl) as Hn.
  assert (Hok : match (exr_run WholeRun None [ex_data 12] exr_world).1 with
                | Ok r => bool_decide (outstanding (cr_failures r) = ∅) = true | Err _ => False end)
    by (vm_compute; reflexivity).
  assert (Hrows : ∀ item, item ∈ [ex_data 12] →
    mark_takes (cv_rollback (exr_env None)) (data_id item) ∧ is_Some (st_data (rw_stores exr_world) !! data_id item)).
  { intros item Hin. apply list_elem_of_singleton in Hin as ->. split; [exact I|].
    refine (bool_decide_unpack _ _). vm_compute. exact I. }
  specialize (Hn Hrows). cbv zeta. destruct (exr_run WholeRun None [ex_data 12] exr_world) as [[r|e] w1]; [|destruct Hok].
  apply bool_decide_eq_true in Hok. specialize (Hn r eq_refl Hok). cbn [fst snd].
  destruct (exr_run WholeRun None [ex_data 12] w1) as [res' w2].
  destruct Hn as [Hs (new & Hadded & _)]. split; [exact Hs|]. exists new. exact Hadded.
Defined.

(** Three writes are refused: STARTED, COMPLETED and ERRORED. *)
Lemma run_ends_recorded_witness :
  let w := {| rw_stores := ex_rollback_stores; rw_repo := (3, []); rw_markers := ∅ |} in
  let '(res, w') := exr_run FailedItems None exr_items w in
  is_ok res = false ∧ rw_markers w' = {[6%N := false]}.
Proof.
  intros w.
  pose proof (run_ends_recorded (H2 := flaky_repo) (RepositoryLaws0 := flaky_repo_laws) text_v5
    (quiet_run text_v5 (exr_config FailedItems) exr_outside) quiet_teardown (exr_env None) exr_who
    (Ok (exr_config FailedItems)) exr_items w) as Hr.
  assert (Hstart : starts_run (exr_env None) exr_who (Ok (exr_config FailedItems)) exr_items w = true)
    by (vm_compute; reflexivity).
  rewrite Hstart in Hr. clear Hstart.
  assert (Hok : is_ok (exr_run FailedItems None exr_items w).1 = false
    ∧ (exr_run FailedItems None exr_items w).2.(rw_repo).2 = []) by (vm_compute; split; reflexivity).
  destruct (exr_run FailedItems None exr_items w) as [res w']. simpl in Hok. destruct Hok as [Hok Hrows]. split; [exact Hok|].
  destruct Hr as (config & [= <-] & new & Hnew & _ & [[Hex _]|(_ & _ & Hm)]); [|exact Hm].
  simpl in Hnew. rewrite Hrows in Hnew. rewrite <-Hnew in Hex. inversion Hex.
Defined.

(** Two documents that begin with the same word, longer than a chunk may be. *)
Lemma shared_chunk_misattributed_witness :
  let chunk document_id :=
    chunk_text (λ t, length t) uuid_to_string text_v5 (λ _, exr_clock) document_id 3 Span ascii_alphabetic counted_v4
      (ascii "abcdef") in
  ∃ c c', chunk 7%N = Some [c] ∧ chunk 8%N = Some [c'] ∧
  ∃ r, record_outcome (exr_config FailedItems) [c; c']
         {| so_summaries := [ex_summary]; so_failures := [(dc_id c, LlmError "timeout")]; so_skipped := [] |}
         (with_policy FailurePolicy_default) = Some r
    ∧ 7%N ∉ outstanding r ∧ 8%N ∈ outstanding r.
Proof.
  intros chunk. eexists _, _. split; [vm_compute; reflexivity|]. split; [vm_compute; reflexivity|].
  match goal with |- ∃ r, record_outcome _ [?c; ?c'] _ _ = _ ∧ _ =>
    exact (shared_chunk_misattributed (exr_config FailedItems) c c' ex_summary (LlmError "timeout") FailurePolicy_default
             eq_refl eq_refl ltac:(discriminate)) end.
Defined.

(** Under fail-fast, the file whose extraction fails goes, the one before it stays. *)
Definition exr_extracted : ExtractedChunks :=
  let chunk document_id id := DocumentChunk_new uuid_to_string exr_clock id (ascii "x") 1 0 "paragraph_end" document_id in
  {| ec_chunks := [chunk 12 120; chunk 10 100]%N;
     ec_documents := classify_documents (λ namespace s, text_v5 namespace (ascii s)) (λ _, "") (λ _, exr_clock)
                       [ex_data 12; ex_data 10];
     ec_failures := with_policy FailurePolicy_default |}.

Lemma failfast_keeps_whole_files_witness :
  let policy := {| fp_stop := FailFast; fp_scope := FailedItems; fp_tolerate_summarization_failures := false;
                   fp_chunk_failure_ratio_threshold := f64_one; fp_report_cap := 10 |} in
  ∃ xg, extract_graph_from_data (llm_batch (os_extract exr_outside)) (λ _ _, None) policy 1 exr_extracted = Ok xg
    ∧ map dc_id (xg_chunks xg) = [120%N]
    ∧ ∃ c, c ∈ xg_chunks xg ∧ dc_id c = 120%N.
Proof.
  intros policy.
  assert (Hx : match extract_graph_from_data (llm_batch (os_extract exr_outside)) (λ _ _, None) policy 1 exr_extracted with
               | Ok xg => map dc_id (xg_chunks xg) = [120%N] ∧ xg_graphs xg = [(120%N, 7)] | Err _ => False end)
    by (vm_compute; split; reflexivity).
  pose proof (failfast_keeps_whole_files (llm_batch (os_extract exr_outside)) (λ _ _, None) policy 1
    (llm_batch_answers_all _) exr_extracted) as Hf.
  destruct (extract_graph_from_data _ _ _ _ _) as [xg|e]; [|destruct Hx]. destruct Hx as [Hids Hg].
  destruct (Hf xg eq_refl (le_n 1)) as (_ & _ & _ & Hgraphs & _); [|reflexivity|].
  { intros c Hc. refine (proj1 (Forall_forall (λ c, dc_document_id c ∈ map doc_id (ec_documents exr_extracted)) _) _ c Hc).
    refine (bool_decide_unpack _ _). vm_compute. exact I. }
  exists xg. split; [reflexivity|]. split; [exact Hids|]. apply (Hgraphs 120%N 7). rewrite Hg. left.
Defined.
