(* ===== verification/StableSort.v ===== *)
(** * Stable sorting by a key ([slice::sort_by_key])

    Insertion sort, which is stable: elements of one key keep their order. *)

From stdpp Require Import sorting.
From S2P Require Import Prelude.

Lemma sorted_weaken {A} (R S : A → A → Prop) l : (∀ x y, R x y → S x y) → StronglySorted R l → StronglySorted S l.
Proof. intros HRS. induction 1 as [|x l Hl IH Hx]; constructor; [done|]. eapply Forall_impl; [exact Hx|]. apply HRS. Qed.

Section sort.
Context {A K : Type} (le : K → K → Prop) `{!RelDecision le} `{!TotalOrder le} (key : A → K).

Fixpoint insert_by_key (x : A) (l : list A) : list A :=
  match l with
  | [] => [x]
  | y :: l => if decide (le (key x) (key y)) then x :: y :: l else y :: insert_by_key x l
  end.

Definition sort_by_key (l : list A) : list A := foldr insert_by_key [] l.

Definition key_le (x y : A) : Prop := le (key x) (key y).

#[local] Instance key_le_trans : Transitive key_le.
Proof. intros x y z. unfold key_le. apply transitivity. Qed.

Lemma key_le_total x y : ¬ key_le x y → key_le y x.
Proof.
  unfold key_le. intros Hn. destruct (total le (key x) (key y)); [done|assumption].
Qed.

Lemma insert_by_key_perm x l : insert_by_key x l ≡ₚ x :: l.
Proof.
  induction l as [|y l IH]; simpl; [done|]. destruct (decide _); [done|]. rewrite IH. apply perm_swap.
Qed.

Lemma sort_by_key_perm l : sort_by_key l ≡ₚ l.
Proof. induction l as [|x l IH]; simpl; [done|]. by rewrite insert_by_key_perm, IH. Qed.

Lemma insert_by_key_sorted x l : StronglySorted key_le l → StronglySorted key_le (insert_by_key x l).
Proof.
  induction 1 as [|y l Hl IH Hy]; simpl; [repeat constructor|].
  destruct (decide _) as [Hle|Hle]; constructor; [by constructor| |done|].
  - constructor; [done|]. eapply Forall_impl; [exact Hy|]. intros z. by apply key_le_trans.
  - rewrite insert_by_key_perm. constructor; [by apply key_le_total|done].
Qed.

Lemma sort_by_key_sorted l : StronglySorted key_le (sort_by_key l).
Proof. induction l; simpl; [constructor|by apply insert_by_key_sorted]. Qed.

(** Stability: the elements of a key keep their order. *)
Lemma sort_by_key_stable k `{!EqDecision K} l :
  filter (λ x, key x = k) (sort_by_key l) = filter (λ x, key x = k) l.
Proof.
  induction l as [|x l IH]; simpl; [done|]. rewrite filter_cons, <-IH. clear IH.
  induction (sort_by_key l) as [|y s IH]; simpl; [by rewrite filter_cons|].
  destruct (decide (le (key x) (key y))) as [Hle|Hle]; [by rewrite filter_cons|].
  rewrite !filter_cons, IH. destruct (decide (key x = k)), (decide (key y = k)); try done.
  exfalso. apply Hle. replace (key x) with (key y) by congruence. done.
Qed.

(** A list in strictly increasing order of its keys is what sorting any permutation of it
    gives. *)
Lemma sort_by_key_unique l k :
  StronglySorted key_le k → l ≡ₚ k → (∀ x y, x ∈ k → y ∈ k → key x = key y → x = y) → sort_by_key l = k.
Proof.
  intros Hk Hp Hinj. assert (Hs : sort_by_key l ≡ₚ k) by by rewrite sort_by_key_perm.
  eapply StronglySorted_unique_strong; [|apply sort_by_key_sorted|exact Hk|exact Hs].
  intros x y Hx Hy Hxy Hyx. apply Hinj; [by rewrite <-Hs|done|]. by apply (anti_symm le).
Qed.

(** Keys in strictly increasing order are distinct. *)
Lemma sort_by_key_strict l k :
  StronglySorted (λ x y, strict le (key x) (key y)) k → l ≡ₚ k → sort_by_key l = k.
Proof.
  intros Hk Hp. apply sort_by_key_unique; [|done|].
  - clear Hp. induction Hk as [|x k Hk IH Hx]; constructor; [done|]. eapply Forall_impl; [exact Hx|]. by intros y [].
  - clear Hp. induction Hk as [|x k Hk IH Hx]; [by intros ?? ?%not_elem_of_nil|]. rewrite Forall_forall in Hx.
    intros y z [->|Hy]%elem_of_cons [->|Hz]%elem_of_cons Heq; [done| | |by apply IH].
    + destruct (Hx z Hz) as [_ []]. by rewrite Heq.
    + destruct (Hx y Hy) as [_ []]. by rewrite Heq.
Qed.

(** Sorted by the key and, within a key, by a relation the list was ordered by. *)
Definition key_then (R : A → A → Prop) (x y : A) : Prop :=
  strict le (key x) (key y) ∨ key x = key y ∧ R x y.

Lemma insert_by_key_then R x l :
  Forall (R x) l → StronglySorted (key_then R) l → StronglySorted (key_then R) (insert_by_key x l).
Proof.
  intros Hx Hl. induction Hl as [|y l Hl IH Hy]; simpl; [repeat constructor|].
  pose proof (Forall_inv Hx) as Hxy. pose proof (Forall_inv_tail Hx) as Hxl. destruct (decide _) as [Hle|Hle].
  - assert (Hhead : key_then R x y).
    { destruct (decide (le (key y) (key x))) as [Hge|Hge]; [right|left; done].
      split; [by apply (anti_symm le)|done]. }
    constructor; [by constructor|]. constructor; [done|]. rewrite Forall_forall in Hy, Hxl. apply Forall_forall.
    intros z Hz. specialize (Hy z Hz). specialize (Hxl z Hz). unfold key_then in *.
    destruct Hhead as [[H1 H2]|[H1 _]], Hy as [[H3 H4]|[H3 _]].
    + left. split; [by transitivity (key y)|]. intros H5. apply H2. by transitivity (key z).
    + left. rewrite <-H3. done.
    + left. rewrite H1. done.
    + right. split; [congruence|done].
  - constructor; [by apply IH|]. rewrite insert_by_key_perm. constructor; [|done]. left.
    destruct (total le (key x) (key y)) as [?|Hyx]; [done|by split].
Qed.

Lemma sort_by_key_then R l : StronglySorted R l → StronglySorted (key_then R) (sort_by_key l).
Proof.
  induction 1 as [|x l Hl IH Hx]; simpl; [constructor|]. apply insert_by_key_then; [|done].
  by rewrite sort_by_key_perm.
Qed.
End sort.

(** [std::cmp::Reverse<usize>] as a key. *)
Definition nat_desc (a b : nat) : Prop := b ≤ a.

#[export] Instance nat_desc_dec : RelDecision nat_desc.
Proof. unfold nat_desc. intros a b. apply _. Defined.

#[export] Instance nat_desc_total_order : TotalOrder nat_desc.
Proof.
  unfold nat_desc. split; [split; [split|]; repeat intro; lia|]. intros a b. unfold strict.
  destruct (Nat.lt_trichotomy a b) as [?|[?|?]]; [right; right|right; left|left]; lia.
Defined.

(** Lexicographic order of pairs. *)
Definition lex_le (a b : nat * nat) : Prop := a.1 < b.1 ∨ a.1 = b.1 ∧ a.2 ≤ b.2.

#[export] Instance lex_le_dec : RelDecision lex_le.
Proof. unfold lex_le. intros a b. apply _. Defined.

#[export] Instance lex_le_total_order : TotalOrder lex_le.
Proof.
  unfold lex_le. split; [split; [split|]|].
  - intros [??]; simpl; lia.
  - intros [??] [??] [??]; simpl; lia.
  - intros [??] [??]; simpl. intros ??. f_equal; lia.
  - intros [a b] [c d]. unfold strict. simpl.
    destruct (Nat.lt_trichotomy a c) as [?|[->|?]]; [left; lia| |right; right; lia].
    destruct (Nat.lt_trichotomy b d) as [?|[->|?]]; [left; lia|by right; left|right; right; lia].
Defined.
