(* ===== verification/SearchTypes.v ===== *)
(** * The types of a search (crates/search/src/types/, crates/search/src/utils/results.rs)

    Search types, requests, results and errors, and the accessors of a result's
    payload.  A JSON object of the model has no order of its own. *)

From S2P Require Import Prelude Json Strings.
From Stdlib Require Import QArith.
#[local] Open Scope nat_scope.

Inductive SearchType :=
  | Summaries | Chunks | RagCompletion | GraphCompletion | GraphCompletionDecomposition
  | GraphSummaryCompletion | Cypher | NaturalLanguage | GraphCompletionCot
  | GraphCompletionContextExtension | FeelingLucky | Feedback | Temporal | CodingRules
  | ChunksLexical | GraphReport | HybridCompletion.

#[export] Instance SearchType_eq_dec : EqDecision SearchType.
Proof. solve_decision. Defined.

Definition search_types : list SearchType :=
  [Summaries; Chunks; RagCompletion; GraphCompletion; GraphCompletionDecomposition; GraphSummaryCompletion; Cypher;
   NaturalLanguage; GraphCompletionCot; GraphCompletionContextExtension; FeelingLucky; Feedback; Temporal; CodingRules;
   ChunksLexical; GraphReport; HybridCompletion].

Lemma search_types_all t : t ∈ search_types.
Proof. destruct t; apply list_elem_of_In; simpl; tauto. Qed.

#[export] Instance SearchType_finite_countable : Countable SearchType.
Proof.
  refine (inj_countable (λ t, default 0 (fst <$> list_find (t =.) search_types)) (λ i, search_types !! i) _).
  by intros [].
Defined.

Inductive SearchError :=
  | InvalidInput (m : string)
  | InvalidHybridSearchConfig (m : string)
  | VectorError (m : string)
  | GraphError (m : string)
  | SearchLlmError (m : string)
  | EmbeddingError (m : string)
  | SearchDatabaseError (m : string)
  | NotFound (m : string)
  | DatasetNotFound (m : string)
  | PermissionDenied (m : string)
  | UnsupportedSearchType (t : SearchType)
  | SerializationError (m : string).

#[export] Instance SearchError_eq_dec : EqDecision SearchError.
Proof. solve_decision. Defined.

(** ** Results *)

Record SearchItem := { si_id : option uuid; si_score : option Q; si_payload : json }.

Record SearchRule := { ru_node_set : string; ru_text : string }.

Inductive SearchOutput :=
  | Items (items : list SearchItem)
  | AnswerText (t : string)
  | Texts (ts : list string)
  | GraphQueryRows (rows : list (list json))
  | Rules (rules : list SearchRule)
  | Ack (message : string)
  | Structured (v : json).

Record SearchGraphNode := { sn_id : string; sn_label : string }.
Record SearchGraphEdge := { se_source : string; se_target : string; se_relationship : string; se_weight : option Q }.
Record SearchGraph := { sg_nodes : list SearchGraphNode; sg_edges : list SearchGraphEdge }.
Record SearchPrompt := { sp_user : string; sp_system : string }.

(** Of a response, what the merge of several reads; the evidence references are
    opaque. *)
Record SearchResponse {evidence : Type} := {
  rs_search_type : SearchType;
  rs_result : SearchOutput;
  rs_context : option (gmap string (list SearchItem));
  rs_graphs : option (gmap string SearchGraph);
  rs_diagnostics : option (gmap string json);
  rs_datasets : option (list uuid);
  rs_only_context : bool;
  rs_use_combined_context : bool;
  rs_verbose : bool;
  rs_user_prompt : option string;
  rs_system_prompt : option string;
  rs_prompts : option (gmap string SearchPrompt);
  rs_evidence : list evidence;
}.
Arguments SearchResponse : clear implicits.

Record SearchRequest := {
  rq_query_text : string;
  rq_search_type : SearchType;
  rq_top_k : option N;
  rq_datasets : option (list string);
  rq_dataset_ids : option (list uuid);
  rq_system_prompt : option string;
  rq_system_prompt_path : option string;
  rq_only_context : option bool;
  rq_use_combined_context : option bool;
  rq_session_id : option string;
  rq_node_type : option string;
  rq_node_name : option (list string);
  rq_node_name_filter_operator : option string;
  rq_wide_search_top_k : option N;
  rq_triplet_distance_penalty : option Q;
  rq_user_id : option uuid;
  rq_tenant_id : option uuid;
  rq_verbose : option bool;
  rq_feedback_influence : option Q;
  rq_retriever_specific_config : option (gmap string json);
  rq_response_schema : option json;
  rq_custom_search_type : option string;
  rq_auto_feedback_detection : option bool;
  rq_neighborhood_depth : option N;
  rq_neighborhood_seed_top_k : option N;
  rq_include_references : bool;
}.

Definition only_context (r : SearchRequest) : bool := default false (rq_only_context r).
Definition use_combined_context (r : SearchRequest) : bool := default false (rq_use_combined_context r).
Definition verbose (r : SearchRequest) : bool := default false (rq_verbose r).

(** ** Payload accessors

    [number] is the text of a JSON number ([Number::to_string]). *)
Section results.
Context `{UuidFormat} (number : json → string).

(** [display_value] *)
Definition display_value (v : json) : option string :=
  let shown text := if decide (text = "") then None else Some text in
  match v with
  | JNull => None
  | JString s => shown (trim s)
  | JBool b => shown (if b then "true" else "false")
  | JInt _ | JFloat _ => shown (number v)
  | JArray _ | JObject _ => None
  end.

(** [result_id] *)
Definition result_id (item : SearchItem) : option string :=
  match json_get "id" (si_payload item) ≫= display_value with
  | Some id => Some id
  | None => uuid_to_string <$> si_id item
  end.

(** [first_display_value] *)
Fixpoint first_display_value (values : list json) : option string :=
  match values with
  | [] => None
  | v :: values => match display_value v with Some s => Some s | None => first_display_value values end
  end.

(** [dataset_membership] *)
Definition dataset_membership (item : SearchItem) : list string :=
  match json_get "dataset_ids" (si_payload item) with
  | Some (JArray ids) => omap json_as_str ids
  | _ => match json_get "dataset_id" (si_payload item) ≫= json_as_str with
         | Some id => [id]
         | None => []
         end
  end.

(** [payload_matches_node_filter] *)
Definition set_name (entry : json) : option string :=
  match entry with
  | JString name => Some name
  | JObject _ => json_get "name" entry ≫= json_as_str
  | _ => None
  end.

Definition payload_matches_node_filter (payload : json) (node_name : option (list string)) (operator : string) : bool :=
  match node_name with
  | None | Some [] => true
  | Some requested =>
      match json_get "belongs_to_set" payload with
      | Some (JArray entries) =>
          let payload_sets : gset string := list_to_set (omap set_name entries) in
          let requested_sets : gset string := list_to_set requested in
          if decide (operator = "AND") then bool_decide (requested_sets ⊆ payload_sets)
          else negb (bool_decide (payload_sets ## requested_sets))
      | _ => false
      end
  end.
End results.
