(* ===== verification/QueryRouter.v ===== *)
(** * The query router (crates/search/src/query_router.rs)

    How recall picks a search type: the first rule whose pattern matches the query, held
    to what the deployment can run.  The patterns are regular expressions: which queries a
    rule matches is a parameter. *)

From S2P Require Import Prelude Strings SearchTypes.

Definition ROUTER_FALLBACK_TYPE : SearchType := HybridCompletion.

Record RouteDecision := {
  rd_search_type : SearchType;
  rd_rule : string;
  rd_only_context : bool;
}.

Record RoutingConstraints := { llm_available : bool; cypher_allowed : bool }.

Definition LLM_FREE_TYPES : list SearchType := [ChunksLexical; CodingRules].
Definition COMPLETION_ONLY_TYPES : list SearchType := [HybridCompletion; GraphCompletion; RagCompletion].
Definition CYPHER_TYPES : list SearchType := [Cypher; NaturalLanguage].

Definition unconstrained (search_type : SearchType) (rule : string) : RouteDecision :=
  {| rd_search_type := search_type; rd_rule := rule; rd_only_context := false |}.

Definition constrain (decision : RouteDecision) (constraints : RoutingConstraints) : RouteDecision :=
  let search_type := rd_search_type decision in
  let search_type :=
    if negb (cypher_allowed constraints) && bool_decide (search_type ∈ CYPHER_TYPES)
    then ROUTER_FALLBACK_TYPE else search_type in
  if llm_available constraints || bool_decide (search_type ∈ LLM_FREE_TYPES)
  then unconstrained search_type (rd_rule decision)
  else
    let search_type := if bool_decide (search_type ∈ COMPLETION_ONLY_TYPES) then search_type
                       else ROUTER_FALLBACK_TYPE in
    {| rd_search_type := search_type; rd_rule := rd_rule decision; rd_only_context := true |}.

Definition default_route (constraints : RoutingConstraints) : RouteDecision :=
  constrain (unconstrained ROUTER_FALLBACK_TYPE "default") constraints.

Definition pinned_route (search_type : SearchType) (constraints : RoutingConstraints) : RouteDecision := {|
  rd_search_type := search_type;
  rd_rule := "pinned";
  rd_only_context := negb (llm_available constraints) && bool_decide (search_type ∈ COMPLETION_ONLY_TYPES) |}.

(** The rules, in match order, with the type each routes to. *)
Definition RULES : list (string * SearchType) :=
  [("quoted_phrase", ChunksLexical); ("coding_rules_intent", CodingRules); ("time_scoped_question", Temporal)].

Section router.
Context (is_match : string → string → bool).

Definition match_rules (query : string) : RouteDecision :=
  let query := trim query in
  match find (λ rule, is_match rule.1 query) RULES with
  | Some rule => unconstrained rule.2 rule.1
  | None => unconstrained ROUTER_FALLBACK_TYPE "default"
  end.

Definition route_query (query : string) (constraints : RoutingConstraints) : RouteDecision :=
  constrain (match_rules query) constraints.
End router.

(** ** What a decision may ask of a deployment *)

(** A deployment can run a decision: no Cypher where Cypher is not allowed, and without an
    LLM only a search that needs none, or the context of a completion. *)
Definition runnable (constraints : RoutingConstraints) (d : RouteDecision) : Prop :=
  (cypher_allowed constraints = false → rd_search_type d ∉ CYPHER_TYPES)
  ∧ (llm_available constraints = false →
     rd_search_type d ∈ LLM_FREE_TYPES ∨ rd_search_type d ∈ COMPLETION_ONLY_TYPES ∧ rd_only_context d = true).

#[export] Instance runnable_dec c d : Decision (runnable c d).
Proof. unfold runnable. destruct (cypher_allowed c), (llm_available c); apply _. Defined.

Lemma constrain_runnable d c : runnable c (constrain d c).
Proof. destruct d as [[] rule oc], c as [[] []]; refine (bool_decide_unpack _ _); reflexivity. Qed.

(** What a deployment can run is left as it is, but for the flag of a completion. *)
Lemma constrain_id d c : runnable c d → rd_search_type (constrain d c) = rd_search_type d.
Proof.
  destruct d as [[] rule oc], c as [[] []]; intros [Hc Hl]; try reflexivity;
    first [exfalso; apply Hc; [done|vm_compute; set_solver]
          |exfalso; destruct (Hl eq_refl) as [Hin|[Hin _]]; revert Hin; vm_compute; set_solver].
Qed.

Lemma constrain_rule d c : rd_rule (constrain d c) = rd_rule d.
Proof. by destruct d as [[] rule oc], c as [[] []]. Qed.
