(* ===== verification/MergeResults.v ===== *)
(** * Merging two retrievals
    (crates/search/src/utils/merge_results.rs, crates/search/src/retrievers/hybrid/merge.rs)

    A session turn retrieves twice, for the question and for its rewrite.  The two ranked
    lists become one: what both found, what the first found, what only the second found,
    with slots of the budget held for the last. *)

From stdpp Require Import sorting.
From S2P Require Import Prelude Json Strings StableSort SearchTypes.
From Stdlib Require Import QArith.
#[local] Open Scope nat_scope.

Definition conversational_reserve (limit : nat) : nat := if limit <=? 2 then 0 else Nat.max (limit / 3) 1.

(** Python truthiness of a JSON value. *)
Definition is_truthy (v : json) : bool :=
  match v with
  | JNull => false
  | JBool b => b
  | JInt n => negb (n =? 0)%Z
  | JFloat q => negb (Qeq_bool q 0)
  | JString s => negb (bool_decide (s = ""))
  | JArray l => negb (bool_decide (l = []))
  | JObject m => negb (bool_decide (m = ∅))
  end.

(** What separates the parts of an edge's identity, U+001F. *)
Definition UNIT_SEPARATOR : string := utf8 [31]%N.

Section identity.
Context `{UuidFormat} (number : json → string).

Definition field (keys : list string) (v : json) : option string :=
  head (omap (λ key, json_get key v ≫= display_value number) keys).

(** [edge_identity] *)
Definition edge_identity (item : SearchItem) : option string :=
  let payload := si_payload item in
  let attributes :=
    default payload (head (filter (λ v, is_truthy v = true)
                             (omap (λ key, json_get key payload) ["attributes"; "edge_attributes"]))) in
  let attributes := match attributes with JObject _ => attributes | _ => JObject ∅ end in
  match json_get "edge_object_id" attributes ≫= display_value number with
  | Some edge_object_id => Some ("edge:" +:+ edge_object_id)
  | None =>
      let relationship := field ["relationship_name"; "relationship"] attributes in
      let source := field ["source_id"; "source_node_id"] payload in
      let target := field ["target_id"; "target_node_id"] payload in
      let directed := match json_get "directed" payload with Some (JBool b) => b | _ => true end in
      Some ("graph:" +:+ default "" source +:+ UNIT_SEPARATOR +:+ default "" relationship +:+ UNIT_SEPARATOR
            +:+ default "" target +:+ UNIT_SEPARATOR +:+ (if directed then "true" else "false"))
  end.

Definition item_identity (item : SearchItem) : option string := result_id number item.
End identity.

(** ** Merging *)

Record merge_record := { mr_primary : option nat; mr_secondary : option nat; mr_item : SearchItem }.

(** [Record::sort_key] *)
Definition sort_key (r : merge_record) : nat * nat :=
  match mr_primary r, mr_secondary r with
  | Some primary, Some _ => (0, primary)
  | Some primary, None => (1, primary)
  | None, secondary => (2, default 0 secondary)
  end.

(** [Key]: an identity, or the place of a result that has none. *)
Notation merge_key := (string + nat * nat)%type.

Definition key_at (identity : SearchItem → option string) (lane rank : nat) (item : SearchItem) : merge_key :=
  match identity item with Some id => inl id | None => inr (lane, rank) end.

Record merge_state := { ms_positions : gmap merge_key nat; ms_records : list merge_record }.

(** A result met again: its rank in the lane, unless it has one. *)
Definition seen_again (lane rank : nat) (item : SearchItem) (r : merge_record) : merge_record :=
  if lane =? 0 then
    match mr_primary r with
    | None => {| mr_primary := Some rank; mr_secondary := mr_secondary r; mr_item := item |}
    | Some _ => r
    end
  else
    match mr_secondary r with
    | None => {| mr_primary := mr_primary r; mr_secondary := Some rank; mr_item := mr_item r |}
    | Some _ => r
    end.

Definition new_record (lane rank : nat) (item : SearchItem) : merge_record := {|
  mr_primary := if lane =? 0 then Some rank else None;
  mr_secondary := if lane =? 1 then Some rank else None;
  mr_item := item |}.

Section merge.
Context (identity : SearchItem → option string).

Definition record_result (lane : nat) (s : merge_state) (result : nat * SearchItem) : merge_state :=
  let '(rank, item) := result in
  let key := key_at identity lane rank item in
  match ms_positions s !! key with
  | Some index => {| ms_positions := ms_positions s; ms_records := alter (seen_again lane rank item) index (ms_records s) |}
  | None => {| ms_positions := <[key := length (ms_records s)]> (ms_positions s);
               ms_records := ms_records s ++ [new_record lane rank item] |}
  end.

Definition record_lane (lane : nat) (results : list SearchItem) (s : merge_state) : merge_state :=
  foldl (record_result lane) s (imap pair results).

Definition records_of (primary secondary : list SearchItem) : list merge_record :=
  ms_records (record_lane 1 secondary (record_lane 0 primary {| ms_positions := ∅; ms_records := [] |})).

(** The indices of the records that pass a test. *)
Definition indices (test : merge_record → bool) (records : list merge_record) : list nat :=
  filter (λ i, match records !! i with Some r => test r | None => false end = true) (seq 0 (length records)).

Definition found_by_primary (r : merge_record) : bool := bool_decide (is_Some (mr_primary r)).

(** The indices of the sorted records that are kept; [take.sort_unstable()] and
    [take.dedup()] do not change which. *)
Definition taken_indices (limit reserve : nat) (records : list merge_record) : list nat :=
  let primary_indices := indices found_by_primary records in
  let secondary_indices := indices (λ r, negb (found_by_primary r)) records in
  let taken := take reserve secondary_indices in
  let taken := taken ++ take (limit - length taken) primary_indices in
  let shortfall := limit - length taken in
  let already := length (filter (λ i, i ∈ secondary_indices) taken) in
  taken ++ take shortfall (drop already secondary_indices).

Definition merge_ranked (primary secondary : list SearchItem) (limit : option nat) (secondary_reserve : nat)
    : list SearchItem :=
  let records := sort_by_key lex_le sort_key (records_of primary secondary) in
  match limit with
  | None => map mr_item records
  | Some limit =>
      let taken := taken_indices limit (Nat.min secondary_reserve limit) records in
      omap id (imap (λ i r, if decide (i ∈ taken) then Some (mr_item r) else None) records)
  end.
End merge.

(** ** Hybrid contexts *)

Record ChannelLimits := { cl_chunks : nat; cl_entities : nat; cl_facts : nat }.

(** [kind] *)
Definition kind (item : SearchItem) : option string := json_get "kind" (si_payload item) ≫= json_as_str.

(** [split] *)
Definition of_kind (k : string) (context : list SearchItem) : list SearchItem :=
  filter (λ item, kind item = Some k) context.

(** [summary] *)
Definition summary (item : SearchItem) : option json :=
  match json_get "chunk_summary" (si_payload item) with
  | None | Some JNull => None
  | Some v => if decide (json_as_str v = Some "") then None else Some v
  end.

Section hybrid.
Context `{UuidFormat} (number : json → string).

Definition with_summary (summaries : list (string * json)) (chunk : SearchItem) : SearchItem :=
  match summary chunk with
  | Some _ => chunk
  | None =>
      let from_secondary := id ← result_id number chunk;
                            snd <$> head (filter (λ s : string * json, s.1 = id) summaries) in
      match from_secondary, si_payload chunk with
      | Some v, JObject m =>
          {| si_id := si_id chunk; si_score := si_score chunk; si_payload := JObject (<["chunk_summary" := v]> m) |}
      | _, _ => chunk
      end
  end.

Definition merge_hybrid_results (primary secondary : list SearchItem) (limits : ChannelLimits) : list SearchItem :=
  let secondary_summaries :=
    omap (λ chunk, id ← result_id number chunk; v ← summary chunk; Some (id, v)) (of_kind "chunk" secondary) in
  let merge k limit := merge_ranked (item_identity number) (of_kind k primary) (of_kind k secondary) (Some limit)
                         (conversational_reserve limit) in
  map (with_summary secondary_summaries) (merge "chunk" (cl_chunks limits))
  ++ merge "entity" (cl_entities limits) ++ merge "fact" (cl_facts limits).
End hybrid.

(** ** What a merge holds

    Against a reference: what both lists found, what only the first found, what only the
    second found, and of them what the budget and the reserve leave. *)

(** A result of a lane: its key, its rank and itself. *)
Notation keyed := (merge_key * (nat * SearchItem))%type.

(** The first result of every key. *)
Definition keep_first (acc : list keyed) (x : keyed) : list keyed := if decide (x.1 ∈ acc.*1) then acc else acc ++ [x].
Definition firsts (l : list keyed) : list keyed := foldl keep_first [] l.

Lemma firsts_snoc l x : firsts (l ++ [x]) = keep_first (firsts l) x.
Proof. apply foldl_snoc. Qed.

Lemma firsts_keys l k : k ∈ (firsts l).*1 ↔ k ∈ l.*1.
Proof.
  induction l as [|x l IH] using rev_ind; [done|]. rewrite firsts_snoc, fmap_app, elem_of_app, <-IH. unfold keep_first.
  destruct (decide _) as [Hin|Hin]; simpl; [|rewrite fmap_app, elem_of_app; done].
  rewrite list_elem_of_singleton. split; [by left|]. by intros [?| ->].
Qed.

Lemma firsts_NoDup l : NoDup (firsts l).*1.
Proof.
  induction l as [|x l IH] using rev_ind; [constructor|]. rewrite firsts_snoc. unfold keep_first.
  destruct (decide _) as [Hin|Hin]; [done|]. rewrite fmap_app. apply NoDup_app. split_and!; [done| |apply NoDup_singleton].
  intros k Hk ->%list_elem_of_singleton. done.
Qed.

Lemma firsts_in l x : x ∈ firsts l → x ∈ l.
Proof.
  induction l as [|y l IH] using rev_ind; [done|]. rewrite firsts_snoc, elem_of_app. unfold keep_first.
  destruct (decide _); [auto|]. rewrite elem_of_app. intros [?|?]; auto.
Qed.

Lemma firsts_sorted R l : StronglySorted R l → StronglySorted R (firsts l).
Proof.
  induction l as [|x l IH] using rev_ind; [done|]. intros Hs. apply StronglySorted_app in Hs as (Hx & Hl & _).
  rewrite firsts_snoc. unfold keep_first. destruct (decide _); [by apply IH|].
  apply StronglySorted_app_2; [|by apply IH|repeat constructor].
  intros a b Ha Hb. apply Hx; [by apply firsts_in|done].
Qed.

Lemma filter_sorted {A} (R : A → A → Prop) (P : A → Prop) `{∀ x, Decision (P x)} l :
  StronglySorted R l → StronglySorted R (filter P l).
Proof.
  induction 1 as [|x l Hl IH Hx]; [constructor|]. rewrite filter_cons. destruct (decide _); [|done].
  constructor; [done|]. rewrite Forall_forall in Hx |- *. intros y (_ & Hy)%list_elem_of_filter. by apply Hx.
Qed.

(** ** The reference *)

Section merge.
Context (identity : SearchItem → option string).

(** The results of a lane with their keys and ranks. *)
Definition key_pair (lane : nat) (x : nat * SearchItem) : keyed := (key_at identity lane x.1 x.2, x).
Definition lane_results (lane : nat) (results : list SearchItem) : list keyed := key_pair lane <$> imap pair results.

Definition found_items (l : list keyed) : list SearchItem := (λ x : keyed, x.2.2) <$> l.

(** What both lists found, in the order of the first; what only the first found; what
    only the second found. *)
Definition in_both (primary secondary : list keyed) : list keyed := filter (λ x, x.1 ∈ secondary.*1) primary.
Definition only_in (l other : list keyed) : list keyed := filter (λ x, x.1 ∉ other.*1) l.

Definition reference_ranking (primary secondary : list SearchItem) : list SearchItem * list SearchItem :=
  let p := firsts (lane_results 0 primary) in
  let s := firsts (lane_results 1 secondary) in
  (found_items (in_both p s ++ only_in p s), found_items (only_in s p)).

(** Of a ranking of [p] and [s] and a budget, [s] has its reserve, [p] what that leaves,
    and [s] what [p] leaves. *)
Definition within_budget (limit reserve : nat) (p s : list SearchItem) : list SearchItem :=
  let p := take (limit - Nat.min (Nat.min reserve limit) (length s)) p in
  p ++ take (limit - length p) s.

(** ** The records *)

Definition record_in (s : list keyed) (x : keyed) : merge_record := {|
  mr_primary := Some x.2.1;
  mr_secondary := fst <$> (snd <$> head (filter (λ y : keyed, y.1 = x.1) s));
  mr_item := x.2.2 |}.

Definition record_new (x : keyed) : merge_record :=
  {| mr_primary := None; mr_secondary := Some x.2.1; mr_item := x.2.2 |}.

(** The positions index the keys of the records. *)
Definition indexes (keys : list merge_key) (s : merge_state) (records : list merge_record) : Prop :=
  NoDup keys ∧ (∀ k i, ms_positions s !! k = Some i ↔ keys !! i = Some k)
  ∧ length keys = length records ∧ ms_records s = records.

Lemma indexes_push keys s records k r : indexes keys s records → ms_positions s !! k = None →
  indexes (keys ++ [k]) {| ms_positions := <[k := length (ms_records s)]> (ms_positions s); ms_records := ms_records s ++ [r] |}
    (records ++ [r]).
Proof.
  intros (Hnd & Hpos & Hlen & <-) Hk.
  assert (Hfresh : k ∉ keys).
  { intros (i & Hi)%list_elem_of_lookup. apply Hpos in Hi. congruence. }
  split_and!; simpl; [|intros k' i|rewrite !length_app; simpl; lia|done].
  - apply NoDup_app. split_and!; [done| |apply NoDup_singleton]. by intros k' Hk' ->%list_elem_of_singleton.
  - rewrite lookup_insert_Some, <-Hlen, lookup_snoc_Some, Hpos. split.
    + intros [[<- <-]|[Hne Hi]]; [by right|]. left. split; [by eapply lookup_lt_Some|done].
    + intros [[Hi Hk']|[-> <-]]; [right|by left]. split; [|done]. intros <-. apply Hfresh. by eapply list_elem_of_lookup_2.
Qed.

Lemma record_in_snoc s x y : y.1 ≠ x.1 → record_in (s ++ [y]) x = record_in s x.
Proof.
  intros Hne. unfold record_in. rewrite filter_app, filter_cons_False, filter_nil, app_nil_r by done. done.
Qed.

Lemma filter_none {A} (P : A → Prop) `{∀ x, Decision (P x)} (l : list A) : (∀ x, x ∈ l → ¬ P x) → filter P l = [].
Proof.
  intros Hn. destruct (filter P l) as [|x k] eqn:Hf; [done|]. exfalso.
  assert (Hx : x ∈ filter P l) by (rewrite Hf; left). apply list_elem_of_filter in Hx as [HP Hx]. by apply (Hn x).
Qed.

Lemma filter_all {A} (P : A → Prop) `{∀ x, Decision (P x)} (l : list A) : (∀ x, x ∈ l → P x) → filter P l = l.
Proof.
  induction l as [|x l IH]; intros Hl; [done|]. rewrite filter_cons_True by (apply Hl; left). f_equal.
  apply IH. intros y Hy. apply Hl. by right.
Qed.

Lemma record_in_fresh s x : x.1 ∉ s.*1 → mr_secondary (record_in s x) = None.
Proof.
  intros Hx. unfold record_in. simpl. rewrite filter_none; [done|]. simpl. intros y Hy Heq. apply Hx. rewrite <-Heq. by apply list_elem_of_fmap_2.
Qed.

Lemma record_in_found s x : x.1 ∈ s.*1 → is_Some (mr_secondary (record_in s x)).
Proof.
  intros (y & Hy & Hin)%list_elem_of_fmap. unfold record_in. simpl.
  assert (Hf : y ∈ filter (λ y : keyed, y.1 = x.1) s) by by apply list_elem_of_filter.
  destruct (filter _ s); [by apply not_elem_of_nil in Hf|]. simpl. by eexists.
Qed.

Lemma alter_fix {A} (f : A → A) (l : list A) i x : l !! i = Some x → f x = x → alter f i l = l.
Proof.
  intros Hx Hf. apply list_eq. intros j. rewrite list_lookup_alter. destruct (decide (i = j)) as [<-|]; [|done].
  rewrite Hx. simpl. by rewrite Hf.
Qed.

Lemma indexes_none keys s records k : indexes keys s records → ms_positions s !! k = None → k ∉ keys.
Proof. intros (_ & Hpos & _) Hk (i & Hi)%list_elem_of_lookup. apply Hpos in Hi. congruence. Qed.

Lemma firsts_lane_snoc lane past x :
  firsts (key_pair lane <$> past ++ [x]) = keep_first (firsts (key_pair lane <$> past)) (key_pair lane x).
Proof. by rewrite fmap_app, <-firsts_snoc. Qed.

Lemma lane_primary past : ∀ x s,
  indexes (firsts (key_pair 0 <$> past)).*1 s (map (record_in []) (firsts (key_pair 0 <$> past))) →
  indexes (firsts (key_pair 0 <$> past ++ [x])).*1 (record_result identity 0 s x)
    (map (record_in []) (firsts (key_pair 0 <$> past ++ [x]))).
Proof.
  intros [rank item] s Hs. rewrite !firsts_lane_snoc.
  unfold record_result, keep_first. change (key_pair 0 (rank, item)).1 with (key_at identity 0 rank item).
  set (F := firsts _) in *. destruct (ms_positions s !! _) as [i|] eqn:Hk.
  - pose proof Hs as (Hnd & Hpos & Hlen & Hrec). apply Hpos in Hk.
    rewrite decide_True by by eapply list_elem_of_lookup_2.
    rewrite list_lookup_fmap in Hk. destruct (F !! i) as [y|] eqn:Hy; [|done].
    split_and!; try done. simpl. rewrite Hrec. eapply alter_fix; [by rewrite list_lookup_fmap, Hy|done].
  - rewrite decide_False by by eapply indexes_none. rewrite fmap_app, map_app. by apply (indexes_push _ _ _ _ (record_in [] (key_pair 0 (rank, item)))).
Qed.

Lemma only_in_snoc l other x : only_in (l ++ [x]) other = if decide (x.1 ∈ other.*1) then only_in l other else only_in l other ++ [x].
Proof.
  unfold only_in. rewrite filter_app, filter_cons. destruct (decide (x.1 ∈ other.*1)).
  - rewrite decide_False by auto. by rewrite filter_nil, app_nil_r.
  - by rewrite decide_True.
Qed.

Definition merged_records (P F : list keyed) : list merge_record := map (record_in F) P ++ map record_new (only_in F P).
Definition merged_keys (P F : list keyed) : list merge_key := P.*1 ++ (only_in F P).*1.

(** A result of the first list, met for the first time in the second. *)
Lemma alter_record_in P F i p rank item :
  NoDup P.*1 → P !! i = Some p → p.1 ∉ F.*1 →
  alter (seen_again 1 rank item) i (map (record_in F) P) = map (record_in (F ++ [(p.1, (rank, item))])) P.
Proof.
  intros Hnd Hp HF. apply list_eq. intros j. rewrite list_lookup_alter, !list_lookup_fmap.
  destruct (decide (i = j)) as [<-|Hne].
  - rewrite Hp. simpl fmap. f_equal. unfold seen_again. simpl Nat.eqb. cbv iota. rewrite record_in_fresh by done.
    unfold record_in. simpl. f_equal.
    rewrite filter_app, filter_none, filter_cons_True by (done || (simpl; intros y Hy Hyp; apply HF; rewrite <-Hyp; by apply list_elem_of_fmap_2)). done.
  - destruct (P !! j) as [q|] eqn:Hq; [|done]. simpl. f_equal. symmetry. apply record_in_snoc. simpl. intros Heq. apply Hne.
    eapply NoDup_lookup; [exact Hnd| |]; rewrite list_lookup_fmap; [by rewrite Hp|]. rewrite Hq. simpl. by rewrite Heq.
Qed.

Lemma lane_secondary P past : NoDup P.*1 → ∀ x s,
  indexes (merged_keys P (firsts (key_pair 1 <$> past))) s (merged_records P (firsts (key_pair 1 <$> past))) →
  indexes (merged_keys P (firsts (key_pair 1 <$> past ++ [x]))) (record_result identity 1 s x)
    (merged_records P (firsts (key_pair 1 <$> past ++ [x]))).
Proof.
  intros HP [rank item] s Hs. rewrite !firsts_lane_snoc.
  unfold record_result, keep_first. change (key_pair 1 (rank, item)).1 with (key_at identity 1 rank item).
  set (F := firsts _) in *. set (k := key_at identity 1 rank item).
  destruct (ms_positions s !! k) as [i|] eqn:Hk.
  - pose proof Hs as (Hnd & Hpos & Hlen & Hrec). apply Hpos in Hk. unfold merged_keys in Hk.
    apply lookup_app_Some in Hk as [Hk|[Hi Hk]].
    + rewrite list_lookup_fmap in Hk. destruct (P !! i) as [p|] eqn:Hp; [|done]. simpl in Hk. injection Hk as Hk.
      assert (Hi : i < length (map (record_in F) P)) by (rewrite length_map; by eapply lookup_lt_Some).
      destruct (decide (k ∈ F.*1)) as [HF|HF].
      * split_and!; try done. simpl. rewrite Hrec. unfold merged_records. eapply alter_fix.
        { rewrite lookup_app_l, list_lookup_fmap, Hp by done. done. }
        destruct (record_in_found F p) as [r Hr]; [by rewrite Hk|]. unfold seen_again. simpl Nat.eqb. cbv iota. by rewrite Hr.
      * unfold merged_keys, merged_records in *. rewrite !only_in_snoc, decide_True.
        2:{ simpl. fold k. rewrite <-Hk. apply list_elem_of_fmap_2. by eapply list_elem_of_lookup_2. }
        split_and!; simpl; [done|done|by rewrite Hlen, !length_app, !length_map|].
        rewrite Hrec, alter_app_l by done. f_equal. unfold key_pair. simpl. fold k. rewrite <-Hk.
        apply alter_record_in; [done..|by rewrite Hk].
    + rewrite length_fmap in Hi. rewrite list_lookup_fmap in Hk.
      destruct (only_in F P !! _) as [y|] eqn:Hy; [|done]. simpl in Hk. injection Hk as Hk.
      assert (HyF : y ∈ F) by (apply list_elem_of_lookup_2, list_elem_of_filter in Hy; tauto).
      rewrite decide_True by (rewrite <-Hk; by apply list_elem_of_fmap_2).
      split_and!; try done. simpl. rewrite Hrec. unfold merged_records. eapply alter_fix.
      { rewrite lookup_app_r, list_lookup_fmap, length_map, ?Hy by (by rewrite length_map). rewrite length_fmap in Hy. rewrite Hy. done. }
      done.
  - pose proof (indexes_none _ _ _ _ Hs Hk) as Hnew. unfold merged_keys in Hnew. rewrite elem_of_app in Hnew.
    assert (HkP : k ∉ P.*1) by tauto. assert (HkF : k ∉ F.*1).
    { intros (y & Hy & HF)%list_elem_of_fmap. apply Hnew. right. rewrite Hy. apply list_elem_of_fmap_2.
      apply list_elem_of_filter. by rewrite <-Hy. }
    rewrite decide_False by done. unfold merged_keys, merged_records in *.
    rewrite !only_in_snoc, decide_False, fmap_app, map_app, !app_assoc by done.
    replace (map (record_in (F ++ [key_pair 1 (rank, item)])) P) with (map (record_in F) P).
    2:{ apply map_ext_in. intros p Hp. symmetry. apply record_in_snoc. simpl. fold k. intros ->.
        apply HkP. apply list_elem_of_fmap_2. by apply list_elem_of_In. }
    by apply (indexes_push _ _ _ _ (record_new (key_pair 1 (rank, item)))).
Qed.

(** The records: of the first list with the ranks of the second, then of the second. *)
Lemma records_of_lanes primary secondary :
  records_of identity primary secondary
  = merged_records (firsts (lane_results 0 primary)) (firsts (lane_results 1 secondary)).
Proof.
  unfold records_of, record_lane. set (s0 := {| ms_positions := ∅; ms_records := [] |}).
  pose proof (foldl_history
    (λ past s, indexes (firsts (key_pair 0 <$> past)).*1 s (map (record_in []) (firsts (key_pair 0 <$> past))))
    (record_result identity 0) (imap pair primary) (λ past x s _ H, lane_primary past x s H) [] s0) as H0.
  simpl in H0. specialize (H0 ltac:(split_and!; [constructor|done|done|done])). fold (lane_results 0 primary) in H0.
  set (P := firsts (lane_results 0 primary)) in *. set (s1 := foldl _ s0 _) in *.
  pose proof (foldl_history
    (λ past s, indexes (merged_keys P (firsts (key_pair 1 <$> past))) s (merged_records P (firsts (key_pair 1 <$> past))))
    (record_result identity 1) (imap pair secondary)
    (λ past x s _ H, lane_secondary P past (firsts_NoDup _) x s H) [] s1) as H1.
  destruct H1 as (_ & _ & _ & ->); [|done]. change (firsts (key_pair 1 <$> [])) with (@nil keyed).
  replace (merged_keys P []) with P.*1 by (symmetry; apply app_nil_r).
  by replace (merged_records P []) with (map (record_in []) P) by (symmetry; apply app_nil_r).
Qed.
(** ** Sorting *)

Definition rank_lt (x y : keyed) : Prop := x.2.1 < y.2.1.

Lemma lane_sorted lane results : StronglySorted rank_lt (lane_results lane results).
Proof.
  unfold lane_results. induction results as [|x results IH] using rev_ind; [constructor|].
  rewrite imap_app, fmap_app. apply StronglySorted_app_2; [|done|repeat constructor].
  intros a b Ha Hb. apply list_elem_of_fmap in Ha as (y & -> & Hy). apply list_elem_of_fmap in Hb as (z & -> & Hz).
  simpl in Hz. apply list_elem_of_singleton in Hz as ->. unfold rank_lt. simpl.
  apply list_elem_of_lookup in Hy as (i & Hi). rewrite list_lookup_imap in Hi.
  destruct (results !! i) eqn:Hlen; [|done]. simpl in Hi. injection Hi as <-. simpl.
  apply lookup_lt_Some in Hlen. lia.
Qed.

Lemma mapped_sorted {A B} (R : A → A → Prop) (S : B → B → Prop) (f : A → B) l :
  (∀ x y, x ∈ l → y ∈ l → R x y → S (f x) (f y)) → StronglySorted R l → StronglySorted S (map f l).
Proof.
  intros Hf. induction 1 as [|x l Hl IH Hx]; simpl; constructor.
  - apply IH. intros y z Hy Hz. apply Hf; by right.
  - rewrite Forall_forall in Hx. apply Forall_forall. intros b (y & -> & Hy)%list_elem_of_fmap. apply Hf; [left|by right|by apply Hx].
Qed.

Definition key_lt (a b : merge_record) : Prop := strict lex_le (sort_key a) (sort_key b).

Lemma strict_pair a b c d : a < c ∨ a = c ∧ b < d → strict lex_le (a, b) (c, d).
Proof. unfold strict, lex_le. simpl. lia. Qed.

Lemma sort_key_both F x : x.1 ∈ F.*1 → sort_key (record_in F x) = (0, x.2.1).
Proof. intros Hx. unfold sort_key. destruct (record_in_found F x Hx) as [r ->]. done. Qed.

Lemma sort_key_only F x : x.1 ∉ F.*1 → sort_key (record_in F x) = (1, x.2.1).
Proof. intros Hx. unfold sort_key. by rewrite (record_in_fresh F x Hx). Qed.

(** The records in the order of their keys. *)
Definition ordered_records (P F : list keyed) : list merge_record :=
  map (record_in F) (in_both P F ++ only_in P F) ++ map record_new (only_in F P).

Lemma ordered_sorted P F : StronglySorted rank_lt P → StronglySorted rank_lt F → StronglySorted key_lt (ordered_records P F).
Proof.
  intros HP HF. unfold ordered_records. rewrite map_app.
  assert (Hboth : ∀ r, r ∈ map (record_in F) (in_both P F) → ∃ n, sort_key r = (0, n)).
  { intros r (x & -> & Hx)%list_elem_of_fmap. apply list_elem_of_filter in Hx as [Hx _]. rewrite sort_key_both by done. by eexists. }
  assert (Honly : ∀ r, r ∈ map (record_in F) (only_in P F) → ∃ n, sort_key r = (1, n)).
  { intros r (x & -> & Hx)%list_elem_of_fmap. apply list_elem_of_filter in Hx as [Hx _]. rewrite sort_key_only by done. by eexists. }
  assert (Hnew : ∀ r, r ∈ map record_new (only_in F P) → ∃ n, sort_key r = (2, n)).
  { intros r (x & -> & Hx)%list_elem_of_fmap. by eexists. }
  apply StronglySorted_app_2; [|apply StronglySorted_app_2|].
  - intros a b [Ha|Ha]%elem_of_app (m & Hb)%Hnew; [apply Hboth in Ha as (n & Ha)|apply Honly in Ha as (n & Ha)];
      unfold key_lt; rewrite Ha, Hb; apply strict_pair; lia.
  - intros a b (n & Ha)%Hboth (m & Hb)%Honly. unfold key_lt. rewrite Ha, Hb. apply strict_pair. lia.
  - apply (mapped_sorted rank_lt); [|by apply filter_sorted].
    intros x y [Hx _]%list_elem_of_filter [Hy _]%list_elem_of_filter Hxy. unfold key_lt. rewrite !sort_key_both by done.
    apply strict_pair. auto.
  - apply (mapped_sorted rank_lt); [|by apply filter_sorted].
    intros x y [Hx _]%list_elem_of_filter [Hy _]%list_elem_of_filter Hxy. unfold key_lt. rewrite !sort_key_only by done.
    apply strict_pair. auto.
  - apply (mapped_sorted rank_lt); [|by apply filter_sorted]. intros x y _ _ Hxy. apply strict_pair. auto.
Qed.

Lemma sorted_records primary secondary :
  let P := firsts (lane_results 0 primary) in
  let F := firsts (lane_results 1 secondary) in
  sort_by_key lex_le sort_key (records_of identity primary secondary) = ordered_records P F.
Proof.
  intros P F. rewrite records_of_lanes. apply sort_by_key_strict; [apply _| |].
  - apply ordered_sorted; apply firsts_sorted, lane_sorted.
  - unfold merged_records, ordered_records. fold P F. apply Permutation_app_tail. apply Permutation_map.
    symmetry. apply filter_app_complement.
Qed.

(** ** The budget *)

Lemma indices_split test a b : Forall (λ r, test r = true) a → Forall (λ r, test r = false) b →
  indices test (a ++ b) = seq 0 (length a) ∧ indices (λ r, negb (test r)) (a ++ b) = seq (length a) (length b).
Proof.
  rewrite !Forall_forall. intros Ha Hb. unfold indices. rewrite length_app, seq_app, !filter_app. simpl.
  assert (Hin : ∀ i, i ∈ seq 0 (length a) → ∃ r, (a ++ b) !! i = Some r ∧ test r = true).
  { intros i Hi%elem_of_seq. destruct (lookup_lt_is_Some_2 a i) as [r Hr]; [lia|]. exists r.
    rewrite lookup_app_l by lia. split; [done|]. apply Ha. by eapply list_elem_of_lookup_2. }
  assert (Hout : ∀ i, i ∈ seq (length a) (length b) → ∃ r, (a ++ b) !! i = Some r ∧ test r = false).
  { intros i Hi%elem_of_seq. destruct (lookup_lt_is_Some_2 b (i - length a)) as [r Hr]; [lia|]. exists r.
    rewrite lookup_app_r by lia. split; [done|]. apply Hb. by eapply list_elem_of_lookup_2. }
  rewrite (filter_all _ (seq 0 (length a))), (filter_none _ (seq (length a) (length b))), app_nil_r.
  2:{ intros i (r & -> & Hr)%Hout. by rewrite Hr. }
  2:{ intros i (r & -> & Hr)%Hin. done. }
  rewrite (filter_none _ (seq 0 (length a))), (filter_all _ (seq (length a) (length b))); [done| |].
  - intros i (r & -> & Hr)%Hout. by rewrite Hr.
  - intros i (r & -> & Hr)%Hin. by rewrite Hr.
Qed.

(** Keeping the indices below a bound keeps a prefix. *)
Lemma kept_prefix (kept : list nat) n l : (∀ i, i < length l → i ∈ kept ↔ i < n) →
  omap id (imap (λ i r, if decide (i ∈ kept) then Some (mr_item r) else None) l) = map mr_item (take n l).
Proof.
  intros Hk. induction l as [|r l IH] using rev_ind; [by rewrite take_nil|].
  rewrite length_app in Hk. simpl in Hk. rewrite imap_app, omap_app, IH by (intros i Hi; apply Hk; lia).
  simpl. rewrite Nat.add_0_r, take_app, map_app. f_equal. specialize (Hk (length l) ltac:(lia)).
  destruct (decide (length l ∈ kept)) as [Hin|Hin]; simpl.
  - apply Hk in Hin. by rewrite take_ge by (simpl; lia).
  - rewrite (proj2 (Nat.sub_0_le n (length l))) by (destruct (decide (n ≤ length l)); [done|]; exfalso; apply Hin, Hk; lia). done.
Qed.

(** The same, for a prefix of each of two parts. *)
Lemma kept_prefixes (kept : list nat) n m a b :
  (∀ i, i < length a → i ∈ kept ↔ i < n) → (∀ i, i < length b → length a + i ∈ kept ↔ i < m) →
  omap id (imap (λ i r, if decide (i ∈ kept) then Some (mr_item r) else None) (a ++ b))
  = map mr_item (take n a ++ take m b).
Proof.
  intros Ha Hb. rewrite imap_app, omap_app, map_app. f_equal; [by apply kept_prefix|].
  rewrite <-(kept_prefix (filter (λ i, length a + i ∈ kept) (seq 0 (length b))) m b).
  - f_equal. apply imap_ext. intros i r Hi. simpl. apply decide_ext.
    rewrite list_elem_of_filter, elem_of_seq. apply lookup_lt_Some in Hi. split; [|tauto]. intros ?. split; [done|lia].
  - intros i Hi. rewrite list_elem_of_filter, elem_of_seq, Hb by done. split; [tauto|]. intros ?. split; [done|lia].
Qed.

Lemma take_min {A} n (l : list A) : take (Nat.min n (length l)) l = take n l.
Proof. by rewrite <-firstn_firstn, firstn_all. Qed.

(** The results of a merge are those of the reference, cut to the budget. *)
Lemma merge_within limit reserve primary secondary :
  merge_ranked identity primary secondary (Some limit) reserve
  = within_budget limit reserve (reference_ranking primary secondary).1 (reference_ranking primary secondary).2.
Proof.
  unfold merge_ranked, reference_ranking. rewrite sorted_records. unfold ordered_records.
  set (P := firsts (lane_results 0 primary)). set (F := firsts (lane_results 1 secondary)).
  set (a := map (record_in F) (in_both P F ++ only_in P F)). set (b := map record_new (only_in F P)).
  assert (Ha : found_items (in_both P F ++ only_in P F) = map mr_item a) by (unfold a; by rewrite map_map).
  assert (Hb : found_items (only_in F P) = map mr_item b) by (unfold b; by rewrite map_map).
  simpl. rewrite Ha, Hb. clear Ha Hb. unfold taken_indices, within_budget.
  destruct (indices_split found_by_primary a b) as [-> ->].
  { apply Forall_forall. by intros r (x & -> & _)%list_elem_of_fmap. }
  { apply Forall_forall. by intros r (x & -> & _)%list_elem_of_fmap. }
  clearbody a b. clear P F. set (r := Nat.min reserve limit).
  rewrite !take_seq, !length_app, !length_seq, length_take, !length_map.
  set (rb := r `min` length b). set (pa := (limit - rb) `min` length a).
  assert (Hal : length (filter (λ i, i ∈ seq (length a) (length b)) (seq (length a) rb ++ seq 0 pa)) = rb).
  { rewrite filter_app, filter_all, filter_none, app_nil_r, length_seq; [done| |].
    - intros i Hi%elem_of_seq Hj%elem_of_seq. lia.
    - intros i Hi%elem_of_seq. apply elem_of_seq. lia. }
  rewrite Hal, drop_seq, take_seq, (kept_prefixes _ (limit - rb) (limit - pa)).
  - by rewrite map_app, <-!firstn_map.
  - intros i Hi. rewrite !elem_of_app, !elem_of_seq. lia.
  - intros i Hi. rewrite !elem_of_app, !elem_of_seq. lia.
Qed.

Lemma merge_unlimited reserve primary secondary :
  merge_ranked identity primary secondary None reserve
  = (reference_ranking primary secondary).1 ++ (reference_ranking primary secondary).2.
Proof.
  unfold merge_ranked, reference_ranking. rewrite sorted_records. unfold ordered_records. simpl.
  by rewrite map_app, !map_map.
Qed.

(** C35: A merge is the reference: what both lists found, in the order of the first, then what
    only the first found, then what only the second found, each result once; of these a
    budget keeps a prefix of either part, at most the budget and the budget in full when
    there is enough, and of what only the second found at least what there is of the
    reserve. *)
Theorem merge_ranked_spec (primary secondary : list SearchItem) (reserve : nat) :
  let p := (reference_ranking primary secondary).1 in
  let s := (reference_ranking primary secondary).2 in
  merge_ranked identity primary secondary None reserve = p ++ s
  ∧ ∀ limit, ∃ i j,
      merge_ranked identity primary secondary (Some limit) reserve = take i p ++ take j s
      ∧ i ≤ length p ∧ j ≤ length s
      ∧ i + j = Nat.min limit (length p + length s)
      ∧ Nat.min (Nat.min reserve limit) (length s) ≤ j
      ∧ (Nat.min (Nat.min reserve limit) (length s) < j → i = length p).
Proof.
  intros p s. split; [apply merge_unlimited|]. intros limit. rewrite merge_within. fold p s. unfold within_budget.
  exists (Nat.min (limit - Nat.min (Nat.min reserve limit) (length s)) (length p)).
  rewrite length_take. set (i := Nat.min _ (length p)).
  exists (Nat.min (limit - i) (length s)). split_and!; [|subst i; lia..].
  unfold i. by rewrite !take_min.
Qed.
End merge.
