(* ===== verification/HybridContext.v ===== *)
(** * The hybrid context within its budget
    (crates/search/src/retrievers/hybrid/{budget,context,facts,entities,mod}.rs)

    What a hybrid retrieval hands the model: passages, entity blocks and facts, each whole
    or left out, so that the context fits the model's window.  Lengths are in bytes. *)

From S2P Require Import Prelude Json Strings EdgeText SearchTypes.
From Stdlib Require Import QArith SpecFloat.
#[local] Open Scope N_scope.

Definition len (s : string) : N := N.of_nat (String.length s).

Definition USIZE_MAX : N := 2 ^ 64 - 1.
Definition NL : string := String (Ascii.ascii_of_nat 10) "".

(** ** The budget *)

Definition CHARS_PER_TOKEN : N := 3.
Definition SECTION_SEPARATOR : N := 2.
Definition COMPLETION_RESERVE_TOKENS : N := 512.

(** [context_budget_chars]; [N.sub] saturates at 0. *)
Definition context_budget_chars (max_context_tokens reserved_completion_tokens overhead_chars : N)
    (override_tokens : option N) : N :=
  let budget window := (window - reserved_completion_tokens) * CHARS_PER_TOKEN - overhead_chars in
  match override_tokens with
  | Some 0 => USIZE_MAX
  | Some override_tokens => budget override_tokens
  | None => budget max_context_tokens
  end.

(** An integer rounded to the 53 significant bits of an [f64], ties to even. *)
Definition round53 (n : N) : N :=
  let s := N.log2 n - 52 in
  let q := N.shiftr n s in
  let r := n mod 2 ^ s in
  let half := 2 ^ (s - 1) in
  if (s =? 0) || (r <? half) || ((r =? half) && N.even q) then N.shiftl q s else N.shiftl (q + 1) s.

(** [GRAPH_SECTION_SHARE], the [f64] nearest to 2/3, in units of 2^-53. *)
Definition GRAPH_SECTION_SHARE : N := 6004799503160661.

(** [graph_budget_chars]; rounding does not depend on the exponent. *)
Definition graph_budget_chars (budget : N) : N :=
  N.min USIZE_MAX (N.shiftr (round53 (round53 budget * GRAPH_SECTION_SHARE)) 53).

(** It is the [f64] product, truncated. *)
Example graph_budget_chars_f64 :
  let f64 n := binary_normalize 53 1024 (Z.of_N n) 0 false in
  let product n := SFmul 53 1024 (f64 n) (S754_finite false 6004799503160661 (-53)) in
  let truncated x := match x with S754_finite false m e => Z.shiftl (Zpos m) e | _ => 0%Z end in
  Forall (λ n, truncated (product n) = Z.of_N (graph_budget_chars n)) [1; 3; 8916; 10; 11; 12; 12884901885; 2 ^ 53 + 1; 2 ^ 60 + 5].
Proof. repeat constructor. Qed.

(** ** Blocks taken whole *)

(** [rendered] with a block after it. *)
Definition push_block (joiner rendered block : string) : string :=
  if decide (rendered = "") then block else rendered +:+ joiner +:+ block.

Definition block_cost (joiner rendered block : string) : N :=
  len block + (if decide (rendered = "") then 0 else len joiner).

(** What is rendered, and the bytes used. *)
Definition take_block (joiner : string) (budget : N) (st : string * N) (block : string) : string * N :=
  let '(rendered, used) := st in
  if decide (block = "") then st
  else
    let cost := block_cost joiner rendered block in
    if budget <? used + cost then st else (push_block joiner rendered block, used + cost).

(** A section: its header over what is rendered. *)
Definition section (header rendered : string) : string := header +:+ NL +:+ rendered.

Definition take_blocks_within (header : string) (blocks : list string) (joiner : string) (budget : N) : option string :=
  let rendered := (foldl (take_block joiner budget) ("", len header + 1) blocks).1 in
  if decide (rendered = "") then None else Some (section header rendered).

Definition section_cost (s : option string) (separator : N) : N :=
  match s with
  | Some text => if decide (text = "") then 0 else len text + separator
  | None => 0
  end.

(** ** Entities *)

(** Of an edge's bullet and of an entity, what is rendered and what the facts look at. *)
Record EdgeBullet := { eb_text : string; eb_edge_type_id : option string }.

Record EntityResult := {
  er_name : string;
  er_description : option string;
  er_entity_type : option string;
  er_edges : list EdgeBullet;
  er_covered_edge_type_ids : list string;
}.

Definition ENTITIES_SECTION_HEADER : string := "## Automatically extracted entity hints (may be inaccurate)".

Definition is_structural_type (value : string) : bool := bool_decide (value ∈ ["IndexSchema"; "Entity"]).

(** A trimmed text that is not blank. *)
Definition nonblank (s : string) : option string := if decide (trim s = "") then None else Some (trim s).

Definition format_entity (entity : EntityResult) : string :=
  let name := trim (er_name entity) in
  if decide (name = "") then ""
  else
    let entity_type := t ← er_entity_type entity; t ← nonblank t; if is_structural_type t then None else Some t in
    let header := match entity_type with
                  | Some entity_type => "### " +:+ name +:+ " (" +:+ entity_type +:+ ")"
                  | None => "### " +:+ name
                  end in
    join NL (header :: match er_description entity ≫= nonblank with Some d => [d] | None => [] end
             ++ omap (λ e, (λ t, "- " +:+ t) <$> nonblank (eb_text e)) (er_edges entity)).

Definition format_entities (entities : list EntityResult) : string :=
  match filter (λ b, b ≠ "") (map format_entity entities) with
  | [] => ""
  | blocks => section ENTITIES_SECTION_HEADER (join (NL +:+ NL) blocks)
  end.

(** ** Facts *)

Record FactResult := { fr_id : string; fr_text : string; fr_dataset_ids : list string }.

Definition MIN_FACT_WORD_COUNT : nat := 3.
Definition CONTAINS_FACT_PREFIX : string := "Document chunk mentions ".
Definition FACTS_SECTION_HEADER : string := "## Automatically extracted relationship hints (may be inaccurate)".

Definition fact_bullets (facts : list FactResult) : list string :=
  map (λ f, "- " +:+ fr_text f) (filter (λ f, fr_text f ≠ "") facts).

Definition format_facts (facts : list FactResult) : string :=
  match fact_bullets facts with
  | [] => ""
  | bullets => section FACTS_SECTION_HEADER (join NL bullets)
  end.

Definition resolve_facts_top_k (entities : list EntityResult) (node_scoped : bool) (facts_top_k entity_edge_budget : nat) : nat :=
  if negb (bool_decide (entities = [])) || node_scoped then facts_top_k else entity_edge_budget.

(** [upper_first]: [char::to_uppercase] of the first character, of Unicode. *)
Section facts.
Context `{UuidFormat} (number : json → string) (upper_first : string → string).

Definition fact_display_text (text : string) : string :=
  if String.prefix CONTAINS_FACT_PREFIX text
  then upper_first (String.substring (String.length CONTAINS_FACT_PREFIX)
                      (String.length text - String.length CONTAINS_FACT_PREFIX) text)
  else text.

(** The id and the text of a hit that has both, and words enough. *)
Definition fact_candidate (hit : SearchItem) : option (string * FactResult) :=
  id ← result_id number hit;
  text ← first_display_value number (omap (λ key, json_get key (si_payload hit)) ["text"; "relationship_name"]);
  if decide (length (split_whitespace text) < MIN_FACT_WORD_COUNT)%nat then None
  else Some (id, {| fr_id := id; fr_text := fact_display_text text; fr_dataset_ids := dataset_membership hit |}).

(** [select_facts]; [used_ids] grows with the facts. *)
Fixpoint select_from (hits : list SearchItem) (used_ids : gset string) (facts_top_k : nat) : list FactResult :=
  match hits, facts_top_k with
  | [], _ | _, 0%nat => []
  | hit :: hits, S k =>
      match fact_candidate hit with
      | Some (id, fact) =>
          if decide (id ∈ used_ids) then select_from hits used_ids (S k)
          else fact :: select_from hits ({[id]} ∪ used_ids) k
      | None => select_from hits used_ids (S k)
      end
  end.

Definition select_facts (edge_hits : list SearchItem) (exclude_ids : gset string) (facts_top_k : nat) : list FactResult :=
  select_from edge_hits exclude_ids facts_top_k.

(** The edge types the entity blocks already speak of. *)
Definition bullet_ids (entities : list EntityResult) : gset string :=
  list_to_set (entities ≫= λ e, omap eb_edge_type_id (er_edges e) ++ er_covered_edge_type_ids e).

Definition select_facts_for_entities (edge_hits : list SearchItem) (entities : list EntityResult)
    (reachable_edge_type_ids : gset string) (facts_top_k : nat) (node_scoped : bool) : list FactResult :=
  let reachable hit := match result_id number hit with
                       | Some id => bool_decide (id ∈ reachable_edge_type_ids)
                       | None => false
                       end in
  if decide (facts_top_k = 0%nat) then []
  else select_facts (if node_scoped then filter (λ hit, reachable hit = true) edge_hits else edge_hits)
         (bullet_ids entities) facts_top_k.
End facts.

(** ** Passages

    [display]: [python_display_value], the text of a metadata value. *)

Definition PASSAGES_HEADER : string := "## Relevant passages".
Definition PASSAGE_JOINER : string := NL +:+ "---" +:+ NL.
Definition SUMMARY_PREFIX : string := "[Passage Summary]: ".

Section passages.
Context `{UuidFormat} (number display : json → string).

Definition format_passage (chunk : SearchItem) : option string :=
  text ← json_get "text" (si_payload chunk) ≫= display_value number;
  match json_get "external_metadata" (si_payload chunk) with
  | Some (JObject metadata) =>
      if decide (metadata = ∅) then Some text
      else Some (join NL (map (λ kv : string * json, kv.1 +:+ ": " +:+ display kv.2) (map_to_list metadata)) +:+ NL +:+ text)
  | _ => Some text
  end.

Definition format_passages (chunks : list SearchItem) : string :=
  match omap format_passage chunks with
  | [] => ""
  | texts => section PASSAGES_HEADER (join PASSAGE_JOINER texts)
  end.

(** What stands for a chunk that does not fit: its summary, or its id if it has none. *)
Definition overflow_of (overflow_summaries : gmap string string) (chunk : SearchItem) : option (string + string) :=
  id ← result_id number chunk;
  Some (match overflow_summaries !! id with
        | Some summary => if decide (trim summary = "") then inr id else inl summary
        | None => inr id
        end).

(** The first pass: what is rendered, the bytes used, and what overflows. *)
Record passages_state := { ps_rendered : string; ps_used : N; ps_overflow : list (string + string) }.

Definition whole_passage (overflow_summaries : gmap string string) (depth_budget : N) (st : passages_state) (chunk : SearchItem)
    : passages_state :=
  match format_passage chunk with
  | None => st
  | Some text =>
      let cost := block_cost PASSAGE_JOINER (ps_rendered st) text in
      if depth_budget <? ps_used st + cost then
        {| ps_rendered := ps_rendered st; ps_used := ps_used st;
           ps_overflow := ps_overflow st ++ option_list (overflow_of overflow_summaries chunk) |}
      else {| ps_rendered := push_block PASSAGE_JOINER (ps_rendered st) text; ps_used := ps_used st + cost;
              ps_overflow := ps_overflow st |}
  end.

(** The second pass, over the summaries. *)
Definition summary_line (budget : N) (st : string * N) (summary : string) : string * N :=
  let '(rendered, used) := st in
  let cost := block_cost PASSAGE_JOINER rendered (SUMMARY_PREFIX +:+ summary) in
  if budget <? used + cost then st else (push_block PASSAGE_JOINER rendered (SUMMARY_PREFIX +:+ summary), used + cost).

Definition summaries_in : list (string + string) → list string := omap (λ o, match o with inl s => Some s | inr _ => None end).
Definition ids_in : list (string + string) → list string := omap (λ o, match o with inl _ => None | inr id => Some id end).

Definition format_passages_within_budget (chunks : list SearchItem) (budget : N) (overflow_summaries : gmap string string)
    : string * list string :=
  let depth_budget := if decide (overflow_summaries = ∅) then budget else budget * 2 / 3 in
  let st := foldl (whole_passage overflow_summaries depth_budget)
              {| ps_rendered := ""; ps_used := len PASSAGES_HEADER + 1; ps_overflow := [] |} chunks in
  let rendered := (foldl (summary_line budget) (ps_rendered st, ps_used st) (summaries_in (ps_overflow st))).1 in
  (if decide (rendered = "") then "" else section PASSAGES_HEADER rendered, ids_in (ps_overflow st)).

(** ** The context *)

Definition format_hybrid_context (global_context : option string) (passages entities facts : string) : string :=
  join (NL +:+ NL) (filter (λ s, s ≠ "") (option_list global_context ++ [passages; entities; facts])).

(** [HybridRetriever::assemble_context]: the context, whether it had to be budgeted, and the
    chunks that neither it nor a summary shows. *)
Definition assemble_context (max_context_length : N) (max_context_tokens : option N) (chunks : list SearchItem)
    (entities : list EntityResult) (facts : list FactResult) (overhead_chars : N) (overflow_summaries : gmap string string)
    : string * bool * list string :=
  let unbudgeted := format_hybrid_context None (format_passages chunks) (format_entities entities) (format_facts facts) in
  let budget := context_budget_chars max_context_length COMPLETION_RESERVE_TOKENS overhead_chars max_context_tokens in
  if len unbudgeted <=? budget then (unbudgeted, false, [])
  else
    let graph_budget := graph_budget_chars budget in
    let entities_section := take_blocks_within ENTITIES_SECTION_HEADER (map format_entity entities) (NL +:+ NL) graph_budget in
    let facts_section := take_blocks_within FACTS_SECTION_HEADER (fact_bullets facts) NL
                           (graph_budget - section_cost entities_section SECTION_SEPARATOR) in
    let graph_spend := section_cost entities_section SECTION_SEPARATOR + section_cost facts_section SECTION_SEPARATOR in
    let '(passages, unsummarized) := format_passages_within_budget chunks (budget - graph_spend) overflow_summaries in
    (format_hybrid_context None passages (default "" entities_section) (default "" facts_section), true, unsummarized).
End passages.

(** ** Lengths *)

Lemma len_app a b : len (a +:+ b) = len a + len b.
Proof. unfold len. induction a as [|c a IH]; [done|]. change (String c a +:+ b) with (String c (a +:+ b)). simpl. lia. Qed.

Lemma len_empty s : len s = 0 → s = "".
Proof. destruct s; [done|]. unfold len. simpl. lia. Qed.

Lemma join_snoc joiner l b : l ≠ [] → join joiner (l ++ [b]) = join joiner l +:+ joiner +:+ b.
Proof.
  induction l as [|x l IH]; [done|]. intros _. destruct l as [|y l]; [done|].
  change (x +:+ joiner +:+ join joiner ((y :: l) ++ [b]) = (x +:+ joiner +:+ join joiner (y :: l)) +:+ joiner +:+ b).
  rewrite IH by done. by rewrite !string_app_assoc.
Qed.

Lemma join_empty joiner l : Forall (λ s, s ≠ "") l → join joiner l = "" → l = [].
Proof.
  intros Hl Hj. destruct l as [|x l]; [done|]. apply Forall_cons in Hl as [Hx _]. exfalso. apply Hx.
  destruct l as [|y l]; [done|]. simpl in Hj. destruct x; [done|discriminate].
Qed.

(** Blocks that are not empty are pushed as they are joined, at their cost. *)
Lemma push_block_join joiner l b : Forall (λ s, s ≠ "") l → push_block joiner (join joiner l) b = join joiner (l ++ [b]).
Proof.
  intros Hl. unfold push_block. destruct (decide _) as [He|Hne]; [by rewrite (join_empty joiner l Hl He)|].
  rewrite join_snoc; [done|]. by intros ->.
Qed.

Lemma push_block_len joiner rendered b : len (push_block joiner rendered b) = len rendered + block_cost joiner rendered b.
Proof.
  unfold push_block, block_cost. destruct (decide _) as [->|]; [unfold len; simpl; lia|]. rewrite !len_app. lia.
Qed.

(** Items rendered within a budget, over a header. *)
Record fitted (joiner header : string) (budget : N) (items : list string) (rendered : string) (used : N) : Prop := {
  ft_items : Forall (λ s, s ≠ "") items;
  ft_rendered : rendered = join joiner items;
  ft_used : used = len header + 1 + len rendered;
  ft_fits : items = [] ∨ used ≤ budget;
}.

Lemma fitted_nil joiner header budget : fitted joiner header budget [] "" (len header + 1).
Proof. split; [constructor|done|unfold len; simpl; lia|by left]. Qed.

Lemma fitted_push joiner header budget items rendered used b :
  fitted joiner header budget items rendered used → b ≠ "" → used + block_cost joiner rendered b ≤ budget →
  fitted joiner header budget (items ++ [b]) (push_block joiner rendered b) (used + block_cost joiner rendered b).
Proof.
  intros [Hi -> -> _] Hb Hfit. split.
  - apply Forall_app. split; [done|]. by constructor.
  - by apply push_block_join.
  - rewrite push_block_len. lia.
  - by right.
Qed.

Lemma fitted_more joiner header budget budget' items rendered used :
  budget ≤ budget' → fitted joiner header budget items rendered used → fitted joiner header budget' items rendered used.
Proof. intros Hle [? ? ? Hf]. split; [done..|]. destruct Hf; [by left|right; lia]. Qed.

(** The section of fitted items. *)
Definition rendered_section (header joiner : string) (items : list string) : string :=
  match items with [] => "" | _ => section header (join joiner items) end.

Lemma fitted_section joiner header budget items rendered used :
  fitted joiner header budget items rendered used →
  (if decide (rendered = "") then "" else section header rendered) = rendered_section header joiner items
  ∧ len (rendered_section header joiner items) ≤ budget.
Proof.
  intros [Hi -> Hu Hf]. destruct (decide _) as [He|Hne].
  - rewrite (join_empty _ _ Hi He). split; [done|]. unfold len. simpl. lia.
  - destruct items as [|x items]; [done|]. split; [done|]. destruct Hf as [?|Hf]; [done|]. unfold rendered_section, section.
    rewrite !len_app. change (len NL) with 1. lia.
Qed.

(** ** Sections *)

Lemma take_blocks_fitted joiner header budget blocks :
  let st := foldl (take_block joiner budget) ("", len header + 1) blocks in
  ∃ items, items `sublist_of` blocks ∧ fitted joiner header budget items st.1 st.2.
Proof.
  apply (foldl_history (λ past st, ∃ items, items `sublist_of` past ∧ fitted joiner header budget items st.1 st.2)) with (past := []).
  - intros past b [rendered used] _ (items & Hsub & Hfit). unfold take_block. destruct (decide (b = "")) as [|Hb].
    { exists items. split; [by apply sublist_inserts_r|done]. }
    destruct (N.ltb_spec budget (used + block_cost joiner rendered b)) as [|Hle].
    { exists items. split; [by apply sublist_inserts_r|done]. }
    exists (items ++ [b]). split; [by apply sublist_app|]. by apply fitted_push.
  - exists []. split; [done|]. apply fitted_nil.
Qed.

Lemma take_blocks_within_spec header blocks joiner budget :
  ∃ items, items `sublist_of` blocks
    ∧ default "" (take_blocks_within header blocks joiner budget) = rendered_section header joiner items
    ∧ len (rendered_section header joiner items) ≤ budget
    ∧ section_cost (take_blocks_within header blocks joiner budget) SECTION_SEPARATOR
      = (if decide (items = []) then 0 else len (rendered_section header joiner items) + 2).
Proof.
  destruct (take_blocks_fitted joiner header budget blocks) as (items & Hsub & Hfit). exists items. split; [done|].
  destruct (fitted_section _ _ _ _ _ _ Hfit) as [Heq Hlen]. unfold take_blocks_within. cbv zeta in *.
  destruct (foldl _ _ _) as [rendered used]. simpl in *. destruct Hfit as [Hi Hr _ _].
  destruct (decide (rendered = "")) as [He|Hne]; simpl.
  - split; [done|]. split; [done|]. rewrite decide_True; [done|]. apply (join_empty joiner); [done|congruence].
  - rewrite Heq. split; [done|]. split; [done|]. rewrite (decide_False (P := items = [])); [|by intros ->].
    rewrite decide_False; [done|]. rewrite <-Heq. unfold section. intros Hs. assert (Hl : len (header +:+ NL +:+ rendered) = 0) by by rewrite Hs.
    rewrite !len_app in Hl. change (len NL) with 1 in Hl. lia.
Qed.

Section facts.
Context `{UuidFormat} (number display : json → string).

Lemma format_passage_nonempty chunk text : format_passage number display chunk = Some text → text ≠ "".
Proof.
  unfold format_passage. destruct (json_get "text" _ ≫= display_value number) as [t|] eqn:Ht; [|done]. simpl.
  assert (Hne : t ≠ "").
  { destruct (json_get "text" _) as [v|]; [|done]. simpl in Ht. unfold display_value in Ht.
    destruct v; simpl in Ht; try done; repeat case_decide; congruence. }
  assert (Happ : ∀ a : string, a +:+ NL +:+ t ≠ "").
  { intros a Ha. assert (Hl : len (a +:+ NL +:+ t) = 0) by by rewrite Ha.
    rewrite !len_app in Hl. change (len NL) with 1 in Hl. lia. }
  destruct (json_get "external_metadata" _) as [[]|]; try (by intros [= <-]). case_decide; intros [= <-]; auto.
Qed.

Definition has_passage (chunk : SearchItem) : Prop := is_Some (format_passage number display chunk).

#[local] Instance has_passage_dec chunk : Decision (has_passage chunk).
Proof. unfold has_passage. apply _. Defined.

(** The chunks shown whole and those that do not fit. *)
Record parted (chunks kept left : list SearchItem) : Prop := {
  pt_kept : kept `sublist_of` chunks;
  pt_left : left `sublist_of` chunks;
  pt_all : kept ++ left ≡ₚ filter has_passage chunks;
}.

Lemma whole_passages_fitted summaries depth chunks :
  let st := foldl (whole_passage number display summaries depth)
              {| ps_rendered := ""; ps_used := len PASSAGES_HEADER + 1; ps_overflow := [] |} chunks in
  ∃ kept left, parted chunks kept left
    ∧ ps_overflow st = omap (overflow_of number summaries) left
    ∧ fitted PASSAGE_JOINER PASSAGES_HEADER depth (omap (format_passage number display) kept) (ps_rendered st) (ps_used st).
Proof.
  apply (foldl_history (λ past st, ∃ kept left, parted past kept left
    ∧ ps_overflow st = omap (overflow_of number summaries) left
    ∧ fitted PASSAGE_JOINER PASSAGES_HEADER depth (omap (format_passage number display) kept) (ps_rendered st) (ps_used st)))
    with (past := []).
  - intros past chunk st _ (kept & left & [Hk Hl Hp] & Ho & Hfit). unfold whole_passage.
    destruct (format_passage number display chunk) as [text|] eqn:Htext.
    2: { exists kept, left. split; [|done]. split; [by apply sublist_inserts_r..|].
         rewrite filter_app, filter_cons_False, filter_nil, app_nil_r; [done|]. unfold has_passage. rewrite Htext. by intros []. }
    assert (Hin : filter has_passage [chunk] = [chunk]).
    { rewrite filter_cons_True; [done|]. unfold has_passage. by rewrite Htext. }
    destruct (N.ltb_spec depth (ps_used st + block_cost PASSAGE_JOINER (ps_rendered st) text)) as [|Hle]; simpl.
    + exists kept, (left ++ [chunk]). split; [|split; [|done]].
      * split; [by apply sublist_inserts_r|by apply sublist_app|]. by rewrite app_assoc, filter_app, Hp, Hin.
      * rewrite omap_app, Ho. simpl. by destruct (overflow_of number summaries chunk).
    + exists (kept ++ [chunk]), left. split; [|split; [done|]].
      * split; [by apply sublist_app|by apply sublist_inserts_r|]. rewrite filter_app, Hin, <-Hp.
        rewrite <-!app_assoc. f_equiv. apply Permutation_app_comm.
      * rewrite omap_app. simpl. rewrite Htext. apply fitted_push; [done| |lia]. by eapply format_passage_nonempty.
  - exists [], []. split; [by split|]. split; [done|]. apply fitted_nil.
Qed.

Lemma summary_lines_fitted budget items rendered used summaries :
  fitted PASSAGE_JOINER PASSAGES_HEADER budget items rendered used →
  ∃ shown, shown `sublist_of` summaries
    ∧ let st := foldl (summary_line budget) (rendered, used) summaries in
      fitted PASSAGE_JOINER PASSAGES_HEADER budget (items ++ map (String.append SUMMARY_PREFIX) shown) st.1 st.2.
Proof.
  intros Hfit. apply (foldl_history (λ past st, ∃ shown, shown `sublist_of` past
    ∧ fitted PASSAGE_JOINER PASSAGES_HEADER budget (items ++ map (String.append SUMMARY_PREFIX) shown) st.1 st.2)) with (past := []).
  - intros past s [rendered' used'] _ (shown & Hsub & Hst). unfold summary_line. simpl in Hst.
    destruct (N.ltb_spec budget (used' + block_cost PASSAGE_JOINER rendered' (SUMMARY_PREFIX +:+ s))) as [|Hle].
    { exists shown. split; [by apply sublist_inserts_r|done]. }
    exists (shown ++ [s]). split; [by apply sublist_app|]. rewrite map_app, app_assoc. simpl. by apply fitted_push.
  - exists []. split; [done|]. by rewrite app_nil_r.
Qed.

Lemma passages_within_spec chunks budget summaries :
  ∃ kept left shown,
    parted chunks kept left
    ∧ shown `sublist_of` summaries_in (omap (overflow_of number summaries) left)
    ∧ let items := omap (format_passage number display) kept ++ map (String.append SUMMARY_PREFIX) shown in
      format_passages_within_budget number display chunks budget summaries
      = (rendered_section PASSAGES_HEADER PASSAGE_JOINER items, ids_in (omap (overflow_of number summaries) left))
      ∧ len (rendered_section PASSAGES_HEADER PASSAGE_JOINER items) ≤ budget.
Proof.
  unfold format_passages_within_budget. set (depth := if decide (summaries = ∅) then _ else _).
  assert (Hdepth : depth ≤ budget).
  { unfold depth. destruct (decide _); [done|]. apply N.Div0.div_le_upper_bound. lia. }
  destruct (whole_passages_fitted summaries depth chunks) as (kept & left & Hparts & Ho & Hfit). cbv zeta in *.
  destruct (summary_lines_fitted budget _ _ _ (summaries_in (omap (overflow_of number summaries) left))
    (fitted_more _ _ _ _ _ _ _ Hdepth Hfit)) as (shown & Hshown & Hall).
  destruct (fitted_section _ _ _ _ _ _ Hall) as [Heq Hlen].
  exists kept, left, shown. split; [done|]. split; [done|]. split; [|done]. by rewrite Ho, Heq.
Qed.
End facts.

(** ** The budget of the graph *)

Lemma round53_small n : n < 2 ^ 53 → round53 n = n.
Proof.
  intros Hn. unfold round53. assert (Hs : N.log2 n - 52 = 0).
  { destruct (N.eq_dec n 0) as [->|Hz]; [done|]. apply N.log2_lt_pow2 in Hn; lia. }
  rewrite Hs. simpl. by rewrite N.shiftl_0_r, N.shiftr_0_r.
Qed.

Lemma round53_upper n : 4 * round53 n ≤ 5 * n.
Proof.
  destruct (N.lt_ge_cases n (2 ^ 53)) as [Hn|Hn]; [rewrite round53_small by done; lia|].
  unfold round53. set (s := N.log2 n - 52). assert (Hlog : 53 ≤ N.log2 n) by (apply N.log2_le_pow2; lia).
  assert (Hpow : 2 ^ s * 2 ^ 52 ≤ n).
  { rewrite <-N.pow_add_r. replace (s + 52) with (N.log2 n) by lia. apply N.log2_spec. lia. }
  assert (Hhalf : 2 ^ s = 2 * 2 ^ (s - 1)).
  { rewrite <-N.pow_succ_r'. f_equal. lia. }
  pose proof (N.div_mod n (2 ^ s)) as Hdiv. rewrite !N.shiftl_mul_pow2, N.shiftr_div_pow2.
  change (2 ^ 52) with 4503599627370496 in Hpow.
  set (p := 2 ^ (s - 1)) in *. set (q := n / 2 ^ s) in *. set (r := n mod 2 ^ s) in *. rewrite Hhalf in *.
  assert (Hp : p ≠ 0) by (unfold p; apply N.pow_nonzero; lia). specialize (Hdiv ltac:(lia)).
  destruct (N.eqb_spec s 0) as [Hs|Hs]; [lia|]. simpl.
  destruct (N.ltb_spec r p) as [Hr|Hr]; simpl; [nia|]. destruct (_ && _); nia.
Qed.

Lemma graph_budget_le budget : budget < 2 ^ 53 → graph_budget_chars budget ≤ budget.
Proof.
  intros Hb. unfold graph_budget_chars. rewrite (round53_small budget) by done. etransitivity; [apply N.le_min_r|].
  rewrite N.shiftr_div_pow2. apply N.Div0.div_le_upper_bound. pose proof (round53_upper (budget * GRAPH_SECTION_SHARE)) as Hr.
  unfold GRAPH_SECTION_SHARE in *. change (2 ^ 53) with 9007199254740992. lia.
Qed.

Lemma context_budget_small window reserved overhead override :
  window < 2 ^ 32 → (∀ t, override = Some t → t < 2 ^ 32) → override ≠ Some 0 →
  context_budget_chars window reserved overhead override < 2 ^ 53.
Proof.
  intros Hw Ho Hn. unfold context_budget_chars, CHARS_PER_TOKEN.
  change (2 ^ 32) with 4294967296 in *. change (2 ^ 53) with 9007199254740992.
  destruct override as [t|]; [|lia]. specialize (Ho t eq_refl). destruct t as [|t]; [done|]. lia.
Qed.

(** ** The context *)

Lemma hybrid_context_len passages entities facts :
  len (format_hybrid_context None passages entities facts)
  ≤ len passages + (if decide (entities = "") then 0 else len entities + 2) + (if decide (facts = "") then 0 else len facts + 2).
Proof.
  unfold format_hybrid_context. simpl. rewrite !filter_cons, filter_nil.
  destruct (decide (passages = "")) as [->|Hp], (decide (entities = "")) as [->|He], (decide (facts = "")) as [->|Hf];
    repeat case_decide; try congruence; try tauto; cbn [join]; rewrite ?len_app; change (len "") with 0; change (len NL) with 1; lia.
Qed.

Lemma hybrid_context_no_passages entities facts :
  len (format_hybrid_context None "" entities facts)
  ≤ if decide (facts = "") then len entities else (if decide (entities = "") then 0 else len entities + 2) + len facts.
Proof.
  unfold format_hybrid_context. simpl. rewrite !filter_cons, filter_nil.
  destruct (decide (entities = "")) as [->|He], (decide (facts = "")) as [->|Hf];
    repeat case_decide; try congruence; try tauto; cbn [join]; rewrite ?len_app; change (len "") with 0; change (len NL) with 1; lia.
Qed.

Section context.
Context `{UuidFormat} (number display : json → string).

(** C40: The context never exceeds the budget that the model's window leaves. When all of it fits it
    is the context without a budget. Otherwise nothing is cut: it is made of whole entity
    blocks, whole facts and whole passages, each kind in its order, and of summaries of
    passages that did not fit; and every chunk with a passage is shown whole, or offers its
    summary, or has its id, if it has one, among those reported as lacking a summary. *)
Theorem assemble_context_spec max_length max_tokens chunks entities facts overhead summaries :
  max_length < 2 ^ 32 → (∀ t, max_tokens = Some t → t < 2 ^ 32) →
  let unbudgeted := format_hybrid_context None (format_passages number display chunks) (format_entities entities) (format_facts facts) in
  len unbudgeted ≤ USIZE_MAX →
  let budget := context_budget_chars max_length COMPLETION_RESERVE_TOKENS overhead max_tokens in
  let '(context, budgeted, unsummarized) := assemble_context number display max_length max_tokens chunks entities facts overhead summaries in
  len context ≤ budget
  ∧ budgeted = bool_decide (budget < len unbudgeted)
  ∧ if budgeted then
      ∃ kept left shown blocks bullets,
        parted number display chunks kept left
        ∧ shown `sublist_of` summaries_in (omap (overflow_of number summaries) left)
        ∧ unsummarized = ids_in (omap (overflow_of number summaries) left)
        ∧ blocks `sublist_of` map format_entity entities
        ∧ bullets `sublist_of` fact_bullets facts
        ∧ context = format_hybrid_context None
            (rendered_section PASSAGES_HEADER PASSAGE_JOINER
               (omap (format_passage number display) kept ++ map (String.append SUMMARY_PREFIX) shown))
            (rendered_section ENTITIES_SECTION_HEADER (NL +:+ NL) blocks)
            (rendered_section FACTS_SECTION_HEADER NL bullets)
    else context = unbudgeted ∧ unsummarized = [].
Proof.
  intros Hwindow Hover unbudgeted Husize budget. unfold assemble_context. fold unbudgeted budget.
  destruct (N.leb_spec (len unbudgeted) budget) as [Hle|Hgt].
  { split; [done|]. split; [|done]. symmetry. apply bool_decide_eq_false. lia. }
  assert (Hsmall : budget < 2 ^ 53).
  { apply context_budget_small; [done..|]. intros ->. unfold budget in Hgt. simpl in Hgt. lia. }
  pose proof (graph_budget_le budget Hsmall) as Hgraph. set (graph := graph_budget_chars budget) in *.
  destruct (take_blocks_within_spec ENTITIES_SECTION_HEADER (map format_entity entities) (NL +:+ NL) graph)
    as (blocks & Hblocks & Heq & Hlen & Hcost).
  set (es := take_blocks_within ENTITIES_SECTION_HEADER _ _ _) in *.
  destruct (take_blocks_within_spec FACTS_SECTION_HEADER (fact_bullets facts) NL (graph - section_cost es SECTION_SEPARATOR))
    as (bullets & Hbullets & Heqf & Hlenf & Hcostf).
  set (fs := take_blocks_within FACTS_SECTION_HEADER _ _ _) in *.
  destruct (passages_within_spec number display chunks
    (budget - (section_cost es SECTION_SEPARATOR + section_cost fs SECTION_SEPARATOR)) summaries)
    as (kept & left & shown & Hparts & Hshown & Hpassages & Hlenp).
  rewrite Hpassages, Heq, Heqf. split; [|split].
  2: { symmetry. by apply bool_decide_eq_true. }
  2: { exists kept, left, shown, blocks, bullets. done. }
  set (ps := rendered_section PASSAGES_HEADER _ _) in *.
  assert (Hes : (if decide (rendered_section ENTITIES_SECTION_HEADER (NL +:+ NL) blocks = "") then 0
                 else len (rendered_section ENTITIES_SECTION_HEADER (NL +:+ NL) blocks) + 2) = section_cost es SECTION_SEPARATOR).
  { rewrite Hcost. by destruct blocks. }
  assert (Hfs : (if decide (rendered_section FACTS_SECTION_HEADER NL bullets = "") then 0
                 else len (rendered_section FACTS_SECTION_HEADER NL bullets) + 2) = section_cost fs SECTION_SEPARATOR).
  { rewrite Hcostf. by destruct bullets. }
  destruct (decide (ps = "")) as [->|Hps].
  - etransitivity; [apply hybrid_context_no_passages|].
    destruct (decide (rendered_section FACTS_SECTION_HEADER NL bullets = "")) as [Hz|Hz]; [lia|].
    assert (len (rendered_section FACTS_SECTION_HEADER NL bullets) ≠ 0) by (intros ?%len_empty; done).
    rewrite Hes. lia.
  - etransitivity; [apply hybrid_context_len|]. rewrite Hes, Hfs.
    assert (Hpos : len ps ≠ 0) by (intros ?%len_empty; done). lia.
Qed.
End context.

(** ** Facts *)

Section selection.
Context `{UuidFormat} (number : json → string) (upper_first : string → string).

Notation candidate := (fact_candidate number upper_first).
Notation candidates hits := (omap (λ hit, snd <$> candidate hit) hits).

Lemma candidate_id hit id fact : candidate hit = Some (id, fact) → fr_id fact = id.
Proof.
  unfold fact_candidate. destruct (result_id number hit) as [i|]; [|done]. simpl.
  destruct (first_display_value _ _); [|done]. simpl. case_decide; [done|]. by intros [= <- <-].
Qed.

(** Of a budget only the first facts are kept: the choice does not depend on it. *)
Lemma select_from_take hits : ∀ used k n, (length hits ≤ n)%nat →
  select_from number upper_first hits used k = take k (select_from number upper_first hits used n).
Proof.
  induction hits as [|hit hits IH]; intros used k n Hn; simpl in *; [by rewrite take_nil|].
  destruct n as [|n]; [lia|]. destruct k as [|k]; [done|].
  destruct (candidate hit) as [[id fact]|].
  - destruct (decide (id ∈ used)); [apply (IH used (S k) (S n)); lia|]. simpl. f_equal. apply IH. lia.
  - apply (IH used (S k) (S n)). lia.
Qed.

(** The facts chosen are, in the order of the hits, the first of each id that is not excluded. *)
Theorem select_facts_spec hits exclude : ∃ all,
  all `sublist_of` candidates hits
  ∧ NoDup (map fr_id all)
  ∧ (∀ id, id ∈ map fr_id all ↔ id ∈ map fr_id (candidates hits) ∧ id ∉ exclude)
  ∧ (∀ fact, fact ∈ all → head (filter (λ f, fr_id f = fr_id fact) (candidates hits)) = Some fact)
  ∧ ∀ k, select_facts number upper_first hits exclude k = take k all.
Proof.
  unfold select_facts. exists (select_from number upper_first hits exclude (length hits)).
  cut (∀ n, (length hits ≤ n)%nat → let all := select_from number upper_first hits exclude n in
    all `sublist_of` candidates hits ∧ NoDup (map fr_id all)
    ∧ (∀ id, id ∈ map fr_id all ↔ id ∈ map fr_id (candidates hits) ∧ id ∉ exclude)
    ∧ (∀ fact, fact ∈ all → head (filter (λ f, fr_id f = fr_id fact) (candidates hits)) = Some fact)).
  { intros Hall. destruct (Hall (length hits) (le_n _)) as (? & ? & ? & ?). split_and!; [done..|].
    intros k. by apply select_from_take. }
  revert exclude. induction hits as [|hit hits IH]; intros used n Hn; simpl.
  { split_and!; [done|constructor| |by intros ? ?%not_elem_of_nil]. intros id. split; [by intros ?%not_elem_of_nil|by intros [?%not_elem_of_nil _]]. }
  simpl in Hn. destruct n as [|n]; [lia|]. destruct (candidate hit) as [[id fact]|] eqn:Hc; simpl; [|apply IH; lia].
  pose proof (candidate_id _ _ _ Hc) as Hid. destruct (decide (id ∈ used)) as [Hu|Hu].
  - destruct (IH used (S n)) as (Hsub & Hnd & Hiff & Hfirst); [lia|]. split_and!; [by constructor|done| |].
    + intros i. rewrite Hiff, elem_of_cons, Hid. naive_solver.
    + intros f Hf. rewrite filter_cons_False; [by apply Hfirst|]. rewrite Hid. intros ->.
      destruct (proj1 (Hiff (fr_id f)) (list_elem_of_fmap_2 fr_id _ _ Hf)) as [_ Hnu]. done.
  - destruct (IH ({[id]} ∪ used) n) as (Hsub & Hnd & Hiff & Hfirst); [lia|]. simpl. split_and!.
    + by constructor.
    + constructor; [|done]. rewrite Hiff, Hid. set_solver.
    + intros i. rewrite !elem_of_cons, Hiff, Hid. destruct (decide (i = id)) as [->|Hne]; [|set_solver].
      split; [by auto|by left].
    + intros f [->|Hf]%elem_of_cons; [by rewrite filter_cons_True|].
      rewrite filter_cons_False; [by apply Hfirst|]. rewrite Hid. intros ->.
      destruct (proj1 (Hiff (fr_id f)) (list_elem_of_fmap_2 fr_id _ _ Hf)) as [_ Hnu]. set_solver.
Qed.
End selection.

(** ** An example

    A window that leaves 260 bytes: one of two passages fits, the other has no summary. *)

Definition ex_chunk (id : uuid) (text : string) : SearchItem :=
  {| si_id := Some id; si_score := None; si_payload := JObject {["text" := JString text]} |}.

Definition ex_entity : EntityResult := {|
  er_name := "Ada"; er_description := None; er_entity_type := Some "Person"; er_edges := []; er_covered_edge_type_ids := [] |}.

Definition ex_fact : FactResult := {| fr_id := "f"; fr_text := "Ada wrote the first program"; fr_dataset_ids := [] |}.

Definition ex_long : string := join " " (repeat "a passage of some length" 10).

Lemma assemble_context_spec_witness :
  let H := decimal_format in
  let out := assemble_context (λ _, "") (λ _, "") 612 None [ex_chunk 1 ex_long; ex_chunk 2 "a short one"] [ex_entity] [ex_fact] 40 ∅ in
  out.1.2 = true ∧ out.2 = ["-1-"] ∧ len out.1.1 ≤ 260.
Proof.
  intros H out. split; [vm_compute; reflexivity|]. split; [vm_compute; reflexivity|].
  assert (Hspec := assemble_context_spec (λ _, "") (λ _, "") 612 None [ex_chunk 1 ex_long; ex_chunk 2 "a short one"] [ex_entity]
    [ex_fact] 40 ∅ ltac:(reflexivity) ltac:(intros t; discriminate) ltac:(vm_compute; discriminate)).
  cbv zeta in Hspec. fold out in Hspec. destruct out as [[context budgeted] unsummarized]. exact (proj1 Hspec).
Defined.
