(* ===== verification/GraphWarmup.v ===== *)
(** * Is the graph built? (crates/search/src/graph_warmup.rs,
    crates/database/src/pipelines/sea_orm_impl.rs)

    What [pipeline_runs] says about the graph of a set of datasets, the verdict recall acts
    on, and the cache of verdicts.  The ids of a set are a list, its times are integers. *)

From stdpp Require Import sorting.
From S2P Require Import Prelude Json RunRecords PipelineRuns.

(** ** The evidence *)

Definition ADD_PIPELINE_NAME : string := "add_pipeline".
Definition CHANGE_RECORD_PIPELINE_NAMES : list string := ["forget"; "improve"].

Record GraphBuildEvidence := {
  ge_graph_built : bool;
  ge_latest_build_error : option (option string);
  ge_any_run : bool;
}.

(** Rows of the datasets, of a status if one is asked for, of no excluded pipeline. *)
Definition run_of (datasets : list uuid) (status : option DbStatus) (excluded : list string) (r : PipelineRun) : Prop :=
  (match pr_dataset_id r with Some d => d ∈ datasets | None => False end)
  ∧ match status with Some s => pr_status r = s | None => True end
  ∧ pr_pipeline_name r ∉ excluded.

#[export] Instance run_of_dec datasets status excluded r : Decision (run_of datasets status excluded r).
Proof. unfold run_of. destruct (pr_dataset_id r), status; apply _. Defined.

(** [run_exists] *)
Definition run_exists (datasets : list uuid) (status : option DbStatus) (excluded : list string) (db : pipeline_db) : bool :=
  existsb (λ r, bool_decide (run_of datasets status excluded r)) (pd_runs db).

(** [ORDER BY created_at DESC, id DESC] *)
Definition run_newer (a b : PipelineRun) : Prop :=
  (pr_created_at b < pr_created_at a)%Z ∨ pr_created_at a = pr_created_at b ∧ (pr_id b ≤ pr_id a)%N.

#[export] Instance run_newer_dec a b : Decision (run_newer a b).
Proof. unfold run_newer. apply _. Defined.

(** [latest_errored_run_info] *)
Definition latest_errored_run_info (datasets : list uuid) (excluded : list string) (db : pipeline_db) : option (option json) :=
  pr_run_info <$> head (merge_sort run_newer (filter (run_of datasets (Some DbErrored) excluded) (pd_runs db))).

Definition run_info_error (run_info : option json) : option string :=
  info ← run_info; e ← json_get "error" info; json_as_str e.

(** [graph_build_evidence]; [refused n]: the [n]-th of its queries fails. *)
Definition graph_build_evidence (refused : nat → option string) (dataset_ids : list uuid) (staging ignored : list string)
    (db : pipeline_db) : result string GraphBuildEvidence :=
  match dataset_ids with
  | [] => Ok {| ge_graph_built := false; ge_latest_build_error := None; ge_any_run := false |}
  | _ =>
      let non_graph := staging ++ ignored in
      match refused 0 with Some e => Err ("pipeline run lookup failed: " +:+ e) | None =>
      match refused 1 with Some e => Err ("errored run lookup failed: " +:+ e) | None =>
      match refused 2 with Some e => Err ("pipeline run lookup failed: " +:+ e) | None =>
        Ok {| ge_graph_built := run_exists dataset_ids (Some DbCompleted) non_graph db;
              ge_latest_build_error := run_info_error <$> latest_errored_run_info dataset_ids non_graph db;
              ge_any_run := run_exists dataset_ids None ignored db |}
      end end end
  end.

(** ** The verdict *)

Inductive ReadinessState := Warm | NeverBuilt | BuildFailed.

#[export] Instance ReadinessState_eq_dec : EqDecision ReadinessState.
Proof. solve_decision. Defined.

Definition ReadinessState_as_str (s : ReadinessState) : string :=
  match s with Warm => "warm" | NeverBuilt => "never_built" | BuildFailed => "build_failed" end.

Definition WARM_COUNT : N := (2 ^ 31)%N.
Definition CACHE_MAX_ENTRIES : nat := 1024.

Record WarmupProbe := { wp_state : ReadinessState; wp_datapoint_count : N; wp_error_message : option string }.

#[export] Instance WarmupProbe_eq_dec : EqDecision WarmupProbe.
Proof. solve_decision. Defined.

Definition probe_warm : WarmupProbe := {| wp_state := Warm; wp_datapoint_count := WARM_COUNT; wp_error_message := None |}.
Definition probe_never_built : WarmupProbe := {| wp_state := NeverBuilt; wp_datapoint_count := 0; wp_error_message := None |}.
Definition is_warm (p : WarmupProbe) : bool := bool_decide (wp_state p = Warm).

Definition classify (evidence : GraphBuildEvidence) : WarmupProbe :=
  if ge_graph_built evidence then probe_warm
  else match ge_latest_build_error evidence with
       | Some error_message => {| wp_state := BuildFailed; wp_datapoint_count := 0; wp_error_message := error_message |}
       | None => if ge_any_run evidence then probe_warm else probe_never_built
       end.

Record WarmupConfig := { wc_shortcircuit : bool; wc_threshold : N; wc_cache_ttl : Z }.

(** [GraphWarmup::probe] *)
Definition probe (config : WarmupConfig) (refused : nat → option string) (dataset_ids : list uuid) (db : pipeline_db)
    : result string WarmupProbe :=
  match dataset_ids with
  | [] => Ok probe_never_built
  | _ => result_map (λ evidence,
           let p := classify evidence in
           if is_warm p && (wp_datapoint_count p <? N.min (wc_threshold config) WARM_COUNT)%N then probe_never_built else p)
         (graph_build_evidence refused dataset_ids [ADD_PIPELINE_NAME] CHANGE_RECORD_PIPELINE_NAMES db)
  end.

(** ** The cache of verdicts *)

(** [CacheKey]: requester, tenant and sorted datasets. *)
Notation CacheKey := (N * option N * option (list N))%type.

Definition CacheKey_new (requester : uuid) (tenant : option uuid) (dataset_ids : option (list uuid)) : CacheKey :=
  (requester, tenant, merge_sort N.le <$> dataset_ids).

(** A verdict and when it expires. *)
Notation warmup_cache := (gmap CacheKey (WarmupProbe * Z)).

Definition cached (now : Z) (key : CacheKey) (cache : warmup_cache) : option WarmupProbe :=
  p ← cache !! key; if (now <? snd p)%Z then Some (fst p) else None.

Definition remember (config : WarmupConfig) (now : Z) (key : CacheKey) (p : WarmupProbe) (cache : warmup_cache) : warmup_cache :=
  if is_warm p then
    let cache :=
      if decide (CACHE_MAX_ENTRIES ≤ size cache) then
        let live := filter (λ kv : CacheKey * (WarmupProbe * Z), (now < kv.2.2)%Z) cache in
        if decide (CACHE_MAX_ENTRIES ≤ size live) then ∅ else live
      else cache in
    <[key := (p, (now + wc_cache_ttl config)%Z)]> cache
  else cache.

(** ** What a verdict means *)

Lemma run_exists_iff datasets status excluded db :
  run_exists datasets status excluded db = true ↔ ∃ r, r ∈ pd_runs db ∧ run_of datasets status excluded r.
Proof.
  unfold run_exists. rewrite existsb_exists. split; intros (r & Hr & Hrun); exists r.
  - apply list_elem_of_In in Hr. by apply bool_decide_eq_true in Hrun.
  - split; [by apply list_elem_of_In|by apply bool_decide_eq_true].
Qed.

Lemma run_exists_iff_false datasets status excluded db :
  run_exists datasets status excluded db = false ↔ ¬ ∃ r, r ∈ pd_runs db ∧ run_of datasets status excluded r.
Proof. by rewrite <-run_exists_iff, not_true_iff_false. Qed.

#[export] Instance run_newer_trans : Transitive run_newer.
Proof. intros a b c. unfold run_newer. lia. Qed.

#[export] Instance run_newer_total : Total run_newer.
Proof. intros a b. unfold run_newer. lia. Qed.

Lemma latest_errored_spec datasets excluded db :
  match latest_errored_run_info datasets excluded db with
  | Some run_info => ∃ r, r ∈ pd_runs db ∧ run_of datasets (Some DbErrored) excluded r ∧ pr_run_info r = run_info
      ∧ ∀ r', r' ∈ pd_runs db → run_of datasets (Some DbErrored) excluded r' → run_newer r r'
  | None => ¬ ∃ r, r ∈ pd_runs db ∧ run_of datasets (Some DbErrored) excluded r
  end.
Proof.
  unfold latest_errored_run_info. set (l := filter _ _). pose proof (merge_sort_Permutation run_newer l) as Hp.
  pose proof (StronglySorted_merge_sort run_newer l) as Hs.
  assert (Hin : ∀ r, r ∈ l ↔ run_of datasets (Some DbErrored) excluded r ∧ r ∈ pd_runs db) by (intros r; apply list_elem_of_filter).
  destruct (merge_sort run_newer l) as [|r k] eqn:Hk; simpl.
  - apply Permutation_nil_l in Hp. intros (r & Hr & Hrun). assert (Hrl : r ∈ l) by by apply Hin.
    rewrite <-Hp in Hrl. by apply not_elem_of_nil in Hrl.
  - exists r. destruct (proj1 (Hin r)) as [Hrun Hr]; [rewrite <-Hp; left|]. split_and!; [done..|].
    intros r' Hr' Hrun'. assert (Hl : r' ∈ r :: k) by (rewrite Hp; by apply Hin).
    apply StronglySorted_inv in Hs as [_ Hall]. rewrite Forall_forall in Hall.
    apply elem_of_cons in Hl as [->|Hl]; [unfold run_newer; lia|by apply Hall].
Qed.

(** A row that writes the graph of one of the datasets. *)
Definition writes_graph (datasets : list uuid) (status : DbStatus) (r : PipelineRun) : Prop :=
  run_of datasets (Some status) (ADD_PIPELINE_NAME :: CHANGE_RECORD_PIPELINE_NAMES) r.

(** A warm verdict passes any threshold. *)
Lemma warm_enough config p : wp_datapoint_count p = WARM_COUNT ∨ is_warm p = false →
  is_warm p && (wp_datapoint_count p <? N.min (wc_threshold config) WARM_COUNT)%N = false.
Proof. intros [->| ->]; [|done]. apply andb_false_intro2, N.ltb_ge. lia. Qed.

Lemma classify_enough evidence : wp_datapoint_count (classify evidence) = WARM_COUNT ∨ is_warm (classify evidence) = false.
Proof. unfold classify. repeat case_match; auto. Qed.

(** The evidence of a table, when its queries succeed. *)
Definition evidence_of (dataset_ids : list uuid) (db : pipeline_db) : GraphBuildEvidence :=
  let non_graph := ADD_PIPELINE_NAME :: CHANGE_RECORD_PIPELINE_NAMES in {|
  ge_graph_built := run_exists dataset_ids (Some DbCompleted) non_graph db;
  ge_latest_build_error := run_info_error <$> latest_errored_run_info dataset_ids non_graph db;
  ge_any_run := run_exists dataset_ids None CHANGE_RECORD_PIPELINE_NAMES db |}.

Lemma no_runs_of_nothing status excluded db : run_exists [] status excluded db = false.
Proof.
  apply run_exists_iff_false. intros (r & _ & Hd & _). destruct (pr_dataset_id r); [by apply not_elem_of_nil in Hd|done].
Qed.

Lemma probe_classifies config dataset_ids db :
  probe config (λ _, None) dataset_ids db = Ok (classify (evidence_of dataset_ids db)).
Proof.
  unfold probe. destruct dataset_ids as [|d ds].
  - unfold classify, evidence_of. simpl. rewrite !no_runs_of_nothing. pose proof (latest_errored_spec [] (ADD_PIPELINE_NAME :: CHANGE_RECORD_PIPELINE_NAMES) db) as Hl.
    destruct (latest_errored_run_info _ _ _) as [i|]; [|done]. destruct Hl as (r & Hr & Hrun & _).
    pose proof (no_runs_of_nothing (Some DbErrored) (ADD_PIPELINE_NAME :: CHANGE_RECORD_PIPELINE_NAMES) db) as Hn.
    apply run_exists_iff_false in Hn. exfalso. by eauto.
  - set (p := classify (evidence_of (d :: ds) db)).
    change (Ok (E := string) (if is_warm p && (wp_datapoint_count p <? N.min (wc_threshold config) WARM_COUNT)%N
                              then probe_never_built else p) = Ok p).
    by rewrite warm_enough by apply classify_enough.
Qed.

Lemma any_run_wider datasets status excluded excluded' db : excluded' ⊆ excluded →
  (∃ r, r ∈ pd_runs db ∧ run_of datasets (Some status) excluded r) → ∃ r, r ∈ pd_runs db ∧ run_of datasets None excluded' r.
Proof. intros Hex (r & Hr & Hd & _ & Hn). exists r. split; [done|]. split_and!; [done..|]. intros Hin. by apply Hn, Hex. Qed.

(** C39: When the table can be read, the verdict on a set of datasets is given by its rows. It is
    [BuildFailed] exactly if no run that writes the graph completed and one errored, and its
    message is the latest error's; [NeverBuilt] exactly if there is no run at all, but for
    records of changes (or no dataset); and it is [Warm] otherwise: so a dataset whose graph
    a run built is warm, and stays warm whatever rows are added, those of a later failed
    build included, which the documents say gives the note of a failed build. *)
Theorem probe_spec (config : WarmupConfig) (dataset_ids : list uuid) (db : pipeline_db) :
  ∃ p, probe config (λ _, None) dataset_ids db = Ok p
  ∧ (wp_state p = BuildFailed ↔ (¬ ∃ r, r ∈ pd_runs db ∧ writes_graph dataset_ids DbCompleted r)
                                ∧ ∃ r, r ∈ pd_runs db ∧ writes_graph dataset_ids DbErrored r)
  ∧ (wp_state p = NeverBuilt ↔ ¬ ∃ r, r ∈ pd_runs db ∧ run_of dataset_ids None CHANGE_RECORD_PIPELINE_NAMES r)
  ∧ (wp_state p = BuildFailed → ∃ r, r ∈ pd_runs db ∧ writes_graph dataset_ids DbErrored r
       ∧ wp_error_message p = run_info_error (pr_run_info r)
       ∧ ∀ r', r' ∈ pd_runs db → writes_graph dataset_ids DbErrored r' → run_newer r r')
  ∧ ((∃ r, r ∈ pd_runs db ∧ writes_graph dataset_ids DbCompleted r) → ∀ rows,
     probe config (λ _, None) dataset_ids {| pd_runs := pd_runs db ++ rows; pd_datasets := pd_datasets db |} = Ok probe_warm).
Proof.
  rewrite probe_classifies. eexists. split; [done|]. unfold writes_graph, classify, evidence_of. simpl.
  set (excluded := ADD_PIPELINE_NAME :: CHANGE_RECORD_PIPELINE_NAMES).
  assert (Hwide : ∀ status, (∃ r, r ∈ pd_runs db ∧ run_of dataset_ids (Some status) excluded r) →
    ∃ r, r ∈ pd_runs db ∧ run_of dataset_ids None CHANGE_RECORD_PIPELINE_NAMES r).
  { intros status. apply any_run_wider. unfold excluded. set_solver. }
  pose proof (latest_errored_spec dataset_ids excluded db) as Herr.
  split_and!.
  4:{ intros (r & Hr & Hrun) rows. rewrite probe_classifies. unfold classify, evidence_of. simpl.
      rewrite (proj2 (run_exists_iff _ _ _ _)); [done|]. exists r. simpl. split; [apply elem_of_app; by left|done]. }
  all: destruct (run_exists dataset_ids (Some DbCompleted) excluded db) eqn:Hc;
    [apply run_exists_iff in Hc|apply run_exists_iff_false in Hc];
    [|destruct (latest_errored_run_info dataset_ids excluded db) as [info|];
      [|destruct (run_exists dataset_ids None CHANGE_RECORD_PIPELINE_NAMES db) eqn:Ha;
        [apply run_exists_iff in Ha|apply run_exists_iff_false in Ha]]]; simpl.
  all: try (by naive_solver).
Qed.
