(* ===== verification/SearchMerge.v ===== *)
(** * Search responses and their merge
    (crates/search/src/orchestration/{prepare_search_result,search_orchestrator}.rs)

    The response of one run, and the answers of several datasets as one response.  The
    maps of a response are hash maps: of several entries, the order is [map_to_list]'s. *)

From S2P Require Import Prelude Json Strings SearchTypes.
From Stdlib Require Import QArith.
#[local] Open Scope nat_scope.

Definition CONTEXT_LABEL_COMBINED : string := "combined".
Definition CONTEXT_LABEL_DEFAULT : string := "default".

(** ** Contexts as graphs *)

Definition str_field (keys : list string) (payload : json) : option string :=
  head (omap (λ key, json_get key payload ≫= json_as_str) keys).

(** A node that is not among the nodes yet; every node seen is one of them. *)
Definition push_graph_node (id label : string) (nodes : list SearchGraphNode) : list SearchGraphNode :=
  if decide (id ∈ map sn_id nodes) then nodes else nodes ++ [{| sn_id := id; sn_label := label |}].

Definition context_edge (g : SearchGraph) (item : SearchItem) : SearchGraph :=
  let payload := si_payload item in
  match str_field ["source_id"; "source_name"] payload, str_field ["target_id"; "target_name"] payload,
        str_field ["relationship"; "relationship_name"] payload with
  | Some source_id, Some target_id, Some relationship =>
      let source_label := default source_id (str_field ["source_name"] payload) in
      let target_label := default target_id (str_field ["target_name"] payload) in
      {| sg_nodes := push_graph_node target_id target_label (push_graph_node source_id source_label (sg_nodes g));
         sg_edges := sg_edges g ++ [{| se_source := source_id; se_target := target_id;
                                       se_relationship := relationship; se_weight := si_score item |}] |}
  | _, _, _ => g
  end.

Definition transform_context_to_graph (context : list SearchItem) : option SearchGraph :=
  let g := foldl context_edge {| sg_nodes := []; sg_edges := [] |} context in
  match sg_edges g with [] => None | _ => Some g end.

(** ** Responses *)

Section responses.
Context {evidence : Type}.
Notation SearchResponse := (SearchResponse evidence).

(** [prepare_search_result]; [debug]: the [DEBUG] level is traced. *)
Definition prepare_search_result (debug : bool) (search_type : SearchType) (output : SearchOutput)
    (context : option (list SearchItem)) (datasets : option (list uuid))
    (only_context use_combined_context verbose : bool) : SearchResponse :=
  let context_label := if use_combined_context then CONTEXT_LABEL_COMBINED else CONTEXT_LABEL_DEFAULT in
  let graph := context ≫= transform_context_to_graph in
  let diagnostics : gmap string json :=
    {["context_item_count" := JInt (Z.of_nat (length (default [] context)));
      "graph_edge_count" := JInt (Z.of_nat (length (default [] (sg_edges <$> graph))))]} in
  {| rs_search_type := search_type;
     rs_result := output;
     rs_context := if verbose || only_context then (λ items, {[context_label := items]}) <$> context else None;
     rs_graphs := if verbose || only_context then (λ g, {[context_label := g]}) <$> graph else None;
     rs_diagnostics := if debug then Some diagnostics else None;
     rs_datasets := datasets;
     rs_only_context := only_context;
     rs_use_combined_context := use_combined_context;
     rs_verbose := verbose;
     rs_user_prompt := None;
     rs_system_prompt := None;
     rs_prompts := None;
     rs_evidence := [] |}.

(** [response.datasets = Some(...)], and a new result. *)
Definition with_datasets (ids : list uuid) (r : SearchResponse) : SearchResponse := {|
  rs_search_type := rs_search_type r; rs_result := rs_result r; rs_context := rs_context r; rs_graphs := rs_graphs r;
  rs_diagnostics := rs_diagnostics r; rs_datasets := Some ids; rs_only_context := rs_only_context r;
  rs_use_combined_context := rs_use_combined_context r; rs_verbose := rs_verbose r; rs_user_prompt := rs_user_prompt r;
  rs_system_prompt := rs_system_prompt r; rs_prompts := rs_prompts r; rs_evidence := rs_evidence r |}.

Definition with_result (output : SearchOutput) (r : SearchResponse) : SearchResponse := {|
  rs_search_type := rs_search_type r; rs_result := output; rs_context := rs_context r; rs_graphs := rs_graphs r;
  rs_diagnostics := rs_diagnostics r; rs_datasets := rs_datasets r; rs_only_context := rs_only_context r;
  rs_use_combined_context := rs_use_combined_context r; rs_verbose := rs_verbose r; rs_user_prompt := rs_user_prompt r;
  rs_system_prompt := rs_system_prompt r; rs_prompts := rs_prompts r; rs_evidence := rs_evidence r |}.

(** [key_context_by_dataset] *)
Definition key_context_by_dataset `{UuidFormat} (dataset_id : uuid) (r : SearchResponse) : SearchResponse :=
  let key := uuid_to_string dataset_id in
  let keyed := negb (rs_use_combined_context r) in
  {| rs_search_type := rs_search_type r;
     rs_result := rs_result r;
     rs_context := if keyed then (λ m : gmap string (list SearchItem), {[key := concat (map_to_list m).*2]}) <$> rs_context r
                   else rs_context r;
     rs_graphs := if keyed then
                    match rs_graphs r with
                    | Some graphs => (λ g, {[key := g]}) <$> head (map_to_list graphs).*2
                    | None => None
                    end
                  else rs_graphs r;
     rs_diagnostics := rs_diagnostics r;
     rs_datasets := rs_datasets r;
     rs_only_context := rs_only_context r;
     rs_use_combined_context := rs_use_combined_context r;
     rs_verbose := rs_verbose r;
     rs_user_prompt := rs_user_prompt r;
     rs_system_prompt := rs_system_prompt r;
     rs_prompts := match rs_user_prompt r, rs_system_prompt r with
                   | Some user, Some system => Some {[key := {| sp_user := user; sp_system := system |}]}
                   | _, _ => rs_prompts r
                   end;
     rs_evidence := rs_evidence r |}.

(** [merge_map]; [absorb] is the [MergeValue] of the values. *)
Definition merge_map {V} (absorb : V → V → V) (into from : option (gmap string V)) : option (gmap string V) :=
  match from with
  | None => into
  | Some from => Some (union_with (λ existing v, Some (absorb existing v)) (default ∅ into) from)
  end.

(** [MergeValue::absorb] of contexts, graphs, and of prompts and diagnostics. *)
Definition absorb_context (a b : list SearchItem) : list SearchItem := a ++ b.
Definition absorb_graph (a b : SearchGraph) : SearchGraph :=
  {| sg_nodes := sg_nodes a ++ sg_nodes b; sg_edges := sg_edges a ++ sg_edges b |}.
Definition absorb_nothing {V} (a _ : V) : V := a.

(** *** Outputs *)

Definition is_placeholder (o : SearchOutput) : bool := match o with Items [] => true | _ => false end.

Definition as_items (o : SearchOutput) : option (list SearchItem) := match o with Items l => Some l | _ => None end.
Definition as_texts (o : SearchOutput) : option (list string) :=
  match o with AnswerText t => Some [t] | Texts ts => Some ts | _ => None end.
Definition as_rows (o : SearchOutput) : option (list (list json)) := match o with GraphQueryRows l => Some l | _ => None end.
Definition as_rules (o : SearchOutput) : option (list SearchRule) := match o with Rules l => Some l | _ => None end.

(** The parts of outputs that are all of a shape. *)
Definition all_of {A} (shape : SearchOutput → option (list A)) (outputs : list SearchOutput) : option (list A) :=
  (λ parts, concat parts) <$> mapM shape outputs.

Definition merge_outputs (outputs : list SearchOutput) : SearchOutput :=
  let outputs := if forallb is_placeholder outputs then outputs
                 else filter (λ o, is_placeholder o = false) outputs in
  match all_of as_items outputs with Some items => Items items | None =>
  match all_of as_texts outputs with Some texts => Texts texts | None =>
  match all_of as_rows outputs with Some rows => GraphQueryRows rows | None =>
  match all_of as_rules outputs with Some rules => Rules rules | None =>
  default (Items []) (head outputs)
  end end end end.

(** *** The answers of several datasets *)

Record DatasetSearchResult := {
  dr_dataset_id : option uuid;
  dr_dataset_name : option string;
  dr_dataset_tenant_id : option uuid;
  dr_response : SearchResponse;
  dr_error : option string;
}.

(** One more response: all but the outputs. *)
Definition merge_response (merged r : SearchResponse) : SearchResponse := {|
  rs_search_type := rs_search_type merged;
  rs_result := rs_result merged;
  rs_context := merge_map absorb_context (rs_context merged) (rs_context r);
  rs_graphs := merge_map absorb_graph (rs_graphs merged) (rs_graphs r);
  rs_diagnostics := merge_map absorb_nothing (rs_diagnostics merged) (rs_diagnostics r);
  rs_datasets := Some (default [] (rs_datasets merged) ++ default [] (rs_datasets r));
  rs_only_context := rs_only_context merged;
  rs_use_combined_context := rs_use_combined_context merged;
  rs_verbose := rs_verbose merged;
  rs_user_prompt := match rs_user_prompt merged with Some _ => rs_user_prompt merged | None => rs_user_prompt r end;
  rs_system_prompt := match rs_user_prompt merged with Some _ => rs_system_prompt merged | None => rs_system_prompt r end;
  rs_prompts := merge_map absorb_nothing (rs_prompts merged) (rs_prompts r);
  rs_evidence := rs_evidence merged ++ rs_evidence r |}.

Definition merge_dataset_results (debug : bool) (request : SearchRequest) (results : list DatasetSearchResult) : SearchResponse :=
  match map dr_response results with
  | [] => prepare_search_result debug (rq_search_type request) (Items []) None (Some []) (only_context request)
            (use_combined_context request) (verbose request)
  | [first] => first
  | first :: rest => with_result (merge_outputs (map rs_result (first :: rest))) (foldl merge_response first rest)
  end.

(** [produced_answer] *)
Definition produced_answer (o : SearchOutput) : bool := match o with Texts [] => false | _ => true end.

(** [merged_context] *)
Definition merged_context (r : SearchResponse) : option (list SearchItem) :=
  (λ m : gmap string (list SearchItem), concat (map_to_list m).*2) <$> rs_context r.
End responses.
Arguments DatasetSearchResult : clear implicits.
