(* ===== verification/SearchScope.v ===== *)
(** * What a search may read (crates/search/src/orchestration/{search_orchestrator,hybrid_fallback}.rs)

    Which datasets a caller may read, how a request's datasets are checked and resolved,
    whether their graph is built, and which retriever serves a request.  The databases, the
    clock and the retrievers are operations on a world [X] they may change. *)

From stdpp Require Import sorting.
From S2P Require Import Prelude Json Strings Proc PipelineRuns SearchTypes GraphWarmup.
From Stdlib Require Import QArith.
#[local] Open Scope nat_scope.
#[local] Open Scope cog_scope.

(** ** Databases *)

Record Dataset := { ds_id : uuid; ds_name : string; ds_owner_id : uuid; ds_tenant_id : option uuid }.

(** A call on the world: it may change it. *)
Notation call X A := (X → X * A)%type.

(** [AclDb], of it the listing a search uses. *)
Record AclDb (X : Type) := {
  authorized_dataset_ids_in_tenant : uuid → string → option uuid → call X (result string (list uuid)) }.
Arguments authorized_dataset_ids_in_tenant {X} _ _ _ _ _.

(** [IngestDb], of it the lookups of datasets. *)
Record IngestDb (X : Type) := {
  list_datasets_by_owner : uuid → call X (result string (list Dataset));
  get_dataset_by_name_in_tenant : string → uuid → option uuid → call X (result string (option Dataset));
  get_dataset : uuid → call X (result string (option Dataset)) }.
Arguments list_datasets_by_owner {X} _ _ _.
Arguments get_dataset_by_name_in_tenant {X} _ _ _ _ _.
Arguments get_dataset {X} _ _ _.

(** [GraphWarmup], over a world that holds the run records and its cache. *)
Record Warmup (X : Type) := {
  wu_config : WarmupConfig;
  wu_now : X → Z;
  wu_cache : X → warmup_cache;
  wu_with_cache : warmup_cache → X → X;
  wu_probe : list uuid → call X (result string WarmupProbe) }.
Arguments wu_config {X} _.
Arguments wu_now {X} _ _.
Arguments wu_cache {X} _ _.
Arguments wu_with_cache {X} _ _ _.
Arguments wu_probe {X} _ _ _.

(** [DatasetScoping] *)
Inductive DatasetScoping := Membership | NotDatasetData | ScopingUnsupported.

#[export] Instance DatasetScoping_eq_dec : EqDecision DatasetScoping.
Proof. solve_decision. Defined.

(** [SearchRetriever], of it what decides how a search is run. *)
Class SearchRetriever (R X : Type) := {
  retriever_type : R → SearchType;
  dataset_scoping : R → DatasetScoping;
  supports_session_turn_preparation : R → bool;
  unavailable_reason : R → call X (option string);
  resolve_for_query : R → string → call X (result SearchError (option R));
}.

Definition PERMISSION_DENIED : SearchError :=
  PermissionDenied "Request owner does not have necessary permission: [read] for all datasets requested.".

Definition named {A} (l : option (list A)) : option (list A) := match l with None | Some [] => None | Some l => Some l end.

Section scope.
Context {X : Type} (acl_db : option (AclDb X)) (dataset_resolver : option (IngestDb X)).

(** [readable_dataset_ids]: a set, as the list of its elements. *)
Definition readable_dataset_ids (requester : uuid) (tenant : option uuid) : proc X (result SearchError (gset uuid)) :=
  match acl_db, dataset_resolver with
  | Some acl, _ =>
      let! r := step (authorized_dataset_ids_in_tenant acl requester "read" tenant) in
      Ret (result_map list_to_set (map_err SearchDatabaseError r))
  | None, Some resolver =>
      let! r := step (list_datasets_by_owner resolver requester) in
      Ret (result_map (λ datasets, list_to_set (map ds_id (filter (λ d, ds_tenant_id d = tenant) datasets)))
             (map_err SearchDatabaseError r))
  | None, None => Ret (Ok ∅)
  end.

(** [authorize_dataset_ids] *)
Definition authorize_dataset_ids (requester : uuid) (tenant : option uuid) (ids : list uuid) : proc X (result SearchError unit) :=
  let?! readable := readable_dataset_ids requester tenant in
  Ret (match filter (λ id, id ∉ readable) ids with [] => Ok tt | _ => Err PERMISSION_DENIED end).

(** The lookups of the names, in their order: what resolved and what did not. *)
Fixpoint resolve_names (resolver : IngestDb X) (owner_id : uuid) (tenant_id : option uuid) (names : list string)
    (resolved : list uuid) (missing : list string) : proc X (result SearchError (list uuid * list string)) :=
  match names with
  | [] => Ret (Ok (resolved, missing))
  | name :: names =>
      let! r := step (get_dataset_by_name_in_tenant resolver name owner_id tenant_id) in
      match r with
      | Err e => Ret (Err (SearchDatabaseError e))
      | Ok (Some ds) => resolve_names resolver owner_id tenant_id names (resolved ++ [ds_id ds]) missing
      | Ok None => resolve_names resolver owner_id tenant_id names resolved (missing ++ [name])
      end
  end.

Definition wired {A} (o : option A) : bool := bool_decide (is_Some o).

(** [authorize_and_resolve_datasets] *)
Definition authorize_and_resolve_datasets (user_id tenant_id : option uuid) (datasets : option (list string))
    (dataset_ids : option (list uuid)) : proc X (result SearchError (option (list uuid))) :=
  let?! _ := match named dataset_ids with
             | Some ids =>
                 if wired acl_db || wired dataset_resolver then
                   match user_id with
                   | None => Ret (Err (InvalidInput "dataset_ids filter requires SearchRequest.user_id to authorize the caller"))
                   | Some requester => authorize_dataset_ids requester tenant_id ids
                   end
                 else Ret (Ok tt)
             | None => Ret (Ok tt)
             end in
  match named datasets, named dataset_ids with
  | Some names, None =>
      match dataset_resolver, user_id with
      | None, _ => Ret (Err (InvalidInput "dataset name filter requested but no dataset resolver is wired into the SearchOrchestrator (call SearchBuilder::with_dataset_resolver)"))
      | Some _, None => Ret (Err (InvalidInput "dataset name filter requires SearchRequest.user_id to identify the owner"))
      | Some resolver, Some owner_id =>
          let?! found := resolve_names resolver owner_id tenant_id names [] [] in
          let '(resolved, missing) := found in
          match resolved with
          | [] => Ret (Err (DatasetNotFound (join ", " missing)))
          | _ =>
              let?! _ := if wired acl_db then authorize_dataset_ids owner_id tenant_id resolved else Ret (Ok tt) in
              Ret (Ok (Some resolved))
          end
      end
  | _, _ => Ret (Ok None)
  end.

(** ** Readiness *)

(** [probe_readiness] *)
Definition probe_readiness (warmup : Warmup X) (requester : uuid) (tenant : option uuid) (dataset_ids : option (list uuid))
    : proc X (result SearchError WarmupProbe) :=
  if negb (wired acl_db) && negb (wired dataset_resolver) then Ret (Ok probe_warm)
  else
    let?! readable := readable_dataset_ids requester tenant in
    let targets := match dataset_ids with
                   | None => elements readable
                   | Some ids => filter (λ id, id ∈ readable) ids
                   end in
    let! r := step (wu_probe warmup targets) in
    Ret (map_err SearchDatabaseError r).

(** [assess_memory_readiness] *)
Definition assess_memory_readiness (graph_warmup : option (Warmup X)) (requester : uuid) (tenant : option uuid)
    (dataset_ids : option (list uuid)) : proc X WarmupProbe :=
  match graph_warmup with
  | None => Ret probe_warm
  | Some warmup =>
      let key := CacheKey_new requester tenant dataset_ids in
      let! hit := read (λ x, cached (wu_now warmup x) key (wu_cache warmup x)) in
      match hit with
      | Some p => Ret p
      | None =>
          let! r := probe_readiness warmup requester tenant dataset_ids in
          match r with
          | Ok p => modify (λ x, wu_with_cache warmup (remember (wu_config warmup) (wu_now warmup x) key p (wu_cache warmup x)) x);!
                    Ret p
          | Err _ => Ret probe_warm
          end
      end
  end.

(** [assess_recall_readiness] *)
Definition assess_recall_readiness (graph_warmup : option (Warmup X)) (requester : uuid) (tenant : option uuid)
    (datasets : option (list string)) (dataset_ids : option (list uuid)) : proc X (result SearchError WarmupProbe) :=
  let! resolved := authorize_and_resolve_datasets (Some requester) tenant datasets dataset_ids in
  match resolved with
  | Err (PermissionDenied _ | DatasetNotFound _ | InvalidInput _) as e => Ret (match e with Err e => Err e | Ok _ => Ok probe_warm end)
  | Err _ => Ret (Ok probe_warm)
  | Ok resolved =>
      let targets := match resolved with Some ids => Some ids | None => named dataset_ids end in
      let! p := assess_memory_readiness graph_warmup requester tenant targets in
      Ret (Ok p)
  end.

(** [dataset_label] *)
Definition dataset_label (dataset_id : option uuid) : proc X (option string * option uuid) :=
  match dataset_id, dataset_resolver with
  | Some id, Some resolver =>
      let! r := step (get_dataset resolver id) in
      Ret (match r with Ok (Some ds) => (Some (ds_name ds), ds_tenant_id ds) | _ => (None, None) end)
  | _, _ => Ret (None, None)
  end.
End scope.

(** ** Retrievers *)

Section retrievers.
Context {R X : Type} `{SearchRetriever R X} (registry : gmap SearchType R) (by_name : gmap string R)
  (default_feedback_influence : Q).

Definition passed_graph_only_knob (r : SearchRequest) : option string :=
  if wired (rq_wide_search_top_k r) then Some "wide_search_top_k"
  else if wired (rq_triplet_distance_penalty r) then Some "triplet_distance_penalty" else None.

Definition requested_graph_only_filter (r : SearchRequest) : option string :=
  if match rq_node_type r with Some t => negb (bool_decide (t = "NodeSet")) | None => false end then Some "node_type"
  else if wired (rq_neighborhood_depth r) then Some "neighborhood_depth"
  else if negb (Qle_bool (default default_feedback_influence (rq_feedback_influence r)) 0) then Some "feedback_influence"
  else None.

(** [SearchTypeRegistry::get] *)
Definition retriever_get (t : SearchType) : result SearchError R :=
  match registry !! t with Some r => Ok r | None => Err (UnsupportedSearchType t) end.

(** [hybrid_or_fallback] *)
Definition hybrid_or_fallback (hybrid : R) (request : SearchRequest) : proc X (result SearchError R) :=
  match passed_graph_only_knob request with
  | Some knob => Ret (Err (InvalidHybridSearchConfig (knob +:+ " requires search_type GRAPH_COMPLETION")))
  | None =>
      let! reason := match requested_graph_only_filter request with
                     | Some filter => Ret (Some (filter +:+ " is set"))
                     | None => step (unavailable_reason hybrid)
                     end in
      Ret (match reason with Some _ => retriever_get GraphCompletion | None => Ok hybrid end)
  end.

(** [resolve_retriever] *)
Definition resolve_retriever (request : SearchRequest) : proc X (result SearchError R) :=
  match rq_custom_search_type request with
  | Some custom_type =>
      Ret (match by_name !! custom_type with
           | Some r => Ok r
           | None => Err (InvalidInput ("No custom retriever registered for '" +:+ custom_type +:+ "'"))
           end)
  | None =>
      match retriever_get (rq_search_type request) with
      | Err e => Ret (Err e)
      | Ok retriever =>
          if decide (rq_search_type request = HybridCompletion) then hybrid_or_fallback retriever request
          else Ret (Ok retriever)
      end
  end.
End retrievers.

(** [validate_neighborhood] *)
Definition validate_neighborhood (depth seed_top_k : option N) : result SearchError unit :=
  if decide (depth = Some 0%N) then Err (InvalidInput "neighborhood_depth must be a positive integer.")
  else if decide (seed_top_k = Some 0%N) then Err (InvalidInput "neighborhood_seed_top_k must be a positive integer.")
  else Ok tt.
