(* ===== verification/SearchDatasets.v ===== *)
(** * A search and its datasets (crates/search/src/orchestration/search_orchestrator.rs)

    [search_datasets_impl]: which datasets a request runs over, the turn of the session
    around it, a run per dataset, and the answers of the runs.  What a retriever's run does,
    and the session's own operations, are given; the datasets whose stores are opened are
    logged. *)

From stdpp Require Import sorting.
From S2P Require Import Prelude Json Strings Proc SearchTypes SearchMerge SearchScope.
From Stdlib Require Import QArith.
#[local] Open Scope nat_scope.
#[local] Open Scope cog_scope.

Inductive SessionSearchMode := Sequential | Concurrent.

#[export] Instance SessionSearchMode_eq_dec : EqDecision SessionSearchMode.
Proof. solve_decision. Defined.

(** Of a turn's preparation, what the search acts on. *)
Record SessionTurnPreparation := {
  tp_should_answer : bool;
  tp_response_to_user : option string;
  tp_effective_query : string;
}.

(** A session manager, an LLM, and the operations on turns that use them. [S]: what a
    completion is given of the session; [T]: what a turn's analysis is given. *)
Record Sessions (X S T : Type) := {
  ss_available : bool;
  ss_default_session_id : string;
  prepare_session_turn : string → option string → string → call X SessionTurnPreparation;
  load_session_context : SearchRequest → bool → call X S;
  load_turn_snapshot : SearchRequest → string → option string → call X (S * T);
  (** The spawned analysis, as its join gives it; [None]: the task failed. *)
  analysed_turn : string → string → T → call X (option SessionTurnPreparation);
  commit_session_turn_analysis : string → option string → string → SessionTurnPreparation → T → call X SessionTurnPreparation;
  save_session_turn : SearchRequest → SearchType → SearchOutput → option (list SearchItem) → option S → call X unit;
  lock_session_turn : uuid → string → call X unit;
  unlock_session_turn : uuid → string → call X unit;
}.
Arguments ss_available {X S T} _.
Arguments ss_default_session_id {X S T} _.
Arguments prepare_session_turn {X S T} _ _ _ _ _.
Arguments load_session_context {X S T} _ _ _ _.
Arguments load_turn_snapshot {X S T} _ _ _ _ _.
Arguments analysed_turn {X S T} _ _ _ _ _.
Arguments commit_session_turn_analysis {X S T} _ _ _ _ _ _ _.
Arguments save_session_turn {X S T} _ _ _ _ _ _ _.
Arguments lock_session_turn {X S T} _ _ _ _.
Arguments unlock_session_turn {X S T} _ _ _ _.

(** The world of a search, and the datasets whose stores it opened. *)
Record search_world (X : Type) := { sw_x : X; sw_searched : list uuid }.
Arguments sw_x {X} _.
Arguments sw_searched {X} _.
Arguments Build_search_world {X} _ _.

#[export] Instance search_scheduler {X} `{Scheduler X} : Scheduler (search_world X) := {|
  choose w := choose (sw_x w);
  advance w := {| sw_x := advance (sw_x w); sw_searched := sw_searched w |} |}.

Definition lift {X A} (p : proc X A) : proc (search_world X) A :=
  zoom sw_x (λ x w, {| sw_x := x; sw_searched := sw_searched w |}) p.

(** [with_dataset] *)
Definition with_dataset {X A} (dataset_id : uuid) (p : proc X A) : proc (search_world X) A :=
  modify (λ w, {| sw_x := sw_x w; sw_searched := sw_searched w ++ [dataset_id] |});! lift p.

(** ** Requests *)

Definition rq_with_query (q : string) (r : SearchRequest) : SearchRequest := {|
  rq_query_text := q; rq_search_type := rq_search_type r; rq_top_k := rq_top_k r; rq_datasets := rq_datasets r;
  rq_dataset_ids := rq_dataset_ids r; rq_system_prompt := rq_system_prompt r; rq_system_prompt_path := rq_system_prompt_path r;
  rq_only_context := rq_only_context r; rq_use_combined_context := rq_use_combined_context r; rq_session_id := rq_session_id r;
  rq_node_type := rq_node_type r; rq_node_name := rq_node_name r; rq_node_name_filter_operator := rq_node_name_filter_operator r;
  rq_wide_search_top_k := rq_wide_search_top_k r; rq_triplet_distance_penalty := rq_triplet_distance_penalty r;
  rq_user_id := rq_user_id r; rq_tenant_id := rq_tenant_id r; rq_verbose := rq_verbose r;
  rq_feedback_influence := rq_feedback_influence r; rq_retriever_specific_config := rq_retriever_specific_config r;
  rq_response_schema := rq_response_schema r; rq_custom_search_type := rq_custom_search_type r;
  rq_auto_feedback_detection := rq_auto_feedback_detection r; rq_neighborhood_depth := rq_neighborhood_depth r;
  rq_neighborhood_seed_top_k := rq_neighborhood_seed_top_k r; rq_include_references := rq_include_references r |}.

(** The same request with other datasets, session and prompt path. *)
Definition rq_with (datasets : option (list string)) (ids : option (list uuid)) (session path : option string)
    (r : SearchRequest) : SearchRequest := {|
  rq_query_text := rq_query_text r; rq_search_type := rq_search_type r; rq_top_k := rq_top_k r; rq_datasets := datasets;
  rq_dataset_ids := ids; rq_system_prompt := rq_system_prompt r; rq_system_prompt_path := path;
  rq_only_context := rq_only_context r; rq_use_combined_context := rq_use_combined_context r; rq_session_id := session;
  rq_node_type := rq_node_type r; rq_node_name := rq_node_name r; rq_node_name_filter_operator := rq_node_name_filter_operator r;
  rq_wide_search_top_k := rq_wide_search_top_k r; rq_triplet_distance_penalty := rq_triplet_distance_penalty r;
  rq_user_id := rq_user_id r; rq_tenant_id := rq_tenant_id r; rq_verbose := rq_verbose r;
  rq_feedback_influence := rq_feedback_influence r; rq_retriever_specific_config := rq_retriever_specific_config r;
  rq_response_schema := rq_response_schema r; rq_custom_search_type := rq_custom_search_type r;
  rq_auto_feedback_detection := rq_auto_feedback_detection r; rq_neighborhood_depth := rq_neighborhood_depth r;
  rq_neighborhood_seed_top_k := rq_neighborhood_seed_top_k r; rq_include_references := rq_include_references r |}.

Definition rq_with_ids (ids : list uuid) (r : SearchRequest) : SearchRequest :=
  rq_with (rq_datasets r) (Some ids) (rq_session_id r) (rq_system_prompt_path r) r.
Definition rq_with_session (session : string) (r : SearchRequest) : SearchRequest :=
  rq_with (rq_datasets r) (rq_dataset_ids r) (Some session) (rq_system_prompt_path r) r.

(** [dataset_request]: the request of one dataset's run. *)
Definition rq_of_dataset (dataset_id : uuid) (r : SearchRequest) : SearchRequest :=
  rq_with None (Some [dataset_id]) (rq_session_id r) (rq_system_prompt_path r) r.

(** The default system prompt file, for a request that names no prompt. *)
Definition rq_with_default_prompt (default_path : option string) (r : SearchRequest) : SearchRequest :=
  match rq_system_prompt r, rq_system_prompt_path r, default_path with
  | None, None, Some path => rq_with (rq_datasets r) (rq_dataset_ids r) (rq_session_id r) (Some path) r
  | _, _, _ => r
  end.

Definition nonempty_session (r : SearchRequest) : bool :=
  match rq_session_id r with Some id => negb (bool_decide (id = "")) | None => false end.

(** [concurrent_session::eligible] *)
Definition eligible (r : SearchRequest) (resolved_type : SearchType) (is_batch : bool) : bool :=
  negb (wired (rq_custom_search_type r))
  && negb (bool_decide (rq_search_type r = FeelingLucky))
  && nonempty_session r
  && wired (rq_user_id r)
  && negb is_batch
  && negb (only_context r)
  && bool_decide (resolved_type ∈ [RagCompletion; GraphCompletion; HybridCompletion]).

Definition names_no_dataset (r : SearchRequest) : bool :=
  negb (wired (named (rq_dataset_ids r))) && negb (wired (named (rq_datasets r))).

(** Each id once, first occurrence kept. *)
Fixpoint first_ids (seen : list uuid) (ids : list uuid) : list uuid :=
  match ids with
  | [] => []
  | id :: ids => if decide (id ∈ seen) then first_ids seen ids else id :: first_ids (id :: seen) ids
  end.

(** [SessionManager::default_session_id_for] *)
Definition default_session_id_for `{UuidFormat} (default_id : string) (dataset_id : option uuid) : string :=
  match dataset_id with Some id => default_id +:+ "_" +:+ uuid_to_string id | None => default_id end.

(** The one dataset a session's default id is scoped to. *)
Definition single_dataset (r : SearchRequest) (preflight : option (list uuid)) : option uuid :=
  match first_ids [] (default [] (rq_dataset_ids r)), preflight with
  | [only], _ => Some only
  | _, Some [only] => Some only
  | _, _ => None
  end.

(** ** The search *)

Record Orchestrator (R X S T evidence : Type) := {
  or_acl_db : option (AclDb X);
  or_dataset_resolver : option (IngestDb X);
  or_per_dataset_storage : bool;
  or_registry : gmap SearchType R;
  or_by_name : gmap string R;
  or_default_feedback_influence : Q;
  or_default_system_prompt_path : option string;
  or_auto_feedback_default : bool;
  or_session_search_mode : SessionSearchMode;
  or_sessions : option (Sessions X S T);
  or_llm : bool;
  or_debug : bool;
  (** [run_search]: one retriever run, in the current scope. *)
  run_search : SearchRequest → R → SearchType → bool → bool → option string → option S → bool →
    proc X (result SearchError (SearchResponse evidence));
  run_concurrent_session_turn : SearchRequest → R → SearchType → bool →
    proc X (result SearchError (SearchResponse evidence * bool));
  log_search_history : SearchRequest → SearchResponse evidence → call X unit;
  log_empty_scope_history : SearchRequest → call X unit;
  append_reference_text : R → SearchRequest → list (DatasetSearchResult evidence) → list (DatasetSearchResult evidence);
}.
Arguments or_acl_db {R X S T evidence} _.
Arguments or_dataset_resolver {R X S T evidence} _.
Arguments or_per_dataset_storage {R X S T evidence} _.
Arguments or_registry {R X S T evidence} _.
Arguments or_by_name {R X S T evidence} _.
Arguments or_default_feedback_influence {R X S T evidence} _.
Arguments or_default_system_prompt_path {R X S T evidence} _.
Arguments or_auto_feedback_default {R X S T evidence} _.
Arguments or_session_search_mode {R X S T evidence} _.
Arguments or_sessions {R X S T evidence} _.
Arguments or_llm {R X S T evidence} _.
Arguments or_debug {R X S T evidence} _.
Arguments run_search {R X S T evidence} _ _ _ _ _ _ _ _ _.
Arguments run_concurrent_session_turn {R X S T evidence} _ _ _ _ _.
Arguments log_search_history {R X S T evidence} _ _ _ _.
Arguments log_empty_scope_history {R X S T evidence} _ _ _.
Arguments append_reference_text {R X S T evidence} _ _ _ _.

Section search.
Context {R X S T evidence : Type} `{SearchRetriever R X} `{UuidFormat} `{Scheduler X}.
Context (o : Orchestrator R X S T evidence).
Notation answer := (result SearchError (list (DatasetSearchResult evidence))).
Notation prog A := (proc (search_world X) A).

Definition session_available : bool := match or_sessions o with Some s => ss_available s | None => false end.

(** One answer that is not of one dataset of a fan-out. *)
Definition answered (dataset_id : option uuid) (label : option string * option uuid) (r : SearchResponse evidence) : answer :=
  Ok [{| dr_dataset_id := dataset_id; dr_dataset_name := label.1; dr_dataset_tenant_id := label.2; dr_response := r;
         dr_error := None |}].

(** The dataset a request names, if it names one. *)
Definition only_dataset (r : SearchRequest) : option uuid :=
  match rq_dataset_ids r with Some [only] => Some only | _ => None end.

(** [acknowledge_declined_turn] *)
Definition acknowledge_declined_turn (request : SearchRequest) (search_type : SearchType) (response_to_user : option string)
    : proc X (SearchResponse evidence) :=
  let said := AnswerText (default "Got it." response_to_user) in
  let! _ := match or_sessions o with
            | Some s => step (save_session_turn s request search_type said None None)
            | None => Ret tt
            end in
  let response := prepare_search_result (or_debug o) search_type said None (rq_dataset_ids request) false
                    (use_combined_context request) (verbose request) in
  step (log_search_history o request response);! Ret response.

(** *** The datasets of a request *)

(** The readable datasets of a request that names none, in the order of their ids. *)
Definition readable_in_order (requester : uuid) (tenant : option uuid) : proc X (result SearchError (list uuid)) :=
  let?! readable := readable_dataset_ids (or_acl_db o) (or_dataset_resolver o) requester tenant in
  Ret (Ok (merge_sort N.le (elements readable))).

Definition preflight_datasets (scoping : DatasetScoping) (request : SearchRequest) : proc X (result SearchError (option (list uuid))) :=
  if or_per_dataset_storage o && negb (bool_decide (scoping = NotDatasetData)) && names_no_dataset request then
    match rq_user_id request with
    | None => Ret (Err (InvalidInput "a search under per-dataset storage that names no dataset requires SearchRequest.user_id to find the datasets the caller may read"))
    | Some requester => let?! readable := readable_in_order requester (rq_tenant_id request) in Ret (Ok (Some readable))
    end
  else Ret (Ok None).

(** The datasets of a fan-out. *)
Definition fan_out_datasets (request : SearchRequest) (preflight : option (list uuid)) : proc X (result SearchError (list uuid)) :=
  match preflight with
  | Some readable => Ret (Ok readable)
  | None =>
      if names_no_dataset request then
        match rq_user_id request with
        | None => Ret (Err (InvalidInput "a search under per-dataset storage that names no dataset requires SearchRequest.user_id to find the datasets the caller may read"))
        | Some requester => readable_in_order requester (rq_tenant_id request)
        end
      else Ret (Ok (first_ids [] (default [] (rq_dataset_ids request))))
  end.

(** *** Collecting the answers of the datasets *)

(** A dataset's run: its label and its outcome. *)
Notation outcome := (uuid * (option string * option uuid) * result SearchError (SearchResponse evidence))%type.

Definition no_data_response (search_type : SearchType) (request : SearchRequest) (dataset_id : uuid) : SearchResponse evidence :=
  key_context_by_dataset dataset_id
    (prepare_search_result (or_debug o) search_type (Items []) (if only_context request then Some [] else None)
       (Some [dataset_id]) (only_context request) (use_combined_context request) (verbose request)).

Fixpoint collect_outcomes (search_type : SearchType) (request : SearchRequest) (outcomes : list outcome)
    (results : list (DatasetSearchResult evidence)) (no_data : list string)
    : result SearchError (list (DatasetSearchResult evidence) * list string) :=
  match outcomes with
  | [] => Ok (results, no_data)
  | (dataset_id, (name, tenant), out) :: outcomes =>
      match out with
      | Ok response =>
          let response := with_datasets [dataset_id] (key_context_by_dataset dataset_id response) in
          collect_outcomes search_type request outcomes
            (results ++ [{| dr_dataset_id := Some dataset_id; dr_dataset_name := name; dr_dataset_tenant_id := tenant;
                            dr_response := response; dr_error := None |}]) no_data
      | Err (NotFound reason) =>
          let label := default (uuid_to_string dataset_id) name in
          collect_outcomes search_type request outcomes
            (results ++ [{| dr_dataset_id := Some dataset_id; dr_dataset_name := name; dr_dataset_tenant_id := tenant;
                            dr_response := no_data_response search_type request dataset_id; dr_error := Some reason |}])
            (no_data ++ ["'" +:+ label +:+ "' (id: " +:+ uuid_to_string dataset_id +:+ "): " +:+ reason])
      | Err e => Err e
      end
  end.

Definition NEWLINE : string := String (Ascii.ascii_of_nat 10) "".

(** The error of a search none of whose datasets has anything to search. *)
Definition nothing_searchable (results : list (DatasetSearchResult evidence)) (no_data : list string) : SearchError :=
  match results with
  | [{| dr_error := Some reason |}] => NotFound reason
  | _ =>
      NotFound (match no_data with
                | [only] => "No searchable memory in dataset " +:+ only
                | all => "No searchable memory in any of the " +:+ pretty (N.of_nat (length all)) +:+ " searched datasets:"
                         +:+ NEWLINE +:+ join NEWLINE (map (λ line, "- " +:+ line) all)
                end)
  end.

Definition dataset_answers (search_type : SearchType) (request : SearchRequest) (outcomes : list outcome) : answer :=
  let? collected := collect_outcomes search_type request outcomes [] [] in
  let '(results, no_data) := collected in
  if decide (length no_data = length results) then Err (nothing_searchable results no_data) else Ok results.

(** *** The fan-out *)

Definition dataset_run (request : SearchRequest) (retriever : R) (search_type : SearchType) (snapshot : option S)
    (concurrent : bool) (dataset_id : uuid) : prog outcome :=
  let! out := with_dataset dataset_id
                (run_search o (rq_of_dataset dataset_id request) retriever search_type true false None snapshot concurrent) in
  let! label := lift (dataset_label (or_dataset_resolver o) (Some dataset_id)) in
  Ret (dataset_id, label, out).

(** The runs, at most [MAX_CONCURRENT_DATASETS] at a time: any interleaving of them. *)
Definition fan_out (request : SearchRequest) (retriever : R) (search_type : SearchType) (snapshot : option S)
    (concurrent : bool) (datasets : list uuid) : prog (list outcome) :=
  join_all (λ _, false) (map (dataset_run request retriever search_type snapshot concurrent) datasets).

(** The end of a fan-out: the turn is recorded, unless the analysis declined to answer. *)
Definition record_fan_out (raw_request request : SearchRequest) (retriever : R) (search_type : SearchType)
    (snapshot : option S) (results : list (DatasetSearchResult evidence)) : prog answer :=
  let merged := merge_dataset_results (or_debug o) request results in
  let! _ := match or_sessions o with
            | Some s =>
                if negb (only_context request) && supports_session_turn_preparation retriever then
                  lift (step (save_session_turn s raw_request search_type (rs_result merged) (merged_context merged) snapshot))
                else Ret tt
            | None => Ret tt
            end in
  lift (step (log_search_history o raw_request merged));!
  Ret (Ok (append_reference_text o retriever request results)).

(** The same, when the turn's analysis runs next to the runs. *)
Definition conclude_fan_out (raw_request request : SearchRequest) (retriever : R) (search_type : SearchType)
    (snapshot : option S) (analysis : option (Sessions X S T * string * T * bool)) (results : list (DatasetSearchResult evidence))
    : prog answer :=
  let merged := merge_dataset_results (or_debug o) request results in
  match analysis with
  | Some (s, session_id, turn, auto_feedback) =>
      if produced_answer (rs_result merged) then
        let pass_through := {| tp_should_answer := true; tp_response_to_user := None;
                               tp_effective_query := rq_query_text request |} in
        let! joined := if auto_feedback then lift (step (analysed_turn s session_id (rq_query_text request) turn))
                       else Ret (Some pass_through) in
        let user_id := uuid_to_string <$> rq_user_id request in
        let! preparation := lift (step (commit_session_turn_analysis s session_id user_id (rq_query_text request)
                                          (default pass_through joined) turn)) in
        if tp_should_answer preparation then record_fan_out raw_request request retriever search_type snapshot results
        else
          let! response := lift (acknowledge_declined_turn raw_request search_type (tp_response_to_user preparation)) in
          Ret (answered None (None, None) response)
      else record_fan_out raw_request request retriever search_type snapshot results
  | None => record_fan_out raw_request request retriever search_type snapshot results
  end.

(** The runs of the datasets and the end of the search. *)
Definition search_each (raw_request request : SearchRequest) (retriever : R) (search_type : SearchType)
    (snapshot : option S) (analysis : option (Sessions X S T * string * T * bool)) (datasets : list uuid) : prog answer :=
  let! outcomes := fan_out request retriever search_type snapshot (wired analysis) datasets in
  match dataset_answers search_type request outcomes with
  | Err e => Ret (Err e)
  | Ok results => conclude_fan_out raw_request request retriever search_type snapshot analysis results
  end.

(** Whether the turn of a session runs its analysis next to the answer. *)
Definition concurrent_turn (request : SearchRequest) (search_type : SearchType) (is_batch : bool) : bool :=
  bool_decide (or_session_search_mode o = Concurrent) && session_available && or_llm o && eligible request search_type is_batch.

(** A search over datasets, each in its own stores. *)
Definition search_per_dataset (raw_request request : SearchRequest) (retriever : R) (search_type : SearchType)
    (is_batch concurrent auto_feedback : bool) (preflight : option (list uuid)) : prog answer :=
  let?! datasets := lift (fan_out_datasets request preflight) in
  match datasets, or_sessions o with
  | [], _ => lift (step (log_empty_scope_history o request));! Ret (Ok [])
  | _, None => search_each raw_request request retriever search_type None None datasets
  | _, Some s =>
      if concurrent then
        match rq_session_id request, rq_user_id request with
        | None, _ => Ret (Err (InvalidInput "concurrent session search requires a session"))
        | Some _, None => Ret (Err (InvalidInput "concurrent session search requires a user"))
        | Some session_id, Some user =>
            lift (step (lock_session_turn s user session_id));!
            let! loaded := lift (step (load_turn_snapshot s request session_id (Some (uuid_to_string user)))) in
            let '(session, turn) := loaded in
            let! result := search_each raw_request request retriever search_type (Some session)
                             (Some (s, session_id, turn, auto_feedback)) datasets in
            lift (step (unlock_session_turn s user session_id));! Ret result
        end
      else if negb is_batch && negb (only_context request) && wired (rq_session_id request)
              && supports_session_turn_preparation retriever then
        let! session := lift (step (load_session_context s request true)) in
        search_each raw_request request retriever search_type (Some session) None datasets
      else search_each raw_request request retriever search_type None None datasets
  end.

(** One search of the shared store. *)
Definition search_shared (raw_request request : SearchRequest) (retriever : R) (search_type : SearchType)
    (turn_prepared : bool) : proc X answer :=
  let?! response := run_search o request retriever search_type false true
                      (if turn_prepared then Some (rq_query_text raw_request) else None) None false in
  step (log_search_history o raw_request response);!
  let! label := dataset_label (or_dataset_resolver o) (only_dataset request) in
  Ret (answered (only_dataset request) label response).

(** A search of the shared store whose turn's analysis runs next to the answer. *)
Definition search_concurrently (request : SearchRequest) (retriever : R) (search_type : SearchType) (auto_feedback : bool)
    : proc X answer :=
  match rq_user_id request, rq_session_id request, or_sessions o with
  | None, _, _ => Ret (Err (InvalidInput "concurrent session search requires a user"))
  | Some _, None, _ => Ret (Err (InvalidInput "concurrent session search requires a session"))
  | Some _, Some _, None => Ret (Err (InvalidInput "concurrent session search requires a manager"))
  | Some user, Some session_id, Some s =>
      step (lock_session_turn s user session_id);!
      let! ran := run_concurrent_session_turn o request retriever search_type auto_feedback in
      let! result :=
        match ran with
        | Err e => Ret (Err e)
        | Ok (response, finalize) =>
            (if finalize then step (log_search_history o request response) else Ret tt);!
            let! label := dataset_label (or_dataset_resolver o) (only_dataset request) in
            Ret (answered (only_dataset request) label response)
        end in
      step (unlock_session_turn s user session_id);! Ret result
  end.

(** The preparation of a sequential turn: the request to answer, and whether it was
    prepared; or the acknowledgement of a turn that is not answered. *)
Definition prepared_turn (request : SearchRequest) (retriever : R) (search_type : SearchType)
    (is_batch fanout_concurrent auto_feedback : bool) : proc X (SearchRequest * bool + SearchResponse evidence) :=
  match or_sessions o, rq_session_id request with
  | Some s, Some session_id =>
      if negb fanout_concurrent && negb is_batch && negb (only_context request) && nonempty_session request
         && supports_session_turn_preparation retriever && auto_feedback && or_llm o then
        let user_id := uuid_to_string <$> rq_user_id request in
        let! preparation := step (prepare_session_turn s session_id user_id (rq_query_text request)) in
        if tp_should_answer preparation then Ret (inl (rq_with_query (tp_effective_query preparation) request, true))
        else
          let! response := acknowledge_declined_turn request search_type (tp_response_to_user preparation) in
          Ret (inr response)
      else Ret (inl (request, false))
  | _, _ => Ret (inl (request, false))
  end.

(** The request with the default session, if it names none and its retriever prepares
    turns. *)
Definition with_default_session (request : SearchRequest) (retriever : R) (preflight : option (list uuid)) : SearchRequest :=
  match or_sessions o with
  | Some s =>
      if negb (wired (rq_session_id request)) && wired (rq_user_id request)
         && supports_session_turn_preparation retriever && ss_available s then
        rq_with_session (default_session_id_for (ss_default_session_id s) (single_dataset request preflight)) request
      else request
  | None => request
  end.

(** What is run, once the datasets of the request are known. *)
Definition search_resolved (request : SearchRequest) (retriever : R) (search_type : SearchType) (scoping : DatasetScoping)
    (is_batch auto_feedback : bool) (preflight : option (list uuid)) : prog answer :=
  let fans_out := or_per_dataset_storage o && negb (bool_decide (scoping = NotDatasetData)) in
  let concurrent := concurrent_turn request search_type is_batch in
  if negb (or_per_dataset_storage o) && concurrent then
    lift (search_concurrently request retriever search_type auto_feedback)
  else
    let! prepared := lift (prepared_turn request retriever search_type is_batch (fans_out && concurrent) auto_feedback) in
    match prepared with
    | inr response => Ret (answered None (None, None) response)
    | inl (prepared, turn_prepared) =>
        if fans_out then
          search_per_dataset request prepared retriever search_type is_batch concurrent auto_feedback preflight
        else lift (search_shared request prepared retriever search_type turn_prepared)
    end.

Definition search_datasets_impl (request : SearchRequest) (is_batch : bool) : prog answer :=
  match validate_neighborhood (rq_neighborhood_depth request) (rq_neighborhood_seed_top_k request) with
  | Err e => Ret (Err e)
  | Ok _ =>
      let request := rq_with_default_prompt (or_default_system_prompt_path o) request in
      let auto_feedback := default (or_auto_feedback_default o) (rq_auto_feedback_detection request) in
      let?! retriever := lift (resolve_retriever (or_registry o) (or_by_name o) (or_default_feedback_influence o) request) in
      let search_type := retriever_type retriever in
      let scoping := dataset_scoping retriever in
      let?! resolved := lift (authorize_and_resolve_datasets (or_acl_db o) (or_dataset_resolver o) (rq_user_id request)
                                (rq_tenant_id request) (rq_datasets request) (rq_dataset_ids request)) in
      let request := match resolved with Some ids => rq_with_ids ids request | None => request end in
      let?! preflight := lift (preflight_datasets scoping request) in
      match preflight with
      | Some [] => lift (step (log_empty_scope_history o request));! Ret (Ok [])
      | _ =>
          let?! selected := lift (step (resolve_for_query retriever (rq_query_text request))) in
          let retriever := default retriever selected in
          search_resolved (with_default_session request retriever preflight) retriever search_type scoping is_batch
            auto_feedback preflight
      end
  end.

(** [search] *)
Definition search (request : SearchRequest) : prog (result SearchError (SearchResponse evidence)) :=
  let?! results := search_datasets_impl request false in
  Ret (Ok (merge_dataset_results (or_debug o) request results)).

(** [search_batch] *)
Fixpoint search_batch (requests : list SearchRequest) : prog (result SearchError (list (SearchResponse evidence))) :=
  match requests with
  | [] => Ret (Ok [])
  | request :: requests =>
      let?! results := search_datasets_impl request true in
      let?! responses := search_batch requests in
      Ret (Ok (merge_dataset_results (or_debug o) request results :: responses))
  end.
End search.
