(* ===== verification/SearchFacts.v ===== *)
(** * What a search reads and answers

    A search opens the stores only of datasets its caller may read; the answers of the
    datasets are collected in their order, and a dataset with nothing to search does not
    fail the search unless all are such. *)

From stdpp Require Import sorting.
From S2P Require Import Prelude Json Strings Proc SearchTypes SearchMerge SearchScope SearchDatasets.
From Stdlib Require Import QArith.
#[local] Open Scope nat_scope.
#[local] Open Scope cog_scope.

Section facts.
Context {R X S T evidence : Type} `{SearchRetriever R X} `{UuidFormat} `{Scheduler X}.
Context (o : Orchestrator R X S T evidence).

(** ** Reading only what may be read *)

(** [P] holds of every dataset the databases ever say the caller may read: those the ACL
    lists for the caller and its tenant, or, without an ACL, those of the caller's own
    listing that are in its tenant and those its names resolve to. *)
Definition grants (P : uuid → Prop) (requester : uuid) (tenant : option uuid) : Prop :=
  match or_acl_db o, or_dataset_resolver o with
  | Some acl, _ => ∀ x l, (authorized_dataset_ids_in_tenant acl requester "read" tenant x).2 = Ok l → Forall P l
  | None, Some db =>
      (∀ x l, (list_datasets_by_owner db requester x).2 = Ok l → Forall (λ d, ds_tenant_id d = tenant → P (ds_id d)) l)
      ∧ (∀ name x d, (get_dataset_by_name_in_tenant db name requester tenant x).2 = Ok (Some d) → P (ds_id d))
  | None, None => False
  end.

Section safety.
Context (P : uuid → Prop).

Definition only_read (w : search_world X) : Prop := Forall P (sw_searched w).
Notation anywhere := (λ _ : X, True).

Lemma only_read_advance w : only_read w → only_read (advance w).
Proof. by destruct w. Qed.

Lemma wp_lift {A} (Q : A → Prop) p : wp anywhere Q p → wp only_read Q (lift p).
Proof. intros Hp. by apply (wp_zoom only_read anywhere sw_x). Qed.

Lemma wp_lift_any {A} (p : proc X A) : wp only_read (λ _, True) (lift p).
Proof. apply wp_lift, wp_True. Qed.

Lemma wp_with_dataset {A} d (p : proc X A) : P d → wp only_read (λ _, True) (with_dataset d p).
Proof.
  intros Hd. unfold with_dataset. eapply wp_bind_post with (R := λ _, True).
  - apply wp_modify. intros w Hw. by apply Forall_snoc.
  - intros _ _. apply wp_lift_any.
Qed.

Context (requester : option uuid) (tenant : option uuid)
  (Hgrants : ∀ user, requester = Some user → grants P user tenant).

Lemma readable_granted user : requester = Some user →
  wp anywhere (λ r, ∀ s, r = Ok s → ∀ d, d ∈ s → P d) (readable_dataset_ids (or_acl_db o) (or_dataset_resolver o) user tenant).
Proof.
  intros Hu. specialize (Hgrants user Hu). unfold grants in Hgrants. unfold readable_dataset_ids.
  destruct (or_acl_db o) as [acl|]; [|destruct (or_dataset_resolver o) as [db|]; [|done]].
  - intros x _. split; [done|]. simpl. destruct (authorized_dataset_ids_in_tenant _ _ _ _ x) as [x' [l|e]] eqn:Hr; [|done].
    simpl. intros s [= <-] d Hd%elem_of_list_to_set. specialize (Hgrants x l). rewrite Hr in Hgrants.
    by apply (proj1 (Forall_forall _ _) (Hgrants eq_refl)).
  - destruct Hgrants as [Hlist _]. intros x _. split; [done|]. simpl.
    destruct (list_datasets_by_owner _ _ x) as [x' [l|e]] eqn:Hr; [|done].
    simpl. intros s [= <-] d (ds & -> & [Ht Hin]%list_elem_of_filter)%elem_of_list_to_set%list_elem_of_fmap.
    specialize (Hlist x l). rewrite Hr in Hlist. by apply (proj1 (Forall_forall _ _) (Hlist eq_refl) ds Hin).
Qed.

Lemma authorized_granted user ids : requester = Some user →
  wp anywhere (λ r, r = Ok tt → Forall P ids) (authorize_dataset_ids (or_acl_db o) (or_dataset_resolver o) user tenant ids).
Proof.
  intros Hu. apply wp_bind_ok. eapply wp_mono; [by apply readable_granted|]. intros [s|e] Hs; [|done]. simpl.
  intros Hok. apply Forall_forall. intros d Hd. apply (Hs s eq_refl). destruct (decide (d ∈ s)) as [|Hn]; [done|].
  assert (Hf : d ∈ filter (λ id, id ∉ s) ids) by by apply list_elem_of_filter.
  destruct (filter _ ids); [by apply not_elem_of_nil in Hf|done].
Qed.

Lemma resolved_granted db user names : or_dataset_resolver o = Some db → or_acl_db o = None → requester = Some user →
  ∀ resolved missing, Forall P resolved →
  wp anywhere (λ r, ∀ ids m, r = Ok (ids, m) → Forall P ids) (resolve_names db user tenant names resolved missing).
Proof.
  intros Hdb Hacl Hu. specialize (Hgrants user Hu). unfold grants in Hgrants. rewrite Hacl, Hdb in Hgrants.
  destruct Hgrants as [_ Hname]. induction names as [|name names IH]; intros resolved missing Hres; simpl.
  - by intros ids m [= <- <-].
  - intros x _. split; [done|]. destruct (get_dataset_by_name_in_tenant _ _ _ _ x) as [x' [[ds|]|e]] eqn:Hr; simpl.
    + apply IH. apply Forall_snoc; [done|]. apply (Hname name x). by rewrite Hr.
    + by apply IH.
    + done.
Qed.

(** The datasets of a request are granted. *)
Definition ids_granted (ids : option (list uuid)) : Prop := Forall P (default [] ids).

Lemma named_default {A} (Q : A → Prop) (l : option (list A)) : (∀ l', named l = Some l' → Forall Q l') → Forall Q (default [] l).
Proof. destruct l as [[|a l]|]; simpl; auto. Qed.

Lemma request_granted user_id names ids : requester = user_id →
  wired (or_acl_db o) || wired (or_dataset_resolver o) = true →
  wp anywhere (λ r, match r with
                    | Ok (Some resolved) => Forall P resolved
                    | Ok None => ids_granted ids
                    | Err _ => True
                    end)
    (authorize_and_resolve_datasets (or_acl_db o) (or_dataset_resolver o) user_id tenant names ids).
Proof.
  intros Hu Hwired. unfold authorize_and_resolve_datasets. apply wp_bind_ok. rewrite Hwired. clear Hwired.
  eapply wp_mono with (Q := λ r, r = Ok tt → ids_granted ids).
  { unfold ids_granted. destruct (named ids) as [l|] eqn:Hids.
    - destruct user_id as [user|]; [|done]. eapply wp_mono; [by apply authorized_granted|].
      intros r Hr Hok. apply named_default. intros l'. rewrite Hids. intros [= <-]. by apply Hr.
    - intros _. apply named_default. by rewrite Hids. }
  intros [[]|e] Hids; [|done]. specialize (Hids eq_refl).
  destruct (named names) as [ns|]; [destruct (named ids) as [l|]; [done|]|done].
  destruct (or_dataset_resolver o) as [db|] eqn:Hdb; [|done]. destruct user_id as [user|]; [|done].
  apply wp_bind_ok. destruct (or_acl_db o) as [acl|] eqn:Hacl.
  - eapply wp_mono; [apply wp_True|]. intros [[[|d resolved] missing]|e] _; [done| |done].
    apply wp_bind_ok. change (wired (Some acl)) with true. cbv iota. rewrite <-Hacl, <-Hdb. eapply wp_mono; [by apply authorized_granted|].
    intros [[]|e] Hok; [by apply Hok|done].
  - eapply wp_mono; [by apply (resolved_granted db)|]. intros [[[|d resolved] missing]|e] Hres; [done| |done].
    simpl. by eapply Hres.
Qed.

Lemma in_order_granted user : requester = Some user →
  wp anywhere (λ r, ∀ l, r = Ok l → Forall P l) (readable_in_order o user tenant).
Proof.
  intros Hu. apply wp_bind_ok. eapply wp_mono; [by apply readable_granted|]. intros [s|e] Hs; [|done]. simpl.
  intros l [= <-]. apply Forall_forall. intros d. rewrite merge_sort_Permutation, elem_of_elements. by apply Hs.
Qed.

(** ** The runs *)

Lemma first_ids_in ids : ∀ seen d, d ∈ first_ids seen ids → d ∈ ids.
Proof.
  induction ids as [|id ids IH]; intros seen d; simpl; [done|]. rewrite elem_of_cons.
  destruct (decide _); [eauto|]. rewrite elem_of_cons. intros [?|?]; eauto.
Qed.

Lemma each_only_reads raw request retriever t snapshot analysis datasets : Forall P datasets →
  wp only_read (λ _, True) (search_each o raw request retriever t snapshot analysis datasets).
Proof.
  intros Hds. eapply wp_bind_post with (R := λ _, True).
  - eapply wp_mono; [|done]. apply (wp_join_all only_read only_read_advance _ (map (λ _ _, True) datasets)).
    induction Hds as [|d ds Hd Hds IH]; simpl; constructor; [|exact IH].
    eapply wp_bind_post with (R := λ _, True); [by apply wp_with_dataset|]. intros out _.
    eapply wp_bind_post with (R := λ _, True); [apply wp_lift_any|done].
  - intros outcomes _. destruct (dataset_answers _ _ _ _) as [results|e]; [|done].
    unfold conclude_fan_out.
    assert (Hrec : wp only_read (λ _, True) (record_fan_out o raw request retriever t snapshot results)).
    { unfold record_fan_out. eapply wp_bind_post with (R := λ _, True).
      - destruct (or_sessions o); [|done]. destruct (_ && _); [apply wp_lift_any|done].
      - intros _ _. eapply wp_bind_post with (R := λ _, True); [apply wp_lift_any|done]. }
    destruct analysis as [[[[s session_id] turn] auto_feedback]|]; [|done]. destruct (produced_answer _); [|done].
    eapply wp_bind_post with (R := λ _, True); [destruct auto_feedback; [apply wp_lift_any|done]|]. intros joined _.
    eapply wp_bind_post with (R := λ _, True); [apply wp_lift_any|]. intros preparation _.
    destruct (tp_should_answer preparation); [done|]. eapply wp_bind_post with (R := λ _, True); [apply wp_lift_any|done].
Qed.

Lemma per_dataset_only_reads raw request retriever t is_batch concurrent auto_feedback preflight :
  requester = rq_user_id request → tenant = rq_tenant_id request →
  ids_granted (rq_dataset_ids request) → ids_granted preflight →
  wp only_read (λ _, True) (search_per_dataset o raw request retriever t is_batch concurrent auto_feedback preflight).
Proof.
  intros Hu Ht Hids Hpre. apply wp_bind_ok. apply wp_lift.
  eapply wp_mono with (Q := λ r, ∀ l, r = Ok l → Forall P l).
  { unfold fan_out_datasets. destruct preflight as [l|]; [by intros ? [= <-]|]. destruct (names_no_dataset request).
    - destruct (rq_user_id request) as [user|]; [|done]. rewrite <-Ht. by apply in_order_granted.
    - intros l [= <-]. apply Forall_forall. intros d Hd%first_ids_in. by apply (proj1 (Forall_forall _ _) Hids). }
  intros [datasets|e] Hds; [|done]. specialize (Hds _ eq_refl). destruct datasets as [|d ds].
  { eapply wp_bind_post with (R := λ _, True); [apply wp_lift_any|done]. }
  destruct (or_sessions o) as [s|]; [|by apply each_only_reads]. destruct concurrent.
  - destruct (rq_session_id request); [|done]. destruct (rq_user_id request); [|done].
    eapply wp_bind_post with (R := λ _, True); [apply wp_lift_any|]. intros _ _.
    eapply wp_bind_post with (R := λ _, True); [apply wp_lift_any|]. intros [session turn] _.
    eapply wp_bind_post with (R := λ _, True); [by apply each_only_reads|]. intros result _.
    eapply wp_bind_post with (R := λ _, True); [apply wp_lift_any|done].
  - destruct (_ && _); [|by apply each_only_reads].
    eapply wp_bind_post with (R := λ _, True); [apply wp_lift_any|]. intros session _. by apply each_only_reads.
Qed.

(** A prepared turn changes nothing of a request but its query. *)
Lemma prepared_turn_request request retriever t is_batch fc af :
  wp anywhere (λ r, ∀ prepared b, r = inl (prepared, b) →
    rq_user_id prepared = rq_user_id request ∧ rq_tenant_id prepared = rq_tenant_id request
    ∧ rq_dataset_ids prepared = rq_dataset_ids request)
    (prepared_turn o request retriever t is_batch fc af).
Proof.
  unfold prepared_turn. destruct (or_sessions o) as [s|]; [|by intros ?? [= <- <-]].
  destruct (rq_session_id request) as [id|]; [|by intros ?? [= <- <-]].
  destruct (_ && _); [|by intros ?? [= <- <-]]. intros x _. split; [done|]. simpl.
  destruct (tp_should_answer _); [by intros ?? [= <- <-]|]. eapply wp_bind_post; [apply wp_True|done].
Qed.

Lemma default_session_request request retriever preflight :
  rq_user_id (with_default_session o request retriever preflight) = rq_user_id request
  ∧ rq_tenant_id (with_default_session o request retriever preflight) = rq_tenant_id request
  ∧ rq_dataset_ids (with_default_session o request retriever preflight) = rq_dataset_ids request.
Proof. unfold with_default_session. by repeat case_match. Qed.

Lemma resolved_only_reads request retriever t scoping is_batch af preflight :
  requester = rq_user_id request → tenant = rq_tenant_id request →
  ids_granted (rq_dataset_ids request) → ids_granted preflight →
  wp only_read (λ _, True) (search_resolved o request retriever t scoping is_batch af preflight).
Proof.
  intros Hu Ht Hids Hpre. unfold search_resolved. destruct (_ && _); [apply wp_lift_any|].
  eapply wp_bind_post; [apply wp_lift, prepared_turn_request|]. intros [[prepared b]|response] Hprep; [|done].
  destruct (Hprep prepared b eq_refl) as (Hu' & Ht' & Hi'). destruct (_ && _); [|apply wp_lift_any].
  apply per_dataset_only_reads; by rewrite ?Hu', ?Ht', ?Hi'.
Qed.

Lemma preflight_granted scoping request : requester = rq_user_id request → tenant = rq_tenant_id request →
  wp anywhere (λ r, ∀ p, r = Ok p → ids_granted p) (preflight_datasets o scoping request).
Proof.
  intros Hu Ht. unfold preflight_datasets. destruct (_ && _); [|by intros ? [= <-]; constructor].
  destruct (rq_user_id request) as [user|]; [|done]. apply wp_bind_ok. rewrite <-Ht.
  eapply wp_mono; [by apply in_order_granted|]. intros [l|e] Hl; [|done]. intros p [= <-]. by apply Hl.
Qed.

Lemma search_only_reads request is_batch :
  requester = rq_user_id request → tenant = rq_tenant_id request →
  wired (or_acl_db o) || wired (or_dataset_resolver o) = true →
  wp only_read (λ _, True) (search_datasets_impl o request is_batch).
Proof.
  intros Hu Ht Hwired. unfold search_datasets_impl. destruct (validate_neighborhood _ _); [|done].
  set (rq := rq_with_default_prompt _ request).
  assert (Hrq : rq_user_id rq = rq_user_id request ∧ rq_tenant_id rq = rq_tenant_id request).
  { unfold rq, rq_with_default_prompt. by repeat case_match. }
  clearbody rq. destruct Hrq as [Hu' Ht']. rewrite <-Hu' in Hu. rewrite <-Ht' in Ht.
  apply wp_bind_ok. eapply wp_mono; [apply wp_lift_any|]. intros [retriever|e] _; [|done]. cbv zeta.
  apply wp_bind_ok. apply wp_lift. eapply wp_mono.
  { rewrite <-Ht. by apply (request_granted (rq_user_id rq)). }
  intros [resolved|e] Hres; [|done].
  set (rq' := match resolved with Some ids => rq_with_ids ids rq | None => rq end).
  assert (Hrq : rq_user_id rq' = rq_user_id rq ∧ rq_tenant_id rq' = rq_tenant_id rq ∧ ids_granted (rq_dataset_ids rq')).
  { unfold rq'. by destruct resolved. }
  clearbody rq'. destruct Hrq as (Hu1 & Ht1 & Hids). rewrite <-Hu1 in Hu. rewrite <-Ht1 in Ht.
  apply wp_bind_ok. apply wp_lift. eapply wp_mono; [by apply preflight_granted|].
  intros [preflight|e] Hpre; [|done]. specialize (Hpre _ eq_refl).
  assert (Hrest : wp only_read (λ _, True)
    (let?! selected := lift (step (resolve_for_query retriever (rq_query_text rq'))) in
     search_resolved o (with_default_session o rq' (default retriever selected) preflight) (default retriever selected)
       (retriever_type retriever) (dataset_scoping retriever) is_batch
       (default (or_auto_feedback_default o) (rq_auto_feedback_detection rq)) preflight)).
  { apply wp_bind_ok. eapply wp_mono; [apply wp_lift_any|]. intros [selected|e] _; [|done].
    destruct (default_session_request rq' (default retriever selected) preflight) as (Hu2 & Ht2 & Hi2).
    apply resolved_only_reads; by rewrite ?Hu2, ?Ht2, ?Hi2. }
  destruct preflight as [[|d ds]|]; [|exact Hrest..].
  eapply wp_bind_post with (R := λ _, True); [apply wp_lift_any|done].
Qed.
End safety.

(** C32: A search never opens the stores of a dataset its caller may not read. Whatever the
    databases, the retrievers and the sessions do, and however the runs of the datasets
    interleave: with an ACL, or a resolver of datasets, wired, every dataset a search runs in
    is one these said the request's user may read in the request's tenant, be it named by
    its id, by its name or not at all. *)
Theorem search_reads_only_granted (P : uuid → Prop) (request : SearchRequest) (is_batch : bool) (w : search_world X) :
  wired (or_acl_db o) || wired (or_dataset_resolver o) = true →
  (∀ user, rq_user_id request = Some user → grants P user (rq_tenant_id request)) →
  Forall P (sw_searched w) →
  Forall P (sw_searched (run (search_datasets_impl o request is_batch) w).1).
Proof.
  intros Hwired Hgrants Hw. eapply (wp_run (only_read P)); [|exact Hw].
  by apply (search_only_reads P (rq_user_id request) (rq_tenant_id request)).
Qed.

(** ** Refusing what may not be read *)

Lemma run_lift {A} (p : proc X A) (w : search_world X) :
  run (lift p) w = ({| sw_x := (run p (sw_x w)).1; sw_searched := sw_searched w |}, (run p (sw_x w)).2).
Proof.
  unfold lift. revert w. induction p as [a|upd k IH]; intros [x l]; simpl; [done|]. by rewrite IH.
Qed.

Lemma run_bind_ok {W E A B} (p : proc W (result E A)) (f : A → proc W (result E B)) w :
  run (bind_ok p f) w = match run p w with
                        | (w', Ok a) => run (f a) w'
                        | (w', Err e) => (w', Err e)
                        end.
Proof. unfold bind_ok. rewrite run_bind. by destruct (run p w) as [w' [a|e]]. Qed.

(** What a request that names a dataset the caller may not read gets: one error, whichever
    it is and whether it exists. *)
Lemma authorize_denies acl user tenant ids d (l : list uuid) x :
  or_acl_db o = Some acl → (authorized_dataset_ids_in_tenant acl user "read" tenant x).2 = Ok l →
  d ∈ ids → d ∉ l →
  (run (authorize_dataset_ids (or_acl_db o) (or_dataset_resolver o) user tenant ids) x).2 = Err PERMISSION_DENIED.
Proof.
  intros Hacl Hl Hd Hn. unfold authorize_dataset_ids, readable_dataset_ids. rewrite Hacl, run_bind_ok. simpl.
  rewrite Hl. simpl. destruct (filter _ ids) as [|d' ds] eqn:Hf; [|done]. exfalso.
  assert (Hin : d ∈ filter (λ id, id ∉ (list_to_set l : gset uuid)) ids).
  { apply list_elem_of_filter. by rewrite elem_of_list_to_set. }
  rewrite Hf in Hin. by apply not_elem_of_nil in Hin.
Qed.

(** C33: Where an ACL is wired, a search that names by id a dataset its caller may not read is
    refused as a whole: it fails with one error, the same whichever of the ids are not
    readable and whether they exist, and opens no dataset's stores, not even those of the
    datasets it names that the caller may read.  (The request has a user, its neighborhood
    bounds are valid and its retriever is found, which are checked first, and the ACL
    answers.  This is of ids only: a name is looked up among the datasets of its owner, and
    the names not found are left out, or, if none is, the search fails as [DatasetNotFound].) *)
Theorem search_denied (request : SearchRequest) (is_batch : bool) (acl : AclDb X) (user : uuid) (ids : list uuid)
    (d : uuid) (readable : list uuid) (retriever : R) (w : search_world X) :
  or_acl_db o = Some acl → rq_user_id request = Some user → rq_dataset_ids request = Some ids →
  (∀ x, (authorized_dataset_ids_in_tenant acl user "read" (rq_tenant_id request) x).2 = Ok readable) →
  d ∈ ids → d ∉ readable →
  validate_neighborhood (rq_neighborhood_depth request) (rq_neighborhood_seed_top_k request) = Ok tt →
  (run (resolve_retriever (or_registry o) (or_by_name o) (or_default_feedback_influence o)
          (rq_with_default_prompt (or_default_system_prompt_path o) request)) (sw_x w)).2 = Ok retriever →
  (run (search_datasets_impl o request is_batch) w).2 = Err PERMISSION_DENIED
  ∧ sw_searched (run (search_datasets_impl o request is_batch) w).1 = sw_searched w.
Proof.
  intros Hacl Huser Hids Hl Hd Hn Hvalid Hret. unfold search_datasets_impl. rewrite Hvalid.
  set (rq := rq_with_default_prompt _ request) in *.
  assert (Hrq : rq_user_id rq = Some user ∧ rq_tenant_id rq = rq_tenant_id request ∧ rq_dataset_ids rq = Some ids).
  { unfold rq, rq_with_default_prompt. by repeat case_match. }
  destruct Hrq as (Hu & Ht & Hi). rewrite run_bind_ok, run_lift. rewrite Hret. cbv iota beta zeta.
  rewrite run_bind_ok, run_lift.
  assert (Hdeny : (run (authorize_and_resolve_datasets (or_acl_db o) (or_dataset_resolver o) (rq_user_id rq)
    (rq_tenant_id rq) (rq_datasets rq) (rq_dataset_ids rq)) (sw_x {| sw_x := (run (resolve_retriever (or_registry o)
      (or_by_name o) (or_default_feedback_influence o) rq) (sw_x w)).1; sw_searched := sw_searched w |})).2
    = Err PERMISSION_DENIED).
  { unfold authorize_and_resolve_datasets. rewrite run_bind_ok, Hu, Ht, Hi.
    destruct ids as [|i ids]; [by apply not_elem_of_nil in Hd|]. simpl named. cbv iota.
    replace (wired (or_acl_db o)) with true by (by rewrite Hacl). simpl orb. cbv iota.
    set (x := sw_x _). pose proof (authorize_denies acl user (rq_tenant_id request) (i :: ids) d readable x Hacl (Hl x) Hd Hn) as Hdenied.
    destruct (run _ x) as [x' r]. simpl in Hdenied. by rewrite Hdenied. }
  rewrite Hdeny. done.
Qed.

(** ** The answers of the datasets *)

Notation outcome := (uuid * (option string * option uuid) * result SearchError (SearchResponse evidence))%type.

(** The answer of a dataset's run: its response, or none and why. *)
Definition answers (search_type : SearchType) (request : SearchRequest) (out : outcome) (r : DatasetSearchResult evidence) : Prop :=
  dr_dataset_id r = Some out.1.1 ∧ (dr_dataset_name r, dr_dataset_tenant_id r) = out.1.2
  ∧ match out.2 with
    | Ok response => dr_error r = None ∧ dr_response r = with_datasets [out.1.1] (key_context_by_dataset out.1.1 response)
    | Err (NotFound reason) => dr_error r = Some reason ∧ dr_response r = no_data_response o search_type request out.1.1
    | Err _ => False
    end.

Definition has_no_data (out : outcome) : Prop := ∃ reason, out.2 = Err (NotFound reason).
Definition failed_with (e : SearchError) (out : outcome) : Prop := out.2 = Err e ∧ ¬ has_no_data out.

Lemma collect_spec search_type request outcomes : ∀ results no_data,
  match collect_outcomes o search_type request outcomes results no_data with
  | Ok (results', no_data') =>
      ∃ more, results' = results ++ more ∧ Forall2 (answers search_type request) outcomes more
      ∧ length no_data ≤ length no_data'
      ∧ length no_data' - length no_data ≤ length outcomes
      ∧ (length no_data' - length no_data = length outcomes ↔ Forall has_no_data outcomes)
  | Err e => ∃ before out after, outcomes = before ++ out :: after ∧ failed_with e out
      ∧ Forall (λ out, is_ok out.2 = true ∨ has_no_data out) before
  end.
Proof.
  induction outcomes as [|[[d [name tenant]] out] outcomes IH]; intros results no_data; simpl.
  { exists []. rewrite app_nil_r. split_and!; [done|constructor|lia..|]. split; [constructor|lia]. }
  assert (Herr : ∀ e, out = Err e → ¬ has_no_data (d, (name, tenant), out) →
    ∃ before o' after, (d, (name, tenant), out) :: outcomes = before ++ o' :: after ∧ failed_with e o'
      ∧ Forall (λ o', is_ok o'.2 = true ∨ has_no_data o') before).
  { intros e He Hn. exists [], (d, (name, tenant), out), outcomes. split_and!; [done|by split|constructor]. }
  assert (Hstep : ∀ r nd,
    answers search_type request (d, (name, tenant), out) r →
    (is_ok out = true ∨ has_no_data (d, (name, tenant), out)) →
    (length nd = length no_data ∧ ¬ has_no_data (d, (name, tenant), out)
     ∨ length nd = 1 + length no_data ∧ has_no_data (d, (name, tenant), out)) →
    match collect_outcomes o search_type request outcomes (results ++ [r]) nd with
    | Ok (results', no_data') =>
        ∃ more, results' = results ++ more ∧ Forall2 (answers search_type request) ((d, (name, tenant), out) :: outcomes) more
        ∧ length no_data ≤ length no_data'
        ∧ length no_data' - length no_data ≤ 1 + length outcomes
        ∧ (length no_data' - length no_data = 1 + length outcomes ↔ Forall has_no_data ((d, (name, tenant), out) :: outcomes))
    | Err e => ∃ before o' after, (d, (name, tenant), out) :: outcomes = before ++ o' :: after ∧ failed_with e o'
        ∧ Forall (λ o', is_ok o'.2 = true ∨ has_no_data o') before
    end).
  { intros r nd Hr Hfine Hnd. specialize (IH (results ++ [r]) nd).
    destruct (collect_outcomes o search_type request outcomes (results ++ [r]) nd) as [[results' no_data']|e].
    - destruct IH as (more & -> & Hall & Hle & Hlen & Hiff). exists (r :: more). rewrite <-app_assoc.
      rewrite Forall_cons. split_and!; [done|by constructor|lia|lia|]. split.
      + intros Heq. destruct Hnd as [[Hnd _]|[Hnd Hno]]; [lia|]. split; [done|]. apply Hiff. lia.
      + intros [Hno Hrest]. apply Hiff in Hrest. destruct Hnd as [[_ Hcontra]|[Hnd _]]; [done|lia].
    - destruct IH as (before & out' & after & -> & Hfail & Hbefore). exists ((d, (name, tenant), out) :: before), out', after.
      split_and!; [done..|]. by constructor. }
  destruct out as [response|e].
  - apply Hstep; [done|by left|]. left. split; [done|]. by intros [reason ?].
  - destruct e; try (eapply Herr; [done|]; by intros [reason ?]).
    apply Hstep; [done|right; by eexists|]. right. rewrite length_app. simpl. split; [lia|by eexists].
Qed.

(** C34: What the runs of the datasets give is collected in their order. The search answers
    every dataset, with its run's response or, where there was nothing to search, with none
    and the reason; or it fails: with the first error of a run that is not for lack of data,
    or, if every dataset lacks data, with [NotFound]. *)
Theorem dataset_answers_spec (search_type : SearchType) (request : SearchRequest) (outcomes : list outcome) :
  match dataset_answers o search_type request outcomes with
  | Ok results => Forall2 (answers search_type request) outcomes results ∧ ¬ Forall has_no_data outcomes
  | Err e =>
      (∃ message, e = NotFound message) ∧ Forall has_no_data outcomes
      ∨ ∃ before out after, outcomes = before ++ out :: after ∧ failed_with e out
          ∧ Forall (λ out, is_ok out.2 = true ∨ has_no_data out) before
  end.
Proof.
  unfold dataset_answers. pose proof (collect_spec search_type request outcomes [] []) as Hspec.
  destruct (collect_outcomes _ _ _ _ _ _) as [[results no_data]|e]; simpl; [|by right].
  destruct Hspec as (more & -> & Hall & _ & _ & Hiff). simpl in Hiff. rewrite Nat.sub_0_r in Hiff.
  pose proof (Forall2_length _ _ _ Hall) as Hlen. simpl. destruct (decide _) as [Heq|Hne].
  - left. split; [|apply Hiff; lia]. unfold nothing_searchable. repeat case_match; by eexists.
  - split; [done|]. intros Hno. apply Hne. apply Hiff in Hno. lia.
Qed.
End facts.

(** ** An example

    A caller that may read two datasets; a third is another's. *)

Definition ex_acl : AclDb (list string) := {|
  authorized_dataset_ids_in_tenant requester permission tenant x :=
    (x, Ok (if decide (requester = 7%N ∧ permission = "read" ∧ tenant = None) then [1; 2]%N else [])) |}.

Definition ex_retriever : SearchRetriever SearchType (list string) := {|
  retriever_type t := t; dataset_scoping _ := Membership; supports_session_turn_preparation _ := false;
  unavailable_reason _ x := (x, None); resolve_for_query _ _ x := (x, Ok None) |}.

#[local] Instance ex_scheduler : Scheduler (list string) := {| choose x := Nat.even (length x); advance x := x |}.

(** A run answers its datasets' number, with a note in the world. *)
Definition ex_orchestrator : Orchestrator SearchType (list string) unit unit unit := {|
  or_acl_db := Some ex_acl; or_dataset_resolver := None; or_per_dataset_storage := true;
  or_registry := {[Chunks := Chunks]}; or_by_name := ∅; or_default_feedback_influence := 0;
  or_default_system_prompt_path := None; or_auto_feedback_default := false; or_session_search_mode := Sequential;
  or_sessions := None; or_llm := false; or_debug := false;
  run_search request _ t _ _ _ _ _ :=
    step (λ x, (x ++ [rq_query_text request],
                Ok (prepare_search_result false t (AnswerText (pretty (length x))) None (rq_dataset_ids request) false false false)));
  run_concurrent_session_turn _ _ _ _ := Ret (Err (NotFound ""));
  log_search_history _ _ x := (x, tt); log_empty_scope_history _ x := (x, tt);
  append_reference_text _ _ results := results |}.

Definition ex_request (ids : option (list uuid)) : SearchRequest := {|
  rq_query_text := "who"; rq_search_type := Chunks; rq_top_k := None; rq_datasets := None; rq_dataset_ids := ids;
  rq_system_prompt := None; rq_system_prompt_path := None; rq_only_context := None; rq_use_combined_context := None;
  rq_session_id := None; rq_node_type := None; rq_node_name := None; rq_node_name_filter_operator := None;
  rq_wide_search_top_k := None; rq_triplet_distance_penalty := None; rq_user_id := Some 7%N; rq_tenant_id := None;
  rq_verbose := None; rq_feedback_influence := None; rq_retriever_specific_config := None; rq_response_schema := None;
  rq_custom_search_type := None; rq_auto_feedback_detection := None; rq_neighborhood_depth := None;
  rq_neighborhood_seed_top_k := None; rq_include_references := false |}.

Definition ex_world : search_world (list string) := {| sw_x := []; sw_searched := [] |}.

(** A search that names no dataset runs in both datasets of the caller, and in no other. *)
Lemma search_reads_only_granted_witness :
  let H := ex_retriever in let H0 := decimal_format in
  let ran := run (search_datasets_impl ex_orchestrator (ex_request None) false) ex_world in
  sw_searched ran.1 = [1; 2]%N ∧ is_ok ran.2 = true ∧ Forall (λ d, d ∈ [1; 2]%N) (sw_searched ran.1).
Proof.
  intros H H0 ran. split_and!; [vm_compute; reflexivity..|].
  apply (search_reads_only_granted ex_orchestrator (λ d, d ∈ [1; 2]%N) (ex_request None) false ex_world).
  - reflexivity.
  - intros user [= <-] x l. simpl. intros [= <-]. refine (bool_decide_unpack _ _). vm_compute. exact I.
  - constructor.
Defined.

(** A search of a readable dataset and of another's. *)
Lemma search_denied_witness :
  let H := ex_retriever in let H0 := decimal_format in
  let ran := run (search_datasets_impl ex_orchestrator (ex_request (Some [1; 3]%N)) false) ex_world in
  ran.2 = Err PERMISSION_DENIED ∧ sw_searched ran.1 = [].
Proof.
  intros H H0.
  refine (search_denied ex_orchestrator (ex_request (Some [1; 3]%N)) false ex_acl 7%N [1; 3]%N 3%N [1; 2]%N Chunks ex_world
            _ _ _ _ _ _ _ _); try reflexivity.
  - refine (bool_decide_unpack _ _). vm_compute. exact I.
  - refine (bool_decide_unpack _ _). vm_compute. exact I.
Defined.
