(* ===== verification/RecallScope.v ===== *)
(** * Recall's scopes and its session sources (crates/search/src/recall_scope.rs)

    The sources a recall names, and the ranking of a session's questions and of its traces
    by the words they share with a query. *)

From S2P Require Import Prelude Json Strings Text Proc StableSort SearchTypes SearchScope.
#[local] Open Scope nat_scope.
#[local] Open Scope cog_scope.

(** ** Scopes *)

Inductive RecallSource := SourceSession | SourceGraph | SourceTrace | SourceSystem.
Inductive RecallScope := ScopeAuto | ScopeGraph | ScopeSession | ScopeTrace.

#[export] Instance RecallSource_eq_dec : EqDecision RecallSource.
Proof. solve_decision. Defined.
#[export] Instance RecallScope_eq_dec : EqDecision RecallScope.
Proof. solve_decision. Defined.

Definition DEPRECATED_SCOPE_ALIASES : list (string * string) := [("graph_context", "graph")].

Definition ALL_SCOPES : list RecallScope := [ScopeGraph; ScopeSession; ScopeTrace].

Definition as_wire (s : RecallScope) : string :=
  match s with ScopeAuto => "auto" | ScopeGraph => "graph" | ScopeSession => "session" | ScopeTrace => "trace" end.

Definition from_wire (s : string) : option RecallScope :=
  if decide (s = "auto") then Some ScopeAuto
  else if decide (s = "graph") then Some ScopeGraph
  else if decide (s = "session") then Some ScopeSession
  else if decide (s = "trace") then Some ScopeTrace
  else None.

Definition as_source (s : RecallScope) : option RecallSource :=
  match s with
  | ScopeAuto => None
  | ScopeGraph => Some SourceGraph
  | ScopeSession => Some SourceSession
  | ScopeTrace => Some SourceTrace
  end.

Inductive ScopeInput := Single (s : string) | Many (l : list string).

(** [dedupe_scopes] *)
Fixpoint dedupe_from (seen l : list RecallScope) : list RecallScope :=
  match l with
  | [] => []
  | s :: l => if decide (s ∈ seen) then dedupe_from seen l else s :: dedupe_from (s :: seen) l
  end.

Definition dedupe_scopes (l : list RecallScope) : list RecallScope := dedupe_from [] l.

(** What a deprecated name now means. *)
Definition scope_alias (s : string) : option string :=
  snd <$> head (filter (λ p : string * string, p.1 = s) DEPRECATED_SCOPE_ALIASES).

(** [is_valid_wire] *)
Definition is_valid_wire (s : string) : bool :=
  bool_decide (s = "all") || wired (scope_alias s) || wired (from_wire s).

(** [normalize_scope]; [str_debug] is the [Debug] form of a string. *)
Definition list_debug (str_debug : string → string) (l : list string) : string :=
  "[" +:+ join ", " (map str_debug l) +:+ "]".

Definition normalize_scope (str_debug : string → string) (input : option ScopeInput) : result SearchError (list RecallScope) :=
  match input with
  | None => Ok [ScopeAuto]
  | Some input =>
      let raw := match input with Single s => [s] | Many l => l end in
      match raw with
      | [] => Ok []
      | _ =>
          match filter (λ s, is_valid_wire s = false) raw with
          | [] =>
              let raw := map (λ s, default s (scope_alias s)) raw in
              if decide ("all" ∈ raw) then Ok ALL_SCOPES else Ok (dedupe_scopes (omap from_wire raw))
          | unknown =>
              Err (InvalidInput ("Unknown recall scope(s): " +:+ list_debug str_debug unknown +:+ ". Valid values: "
                     +:+ list_debug str_debug ["all"; "auto"; "graph"; "graph_context"; "session"; "trace"]))
          end
      end
  end.

(** ** Items *)

(** A score, as the float it is: a count, or [1.0 - (rank as f64 * 0.01)]. *)
Inductive recall_score := Overlap (n : nat) | RankScore (rank : nat).

Record RecallItem := { ri_source : RecallSource; ri_content : json; ri_score : recall_score }.

(** ** Words *)

(** The characters of a UTF-8 string. *)
Fixpoint utf8_chars_go (fuel : nat) (s : list N) : text :=
  match fuel, s with
  | S fuel, b :: s =>
      let extra := if (b <? 192)%N then 0 else if (b <? 224)%N then 1 else if (b <? 240)%N then 2 else 3 in
      let lead := if (b <? 128)%N then b else if (b <? 224)%N then (b mod 32)%N else if (b <? 240)%N then (b mod 16)%N
                  else (b mod 8)%N in
      foldl (λ c b, c * 64 + b mod 64)%N lead (take extra s) :: utf8_chars_go fuel (drop extra s)
  | _, _ => []
  end.

Definition utf8_chars (s : string) : text :=
  utf8_chars_go (String.length s) (map Ascii.N_of_ascii (String.list_ascii_of_string s)).

(** [char::is_alphanumeric] and [str::to_lowercase], of Unicode. *)
Class CharClasses := { is_alphanumeric : char → bool; lower_word : text → text }.

(** [str::split] at the characters that are not alphanumeric. *)
Fixpoint split_words `{CharClasses} (word s : text) : list text :=
  match s with
  | [] => [word]
  | c :: s => if is_alphanumeric c then split_words (word ++ [c]) s else word :: split_words [] s
  end.

(** [tokenize] *)
Definition tokenize `{CharClasses} (s : text) : gset text :=
  list_to_set (map lower_word (filter (λ w, 2 ≤ str_len w) (split_words [] s))).

(** ** Ranking *)

Section ranking.
Context `{CharClasses}.

(** How many words of the query an entry shares. *)
Definition overlap (query_tokens : gset text) (entry : text) : nat := size (query_tokens ∩ tokenize entry).

(** The entries that share a word with the query, by index, most words first, entries of
    one count in their order. *)
Definition ranked (query_tokens : gset text) (entries : list text) (top_k : nat) : list (nat * nat) :=
  let scored := filter (λ s : nat * nat, 0 < s.2) (imap (λ i entry, (i, overlap query_tokens entry)) entries) in
  take top_k (sort_by_key nat_desc snd scored).
End ranking.

Record SessionQAEntry := {
  qa_question : string;
  qa_answer : string;
  qa_context : option string;
  qa_session_id : string;
  qa_created_at : string;
}.

Record SessionTraceStep := {
  st_trace_id : string;
  st_origin_function : string;
  st_status : string;
  st_memory_query : string;
  st_memory_context : string;
  st_method_params : json;
  st_method_return_value : option json;
  st_error_message : string;
  st_session_feedback : string;
}.

Definition json_opt (v : option json) : json := default JNull v.

Section sources.
Context {X : Type} `{CharClasses} `{SerdeJson}.

(** [SessionStore::get_all_qa_entries] and [SessionManager::get_agent_trace_session]. *)
Context (get_all_qa_entries : string → option string → call X (result string (list SessionQAEntry)))
  (get_agent_trace_session : string → string → call X (result string (list SessionTraceStep))).

Definition qa_text (e : SessionQAEntry) : string :=
  qa_question e +:+ " " +:+ default "" (qa_context e) +:+ " " +:+ qa_answer e.

Definition qa_item (e : SessionQAEntry) (score : nat) : RecallItem := {|
  ri_source := SourceSession;
  ri_content := JObject {["question" := JString (qa_question e); "answer" := JString (qa_answer e);
                          "context" := json_opt (JString <$> qa_context e); "session_id" := JString (qa_session_id e);
                          "created_at" := JString (qa_created_at e)]};
  ri_score := Overlap score |}.

(** The items of ranked entries. *)
Definition ranked_items {E} (item : E → nat → RecallItem) (entries : list E) (scored : list (nat * nat)) : list RecallItem :=
  omap (λ s : nat * nat, (λ e, item e s.2) <$> entries !! s.1) scored.

(** [search_session]; [store]: a store is wired. *)
Definition search_session (query_text : string) (session_id user_id : option string) (top_k : nat) (store : bool)
    : proc X (result SearchError (list RecallItem)) :=
  match session_id with
  | Some sid =>
      if store then
        let query_tokens := tokenize (utf8_chars query_text) in
        if decide (query_tokens = ∅) then Ret (Ok [])
        else
          let! r := step (get_all_qa_entries sid user_id) in
          Ret (result_map (λ entries,
                 ranked_items qa_item entries (ranked query_tokens (map (λ e, utf8_chars (qa_text e)) entries) top_k))
               (map_err SearchDatabaseError r))
      else Ret (Ok [])
  | None => Ret (Ok [])
  end.

Definition trace_text (e : SessionTraceStep) : string :=
  join " " ([st_origin_function e; st_status e; st_memory_query e; st_memory_context e; st_session_feedback e;
             st_error_message e; json_to_string (st_method_params e)]
            ++ match st_method_return_value e with Some v => [json_to_string v] | None => [] end).

Definition trace_item (e : SessionTraceStep) (score : nat) : RecallItem := {|
  ri_source := SourceTrace;
  ri_content := JObject {["trace_id" := JString (st_trace_id e); "origin_function" := JString (st_origin_function e);
                          "status" := JString (st_status e); "memory_query" := JString (st_memory_query e);
                          "memory_context" := JString (st_memory_context e); "method_params" := st_method_params e;
                          "method_return_value" := json_opt (st_method_return_value e);
                          "error_message" := JString (st_error_message e);
                          "session_feedback" := JString (st_session_feedback e)]};
  ri_score := Overlap score |}.

(** [search_trace]; [sm]: a session manager is wired. *)
Definition search_trace (query_text : string) (session_id user_id : option string) (top_k : nat) (sm : bool)
    : proc X (result SearchError (list RecallItem)) :=
  match session_id, user_id with
  | Some sid, Some uid =>
      if sm && negb (bool_decide (uid = "")) then
        let query_tokens := tokenize (utf8_chars query_text) in
        if decide (query_tokens = ∅) then Ret (Ok [])
        else
          let! r := step (get_agent_trace_session uid sid) in
          Ret (result_map (λ entries,
                 ranked_items trace_item entries (ranked query_tokens (map (λ e, utf8_chars (trace_text e)) entries) top_k))
               (map_err SearchDatabaseError r))
      else Ret (Ok [])
  | _, _ => Ret (Ok [])
  end.
End sources.
