(* ===== verification/Recall.v ===== *)
(** * Recall (crates/search/src/recall_scope.rs, crates/lib/src/api/recall.rs)

    The plan of a recall's graph search, its retry as the fallback, the guard on a graph
    that is not built, and the sources a recall goes through. *)

From S2P Require Import Prelude Json Strings Proc SearchTypes QueryRouter GraphWarmup SearchMerge SearchScope SearchDatasets.
From S2P Require Import RecallScope.
From Stdlib Require Import QArith.
#[local] Open Scope nat_scope.
#[local] Open Scope cog_scope.

Record RecallOptions := {
  ro_system_prompt : option string;
  ro_system_prompt_path : option string;
  ro_node_name : option (list string);
  ro_node_name_filter_operator : option string;
  ro_only_context : option bool;
  ro_wide_search_top_k : option N;
  ro_triplet_distance_penalty : option Q;
  ro_feedback_influence : option Q;
  ro_auto_feedback_detection : option bool;
  ro_neighborhood_depth : option N;
  ro_neighborhood_seed_top_k : option N;
  ro_include_references : bool;
  ro_retriever_specific_config : option (gmap string json);
  ro_tenant_id : option uuid;
}.

Record GraphPlan := {
  gp_owner : option uuid;
  gp_decision : RouteDecision;
  gp_routed_rule : option string;
  gp_fallback : RouteDecision;
}.

Definition has_dataset_filter (datasets : option (list string)) (dataset_ids : option (list uuid)) : bool :=
  wired (named datasets) || wired (named dataset_ids).

Definition RETRY_ON_EMPTY : list SearchType := [ChunksLexical; CodingRules].

(** [is_empty] *)
Definition output_is_empty (output : SearchOutput) : bool :=
  match output with
  | Items items => bool_decide (length items = 0)
  | Rules rules => bool_decide (length rules = 0)
  | _ => false
  end.

Definition search_only_context (caller : option bool) (decision : RouteDecision) : option bool :=
  if rd_only_context decision then Some true else caller.

(** [switch_to] *)
Definition switch_to (decision : RouteDecision) (caller_only_context : option bool) (r : SearchRequest) : SearchRequest := {|
  rq_query_text := rq_query_text r; rq_search_type := rd_search_type decision; rq_top_k := rq_top_k r;
  rq_datasets := rq_datasets r; rq_dataset_ids := rq_dataset_ids r; rq_system_prompt := rq_system_prompt r;
  rq_system_prompt_path := rq_system_prompt_path r; rq_only_context := search_only_context caller_only_context decision;
  rq_use_combined_context := rq_use_combined_context r; rq_session_id := rq_session_id r; rq_node_type := rq_node_type r;
  rq_node_name := rq_node_name r; rq_node_name_filter_operator := rq_node_name_filter_operator r;
  rq_wide_search_top_k := rq_wide_search_top_k r; rq_triplet_distance_penalty := rq_triplet_distance_penalty r;
  rq_user_id := rq_user_id r; rq_tenant_id := rq_tenant_id r; rq_verbose := rq_verbose r;
  rq_feedback_influence := rq_feedback_influence r; rq_retriever_specific_config := rq_retriever_specific_config r;
  rq_response_schema := rq_response_schema r; rq_custom_search_type := rq_custom_search_type r;
  rq_auto_feedback_detection := rq_auto_feedback_detection r; rq_neighborhood_depth := rq_neighborhood_depth r;
  rq_neighborhood_seed_top_k := rq_neighborhood_seed_top_k r; rq_include_references := rq_include_references r |}.

Section fallback.
Context {W T : Type} (search : SearchRequest → proc W (result SearchError T)) (found_nothing : T → bool).

(** The retry of a search that found nothing. *)
Definition retry_if_empty (plan : GraphPlan) (caller_only_context : option bool) (routed_guess : bool)
    (request : SearchRequest) (found : T) : proc W (result SearchError (T * SearchType)) :=
  if routed_guess && bool_decide (rq_search_type request ∈ RETRY_ON_EMPTY) && found_nothing found then
    let request := switch_to (gp_fallback plan) caller_only_context request in
    let?! found := search request in
    Ret (Ok (found, rq_search_type request))
  else Ret (Ok (found, rq_search_type request)).

(** [GraphPlan::search_with_fallback] *)
Definition search_with_fallback (plan : GraphPlan) (request : SearchRequest) (caller_only_context : option bool)
    : proc W (result SearchError (T * SearchType)) :=
  let request := switch_to (gp_decision plan) caller_only_context request in
  let routed_guess := wired (gp_routed_rule plan)
                      && negb (bool_decide (rd_search_type (gp_decision plan) = ROUTER_FALLBACK_TYPE)) in
  let! first := search request in
  match first with
  | Err (UnsupportedSearchType rejected) =>
      if routed_guess then
        let request := switch_to (gp_fallback plan) caller_only_context request in
        let?! found := search request in
        retry_if_empty plan caller_only_context routed_guess request found
      else Ret (Err (UnsupportedSearchType rejected))
  | Err e => Ret (Err e)
  | Ok found => retry_if_empty plan caller_only_context routed_guess request found
  end.
End fallback.

Section recall.
Context {R X S T evidence : Type} `{SearchRetriever R X} `{UuidFormat} `{Scheduler X} `{CharClasses} `{SerdeJson}.
Context (o : Orchestrator R X S T evidence) (constraints : RoutingConstraints) (graph_warmup : option (Warmup X)).

(** [Uuid::parse_str] with its error text, the router's patterns, and the sessions. *)
Context (parse_uuid : string → result string uuid) (is_match : string → string → bool)
  (get_all_qa_entries : string → option string → call X (result string (list SessionQAEntry)))
  (get_agent_trace_session : string → string → call X (result string (list SessionTraceStep)))
  (session_store session_manager : bool).

(** [serde_json::to_value] of an output that is neither items nor text. *)
Context (output_to_json : SearchOutput → json).

Notation prog A := (proc (search_world X) A).

(** [graph_owner] *)
Definition graph_owner (user_id : option string) (datasets : option (list string)) (dataset_ids : option (list uuid))
    : result SearchError (option uuid) :=
  match user_id with
  | None => Ok None
  | Some raw =>
      match parse_uuid raw with
      | Ok id => Ok (Some id)
      | Err error =>
          if has_dataset_filter datasets dataset_ids
          then Err (InvalidInput ("dataset filter requires a UUID user_id to identify the owner, got '" +:+ raw +:+ "': " +:+ error))
          else Ok None
      end
  end.

(** [plan_graph] *)
Definition plan_graph (query_text : string) (query_type : option SearchType) (auto_route : bool)
    (datasets : option (list string)) (dataset_ids : option (list uuid)) (user_id : option string)
    : result SearchError GraphPlan :=
  let? owner := graph_owner user_id datasets dataset_ids in
  let fallback := default_route constraints in
  let '(decision, routed_rule) :=
    match query_type, auto_route with
    | Some qt, _ => (pinned_route qt constraints, None)
    | None, true => let decision := route_query is_match query_text constraints in (decision, Some (rd_rule decision))
    | None, false => (fallback, None)
    end in
  Ok {| gp_owner := owner; gp_decision := decision; gp_routed_rule := routed_rule; gp_fallback := fallback |}.

(** [empty_graph_response] *)
Definition empty_graph_response (search_type : SearchType) : SearchResponse evidence :=
  prepare_search_result (or_debug o) search_type (Items []) None (Some []) false false false.

(** *** The guard *)

(** [warmup_marker] *)
Definition warmup_marker (p : WarmupProbe) (threshold : N) : RecallItem :=
  let '(status, text) :=
    if decide (wp_state p = BuildFailed) then
      ("build_failed", "Memory build failed: the last ingestion for the requested datasets ended in an error ("
        +:+ default "unknown error" (wp_error_message p)
        +:+ "). Fix the cause and re-run remember() or cognify().")
    else
      ("memory_warming_up", "Memory is still warming up: no knowledge graph data exists yet for the requested datasets.") in
  {| ri_source := SourceSystem;
     ri_content := JObject {["status" := JString status; "text" := JString text;
                             "datapoint_count" := JInt (Z.of_N (wp_datapoint_count p)); "threshold" := JInt (Z.of_N threshold);
                             "error_class" := JNull; "error_message" := json_opt (JString <$> wp_error_message p)]};
     ri_score := RankScore 0 |}.

(** [GraphPlan::warmup_note] *)
Definition warmup_note (plan : GraphPlan) (datasets : option (list string)) (dataset_ids : option (list uuid))
    (options : option RecallOptions) : proc X (result SearchError (option RecallItem)) :=
  match graph_warmup with
  | None => Ret (Ok None)
  | Some warmup =>
      if negb (wc_shortcircuit (wu_config warmup)) || default false (options ≫= ro_only_context) then Ret (Ok None)
      else
        match gp_owner plan with
        | None => Ret (Ok None)
        | Some requester =>
            let?! p := assess_recall_readiness (or_acl_db o) (or_dataset_resolver o) graph_warmup requester
                         (options ≫= ro_tenant_id) datasets dataset_ids in
            Ret (Ok (if is_warm p then None else Some (warmup_marker p (wc_threshold (wu_config warmup)))))
        end
  end.

(** *** The graph *)

Definition recall_request (plan : GraphPlan) (query_text : string) (datasets : option (list string))
    (dataset_ids : option (list uuid)) (top_k : N) (session_id : option string) (options : option RecallOptions)
    : SearchRequest := {|
  rq_query_text := query_text;
  rq_search_type := rd_search_type (gp_decision plan);
  rq_top_k := Some top_k;
  rq_datasets := datasets;
  rq_dataset_ids := dataset_ids;
  rq_system_prompt := options ≫= ro_system_prompt;
  rq_system_prompt_path := options ≫= ro_system_prompt_path;
  rq_only_context := search_only_context (options ≫= ro_only_context) (gp_decision plan);
  rq_use_combined_context := None;
  rq_session_id := session_id;
  rq_node_type := None;
  rq_node_name := options ≫= ro_node_name;
  rq_node_name_filter_operator := options ≫= ro_node_name_filter_operator;
  rq_wide_search_top_k := options ≫= ro_wide_search_top_k;
  rq_triplet_distance_penalty := options ≫= ro_triplet_distance_penalty;
  rq_user_id := gp_owner plan;
  rq_tenant_id := options ≫= ro_tenant_id;
  rq_verbose := None;
  rq_feedback_influence := options ≫= ro_feedback_influence;
  rq_retriever_specific_config := options ≫= ro_retriever_specific_config;
  rq_response_schema := None;
  rq_custom_search_type := None;
  rq_auto_feedback_detection := options ≫= ro_auto_feedback_detection;
  rq_neighborhood_depth := options ≫= ro_neighborhood_depth;
  rq_neighborhood_seed_top_k := options ≫= ro_neighborhood_seed_top_k;
  rq_include_references := match options with Some options => ro_include_references options | None => false end |}.

(** [serde_json::to_value] of an item. *)
Definition item_to_json (item : SearchItem) : json :=
  JObject {["id" := json_opt ((λ id, JString (uuid_to_string id)) <$> si_id item);
            "score" := json_opt (JFloat <$> si_score item); "payload" := si_payload item]}.

(** The items of a response, by rank. *)
Definition graph_item (rank : nat) (content : json) : RecallItem :=
  {| ri_source := SourceGraph; ri_content := content; ri_score := RankScore rank |}.

Definition graph_items (output : SearchOutput) : list RecallItem :=
  match output with
  | Items items => imap (λ i item, graph_item i (item_to_json item)) items
  | AnswerText text => [graph_item 0 (JString text)]
  | Texts texts => imap (λ i t, graph_item i (JString t)) texts
  | other => [graph_item 0 (output_to_json other)]
  end.

(** What a graph search answers: its items, the type that answered, whether the router chose
    it, and the response. *)
Notation graph_answer := (list RecallItem * SearchType * bool * SearchResponse evidence)%type.

(** [run_graph] *)
Definition run_graph (plan : GraphPlan) (query_text : string) (datasets : option (list string))
    (dataset_ids : option (list uuid)) (top_k : N) (session_id : option string) (options : option RecallOptions)
    : prog (result SearchError graph_answer) :=
  let auto_routed := wired (gp_routed_rule plan) in
  let search_type := rd_search_type (gp_decision plan) in
  if or_per_dataset_storage o && negb (wired (gp_owner plan)) && negb (has_dataset_filter datasets dataset_ids) then
    Ret (Ok ([], search_type, auto_routed, empty_graph_response search_type))
  else
    let?! answer := search_with_fallback (search o) (λ r : SearchResponse evidence, output_is_empty (rs_result r)) plan
                      (recall_request plan query_text datasets dataset_ids top_k session_id options)
                      (options ≫= ro_only_context) in
    let '(response, search_type) := answer in
    Ret (Ok (graph_items (rs_result response), search_type, auto_routed, response)).

(** The graph's part of a recall; [only]: it is the one source. *)
Definition recall_graph (only : bool) (query_text : string) (query_type : option SearchType) (datasets : option (list string))
    (dataset_ids : option (list uuid)) (top_k : N) (auto_route : bool) (session_id user_id : option string)
    (options : option RecallOptions) : prog (result SearchError graph_answer) :=
  match plan_graph query_text query_type auto_route datasets dataset_ids user_id with
  | Err e => Ret (Err e)
  | Ok plan =>
      let?! note := lift (warmup_note plan datasets dataset_ids options) in
      match note with
      | Some note =>
          let search_type := rd_search_type (gp_decision plan) in
          Ret (Ok (if only then [note] else [], search_type, wired (gp_routed_rule plan), empty_graph_response search_type))
      | None => run_graph plan query_text datasets dataset_ids top_k session_id options
      end
  end.

(** *** The recall *)

Record RecallResult := {
  rr_items : list RecallItem;
  rr_search_type_used : option SearchType;
  rr_auto_routed : bool;
  rr_search_response : option (SearchResponse evidence);
}.

Definition no_result : RecallResult :=
  {| rr_items := []; rr_search_type_used := None; rr_auto_routed := false; rr_search_response := None |}.

Definition with_items (items : list RecallItem) (r : RecallResult) : RecallResult :=
  {| rr_items := rr_items r ++ items; rr_search_type_used := rr_search_type_used r; rr_auto_routed := rr_auto_routed r;
     rr_search_response := rr_search_response r |}.

(** The scopes of a recall, and whether a hit of the session skips the graph. *)
Definition recall_sources (scope : option (list RecallScope)) (session_id : option string) (datasets : option (list string))
    (dataset_ids : option (list uuid)) (query_type : option SearchType) : list RecallScope * bool :=
  let normalized := match scope with None | Some [] => [ScopeAuto] | Some v => dedupe_scopes v end in
  if decide (normalized = [ScopeAuto]) then
    match session_id with
    | Some _ => ([ScopeSession; ScopeGraph],
                 negb (has_dataset_filter datasets dataset_ids) && negb (wired query_type))
    | None => ([ScopeGraph], false)
    end
  else (normalized, false).

Section sources.
Context (query_text : string) (query_type : option SearchType) (datasets : option (list string))
  (dataset_ids : option (list uuid)) (top_k : N) (auto_route : bool) (session_id user_id : option string)
  (options : option RecallOptions) (sources : list RecallScope) (auto_fallthrough : bool).

(** One source. *)
Definition recall_source (src : RecallScope) (merged : RecallResult) : prog (result SearchError RecallResult) :=
  match src with
  | ScopeAuto => Ret (Ok merged)
  | ScopeSession =>
      let?! part := lift (search_session get_all_qa_entries query_text session_id user_id (N.to_nat top_k) session_store) in
      Ret (Ok (with_items part merged))
  | ScopeTrace =>
      let?! part := lift (search_trace get_agent_trace_session query_text session_id user_id (N.to_nat top_k) session_manager) in
      Ret (Ok (with_items part merged))
  | ScopeGraph =>
      let?! part := recall_graph (bool_decide (sources = [ScopeGraph])) query_text query_type datasets dataset_ids top_k
                      auto_route session_id user_id options in
      let '(items, used_type, was_auto, response) := part in
      Ret (Ok {| rr_items := rr_items merged ++ items; rr_search_type_used := Some used_type;
                 rr_auto_routed := was_auto; rr_search_response := Some response |})
  end.

Fixpoint recall_from (rest : list RecallScope) (merged : RecallResult) : prog (result SearchError RecallResult) :=
  match rest with
  | [] => Ret (Ok merged)
  | src :: rest =>
      if auto_fallthrough && bool_decide (src = ScopeGraph) && negb (bool_decide (length (rr_items merged) = 0))
      then Ret (Ok merged)
      else
        let?! merged := recall_source src merged in
        recall_from rest merged
  end.
End sources.

(** [recall]; an error is the text of the search's ([ApiError::Search]). *)
Definition recall (query_text : string) (query_type : option SearchType) (datasets : option (list string))
    (dataset_ids : option (list uuid)) (top_k : N) (auto_route : bool) (session_id user_id : option string)
    (scope : option (list RecallScope)) (options : option RecallOptions) : prog (result SearchError RecallResult) :=
  let '(sources, auto_fallthrough) := recall_sources scope session_id datasets dataset_ids query_type in
  recall_from query_text query_type datasets dataset_ids top_k auto_route session_id user_id options sources auto_fallthrough
    sources no_result.
End recall.
