(* ===== verification/RecallFacts.v ===== *)
(** * What a recall does

    Its scopes, its ranking of a session, the searches its plan sends, and the items of its
    sources. *)

From stdpp Require Import sorting.
From S2P Require Import Prelude Json Strings Text Proc StableSort SearchTypes QueryRouter GraphWarmup SearchMerge.
From S2P Require Import MergeResults SearchScope SearchDatasets SearchFacts RecallScope Recall.
From Stdlib Require Import QArith.
#[local] Open Scope nat_scope.
#[local] Open Scope cog_scope.

(** ** Scopes *)

Lemma dedupe_from_spec l : ∀ seen,
  NoDup (dedupe_from seen l) ∧ ∀ s, s ∈ dedupe_from seen l ↔ s ∈ l ∧ s ∉ seen.
Proof.
  induction l as [|x l IH]; intros seen; simpl; [split; [apply NoDup_nil_2|]; intros s; split; [by intros ?%not_elem_of_nil|by intros [?%not_elem_of_nil _]]|].
  destruct (decide (x ∈ seen)) as [Hx|Hx].
  - destruct (IH seen) as [Hnd Hin]. split; [done|]. intros s. rewrite Hin, elem_of_cons. naive_solver.
  - destruct (IH (x :: seen)) as [Hnd Hin]. split.
    + constructor; [|done]. rewrite Hin, elem_of_cons. tauto.
    + intros s. rewrite !elem_of_cons, Hin, not_elem_of_cons. destruct (decide (s = x)) as [->|]; naive_solver.
Qed.

(** In [l], [s] occurs before [t] does. *)
Definition occurs_before (l : list RecallScope) (s t : RecallScope) : Prop := ∃ a b, l = a ++ s :: b ∧ t ∉ a.

(** Each scope stands where it first occurred. *)
Lemma dedupe_from_order l : ∀ seen, StronglySorted (occurs_before l) (dedupe_from seen l).
Proof.
  assert (Hweaken : ∀ x l L, StronglySorted (occurs_before l) L → x ∉ L → StronglySorted (occurs_before (x :: l)) L).
  { intros x l' L. induction 1 as [|y L _ IH Hall]; intros Hx; [constructor|]. apply not_elem_of_cons in Hx as [_ Hx].
    constructor; [by apply IH|]. rewrite Forall_forall in Hall |- *. intros t Ht. destruct (Hall t Ht) as (a & b & -> & Hta).
    exists (x :: a), b. split; [done|]. apply not_elem_of_cons. split; [|done]. by intros ->. }
  induction l as [|x l IH]; intros seen; simpl; [constructor|]. destruct (decide (x ∈ seen)) as [Hx|Hx].
  - apply Hweaken; [apply IH|]. by intros [_ ?]%(proj2 (dedupe_from_spec l seen)).
  - constructor.
    + apply Hweaken; [apply IH|]. intros [_ Hnx]%(proj2 (dedupe_from_spec l (x :: seen))). apply Hnx. left.
    + apply Forall_forall. intros t _. exists [], l. split; [done|]. apply not_elem_of_nil.
Qed.

(** What a name of a scope stands for. *)
Definition scope_named (name : string) (s : RecallScope) : Prop :=
  name = as_wire s ∨ s = ScopeGraph ∧ name = "graph_context" ∨ s ∈ ALL_SCOPES ∧ name = "all".

Lemma from_wire_iff name s : from_wire name = Some s ↔ name = as_wire s.
Proof.
  unfold from_wire. split.
  - repeat case_decide; intros [= <-]; done.
  - intros ->. by destruct s.
Qed.

Lemma scope_alias_iff name new : scope_alias name = Some new ↔ name = "graph_context" ∧ new = "graph".
Proof.
  unfold scope_alias, DEPRECATED_SCOPE_ALIASES. rewrite filter_cons, filter_nil. simpl.
  destruct (decide ("graph_context" = name)) as [<-|]; simpl; naive_solver.
Qed.

Lemma valid_wire_iff name : is_valid_wire name = true ↔ ∃ s, scope_named name s.
Proof.
  unfold is_valid_wire, wired. rewrite !orb_true_iff, !bool_decide_eq_true. unfold scope_named. split.
  - intros [[->|[new Hnew]]|[s Hs]].
    + exists ScopeGraph. right. right. split; [left|done].
    + apply scope_alias_iff in Hnew as [-> _]. exists ScopeGraph. auto.
    + apply from_wire_iff in Hs. eauto.
  - intros [s [->|[[_ ->]|[_ ->]]]]; [right|by left; right|by left; left]. by destruct s.
Qed.

Lemma aliased_all name : default name (scope_alias name) = "all" ↔ name = "all".
Proof.
  destruct (scope_alias name) as [new|] eqn:Ha; simpl; [|done]. apply scope_alias_iff in Ha as [-> ->]. done.
Qed.

Lemma aliased_named name s : name ≠ "all" → (from_wire (default name (scope_alias name)) = Some s ↔ scope_named name s).
Proof.
  intros Hall. rewrite from_wire_iff. unfold scope_named. destruct (scope_alias name) as [new|] eqn:Ha; simpl.
  - apply scope_alias_iff in Ha as [-> ->]. split; [|intros [Hs|[[-> _]|[_ ?]]]; [by destruct s|done|done]].
    intros Hs. right. left. destruct s; done.
  - split; [by left|]. intros [?|[[_ ->]|[_ ?]]]; [done| |done]. done.
Qed.

Lemma omap_map {A B C} (f : A → B) (g : B → option C) (l : list A) : omap g (map f l) = omap (λ x, g (f x)) l.
Proof. induction l as [|x l IH]; simpl; [done|]. destruct (g (f x)); [f_equal|]; exact IH. Qed.

Lemma omap_wires (l : list RecallScope) : omap (λ s, from_wire (default (as_wire s) (scope_alias (as_wire s)))) l = l.
Proof. induction l as [|s l IH]; simpl; [done|]. by destruct s; simpl; f_equal. Qed.

Lemma dedupe_NoDup l : NoDup l → dedupe_scopes l = l.
Proof.
  unfold dedupe_scopes. intros Hnd. assert (Hgo : ∀ seen, (∀ s, s ∈ l → s ∉ seen) → dedupe_from seen l = l).
  { induction Hnd as [|x l Hx Hnd IH]; intros seen Hseen; simpl; [done|]. rewrite decide_False by (apply Hseen; left).
    f_equal. apply IH. intros s Hs [->|Hin]%elem_of_cons; [done|]. apply (Hseen s); [by right|done]. }
  apply Hgo. by intros s _ ?%not_elem_of_nil.
Qed.

(** A scope is normalized exactly if each of its names is known; it then lists, once each,
    the scopes its names stand for (a deprecated name, the scope it became), or, if one of
    the names is ["all"], the three sources. The scopes' own names are read back as themselves. *)
Theorem normalize_scope_spec (str_debug : string → string) (names : list string) :
  (is_ok (normalize_scope str_debug (Some (Many names))) = true ↔ ∀ name, name ∈ names → ∃ s, scope_named name s)
  ∧ (∀ scopes, normalize_scope str_debug (Some (Many names)) = Ok scopes →
       NoDup scopes ∧ ("all" ∈ names → scopes = ALL_SCOPES)
       ∧ ("all" ∉ names → ∀ s, s ∈ scopes ↔ ∃ name, name ∈ names ∧ scope_named name s))
  ∧ ∀ scopes, NoDup scopes → normalize_scope str_debug (Some (Many (map as_wire scopes))) = Ok scopes.
Proof.
  assert (Hcases : ∀ names, match normalize_scope str_debug (Some (Many names)) with
    | Err _ => ∃ name, name ∈ names ∧ is_valid_wire name = false
    | Ok scopes => (∀ name, name ∈ names → is_valid_wire name = true)
        ∧ scopes = if decide ("all" ∈ names) then ALL_SCOPES else dedupe_scopes (omap (λ name, from_wire (default name (scope_alias name))) names)
    end).
  { clear names. intros names. unfold normalize_scope. destruct names as [|n names]; [split; [by intros ? ?%not_elem_of_nil|done]|].
    set (l := n :: names). assert (Hin : ∀ name, name ∈ filter (λ s, is_valid_wire s = false) l ↔ is_valid_wire name = false ∧ name ∈ l) by (intros name; by rewrite list_elem_of_filter).
    destruct (filter (λ s, is_valid_wire s = false) l) as [|x bad] eqn:Hf.
    - assert (Hvalid : ∀ name, name ∈ l → is_valid_wire name = true).
      { intros name Hname. destruct (is_valid_wire name) eqn:Hv; [done|]. exfalso. apply (not_elem_of_nil name). by apply Hin. }
      assert (Hall : "all" ∈ map (λ s, default s (scope_alias s)) l ↔ "all" ∈ l).
      { rewrite list_elem_of_fmap. split; [intros (y & Hy & Hyl); symmetry in Hy; apply (proj1 (aliased_all _)) in Hy; by rewrite Hy in Hyl|].
        intros Hl. exists "all". by split; [symmetry; apply (proj2 (aliased_all _))|]. }
      destruct (decide ("all" ∈ l)) as [Hd|Hd].
      + by rewrite decide_True by by apply Hall.
      + rewrite decide_False by by rewrite Hall. by rewrite omap_map.
    - exists x. destruct (proj1 (Hin x)) as [Hv Hx]; [left|]. done. }
  split_and!.
  - specialize (Hcases names). destruct (normalize_scope _ _) as [scopes|e]; simpl.
    + destruct Hcases as [Hvalid _]. split; [|done]. intros _ name Hname. by apply valid_wire_iff, Hvalid.
    + destruct Hcases as (name & Hname & Hbad). split; [done|]. intros Hall. apply Hall, valid_wire_iff in Hname. congruence.
  - intros scopes Hok. specialize (Hcases names). rewrite Hok in Hcases. destruct Hcases as [Hvalid ->].
    split_and!.
    + case_decide; [refine (bool_decide_unpack _ _); vm_compute; exact I|]. apply (dedupe_from_spec _ []).
    + intros Hall. by rewrite decide_True.
    + intros Hall. rewrite decide_False by done. intros s. unfold dedupe_scopes.
      rewrite (proj2 (dedupe_from_spec _ [])), list_elem_of_omap. split.
      * intros [(name & Hname & Hs) _]. exists name. split; [done|]. apply aliased_named in Hs; [done|by intros ->].
      * intros (name & Hname & Hs). split; [|by intros ?%not_elem_of_nil]. exists name. split; [done|].
        apply aliased_named; [by intros ->|done].
  - intros scopes Hnd. specialize (Hcases (map as_wire scopes)).
    assert (Hvalid : ∀ name, name ∈ map as_wire scopes → ∃ s, scope_named name s).
    { intros name (s & -> & _)%list_elem_of_fmap. exists s. by left. }
    destruct (normalize_scope _ _) as [scopes'|e].
    + destruct Hcases as [_ ->]. rewrite decide_False by (intros (s & Hs & _)%list_elem_of_fmap; by destruct s).
      f_equal. rewrite omap_map, (omap_wires scopes). by apply dedupe_NoDup.
    + destruct Hcases as (name & Hname & Hbad). apply Hvalid, valid_wire_iff in Hname. congruence.
Qed.

(** ** Ranking *)

(** An entry is ranked before another: it shares more words, or as many and it is older. *)
Definition ranks_before (a b : nat * nat) : Prop := b.2 < a.2 ∨ a.2 = b.2 ∧ a.1 < b.1.

Section ranking.
Context `{CharClasses}.

Definition scored (query_tokens : gset text) (entries : list text) : list (nat * nat) :=
  filter (λ s : nat * nat, 0 < s.2) (imap (λ i entry, (i, overlap query_tokens entry)) entries).

Lemma scored_iff q entries i n :
  (i, n) ∈ scored q entries ↔ ∃ entry, entries !! i = Some entry ∧ n = overlap q entry ∧ 0 < n.
Proof.
  unfold scored. rewrite list_elem_of_filter, list_elem_of_lookup. simpl. split.
  - intros [Hn (j & Hj)]. rewrite list_lookup_imap in Hj. destruct (entries !! j) as [e|] eqn:He; [|done].
    injection Hj as <- <-. eauto.
  - intros (entry & He & -> & Hn). split; [done|]. exists i. rewrite list_lookup_imap, He. done.
Qed.

Lemma scored_sorted q entries : StronglySorted (λ a b : nat * nat, a.1 < b.1) (scored q entries).
Proof.
  unfold scored. apply filter_sorted. induction entries as [|e entries IH] using rev_ind; [constructor|].
  rewrite imap_app. apply StronglySorted_app_2; [|done|repeat constructor].
  intros a b (i & Hi)%list_elem_of_lookup Hb. simpl in Hb. apply list_elem_of_singleton in Hb as ->.
  rewrite list_lookup_imap in Hi. destruct (entries !! i) eqn:He; [|done]. injection Hi as <-. simpl.
  apply lookup_lt_Some in He. lia.
Qed.

(** A session's entries are ranked by the words they share with the query: of those that
    share one, the ranking holds as many as asked for, the ones that share most words, most
    words first and of one count the oldest first; what it leaves out ranks after all it
    holds. *)
Theorem ranked_spec (query_tokens : gset text) (entries : list text) (top_k : nat) :
  let matching i n := ∃ entry, entries !! i = Some entry ∧ n = overlap query_tokens entry ∧ 0 < n in
  let l := ranked query_tokens entries top_k in
  (∀ i n, (i, n) ∈ l → matching i n)
  ∧ StronglySorted ranks_before l
  ∧ (∀ i n, matching i n → (i, n) ∈ l ∨ length l = top_k ∧ ∀ s, s ∈ l → ranks_before s (i, n))
  ∧ length l ≤ top_k.
Proof.
  intros matching l. set (sorted := sort_by_key nat_desc snd (scored query_tokens entries)).
  assert (Hs : StronglySorted ranks_before sorted).
  { apply (sorted_weaken (key_then nat_desc snd (λ a b : nat * nat, a.1 < b.1))).
    2:{ apply sort_by_key_then; [apply _|apply scored_sorted]. }
    intros a b [[H1 H2]|[H1 H2]]; unfold nat_desc, ranks_before in *; lia. }
  assert (Hin : ∀ i n, (i, n) ∈ sorted ↔ matching i n).
  { intros i n. unfold sorted. rewrite sort_by_key_perm. apply scored_iff. }
  assert (Hl : l = take top_k sorted) by done.
  rewrite <-(take_drop top_k sorted) in Hs, Hin. apply StronglySorted_app in Hs as (Hcross & Hs & _). split_and!.
  - intros i n Hi. apply Hin, elem_of_app. by left.
  - done.
  - intros i n Hm. apply Hin, elem_of_app in Hm as [Hi|Hi]; [by left|right]. split.
    + rewrite Hl, length_take. destruct (decide (top_k ≤ length sorted)); [lia|].
      rewrite drop_ge in Hi by lia. by apply not_elem_of_nil in Hi.
    + intros s Hsl. by apply Hcross.
  - rewrite Hl, length_take. lia.
Qed.
End ranking.

(** ** The searches of a plan *)

(** A search whose requests are logged. *)
Definition logging {W T} (search : SearchRequest → call W (result SearchError T)) (request : SearchRequest)
    : proc (list SearchRequest * W) (result SearchError T) :=
  step (λ w, ((w.1 ++ [request], (search request w.2).1), (search request w.2).2)).

Lemma switch_twice d d' c r : switch_to d c (switch_to d' c r) = switch_to d c r.
Proof. done. Qed.

(** A decision asks for the context alone exactly if no LLM can complete its type. *)
Definition context_only (constraints : RoutingConstraints) (t : SearchType) : bool :=
  negb (llm_available constraints) && bool_decide (t ∈ COMPLETION_ONLY_TYPES).

Lemma constrain_context d c : rd_only_context (constrain d c) = context_only c (rd_search_type (constrain d c)).
Proof. destruct d as [[] rule oc], c as [[] []]; reflexivity. Qed.

(** The type of a plan's search. *)
Definition planned_type (constraints : RoutingConstraints) (is_match : string → string → bool) (query : string)
    (query_type : option SearchType) (auto_route : bool) : SearchType :=
  match query_type with
  | Some t => t
  | None => if auto_route then rd_search_type (route_query is_match query constraints) else ROUTER_FALLBACK_TYPE
  end.

Lemma planned constraints parse_uuid is_match query query_type auto_route datasets ids user plan :
  plan_graph constraints parse_uuid is_match query query_type auto_route datasets ids user = Ok plan →
  graph_owner parse_uuid user datasets ids = Ok (gp_owner plan)
  ∧ gp_fallback plan = default_route constraints
  ∧ rd_search_type (gp_decision plan) = planned_type constraints is_match query query_type auto_route
  ∧ rd_only_context (gp_decision plan) = context_only constraints (rd_search_type (gp_decision plan))
  ∧ match query_type with
    | Some t => gp_routed_rule plan = None
    | None => runnable constraints (gp_decision plan) ∧ (is_Some (gp_routed_rule plan) → auto_route = true)
    end.
Proof.
  unfold plan_graph, planned_type. destruct (graph_owner _ _ _ _) as [owner|e]; [|done]. simpl.
  destruct query_type as [t|]; [|destruct auto_route]; intros [= <-]; simpl; (split; [done|]); (split; [done|]).
  - done.
  - split; [done|]. split; [apply constrain_context|]. split; [apply constrain_runnable|done].
  - split; [by destruct constraints as [[] []]|]. split; [apply constrain_context|].
    split; [apply constrain_runnable|]. by intros [? ?].
Qed.

Lemma fallback_type constraints : rd_search_type (default_route constraints) = ROUTER_FALLBACK_TYPE.
Proof. by destruct constraints as [[] []]. Qed.

(** A search is worth a retry: its type was rejected, or a lexical or rules search found
    nothing. *)
Definition unanswered {T} (found_nothing : T → bool) (search_type : SearchType) (answer : result SearchError T) : Prop :=
  match answer with
  | Ok found => found_nothing found = true ∧ search_type ∈ RETRY_ON_EMPTY
  | Err (UnsupportedSearchType _) => True
  | Err _ => False
  end.

(** The decisions whose searches a plan sends. *)
Lemma searches_of_plan {W T} (search : SearchRequest → call W (result SearchError T)) (found_nothing : T → bool)
    constraints parse_uuid is_match query query_type auto_route datasets ids user plan request caller (w : W) :
  plan_graph constraints parse_uuid is_match query query_type auto_route datasets ids user = Ok plan →
  let ran := run (search_with_fallback (logging search) found_nothing plan request caller) ([], w) in
  ∃ more final,
    ran.1.1 = map (λ d, switch_to d caller request) (gp_decision plan :: more)
    ∧ last (gp_decision plan :: more) = Some final
    ∧ (more = [] ∨ more = [default_route constraints] ∧ query_type = None ∧ auto_route = true
                   ∧ rd_search_type (gp_decision plan) ≠ ROUTER_FALLBACK_TYPE
                   ∧ unanswered found_nothing (rd_search_type (gp_decision plan))
                       (search (switch_to (gp_decision plan) caller request) w).2)
    ∧ ∃ w', ran.2 = result_map (λ found, (found, rd_search_type final)) (search (switch_to final caller request) w').2.
Proof.
  intros Hplan ran. apply planned in Hplan as (_ & Hfb & _ & _ & Hdec).
  assert (Hguess : wired (gp_routed_rule plan) && negb (bool_decide (rd_search_type (gp_decision plan) = ROUTER_FALLBACK_TYPE)) = true →
    query_type = None ∧ auto_route = true ∧ rd_search_type (gp_decision plan) ≠ ROUTER_FALLBACK_TYPE).
  { unfold wired. rewrite andb_true_iff, bool_decide_eq_true, negb_true_iff, bool_decide_eq_false.
    intros [Hr Hne]. destruct query_type as [t|]; [rewrite Hdec in Hr; by destruct Hr|].
    destruct Hdec as [_ Hauto]. auto. }
  assert (Hagain : rd_search_type (gp_fallback plan) ∉ RETRY_ON_EMPTY).
  { rewrite Hfb, fallback_type. refine (bool_decide_unpack _ _). vm_compute. exact I. }
  rewrite <-Hfb. clear Hfb Hdec.
  unfold ran, search_with_fallback. set (guess := _ && _) in *. unfold logging at 1. simpl.
  destruct (search _ w) as [w1 first] eqn:Hfirst. simpl.
  assert (Hone : first = (search (switch_to (gp_decision plan) caller request) w).2) by (by rewrite Hfirst).
  destruct first as [found|e].
  - unfold retry_if_empty. destruct (guess && _ && _) eqn:Hretry.
    + apply andb_true_iff in Hretry as [[Hg Hempty%bool_decide_eq_true]%andb_true_iff Hnothing]. apply Hguess in Hg as (Hq & Ha & Hne).
      unfold bind_ok, logging. simpl. rewrite switch_twice. destruct (search _ w1) as [w2 second] eqn:Hsecond.
      exists [gp_fallback plan], (gp_fallback plan).
      split_and!; [by destruct second|done|right; by repeat split|]. exists w1. rewrite Hsecond. by destruct second.
    + exists [], (gp_decision plan). split_and!; [done|done|by left|]. exists w. by rewrite <-Hone.
  - assert (Hstop : ∃ more final,
      [switch_to (gp_decision plan) caller request] = map (λ d, switch_to d caller request) (gp_decision plan :: more)
      ∧ last (gp_decision plan :: more) = Some final
      ∧ (more = [] ∨ more = [gp_fallback plan] ∧ query_type = None ∧ auto_route = true
                     ∧ rd_search_type (gp_decision plan) ≠ ROUTER_FALLBACK_TYPE
                     ∧ unanswered found_nothing (rd_search_type (gp_decision plan)) (w1, Err e).2)
      ∧ ∃ w', Err e = result_map (λ found, (found, rd_search_type final)) (search (switch_to final caller request) w').2).
    { exists [], (gp_decision plan). split_and!; [done|done|by left|]. exists w. by rewrite <-Hone. }
    destruct e as [| | | | | | | | | |rejected|]; try exact Hstop. destruct guess eqn:Hg; [|exact Hstop]. clear Hstop.
    destruct (Hguess eq_refl) as (Hq & Ha & Hne).
    unfold bind_ok, logging. simpl. rewrite switch_twice. destruct (search _ w1) as [w2 second] eqn:Hsecond.
    exists [gp_fallback plan], (gp_fallback plan).
    assert (Hno : bool_decide (rd_search_type (gp_fallback plan) ∈ RETRY_ON_EMPTY) = false) by by apply bool_decide_eq_false.
    destruct second as [found|e]; simpl; [unfold retry_if_empty; simpl; rewrite Hno; simpl|];
      (split_and!; [done|done|right; by repeat split|]); exists w1; by rewrite Hsecond.
Qed.

(** What every request of a recall asks, whatever its type. *)
Record asks (parse_uuid : string → result string uuid) (query : string) (datasets : option (list string))
    (ids : option (list uuid)) (user : option string) (top_k : N) (session : option string)
    (options : option RecallOptions) (r : SearchRequest) : Prop := {
  ak_query : rq_query_text r = query;
  ak_top_k : rq_top_k r = Some top_k;
  ak_datasets : rq_datasets r = datasets;
  ak_dataset_ids : rq_dataset_ids r = ids;
  ak_user : graph_owner parse_uuid user datasets ids = Ok (rq_user_id r);
  ak_tenant : rq_tenant_id r = options ≫= ro_tenant_id;
  ak_session : rq_session_id r = session;
  ak_prompt : rq_system_prompt r = options ≫= ro_system_prompt;
  ak_prompt_path : rq_system_prompt_path r = options ≫= ro_system_prompt_path;
  ak_node_name : rq_node_name r = options ≫= ro_node_name;
  ak_operator : rq_node_name_filter_operator r = options ≫= ro_node_name_filter_operator;
  ak_wide : rq_wide_search_top_k r = options ≫= ro_wide_search_top_k;
  ak_penalty : rq_triplet_distance_penalty r = options ≫= ro_triplet_distance_penalty;
  ak_influence : rq_feedback_influence r = options ≫= ro_feedback_influence;
  ak_config : rq_retriever_specific_config r = options ≫= ro_retriever_specific_config;
  ak_feedback : rq_auto_feedback_detection r = options ≫= ro_auto_feedback_detection;
  ak_depth : rq_neighborhood_depth r = options ≫= ro_neighborhood_depth;
  ak_seeds : rq_neighborhood_seed_top_k r = options ≫= ro_neighborhood_seed_top_k;
  ak_references : rq_include_references r = match options with Some o => ro_include_references o | None => false end;
  ak_unused : (rq_use_combined_context r, rq_node_type r, rq_verbose r, rq_response_schema r, rq_custom_search_type r)
              = (None, None, None, None, None);
}.

(** A request the deployment can answer: no Cypher where Cypher is not allowed, and without
    an LLM only a search that needs none, or the context of a completion. *)
Definition answerable (constraints : RoutingConstraints) (r : SearchRequest) : Prop :=
  (cypher_allowed constraints = false → rq_search_type r ∉ CYPHER_TYPES)
  ∧ (llm_available constraints = false →
     rq_search_type r ∈ LLM_FREE_TYPES ∨ rq_search_type r ∈ COMPLETION_ONLY_TYPES ∧ rq_only_context r = Some true).

Lemma runnable_answerable constraints d caller r :
  runnable constraints d → answerable constraints (switch_to d caller r).
Proof.
  intros [Hc Hl]. split; simpl; [done|]. intros Hllm. destruct (Hl Hllm) as [?|[? Ho]]; [by left|right].
  split; [done|]. unfold search_only_context. by rewrite Ho.
Qed.

Lemma switched_context constraints d caller r : rd_only_context d = context_only constraints (rd_search_type d) →
  rq_only_context (switch_to d caller r) = if context_only constraints (rq_search_type (switch_to d caller r)) then Some true else caller.
Proof. intros Hd. simpl. unfold search_only_context. by rewrite Hd. Qed.

(** C36: The searches a recall of the graph sends, whatever they answer.  Each asks what the
    recall asks: its query, datasets, user, tenant, [top_k], session and options.  The
    first is of the type the caller chose, or of the router's, or, where nobody routes, of
    the fallback type; a search of the router's is sent at most once more, under the
    fallback type, and only if the first type was not the fallback's and was rejected, or
    was a lexical or rules search and found nothing.  A request is for the context alone
    exactly where no LLM is available for a completion of its type, and otherwise as the
    caller asked; so, unless the caller chose the type, every request is one the
    deployment can answer: no Cypher where it is not allowed, and nothing an LLM must
    answer without one.  The recall answers what the last request did, under its type. *)
Theorem planned_searches {W T} (search : SearchRequest → call W (result SearchError T)) (found_nothing : T → bool)
    constraints parse_uuid is_match query query_type auto_route datasets ids user top_k session options plan (w : W) :
  plan_graph constraints parse_uuid is_match query query_type auto_route datasets ids user = Ok plan →
  let caller := options ≫= ro_only_context in
  let ran := run (search_with_fallback (logging search) found_nothing plan
                    (recall_request plan query datasets ids top_k session options) caller) ([], w) in
  ∃ first more final,
    ran.1.1 = first :: more ∧ last (first :: more) = Some final
    ∧ Forall (λ r, asks parse_uuid query datasets ids user top_k session options r
                   ∧ rq_only_context r = if context_only constraints (rq_search_type r) then Some true else caller) (first :: more)
    ∧ rq_search_type first = planned_type constraints is_match query query_type auto_route
    ∧ (more = [] ∨ query_type = None ∧ auto_route = true ∧ map rq_search_type more = [ROUTER_FALLBACK_TYPE]
                   ∧ rq_search_type first ≠ ROUTER_FALLBACK_TYPE
                   ∧ unanswered found_nothing (rq_search_type first) (search first w).2)
    ∧ (query_type = None → Forall (answerable constraints) (first :: more))
    ∧ ∃ w', ran.2 = result_map (λ found, (found, rq_search_type final)) (search final w').2.
Proof.
  intros Hplan caller ran. set (request := recall_request plan query datasets ids top_k session options) in *.
  destruct (searches_of_plan search found_nothing _ _ _ _ _ _ _ _ _ _ request caller w Hplan)
    as (more & final & Hlog & Hlast & Hmore & w' & Hran).
  apply planned in Hplan as (Howner & _ & Htype & Hcontext & Hdec).
  assert (Hasks : ∀ d, asks parse_uuid query datasets ids user top_k session options (switch_to d caller request)).
  { intros d. by split. }
  assert (Hall : Forall (λ d, rd_only_context d = context_only constraints (rd_search_type d)
                              ∧ (query_type = None → runnable constraints d)) (gp_decision plan :: more)).
  { constructor; [split; [done|intros ->; apply Hdec]|]. destruct Hmore as [->|[-> _]]; [constructor|].
    apply Forall_singleton. split; [apply constrain_context|intros _; apply constrain_runnable]. }
  exists (switch_to (gp_decision plan) caller request), (map (λ d, switch_to d caller request) more), (switch_to final caller request).
  assert (Hsent : switch_to (gp_decision plan) caller request :: map (λ d, switch_to d caller request) more
                  = (λ d, switch_to d caller request) <$> (gp_decision plan :: more)) by done.
  split_and!.
  - exact Hlog.
  - by rewrite Hsent, fmap_last, Hlast.
  - rewrite Hsent. apply Forall_fmap. eapply Forall_impl; [exact Hall|].
    intros d [Hd _]. split; [apply Hasks|by apply switched_context].
  - exact Htype.
  - destruct Hmore as [->|(-> & Hq & Ha & Hne & Hun)]; [by left|right]. split_and!; [done|done| |done|done].
    simpl. by rewrite fallback_type.
  - intros Hq. rewrite Hsent. apply Forall_fmap.
    eapply Forall_impl; [exact Hall|]. intros d [_ Hd]. by apply runnable_answerable, Hd.
  - by exists w'.
Qed.

(** An auto-routed lexical search of one dataset that finds nothing is retried as the
    fallback, in the same dataset and for the context alone. *)
Lemma planned_searches_witness :
  let search (r : SearchRequest) (n : nat) := (1 + n, Ok (bool_decide (rq_search_type r = ChunksLexical))) in
  let constraints := {| llm_available := false; cypher_allowed := false |} in
  let parse (s : string) : result string uuid := if decide (s = "3") then Ok 3%N else Err "" in
  ∃ plan, plan_graph constraints parse (λ rule _, bool_decide (rule = "quoted_phrase")) "x" None true (Some ["notes"]) None (Some "3")
            = Ok plan
  ∧ let ran := run (search_with_fallback (logging search) id plan
                      (recall_request plan "x" (Some ["notes"]) None 5 None None) None) ([], 0) in
    ran.2 = Ok (false, HybridCompletion)
    ∧ map rq_search_type ran.1.1 = [ChunksLexical; HybridCompletion]
    ∧ ∃ first more final, ran.1.1 = first :: more ∧ last (first :: more) = Some final
        ∧ Forall (answerable constraints) (first :: more).
Proof.
  intros search constraints parse. eexists. split; [reflexivity|]. cbv zeta.
  split; [vm_compute; reflexivity|]. split; [vm_compute; reflexivity|].
  edestruct (planned_searches search id constraints parse (λ rule _, bool_decide (rule = "quoted_phrase")) "x" None true
    (Some ["notes"]) None (Some "3") 5 None None) as (first & more & final & Hlog & Hlast & _ & _ & _ & Hall & _); [reflexivity|].
  exists first, more, final. split; [exact Hlog|]. split; [exact Hlast|]. apply Hall. reflexivity.
Defined.

(** ** The sources of a recall *)

Lemma omap_length_le {A B} (f : A → option B) l : length (omap f l) ≤ length l.
Proof.
  induction l as [|a l IH]; [done|]. change (omap f (a :: l)) with (match f a with Some b => b :: omap f l | None => omap f l end).
  destruct (f a); simpl; lia.
Qed.

Section recall.
Context {R X S T evidence : Type} `{SearchRetriever R X} `{UuidFormat} `{Scheduler X} `{CharClasses} `{SerdeJson}.
Context (o : Orchestrator R X S T evidence) (constraints : RoutingConstraints) (graph_warmup : option (Warmup X)).
Context (parse_uuid : string → result string uuid) (is_match : string → string → bool)
  (get_all_qa_entries : string → option string → call X (result string (list SessionQAEntry)))
  (get_agent_trace_session : string → string → call X (result string (list SessionTraceStep)))
  (session_store session_manager : bool) (output_to_json : SearchOutput → json).
Context (query_text : string) (query_type : option SearchType) (datasets : option (list string))
  (dataset_ids : option (list uuid)) (top_k : N) (auto_route : bool) (session_id user_id : option string)
  (options : option RecallOptions).
Notation anything := (λ _, True).

Definition recalled (scope : option (list RecallScope)) :=
  recall o constraints graph_warmup parse_uuid is_match get_all_qa_entries get_agent_trace_session session_store
    session_manager output_to_json query_text query_type datasets dataset_ids top_k auto_route session_id user_id scope options.

(** The sources of a scope, and whether a hit of the session skips the graph.  A scope that
    is absent, empty or says nothing but [auto] is the graph, behind the session if one is
    named; any other is its scopes, each once, where it first occurs. *)
Definition sources_for (scope : option (list RecallScope)) (sources : list RecallScope) (fall : bool) : Prop :=
  let v := default [] scope in
  if decide (Forall (.= ScopeAuto) v)
  then sources = (if session_id then [ScopeSession; ScopeGraph] else [ScopeGraph])
       ∧ fall = wired session_id && negb (has_dataset_filter datasets dataset_ids) && negb (wired query_type)
  else NoDup sources ∧ (∀ s, s ∈ sources ↔ s ∈ v) ∧ StronglySorted (occurs_before v) sources ∧ fall = false.

(** What a source contributes: its own items, a session's at most as many as asked for; the
    graph, as the one source, may contribute a note instead. *)
Definition part_of (only : bool) (src : RecallScope) (part : list RecallItem) : Prop :=
  match src with
  | ScopeAuto => part = []
  | ScopeSession | ScopeTrace =>
      Forall (λ item, as_source src = Some (ri_source item)) part ∧ length part ≤ N.to_nat top_k
  | ScopeGraph =>
      Forall (λ item, ri_source item = SourceGraph) part
      ∨ only = true ∧ ∃ note, part = [note] ∧ ri_source note = SourceSystem
  end.

Lemma ranked_items_part {E} (item : E → nat → RecallItem) src entries q texts :
  (∀ e n, ri_source (item e n) = src) →
  let part := ranked_items item entries (ranked q texts (N.to_nat top_k)) in
  Forall (λ item, ri_source item = src) part ∧ length part ≤ N.to_nat top_k.
Proof.
  intros Hsrc part. split.
  - apply Forall_forall. intros i ((j & n) & _ & Hi)%list_elem_of_omap. simpl in Hi.
    destruct (entries !! j) as [e|]; [|done]. injection Hi as <-. apply Hsrc.
  - unfold part, ranked_items. etransitivity; [apply omap_length_le|]. unfold ranked. rewrite length_take. lia.
Qed.

Lemma session_part :
  wp (λ _ : X, True) (λ r, ∀ part, r = Ok part → part_of false ScopeSession part)
    (search_session get_all_qa_entries query_text session_id user_id (N.to_nat top_k) session_store).
Proof.
  assert (Hnil : ∀ part : list RecallItem, Ok (E := SearchError) [] = Ok part → part_of false ScopeSession part).
  { intros part [= <-]. split; [constructor|simpl; lia]. }
  unfold search_session. destruct session_id as [sid|]; [|exact Hnil]. destruct session_store; [|exact Hnil].
  destruct (decide _); [exact Hnil|]. intros x _. split; [done|]. simpl.
  destruct (get_all_qa_entries sid user_id x).2 as [entries|e]; [|done]. intros part [= <-].
  destruct (ranked_items_part qa_item SourceSession entries (tokenize (utf8_chars query_text))
    (map (λ e, utf8_chars (qa_text e)) entries)) as [Hall Hlen]; [done|]. split; [|done].
  eapply Forall_impl; [exact Hall|]. by intros i ->.
Qed.

Lemma trace_part :
  wp (λ _ : X, True) (λ r, ∀ part, r = Ok part → part_of false ScopeTrace part)
    (search_trace get_agent_trace_session query_text session_id user_id (N.to_nat top_k) session_manager).
Proof.
  assert (Hnil : ∀ part : list RecallItem, Ok (E := SearchError) [] = Ok part → part_of false ScopeTrace part).
  { intros part [= <-]. split; [constructor|simpl; lia]. }
  unfold search_trace. destruct session_id as [sid|]; [|exact Hnil]. destruct user_id as [uid|]; [|exact Hnil].
  destruct (_ && _); [|exact Hnil]. destruct (decide _); [exact Hnil|]. intros x _. split; [done|]. simpl.
  destruct (get_agent_trace_session uid sid x).2 as [entries|e]; [|done]. intros part [= <-].
  destruct (ranked_items_part trace_item SourceTrace entries (tokenize (utf8_chars query_text))
    (map (λ e, utf8_chars (trace_text e)) entries)) as [Hall Hlen]; [done|]. split; [|done].
  eapply Forall_impl; [exact Hall|]. by intros i ->.
Qed.

Lemma graph_items_part output : Forall (λ item, ri_source item = SourceGraph) (graph_items output_to_json output).
Proof.
  assert (Himap : ∀ {A} (f : A → json) l, Forall (λ item, ri_source item = SourceGraph) (imap (λ i a, graph_item i (f a)) l)).
  { intros A f l. apply Forall_forall. intros item (i & Hi)%list_elem_of_lookup. rewrite list_lookup_imap in Hi.
    destruct (l !! i); [|done]. by injection Hi as <-. }
  destruct output; simpl; try apply Himap; by repeat constructor.
Qed.

Lemma warmup_note_source plan :
  wp (λ _ : X, True) (λ r, ∀ note, r = Ok (Some note) → ri_source note = SourceSystem)
    (warmup_note o graph_warmup plan datasets dataset_ids options).
Proof.
  unfold warmup_note. destruct graph_warmup as [warmup|]; [|done]. destruct (_ || _); [done|].
  destruct (gp_owner plan); [|done]. apply wp_bind_ok. eapply wp_mono; [apply wp_True|]. intros [p|e] _; [|done]. simpl.
  destruct (is_warm p); [done|]. intros note [= <-]. unfold warmup_marker. by destruct (decide _).
Qed.

Lemma graph_part only :
  wp (λ _ : search_world X, True) (λ r, ∀ items t auto response, r = Ok (items, t, auto, response) → part_of only ScopeGraph items)
    (recall_graph o constraints graph_warmup parse_uuid is_match output_to_json only query_text query_type datasets
       dataset_ids top_k auto_route session_id user_id options).
Proof.
  unfold recall_graph. destruct (plan_graph _ _ _ _ _ _ _ _ _) as [plan|e]; [|done]. apply wp_bind_ok.
  eapply wp_mono; [apply (wp_zoom (λ _, True) (λ _, True) sw_x); [done..|apply (warmup_note_source plan)]|].
  intros [[note|]|e] Hnote; [| |done].
  - simpl. intros items t auto response [= <- _ _ _]. destruct only; [right|by left]. eauto.
  - unfold run_graph. destruct (_ && _ && _); [intros items t auto response [= <- _ _ _]; by left|].
    apply wp_bind_ok. eapply wp_mono; [apply wp_True|]. intros [[response t]|e] _; [|done].
    intros items t' auto response' [= <- _ _ _]. left. apply graph_items_part.
Qed.

Lemma source_part sources src merged :
  let only := bool_decide (sources = [ScopeGraph]) in
  wp (λ _ : search_world X, True) (λ r, ∀ res, r = Ok res → ∃ part,
       rr_items res = rr_items merged ++ part ∧ part_of only src part
       ∧ (rr_search_type_used res = None ↔ rr_search_type_used merged = None ∧ src ≠ ScopeGraph))
    (recall_source o constraints graph_warmup parse_uuid is_match get_all_qa_entries get_agent_trace_session session_store
       session_manager output_to_json query_text query_type datasets dataset_ids top_k auto_route session_id user_id options
       sources src merged).
Proof.
  intros only. destruct src; simpl.
  - intros res [= <-]. exists []. rewrite app_nil_r. by repeat split; try tauto.
  - apply wp_bind_ok. eapply wp_mono; [apply graph_part|]. intros [[[[items t] auto] response]|e] Hpart; [|done].
    intros res [= <-]. exists items. simpl. split; [done|]. split; [by eapply Hpart|]. naive_solver.
  - apply wp_bind_ok. eapply wp_mono; [apply (wp_zoom (λ _, True) (λ _, True) sw_x); [done..|apply session_part]|].
    intros [part|e] Hpart; [|done]. intros res [= <-]. exists part. simpl. split; [done|]. split; [by apply (Hpart part)|]. naive_solver.
  - apply wp_bind_ok. eapply wp_mono; [apply (wp_zoom (λ _, True) (λ _, True) sw_x); [done..|apply trace_part]|].
    intros [part|e] Hpart; [|done]. intros res [= <-]. exists part. simpl. split; [done|]. split; [by apply (Hpart part)|]. naive_solver.
Qed.

Lemma sources_parts sources fall rest : ∀ merged,
  let only := bool_decide (sources = [ScopeGraph]) in
  wp (λ _ : search_world X, True) (λ r, ∀ res, r = Ok res → ∃ ran skipped parts,
       rest = ran ++ skipped ∧ rr_items res = rr_items merged ++ concat parts ∧ Forall2 (part_of only) ran parts
       ∧ (skipped = [] ∨ fall = true ∧ rr_items res ≠ [] ∧ head skipped = Some ScopeGraph)
       ∧ (rr_search_type_used res = None ↔ rr_search_type_used merged = None ∧ ScopeGraph ∉ ran))
    (recall_from o constraints graph_warmup parse_uuid is_match get_all_qa_entries get_agent_trace_session session_store
       session_manager output_to_json query_text query_type datasets dataset_ids top_k auto_route session_id user_id options
       sources fall rest merged).
Proof.
  induction rest as [|src rest IH]; intros merged only; simpl.
  - intros res [= <-]. exists [], [], []. pose proof (not_elem_of_nil ScopeGraph). simpl.
    split_and!; [done|by rewrite app_nil_r|constructor|by left|tauto].
  - destruct (_ && _ && _) eqn:Hskip.
    + apply andb_true_iff in Hskip as [[Hf Hg%bool_decide_eq_true]%andb_true_iff Hn%negb_true_iff%bool_decide_eq_false].
      intros res [= <-]. exists [], (src :: rest), []. pose proof (not_elem_of_nil ScopeGraph). simpl.
      split_and!; [done|by rewrite app_nil_r|constructor| |tauto].
      right. rewrite Hg. split_and!; [done| |done]. intros Hnil. by rewrite Hnil in Hn.
    + apply wp_bind_ok. eapply wp_mono; [exact (source_part sources src merged)|]. intros [merged'|e] Hsrc; [|done].
      destruct (Hsrc merged' eq_refl) as (part & Hitems & Hpart & Htype).
      eapply wp_mono; [exact (IH merged')|]. intros r Hr res ->. destruct (Hr res eq_refl) as (ran & skipped & parts & -> & Hres & Hall & Hend & Hused).
      exists (src :: ran), skipped, (part :: parts). simpl. rewrite Hres, Hitems, app_assoc. split_and!; [done|done|by constructor| |].
      * rewrite <-Hitems, <-Hres. done.
      * rewrite Hused, Htype, not_elem_of_cons. split; [intros [[? ?] ?]|intros [? [? ?]]]; auto using not_eq_sym.
Qed.

Lemma autos_dedupe v : v ≠ [] → (dedupe_scopes v = [ScopeAuto] ↔ Forall (.= ScopeAuto) v).
Proof.
  intros Hne. destruct (dedupe_from_spec v []) as [Hnd Hin]. fold (dedupe_scopes v) in Hnd, Hin. split.
  - intros Heq. apply Forall_forall. intros s Hs. apply list_elem_of_singleton. rewrite <-Heq. apply Hin.
    split; [done|apply not_elem_of_nil].
  - intros Hall. rewrite Forall_forall in Hall.
    assert (Hauto : ∀ s, s ∈ dedupe_scopes v ↔ s ∈ [ScopeAuto]).
    { intros s. rewrite Hin, list_elem_of_singleton. split; [by intros [? _]; apply Hall|]. intros ->.
      split; [|apply not_elem_of_nil]. destruct v as [|x v]; [done|]. rewrite <-(Hall x) by left. left. }
    apply Permutation_singleton_r. by apply NoDup_Permutation; [|apply NoDup_singleton|].
Qed.

Lemma recall_sources_for scope :
  let '(sources, fall) := recall_sources scope session_id datasets dataset_ids query_type in sources_for scope sources fall.
Proof.
  unfold recall_sources, sources_for. cbv zeta. set (v := default [] scope).
  assert (Hauto : match scope with None | Some [] => [ScopeAuto] | Some v => dedupe_scopes v end = [ScopeAuto]
                  ↔ Forall (.= ScopeAuto) v).
  { destruct scope as [[|s l]|]; simpl in v; [by split; [constructor|]|by apply autos_dedupe|by split; [constructor|]]. }
  destruct (decide (Forall _ v)) as [Hv|Hv]; destruct (decide _) as [Hd|Hd]; [|tauto|tauto|].
  - by destruct session_id.
  - destruct scope as [[|s l]|]; [done| |done]. destruct (dedupe_from_spec (s :: l) []) as [Hnd Hin].
    split_and!; [done| |apply dedupe_from_order|done]. intros x. rewrite Hin. split; [by intros [? _]|].
    intros Hx. split; [done|apply not_elem_of_nil].
Qed.


(** C38: A recall of a session with neither a dataset nor a search type, and with a scope that
    is absent, empty or [auto] alone, asks the session first: its error is the recall's,
    its items are the whole of the recall, which then sends no search at all, and only if
    it has none does the graph answer, as a recall of the graph beside other sources
    does. *)
Theorem recall_session_first scope sid w :
  scope ∈ [None; Some []; Some [ScopeAuto]] → session_id = Some sid → query_type = None →
  has_dataset_filter datasets dataset_ids = false →
  let session := run (search_session get_all_qa_entries query_text session_id user_id (N.to_nat top_k) session_store) (sw_x w) in
  let w1 := {| sw_x := session.1; sw_searched := sw_searched w |} in
  run (recalled scope) w =
    match session.2 with
    | Err e => (w1, Err e)
    | Ok ((_ :: _) as items) =>
        (w1, Ok {| rr_items := items; rr_search_type_used := None; rr_auto_routed := false; rr_search_response := None |})
    | Ok [] =>
        let graph := run (recall_graph o constraints graph_warmup parse_uuid is_match output_to_json false query_text None
                            datasets dataset_ids top_k auto_route session_id user_id options) w1 in
        (graph.1, result_map (λ '(items, used_type, was_auto, response),
           {| rr_items := items; rr_search_type_used := Some used_type; rr_auto_routed := was_auto;
              rr_search_response := Some response |}) graph.2)
    end.
Proof.
  intros Hscope Hsid Hq Hd session w1.
  assert (Hsources : recall_sources scope session_id datasets dataset_ids query_type = ([ScopeSession; ScopeGraph], true)).
  { unfold recall_sources. rewrite Hsid, Hq, Hd. rewrite !elem_of_cons in Hscope.
    destruct Hscope as [->|[->|[->|[]%not_elem_of_nil]]]; reflexivity. }
  unfold recalled, recall. rewrite Hsources. simpl. rewrite run_bind_ok, run_bind_ok, run_lift.
  fold session. fold w1. destruct (session.2) as [[|item items]|e]; simpl; [|done|done].
  rewrite run_bind_ok, run_bind_ok, Hq. 
  by destruct (run _ w1) as [w2 [[[[items t] auto] response]|e]].
Qed.
End recall.

(** ** An example

    A session that has answered the question already. *)

#[local] Instance ex_classes : CharClasses := {|
  is_alphanumeric c := (97 <=? c)%N && (c <=? 122)%N; lower_word w := w |}.

#[local] Instance ex_serde : SerdeJson := binary_serde.
#[local] Existing Instance ex_scheduler.

Definition ex_entry : SessionQAEntry := {|
  qa_question := "who wrote it"; qa_answer := "ada"; qa_context := None; qa_session_id := "s"; qa_created_at := "" |}.

(** The session's answer is the whole of the recall, and no dataset is opened. *)
Lemma recall_session_first_witness :
  let H := ex_retriever in let H0 := decimal_format in
  let entries (_ : string) (_ : option string) (x : list string) := (x ++ ["session"], Ok [ex_entry]) in
  let steps (_ _ : string) (x : list string) := (x, Ok []) in
  let ran := run (recalled ex_orchestrator {| llm_available := false; cypher_allowed := false |} None (λ _, Err "") (λ _ _, false)
                    entries steps true false (λ _, JNull) "who" None None None 3%N true (Some "s") None None None) ex_world in
  sw_searched ran.1 = [] ∧ sw_x ran.1 = ["session"]
  ∧ ran.2 = Ok {| rr_items := [qa_item ex_entry 1]; rr_search_type_used := None; rr_auto_routed := false;
                  rr_search_response := None |}.
Proof.
  intros H H0 entries steps ran. unfold ran.
  rewrite (recall_session_first ex_orchestrator {| llm_available := false; cypher_allowed := false |} None (λ _, Err "")
    (λ _ _, false) entries steps true false (λ _, JNull) "who" None None None 3%N true (Some "s") None None None "s" ex_world).
  - split; [|split]; vm_compute; reflexivity.
  - left.
  - reflexivity.
  - reflexivity.
  - reflexivity.
Defined.
