(* ===== verification/DatasetLocks.v ===== *)
(** * Per-dataset locks (crates/core/src/dataset_locks.rs)

    The keyed registry of weak mutexes, and the tasks that take its locks through
    [hold], [lock] and [try_lock] inside arbitrary work.  A task proceeds by
    atomic steps: the code between two [await]s, or a call to [lock_arc], which
    runs under the registry's own mutex. *)

From stdpp Require Import sorting.
From S2P Require Import Prelude.

Definition PRUNE_THRESHOLD : nat := 64.

(** ** The registry

    [locks] are the weak entries: the address of the mutex each id was last given.
    An address is used once; its mutex is alive while somebody holds an [Arc] of
    it. *)
Record DatasetLocks := { locks : gmap uuid nat; next_lock : nat }.

(** [DatasetLocks::new] *)
Definition DatasetLocks_new : DatasetLocks := {| locks := ∅; next_lock := 0 |}.

(** [lock_arc]; [live] are the mutexes with a strong count above 0. *)
Definition lock_arc (live : gset nat) (dataset_id : uuid) (r : DatasetLocks) : DatasetLocks * nat :=
  let existing := a ← locks r !! dataset_id; if decide (a ∈ live) then Some a else None in
  match existing with
  | Some a => (r, a)
  | None =>
      let kept := if decide (PRUNE_THRESHOLD ≤ size (locks r))
                  then filter (λ p, p.2 ∈ live) (locks r) else locks r in
      ({| locks := <[dataset_id := next_lock r]> kept; next_lock := S (next_lock r) |}, next_lock r)
  end.

(** ** Tasks *)

(** What a task does, as far as locks are concerned.  [Hold] is
    [hold(ids, body).await], [Lock] a guard of [lock(id).await] kept for [body],
    [TryLock] [if let Some(guard) = try_lock(id) { body }], [Await] anything else
    it awaits. *)
Inductive prog :=
  | Done
  | Await (k : prog)
  | Hold (ids : list uuid) (body k : prog)
  | Lock (id : uuid) (body k : prog)
  | TryLock (id : uuid) (body k : prog).

(** A guard: the id it was taken for and the mutex it keeps alive and locked. *)
Definition guard : Type := uuid * nat.

(** A scope the task is in: the ids it covers, the guards it took (none when it is
    re-entrant), the task-local [HELD] outside it and what follows it. *)
Record frame := {
  fr_ids : list uuid;
  fr_guards : list guard;
  fr_held : gset uuid;
  fr_k : prog;
}.

(** Where a task is: running, taking the locks of a scope ([wait] is the mutex it
    awaits, if it has got that far), or dropping guards. *)
Inductive control :=
  | Run (p : prog)
  | Acquire (marks : bool) (ids todo : list uuid) (got : list guard) (wait : option nat) (body k : prog)
  | Release (guards : list guard) (k : prog).

(** [tk_held] is the task-local [HELD] (of this registry). *)
Record task := { tk_held : gset uuid; tk_stack : list frame; tk_ctl : control }.

Record state := {
  st_registry : DatasetLocks;
  st_owner : gmap nat nat;
  st_tasks : gmap nat task;
}.

Definition stack_guards (s : list frame) : list guard := concat (map fr_guards s).

Definition ctl_guards (c : control) : list guard :=
  match c with Run _ => [] | Acquire _ _ _ got _ _ _ => got | Release gs _ => gs end.

Definition task_guards (t : task) : list guard := ctl_guards (tk_ctl t) ++ stack_guards (tk_stack t).

Definition waiting (t : task) : option guard :=
  match tk_ctl t with Acquire _ _ (id :: _) _ (Some a) _ _ => Some (id, a) | _ => None end.

Definition task_refs (t : task) : list guard := option_list (waiting t) ++ task_guards t.

(** The mutexes somebody has an [Arc] of. *)
Definition live (st : state) : gset nat :=
  list_to_set (concat (map (λ p, (task_refs p.2).*2) (map_to_list (st_tasks st)))).

(** ** Steps *)

(** [Vec::dedup] *)
Fixpoint dedup (l : list uuid) : list uuid :=
  match l with
  | x :: (y :: _) as l' => if decide (x = y) then dedup l' else x :: dedup l'
  | _ => l
  end.

(** The ids [hold] has to take: those not held yet, sorted, once each. *)
Definition to_take (held : gset uuid) (ids : list uuid) : list uuid :=
  dedup (merge_sort N.le (filter (λ id, id ∉ held) ids)).

Definition set_task (tid : nat) (t : task) (st : state) : state :=
  {| st_registry := st_registry st; st_owner := st_owner st; st_tasks := <[tid := t]> (st_tasks st) |}.
Definition set_registry (r : DatasetLocks) (st : state) : state :=
  {| st_registry := r; st_owner := st_owner st; st_tasks := st_tasks st |}.
Definition set_owner (owner : gmap nat nat) (st : state) : state :=
  {| st_registry := st_registry st; st_owner := owner; st_tasks := st_tasks st |}.

Definition at_ctl (c : control) (t : task) : task :=
  {| tk_held := tk_held t; tk_stack := tk_stack t; tk_ctl := c |}.

(** Entering a scope, with the guards it took; [marks] adds them to [HELD]. *)
Definition enter (marks : bool) (ids : list uuid) (guards : list guard) (body k : prog) (t : task) : task := {|
  tk_held := if marks then tk_held t ∪ list_to_set guards.*1 else tk_held t;
  tk_stack := {| fr_ids := ids; fr_guards := guards; fr_held := tk_held t; fr_k := k |} :: tk_stack t;
  tk_ctl := Run body;
|}.

(** Leaving the innermost scope: [HELD] is restored and the guards are dropped. *)
Definition leave (f : frame) (s : list frame) : task :=
  {| tk_held := fr_held f; tk_stack := s; tk_ctl := Release (fr_guards f) (fr_k f) |}.

(** One step of a task; [None] when it has to wait or has finished. *)
Definition task_step (tid : nat) (st : state) : option state :=
  t ← st_tasks st !! tid;
  match tk_ctl t with
  | Run Done =>
      match tk_stack t with
      | [] => None
      | f :: s => Some (set_task tid (leave f s) st)
      end
  | Run (Await k) => Some (set_task tid (at_ctl (Run k) t) st)
  | Run (Hold ids body k) =>
      match to_take (tk_held t) ids with
      | [] => Some (set_task tid (enter true ids [] body k t) st)
      | todo => Some (set_task tid (at_ctl (Acquire true ids todo [] None body k) t) st)
      end
  | Run (Lock id body k) =>
      if decide (id ∈ tk_held t) then Some (set_task tid (enter false [id] [] body k t) st)
      else Some (set_task tid (at_ctl (Acquire false [id] [id] [] None body k) t) st)
  | Run (TryLock id body k) =>
      if decide (id ∈ tk_held t) then Some (set_task tid (enter false [id] [] body k t) st)
      else
        let '(r, a) := lock_arc (live st) id (st_registry st) in
        match st_owner st !! a with
        | None =>
            Some (set_task tid (enter false [id] [(id, a)] body k t)
                    (set_owner (<[a := tid]> (st_owner st)) (set_registry r st)))
        | Some _ => Some (set_task tid (at_ctl (Run k) t) (set_registry r st))
        end
  | Acquire marks ids [] got _ body k => Some (set_task tid (enter marks ids got body k t) st)
  | Acquire marks ids (id :: todo) got None body k =>
      let '(r, a) := lock_arc (live st) id (st_registry st) in
      Some (set_task tid (at_ctl (Acquire marks ids (id :: todo) got (Some a) body k) t) (set_registry r st))
  | Acquire marks ids (id :: todo) got (Some a) body k =>
      match st_owner st !! a with
      | None =>
          Some (set_task tid (at_ctl (Acquire marks ids todo (got ++ [(id, a)]) None body k) t)
                  (set_owner (<[a := tid]> (st_owner st)) st))
      | Some _ => None
      end
  | Release [] k => Some (set_task tid (at_ctl (Run k) t) st)
  | Release ((_, a) :: gs) k =>
      Some (set_task tid (at_ctl (Release gs k) t) (set_owner (delete a (st_owner st)) st))
  end.

Definition finished (t : task) : Prop := tk_ctl t = Run Done ∧ tk_stack t = [].

(** A task whose future is dropped only drops its guards. *)
Definition dropping (t : task) : Prop :=
  match tk_ctl t with Run Done | Release _ Done => tk_stack t = [] | _ => False end.

Definition cancelled (t : task) : task :=
  {| tk_held := ∅; tk_stack := []; tk_ctl := Release (task_guards t) Done |}.

Inductive step (st : state) : state → Prop :=
  | step_task tid st' : task_step tid st = Some st' → step st st'
  | step_cancel tid t : st_tasks st !! tid = Some t → ¬ dropping t →
      step st (set_task tid (cancelled t) st).

(** Tasks are spawned with nothing held: a spawned task does not inherit [HELD]. *)
Definition spawned (p : prog) : task := {| tk_held := ∅; tk_stack := []; tk_ctl := Run p |}.

Definition init (progs : list prog) : state := {|
  st_registry := DatasetLocks_new; st_owner := ∅; st_tasks := map_seq 0 (map spawned progs) |}.

(** ** The tasks' own view *)

(** A task is inside a scope for [id], re-entrant or not. *)
Definition inside (t : task) (id : uuid) : Prop := Exists (λ f, id ∈ fr_ids f) (tk_stack t).

(** The discipline the registry is made for: a lock that has to be waited for is
    taken by a task that owns none.  [owns] says whether it owns one, [held] is its
    [HELD]. *)
Fixpoint disciplined (owns : bool) (held : gset uuid) (p : prog) : Prop :=
  match p with
  | Done => True
  | Await k => disciplined owns held k
  | Hold ids body k =>
      (if decide (Forall (λ id, id ∈ held) ids) then disciplined owns held body
       else owns = false ∧ disciplined true (held ∪ list_to_set ids) body)
      ∧ disciplined owns held k
  | Lock id body k =>
      (if decide (id ∈ held) then disciplined owns held body
       else owns = false ∧ disciplined true held body)
      ∧ disciplined owns held k
  | TryLock id body k =>
      disciplined (if decide (id ∈ held) then owns else true) held body ∧ disciplined owns held k
  end.
