(* ===== verification/DatasetLocksFacts.v ===== *)
(** * Properties of the dataset locks

    Mutual exclusion (re-entrant scopes included), the bound on the map of weak
    entries, and, for tasks that follow the registry's discipline, absence of
    deadlock and termination. *)

From stdpp Require Import sorting.
From S2P Require Import Prelude DatasetLocks.

(** ** The ids to take *)

Lemma dedup_cons x y l :
  dedup (x :: y :: l) = if decide (x = y) then dedup (y :: l) else x :: dedup (y :: l).
Proof. done. Qed.

Lemma dedup_elem l x : x ∈ dedup l ↔ x ∈ l.
Proof.
  induction l as [|y [|z l] IH]; [done..|]. rewrite dedup_cons. case_decide as E.
  - subst. rewrite IH, !elem_of_cons. tauto.
  - rewrite elem_of_cons, IH, !elem_of_cons. tauto.
Qed.

Lemma dedup_sorted l : StronglySorted N.le l → StronglySorted N.lt (dedup l).
Proof.
  induction l as [|y [|z l] IH]; intros Hs; [constructor|by repeat constructor|].
  inversion Hs as [|?? Hzl Hy]; subst. rewrite dedup_cons. case_decide as E; [by apply IH|].
  constructor; [by apply IH|]. apply Forall_forall. intros x Hx. rewrite dedup_elem in Hx.
  inversion Hzl as [|?? _ Hz]; subst. inversion Hy as [|?? Hyz Hyl]; subst.
  apply elem_of_cons in Hx as [->|Hx]; [lia|].
  rewrite Forall_forall in Hz. specialize (Hz x Hx). lia.
Qed.

Lemma to_take_elem held ids x : x ∈ to_take held ids ↔ x ∉ held ∧ x ∈ ids.
Proof.
  unfold to_take. rewrite dedup_elem, merge_sort_Permutation, list_elem_of_filter. done.
Qed.

Lemma to_take_sorted held ids : StronglySorted N.lt (to_take held ids).
Proof. apply dedup_sorted, StronglySorted_merge_sort; [apply _|]. intros x y. lia. Qed.

(** ** The registry *)

(** Entries point to distinct mutexes that have been created. *)
Record registry_ok (r : DatasetLocks) : Prop := {
  rk_fresh : ∀ id a, locks r !! id = Some a → a < next_lock r;
  rk_inj : ∀ id1 id2 a, locks r !! id1 = Some a → locks r !! id2 = Some a → id1 = id2;
}.

(** [lock_arc] without the plumbing: the live entry, or a new one in a map that
    keeps every live entry. *)
Lemma lock_arc_cases L id r :
  (∃ a, locks r !! id = Some a ∧ a ∈ L ∧ lock_arc L id r = (r, a))
  ∨ ∃ kept, lock_arc L id r =
        ({| locks := <[id := next_lock r]> kept; next_lock := S (next_lock r) |}, next_lock r)
      ∧ kept ⊆ locks r
      ∧ (∀ id' a, locks r !! id' = Some a → a ∈ L → kept !! id' = Some a ∧ id' ≠ id)
      ∧ (size kept < PRUNE_THRESHOLD ∨ map_Forall (λ _ a, a ∈ L) kept).
Proof.
  unfold lock_arc.
  assert (Hnew : (∀ a, locks r !! id = Some a → a ∉ L) →
    let kept := if decide (PRUNE_THRESHOLD ≤ size (locks r))
                then filter (λ p, p.2 ∈ L) (locks r) else locks r in
    kept ⊆ locks r
    ∧ (∀ id' a, locks r !! id' = Some a → a ∈ L → kept !! id' = Some a ∧ id' ≠ id)
    ∧ (size kept < PRUNE_THRESHOLD ∨ map_Forall (λ _ a, a ∈ L) kept)).
  { intros Hdead kept. unfold kept. case_decide as Hsz.
    - split; [apply map_filter_subseteq|]. split; [|right].
      + intros id' a Ha Hl. split; [by apply map_lookup_filter_Some|]. intros ->. by apply (Hdead a).
      + intros k a [_ Ha]%map_lookup_filter_Some. done.
    - split; [done|]. split; [|left; lia]. intros id' a Ha Hl. split; [done|].
      intros ->. by apply (Hdead a). }
  destruct (locks r !! id) as [a0|] eqn:Ha0; simpl.
  - destruct (decide (a0 ∈ L)) as [Hl0|Hl0]; [left; eauto|right].
    eexists. split; [done|]. apply Hnew. by intros a [= <-].
  - right. eexists. split; [done|]. by apply Hnew.
Qed.

Lemma lock_arc_spec L id r r' a :
  registry_ok r → lock_arc L id r = (r', a) →
  registry_ok r' ∧ next_lock r ≤ next_lock r' ∧ locks r' !! id = Some a ∧ (a ∈ L ∨ a = next_lock r)
  ∧ (∀ id' a', locks r !! id' = Some a' → a' ∈ L → locks r' !! id' = Some a').
Proof.
  intros [Hf Hi] Hl. destruct (lock_arc_cases L id r) as [(a0 & Ha0 & Hl0 & Heq)|(kept & Heq & Hsub & Hkeep & _)];
    rewrite Hl in Heq; simplify_eq/=.
  - split; [by split|]. by auto.
  - split_and!; [|lia|by rewrite lookup_insert_eq|by right|].
    + assert (Hk : ∀ id' a', kept !! id' = Some a' → locks r !! id' = Some a')
        by (intros; by eapply lookup_weaken).
      split; simpl.
      * intros id' a' [[<- <-]|[_ Ha']]%lookup_insert_Some; [lia|].
        apply Hk, Hf in Ha'. lia.
      * intros id1 id2 a' [[<- <-]|[Hn1 H1]]%lookup_insert_Some [[<- E]|[Hn2 H2]]%lookup_insert_Some; [done| | |].
        -- apply Hk, Hf in H2. lia.
        -- apply Hk, Hf in H1. lia.
        -- by eapply Hi; apply Hk.
    + intros id' a' Ha' Hl'. destruct (Hkeep id' a' Ha' Hl') as [Hk Hne].
      by rewrite lookup_insert_ne.
Qed.

(** ** The invariant *)

(** Ids the guards of some scopes lock. *)
Definition guard_ids (gs : list guard) : list uuid := gs.*1.

(** Every id a scope covers, and every id of [HELD], is locked by a guard of that
    scope or of one around it. *)
Fixpoint stack_ok (s : list frame) (held : gset uuid) : Prop :=
  (∀ id, id ∈ held → id ∈ (stack_guards s).*1)
  ∧ match s with
    | [] => True
    | f :: s' => Forall (λ id, id ∈ (stack_guards s).*1) (fr_ids f) ∧ stack_ok s' (fr_held f)
    end.

Record task_ok (r : DatasetLocks) (owner : gmap nat nat) (tid : nat) (t : task) : Prop := {
  to_guards : Forall (λ g, locks r !! g.1 = Some g.2 ∧ owner !! g.2 = Some tid) (task_guards t);
  to_wait : ∀ g, waiting t = Some g → locks r !! g.1 = Some g.2;
  to_nodup : NoDup (task_guards t).*2;
  to_stack : stack_ok (tk_stack t) (tk_held t);
  to_ids : match tk_ctl t with
           | Acquire _ ids todo got _ _ _ =>
               Forall (λ id, id ∈ tk_held t ∨ id ∈ got.*1 ∨ id ∈ todo) ids
           | _ => True
           end;
}.

Record state_ok (st : state) : Prop := {
  so_registry : registry_ok (st_registry st);
  so_tasks : map_Forall (task_ok (st_registry st) (st_owner st)) (st_tasks st);
  so_owner : ∀ a tid, st_owner st !! a = Some tid →
    a < next_lock (st_registry st)
    ∧ ∃ t, st_tasks st !! tid = Some t ∧ a ∈ (task_guards t).*2;
}.

Lemma live_ref st tid t g : st_tasks st !! tid = Some t → g ∈ task_refs t → g.2 ∈ live st.
Proof.
  intros Ht Hg. unfold live. apply elem_of_list_to_set, list_elem_of_In, in_concat.
  exists (task_refs t).*2. split; [|by apply list_elem_of_In, list_elem_of_fmap; eauto].
  apply in_map_iff. exists (tid, t). split; [done|].
  by apply list_elem_of_In, elem_of_map_to_list.
Qed.

(** One task changes, and with it the registry and the owners, in such a way that
    the other tasks' references and mutexes stay as they are. *)
Lemma state_ok_update st tid t t' r' owner' :
  state_ok st → st_tasks st !! tid = Some t →
  registry_ok r' → next_lock (st_registry st) ≤ next_lock r' →
  (∀ id a, locks (st_registry st) !! id = Some a → a ∈ live st → locks r' !! id = Some a) →
  (∀ a tid', tid' ≠ tid → st_owner st !! a = Some tid' → owner' !! a = Some tid') →
  (∀ a tid', owner' !! a = Some tid' →
     (tid' = tid ∧ a ∈ (task_guards t').*2 ∧ a < next_lock r') ∨ (tid' ≠ tid ∧ st_owner st !! a = Some tid')) →
  task_ok r' owner' tid t' →
  state_ok {| st_registry := r'; st_owner := owner'; st_tasks := <[tid := t']> (st_tasks st) |}.
Proof.
  intros [Hr Htasks Howner] Ht Hr' Hnext Hlocks Hown Hown' Ht'. split; simpl; [done| |].
  - intros k tk [[<- <-]|[Hne Hk]]%lookup_insert_Some; [done|].
    destruct (Htasks k tk Hk) as [Hg Hw Hn Hs Hi]. split; try done.
    + apply Forall_forall. intros g Hgin. rewrite Forall_forall in Hg.
      destruct (Hg g Hgin) as [Hl Ho]. split; [|by apply Hown].
      apply Hlocks; [done|]. eapply live_ref; [exact Hk|]. unfold task_refs. apply elem_of_app. by right.
    + intros g Hgw. apply Hlocks; [by apply Hw|]. eapply live_ref; [exact Hk|].
      unfold task_refs. rewrite Hgw. simpl. by left.
  - intros a k Ha. destruct (Hown' a k Ha) as [(-> & Hin & Hlt)|[Hne Ho]].
    + split; [done|]. exists t'. by rewrite lookup_insert_eq.
    + destruct (Howner a k Ho) as (Hlt & tk & Hk & Hin). split; [lia|]. exists tk.
      by rewrite lookup_insert_ne.
Qed.

(** The owners and the guards of the task stay the same; the registry may change. *)
Lemma state_ok_registry st tid t t' r' :
  state_ok st → st_tasks st !! tid = Some t →
  registry_ok r' → next_lock (st_registry st) ≤ next_lock r' →
  (∀ id a, locks (st_registry st) !! id = Some a → a ∈ live st → locks r' !! id = Some a) →
  task_guards t' ≡ₚ task_guards t → (∀ g, waiting t' = Some g → locks r' !! g.1 = Some g.2) →
  stack_ok (tk_stack t') (tk_held t') →
  match tk_ctl t' with
  | Acquire _ ids todo got _ _ _ => Forall (λ id, id ∈ tk_held t' ∨ id ∈ got.*1 ∨ id ∈ todo) ids
  | _ => True
  end →
  state_ok (set_task tid t' (set_registry r' st)).
Proof.
  intros Hst Ht Hr' Hnext Hkeep Hg Hw Hs Hi. pose proof (so_tasks _ Hst tid t Ht) as [Hg0 _ Hn0 _ _].
  change (state_ok {| st_registry := r'; st_owner := st_owner st; st_tasks := <[tid := t']> (st_tasks st) |}).
  apply (state_ok_update st tid t); try done.
  - intros a tid' Ha. destruct (decide (tid' = tid)) as [->|]; [left|by right].
    destruct (so_owner _ Hst a tid Ha) as (Hlt & t0 & Ht0 & Hin). simplify_eq.
    rewrite Hg. split; [done|]. split; [done|lia].
  - split; try done; [|by rewrite Hg]. rewrite Hg. apply Forall_forall. intros g Hgin.
    rewrite Forall_forall in Hg0. destruct (Hg0 g Hgin) as [Hl Ho]. split; [|done].
    apply Hkeep; [done|]. eapply live_ref; [exact Ht|]. unfold task_refs. apply elem_of_app. by right.
Qed.

(** The common case: only the task changes. *)
Lemma state_ok_local st tid t t' :
  state_ok st → st_tasks st !! tid = Some t → task_guards t' ≡ₚ task_guards t → waiting t' = None →
  stack_ok (tk_stack t') (tk_held t') →
  match tk_ctl t' with
  | Acquire _ ids todo got _ _ _ => Forall (λ id, id ∈ tk_held t' ∨ id ∈ got.*1 ∨ id ∈ todo) ids
  | _ => True
  end →
  state_ok (set_task tid t' st).
Proof.
  intros Hst Ht Hg Hw Hs Hi.
  change (state_ok (set_task tid t' (set_registry (st_registry st) st))).
  apply (state_ok_registry st tid t); try done; [apply Hst|]. intros g Hg'. congruence.
Qed.

(** ** Every step keeps it *)

Lemma enter_stack_ok marks ids gs body k t :
  stack_ok (tk_stack t) (tk_held t) → Forall (λ id, id ∈ tk_held t ∨ id ∈ gs.*1) ids →
  let t' := enter marks ids gs body k t in stack_ok (tk_stack t') (tk_held t').
Proof.
  intros Hs Hids. assert (Hheld : ∀ id, id ∈ tk_held t → id ∈ (stack_guards (tk_stack t)).*1).
  { destruct (tk_stack t); apply Hs. }
  assert (Hall : ∀ id, id ∈ tk_held t ∨ id ∈ gs.*1 → id ∈ (gs ++ stack_guards (tk_stack t)).*1).
  { intros id Hid. rewrite fmap_app. apply elem_of_app. destruct Hid as [Hid|Hid]; [right|left]; auto. }
  simpl. unfold stack_guards in *. simpl. split; [|split; [|done]].
  - intros id Hid. apply Hall. destruct marks; [|by left].
    apply elem_of_union in Hid as [Hid|Hid%elem_of_list_to_set]; auto.
  - eapply Forall_impl; [exact Hids|]. exact Hall.
Qed.

Lemma state_ok_enter st tid t marks ids gs body k :
  state_ok st → st_tasks st !! tid = Some t → ctl_guards (tk_ctl t) = gs →
  Forall (λ id, id ∈ tk_held t ∨ id ∈ gs.*1) ids →
  state_ok (set_task tid (enter marks ids gs body k t) st).
Proof.
  intros Hst Ht Hg Hids. apply (state_ok_local st tid t); try done.
  - unfold task_guards. simpl. by rewrite Hg.
  - apply enter_stack_ok; [apply (so_tasks _ Hst tid t Ht)|done].
Qed.

(** Taking a free mutex. *)
Lemma state_ok_take st tid t t' r' id a :
  state_ok st → st_tasks st !! tid = Some t →
  registry_ok r' → next_lock (st_registry st) ≤ next_lock r' →
  (∀ id a, locks (st_registry st) !! id = Some a → a ∈ live st → locks r' !! id = Some a) →
  locks r' !! id = Some a → st_owner st !! a = None →
  task_guards t' ≡ₚ (id, a) :: task_guards t → waiting t' = None →
  stack_ok (tk_stack t') (tk_held t') →
  match tk_ctl t' with
  | Acquire _ ids todo got _ _ _ => Forall (λ id, id ∈ tk_held t' ∨ id ∈ got.*1 ∨ id ∈ todo) ids
  | _ => True
  end →
  state_ok {| st_registry := r'; st_owner := <[a := tid]> (st_owner st); st_tasks := <[tid := t']> (st_tasks st) |}.
Proof.
  intros Hst Ht Hr' Hnext Hlocks Ha Hfree Hg Hw Hs Hi.
  pose proof (so_tasks _ Hst tid t Ht) as [Hg0 _ Hn0 _ _]. rewrite Forall_forall in Hg0.
  apply (state_ok_update st tid t); try done.
  - intros a0 tid' Hne Ho. rewrite lookup_insert_ne; [done|]. congruence.
  - intros a0 tid' [[<- <-]|[Hne Ho]]%lookup_insert_Some.
    + left. rewrite Hg. split; [done|]. split; [by left|]. by eapply (rk_fresh _ Hr').
    + destruct (decide (tid' = tid)) as [->|]; [left|by right].
      destruct (so_owner _ Hst a0 tid Ho) as (Hlt & t0 & Ht0 & Hin). simplify_eq.
      rewrite Hg. split; [done|]. split; [by right|lia].
  - split; try done.
    + rewrite Hg. constructor; [by rewrite lookup_insert_eq|]. apply Forall_forall. intros g Hgin.
      destruct (Hg0 g Hgin) as [Hl Ho]. rewrite lookup_insert_ne by congruence. split; [|done].
      apply Hlocks; [done|]. eapply live_ref; [exact Ht|]. unfold task_refs. apply elem_of_app. by right.
    + intros g Hgw. congruence.
    + rewrite Hg. simpl. constructor; [|done]. intros (g & -> & Hgin)%list_elem_of_fmap.
      destruct (Hg0 g Hgin) as [_ Ho]. congruence.
Qed.

Lemma state_ok_release st tid t a id gs k :
  state_ok st → st_tasks st !! tid = Some t → tk_ctl t = Release ((id, a) :: gs) k →
  state_ok (set_task tid (at_ctl (Release gs k) t) (set_owner (delete a (st_owner st)) st)).
Proof.
  intros Hst Ht Hc. pose proof (so_tasks _ Hst tid t Ht) as [Hg0 _ Hn0 Hs0 _].
  assert (Hg : task_guards t = (id, a) :: task_guards (at_ctl (Release gs k) t)).
  { unfold task_guards. by rewrite Hc. }
  rewrite Hg in Hg0, Hn0. inversion Hg0 as [|?? [_ Ha] Hg1]; subst. simpl in Ha, Hn0.
  inversion Hn0 as [|?? Hna Hn1]; subst.
  change (state_ok {| st_registry := st_registry st; st_owner := delete a (st_owner st);
                      st_tasks := <[tid := at_ctl (Release gs k) t]> (st_tasks st) |}).
  apply (state_ok_update st tid t); try done; [apply Hst| | |].
  - intros a0 tid' Hne Ho. rewrite lookup_delete_ne; [done|]. congruence.
  - intros a0 tid' [Hne Ho]%lookup_delete_Some.
    destruct (decide (tid' = tid)) as [->|]; [left|by right].
    destruct (so_owner _ Hst a0 tid Ho) as (Hlt & t0 & Ht0 & Hin). simplify_eq.
    rewrite Hg in Hin. simpl in Hin. apply elem_of_cons in Hin as [->|Hin]; done.
  - split; try done. apply Forall_forall. intros g Hgin. rewrite Forall_forall in Hg1.
    destruct (Hg1 g Hgin) as [Hl Ho]. split; [done|]. rewrite lookup_delete_ne; [done|].
    intros E. apply Hna, list_elem_of_fmap. by exists g.
Qed.

Lemma task_step_ok tid st st' : state_ok st → task_step tid st = Some st' → state_ok st'.
Proof.
  intros Hst Hstep. unfold task_step in Hstep.
  destruct (st_tasks st !! tid) as [t|] eqn:Ht; [|done]. simpl in Hstep.
  pose proof (so_tasks _ Hst tid t Ht) as [_ _ _ Hs Hi].
  destruct (tk_ctl t) as [[|k|ids body k|id body k|id body k]|marks ids [|id todo] got [a|] body k|[|[id a] gs] k] eqn:Hc.
  - destruct (tk_stack t) as [|f s] eqn:Hst'; simplify_eq.
    apply (state_ok_local st tid t); try done; [|by apply Hs].
    unfold task_guards. by rewrite Hc, Hst'.
  - simplify_eq. apply (state_ok_local st tid t); try done. unfold task_guards. by rewrite Hc.
  - assert (Hids : Forall (λ id, id ∈ tk_held t ∨ id ∈ (@nil guard).*1 ∨ id ∈ to_take (tk_held t) ids) ids).
    { apply Forall_forall. intros id Hid. destruct (decide (id ∈ tk_held t)); [by left|].
      right; right. by apply to_take_elem. }
    destruct (to_take (tk_held t) ids) as [|id todo]; simplify_eq.
    + apply state_ok_enter; try done; [by rewrite Hc|]. eapply Forall_impl; [exact Hids|].
      intros id. simpl. rewrite elem_of_nil. tauto.
    + apply (state_ok_local st tid t); try done. unfold task_guards. by rewrite Hc.
  - case_decide as Hh; simplify_eq.
    + apply state_ok_enter; try done; [by rewrite Hc|]. constructor; [by left|done].
    + apply (state_ok_local st tid t); try done; [unfold task_guards; by rewrite Hc|].
      simpl. constructor; [|done]. right; right. by left.
  - case_decide as Hh; simplify_eq.
    { apply state_ok_enter; try done; [by rewrite Hc|]. constructor; [by left|done]. }
    destruct (lock_arc _ _ _) as [r a] eqn:Hl.
    destruct (lock_arc_spec _ _ _ _ _ (so_registry _ Hst) Hl) as (Hr & Hnext & Ha & _ & Hkeep).
    destruct (st_owner st !! a) as [o|] eqn:Ho; simplify_eq.
    + apply (state_ok_registry st tid t); try done. unfold task_guards. by rewrite Hc.
    + apply (state_ok_take st tid t _ r id a); try done; [unfold task_guards; by rewrite Hc|].
      apply enter_stack_ok; [done|]. constructor; [|done]. right. by left.
  - simplify_eq. apply state_ok_enter; try done; [by rewrite Hc|]. eapply Forall_impl; [exact Hi|].
    intros id. simpl. rewrite elem_of_nil. tauto.
  - simplify_eq. apply state_ok_enter; try done; [by rewrite Hc|]. eapply Forall_impl; [exact Hi|].
    intros id. simpl. rewrite elem_of_nil. tauto.
  - destruct (st_owner st !! a) as [o|] eqn:Ho; simplify_eq.
    pose proof (to_wait _ _ _ _ (so_tasks _ Hst tid t Ht) (id, a)) as Hw.
    unfold waiting in Hw. rewrite Hc in Hw.
    apply (state_ok_take st tid t _ (st_registry st) id a); try done; [apply Hst|by apply Hw|..].
    + unfold task_guards. cbn [tk_ctl at_ctl ctl_guards tk_stack]. rewrite Hc. cbn [ctl_guards].
      rewrite <-app_assoc. symmetry. apply Permutation_middle.
    + by destruct todo.
    + simpl. eapply Forall_impl; [exact Hi|]. intros id'. simpl.
      rewrite fmap_app, elem_of_app, elem_of_cons. simpl. rewrite elem_of_cons. tauto.
  - destruct (lock_arc _ _ _) as [r a] eqn:Hl. simplify_eq.
    destruct (lock_arc_spec _ _ _ _ _ (so_registry _ Hst) Hl) as (Hr & Hnext & Ha & _ & Hkeep).
    apply (state_ok_registry st tid t); try done; [unfold task_guards; by rewrite Hc|].
    simpl. by intros g [= <-].
  - simplify_eq. apply (state_ok_local st tid t); try done. unfold task_guards. by rewrite Hc.
  - simplify_eq. by apply (state_ok_release st tid t a id gs k).
Qed.

Lemma cancel_ok st tid t :
  state_ok st → st_tasks st !! tid = Some t → state_ok (set_task tid (cancelled t) st).
Proof.
  intros Hst Ht. apply (state_ok_local st tid t); try done.
  unfold task_guards at 1. simpl. by rewrite app_nil_r.
Qed.

Lemma step_ok st st' : state_ok st → step st st' → state_ok st'.
Proof.
  intros Hst [tid st1 Hstep|tid t Ht _]; [by eapply task_step_ok|by apply cancel_ok].
Qed.

Lemma init_ok progs : state_ok (init progs).
Proof.
  split; simpl; [by split| |done].
  intros tid t Ht. apply lookup_map_seq_Some in Ht as [_ Ht]. apply list_lookup_fmap_Some in Ht as (p & -> & _).
  split; simpl; try done; constructor.
Qed.

Lemma reachable_ok progs st : rtc step (init progs) st → state_ok st.
Proof.
  intros H. remember (init progs) as st0 eqn:E. assert (Hok : state_ok st0) by (subst; apply init_ok).
  clear E. induction H as [|st0 st1 st2 Hs _ IH]; [done|]. apply IH. by eapply step_ok.
Qed.

(** ** Exclusion *)

Lemma stack_ok_inside s held id :
  stack_ok s held → Exists (λ f, id ∈ fr_ids f) s → id ∈ (stack_guards s).*1.
Proof.
  intros Hs Hex. revert held Hs. induction Hex as [f s Hid|f s _ IH]; intros held [_ [Hf Hs]].
  - rewrite Forall_forall in Hf. by apply Hf.
  - unfold stack_guards. simpl. rewrite fmap_app. apply elem_of_app. right. by eapply IH.
Qed.

(** C8: mutual exclusion.  Whatever the tasks do, however they are interleaved or
    dropped, no two tasks are inside scopes for one dataset at the same time, be
    the scopes a [hold], a [lock] guard or a successful [try_lock], re-entrant or
    not; pruning the map never lets a second mutex for a locked dataset in. *)
Theorem locks_exclusive progs st tid1 tid2 t1 t2 id :
  rtc step (init progs) st →
  st_tasks st !! tid1 = Some t1 → st_tasks st !! tid2 = Some t2 →
  inside t1 id → inside t2 id → tid1 = tid2.
Proof.
  intros Hst%reachable_ok Ht1 Ht2 Hin1 Hin2.
  assert (Hown : ∀ tid t, st_tasks st !! tid = Some t → inside t id →
    ∃ a, locks (st_registry st) !! id = Some a ∧ st_owner st !! a = Some tid).
  { intros tid t Ht Hin. destruct (so_tasks _ Hst tid t Ht) as [Hg _ _ Hs _].
    apply (stack_ok_inside _ _ _ Hs) in Hin as ([id' a] & -> & Hga)%list_elem_of_fmap.
    rewrite Forall_forall in Hg. exists a. apply (Hg (id', a)).
    unfold task_guards. apply elem_of_app. by right. }
  destruct (Hown _ _ Ht1 Hin1) as (a1 & Ha1 & Ho1). destruct (Hown _ _ Ht2 Hin2) as (a2 & Ha2 & Ho2).
  congruence.
Qed.

(** ** The map of weak entries *)

Lemma live_elem st a :
  a ∈ live st ↔ ∃ tid t, st_tasks st !! tid = Some t ∧ a ∈ (task_refs t).*2.
Proof.
  unfold live. rewrite elem_of_list_to_set, list_elem_of_In, in_concat. split.
  - intros (l & Hl & Ha). apply in_map_iff in Hl as ([tid t] & <- & Ht). exists tid, t.
    split; [|by apply list_elem_of_In]. by apply elem_of_map_to_list, list_elem_of_In.
  - intros (tid & t & Ht & Ha). exists (task_refs t).*2. split; [|by apply list_elem_of_In].
    apply in_map_iff. exists (tid, t). split; [done|]. by apply list_elem_of_In, elem_of_map_to_list.
Qed.

Lemma live_grows st tid t t' r owner a :
  st_tasks st !! tid = Some t → (∀ g, g ∈ task_refs t → g ∈ task_refs t') → a ∈ live st →
  a ∈ live {| st_registry := r; st_owner := owner; st_tasks := <[tid := t']> (st_tasks st) |}.
Proof.
  intros Ht Hsub (k & tk & Hk & Ha)%live_elem. apply live_elem. simpl.
  destruct (decide (k = tid)) as [->|Hne].
  - exists tid, t'. rewrite lookup_insert_eq. split; [done|]. simplify_eq.
    apply list_elem_of_fmap in Ha as (g & -> & Hg). apply list_elem_of_fmap. eauto.
  - exists k, tk. by rewrite lookup_insert_ne.
Qed.

(** Where the map of entries grows: a new mutex, referenced by the task. *)
Lemma lock_arc_grows st tid t t' id r a owner :
  lock_arc (live st) id (st_registry st) = (r, a) →
  st_tasks st !! tid = Some t → (∀ g, g ∈ task_refs t → g ∈ task_refs t') → (id, a) ∈ task_refs t' →
  let st' := {| st_registry := r; st_owner := owner; st_tasks := <[tid := t']> (st_tasks st) |} in
  size (locks (st_registry st)) < size (locks r) →
  size (locks r) ≤ PRUNE_THRESHOLD ∨ map_Forall (λ _ a, a ∈ live st') (locks r).
Proof.
  intros Hl Ht Hsub Hin st' Hsz.
  destruct (lock_arc_cases (live st) id (st_registry st)) as [(?&_&_&E)|(kept&E&_&_&Hk)];
    rewrite Hl in E; simplify_eq/=; [lia|].
  destruct Hk as [Hk|Hk]; [left|right].
  - etransitivity; [apply size_insert_le|]. lia.
  - apply map_Forall_insert_2.
    + apply live_elem. exists tid, t'. simpl. rewrite lookup_insert_eq. split; [done|].
      apply list_elem_of_fmap. by exists (id, next_lock (st_registry st)).
    + intros k a Ha. eapply live_grows; [exact Ht|exact Hsub|]. by eapply Hk.
Qed.

(** The map of weak entries does not leak.  It grows only while it holds
    fewer than [PRUNE_THRESHOLD] entries, or when every entry is of a mutex some
    task holds or waits for. *)
Theorem lock_map_bounded progs st st' :
  rtc step (init progs) st → step st st' →
  size (locks (st_registry st)) < size (locks (st_registry st')) →
  size (locks (st_registry st')) ≤ PRUNE_THRESHOLD
  ∨ map_Forall (λ _ a, a ∈ live st') (locks (st_registry st')).
Proof.
  intros Hst%reachable_ok [tid st1 Hstep|tid t Ht _] Hsz; [|simpl in Hsz; lia].
  unfold task_step in Hstep. destruct (st_tasks st !! tid) as [t|] eqn:Ht; [|done]. simpl in Hstep.
  destruct (tk_ctl t) as [[|k|ids body k|id body k|id body k]|marks ids [|id todo] got [a|] body k|[|[id a] gs] k] eqn:Hc;
    try (repeat case_match; simplify_eq/=; lia).
  - case_decide; simplify_eq/=; [lia|]. destruct (lock_arc _ _ _) as [r a] eqn:Hl.
    destruct (lock_arc_spec _ _ _ _ _ (so_registry _ Hst) Hl) as (_ & _ & Ha & Hlive & _).
    destruct (st_owner st !! a) as [o|] eqn:Ho; simplify_eq/=.
    + exfalso. destruct (lock_arc_cases (live st) id (st_registry st)) as [(?&_&_&E)|(kept&E&_)];
        rewrite Hl in E; simplify_eq; [lia|].
      destruct (so_owner _ Hst _ _ Ho) as [Hlt _]. lia.
    + eapply (lock_arc_grows st tid t _ id r a); [exact Hl|exact Ht| |..|exact Hsz].
      * intros g. unfold task_refs, task_guards, waiting. rewrite Hc. simpl. unfold stack_guards. simpl.
        by right.
      * unfold task_refs, task_guards, stack_guards. simpl. by left.
  - destruct (lock_arc _ _ _) as [r a] eqn:Hl. simplify_eq/=.
    eapply (lock_arc_grows st tid t _ id r a); [exact Hl|exact Ht| |..|exact Hsz].
    + intros g. unfold task_refs, task_guards, waiting. rewrite Hc. simpl. by right.
    + unfold task_refs. simpl. by left.
Qed.

(** ** Disciplined tasks *)

Definition owns (s : list frame) : bool := bool_decide (stack_guards s ≠ []).

Fixpoint stack_disciplined (s : list frame) : Prop :=
  match s with
  | [] => True
  | f :: s' => disciplined (owns s') (fr_held f) (fr_k f) ∧ stack_disciplined s'
  end.

(** A task follows the discipline with what it has left to do; one that is taking
    locks owns no others and takes them in ascending order. *)
Definition task_disciplined (t : task) : Prop :=
  stack_disciplined (tk_stack t) ∧
  match tk_ctl t with
  | Run p => disciplined (owns (tk_stack t)) (tk_held t) p
  | Acquire marks ids todo got _ body k =>
      stack_guards (tk_stack t) = [] ∧ got.*1 ++ todo ≠ []
      ∧ StronglySorted N.lt (got.*1 ++ todo)
      ∧ disciplined true (if marks then tk_held t ∪ list_to_set (got.*1 ++ todo) else tk_held t) body
      ∧ disciplined false (tk_held t) k
  | Release _ k => disciplined (owns (tk_stack t)) (tk_held t) k
  end.

Lemma owns_false s : owns s = false ↔ stack_guards s = [].
Proof. unfold owns. rewrite bool_decide_eq_false. destruct (decide (stack_guards s = [])); tauto. Qed.

Lemma owns_enter f s : fr_guards f = [] → owns (f :: s) = owns s.
Proof. intros Hf. unfold owns, stack_guards. simpl. by rewrite Hf. Qed.

Lemma owns_enter_guards f s : fr_guards f ≠ [] → owns (f :: s) = true.
Proof.
  intros Hf. unfold owns, stack_guards. simpl. apply bool_decide_eq_true. by destruct (fr_guards f).
Qed.

Lemma to_take_union held ids : held ∪ list_to_set (to_take held ids) = held ∪ list_to_set ids.
Proof.
  apply set_eq. intros x. rewrite !elem_of_union, !elem_of_list_to_set, to_take_elem.
  destruct (decide (x ∈ held)); tauto.
Qed.

Lemma to_take_nil held ids : to_take held ids = [] ↔ Forall (λ id, id ∈ held) ids.
Proof.
  rewrite Forall_forall. split.
  - intros E x Hx. destruct (decide (x ∈ held)) as [|Hn]; [done|].
    assert (Hin : x ∈ to_take held ids) by by apply to_take_elem. rewrite E in Hin. by inversion Hin.
  - intros Hall. destruct (to_take held ids) as [|x l] eqn:E; [done|].
    assert (Hin : x ∈ to_take held ids) by (rewrite E; by left).
    apply to_take_elem in Hin as [Hn Hin]. destruct Hn. by apply Hall.
Qed.

Lemma enter_disciplined (marks : bool) ids (gs : list guard) body k t :
  stack_disciplined (tk_stack t) → disciplined (owns (tk_stack t)) (tk_held t) k →
  disciplined (match gs with [] => owns (tk_stack t) | _ => true end)
    (if marks then tk_held t ∪ list_to_set gs.*1 else tk_held t) body →
  task_disciplined (enter marks ids gs body k t).
Proof.
  intros Hs Hk Hb. split; simpl; [by split|]. destruct gs as [|g gs].
  - by rewrite owns_enter.
  - by rewrite owns_enter_guards.
Qed.

Lemma step_disciplined tid st st' :
  map_Forall (λ _ : nat, task_disciplined) (st_tasks st) → task_step tid st = Some st' →
  map_Forall (λ _ : nat, task_disciplined) (st_tasks st').
Proof.
  intros Hall Hstep. unfold task_step in Hstep.
  destruct (st_tasks st !! tid) as [t|] eqn:Ht; [|done]. simpl in Hstep.
  destruct (Hall tid t Ht) as [Hs Hd].
  assert (Hset : ∀ t' r o, task_disciplined t' → map_Forall (λ _ : nat, task_disciplined)
    (st_tasks (set_task tid t' (set_owner o (set_registry r st))))).
  { intros t' r o Ht'. simpl. by apply map_Forall_insert_2. }
  destruct (tk_ctl t) as [[|k|ids body k|id body k|id body k]|marks ids [|id todo] got [a|] body k|[|[id a] gs] k] eqn:Hc.
  - destruct (tk_stack t) as [|f s]; simplify_eq. apply Hset. destruct Hs. by split.
  - simplify_eq. apply Hset. by split.
  - destruct Hd as [Hb Hk]. destruct (to_take (tk_held t) ids) as [|id todo] eqn:E; simplify_eq; apply Hset.
    + apply to_take_nil in E. rewrite decide_True in Hb by done.
      apply enter_disciplined; try done. simpl. by rewrite union_empty_r_L.
    + rewrite decide_False in Hb by (intros Hn%to_take_nil; congruence). destruct Hb as [Ho Hb].
      rewrite Ho in Hk. split; [done|]. cbn [tk_ctl at_ctl tk_held]. rewrite fmap_nil, app_nil_l, <-E.
      split_and!; [by apply owns_false|by rewrite E|apply to_take_sorted|by rewrite to_take_union|done].
  - destruct Hd as [Hb Hk]. case_decide; simplify_eq; apply Hset.
    + by apply enter_disciplined.
    + destruct Hb as [Ho Hb]. rewrite Ho in Hk. split; [done|]. simpl. split_and!; try done.
      * by apply owns_false.
      * by repeat constructor.
  - destruct Hd as [Hb Hk]. case_decide; simplify_eq; [apply Hset; by apply enter_disciplined|].
    destruct (lock_arc _ _ _) as [r a]. destruct (st_owner st !! a); simplify_eq; apply Hset.
    + by split.
    + by apply enter_disciplined.
  - simplify_eq. apply Hset. destruct Hd as (Hg & Hne & _ & Hb & Hk). rewrite app_nil_r in Hne, Hb.
    apply owns_false in Hg as Ho. apply enter_disciplined; [done|by rewrite Ho|].
    destruct got; [done|by destruct marks].
  - simplify_eq. apply Hset. destruct Hd as (Hg & Hne & _ & Hb & Hk). rewrite app_nil_r in Hne, Hb.
    apply owns_false in Hg as Ho. apply enter_disciplined; [done|by rewrite Ho|].
    destruct got; [done|by destruct marks].
  - destruct (st_owner st !! a); simplify_eq. apply Hset. split; [done|].
    cbn [tk_ctl at_ctl tk_held tk_stack]. rewrite fmap_app. cbn [fmap list_fmap fst]. by rewrite <-app_assoc.
  - destruct (lock_arc _ _ _) as [r a]. simplify_eq. apply Hset. by split.
  - simplify_eq. apply Hset. by split.
  - simplify_eq. apply Hset. by split.
Qed.

Lemma disciplined_reachable progs st :
  Forall (disciplined false ∅) progs → rtc step (init progs) st →
  map_Forall (λ _ : nat, task_disciplined) (st_tasks st).
Proof.
  intros Hp H. remember (init progs) as st0 eqn:E.
  assert (Hok : map_Forall (λ _ : nat, task_disciplined) (st_tasks st0)).
  { subst. intros tid t Ht. simpl in Ht. apply lookup_map_seq_Some in Ht as [_ Ht].
    apply list_lookup_fmap_Some in Ht as (p & -> & Hin). rewrite Forall_forall in Hp.
    split; [done|]. apply Hp. by eapply list_elem_of_lookup_2. }
  clear E. induction H as [|st0 st1 st2 Hs _ IH]; [done|]. apply IH.
  destruct Hs as [tid st1 Hs|tid t Ht _]; [by eapply step_disciplined|].
  apply map_Forall_insert_2; [by split|done].
Qed.

(** ** No deadlock *)

Lemma task_step_blocked tid t st :
  st_tasks st !! tid = Some t → task_step tid st = None →
  finished t ∨ ∃ marks ids id todo got a body k o,
    tk_ctl t = Acquire marks ids (id :: todo) got (Some a) body k ∧ st_owner st !! a = Some o.
Proof.
  intros Ht Hstep. unfold task_step in Hstep. rewrite Ht in Hstep. simpl in Hstep. unfold finished.
  destruct (tk_ctl t) as [[|k|ids body k|id body k|id body k]|marks ids [|id todo] got [a|] body k|[|[id a] gs] k] eqn:Hc;
    try (repeat case_match; done).
  - destruct (tk_stack t); [by left|done].
  - right. destruct (st_owner st !! a) eqn:Ho; [|done]. by repeat eexists.
Qed.

Lemma max_exists {A} (f : A → N) (l : list A) :
  l ≠ [] → ∃ x, x ∈ l ∧ ∀ y, y ∈ l → (f y ≤ f x)%N.
Proof.
  induction l as [|x l IH]; [done|]. intros _. destruct (decide (l = [])) as [->|Hl].
  - exists x. split; [by left|]. intros y [->|Hy]%elem_of_cons; [lia|by inversion Hy].
  - destruct (IH Hl) as (z & Hz & Hmax). destruct (decide (f z ≤ f x)%N).
    + exists x. split; [by left|]. intros y [->|Hy]%elem_of_cons; [lia|]. specialize (Hmax y Hy). lia.
    + exists z. split; [by right|]. intros y [->|Hy]%elem_of_cons; [lia|]. by apply Hmax.
Qed.

(** A task that waits for a mutex waits for one whose owner waits for a greater id,
    if it waits at all. *)
Lemma owner_ahead st tid t marks ids id todo got a body k o :
  state_ok st → map_Forall (λ _ : nat, task_disciplined) (st_tasks st) →
  st_tasks st !! tid = Some t → tk_ctl t = Acquire marks ids (id :: todo) got (Some a) body k →
  st_owner st !! a = Some o →
  ∃ t', st_tasks st !! o = Some t' ∧ ¬ finished t'
    ∧ ∀ g, waiting t' = Some g → (id < g.1)%N.
Proof.
  intros Hst Hd Ht Hc Ho. destruct (so_owner _ Hst a o Ho) as (_ & t' & Ht' & Hin).
  pose proof (to_wait _ _ _ _ (so_tasks _ Hst tid t Ht) (id, a)) as Hw. unfold waiting in Hw.
  rewrite Hc in Hw. specialize (Hw eq_refl). simpl in Hw.
  apply list_elem_of_fmap in Hin as ([id' a'] & ? & Hg). simpl in *. subst a'.
  pose proof (to_guards _ _ _ _ (so_tasks _ Hst o t' Ht')) as Hgs. rewrite Forall_forall in Hgs.
  destruct (Hgs _ Hg) as [Hl' _]. simpl in Hl'.
  assert (id' = id) as -> by by eapply (rk_inj _ (so_registry _ Hst)).
  exists t'. split; [done|]. destruct (Hd o t' Ht') as [_ Hdt]. split.
  - intros [Hf1 Hf2]. unfold task_guards in Hg. rewrite Hf1, Hf2 in Hg. by inversion Hg.
  - intros [id2 a2] Hw2. unfold waiting in Hw2. unfold task_guards in Hg.
    destruct (tk_ctl t') as [|m' ids' [|id3 todo'] got' [a3|] body' k'|]; simplify_eq/=.
    destruct Hdt as (Hnil & _ & Hsort & _). rewrite Hnil, app_nil_r in Hg.
    eapply (StronglySorted_app_1_elem_of N.lt); [exact Hsort| |by left].
    apply list_elem_of_fmap. by exists (id, a).
Qed.

Lemma progress st :
  state_ok st → map_Forall (λ _ : nat, task_disciplined) (st_tasks st) →
  (∀ tid, task_step tid st = None) → map_Forall (λ _ : nat, finished) (st_tasks st).
Proof.
  intros Hst Hd Hblocked tid t Ht.
  destruct (task_step_blocked tid t st Ht (Hblocked tid)) as [|Hb]; [done|exfalso].
  destruct Hb as (marks & ids & id & todo & got & a & body & k & o & Hc & Ho).
  pose (f := λ p : nat * task, match waiting p.2 with Some g => N.succ g.1 | None => 0%N end).
  destruct (max_exists f (map_to_list (st_tasks st))) as ([tid1 t1] & Hin1 & Hmax).
  { intros E%map_to_list_empty_iff. by rewrite E in Ht. }
  assert (Hle : ∀ tid2 t2, st_tasks st !! tid2 = Some t2 → (f (tid2, t2) ≤ f (tid1, t1))%N).
  { intros tid2 t2 Ht2. apply Hmax. by apply elem_of_map_to_list. }
  apply elem_of_map_to_list in Hin1.
  assert (Hf : ∀ k u, match tk_ctl u with Acquire _ _ (i :: _) _ (Some _) _ _ => f (k, u) = N.succ i
                      | _ => f (k, u) = 0%N end).
  { intros k0 u. unfold f, waiting. simpl. by repeat case_match. }
  assert (Hpos : (0 < f (tid1, t1))%N).
  { specialize (Hle tid t Ht). specialize (Hf tid t). rewrite Hc in Hf. lia. }
  destruct (task_step_blocked tid1 t1 st Hin1 (Hblocked tid1)) as [[Hrun _]|Hb1].
  { specialize (Hf tid1 t1). rewrite Hrun in Hf. lia. }
  destruct Hb1 as (m1 & ids1 & id1 & todo1 & got1 & a1 & body1 & k1 & o1 & Hc1 & Ho1).
  destruct (owner_ahead st tid1 t1 _ _ _ _ _ _ _ _ _ Hst Hd Hin1 Hc1 Ho1) as (t2 & Ht2 & Hnf & Hlt).
  destruct (task_step_blocked o1 t2 st Ht2 (Hblocked o1)) as [|Hb2]; [done|].
  destruct Hb2 as (m2 & ids2 & id2 & todo2 & got2 & a2 & body2 & k2 & o2 & Hc2 & Ho2).
  specialize (Hle o1 t2 Ht2). specialize (Hlt (id2, a2)).
  pose proof (Hf tid1 t1) as Hf1. pose proof (Hf o1 t2) as Hf2. rewrite Hc1 in Hf1. rewrite Hc2 in Hf2.
  unfold waiting in Hlt. rewrite Hc2 in Hlt. specialize (Hlt eq_refl). simpl in Hlt. lia.
Qed.

(** ** Termination *)

Fixpoint prog_work (p : prog) : nat :=
  match p with
  | Done => 1
  | Await k => 2 + prog_work k
  | Hold ids body k => 3 * length ids + 5 + prog_work body + prog_work k
  | Lock _ body k | TryLock _ body k => 8 + prog_work body + prog_work k
  end.

Definition stack_work (s : list frame) : nat :=
  sum_list_with (λ f, 2 + length (fr_guards f) + prog_work (fr_k f)) s.

(** A bound on the steps a task has left. *)
Definition task_work (t : task) : nat :=
  stack_work (tk_stack t) +
  match tk_ctl t with
  | Run p => prog_work p
  | Acquire _ _ todo got wait body k =>
      3 * length todo + (match wait with Some _ => 0 | None => 1 end) + length got + 3
      + prog_work body + prog_work k
  | Release gs k => length gs + 1 + prog_work k
  end.

Definition work (st : state) : nat := sum_list_with (λ p, task_work p.2) (map_to_list (st_tasks st)).

Lemma sum_list_with_Permutation {A} (f : A → nat) l k : l ≡ₚ k → sum_list_with f l = sum_list_with f k.
Proof. induction 1; simpl; lia. Qed.

Lemma work_update st tid t t' r o :
  st_tasks st !! tid = Some t →
  work {| st_registry := r; st_owner := o; st_tasks := <[tid := t']> (st_tasks st) |} + task_work t
    = work st + task_work t'.
Proof.
  intros Ht. unfold work. simpl.
  assert (Hsum : ∀ u, sum_list_with (λ p : nat * task, task_work p.2) (map_to_list (<[tid := u]> (st_tasks st)))
    = task_work u + sum_list_with (λ p : nat * task, task_work p.2) (map_to_list (delete tid (st_tasks st)))).
  { intros u. rewrite <-insert_delete_eq.
    rewrite (sum_list_with_Permutation _ _ _ (map_to_list_insert _ tid u (lookup_delete_eq _ tid))). done. }
  pose proof (Hsum t) as Hs. rewrite insert_id in Hs by done. rewrite Hsum, Hs. lia.
Qed.

Lemma to_take_length held ids : length (to_take held ids) ≤ length ids.
Proof.
  assert (Hd : ∀ l, length (dedup l) ≤ length l).
  { intros l. induction l as [|x [|y l] IH]; [simpl; lia..|]. rewrite dedup_cons. case_decide; simpl in *; lia. }
  unfold to_take. etransitivity; [apply Hd|].
  rewrite (Permutation_length (merge_sort_Permutation N.le _)). apply length_filter.
Qed.

Lemma prog_work_pos p : 0 < prog_work p.
Proof. destruct p; simpl; lia. Qed.

Lemma task_step_work tid st st' : task_step tid st = Some st' → work st' < work st.
Proof.
  intros Hstep. unfold task_step in Hstep.
  destruct (st_tasks st !! tid) as [t|] eqn:Ht; [|done]. simpl in Hstep.
  assert (Hset : ∀ t' r o, task_work t' < task_work t →
    work (set_task tid t' (set_owner o (set_registry r st))) < work st).
  { intros t' r o Hlt. pose proof (work_update st tid t t' r o Ht) as Hw. unfold set_task. simpl. lia. }
  unfold task_work, stack_work in Hset.
  destruct (tk_ctl t) as [[|k|ids body k|id body k|id body k]|marks ids [|id todo] got [a|] body k|[|[id a] gs] k] eqn:Hc;
    try (simplify_eq; apply Hset; simpl; lia).
  - destruct (tk_stack t) as [|f s] eqn:Hs; simplify_eq. apply Hset. simpl. lia.
  - pose proof (to_take_length (tk_held t) ids).
    destruct (to_take (tk_held t) ids) as [|id todo]; simplify_eq; apply Hset; simpl in *; lia.
  - case_decide; simplify_eq; apply Hset; simpl; lia.
  - pose proof (prog_work_pos body). case_decide; simplify_eq; [apply Hset; simpl; lia|].
    destruct (lock_arc _ _ _) as [r a]. destruct (st_owner st !! a); simplify_eq; apply Hset; simpl; lia.
  - destruct (st_owner st !! a); simplify_eq. apply Hset. simpl. rewrite length_app. simpl. lia.
  - destruct (lock_arc _ _ _) as [r a]. simplify_eq. apply Hset. simpl. lia.
Qed.

Lemma stack_work_guards s : length (stack_guards s) + 3 * length s ≤ stack_work s.
Proof.
  unfold stack_work, stack_guards. induction s as [|f s IH]; simpl in *; [lia|].
  rewrite length_app. pose proof (prog_work_pos (fr_k f)). lia.
Qed.

Lemma cancelled_work t : ¬ dropping t → task_work (cancelled t) < task_work t.
Proof.
  intros Hd. unfold task_work. simpl. unfold task_guards. rewrite length_app.
  pose proof (stack_work_guards (tk_stack t)) as Hs. unfold dropping in Hd.
  destruct (tk_ctl t) as [p|marks ids todo got wait body k|gs k]; simpl.
  - destruct p as [|k|ids b k|id b k|id b k]; [|pose proof (prog_work_pos k); simpl; lia..].
    destruct (tk_stack t); [done|]. simpl in *. lia.
  - pose proof (prog_work_pos body). pose proof (prog_work_pos k). lia.
  - destruct k as [|k|ids b k|id b k|id b k]; [|pose proof (prog_work_pos k); simpl; lia..].
    destruct (tk_stack t); [done|]. simpl in *. lia.
Qed.

Lemma step_work st st' : step st st' → work st' < work st.
Proof.
  intros [tid st1 Hs|tid t Ht Hd]; [by eapply task_step_work|].
  pose proof (cancelled_work t Hd). pose proof (work_update st tid t (cancelled t) (st_registry st) (st_owner st) Ht).
  unfold set_task. lia.
Qed.

(** C9: deadlock freedom and termination.  When every task takes the locks it may
    have to wait for with no lock in its hands (nested [hold]s and [lock]s only
    re-enter; [try_lock] is free), then, under every interleaving and whatever is
    dropped, a state in which no task can move is one where every task has
    finished, and no execution is longer than the work the tasks started with. *)
Theorem locks_all_finish progs :
  Forall (disciplined false ∅) progs →
  (∀ st, rtc step (init progs) st → (∀ tid, task_step tid st = None) →
     map_Forall (λ _ : nat, finished) (st_tasks st))
  ∧ ∀ n st, nsteps step n (init progs) st → n ≤ work (init progs).
Proof.
  intros Hp. split.
  - intros st Hst. apply progress; [by eapply reachable_ok|by eapply disciplined_reachable].
  - intros n st Hn. generalize dependent (init progs). intros st0 Hn.
    induction Hn as [|n st0 st1 st2 Hs _ IH]; [lia|]. apply step_work in Hs. lia.
Qed.

(** ** Witnesses *)

(** Two tasks that hold overlapping sets, one of them re-entering, and a third that
    tries one of the locks. *)
Definition example_progs : list prog :=
  [Hold [7; 3]%N (Lock 3%N (Await Done) Done) Done;
   Hold [3; 7; 9]%N (Hold [9]%N (Await Done) Done) Done;
   TryLock 7%N (Await Done) (Lock 9%N Done Done)].

(** Run the tasks round robin for [n] steps. *)
Fixpoint run_some (order : list nat) (st : state) : option state :=
  match order with
  | [] => Some st
  | tid :: order => st' ← task_step tid st; run_some order st'
  end.

Lemma run_some_rtc order st st' : run_some order st = Some st' → rtc step st st'.
Proof.
  revert st. induction order as [|tid order IH]; intros st H; simpl in H; [by simplify_eq|].
  destruct (task_step tid st) as [st1|] eqn:Hs; [|done]. eapply rtc_l; [by eapply step_task|by apply IH].
Qed.

(** The first task is in its re-entrant scope; the others wait. *)
Lemma locks_exclusive_witness :
  ∃ st t, run_some [0; 0; 1; 0; 0; 1; 0; 0; 0; 0] (init (take 2 example_progs)) = Some st
    ∧ st_tasks st !! 0 = Some t ∧ length (tk_stack t) = 2 ∧ inside t 3%N
    ∧ (∀ t1, st_tasks st !! 1 = Some t1 → ¬ inside t1 3%N).
Proof.
  destruct (run_some [0; 0; 1; 0; 0; 1; 0; 0; 0; 0] (init (take 2 example_progs))) as [st|] eqn:E;
    [|by vm_compute in E].
  destruct (st_tasks st !! 0) as [t|] eqn:Ht; [|by vm_compute in E; simplify_eq; vm_compute in Ht].
  assert (Hin : inside t 3%N ∧ length (tk_stack t) = 2).
  { vm_compute in E. injection E as <-. vm_compute in Ht. injection Ht as <-. split; [|done].
    repeat constructor. }
  exists st, t. split; [done|]. split; [done|]. split; [apply Hin|]. split; [apply Hin|].
  intros t1 Ht1 Hin1.
  discriminate (locks_exclusive (take 2 example_progs) st 0 1 t t1 3%N (run_some_rtc _ _ _ E) Ht Ht1
    (proj1 Hin) Hin1).
Defined.

Lemma lock_map_bounded_witness :
  ∃ st st', run_some [0] (init example_progs) = Some st ∧ task_step 0 st = Some st'
    ∧ size (locks (st_registry st')) = 1
    ∧ (size (locks (st_registry st')) ≤ PRUNE_THRESHOLD
       ∨ map_Forall (λ _ a, a ∈ live st') (locks (st_registry st'))).
Proof.
  destruct (run_some [0] (init example_progs)) as [st|] eqn:E; [|by vm_compute in E].
  destruct (task_step 0 st) as [st'|] eqn:E'; [|by vm_compute in E; simplify_eq; vm_compute in E'].
  assert (Hsz : size (locks (st_registry st)) = 0 ∧ size (locks (st_registry st')) = 1).
  { vm_compute in E. injection E as <-. vm_compute in E'. injection E' as <-. by vm_compute. }
  exists st, st'. split; [done|]. split; [done|]. split; [apply Hsz|].
  apply (lock_map_bounded example_progs st st' (run_some_rtc _ _ _ E) (step_task _ _ _ E')).
  destruct Hsz as [-> ->]. lia.
Defined.

(** One task after the other: 43 steps to the end. *)
Definition example_schedule : list nat := replicate 14 0 ++ replicate 17 1 ++ replicate 12 2.

Lemma locks_all_finish_witness :
  ∃ st, run_some example_schedule (init example_progs) = Some st
    ∧ map_Forall (λ _ : nat, finished) (st_tasks st) ∧ size (st_tasks st) = 3.
Proof.
  assert (Hd : Forall (disciplined false ∅) example_progs) by (repeat constructor; vm_compute; repeat split).
  destruct (run_some example_schedule (init example_progs)) as [st|] eqn:E; [|by vm_compute in E].
  exists st. split; [reflexivity|]. split.
  - apply (proj1 (locks_all_finish example_progs Hd) st (run_some_rtc _ _ _ E)).
    vm_compute in E. injection E as <-. intros [|[|[|tid]]]; [vm_compute; reflexivity..|].
    unfold task_step. match goal with |- (_ ← ?l; _) = None => destruct l as [t|] eqn:Ht; [exfalso|done] end.
    match type of Ht with st_tasks ?st !! _ = _ =>
      assert (Hlt : map_Forall (λ k _, k < 3) (st_tasks st)) by (apply (bool_decide_unpack _); vm_compute; exact I) end.
    specialize (Hlt _ _ Ht). simpl in Hlt. lia.
  - vm_compute in E. injection E as <-. vm_compute. reflexivity.
Defined.
